(* ===== verification/_CoqProject ===== *)
-Q . S2P
Prelude.v
VisitedObjectSet.v
RingBuffer.v
SyscallWrappers.v
CrashHandler.v
ManagedThreadList.v
TypeReferenceTree.v
TypeTreeJson.v
FaultMonad.v
GCDesc.v
VisitedSet.v
ReferenceChainTraverser.v
TraversalSafety.v
TraversalComplete.v
TraversalDump.v
Sampling.v
ThreadInfo.v
EventPayloads.v
ClrEventsParser.v
GcLifecycle.v
EventDecoding.v
HeapSnapshot.v
SnapshotSchedule.v
HeapDump.v
CodeCache.v
SpinningLock.v
Unwinding.v
StackCapture.v
CpuProfiler.v
SamplerManager.v
SamplerLoop.v
NetworkActivity.v
NetworkRequests.v
PprofBuilder.v
SampleExport.v
LiveObjects.v
SamplesCollector.v
ExportSink.v
CountedStrings.v
ProfilerTags.v
LibrariesCache.v
LibrariesService.v
LinkedLists.v
DelayedStart.v
ContentionSamples.v
AllocationSamples.v
ThreadStat.v
NativeThreads.v
