(* ===== verification/Prelude.v ===== *)
(** * Verification of the native .NET profiler

    The program is the native profiler of [src/profiler/src/ProfilerEngine]: a library that
    the .NET runtime loads into a process ([Datadog.Profiler.Native] and its Linux half
    [Datadog.Profiler.Native.Linux], written N/ and L/ below), with a second small library
    that interposes functions of the C library ([Datadog.Linux.ApiWrapper], written A/).

    ** How the parts work together

    - CPU and wall-time sampling.  The runtime tells the profiler which threads exist; they
      are kept in a list of records that the samplers walk.  A timer per thread (CPU) or the
      sampling thread (wall time) sends a signal to a thread; its handler walks the stack of
      the thread it interrupted, asking a cache of code ranges which addresses are managed,
      under a lock that is safe in a signal handler.  CPU samples go through a ring buffer in
      shared memory to the exporter; wall-time samples are handed over through a condition
      variable.  A sampling thread chooses the threads in turn, and a watcher resumes a thread
      whose walk is stuck.  The interposed functions keep the handlers away from code where a
      walk would deadlock, and restart the system calls that the signals interrupt.
    - Runtime events.  A parser decodes the payloads, follows the garbage collections and
      calls listeners; samplers decide which events are kept.  The events of network requests
      carry the path of their activity, by which they are joined into one sample.
    - Profiles.  Providers store raw samples; a collector turns them into samples through the
      names of their frames, the exporter cuts the values of a sample into one profile per
      type, a builder interns what a profile holds, and a sink uploads the profiles.
    - Heap snapshots.  A manager makes the runtime run a collection that describes its heap;
      the callbacks count the objects per class and traverse the object graph from every
      root, reading raw memory through the descriptors of the garbage collector under a
      guard that recovers from faults; the result is a tree of types, serialized as bytes or
      as JSON.
    - Crashes.  The interposed functions redirect the dump tool of the runtime.

    ** Files, in dependency order

    - [Prelude]: integers of a given width, checked arrays, lists, tactics and the hint
      database [prof].
    - [VisitedObjectSet] (N/VisitedObjectSet.h), [VisitedSet]: the hash set of visited
      objects, and the class of the operations and laws its client relies on.
    - [RingBuffer] (L/RingBuffer.cpp): the ring buffer and the bounded queue it
      refines.
    - [SyscallWrappers], [CrashHandler] (the C files of A/): symbol resolution and retried system calls;
      counters of the threads inside of the loader, crash redirection, signal masks, threads.
    - [ManagedThreadList], [ThreadInfo] (N/ManagedThreadList.cpp, ManagedThreadInfo.h): the list
      with its indexes and iterators; the record of a thread and the trace context that
      managed code publishes.
    - [TypeReferenceTree], [TypeTreeJson] (N/TypeReferenceTree.h and serializers): the tree, its two
      serializers and a reader of the documented byte format.
    - [FaultMonad] (N/MemoryFaultGuard.h): computations that fault, throw or get stuck, with
      a small Hoare logic; also used for the unwinder.
    - [GCDesc] (N/GCDescReader.h), [ReferenceChainTraverser] (N/ReferenceChainTraverser.cpp,
      InlineVTCache.cpp), and about them [TraversalSafety], [TraversalComplete],
      [TraversalDump].
    - [Sampling] (N/AdaptiveSampler.cpp, GenericSampler.cpp, GroupSampler.h,
      PoissonAllocationSampler.cpp): the samplers.
    - [EventPayloads], [ClrEventsParser] (N/EventsParserHelper.h, ClrEventsParser.cpp,
      GarbageCollection.h), and about them [GcLifecycle], [EventDecoding].
    - [HeapSnapshot] (N/HeapSnapshotManager.cpp, SnapshotCooldown.h), and about it
      [SnapshotSchedule], [HeapDump].
    - [CodeCache] (N/ManagedCodeCache.cpp), [SpinningLock]
      (N/ReaderWriterSpinningMutex.hpp): the code ranges and their lock.
    - [Unwinding] (L/HybridUnwinder.cpp, UnwindingRecorder.h, N/Callstack.cpp): the walk.
    - [StackCapture] (L/ProfilerSignalManager.cpp, LinuxStackFramesCollector.cpp,
      N/StackFramesCollectorBase.cpp): the handler of the signal, and the handshake between
      the sampling thread and the handlers.
    - [CpuProfiler] (L/TimerCreateCpuProfiler.cpp, RawSampleCollectorBase.h,
      N/ServiceBase.cpp): timers, handlers, service and exporter.
    - [SamplerManager], [SamplerLoop] (N/StackSamplerLoopManager.cpp, StackSamplerLoop.cpp): the
      watcher of stuck walks with its statistics, and the loop of the sampling thread.
    - [NetworkActivity], [NetworkRequests] (N/NetworkActivity.cpp, BclEventsParser.cpp,
      NetworkProvider.cpp): the paths in the identifiers of activities, and the requests.
    - [PprofBuilder], [SampleExport] (N/PprofBuilder.cpp, Sample.h, RawSampleTransformer.cpp,
      SampleValueTypeProvider.cpp, PprofExporter.cpp): samples and profiles.
    - [LiveObjects] (N/LiveObjectsProvider.cpp), [SamplesCollector] (N/SamplesCollector.cpp,
      CollectorBase.h), [ExportSink] (N/SamplesCollector.cpp, PyroscopePprofSink.cpp): objects
      followed by weak handles, the way of the raw samples, the times of the exports and the
      queue of uploads.
    - [CountedStrings], [ProfilerTags] (N/async_ref_counted_string.cpp, JavaProfilerTags.cpp,
      PInvoke.cpp): interned strings with atomic counters, and the labels of a thread.
    - [LibrariesCache], [LibrariesService] (L/LibrariesInfoCache.cpp, DlPhdrInfoWrapper.cpp): the
      functions of the loaded libraries, and the service that copies the list of the loader
      for the signal handlers.
    - [LinkedLists] (N/LinkedList.hpp, RawSamples.hpp): the lists of raw samples.
    - [DelayedStart] (N/SsiManager.cpp): the threads that find out when to start the profiler.
    - [ContentionSamples], [AllocationSamples] (N/ContentionProvider.cpp,
      AllocationsProvider.cpp): from the events of the runtime to raw samples.
    - [ThreadStat] (L/OsSpecificApi.cpp, N/OpSysTools.h), [NativeThreads]
      (N/NativeThreadsCpuProviderBase.cpp, GCThreadsCpuProvider.cpp): the processor time of a
      thread, and of the threads of the garbage collector.

    ** Conventions

    Definitions keep the names of the source.  A class is a record with the members of the
    class; a method is a function from the state, and from what the environment answers, to
    the new state and the result.  Values of a given width are in [Z] with the truncation
    written out ([u32], [u64], [i32]).  [None], [Stuck] or [Broken] stand for undefined
    behaviour or a loop that has not ended, which the theorems exclude.  The real libc, the
    profiling API, libunwind, the kernel and the memory of the process are arguments of the
    definitions that use them.  Threads are interleaved as sequences of atomic steps:
    atomic operations in [SpinningLock], [CountedStrings] and [Sampling], reads and writes of
    shared fields in [DelayedStart], [LibrariesService] and [SnapshotSchedule], the code
    between two synchronisations in [StackCapture] and [CpuProfiler], where registrations
    and the loops under the register lock go one system call or access at a time; a
    collection over all providers is one step of [SamplesCollector].  Memory is
    sequentially consistent.

    ** What the theorems show

    - Refinement: the visited set is a finite map ([execs_refines]), also after interrupted
      insertions; the ring buffer is a bounded queue ([ring_buffer_refines_queue]); the
      schedule of snapshots is the abstract one, and the pauses between snapshots are
      kept unless a collection ends inside of a few instructions
      ([snapshots_follow_schedule]); the CPU
      profiler hands every committed sample over once, in order and unchanged, down to the
      mapped memory ([cpu_samples_delivered]); the tags of threads are maps
      ([tags_are_maps]); linked lists are lists of values ([lists_hold_values]); raw samples
      reach the profile of their provider once and in order ([raw_samples_exported]),
      whatever the steps of the collector.
    - Providers: contentions and waits are measured and counted by bucket
      ([contentions_accounted]); the allocations the sampler keeps are recorded, and no
      others ([allocations_recorded]); the time of the threads of the garbage collector,
      which are those of the first lists that name any, is reported once
      ([gc_cpu_reported]).
    - Heap dumps: every dump returns whatever memory, API and faults do ([dump_returns],
      [dump_callbacks_return]), visits exactly what can be reached within the limit of
      depth ([traversal_explores]), each object once, and reads inside of objects only
      ([EnumerateObjectRefs_in_bounds]).
    - Concurrency: the lock excludes ([lock_excludes]); counted strings are neither used after
      they were freed nor leaked ([counted_strings_safe]); a walk is written for the thread that
      was asked for ([capture_exclusive]); the timers of the kernel are those
      of the threads, also in the middle of registrations and of the stop
      ([timers_balanced]); signals know when they interrupt a wrapped function
      ([signals_see_wrapped_calls]); handlers see whole copies of the list
      of libraries ([handlers_see_snapshots]); the profiler is started once at most and,
      if the managed configurations do not overlap, when it should ([delayed_start_exact]);
      a walk of the sampling thread is watched
      ([walks_are_guarded]) and no thread deadlocks often ([deadlocks_bounded]).
    - Sampling: an iteration returns ([wall_iteration_returns]) and the intervals that samples
      stand for do not overlap as long as the system clock is not set back
      ([samples_do_not_overlap]).
    - Walks: the unwinder returns ([unwind_returns]) with the frames of the reference list
      ([managed_frames_reference]); the code cache answers as a search of all the code
      ([code_lookup_reference]), the cache of libraries as one of all their functions
      ([function_starts_found]).
    - Events: collections are reported with the right figures ([background_gc_reported]);
      phases find the request they belong to, with or without the stray byte that some
      runtimes leave in identifiers ([phases_find_their_request]), and requests are
      measured ([request_measured]).
    - Formats: the bytes of the tree ([binary_roundtrip]), the profiles
      ([profiles_read_back]) and the processor time of a thread ([cpu_time_read]) are read
      back.
    - Export: profiles tile the time after a first wait that may be short
      ([export_windows_tile]), weak handles are balanced ([weak_handles_balanced]).
    - Further theorems are lemmas of their files: the JSON document, the histogram of a dump,
      the budget of the samplers, retried system calls, the redirection of crashes, the chain
      of signal handlers, the order of uploads, stuck walks, the independence of requests,
      the reports of all collections, trace contexts that are not torn.  Modules named
      [Example_...] evaluate the models on concrete inputs; some show behaviour that
      contradicts what the code or its comments intend, such as [live_object_overwritten] of
      [SamplesCollector] or [cpu_time_overflows] of [ThreadStat].

    ** Fuel

    Loops that are not structural have a fuel, and the theorems show that it is enough: the
    length of the table for a probe; the number of records for [GetNext]; 10 for a 64-bit
    varint; more than the size of the visited universe for the traversal stack, and the
    nesting rank of the types for nested value types; 17, one more than the faults allowed,
    for the resume loop; the length of the payload for static variables (an entry takes 30
    bytes); the size of the frame buffer for native frames; the words of the stack and two
    for the chain of frame records, since valid frame pointers go up; 2 for nested signal
    handlers; 4000 spins and the steps until the timeout for a handler that wants the lock;
    the number of threads for an iteration of the sampling loop; the twelve bytes of an
    identifier; the number of types for the groups of the exporter; 8 atomic steps for a
    call on a counted string that nobody disturbs; 14 tests for the elements of a line of
    /proc, of which the fifteenth is the last one needed, and 12 for the ten digits of an
    identifier; the number of nodes for a linked list.

    ** Not modelled

    Input and output (HTTP requests, logs, files, environment), the wiring in
    CorProfilerCallback.cpp, the names that FrameStore.cpp asks the runtime for, the Windows
    half, generated and third-party code (corprof.h, libunwind, the pprof messages and their
    serializer, filesystem.hpp, miniutf, DogFood.hpp), and the C# facade.  Of the modelled
    parts: logging, metrics registration, creation and joining of threads, Callstack ownership
    of pooled buffers, a thread that collects its own stack, floating-point weights, weak
    memory orders.

    What is left of the program's own logic is thin: the providers of exceptions and of
    garbage collections ask the metadata API of the runtime or copy the arguments of an
    event; the pools of callstack buffers, the free list of recorders and the queue behind a
    mutex are containers of the standard library under a lock; cgroup.cpp and
    Configuration.cpp read files and variables. *)
From stdpp Require Import base gmap list strings.
From Stdlib Require Import ZArith Lia.

#[global] Open Scope Z_scope.

(** * Machine integers

    A w-bit unsigned value is a [Z] in [0, 2^w); an operation that the source
    performs at that width is followed by the matching truncation. *)

Definition wrap (w x : Z) : Z := x mod 2 ^ w.
Abbreviation u8 x := (wrap 8 x).
Abbreviation u16 x := (wrap 16 x).
Abbreviation u32 x := (wrap 32 x).
Abbreviation u64 x := (wrap 64 x).

(** Two's complement reading of the low [w] bits. *)
Definition swrap (w x : Z) : Z :=
  let r := x mod 2 ^ w in if r <? 2 ^ (w - 1) then r else r - 2 ^ w.
Abbreviation i32 x := (swrap 32 x).
Abbreviation i64 x := (swrap 64 x).

Definition in_u (w x : Z) : Prop := 0 <= x < 2 ^ w.
Definition in_s (w x : Z) : Prop := - 2 ^ (w - 1) <= x < 2 ^ (w - 1).

Lemma wrap_range w x : 0 <= w -> in_u w (wrap w x).
Proof. intros. apply Z.mod_pos_bound. lia. Qed.

Lemma wrap_small w x : in_u w x -> wrap w x = x.
Proof. intros. by apply Z.mod_small. Qed.

Lemma u64_add a b : u64 (u64 a + b) = u64 (a + b).
Proof. unfold wrap. by rewrite Zplus_mod_idemp_l. Qed.

Lemma wrap_le w x : 0 <= w -> 0 <= x -> wrap w x <= x.
Proof. intros. apply Z.mod_le; lia. Qed.

Lemma swrap_small w x : 0 < w -> in_s w x -> swrap w x = x.
Proof.
  intros Hw [Hl Hh]. unfold swrap.
  assert (2 ^ w = 2 * 2 ^ (w - 1)) as Hp
    by (rewrite <- Z.pow_succ_r by lia; f_equal; lia).
  destruct (decide (0 <= x)).
  - rewrite Z.mod_small by lia. by rewrite (proj2 (Z.ltb_lt _ _) Hh).
  - assert (x mod 2 ^ w = x + 2 ^ w) as ->.
    { symmetry. apply Z.mod_unique with (-1); lia. }
    destruct (Z.ltb_spec (x + 2 ^ w) (2 ^ (w - 1))); lia.
Qed.

Lemma swrap_range w x : 0 < w -> in_s w (swrap w x).
Proof.
  intros Hw. unfold swrap, in_s.
  assert (2 ^ w = 2 * 2 ^ (w - 1)) as Hp
    by (rewrite <- Z.pow_succ_r by lia; f_equal; lia).
  pose proof (Z.mod_pos_bound x (2 ^ w)).
  destruct (Z.ltb_spec (x mod 2 ^ w) (2 ^ (w - 1))); lia.
Qed.

Lemma land_mask k x : 0 <= k -> Z.land x (2 ^ k - 1) = x mod 2 ^ k.
Proof.
  intros. rewrite <- Z.land_ones by done. by rewrite Z.ones_equiv, Z.sub_1_r.
Qed.

(** * Arrays indexed by machine integers *)

(** Reading out of range is undefined behaviour in the source: [None]. *)
Definition zget {A} (l : list A) (i : Z) : option A :=
  if i <? 0 then None else l !! Z.to_nat i.

(** Writing; out of range is again [None]. *)
Definition zset {A} (l : list A) (i : Z) (x : A) : option (list A) :=
  if (0 <=? i) && (i <? Z.of_nat (length l)) then Some (<[Z.to_nat i := x]> l) else None.

Abbreviation zlen l := (Z.of_nat (length l)).

Lemma zget_Some {A} (l : list A) i x :
  zget l i = Some x <-> 0 <= i /\ l !! Z.to_nat i = Some x.
Proof. unfold zget. destruct (Z.ltb_spec i 0); naive_solver lia. Qed.

Lemma zget_in_range {A} (l : list A) i : 0 <= i < zlen l -> is_Some (zget l i).
Proof.
  intros. unfold zget. destruct (Z.ltb_spec i 0); [lia|]. apply lookup_lt_is_Some. lia.
Qed.

Lemma zget_range {A} (l : list A) i x : zget l i = Some x -> 0 <= i < zlen l.
Proof. intros [? H]%zget_Some. apply lookup_lt_Some in H. lia. Qed.

Lemma zset_in_range {A} (l : list A) i x :
  0 <= i < zlen l -> zset l i x = Some (<[Z.to_nat i := x]> l).
Proof.
  intros. unfold zset.
  by rewrite (proj2 (Z.leb_le _ _)), (proj2 (Z.ltb_lt _ _)) by lia.
Qed.

Lemma zset_Some {A} (l l' : list A) i x :
  zset l i x = Some l' -> 0 <= i < zlen l /\ l' = <[Z.to_nat i := x]> l.
Proof. unfold zset. destruct (Z.leb_spec 0 i), (Z.ltb_spec i (zlen l)); naive_solver lia. Qed.

Lemma zget_insert_eq {A} (l : list A) i x :
  0 <= i < zlen l -> zget (<[Z.to_nat i := x]> l) i = Some x.
Proof.
  intros. apply zget_Some. split; [lia|]. apply list_lookup_insert_eq. lia.
Qed.

Lemma zget_insert_ne {A} (l : list A) i j x :
  0 <= i -> i <> j -> zget (<[Z.to_nat i := x]> l) j = zget l j.
Proof.
  intros. unfold zget. destruct (Z.ltb_spec j 0); [done|].
  apply list_lookup_insert_ne. lia.
Qed.

Lemma zlen_insert {A} (l : list A) (i : nat) x : zlen (<[i := x]> l) = zlen l.
Proof. by rewrite length_insert. Qed.

(** * Automation *)

Create HintDb prof discriminated.
#[export] Hint Resolve wrap_range wrap_small zget_in_range : prof.

(** Split every boolean test of the goal and of the hypotheses into its
    propositional reading. *)
Ltac bool_facts :=
  repeat match goal with
  | H : (_ && _)%bool = true |- _ => apply andb_true_iff in H as [? ?]
  | H : (_ && _)%bool = false |- _ => apply andb_false_iff in H as [?|?]
  | H : (_ || _)%bool = true |- _ => apply orb_true_iff in H as [?|?]
  | H : (_ || _)%bool = false |- _ => apply orb_false_iff in H as [? ?]
  | H : negb _ = true |- _ => apply negb_true_iff in H
  | H : negb _ = false |- _ => apply negb_false_iff in H
  | H : (_ =? _) = true |- _ => apply Z.eqb_eq in H
  | H : (_ =? _) = false |- _ => apply Z.eqb_neq in H
  | H : (_ <? _) = true |- _ => apply Z.ltb_lt in H
  | H : (_ <? _) = false |- _ => apply Z.ltb_ge in H
  | H : (_ <=? _) = true |- _ => apply Z.leb_le in H
  | H : (_ <=? _) = false |- _ => apply Z.leb_gt in H
  end.

(** Case analysis on the tests a definition branches on. *)
Ltac case_if :=
  match goal with
  | |- context [if ?b then _ else _] =>
      lazymatch type of b with bool => destruct b eqn:? | _ => fail end
  end.

Ltac simplify_option :=
  repeat match goal with
  | H : (_ ≫= _) = Some _ |- _ => apply bind_Some in H as (? & ? & ?)
  | H : _ <$> _ = Some _ |- _ => apply fmap_Some in H as (? & ? & ?)
  end; simplify_eq.
