(* ===== verification/VisitedObjectSet.v ===== *)
(** * The visited-object set of the heap-snapshot traverser

    Model of [VisitedObjectSet.h]: an open-addressing hash table with linear
    probing over a power-of-two array of addresses, 0 being the empty slot, with
    a parallel array of metadata and a side list of written buckets that makes
    [Clear] proportional to the number of entries.

    Every array access is checked: [None] is an out-of-range access or a probe
    loop that has not stopped after as many steps as the table has slots.  The
    theorems at the end of the file show that neither happens, and that the table
    refines a finite map from addresses to class identifiers. *)
From stdpp Require Import base gmap list.
From S2P Require Import Prelude.

(** ** Data *)

Record VisitedEntry := mkEntry { classID : Z }.

Record VisitedObjectSet := mkSet {
  _addresses : list Z;
  _entries : list VisitedEntry;
  _dirtyIndices : list Z;
  _count : Z;
  _peakCount : Z;
  _growCount : Z;
  _needsFullClear : bool;
  _mask : Z
}.

Definition DefaultCapacity : Z := 512.

Inductive InsertResult := Inserted | AlreadyPresent.

#[export] Instance VisitedEntry_eq_dec : EqDecision VisitedEntry.
Proof. solve_decision. Defined.
#[export] Instance InsertResult_eq_dec : EqDecision InsertResult.
Proof. solve_decision. Defined.

(** ** Operations *)

(** Fibonacci hashing: the product is taken at the width of [size_t]. *)
Definition HashAddress (addr : Z) : Z :=
  u64 (Z.shiftr addr 3 * 0x9E3779B97F4A7C15).

Definition NeedsGrow (s : VisitedObjectSet) : bool :=
  u64 (zlen (_addresses s) * 7) <=? u64 (_count s * 10).

(** The [while (newAddresses[idx] != 0)] loop of [Grow]. *)
Fixpoint free_slot (fuel : nat) (addrs : list Z) (mask idx : Z) : option Z :=
  match fuel with
  | O => None
  | S fuel =>
      v ← zget addrs idx;
      if v =? 0 then Some idx
      else free_slot fuel addrs mask (Z.land (u64 (idx + 1)) mask)
  end.

(** The [for] loop of [Grow] over the old buckets; [i] is the loop counter. *)
Fixpoint rehash (olds : list Z) (entries : list VisitedEntry) (newMask i : Z)
    (newAddresses : list Z) (newEntries : list VisitedEntry) (dirty : list Z)
    : option (list Z * list VisitedEntry * list Z) :=
  match olds with
  | [] => Some (newAddresses, newEntries, dirty)
  | a :: olds =>
      if a =? 0 then rehash olds entries newMask (i + 1) newAddresses newEntries dirty
      else
        idx ← free_slot (length newAddresses) newAddresses newMask
                (Z.land (HashAddress a) newMask);
        newAddresses' ← zset newAddresses idx a;
        e ← zget entries i;
        newEntries' ← zset newEntries idx e;
        rehash olds entries newMask (i + 1) newAddresses' newEntries' (dirty ++ [u32 idx])
  end.

Definition Grow (s : VisitedObjectSet) : option VisitedObjectSet :=
  let newCapacity := u64 (zlen (_addresses s) * 2) in
  let newMask := u64 (newCapacity - 1) in
  '(newAddresses, newEntries, dirty) ←
    rehash (_addresses s) (_entries s) newMask 0
      (replicate (Z.to_nat newCapacity) 0)
      (replicate (Z.to_nat newCapacity) (mkEntry 0)) [];
  Some {| _addresses := newAddresses; _entries := newEntries;
          _dirtyIndices := dirty; _count := _count s; _peakCount := _peakCount s;
          _growCount := u64 (_growCount s + 1);
          _needsFullClear := _needsFullClear s; _mask := newMask |}.

(** The doubling loop of the constructor. *)
Fixpoint initial_capacity (fuel : nat) (cap initialCapacity : Z) : option Z :=
  match fuel with
  | O => None
  | S fuel =>
      if cap <? initialCapacity then initial_capacity fuel (u64 (cap * 2)) initialCapacity
      else Some cap
  end.

Definition new_VisitedObjectSet (initialCapacity : Z) : option VisitedObjectSet :=
  cap ← initial_capacity 64 DefaultCapacity initialCapacity;
  Some {| _addresses := replicate (Z.to_nat cap) 0;
          _entries := replicate (Z.to_nat cap) (mkEntry 0);
          _dirtyIndices := []; _count := 0; _peakCount := 0; _growCount := 0;
          _needsFullClear := false; _mask := cap - 1 |}.

(** The probe loop of [IsVisited], [TryInsert], [StoreClassID] and [GetClassID]:
    the bucket of [address] with [true], or the first empty bucket with [false]. *)
Fixpoint find_slot (fuel : nat) (addrs : list Z) (mask address idx : Z)
    : option (bool * Z) :=
  match fuel with
  | O => None
  | S fuel =>
      v ← zget addrs idx;
      if v =? address then Some (true, idx)
      else if v =? 0 then Some (false, idx)
      else find_slot fuel addrs mask address (Z.land (u64 (idx + 1)) mask)
  end.

Definition probe (s : VisitedObjectSet) (address : Z) : option (bool * Z) :=
  find_slot (length (_addresses s)) (_addresses s) (_mask s) address
    (Z.land (HashAddress address) (_mask s)).

Definition IsVisited (s : VisitedObjectSet) (address : Z) : option bool :=
  fst <$> probe s address.

Definition grow_if_needed (s : VisitedObjectSet) : option VisitedObjectSet :=
  if NeedsGrow s then Grow s else Some s.

(** [TryInsert] returns the result and the metadata slot [outEntry] designates. *)
Definition TryInsert (s : VisitedObjectSet) (address : Z)
    : option (VisitedObjectSet * InsertResult * Z) :=
  s ← grow_if_needed s;
  '(found, idx) ← probe s address;
  if found : bool then Some (s, AlreadyPresent, idx)
  else
    addrs ← zset (_addresses s) idx address;
    entries ← zset (_entries s) idx (mkEntry 0);
    Some ({| _addresses := addrs; _entries := entries;
             _dirtyIndices := _dirtyIndices s ++ [u32 idx];
             _count := u64 (_count s + 1); _peakCount := _peakCount s;
             _growCount := _growCount s; _needsFullClear := _needsFullClear s;
             _mask := _mask s |}, Inserted, idx).

(** Writing through [outEntry], as the traverser does with the resolved class. *)
Definition write_slot (s : VisitedObjectSet) (idx c : Z) : option VisitedObjectSet :=
  entries ← zset (_entries s) idx (mkEntry c);
  Some {| _addresses := _addresses s; _entries := entries;
          _dirtyIndices := _dirtyIndices s; _count := _count s;
          _peakCount := _peakCount s; _growCount := _growCount s;
          _needsFullClear := _needsFullClear s; _mask := _mask s |}.

(** The probe loop of [MarkVisitedAndStore] tests the empty slot first. *)
Fixpoint mark_slot (fuel : nat) (addrs : list Z) (mask address idx : Z)
    : option (bool * Z) :=
  match fuel with
  | O => None
  | S fuel =>
      v ← zget addrs idx;
      if v =? 0 then Some (false, idx)
      else if v =? address then Some (true, idx)
      else mark_slot fuel addrs mask address (Z.land (u64 (idx + 1)) mask)
  end.

Definition MarkVisitedAndStore (s : VisitedObjectSet) (address c : Z)
    : option VisitedObjectSet :=
  s ← grow_if_needed s;
  '(found, idx) ← mark_slot (length (_addresses s)) (_addresses s) (_mask s) address
                    (Z.land (HashAddress address) (_mask s));
  if found : bool then write_slot s idx c
  else
    addrs ← zset (_addresses s) idx address;
    entries ← zset (_entries s) idx (mkEntry c);
    Some {| _addresses := addrs; _entries := entries;
            _dirtyIndices := _dirtyIndices s ++ [u32 idx];
            _count := u64 (_count s + 1); _peakCount := _peakCount s;
            _growCount := _growCount s; _needsFullClear := _needsFullClear s;
            _mask := _mask s |}.

Definition MarkVisited (s : VisitedObjectSet) (address : Z) : option VisitedObjectSet :=
  '(s, _, _) ← TryInsert s address; Some s.

Definition MarkIfAbsent (s : VisitedObjectSet) (address : Z)
    : option (VisitedObjectSet * bool) :=
  '(s, r, _) ← TryInsert s address; Some (s, bool_decide (r = Inserted)).

Definition StoreClassID (s : VisitedObjectSet) (address c : Z)
    : option VisitedObjectSet :=
  '(found, idx) ← probe s address;
  if found : bool then write_slot s idx c else Some s.

(** [Some (Some c)]: returns true with [outClassID = c]; [Some None]: false. *)
Definition GetClassID (s : VisitedObjectSet) (address : Z) : option (option Z) :=
  '(found, idx) ← probe s address;
  if found : bool then e ← zget (_entries s) idx; Some (Some (classID e))
  else Some None.

Definition MarkPossiblyInconsistent (s : VisitedObjectSet) : VisitedObjectSet :=
  {| _addresses := _addresses s; _entries := _entries s;
     _dirtyIndices := _dirtyIndices s; _count := _count s;
     _peakCount := _peakCount s; _growCount := _growCount s;
     _needsFullClear := true; _mask := _mask s |}.

(** The range-for loop of [Clear] over the written buckets. *)
Fixpoint zero_dirty (dirty : list Z) (addrs : list Z) : option (list Z) :=
  match dirty with
  | [] => Some addrs
  | i :: dirty => addrs' ← zset addrs i 0; zero_dirty dirty addrs'
  end.

Definition Clear (s : VisitedObjectSet) : option VisitedObjectSet :=
  addrs ← (if _needsFullClear s
           then Some (replicate (length (_addresses s)) 0)
           else zero_dirty (_dirtyIndices s) (_addresses s));
  Some {| _addresses := addrs; _entries := _entries s; _dirtyIndices := [];
          _count := 0;
          _peakCount := if _peakCount s <? _count s then _count s else _peakCount s;
          _growCount := _growCount s; _needsFullClear := false; _mask := _mask s |}.

Definition Size (s : VisitedObjectSet) : Z := _count s.
Definition GetBucketCount (s : VisitedObjectSet) : Z := zlen (_addresses s).
Definition GetPeakEntryCount (s : VisitedObjectSet) : Z :=
  Z.max (_peakCount s) (_count s).
Definition GetGrowCount (s : VisitedObjectSet) : Z := _growCount s.

(** A fault recovered by the traverser's guard abandons [TryInsert] between two of
    the writes of its insertion branch: the state after the first [n] of them
    (address, metadata, dirty bucket, count). *)
Definition TryInsert_interrupted (n : nat) (s : VisitedObjectSet) (address : Z)
    : option VisitedObjectSet :=
  s ← grow_if_needed s;
  '(found, idx) ← probe s address;
  if found : bool then Some s
  else
    addrs ← (if (1 <=? n)%nat then zset (_addresses s) idx address else Some (_addresses s));
    entries ← (if (2 <=? n)%nat then zset (_entries s) idx (mkEntry 0) else Some (_entries s));
    Some {| _addresses := addrs; _entries := entries;
            _dirtyIndices :=
              if (3 <=? n)%nat then _dirtyIndices s ++ [u32 idx] else _dirtyIndices s;
            _count := if (4 <=? n)%nat then u64 (_count s + 1) else _count s;
            _peakCount := _peakCount s; _growCount := _growCount s;
            _needsFullClear := _needsFullClear s; _mask := _mask s |}.

(** ** The abstract state: a finite map from addresses to class identifiers *)

Fixpoint table_map (addrs : list Z) (entries : list VisitedEntry) : gmap Z Z :=
  match addrs, entries with
  | a :: addrs, e :: entries =>
      if a =? 0 then table_map addrs entries
      else <[a := classID e]> (table_map addrs entries)
  | _, _ => ∅
  end.

Definition contents (s : VisitedObjectSet) : gmap Z Z :=
  table_map (_addresses s) (_entries s).

(** Occupied buckets. *)
Definition used (addrs : list Z) : Z := Z.of_nat (length (filter (fun a => a <> 0) addrs)).

(** ** Probing sequences *)

Definition pos (k a e : Z) : Z := (HashAddress a + e) mod 2 ^ k.

Section probing.
Context (k : Z) (Hk : 0 <= k <= 33).

Lemma pow_k_bounds : 0 < 2 ^ k /\ 2 ^ k < 2 ^ 63.
Proof. split; [lia|]. apply Z.pow_lt_mono_r; lia. Qed.

Lemma pos_range a e : 0 <= pos k a e < 2 ^ k.
Proof. apply Z.mod_pos_bound. pose proof pow_k_bounds. lia. Qed.

Lemma pos_start a : Z.land (HashAddress a) (2 ^ k - 1) = pos k a 0.
Proof. rewrite land_mask by lia. unfold pos. by rewrite Z.add_0_r. Qed.

Lemma pos_step a e : Z.land (u64 (pos k a e + 1)) (2 ^ k - 1) = pos k a (e + 1).
Proof.
  pose proof (pos_range a e). pose proof pow_k_bounds.
  rewrite wrap_small by (unfold in_u; lia). rewrite land_mask by lia. unfold pos.
  rewrite Zplus_mod_idemp_l. f_equal. lia.
Qed.

(** Distance from the home bucket of [a]. *)
Definition dist (a i : Z) : Z := (i - HashAddress a) mod 2 ^ k.

Lemma dist_range a i : 0 <= dist a i < 2 ^ k.
Proof. apply Z.mod_pos_bound. pose proof pow_k_bounds. lia. Qed.

Lemma pos_dist a i : 0 <= i < 2 ^ k -> pos k a (dist a i) = i.
Proof.
  intros. unfold pos, dist. rewrite Zplus_mod_idemp_r.
  replace (HashAddress a + (i - HashAddress a)) with i by lia. by apply Z.mod_small.
Qed.

Lemma dist_pos a e : 0 <= e < 2 ^ k -> dist a (pos k a e) = e.
Proof.
  intros. unfold pos, dist. rewrite Zminus_mod_idemp_l.
  replace (HashAddress a + e - HashAddress a) with e by lia. by apply Z.mod_small.
Qed.

(** The probe loop stops at the first bucket that holds [a] or is empty. *)
Lemma find_slot_first addrs a fuel e :
  zlen addrs = 2 ^ k ->
  (exists d, 0 <= d < Z.of_nat fuel /\
     (zget addrs (pos k a (e + d)) = Some a \/ zget addrs (pos k a (e + d)) = Some 0)) ->
  exists d b, 0 <= d < Z.of_nat fuel /\
    find_slot fuel addrs (2 ^ k - 1) a (pos k a e) = Some (b, pos k a (e + d)) /\
    zget addrs (pos k a (e + d)) = Some (if b : bool then a else 0) /\
    (forall d', 0 <= d' < d ->
       zget addrs (pos k a (e + d')) <> Some a /\ zget addrs (pos k a (e + d')) <> Some 0).
Proof.
  intros Hlen. revert e. induction fuel as [|fuel IH]; intros e (d & Hd & Hstop); [lia|].
  destruct (zget_in_range addrs (pos k a e)) as [v Hv].
  { rewrite Hlen. apply pos_range. }
  cbn [find_slot]. rewrite Hv. cbn [mbind option_bind].
  destruct (Z.eqb_spec v a) as [->|Hva].
  { exists 0, true. rewrite !Z.add_0_r. repeat split; auto; lia. }
  destruct (Z.eqb_spec v 0) as [->|Hv0].
  { exists 0, false. rewrite !Z.add_0_r. repeat split; auto; lia. }
  assert (d <> 0) by (intros ->; rewrite Z.add_0_r in Hstop; naive_solver).
  rewrite pos_step. destruct (IH (e + 1)) as (d1 & b & Hd1 & Hf & Hz & Hmin).
  { exists (d - 1). split; [lia|]. by replace (e + 1 + (d - 1)) with (e + d) by lia. }
  exists (d1 + 1), b. replace (e + (d1 + 1)) with (e + 1 + d1) by lia.
  repeat split; auto; try lia.
  all: destruct (decide (d' = 0)) as [->|]; [rewrite Z.add_0_r; naive_solver|].
  all: replace (e + d') with (e + 1 + (d' - 1)) by lia; apply Hmin; lia.
Qed.

Lemma free_slot_find fuel addrs a i idx :
  find_slot fuel addrs (2 ^ k - 1) a idx = Some (false, i) ->
  free_slot fuel addrs (2 ^ k - 1) idx = Some i.
Proof. clear Hk.
  revert idx. induction fuel as [|fuel IH]; intros idx; cbn; [done|].
  destruct (zget addrs idx) as [v|]; cbn; [|done].
  destruct (Z.eqb_spec v a), (Z.eqb_spec v 0); naive_solver.
Qed.

Lemma mark_slot_find fuel addrs a idx :
  a <> 0 -> mark_slot fuel addrs (2 ^ k - 1) a idx = find_slot fuel addrs (2 ^ k - 1) a idx.
Proof. clear Hk.
  intros Ha. revert idx. induction fuel as [|fuel IH]; intros idx; cbn; [done|].
  destruct (zget addrs idx) as [v|]; cbn; [|done].
  destruct (Z.eqb_spec v a), (Z.eqb_spec v 0); naive_solver.
Qed.
End probing.

(** ** The table invariant *)

(** [2^k] buckets, no address twice, and no empty bucket between the home bucket
    of a stored address and the bucket it is stored in. *)
Record table_wf (k : Z) (addrs : list Z) (entries : list VisitedEntry) : Prop := {
  tw_len : zlen addrs = 2 ^ k;
  tw_entries : length entries = length addrs;
  tw_uniq : forall i j a, a <> 0 -> zget addrs i = Some a -> zget addrs j = Some a -> i = j;
  tw_reach : forall i a, a <> 0 -> zget addrs i = Some a ->
    forall e, 0 <= e < dist k a i -> zget addrs (pos k a e) <> Some 0
}.

(** *** Occupancy *)

Lemma used_cons a addrs : used (a :: addrs) = (if decide (a = 0) then 0 else 1) + used addrs.
Proof.
  unfold used. rewrite filter_cons. repeat case_decide; try done; rewrite ?length_cons; lia.
Qed.

Lemma used_insert addrs (i : nat) a :
  a <> 0 -> addrs !! i = Some 0 -> used (<[i := a]> addrs) = used addrs + 1.
Proof.
  intros Ha. revert i. induction addrs as [|b addrs IH]; intros [|i] Hi; simplify_eq/=.
  - rewrite !used_cons. repeat case_decide; lia.
  - rewrite !used_cons, IH by done. lia.
Qed.

Lemma used_le_len addrs : 0 <= used addrs <= zlen addrs.
Proof. unfold used. pose proof (length_filter (fun a => a <> 0) addrs). lia. Qed.

Lemma used_lt_zero addrs : used addrs < zlen addrs -> exists i, zget addrs i = Some 0.
Proof.
  induction addrs as [|a addrs IH]; [done|]. rewrite used_cons, length_cons.
  case_decide as Ha; [intros _; exists 0; subst; done|].
  intros H. destruct IH as [i [Hi1 Hi]%zget_Some]; [lia|]. exists (i + 1).
  apply zget_Some. split; [lia|]. by replace (Z.to_nat (i + 1)) with (S (Z.to_nat i)) by lia.
Qed.

Lemma used_replicate n : used (replicate n 0) = 0.
Proof. induction n as [|n IH]; [done|]. cbn. by rewrite used_cons, IH. Qed.

(** *** The map a well-formed table stands for *)

Lemma table_map_lookup addrs entries :
  length entries = length addrs ->
  (forall i j a, a <> 0 -> addrs !! i = Some a -> addrs !! j = Some a -> i = j) ->
  forall a c, table_map addrs entries !! a = Some c <->
    a <> 0 /\ exists i : nat, addrs !! i = Some a /\ entries !! i = Some (mkEntry c).
Proof.
  revert entries. induction addrs as [|b addrs IH]; intros [|[e] entries] Hlen Hu a c;
    simplify_eq/=.
  { split; [by rewrite lookup_empty|]. intros (_ & i & Hi & _). by destruct i. }
  assert (forall i j a, a <> 0 -> addrs !! i = Some a -> addrs !! j = Some a -> i = j) as Hu'.
  { intros i j x Hx Hi Hj. specialize (Hu (S i) (S j) x Hx Hi Hj). lia. }
  specialize (IH entries Hlen Hu' a c).
  assert (forall i, b <> 0 -> addrs !! i = Some b -> False) as Hb.
  { intros i Hb0 Hi. specialize (Hu O (S i) b Hb0 eq_refl Hi). lia. }
  destruct (Z.eqb_spec b 0) as [->|Hb0].
  - rewrite IH. split; intros (Ha & i & Hi & He); split; auto.
    + by exists (S i).
    + destruct i; simplify_eq/=. by exists i.
  - rewrite lookup_insert. case_decide as Hab; [subst b|rewrite IH];
      split.
    + intros [= ->]. split; auto. by exists O.
    + intros (_ & [|i] & Hi & He); simplify_eq/=; [done|]. naive_solver.
    + intros (Ha & i & Hi & He). split; auto. by exists (S i).
    + intros (Ha & [|i] & Hi & He); simplify_eq/=. split; auto. by exists i.
Qed.

Lemma wf_table_map_lookup k addrs entries a c :
  table_wf k addrs entries ->
  table_map addrs entries !! a = Some c <->
    a <> 0 /\ exists i, zget addrs i = Some a /\ zget entries i = Some (mkEntry c).
Proof.
  intros [_ Hlen Hu _]. rewrite table_map_lookup; [|done|].
  - split; intros (Ha & i & Hi & He); (split; [done|]).
    + exists (Z.of_nat i). rewrite !zget_Some, !Nat2Z.id. auto with lia.
    + apply zget_Some in Hi as [? Hi], He as [? He]. by exists (Z.to_nat i).
  - intros i j x Hx Hi Hj. apply Nat2Z.inj, (Hu _ _ x Hx); apply zget_Some;
      rewrite Nat2Z.id; auto with lia.
Qed.

Lemma wf_table_map_None k addrs entries a :
  table_wf k addrs entries -> a <> 0 ->
  table_map addrs entries !! a = None <-> forall i, zget addrs i <> Some a.
Proof.
  intros Hwf Ha. rewrite eq_None_not_Some. split.
  - intros Hn i Hi. apply Hn. pose proof Hi as Hr. apply zget_range in Hr.
    destruct (zget_in_range entries i) as [[c] Hc]; [by rewrite (tw_entries _ _ _ Hwf)|].
    exists c. apply (wf_table_map_lookup _ _ _ _ _ Hwf). eauto.
  - intros Hn [c Hc]. apply (wf_table_map_lookup _ _ _ _ _ Hwf) in Hc.
    destruct Hc as (_ & i & Hi & _). by apply (Hn i).
Qed.

Lemma table_map_size addrs entries :
  length entries = length addrs ->
  (forall i j a, a <> 0 -> addrs !! i = Some a -> addrs !! j = Some a -> i = j) ->
  Z.of_nat (size (table_map addrs entries)) = used addrs.
Proof.
  revert entries. induction addrs as [|b addrs IH]; intros [|[e] entries] Hlen Hu;
    simplify_eq/=; [by rewrite map_size_empty|].
  assert (forall i j a, a <> 0 -> addrs !! i = Some a -> addrs !! j = Some a -> i = j) as Hu'.
  { intros i j x Hx Hi Hj. specialize (Hu (S i) (S j) x Hx Hi Hj). lia. }
  rewrite used_cons. destruct (Z.eqb_spec b 0) as [->|Hb].
  - rewrite IH by done. done.
  - rewrite map_size_insert_None; [rewrite decide_False, <- (IH entries) by done; lia|].
    apply eq_None_not_Some. intros [c Hc].
    apply table_map_lookup in Hc as (_ & i & Hi & _); [|done..].
    specialize (Hu O (S i) b Hb eq_refl Hi). lia.
Qed.

Lemma wf_table_map_size k addrs entries :
  table_wf k addrs entries -> Z.of_nat (size (table_map addrs entries)) = used addrs.
Proof.
  intros [_ Hlen Hu _]. apply table_map_size; [done|].
  intros i j x Hx Hi Hj. apply Nat2Z.inj, (Hu _ _ x Hx); apply zget_Some;
    rewrite Nat2Z.id; auto with lia.
Qed.

(** *** Empty tables *)

Lemma zget_replicate {A} n (x y : A) i : zget (replicate n x) i = Some y -> y = x.
Proof. intros [_ H]%zget_Some. apply lookup_replicate in H. naive_solver. Qed.

Lemma table_wf_empty k n entries :
  Z.of_nat n = 2 ^ k -> length entries = n -> table_wf k (replicate n 0) entries.
Proof.
  intros Hn He. split.
  - by rewrite length_replicate.
  - by rewrite length_replicate.
  - intros i j a Ha Hi%zget_replicate. done.
  - intros i a Ha Hi%zget_replicate. done.
Qed.

Lemma table_map_empty n entries : table_map (replicate n 0) entries = ∅.
Proof. revert entries. induction n as [|n IH]; intros [|e entries]; cbn; auto. Qed.

(** *** Probing a well-formed table *)

Section table.
Context (k : Z) (Hk : 0 <= k <= 33) (addrs : list Z) (entries : list VisitedEntry).
Context (Hwf : table_wf k addrs entries).

Lemma find_slot_present a i :
  a <> 0 -> zget addrs i = Some a ->
  find_slot (length addrs) addrs (2 ^ k - 1) a (pos k a 0) = Some (true, i).
Proof.
  intros Ha Hi. pose proof (zget_range _ _ _ Hi) as Hr. rewrite (tw_len _ _ _ Hwf) in Hr.
  pose proof (dist_range k Hk a i) as Hdr.
  destruct (find_slot_first k Hk addrs a (length addrs) 0 (tw_len _ _ _ Hwf))
    as (d & b & Hd & Hf & Hz & Hmin).
  { exists (dist k a i). rewrite (tw_len _ _ _ Hwf), Z.add_0_l, pos_dist by auto. auto. }
  rewrite Hf, Z.add_0_l in *.
  assert (d <= dist k a i) as Hle.
  { destruct (decide (d <= dist k a i)); [done|]. exfalso.
    destruct (Hmin (dist k a i)) as [Hc _]; [lia|].
    by rewrite Z.add_0_l, pos_dist in Hc by auto. }
  destruct b.
  - by rewrite (tw_uniq _ _ _ Hwf _ _ a Ha Hz Hi).
  - exfalso. destruct (decide (d = dist k a i)) as [->|].
    + rewrite pos_dist in Hz by auto. congruence.
    + eapply (tw_reach _ _ _ Hwf); [exact Ha|exact Hi| |exact Hz]. lia.
Qed.

Lemma find_slot_absent a :
  a <> 0 -> (forall i, zget addrs i <> Some a) -> used addrs < 2 ^ k ->
  exists i, find_slot (length addrs) addrs (2 ^ k - 1) a (pos k a 0) = Some (false, i) /\
    zget addrs i = Some 0 /\
    forall e, 0 <= e < dist k a i -> zget addrs (pos k a e) <> Some 0.
Proof.
  intros Ha Habs Hused. pose proof (tw_len _ _ _ Hwf) as Hlen.
  destruct (used_lt_zero addrs) as [z Hz]; [lia|].
  pose proof (zget_range _ _ _ Hz) as Hr. rewrite Hlen in Hr.
  destruct (find_slot_first k Hk addrs a (length addrs) 0 Hlen)
    as (d & b & Hd & Hf & Hv & Hmin).
  { exists (dist k a z). rewrite Hlen, Z.add_0_l, pos_dist by auto.
    pose proof (dist_range k Hk a z). auto. }
  rewrite Hlen in Hd. rewrite Z.add_0_l in *.
  destruct b; [by destruct (Habs _ Hv)|].
  exists (pos k a d). repeat split; auto. rewrite dist_pos by auto.
  intros e He. rewrite <- (Z.add_0_l e). by apply Hmin.
Qed.

(** Filling the empty bucket a probe for [a] ends on. *)
Lemma table_insert a i e :
  a <> 0 -> (forall i, zget addrs i <> Some a) -> zget addrs i = Some 0 ->
  (forall e, 0 <= e < dist k a i -> zget addrs (pos k a e) <> Some 0) ->
  table_wf k (<[Z.to_nat i := a]> addrs) (<[Z.to_nat i := e]> entries).
Proof.
  intros Ha Habs Hi Hreach. pose proof (zget_range _ _ _ Hi) as Hr.
  assert (forall j v, zget (<[Z.to_nat i := a]> addrs) j = Some v ->
            j = i /\ v = a \/ j <> i /\ zget addrs j = Some v) as Hread.
  { intros j v Hj. destruct (decide (i = j)) as [<-|].
    - rewrite zget_insert_eq in Hj by done. naive_solver.
    - rewrite zget_insert_ne in Hj by lia. naive_solver. }
  split.
  - rewrite zlen_insert. by apply Hwf.
  - rewrite !length_insert. by apply Hwf.
  - intros j1 j2 v Hv [[? ?]|[? H1]]%Hread [[? ?]|[? H2]]%Hread; subst; try done.
    + by destruct (Habs _ H2).
    + by destruct (Habs _ H1).
    + eapply (tw_uniq _ _ _ Hwf); eauto.
  - intros j v Hv Hj e' He' [[_ Hva]|[_ H0]]%Hread; [by rewrite <- Hva in Ha|].
    apply Hread in Hj as [[? ?]|[_ Hj]]; subst.
    + by apply (Hreach e').
    + by apply (tw_reach _ _ _ Hwf _ _ Hv Hj e').
Qed.

Lemma table_map_insert a i e :
  a <> 0 -> (forall i, zget addrs i <> Some a) -> zget addrs i = Some 0 ->
  (forall e, 0 <= e < dist k a i -> zget addrs (pos k a e) <> Some 0) ->
  table_map (<[Z.to_nat i := a]> addrs) (<[Z.to_nat i := e]> entries) =
    <[a := classID e]> (table_map addrs entries).
Proof.
  intros Ha Habs Hi Hreach. pose proof (zget_range _ _ _ Hi) as Hr.
  pose proof (table_insert a i e Ha Habs Hi Hreach) as Hwf'.
  assert (0 <= i < zlen entries) as Hr' by (rewrite (tw_entries _ _ _ Hwf); done).
  apply map_eq. intros b. apply option_eq. intros c.
  rewrite (wf_table_map_lookup _ _ _ _ _ Hwf'), lookup_insert.
  case_decide as Hab; [subst b|].
  - split.
    + intros (_ & j & Hj & He). destruct (decide (i = j)) as [<-|].
      * rewrite zget_insert_eq in He by done. destruct e; naive_solver.
      * rewrite zget_insert_ne in Hj by lia. by destruct (Habs j).
    + intros [= <-]. split; [done|]. exists i. rewrite !zget_insert_eq by done.
      by destruct e.
  - rewrite (wf_table_map_lookup _ _ _ _ _ Hwf). split; intros (Hb & j & Hj & He);
      (split; [done|]); exists j.
    + destruct (decide (i = j)) as [<-|].
      * rewrite zget_insert_eq in Hj by done. naive_solver.
      * rewrite !zget_insert_ne in * by lia. done.
    + assert (i <> j) by naive_solver. rewrite !zget_insert_ne by lia. done.
Qed.

(** Overwriting the metadata of a stored address. *)
Lemma table_store i e : table_wf k addrs (<[i := e]> entries).
Proof. destruct Hwf. split; auto. by rewrite length_insert. Qed.

Lemma table_map_store a i c :
  a <> 0 -> zget addrs i = Some a ->
  table_map addrs (<[Z.to_nat i := mkEntry c]> entries) =
    <[a := c]> (table_map addrs entries).
Proof.
  intros Ha Hi. pose proof (zget_range _ _ _ Hi) as Hr.
  assert (0 <= i < zlen entries) as Hr' by (rewrite (tw_entries _ _ _ Hwf); done).
  pose proof (table_store (Z.to_nat i) (mkEntry c)) as Hwf'.
  apply map_eq. intros b. apply option_eq. intros d.
  rewrite (wf_table_map_lookup _ _ _ _ _ Hwf'), lookup_insert.
  case_decide as Hab; [subst b|].
  - split.
    + intros (_ & j & Hj & He). rewrite (tw_uniq _ _ _ Hwf _ _ a Ha Hj Hi) in He.
      rewrite zget_insert_eq in He by done. naive_solver.
    + intros [= <-]. split; [done|]. exists i. by rewrite zget_insert_eq.
  - rewrite (wf_table_map_lookup _ _ _ _ _ Hwf).
    split; intros (Hb & j & Hj & He); (split; [done|]); exists j;
      assert (i <> j) by naive_solver; rewrite zget_insert_ne in * by lia; done.
Qed.
End table.

(** ** Growing *)

Definition uniq (addrs : list Z) : Prop :=
  forall i j a, a <> 0 -> addrs !! i = Some a -> addrs !! j = Some a -> i = j.

Lemma uniq_tail a addrs : uniq (a :: addrs) -> uniq addrs.
Proof. intros Hu i j x Hx Hi Hj. specialize (Hu (S i) (S j) x Hx Hi Hj). lia. Qed.

Lemma uniq_head a addrs : uniq (a :: addrs) -> a <> 0 -> a ∉ addrs.
Proof.
  intros Hu Ha [i Hi]%list_elem_of_lookup. specialize (Hu O (S i) a Ha eq_refl Hi). lia.
Qed.

Lemma tw_uniq_nat k addrs entries : table_wf k addrs entries -> uniq addrs.
Proof.
  intros Hwf i j x Hx Hi Hj. apply Nat2Z.inj, (tw_uniq _ _ _ Hwf _ _ x Hx);
    apply zget_Some; rewrite Nat2Z.id; auto with lia.
Qed.

Lemma table_map_notin addrs entries a :
  length entries = length addrs -> uniq addrs -> a ∉ addrs ->
  table_map addrs entries !! a = None.
Proof.
  intros Hlen Hu Ha. apply eq_None_not_Some. intros [c Hc].
  apply table_map_lookup in Hc as (_ & i & Hi & _); [|done..].
  apply Ha, list_elem_of_lookup. eauto.
Qed.

(** The dirty list covers every occupied bucket, and only names buckets. *)
Definition dirty_range (addrs : list Z) (dirty : list Z) : Prop :=
  Forall (fun i => 0 <= i < zlen addrs) dirty.
Definition dirty_covers (addrs : list Z) (dirty : list Z) : Prop :=
  forall i a, a <> 0 -> zget addrs i = Some a -> i ∈ dirty.

Lemma dirty_range_insert addrs dirty i a :
  dirty_range addrs dirty -> 0 <= i < zlen addrs ->
  dirty_range (<[Z.to_nat i := a]> addrs) (dirty ++ [i]).
Proof.
  unfold dirty_range. intros. rewrite zlen_insert.
  apply Forall_app. split; [done|]. by apply Forall_singleton.
Qed.

Lemma dirty_covers_insert addrs dirty i a :
  dirty_covers addrs dirty -> 0 <= i < zlen addrs ->
  dirty_covers (<[Z.to_nat i := a]> addrs) (dirty ++ [i]).
Proof.
  intros Hc Hi j b Hb Hj. apply elem_of_app. destruct (decide (i = j)) as [<-|].
  - right. by apply list_elem_of_singleton.
  - left. rewrite zget_insert_ne in Hj by lia. eauto.
Qed.

Section rehash.
Context (k : Z) (Hk : 0 <= k <= 32).

Lemma u32_bucket addrs entries i :
  table_wf k addrs entries -> 0 <= i < zlen addrs -> u32 i = i.
Proof.
  intros Hwf Hi. rewrite (tw_len _ _ _ Hwf) in Hi. apply wrap_small. unfold in_u.
  pose proof (Z.pow_le_mono_r 2 k 32). lia.
Qed.

Lemma free_slot_absent addrs entries a :
  table_wf k addrs entries -> a <> 0 -> (forall i, zget addrs i <> Some a) ->
  used addrs < 2 ^ k ->
  exists i, free_slot (length addrs) addrs (2 ^ k - 1) (pos k a 0) = Some i /\
    zget addrs i = Some 0 /\
    forall e, 0 <= e < dist k a i -> zget addrs (pos k a e) <> Some 0.
Proof.
  intros Hwf Ha Habs Hu.
  destruct (find_slot_absent k ltac:(lia) addrs entries Hwf a Ha Habs Hu)
    as (i & Hf & Hi). eauto using free_slot_find.
Qed.

Lemma rehash_ok olds entries i newA newE dirty :
  0 <= i -> length (drop (Z.to_nat i) entries) = length olds -> uniq olds ->
  (forall a, a ∈ olds -> a <> 0 -> forall j, zget newA j <> Some a) ->
  table_wf k newA newE -> used newA + used olds < 2 ^ k ->
  dirty_range newA dirty -> dirty_covers newA dirty ->
  exists A E D, rehash olds entries (2 ^ k - 1) i newA newE dirty = Some (A, E, D) /\
    table_wf k A E /\ used A = used newA + used olds /\
    table_map A E = table_map olds (drop (Z.to_nat i) entries) ∪ table_map newA newE /\
    dirty_range A D /\ dirty_covers A D.
Proof.
  revert i newA newE dirty.
  induction olds as [|a olds IH]; intros i newA newE dirty Hi Hlen Hu Hfresh Hwf Hused Hdr Hdc.
  { exists newA, newE, dirty. destruct (drop _ _); [|done]. cbn.
    change (used []) with 0. by rewrite Z.add_0_r, (left_id_L ∅ (∪)). }
  destruct (drop (Z.to_nat i) entries) as [|e es] eqn:Hdrop; [done|].
  assert (drop (Z.to_nat (i + 1)) entries = es) as Hdrop'.
  { replace (Z.to_nat (i + 1)) with (Z.to_nat i + 1)%nat by lia.
    by rewrite <- drop_drop, Hdrop. }
  assert (length es = length olds) as Hlen' by (cbn in Hlen; lia).
  rewrite used_cons in Hused |- *. cbn [rehash table_map].
  destruct (Z.eqb_spec a 0) as [->|Ha].
  { rewrite decide_True in Hused |- * by done.
    destruct (IH (i + 1) newA newE dirty) as (A & E & D & HE & Hrest); auto with lia.
    - by rewrite Hdrop'.
    - eauto using uniq_tail.
    - intros b Hb. apply Hfresh. by constructor.
    - rewrite Hdrop' in Hrest. exists A, E, D. by rewrite Z.add_0_l. }
  rewrite decide_False in Hused |- * by done. pose proof (used_le_len olds) as Hul.
  assert (forall j, zget newA j <> Some a) as Habs by (apply Hfresh; [constructor|done]).
  destruct (free_slot_absent newA newE a Hwf Ha Habs) as (x & Hfree & Hx & Hreach); [lia|].
  pose proof (zget_range _ _ _ Hx) as Hxr.
  assert (0 <= x < zlen newE) as Hxr' by (by rewrite (tw_entries _ _ _ Hwf)).
  rewrite pos_start, Hfree by lia. cbn [mbind option_bind].
  rewrite zset_in_range by done. cbn [mbind option_bind].
  assert (zget entries i = Some e) as ->.
  { apply zget_Some. split; [done|]. rewrite <- (Nat.add_0_r (Z.to_nat i)).
    by rewrite <- lookup_drop, Hdrop. }
  cbn [mbind option_bind]. rewrite zset_in_range by done. cbn [mbind option_bind].
  rewrite (u32_bucket _ _ _ Hwf Hxr).
  destruct (IH (i + 1) (<[Z.to_nat x := a]> newA) (<[Z.to_nat x := e]> newE) (dirty ++ [x]))
    as (A & E & D & HE & HwfA & HuA & HmA & HD); auto using dirty_range_insert, dirty_covers_insert with lia.
  - by rewrite Hdrop'.
  - eauto using uniq_tail.
  - intros b Hb Hb0 j Hj. destruct (decide (x = j)) as [<-|].
    + rewrite zget_insert_eq in Hj by done. simplify_eq. by apply (uniq_head _ _ Hu Ha).
    + rewrite zget_insert_ne in Hj by lia. eapply Hfresh; eauto. by constructor.
  - apply (table_insert k ltac:(lia)); auto.
  - rewrite used_insert; [lia|done|]. by apply zget_Some in Hx as [_ Hx].
  - exists A, E, D. split; [done|]. split; [done|]. split.
    { rewrite HuA, used_insert; [lia|done|]. by apply zget_Some in Hx as [_ Hx]. }
    split; [|done]. rewrite HmA, Hdrop'.
    rewrite (table_map_insert k ltac:(lia)) by auto.
    rewrite <- insert_union_r, insert_union_l; [done|].
    apply table_map_notin; eauto using uniq_tail, uniq_head.
Qed.
End rehash.

(** ** The invariant of the set

    [f] bounds how far [_count] may lag behind the occupied buckets: each fault
    the traverser recovers from since the last [Clear] accounts for at most one
    insertion that was written but not counted.  The traverser gives up a dump
    after 16 of them. *)
Record wf (f : Z) (s : VisitedObjectSet) : Prop := {
  wf_table : exists k, 9 <= k <= 32 /\ _mask s = 2 ^ k - 1 /\
               table_wf k (_addresses s) (_entries s);
  wf_count : 0 <= _count s <= used (_addresses s) /\ used (_addresses s) <= _count s + f;
  wf_load : _count s * 10 < zlen (_addresses s) * 7 + 10;
  wf_range : dirty_range (_addresses s) (_dirtyIndices s);
  wf_dirty : _needsFullClear s = false -> dirty_covers (_addresses s) (_dirtyIndices s)
}.

(** Below this many entries the table never needs more than [2^32] buckets, so a
    bucket index fits the [uint32_t] of the dirty list. *)
Definition MaxEntries : Z := 3000000000.

Lemma wf_mono f f' s : f <= f' -> wf f s -> wf f' s.
Proof. intros ? []. split; auto; lia. Qed.

Lemma pow_bucket_bounds k : 9 <= k <= 32 -> 512 <= 2 ^ k <= 4294967296.
Proof.
  intros. pose proof (Z.pow_le_mono_r 2 9 k). pose proof (Z.pow_le_mono_r 2 k 32). lia.
Qed.

Section set_ops.
Context (f : Z) (Hf : 0 <= f <= 16).

Lemma wf_used_lt s k :
  wf f s -> 9 <= k <= 32 -> table_wf k (_addresses s) (_entries s) ->
  used (_addresses s) < 2 ^ k.
Proof.
  intros Hwf Hk Ht. pose proof (pow_bucket_bounds k Hk).
  destruct Hwf as [_ Hc Hl _ _]. rewrite (tw_len _ _ _ Ht) in Hl. lia.
Qed.

Lemma NeedsGrow_spec s :
  wf f s -> NeedsGrow s = (zlen (_addresses s) * 7 <=? _count s * 10).
Proof.
  intros Hwf. destruct (wf_table _ _ Hwf) as (k & Hk & _ & Ht).
  pose proof (pow_bucket_bounds k Hk). pose proof (tw_len _ _ _ Ht).
  pose proof (wf_load _ _ Hwf). pose proof (wf_count _ _ Hwf). unfold NeedsGrow.
  by rewrite !wrap_small by (unfold in_u; lia).
Qed.

Lemma Grow_ok s :
  wf f s -> zlen (_addresses s) <= 2147483648 ->
  exists s', Grow s = Some s' /\ wf f s' /\ contents s' = contents s /\
    _count s' = _count s /\ _needsFullClear s' = _needsFullClear s /\
    _peakCount s' = _peakCount s /\
    zlen (_addresses s') = zlen (_addresses s) * 2.
Proof.
  intros Hwf Hcap. destruct (wf_table _ _ Hwf) as (k & Hk & Hmask & Ht).
  pose proof (pow_bucket_bounds k Hk). pose proof (tw_len _ _ _ Ht) as Hlen.
  assert (k <= 31) as Hk31.
  { destruct (decide (k <= 31)); [done|]. exfalso. pose proof (Z.pow_le_mono_r 2 32 k). lia. }
  assert (2 ^ (k + 1) = zlen (_addresses s) * 2) as Hp
    by (rewrite Z.pow_add_r, Hlen by lia; lia).
  pose proof (pow_bucket_bounds (k + 1) ltac:(lia)).
  unfold Grow. rewrite (wrap_small 64 (zlen _ * 2)) by (unfold in_u; lia).
  rewrite <- Hp, (wrap_small 64 (_ - 1)) by (unfold in_u; lia).
  set (n := Z.to_nat (2 ^ (k + 1))).
  destruct (rehash_ok (k + 1) ltac:(lia) (_addresses s) (_entries s) 0 (replicate n 0)
              (replicate n (mkEntry 0)) []) as (A & E & D & HR & HwA & HuA & HmA & HrA & HcA).
  - done.
  - rewrite drop_0. apply Ht.
  - eapply tw_uniq_nat, Ht.
  - intros a _ Ha j Hj%zget_replicate. done.
  - apply table_wf_empty; [subst n; lia|]. by rewrite length_replicate.
  - rewrite used_replicate. pose proof (used_le_len (_addresses s)). lia.
  - constructor.
  - intros i a Ha Hi%zget_replicate. done.
  - rewrite HR. cbn [mbind option_bind]. eexists. split; [done|].
    rewrite used_replicate, Z.add_0_l in HuA. pose proof (tw_len _ _ _ HwA).
    pose proof (wf_count _ _ Hwf). pose proof (wf_load _ _ Hwf).
    repeat split; cbn; rewrite ?HuA; try done; try lia.
    + exists (k + 1). auto with lia.
    + unfold contents. cbn. rewrite HmA, table_map_empty, (right_id_L ∅ (∪)). done.
Qed.

Lemma grow_if_needed_ok s :
  wf f s -> _count s < MaxEntries ->
  exists s', grow_if_needed s = Some s' /\ wf f s' /\ contents s' = contents s /\
    _count s' = _count s /\ _needsFullClear s' = _needsFullClear s /\
    _count s' * 10 < zlen (_addresses s') * 7.
Proof.
  intros Hwf Hmax. unfold grow_if_needed. rewrite (NeedsGrow_spec s Hwf).
  destruct (Z.leb_spec (zlen (_addresses s) * 7) (_count s * 10)) as [Hle|Hlt].
  - destruct (wf_table _ _ Hwf) as (k & Hk & _ & Ht). pose proof (tw_len _ _ _ Ht) as Hlen.
    assert (zlen (_addresses s) <= 2147483648) as Hcap.
    { rewrite Hlen in *. destruct (decide (k <= 31)).
      - pose proof (Z.pow_le_mono_r 2 k 31). lia.
      - replace k with 32 in * by lia. unfold MaxEntries in Hmax. lia. }
    destruct (Grow_ok s Hwf Hcap) as (s' & HG & Hwf' & Hc & Hn & Hfc & _ & Hl).
    exists s'. repeat (split; [done|]). pose proof (wf_load _ _ Hwf).
    pose proof (pow_bucket_bounds k Hk). lia.
  - exists s. auto 10.
Qed.

Lemma probe_present s a c :
  wf f s -> contents s !! a = Some c ->
  exists i, probe s a = Some (true, i) /\ zget (_addresses s) i = Some a /\
    zget (_entries s) i = Some (mkEntry c) /\ a <> 0.
Proof.
  intros Hwf Hc. destruct (wf_table _ _ Hwf) as (k & Hk & Hm & Ht).
  apply (wf_table_map_lookup _ _ _ _ _ Ht) in Hc as (Ha & i & Hi & He).
  exists i. repeat (split; [|done]). unfold probe. rewrite Hm, pos_start by lia.
  apply (find_slot_present k ltac:(lia) _ _ Ht); auto.
Qed.

Lemma probe_absent s a :
  wf f s -> a <> 0 -> contents s !! a = None ->
  exists i, probe s a = Some (false, i) /\ zget (_addresses s) i = Some 0 /\
    forall e, exists k, 9 <= k <= 32 /\ _mask s = 2 ^ k - 1 /\
        table_wf k (<[Z.to_nat i := a]> (_addresses s)) (<[Z.to_nat i := e]> (_entries s)) /\
        table_map (<[Z.to_nat i := a]> (_addresses s)) (<[Z.to_nat i := e]> (_entries s)) =
          <[a := classID e]> (contents s).
Proof.
  intros Hwf Ha Hn. destruct (wf_table _ _ Hwf) as (k & Hk & Hm & Ht).
  pose proof (proj1 (wf_table_map_None _ _ _ _ Ht Ha) Hn) as Habs. clear Hn.
  destruct (find_slot_absent k ltac:(lia) _ _ Ht a Ha Habs) as (i & Hp & Hi & Hr).
  { by apply wf_used_lt. }
  exists i. unfold probe. rewrite Hm, pos_start by lia. repeat (split; [done|]).
  intros e. exists k. repeat (split; [done|]).
  split; [apply (table_insert k)|apply (table_map_insert k)]; auto with lia.
Qed.

(** Filling the bucket an absent address was probed to. *)
Lemma wf_filled s a i e s' :
  wf f s -> a <> 0 -> zget (_addresses s) i = Some 0 ->
  _count s * 10 < zlen (_addresses s) * 7 ->
  (exists k, 9 <= k <= 32 /\ _mask s = 2 ^ k - 1 /\
    table_wf k (<[Z.to_nat i := a]> (_addresses s)) (<[Z.to_nat i := e]> (_entries s))) ->
  s' = {| _addresses := <[Z.to_nat i := a]> (_addresses s);
          _entries := <[Z.to_nat i := e]> (_entries s);
          _dirtyIndices := _dirtyIndices s ++ [u32 i];
          _count := u64 (_count s + 1); _peakCount := _peakCount s;
          _growCount := _growCount s; _needsFullClear := _needsFullClear s;
          _mask := _mask s |} ->
  wf f s' /\ _count s' = _count s + 1.
Proof.
  intros Hwf Ha Hi Hload (k & Hk & Hm & Ht) ->. pose proof (zget_range _ _ _ Hi) as Hr.
  pose proof (tw_len _ _ _ Ht) as Hlen. rewrite zlen_insert in Hlen.
  pose proof (pow_bucket_bounds k Hk). destruct Hwf as [_ Hc Hl Hdr Hdc].
  assert (u32 i = i) as -> by (apply wrap_small; unfold in_u; lia).
  rewrite (wrap_small 64) by (unfold in_u; lia).
  apply zget_Some in Hi as [_ Hi]. split; [|done].
  split; cbn; rewrite ?zlen_insert, ?used_insert by done;
    auto using dirty_range_insert, dirty_covers_insert with lia.
  exists k. auto.
Qed.
End set_ops.

(** ** What each operation does to the abstract map *)

Lemma contents_size f s : wf f s -> Z.of_nat (size (contents s)) = used (_addresses s).
Proof. intros Hwf. destruct (wf_table _ _ Hwf) as (k & _ & _ & Ht). by eapply wf_table_map_size. Qed.

Lemma contents_zero f s : wf f s -> contents s !! 0 = None.
Proof.
  intros Hwf. destruct (wf_table _ _ Hwf) as (k & _ & _ & Ht). apply eq_None_not_Some.
  intros [c Hc]. by apply (wf_table_map_lookup _ _ _ _ _ Ht) in Hc as [? _].
Qed.

Lemma TryInsert_ok f s a :
  0 <= f <= 16 -> wf f s -> a <> 0 -> _count s < MaxEntries ->
  exists s' r i, TryInsert s a = Some (s', r, i) /\ wf f s' /\
    _needsFullClear s' = _needsFullClear s /\
    zget (_addresses s') i = Some a /\
    match contents s !! a with
    | Some c => r = AlreadyPresent /\ contents s' = contents s /\ _count s' = _count s /\
                zget (_entries s') i = Some (mkEntry c)
    | None => r = Inserted /\ contents s' = <[a := 0]> (contents s) /\
              _count s' = _count s + 1 /\ zget (_entries s') i = Some (mkEntry 0)
    end.
Proof.
  intros Hf Hwf0 Ha Hmax.
  destruct (grow_if_needed_ok f s Hwf0 Hmax) as (s1 & Hg & Hwf & Hcont & Hcnt & Hfc & Hload).
  unfold TryInsert. rewrite Hg. cbn [mbind option_bind]. rewrite <- Hcont, <- Hcnt, <- Hfc.
  destruct (contents s1 !! a) as [c|] eqn:Hc.
  - destruct (probe_present f s1 a c Hwf Hc) as (i & Hp & Hi & He & _).
    rewrite Hp. cbn. exists s1, AlreadyPresent, i. auto 10.
  - destruct (probe_absent f Hf s1 a Hwf Ha Hc) as (i & Hp & Hi & Hfill).
    destruct (Hfill (mkEntry 0)) as (k & Hk & Hm & Ht & Hmap).
    pose proof (zget_range _ _ _ Hi) as Hr.
    assert (0 <= i < zlen (_entries s1)) as Hr'.
    { pose proof (tw_entries _ _ _ Ht) as Hl. rewrite !length_insert in Hl. by rewrite Hl. }
    rewrite Hp. cbn. rewrite zset_in_range by done. cbn.
    rewrite zset_in_range by done. cbn. eexists _, _, i. split; [done|].
    edestruct (wf_filled f s1 a i (mkEntry 0)) as [Hwf' Hcnt']; eauto.
    cbn in *. rewrite !zget_insert_eq by done. auto 10.
Qed.

Lemma write_slot_ok f s a i c d :
  wf f s -> contents s !! a = Some d -> zget (_addresses s) i = Some a ->
  exists s', write_slot s i c = Some s' /\ wf f s' /\ _count s' = _count s /\
    _needsFullClear s' = _needsFullClear s /\ contents s' = <[a := c]> (contents s).
Proof.
  intros Hwf Hd Hi. destruct (wf_table _ _ Hwf) as (k & Hk & Hm & Ht).
  pose proof (zget_range _ _ _ Hi) as Hr.
  apply (wf_table_map_lookup _ _ _ _ _ Ht) in Hd as [Ha _].
  unfold write_slot. rewrite zset_in_range by (by rewrite (tw_entries _ _ _ Ht)).
  cbn. eexists. split; [done|]. split; [|repeat (split; [done|])].
  - destruct Hwf. split; cbn; auto. exists k. auto using table_store.
  - unfold contents; cbn. apply (table_map_store k ltac:(lia)); auto.
Qed.

Lemma MarkVisitedAndStore_ok f s a c :
  0 <= f <= 16 -> wf f s -> a <> 0 -> _count s < MaxEntries ->
  exists s', MarkVisitedAndStore s a c = Some s' /\ wf f s' /\
    _needsFullClear s' = _needsFullClear s /\ _count s' <= _count s + 1 /\
    contents s' = <[a := c]> (contents s).
Proof.
  intros Hf Hwf0 Ha Hmax.
  destruct (grow_if_needed_ok f s Hwf0 Hmax) as (s1 & Hg & Hwf & Hcont & Hcnt & Hfc & Hload).
  unfold MarkVisitedAndStore. rewrite Hg. cbn [mbind option_bind]. rewrite <- Hcont, <- Hcnt, <- Hfc.
  destruct (wf_table _ _ Hwf) as (k0 & Hk0 & Hm0 & _).
  rewrite Hm0, (mark_slot_find k0), <- Hm0 by done. fold (probe s1 a).
  destruct (contents s1 !! a) as [d|] eqn:Hc.
  - destruct (probe_present f s1 a d Hwf Hc) as (i & Hp & Hi & _ & _). rewrite Hp. cbn.
    destruct (write_slot_ok f s1 a i c d Hwf Hc Hi) as (s' & -> & ? & ? & ? & ?).
    exists s'. auto with lia.
  - destruct (probe_absent f Hf s1 a Hwf Ha Hc) as (i & Hp & Hi & Hfill).
    destruct (Hfill (mkEntry c)) as (k & Hk & Hm & Ht & Hmap).
    pose proof (zget_range _ _ _ Hi) as Hr.
    assert (0 <= i < zlen (_entries s1)) as Hr'.
    { pose proof (tw_entries _ _ _ Ht) as Hl. rewrite !length_insert in Hl. by rewrite Hl. }
    rewrite Hp. cbn. rewrite zset_in_range by done. cbn.
    rewrite zset_in_range by done. cbn. eexists. split; [done|].
    edestruct (wf_filled f s1 a i (mkEntry c)) as [Hwf' Hcnt']; eauto.
    cbn in *. auto with lia.
Qed.

Lemma IsVisited_ok f s a :
  0 <= f <= 16 -> wf f s -> a <> 0 -> IsVisited s a = Some (bool_decide (is_Some (contents s !! a))).
Proof.
  intros Hf Hwf Ha. unfold IsVisited. destruct (contents s !! a) as [c|] eqn:Hc.
  - destruct (probe_present f s a c Hwf Hc) as (i & -> & _).
    by rewrite bool_decide_true by eauto.
  - destruct (probe_absent f Hf s a Hwf Ha Hc) as (i & -> & _).
    rewrite bool_decide_false; [done|]. apply is_Some_None.
Qed.

Lemma GetClassID_ok f s a :
  0 <= f <= 16 -> wf f s -> a <> 0 -> GetClassID s a = Some (contents s !! a).
Proof.
  intros Hf Hwf Ha. unfold GetClassID. destruct (contents s !! a) as [c|] eqn:Hc.
  - destruct (probe_present f s a c Hwf Hc) as (i & -> & _ & He & _). cbn. by rewrite He.
  - by destruct (probe_absent f Hf s a Hwf Ha Hc) as (i & -> & _).
Qed.

Lemma StoreClassID_ok f s a c :
  0 <= f <= 16 -> wf f s -> a <> 0 ->
  exists s', StoreClassID s a c = Some s' /\ wf f s' /\ _count s' = _count s /\
    _needsFullClear s' = _needsFullClear s /\ contents s' = alter (fun _ => c) a (contents s).
Proof.
  intros Hf Hwf Ha. unfold StoreClassID. destruct (contents s !! a) as [d|] eqn:Hc.
  - destruct (probe_present f s a d Hwf Hc) as (i & -> & Hi & _). cbn.
    destruct (write_slot_ok f s a i c d Hwf Hc Hi) as (s' & -> & ? & ? & ? & Hs).
    exists s'. repeat (split; [done|]). rewrite Hs. apply map_eq. intros b.
    rewrite lookup_insert, lookup_alter. case_decide; [subst; by rewrite Hc|done].
  - destruct (probe_absent f Hf s a Hwf Ha Hc) as (i & -> & _). cbn. exists s.
    repeat (split; [done|]). apply map_eq. intros b. rewrite lookup_alter.
    case_decide; [subst; by rewrite Hc|done].
Qed.

(** *** Clearing *)

Lemma zero_dirty_ok dirty addrs :
  dirty_range addrs dirty ->
  exists addrs', zero_dirty dirty addrs = Some addrs' /\ length addrs' = length addrs /\
    forall i, zget addrs' i = if decide (i ∈ dirty) then Some 0 else zget addrs i.
Proof.
  revert addrs. induction dirty as [|d dirty IH]; intros addrs Hr.
  { exists addrs. do 2 (split; [done|]). intros i.
    by rewrite decide_False by apply not_elem_of_nil. }
  apply Forall_cons in Hr as [Hd Hr]. cbn. rewrite zset_in_range by done. cbn.
  destruct (IH (<[Z.to_nat d := 0]> addrs)) as (addrs' & -> & Hl & Hz).
  { unfold dirty_range. by rewrite zlen_insert. }
  exists addrs'. split; [done|]. split; [by rewrite Hl, length_insert|].
  intros i. rewrite Hz. destruct (decide (i ∈ dirty)) as [Hin|Hin].
  - rewrite decide_True by (by constructor). done.
  - destruct (decide (i = d)) as [->|Hne].
    + rewrite decide_True by constructor. by apply zget_insert_eq.
    + rewrite decide_False by (rewrite elem_of_cons; naive_solver).
      apply zget_insert_ne; [lia|done].
Qed.

Lemma all_zero_replicate addrs :
  (forall i a, zget addrs i = Some a -> a = 0) -> addrs = replicate (length addrs) 0.
Proof.
  intros H. symmetry. apply replicate_as_elem_of. split; [done|]. intros a [i Hi]%list_elem_of_lookup.
  apply (H (Z.of_nat i)). apply zget_Some. rewrite Nat2Z.id. auto with lia.
Qed.

(** Lengths and the dirty list are all that [Clear] relies on. *)
Lemma Clear_addrs s k :
  9 <= k <= 32 -> zlen (_addresses s) = 2 ^ k -> length (_entries s) = length (_addresses s) ->
  _mask s = 2 ^ k - 1 -> dirty_range (_addresses s) (_dirtyIndices s) ->
  (_needsFullClear s = false -> dirty_covers (_addresses s) (_dirtyIndices s)) ->
  exists s', Clear s = Some s' /\ wf 0 s' /\ contents s' = ∅ /\
    _needsFullClear s' = false /\ Size s' = 0 /\
    GetBucketCount s' = GetBucketCount s /\ GetPeakEntryCount s' = Z.max (GetPeakEntryCount s) 0.
Proof.
  intros Hk Hlen He Hm Hdr Hdc. set (n := length (_addresses s)) in *.
  assert (exists addrs, (if _needsFullClear s then Some (replicate n 0)
            else zero_dirty (_dirtyIndices s) (_addresses s)) = Some addrs /\
            addrs = replicate n 0) as (addrs & Hc & ->).
  { destruct (_needsFullClear s); [eauto|].
    destruct (zero_dirty_ok _ _ Hdr) as (addrs & -> & Hl & Hz). exists addrs. split; [done|].
    unfold n. rewrite <- Hl. apply all_zero_replicate. intros i a. rewrite Hz. case_decide as Hin; [congruence|].
    intros Hi. destruct (decide (a = 0)); [done|]. destruct Hin. by eapply Hdc. }
  unfold Clear. fold n. rewrite Hc. cbn [mbind option_bind]. eexists. split; [done|].
  pose proof (pow_bucket_bounds k Hk). unfold Size, GetBucketCount, GetPeakEntryCount, contents.
  cbn. rewrite table_map_empty, length_replicate. fold n. split.
  { split; cbn; rewrite ?used_replicate, ?length_replicate; try lia.
    - exists k. repeat (split; [done|]). by apply table_wf_empty.
    - constructor.
    - intros _ i a Ha Hi%zget_replicate. done. }
  repeat (split; [done|]). destruct (Z.ltb_spec (_peakCount s) (_count s)); lia.
Qed.

Lemma Clear_ok f s :
  wf f s ->
  exists s', Clear s = Some s' /\ wf 0 s' /\ contents s' = ∅ /\
    _needsFullClear s' = false /\ Size s' = 0 /\
    GetBucketCount s' = GetBucketCount s /\ GetPeakEntryCount s' = GetPeakEntryCount s.
Proof.
  intros Hwf. destruct (wf_table _ _ Hwf) as (k & Hk & Hm & Ht).
  destruct (Clear_addrs s k Hk) as (s' & H & H1 & H2 & H3 & H4 & H5 & H6); auto;
    try apply Ht; try apply Hwf.
  exists s'. repeat (split; [done|]). rewrite H6.
  pose proof (wf_count _ _ Hwf). unfold GetPeakEntryCount. lia.
Qed.

(** *** Construction *)

Lemma initial_capacity_ok fuel j init :
  9 <= j <= 32 -> init <= 4294967296 -> 33 - j <= Z.of_nat fuel ->
  exists k, j <= k <= 32 /\ initial_capacity fuel (2 ^ j) init = Some (2 ^ k) /\ init <= 2 ^ k.
Proof.
  intros Hj Hinit. revert j Hj. induction fuel as [|fuel IH]; intros j Hj Hfuel; [lia|].
  cbn. destruct (Z.ltb_spec (2 ^ j) init) as [Hlt|Hge]; [|exists j; auto with lia].
  assert (j <= 31).
  { destruct (decide (j <= 31)); [done|]. replace j with 32 in Hlt by lia. lia. }
  pose proof (pow_bucket_bounds j Hj).
  assert (u64 (2 ^ j * 2) = 2 ^ (j + 1)) as ->.
  { rewrite Z.pow_add_r by lia. apply wrap_small. unfold in_u. lia. }
  destruct (IH (j + 1)) as (k & ? & ? & ?); [lia..|]. exists k. auto with lia.
Qed.

Lemma new_ok init :
  init <= 4294967296 ->
  exists s, new_VisitedObjectSet init = Some s /\ wf 0 s /\ contents s = ∅ /\
    Size s = 0 /\ init <= GetBucketCount s.
Proof.
  intros Hinit. destruct (initial_capacity_ok 64 9 init) as (k & Hk & HE & Hle); [lia..|].
  unfold new_VisitedObjectSet. change DefaultCapacity with (2 ^ 9). rewrite HE. cbn.
  pose proof (pow_bucket_bounds k Hk). eexists. split; [done|].
  unfold contents, Size, GetBucketCount. cbn. rewrite table_map_empty, length_replicate.
  split; [|auto with lia]. split; cbn; rewrite ?used_replicate, ?length_replicate; try lia.
  - exists k. repeat (split; [done|]). apply table_wf_empty; [lia|by rewrite length_replicate].
  - constructor.
  - intros _ i a Ha Hi%zget_replicate. done.
Qed.

(** *** Interrupted insertions *)

(** Whatever part of the bookkeeping was done, the table itself is sound. *)
Lemma wf_partial f s a i e dirty count :
  0 <= f < 16 -> wf f s -> a <> 0 -> zget (_addresses s) i = Some 0 ->
  _count s * 10 < zlen (_addresses s) * 7 ->
  (exists k, 9 <= k <= 32 /\ _mask s = 2 ^ k - 1 /\
    table_wf k (<[Z.to_nat i := a]> (_addresses s)) (<[Z.to_nat i := e]> (_entries s))) ->
  dirty = _dirtyIndices s \/ dirty = _dirtyIndices s ++ [u32 i] ->
  count = _count s \/ count = u64 (_count s + 1) ->
  wf (f + 1) (MarkPossiblyInconsistent
    {| _addresses := <[Z.to_nat i := a]> (_addresses s);
       _entries := <[Z.to_nat i := e]> (_entries s); _dirtyIndices := dirty;
       _count := count; _peakCount := _peakCount s; _growCount := _growCount s;
       _needsFullClear := _needsFullClear s; _mask := _mask s |}).
Proof.
  intros Hf Hwf Ha Hi Hload (k & Hk & Hm & Ht) Hd Hc. pose proof (zget_range _ _ _ Hi) as Hr.
  pose proof (tw_len _ _ _ Ht) as Hlen. rewrite zlen_insert in Hlen.
  pose proof (pow_bucket_bounds k Hk). destruct Hwf as [_ Hcw Hl Hdr _].
  rewrite (wrap_small 32) in Hd by (unfold in_u; lia).
  rewrite (wrap_small 64) in Hc by (unfold in_u; lia).
  apply zget_Some in Hi as [_ Hi].
  split; cbn; rewrite ?zlen_insert, ?used_insert by done; try lia; try done.
  - exists k. auto.
  - destruct Hd as [->| ->]; [|by apply dirty_range_insert].
    unfold dirty_range. by rewrite zlen_insert.
Qed.

Lemma TryInsert_interrupted_ok f s a n :
  0 <= f < 16 -> wf f s -> a <> 0 -> _count s < MaxEntries ->
  exists s', TryInsert_interrupted n s a = Some s' /\
    wf (f + 1) (MarkPossiblyInconsistent s') /\
    (contents s' = contents s \/ exists c, contents s' = <[a := c]> (contents s)).
Proof.
  intros Hf Hwf0 Ha Hmax.
  destruct (grow_if_needed_ok f s Hwf0 Hmax) as (s1 & Hg & Hwf & Hcont & Hcnt & Hfc & Hload).
  unfold TryInsert_interrupted. rewrite Hg. cbn [mbind option_bind]. rewrite <- Hcont.
  assert (wf (f + 1) (MarkPossiblyInconsistent s1)) as Hs1.
  { apply (wf_mono f); [lia|]. by destruct Hwf. }
  destruct (contents s1 !! a) as [d|] eqn:Hc.
  { destruct (probe_present f s1 a d Hwf Hc) as (i & -> & _). cbn. eauto. }
  destruct (probe_absent f ltac:(lia) s1 a Hwf Ha Hc) as (i & -> & Hi & Hfill). cbn.
  pose proof (zget_range _ _ _ Hi) as Hr.
  destruct (wf_table _ _ Hwf) as (k & Hk & Hm & Ht).
  assert (0 <= i < zlen (_entries s1)) as Hr' by (by rewrite (tw_entries _ _ _ Ht)).
  destruct (zget_in_range (_entries s1) i Hr') as [e [_ He]%zget_Some].
  destruct n as [|[|n]]; cbn; rewrite ?zset_in_range by done; cbn; (eexists; split; [done|]).
  - split; [by destruct Hs1|by left].
  - destruct (Hfill e) as (k' & Hk' & Hm' & Ht' & Hmap). split.
    + rewrite <- (list_insert_id (_entries s1) (Z.to_nat i) e) at 1 by done.
      apply (wf_partial f s1); eauto.
    + right. exists (classID e). rewrite <- Hmap.
      by rewrite (list_insert_id (_entries s1) (Z.to_nat i) e).
  - destruct (Hfill (mkEntry 0)) as (k' & Hk' & Hm' & Ht' & Hmap). split.
    + apply (wf_partial f s1); eauto; repeat case_match; auto.
    + right. by exists 0.
Qed.

(** ** Sequences of operations *)

Inductive op :=
| OpTryInsert (a : Z)
| OpMarkIfAbsent (a : Z)
| OpMarkVisitedAndStore (a c : Z)
| OpStoreClassID (a c : Z)
| OpIsVisited (a : Z)
| OpGetClassID (a : Z)
| OpClear.

Inductive obs :=
| ObsNone
| ObsInsert (r : InsertResult)
| ObsBool (b : bool)
| ObsClass (c : option Z).

Definition op_address (o : op) : Z :=
  match o with
  | OpTryInsert a | OpMarkIfAbsent a | OpMarkVisitedAndStore a _ | OpStoreClassID a _
  | OpIsVisited a | OpGetClassID a => a
  | OpClear => 1
  end.

(** One call on the table. *)
Definition exec (s : VisitedObjectSet) (o : op) : option (VisitedObjectSet * obs) :=
  match o with
  | OpTryInsert a => '(s, r, _) ← TryInsert s a; Some (s, ObsInsert r)
  | OpMarkIfAbsent a => '(s, b) ← MarkIfAbsent s a; Some (s, ObsBool b)
  | OpMarkVisitedAndStore a c => s ← MarkVisitedAndStore s a c; Some (s, ObsNone)
  | OpStoreClassID a c => s ← StoreClassID s a c; Some (s, ObsNone)
  | OpIsVisited a => b ← IsVisited s a; Some (s, ObsBool b)
  | OpGetClassID a => c ← GetClassID s a; Some (s, ObsClass c)
  | OpClear => s ← Clear s; Some (s, ObsNone)
  end.

(** The same call on the finite map it stands for. *)
Definition spec (m : gmap Z Z) (o : op) : gmap Z Z * obs :=
  match o with
  | OpTryInsert a =>
      if m !! a is Some _ then (m, ObsInsert AlreadyPresent)
      else (<[a := 0]> m, ObsInsert Inserted)
  | OpMarkIfAbsent a =>
      if m !! a is Some _ then (m, ObsBool false) else (<[a := 0]> m, ObsBool true)
  | OpMarkVisitedAndStore a c => (<[a := c]> m, ObsNone)
  | OpStoreClassID a c => (alter (fun _ => c) a m, ObsNone)
  | OpIsVisited a => (m, ObsBool (bool_decide (is_Some (m !! a))))
  | OpGetClassID a => (m, ObsClass (m !! a))
  | OpClear => (∅, ObsNone)
  end.

Fixpoint execs (s : VisitedObjectSet) (os : list op) : option (VisitedObjectSet * list obs) :=
  match os with
  | [] => Some (s, [])
  | o :: os =>
      '(s, r) ← exec s o;
      '(s, rs) ← execs s os;
      Some (s, r :: rs)
  end.

Fixpoint specs (m : gmap Z Z) (os : list op) : gmap Z Z * list obs :=
  match os with
  | [] => (m, [])
  | o :: os =>
      let '(m, r) := spec m o in
      let '(m, rs) := specs m os in
      (m, r :: rs)
  end.

Lemma exec_ok s o :
  wf 0 s -> op_address o <> 0 -> _count s < MaxEntries ->
  exists s' r, exec s o = Some (s', r) /\ wf 0 s' /\ _count s' <= _count s + 1 /\
    spec (contents s) o = (contents s', r).
Proof.
  intros Hwf Ha Hmax. destruct o as [a|a|a c|a c|a|a|]; cbn in Ha |- *.
  - destruct (TryInsert_ok 0 s a) as (s' & r & i & -> & Hwf' & _ & _ & H); [lia|done..|].
    cbn. exists s', (ObsInsert r).
    destruct (contents s !! a); destruct H as (-> & -> & ? & _); auto with lia.
  - unfold MarkIfAbsent.
    destruct (TryInsert_ok 0 s a) as (s' & r & i & -> & Hwf' & _ & _ & H); [lia|done..|].
    cbn. exists s', (ObsBool (bool_decide (r = Inserted))).
    destruct (contents s !! a); destruct H as (-> & -> & ? & _); auto with lia.
  - destruct (MarkVisitedAndStore_ok 0 s a c) as (s' & -> & Hwf' & _ & H & Hs); [lia|done..|].
    cbn. exists s', ObsNone. rewrite Hs. auto.
  - destruct (StoreClassID_ok 0 s a c) as (s' & -> & Hwf' & H & _ & Hs); [lia|done..|].
    cbn. exists s', ObsNone. rewrite Hs. auto with lia.
  - rewrite (IsVisited_ok 0 s a) by (lia || done). cbn. eexists s, _. auto with lia.
  - rewrite (GetClassID_ok 0 s a) by (lia || done). cbn. eexists s, _. auto with lia.
  - destruct (Clear_ok 0 s Hwf) as (s' & -> & Hwf' & H & _ & H0 & _). unfold Size in H0.
    cbn. exists s', ObsNone. pose proof (wf_count _ _ Hwf). rewrite H. auto with lia.
Qed.

Lemma execs_ok os : forall s,
  wf 0 s -> Forall (fun o => op_address o <> 0) os -> _count s + zlen os <= MaxEntries ->
  exists s' rs, execs s os = Some (s', rs) /\ wf 0 s' /\ specs (contents s) os = (contents s', rs).
Proof.
  induction os as [|o os IH]; intros s Hwf Hok Hmax; [cbn; eauto|].
  apply Forall_cons in Hok as [Ho Hok]. rewrite length_cons in Hmax.
  destruct (exec_ok s o) as (s1 & r & Hx & Hwf1 & Hc1 & Hs); [auto with lia..|].
  destruct (IH s1) as (s' & rs & Hxs & Hwf' & Hss); [auto with lia..|].
  exists s', (r :: rs). cbn. rewrite Hx, Hs. cbn. rewrite Hxs, Hss. auto.
Qed.

(** ** Properties *)

(** C7: any sequence of calls on a freshly constructed set runs to completion (no
    out-of-range access, every probe loop stops) and returns what the same calls
    return on a finite map from addresses to class identifiers, the final table
    standing for the final map. *)
Theorem execs_refines init os :
  init <= 4294967296 -> Forall (fun o => op_address o <> 0) os -> zlen os <= MaxEntries ->
  exists s0 s rs, new_VisitedObjectSet init = Some s0 /\ execs s0 os = Some (s, rs) /\
    specs ∅ os = (contents s, rs) /\ Size s = Z.of_nat (size (contents s)).
Proof.
  intros Hinit Hok Hmax. destruct (new_ok init Hinit) as (s0 & Hn & Hwf & Hc & H0 & _).
  destruct (execs_ok os s0 Hwf Hok) as (s & rs & Hx & Hwf' & Hs); [unfold Size in H0; lia|].
  exists s0, s, rs. rewrite <- Hc. repeat (split; [done|]).
  rewrite (contents_size _ _ Hwf'). pose proof (wf_count _ _ Hwf'). unfold Size. lia.
Qed.

Lemma execs_refines_witness :
  exists s0 s rs, new_VisitedObjectSet 512 = Some s0 /\
    execs s0 [OpMarkVisitedAndStore 4096 7; OpTryInsert 4096; OpTryInsert 8192; OpClear;
              OpIsVisited 4096] = Some (s, rs) /\
    specs ∅ [OpMarkVisitedAndStore 4096 7; OpTryInsert 4096; OpTryInsert 8192; OpClear;
             OpIsVisited 4096] = (contents s, rs) /\
    Size s = Z.of_nat (size (contents s)).
Proof.
  apply execs_refines; [lia| |vm_compute; congruence].
  repeat constructor; vm_compute; congruence.
Defined.

(** [TryInsert] on a well-formed set returns, keeps the set well formed whether
    or not it had to grow, reports [Inserted] exactly when the address was absent,
    adds it with a zeroed class identifier in that case only, and the slot it hands
    out is the metadata of that address. *)
Theorem TryInsert_refines f s a :
  0 <= f <= 16 -> wf f s -> a <> 0 -> _count s < MaxEntries ->
  exists s' r i, TryInsert s a = Some (s', r, i) /\ wf f s' /\
    (r = Inserted <-> contents s !! a = None) /\
    contents s' = (if contents s !! a is Some _ then contents s else <[a := 0]> (contents s)) /\
    forall c, exists s'', write_slot s' i c = Some s'' /\ wf f s'' /\
      contents s'' = <[a := c]> (contents s').
Proof.
  intros Hf Hwf Ha Hmax.
  destruct (TryInsert_ok f s a Hf Hwf Ha Hmax) as (s' & r & i & HT & Hwf' & _ & Hi & H).
  exists s', r, i. split; [done|]. split; [done|].
  assert (exists d, contents s' !! a = Some d) as [d Hd].
  { destruct (contents s !! a) as [c|] eqn:Hc; destruct H as (_ & -> & _).
    - eauto.
    - exists 0. apply lookup_insert_eq. }
  split; [destruct (contents s !! a); naive_solver|].
  split; [destruct (contents s !! a); naive_solver|].
  intros c. destruct (write_slot_ok f s' a i c d Hwf' Hd Hi) as (s'' & ? & ? & _ & _ & ?).
  eauto.
Qed.

(** Growing doubles the table and neither loses, nor adds, nor changes an
    entry; the dirty list is rebuilt so that a later [Clear] still reaches every
    occupied bucket. *)
Theorem Grow_preserves f s :
  wf f s -> GetBucketCount s <= 2147483648 ->
  exists s', Grow s = Some s' /\ wf f s' /\ contents s' = contents s /\
    Size s' = Size s /\ GetBucketCount s' = 2 * GetBucketCount s /\ NeedsGrow s' = false.
Proof.
  intros Hwf Hcap. destruct (Grow_ok f s Hwf Hcap) as (s' & ? & Hwf' & ? & Hn & _ & _ & Hl).
  exists s'. unfold Size, GetBucketCount. repeat (split; [done || lia|]).
  rewrite (NeedsGrow_spec f s' Hwf'). apply Z.leb_gt.
  pose proof (wf_load _ _ Hwf). destruct (wf_table _ _ Hwf) as (k & Hk & _ & Ht).
  pose proof (tw_len _ _ _ Ht). pose proof (pow_bucket_bounds k Hk). lia.
Qed.

(** An insertion abandoned by a memory fault after any number of its writes
    leaves a set that still answers for every address recorded before, and the
    [Clear] that follows [MarkPossiblyInconsistent] yields an empty, well-formed
    set: no address of one root leaks into the next. *)
Theorem interrupted_insert_recovers f s a n :
  0 <= f < 16 -> wf f s -> a <> 0 -> _count s < MaxEntries ->
  exists s1 s2, TryInsert_interrupted n s a = Some s1 /\
    (forall b, b <> a -> b <> 0 ->
       GetClassID (MarkPossiblyInconsistent s1) b = Some (contents s !! b)) /\
    Clear (MarkPossiblyInconsistent s1) = Some s2 /\ wf 0 s2 /\ contents s2 = ∅.
Proof.
  intros Hf Hwf Ha Hmax.
  destruct (TryInsert_interrupted_ok f s a n Hf Hwf Ha Hmax) as (s1 & H1 & Hwf1 & Hc).
  destruct (Clear_ok _ _ Hwf1) as (s2 & H2 & Hwf2 & He & _).
  exists s1, s2. split; [done|]. split; [|done]. intros b Hb Hb0.
  rewrite (GetClassID_ok (f + 1)) by (lia || done).
  change (contents (MarkPossiblyInconsistent s1)) with (contents s1).
  destruct Hc as [->|[c ->]]; [done|]. by rewrite lookup_insert_ne by done.
Qed.
