(* ===== verification/RingBuffer.v ===== *)
(** * The CPU-sample ring buffer

    Model of [RingBuffer.cpp]: signal handlers reserve fixed-size records under a
    spin lock, fill them without it and commit or discard them; a single reader
    drains them in order and releases the space when it is destroyed.

    Memory is the data area of the double mapping, as 8-byte words: the byte at
    distance [o] from [rb->data] is the byte [o mod data_size] of the file, which is
    what mapping the file twice back to back provides.  Interleavings are sequences
    of events: [Reserve] is one event because it runs under the lock, [Commit] and
    [Discard] are one store to the record's own header, and the reader's operations
    touch only the positions it owns. *)
From stdpp Require Import base gmap list.
From S2P Require Import Prelude.

(** ** Sizes *)

Definition align_up (x pow2 : Z) : Z :=
  u64 (Z.lor (u64 (x - 1)) (u64 (pow2 - 1)) + 1).

Definition next_power_of_two (size : Z) : Z :=
  if size =? 0 then 1
  else
    let size := u64 (size - 1) in
    let size := Z.lor size (Z.shiftr size 1) in
    let size := Z.lor size (Z.shiftr size 2) in
    let size := Z.lor size (Z.shiftr size 4) in
    let size := Z.lor size (Z.shiftr size 8) in
    let size := Z.lor size (Z.shiftr size 16) in
    let size := Z.lor size (Z.shiftr size 32) in
    u64 (size + 1).

Definition get_mask_from_size (size : Z) : Z := u64 (size - 1).

(** ** State *)

Record RingBufferImpl := mkRB {
  mask : Z;
  meta_size : Z;
  data_size : Z;
  data : gmap Z Z;              (* 8-byte words, by physical offset *)
  writer_pos : Z;
  reader_pos : Z;
  intermediate_reader_pos : Z;
  sample_size : Z
}.

(** What the operating system answers to each call of [Create]. *)
Record os_answers := mkOs {
  os_memfd : bool;
  os_ftruncate : bool;
  os_reserve : bool;
  os_map_second : bool;
  os_map_first : bool
}.

Inductive create_error :=
| ErrMemfd | ErrFtruncate | ErrReserve | ErrMapSecond | ErrMapFirst.

(** [GetPageSize] is a parameter: it is the operating system's. *)
Definition Create (os : os_answers) (page_size requestedSize sampleSize : Z)
    : create_error + RingBufferImpl :=
  if negb (os_memfd os) then inl ErrMemfd
  else
    let dataSize := next_power_of_two (Z.max page_size requestedSize) in
    let metadata_size := page_size in
    if negb (os_ftruncate os) then inl ErrFtruncate
    else if negb (os_reserve os) then inl ErrReserve
    else if negb (os_map_second os) then inl ErrMapSecond
    else if negb (os_map_first os) then inl ErrMapFirst
    else inr {| mask := get_mask_from_size dataSize; meta_size := metadata_size;
                data_size := dataSize; data := ∅; writer_pos := 0; reader_pos := 0;
                intermediate_reader_pos := 0; sample_size := sampleSize |}.

(** ** Headers *)

Definition k_discard_bit : Z := Z.shiftl 1 62.
Definition k_reserved_bit : Z := Z.shiftl 1 63.
Definition is_reserved (size : Z) : bool := negb (Z.land size k_reserved_bit =? 0).
Definition is_discarded (size : Z) : bool := negb (Z.land size k_discard_bit =? 0).
Definition sizeof_BufferHeader : Z := 8.
Definition RingBufferAlignment : Z := 8.

(** A span into the data area: distance from [rb->data] and size in bytes. *)
Record Buffer := mkBuffer { buf_off : Z; buf_size : Z }.

#[export] Instance Buffer_eq_dec : EqDecision Buffer.
Proof. solve_decision. Defined.

Definition load (rb : RingBufferImpl) (off : Z) : Z :=
  default 0 (data rb !! (off mod data_size rb)).

Definition store (rb : RingBufferImpl) (off v : Z) : RingBufferImpl :=
  {| mask := mask rb; meta_size := meta_size rb; data_size := data_size rb;
     data := <[off mod data_size rb := v]> (data rb);
     writer_pos := writer_pos rb; reader_pos := reader_pos rb;
     intermediate_reader_pos := intermediate_reader_pos rb;
     sample_size := sample_size rb |}.

Definition set_writer_pos (rb : RingBufferImpl) (p : Z) : RingBufferImpl :=
  {| mask := mask rb; meta_size := meta_size rb; data_size := data_size rb;
     data := data rb; writer_pos := p; reader_pos := reader_pos rb;
     intermediate_reader_pos := intermediate_reader_pos rb;
     sample_size := sample_size rb |}.

Definition set_reader_pos (rb : RingBufferImpl) (p : Z) : RingBufferImpl :=
  {| mask := mask rb; meta_size := meta_size rb; data_size := data_size rb;
     data := data rb; writer_pos := writer_pos rb; reader_pos := p;
     intermediate_reader_pos := intermediate_reader_pos rb;
     sample_size := sample_size rb |}.

Definition set_intermediate (rb : RingBufferImpl) (p : Z) : RingBufferImpl :=
  {| mask := mask rb; meta_size := meta_size rb; data_size := data_size rb;
     data := data rb; writer_pos := writer_pos rb; reader_pos := reader_pos rb;
     intermediate_reader_pos := p; sample_size := sample_size rb |}.

(** ** Writer *)

(** [owns_lock]: whether the lock was obtained within the timeout.  The second
    component is what is stored through [timeout]. *)
Definition Reserve (owns_lock : bool) (rb : RingBufferImpl)
    : RingBufferImpl * bool * option Buffer :=
  let size := sample_size rb in
  let n2 := align_up (u64 (size + sizeof_BufferHeader)) RingBufferAlignment in
  if n2 =? 0 then (rb, false, None)
  else if negb owns_lock then (rb, true, None)
  else
    let new_writer_pos := u64 (writer_pos rb + n2) in
    let head := reader_pos rb in
    if mask rb <? u64 (new_writer_pos - head) then (rb, false, None)
    else
      let head_linear := Z.land (writer_pos rb) (mask rb) in
      let rb := store rb head_linear (Z.lor size k_reserved_bit) in
      (set_writer_pos rb new_writer_pos, false,
       Some (mkBuffer (head_linear + sizeof_BufferHeader) size)).

Definition Commit (rb : RingBufferImpl) (buf : Buffer) : RingBufferImpl :=
  let hdr := buf_off buf - sizeof_BufferHeader in
  store rb hdr (Z.lxor (load rb hdr) k_reserved_bit).

Definition Discard (rb : RingBufferImpl) (buf : Buffer) : RingBufferImpl :=
  let hdr := buf_off buf - sizeof_BufferHeader in
  let new_size := Z.lxor (load rb hdr) k_reserved_bit in
  store rb hdr (Z.lor new_size k_discard_bit).

(** ** Reader *)

Record Reader := mkReader { _tail : Z }.

Definition new_Reader (rb : RingBufferImpl) : Reader := {| _tail := writer_pos rb |}.

Definition destroy_Reader (rb : RingBufferImpl) : RingBufferImpl :=
  if reader_pos rb <? intermediate_reader_pos rb
  then set_reader_pos rb (intermediate_reader_pos rb) else rb.

Definition AvailableSamples (rb : RingBufferImpl) (r : Reader) : Z :=
  let n2 := align_up (u64 (sizeof_BufferHeader + sample_size rb)) RingBufferAlignment in
  u64 (_tail r - intermediate_reader_pos rb) / n2.

(** The [while (true)] loop of [GetNext]; [None]: out of fuel. *)
Fixpoint GetNext_loop (fuel : nat) (rb : RingBufferImpl) (tail : Z)
    : option (RingBufferImpl * option Buffer) :=
  match fuel with
  | O => None
  | S fuel =>
      let head := intermediate_reader_pos rb in
      if head =? tail then Some (rb, None)
      else
        let head_linear := Z.land head (mask rb) in
        let sz := load rb head_linear in
        if is_reserved sz then Some (rb, None)
        else
          let rb := set_intermediate rb
            (u64 (head + align_up (u64 (Z.land sz (u64 (Z.lnot k_discard_bit)) +
                                        sizeof_BufferHeader)) RingBufferAlignment)) in
          if is_discarded sz then GetNext_loop fuel rb tail
          else Some (rb, Some (mkBuffer (head_linear + sizeof_BufferHeader) sz))
  end.

(** Every iteration moves the head by at least one header, so this many
    iterations are enough (theorem below). *)
Definition GetNext (rb : RingBufferImpl) (r : Reader)
    : option (RingBufferImpl * option Buffer) :=
  GetNext_loop (S (Z.to_nat (u64 (_tail r - intermediate_reader_pos rb)))) rb (_tail r).

(** ** What the clients do with a buffer: word [j] of its payload *)

Definition write_payload (rb : RingBufferImpl) (buf : Buffer) (j v : Z) : RingBufferImpl :=
  store rb (buf_off buf + 8 * j) v.

Definition payload (rb : RingBufferImpl) (off : Z) (w : nat) : list Z :=
  (fun j => load rb (off + 8 * Z.of_nat j)) <$> seq 0 w.

(** ** Size arithmetic *)

Lemma lor_low_mask a k :
  0 <= k -> Z.lor a (2 ^ k - 1) = 2 ^ k * (a / 2 ^ k) + (2 ^ k - 1).
Proof.
  intros Hk. replace (2 ^ k - 1) with (Z.ones k) by (rewrite Z.ones_equiv; lia).
  assert (Z.lor a (Z.ones k) = Z.lor (Z.ldiff a (Z.ones k)) (Z.ones k)) as ->.
  { apply Z.bits_inj'. intros n Hn. rewrite !Z.lor_spec, Z.ldiff_spec.
    destruct (Z.testbit a n), (Z.testbit (Z.ones k) n); done. }
  rewrite <- Z.lxor_lor, <- Z.add_nocarry_lxor.
  - rewrite Z.ldiff_ones_r, Z.shiftl_mul_pow2, Z.shiftr_div_pow2 by done. lia.
  - apply Z.bits_inj'. intros n Hn. rewrite Z.land_spec, Z.ldiff_spec, Z.bits_0.
    by destruct (Z.testbit a n), (Z.testbit (Z.ones k) n).
  - apply Z.bits_inj'. intros n Hn. rewrite Z.land_spec, Z.ldiff_spec, Z.bits_0.
    by destruct (Z.testbit a n), (Z.testbit (Z.ones k) n).
Qed.

Lemma align_up_eq x k :
  0 <= k < 64 -> 0 < x <= 2 ^ 64 - 2 ^ k ->
  align_up x (2 ^ k) = 2 ^ k * ((x - 1) / 2 ^ k) + 2 ^ k.
Proof.
  intros Hk Hx. unfold align_up.
  assert (0 < 2 ^ k) by (apply Z.pow_pos_nonneg; lia).
  rewrite (wrap_small 64 (x - 1)) by (unfold in_u; lia).
  rewrite (wrap_small 64 (2 ^ k - 1))
    by (unfold in_u; pose proof (Z.pow_lt_mono_r 2 k 64); lia).
  rewrite lor_low_mask by lia.
  replace (2 ^ k * ((x - 1) / 2 ^ k) + (2 ^ k - 1) + 1)
    with (2 ^ k * ((x - 1) / 2 ^ k) + 2 ^ k) by lia.
  apply wrap_small. unfold in_u.
  assert (2 ^ 64 = 2 ^ k * 2 ^ (64 - k)) as Hp by (rewrite <- Z.pow_add_r by lia; f_equal; lia).
  pose proof (Z.div_mod (x - 1) (2 ^ k) ltac:(lia)).
  pose proof (Z.mod_pos_bound (x - 1) (2 ^ k)).
  assert ((x - 1) / 2 ^ k < 2 ^ (64 - k) - 1).
  { apply Z.div_lt_upper_bound; [lia|]. nia. }
  pose proof (Z.div_pos (x - 1) (2 ^ k)). nia.
Qed.

(** Every bit below the leading one is set by the six shift-or steps. *)
Definition smeared (L m y : Z) : Prop :=
  0 <= y < 2 ^ (L + 1) /\ forall i, 0 <= i -> L - m < i <= L -> Z.testbit y i = true.

Lemma smear_step L m y :
  0 <= L -> 0 < m -> smeared L m y -> smeared L (2 * m) (Z.lor y (Z.shiftr y m)).
Proof.
  intros HL Hm [Hy Hb]. split.
  - assert (0 <= Z.shiftr y m) by (apply Z.shiftr_nonneg; lia).
    split; [apply Z.lor_nonneg; lia|]. destruct (decide (y = 0)) as [->|Hy0].
    { rewrite Z.shiftr_0_l. cbn. apply Z.pow_pos_nonneg; lia. }
    assert (Z.shiftr y m <= y).
    { rewrite Z.shiftr_div_pow2 by lia. apply Z.div_le_upper_bound; [lia|].
      assert (1 <= 2 ^ m) by (pose proof (Z.pow_pos_nonneg 2 m); lia). nia. }
    destruct (decide (Z.lor y (Z.shiftr y m) = 0)) as [->|]; [lia|].
    apply Z.log2_lt_pow2; [pose proof (proj2 (Z.lor_nonneg y (Z.shiftr y m))); lia|].
    rewrite Z.log2_lor by lia. apply Z.max_lub_lt; [apply Z.log2_lt_pow2; lia|].
    destruct (decide (Z.shiftr y m = 0)) as [->|]; [cbn; lia|].
    apply Z.log2_lt_pow2; lia.
  - intros i Hi Hr. rewrite Z.lor_spec, Z.shiftr_spec by done. apply orb_true_iff.
    destruct (decide (L - m < i)); [left|right]; apply Hb; lia.
Qed.

Lemma smeared_all L m y : 0 <= L < m -> smeared L m y -> y = 2 ^ (L + 1) - 1.
Proof.
  intros HL [Hy Hb]. replace (2 ^ (L + 1) - 1) with (Z.ones (L + 1))
    by (rewrite Z.ones_equiv; lia).
  apply Z.bits_inj'. intros i Hi. destruct (decide (i <= L)).
  - rewrite Z.ones_spec_low by lia. apply Hb; lia.
  - rewrite Z.ones_spec_high by lia. destruct (decide (y = 0)) as [->|]; [apply Z.bits_0|].
    apply Z.bits_above_log2; [lia|]. assert (Z.log2 y < L + 1) by (apply Z.log2_lt_pow2; lia). lia.
Qed.

Lemma next_power_of_two_pow size :
  0 < size <= 2 ^ 63 -> exists k, 0 <= k <= 63 /\ next_power_of_two size = 2 ^ k /\
    size <= 2 ^ k /\ 2 ^ k < 2 * size.
Proof.
  intros Hs. unfold next_power_of_two. destruct (Z.eqb_spec size 0); [lia|].
  rewrite (wrap_small 64 (size - 1)) by (unfold in_u; lia).
  destruct (decide (size = 1)) as [->|H1]; [by exists 0|].
  set (L := Z.log2 (size - 1)).
  assert (0 <= L) by apply Z.log2_nonneg.
  pose proof (Z.log2_spec (size - 1) ltac:(lia)) as HL. fold L in HL.
  replace (Z.succ L) with (L + 1) in HL by lia.
  assert (L < 63) by (apply Z.log2_lt_pow2; lia).
  assert (smeared L 1 (size - 1)) as Hsm.
  { split; [lia|]. intros i _ Hi. replace i with L by lia. apply Z.bit_log2. lia. }
  do 6 (apply smear_step in Hsm; [|lia..]).
  apply smeared_all in Hsm; [|lia].
  exists (L + 1). cbv zeta. 
  change (2 * 1) with 2 in Hsm; change (2 * 2) with 4 in Hsm; change (2 * 4) with 8 in Hsm;
    change (2 * 8) with 16 in Hsm; change (2 * 16) with 32 in Hsm. rewrite Hsm.
  rewrite wrap_small.
  - repeat split; try lia. rewrite Z.pow_add_r in * by lia. lia.
  - pose proof (Z.pow_le_mono_r 2 (L + 1) 63). unfold in_u. lia.
Qed.

Lemma bit_test x p : 0 <= p -> negb (Z.land x (2 ^ p) =? 0) = Z.testbit x p.
Proof.
  intros Hp. destruct (Z.testbit x p) eqn:Hb.
  - apply negb_true_iff, Z.eqb_neq. intros H0.
    assert (Z.testbit (Z.land x (2 ^ p)) p = true) as H
      by (by rewrite Z.land_spec, Hb, Z.pow2_bits_true).
    by rewrite H0, Z.bits_0 in H.
  - apply negb_false_iff, Z.eqb_eq, Z.bits_inj'. intros i Hi.
    rewrite Z.land_spec, Z.bits_0, Z.pow2_bits_eqb by done.
    destruct (Z.eqb_spec p i) as [->|]; [by rewrite Hb | apply andb_false_r].
Qed.

(** ** Clients of the ring buffer, and the queue they are promised

    The clients keep the buffers [Reserve] gave them ([handles], in order) and the
    buffers the current reader obtained ([got]). *)
Record sys := mkSys {
  rb_ : RingBufferImpl;
  handles : list Buffer;
  reader_ : option Reader;
  got : list Buffer
}.

Inductive event :=
| EReserve (owns_lock : bool)
| EWrite (t : nat) (j v : Z)
| ECommit (t : nat)
| EDiscard (t : nat)
| EOpen
| EAvailable
| ENext
| ERead (i : nat) (j : Z)
| EClose.

Inductive output :=
| OGranted | OTimeout | OFull | ODone
| ORecord | ONothing | OCount (n : Z) | OWord (v : Z).

(** One event; [None]: out of fuel, or a handle the client does not have. *)
Definition c_step (s : sys) (e : event) : option (sys * output) :=
  match e with
  | EReserve ok =>
      let '(rb, timeout, b) := Reserve ok (rb_ s) in
      Some match b with
           | Some b => (mkSys rb (handles s ++ [b]) (reader_ s) (got s), OGranted)
           | None => (mkSys rb (handles s) (reader_ s) (got s),
                      if timeout then OTimeout else OFull)
           end
  | EWrite t j v =>
      b ← handles s !! t;
      Some (mkSys (write_payload (rb_ s) b j v) (handles s) (reader_ s) (got s), ODone)
  | ECommit t =>
      b ← handles s !! t;
      Some (mkSys (Commit (rb_ s) b) (handles s) (reader_ s) (got s), ODone)
  | EDiscard t =>
      b ← handles s !! t;
      Some (mkSys (Discard (rb_ s) b) (handles s) (reader_ s) (got s), ODone)
  | EOpen => Some (mkSys (rb_ s) (handles s) (Some (new_Reader (rb_ s))) [], ODone)
  | EAvailable =>
      r ← reader_ s; Some (s, OCount (AvailableSamples (rb_ s) r))
  | ENext =>
      r ← reader_ s;
      '(rb, b) ← GetNext (rb_ s) r;
      Some match b with
           | Some b => (mkSys rb (handles s) (reader_ s) (got s ++ [b]), ORecord)
           | None => (mkSys rb (handles s) (reader_ s) (got s), ONothing)
           end
  | ERead i j =>
      b ← got s !! i; Some (s, OWord (load (rb_ s) (buf_off b + 8 * j)))
  | EClose => Some (mkSys (destroy_Reader (rb_ s)) (handles s) None [], ODone)
  end.

Fixpoint c_run (s : sys) (es : list event) : option (sys * list output) :=
  match es with
  | [] => Some (s, [])
  | e :: es =>
      '(s, o) ← c_step s e;
      '(s, os) ← c_run s es;
      Some (s, o :: os)
  end.

(** The promised object: the history of all granted records, in the order of the
    reservations; a record is named by its position.  [released] records have given
    their space back, [consumed] ones have been passed by the reader, [visible] is
    the snapshot the current reader works on. *)
Inductive status := Reserved | Committed | Discarded.
Record slot := mkSlot { sl_status : status; sl_words : gmap Z Z }.

Record queue := mkQ {
  slots : list slot;
  released : nat;
  consumed : nat;
  visible : option nat;
  taken : list nat
}.

Definition set_slots (q : queue) (l : list slot) : queue :=
  mkQ l (released q) (consumed q) (visible q) (taken q).

(** The first committed record from position [c]; discarded ones are skipped, a
    record still being written stops the reader. *)
Fixpoint a_next (c : nat) (l : list slot) : nat * option nat :=
  match l with
  | [] => (c, None)
  | sl :: l =>
      match sl_status sl with
      | Reserved => (c, None)
      | Discarded => a_next (S c) l
      | Committed => (S c, Some c)
      end
  end.

Definition update_reserved (q : queue) (t : nat) (f : slot -> slot) : option (queue * output) :=
  sl ← slots q !! t;
  match sl_status sl with
  | Reserved => Some (set_slots q (<[t := f sl]> (slots q)), ODone)
  | _ => None
  end.

(** [cap] records fit, a record has [size] payload bytes. [None]: the clients broke
    the protocol (a record is written, committed or discarded only while reserved,
    there is one reader at a time, only written words of taken records are read). *)
Definition a_step (cap : nat) (size : Z) (q : queue) (e : event) : option (queue * output) :=
  match e with
  | EReserve ok =>
      Some (if ok then
              if decide (length (slots q) - released q < cap)%nat
              then (set_slots q (slots q ++ [mkSlot Reserved ∅]), OGranted)
              else (q, OFull)
            else (q, OTimeout))
  | EWrite t j v =>
      if (0 <=? j) && (8 * j <? size)
      then update_reserved q t (fun sl => mkSlot Reserved (<[j := v]> (sl_words sl)))
      else None
  | ECommit t => update_reserved q t (fun sl => mkSlot Committed (sl_words sl))
  | EDiscard t => update_reserved q t (fun sl => mkSlot Discarded (sl_words sl))
  | EOpen =>
      match visible q with
      | None => Some (mkQ (slots q) (released q) (consumed q) (Some (length (slots q))) [], ODone)
      | Some _ => None
      end
  | EAvailable =>
      v ← visible q; Some (q, OCount (Z.of_nat (v - consumed q)))
  | ENext =>
      v ← visible q;
      let '(c, o) := a_next (consumed q) (drop (consumed q) (take v (slots q))) in
      Some match o with
           | Some t => (mkQ (slots q) (released q) c (Some v) (taken q ++ [t]), ORecord)
           | None => (mkQ (slots q) (released q) c (Some v) (taken q), ONothing)
           end
  | ERead i j =>
      t ← taken q !! i; sl ← slots q !! t; v ← sl_words sl !! j; Some (q, OWord v)
  | EClose =>
      match visible q with
      | Some _ => Some (mkQ (slots q) (consumed q) (consumed q) None [], ODone)
      | None => None
      end
  end.

Fixpoint a_run (cap : nat) (size : Z) (q : queue) (es : list event)
    : option (queue * list output) :=
  match es with
  | [] => Some (q, [])
  | e :: es =>
      '(q, o) ← a_step cap size q e;
      '(q, os) ← a_run cap size q es;
      Some (q, o :: os)
  end.

Definition empty_queue : queue := mkQ [] 0 0 None [].

(** ** The relation between the two *)

Definition header_of (size : Z) (st : status) : Z :=
  match st with
  | Reserved => Z.lor size k_reserved_bit
  | Committed => size
  | Discarded => Z.lor size k_discard_bit
  end.

(** Bytes a record takes, and how many records fit. *)
Definition record_size (size : Z) : Z := align_up (u64 (size + sizeof_BufferHeader)) RingBufferAlignment.
Definition capacity (rb : RingBufferImpl) : nat :=
  Z.to_nat (mask rb / record_size (sample_size rb)).

Record geometry (rb : RingBufferImpl) : Prop := {
  geo_size : 0 <= sample_size rb < 2 ^ 61;
  geo_pow : exists k, 3 <= k <= 63 /\ data_size rb = 2 ^ k;
  geo_mask : mask rb = data_size rb - 1
}.

Definition pos (rb : RingBufferImpl) (t : nat) : Z := Z.of_nat t * record_size (sample_size rb).

Definition slot_match (rb : RingBufferImpl) (t : nat) (sl : slot) : Prop :=
  load rb (pos rb t) = header_of (sample_size rb) (sl_status sl) /\
  forall j v, sl_words sl !! j = Some v ->
    0 <= j /\ 8 * j < sample_size rb /\ load rb (pos rb t + 8 + 8 * j) = v.

Definition buf_at (rb : RingBufferImpl) (t : nat) : Buffer :=
  mkBuffer (pos rb t mod data_size rb + 8) (sample_size rb).

Record rel (s : sys) (q : queue) : Prop := {
  rel_geo : geometry (rb_ s);
  rel_order : (released q <= consumed q <= length (slots q))%nat;
  rel_writer : writer_pos (rb_ s) = pos (rb_ s) (length (slots q));
  rel_inter : intermediate_reader_pos (rb_ s) = pos (rb_ s) (consumed q);
  rel_reader : reader_pos (rb_ s) = pos (rb_ s) (released q);
  rel_room : pos (rb_ s) (length (slots q)) - pos (rb_ s) (released q) <= mask (rb_ s);
  rel_slots : forall t sl, slots q !! t = Some sl -> (released q <= t)%nat ->
    slot_match (rb_ s) t sl;
  rel_done : forall t sl, slots q !! t = Some sl -> (t < consumed q)%nat ->
    sl_status sl <> Reserved;
  rel_handles : handles s = buf_at (rb_ s) <$> seq 0 (length (slots q));
  rel_visible : reader_ s = (fun v => mkReader (pos (rb_ s) v)) <$> visible q;
  rel_tail : forall v, visible q = Some v -> (consumed q <= v <= length (slots q))%nat;
  rel_got : got s = buf_at (rb_ s) <$> taken q;
  rel_taken : forall i t, taken q !! i = Some t -> (released q <= t < consumed q)%nat
}.

(** ** Records do not overlap *)

Lemma record_size_bounds size :
  0 <= size < 2 ^ 61 -> size + 8 <= record_size size < size + 16.
Proof.
  intros H. unfold record_size, sizeof_BufferHeader.
  rewrite wrap_small by (unfold in_u; lia). change RingBufferAlignment with (2 ^ 3).
  rewrite align_up_eq by lia. change (2 ^ 3) with 8.
  pose proof (Z.div_mod (size + 8 - 1) 8 ltac:(lia)).
  pose proof (Z.mod_pos_bound (size + 8 - 1) 8). lia.
Qed.

Lemma geometry_data_pos rb : geometry rb -> 0 < data_size rb.
Proof. intros [_ (k & ? & ->) _]. apply Z.pow_pos_nonneg; lia. Qed.

Lemma geometry_land rb x : geometry rb -> Z.land x (mask rb) = x mod data_size rb.
Proof. intros [_ (k & ? & Hk) ->]. rewrite Hk. apply land_mask. lia. Qed.

Lemma load_store rb a b v :
  load (store rb a v) b =
    if decide (a mod data_size rb = b mod data_size rb) then v else load rb b.
Proof.
  unfold load, store; cbn. case_decide as Hd.
  - by rewrite Hd, lookup_insert_eq.
  - by rewrite lookup_insert_ne.
Qed.

Lemma store_mod rb a b v :
  a mod data_size rb = b mod data_size rb -> store rb a v = store rb b v.
Proof. unfold store. by intros ->. Qed.

Lemma load_mod rb a b : a mod data_size rb = b mod data_size rb -> load rb a = load rb b.
Proof. unfold load. by intros ->. Qed.

Lemma cells_differ rb lo hi t t' o o' :
  geometry rb -> (lo <= t < hi)%nat -> (lo <= t' < hi)%nat ->
  pos rb hi - pos rb lo <= mask rb ->
  0 <= o < record_size (sample_size rb) -> 0 <= o' < record_size (sample_size rb) ->
  t <> t' \/ o <> o' ->
  (pos rb t + o) mod data_size rb <> (pos rb t' + o') mod data_size rb.
Proof.
  intros G Ht Ht' Hw Ho Ho' Hne Heq. pose proof (geometry_data_pos _ G) as HD.
  rewrite (geo_mask _ G) in Hw. unfold pos in *.
  set (n := record_size (sample_size rb)) in *. set (D := data_size rb) in *.
  pose proof (Z.div_mod (Z.of_nat t * n + o) D ltac:(lia)) as E1.
  pose proof (Z.div_mod (Z.of_nat t' * n + o') D ltac:(lia)) as E2.
  rewrite Heq in E1.
  set (a := (Z.of_nat t * n + o) / D) in *. set (b := (Z.of_nat t' * n + o') / D) in *.
  set (r := (Z.of_nat t' * n + o') mod D) in *.
  assert (Z.of_nat lo * n <= Z.of_nat t * n) by (apply Z.mul_le_mono_nonneg_r; lia).
  assert (Z.of_nat lo * n <= Z.of_nat t' * n) by (apply Z.mul_le_mono_nonneg_r; lia).
  assert ((Z.of_nat t + 1) * n <= Z.of_nat hi * n) by (apply Z.mul_le_mono_nonneg_r; lia).
  assert ((Z.of_nat t' + 1) * n <= Z.of_nat hi * n) by (apply Z.mul_le_mono_nonneg_r; lia).
  assert (a = b) by nia. subst a b.
  assert (Z.of_nat t * n + o = Z.of_nat t' * n + o') as E by lia.
  assert (t = t') as ->; [|lia].
  destruct (lt_eq_lt_dec t t') as [[?|?]|?]; [|done|].
  - assert ((Z.of_nat t + 1) * n <= Z.of_nat t' * n) by (apply Z.mul_le_mono_nonneg_r; lia). lia.
  - assert ((Z.of_nat t' + 1) * n <= Z.of_nat t * n) by (apply Z.mul_le_mono_nonneg_r; lia). lia.
Qed.

(** Bytes of a record: a header or a payload word lies inside it. *)
Lemma word_inside rb j :
  geometry rb -> 0 <= j -> 8 * j < sample_size rb ->
  0 <= 8 + 8 * j < record_size (sample_size rb).
Proof. intros G. pose proof (record_size_bounds _ (geo_size _ G)). lia. Qed.

Lemma slot_match_frame rb lo hi t t' o v sl :
  geometry rb -> (lo <= t < hi)%nat -> (lo <= t' < hi)%nat ->
  pos rb hi - pos rb lo <= mask rb ->
  0 <= o < record_size (sample_size rb) -> t <> t' ->
  slot_match rb t' sl -> slot_match (store rb (pos rb t + o) v) t' sl.
Proof.
  intros G Ht Ht' Hw Ho Hne [Hh Hp].
  pose proof (record_size_bounds _ (geo_size _ G)).
  assert (forall o', 0 <= o' < record_size (sample_size rb) ->
    load (store rb (pos rb t + o) v) (pos rb t' + o') = load rb (pos rb t' + o')) as Hl.
  { intros o' Ho'. rewrite load_store, decide_False; [done|].
    eapply cells_differ; eauto. }
  split.
  - change (load (store rb (pos rb t + o) v) (pos rb t') = header_of (sample_size rb) (sl_status sl)).
    rewrite <- Hh. specialize (Hl 0 ltac:(lia)). by rewrite Z.add_0_r in Hl.
  - intros j w Hj. destruct (Hp _ _ Hj) as (? & ? & <-). split_and!; [done..|].
    change (load (store rb (pos rb t + o) v) (pos rb t' + 8 + 8 * j) = load rb (pos rb t' + 8 + 8 * j)).
    rewrite <- !Z.add_assoc. apply Hl. by apply word_inside.
Qed.

(** A store into record [t] changes only that record. *)
Lemma rel_store s q t o v sl sl' :
  rel s q -> slots q !! t = Some sl -> (consumed q <= t)%nat ->
  0 <= o < record_size (sample_size (rb_ s)) ->
  slot_match (store (rb_ s) (pos (rb_ s) t + o) v) t sl' ->
  rel (mkSys (store (rb_ s) (pos (rb_ s) t + o) v) (handles s) (reader_ s) (got s))
      (set_slots q (<[t := sl']> (slots q))).
Proof.
  intros R Hsl Hc Ho Hm. pose proof (lookup_lt_Some _ _ _ Hsl) as Hlt.
  destruct R as [G Hor Hw Hi Hr Hroom Hs Hd Hh Hv Ht Hg Htk].
  split; cbn; rewrite ?length_insert; try done.
  - by destruct G.
  - intros t' x Hx Ht'. apply list_lookup_insert_Some in Hx as [(-> & <- & _)|[Hne Hx]]; [done|].
    apply slot_match_frame with (released q) (length (slots q)); eauto; try lia.
    apply lookup_lt_Some in Hx. lia.
  - intros t' x Hx Ht'. apply list_lookup_insert_Some in Hx as [(-> & <- & _)|[Hne Hx]]; [lia|].
    eauto.
Qed.

(** ** Header words *)

Section headers.
Context (size : Z) (Hsize : 0 <= size < 2 ^ 61).

Lemma size_bit i : 61 <= i -> Z.testbit size i = false.
Proof.
  intros. destruct (decide (size = 0)) as [->|]; [apply Z.bits_0|].
  apply Z.bits_above_log2; [lia|].
  assert (Z.log2 size < 61) by (apply Z.log2_lt_pow2; lia). lia.
Qed.

Ltac bits :=
  apply Z.bits_inj'; intros i Hi;
  change k_reserved_bit with (2 ^ 63); change k_discard_bit with (2 ^ 62);
  repeat rewrite ?Z.lxor_spec, ?Z.lor_spec, ?Z.land_spec, ?Z.ldiff_spec, ?Z.pow2_bits_eqb by lia;
  destruct (decide (i < 61));
  [ rewrite ?(proj2 (Z.eqb_neq 63 i)), ?(proj2 (Z.eqb_neq 62 i)), ?Z.ones_spec_low by lia
  | rewrite (size_bit i) by lia ];
  try (by destruct (Z.testbit size i)); try (by destruct (63 =? i), (62 =? i)).

Lemma commit_header : Z.lxor (header_of size Reserved) k_reserved_bit = size.
Proof. cbn. bits. Qed.

Lemma is_reserved_header st :
  is_reserved (header_of size st) = match st with Reserved => true | _ => false end.
Proof.
  unfold is_reserved. change k_reserved_bit with (2 ^ 63). rewrite bit_test by lia.
  destruct st; cbn [header_of]; rewrite ?Z.lor_spec, (size_bit 63) by lia; done.
Qed.

Lemma is_discarded_header st :
  st <> Reserved ->
  is_discarded (header_of size st) = match st with Discarded => true | _ => false end.
Proof.
  intros. unfold is_discarded. change k_discard_bit with (2 ^ 62). rewrite bit_test by lia.
  destruct st; cbn [header_of]; rewrite ?Z.lor_spec, (size_bit 62) by lia; done.
Qed.

Lemma get_size_header st :
  st <> Reserved ->
  Z.land (header_of size st) (u64 (Z.lnot k_discard_bit)) = size.
Proof.
  intros. replace (u64 (Z.lnot k_discard_bit)) with (Z.ldiff (Z.ones 64) k_discard_bit)
    by (vm_compute; reflexivity).
  destruct st; [done| |]; cbn [header_of]; bits.
  all: destruct (62 =? i); by rewrite ?andb_false_r.
Qed.
End headers.

(** ** Each event is simulated *)

Definition step_ok (s : sys) (q' : queue) (o : output) (e : event) : Prop :=
  exists s', c_step s e = Some (s', o) /\ rel s' q' /\
    sample_size (rb_ s') = sample_size (rb_ s) /\ mask (rb_ s') = mask (rb_ s).

Lemma handle_lookup s q t sl :
  rel s q -> slots q !! t = Some sl -> handles s !! t = Some (buf_at (rb_ s) t).
Proof.
  intros R Hsl%lookup_lt_Some. rewrite (rel_handles _ _ R), list_lookup_fmap.
  by rewrite lookup_seq_lt.
Qed.

Lemma reserved_not_consumed s q t sl :
  rel s q -> slots q !! t = Some sl -> sl_status sl = Reserved -> (consumed q <= t)%nat.
Proof.
  intros R Hsl Hst. destruct (decide (t < consumed q)%nat) as [Hlt|]; [|lia].
  by destruct (rel_done _ _ R _ _ Hsl Hlt).
Qed.

(** The header of record [t], and its payload words, through its handle. *)
Lemma handle_header rb t :
  geometry rb -> (buf_off (buf_at rb t) - sizeof_BufferHeader) mod data_size rb
                 = (pos rb t + 0) mod data_size rb.
Proof.
  intros G. cbn. unfold sizeof_BufferHeader. rewrite Z.add_0_r, Z.add_simpl_r.
  pose proof (geometry_data_pos _ G). by rewrite Z.mod_mod by lia.
Qed.

Lemma handle_word rb t j :
  geometry rb -> (buf_off (buf_at rb t) + 8 * j) mod data_size rb
                 = (pos rb t + (8 + 8 * j)) mod data_size rb.
Proof.
  intros G. cbn. pose proof (geometry_data_pos _ G).
  rewrite <- Z.add_assoc. by rewrite Zplus_mod_idemp_l.
Qed.

Lemma status_step s q t sl st e :
  rel s q -> slots q !! t = Some sl -> sl_status sl = Reserved ->
  c_step s e = Some (mkSys (store (rb_ s) (pos (rb_ s) t + 0) (header_of (sample_size (rb_ s)) st))
                       (handles s) (reader_ s) (got s), ODone) ->
  step_ok s (set_slots q (<[t := mkSlot st (sl_words sl)]> (slots q))) ODone e.
Proof.
  intros R Hsl Hst He. pose proof (rel_geo _ _ R) as G.
  pose proof (reserved_not_consumed _ _ _ _ R Hsl Hst) as Hc.
  pose proof (geo_size _ G) as Hsz. pose proof (record_size_bounds _ Hsz).
  eexists. split; [exact He|]. split; [|done].
  apply rel_store with sl; [done|done|done|lia|]. split.
  - rewrite load_store, decide_True; [done|]. by rewrite Z.add_0_r.
  - intros j v Hj.
    destruct (rel_slots _ _ R t sl Hsl) as [_ Hw]; [pose proof (rel_order _ _ R); lia|].
    destruct (Hw j v Hj) as (? & ? & Hv). split_and!; [done..|].
    rewrite load_store, decide_False.
    + exact Hv.
    + change (pos (store _ _ _) t) with (pos (rb_ s) t). rewrite <- Z.add_assoc.
      apply cells_differ with (released q) (length (slots q));
        try apply word_inside; auto; try lia; try apply (rel_room _ _ R);
        pose proof (rel_order _ _ R); apply lookup_lt_Some in Hsl; lia.
Qed.

Lemma commit_step s q t sl :
  rel s q -> slots q !! t = Some sl -> sl_status sl = Reserved ->
  step_ok s (set_slots q (<[t := mkSlot Committed (sl_words sl)]> (slots q))) ODone (ECommit t).
Proof.
  intros R Hsl Hst. pose proof (rel_geo _ _ R) as G. apply status_step; auto.
  cbn. rewrite (handle_lookup _ _ _ _ R Hsl). cbn [mbind option_bind]. unfold Commit.
  destruct (rel_slots _ _ R t sl Hsl) as [Hh _].
  { pose proof (rel_order _ _ R). pose proof (reserved_not_consumed _ _ _ _ R Hsl Hst). lia. }
  rewrite (load_mod _ _ (pos (rb_ s) t))
    by (rewrite handle_header, Z.add_0_r by done; done).
  rewrite Hh, Hst, commit_header by apply G.
  by rewrite (store_mod _ _ _ _ (handle_header _ t G)).
Qed.

Lemma discard_step s q t sl :
  rel s q -> slots q !! t = Some sl -> sl_status sl = Reserved ->
  step_ok s (set_slots q (<[t := mkSlot Discarded (sl_words sl)]> (slots q))) ODone (EDiscard t).
Proof.
  intros R Hsl Hst. pose proof (rel_geo _ _ R) as G. apply status_step; auto.
  cbn. rewrite (handle_lookup _ _ _ _ R Hsl). cbn [mbind option_bind]. unfold Discard.
  destruct (rel_slots _ _ R t sl Hsl) as [Hh _].
  { pose proof (rel_order _ _ R). pose proof (reserved_not_consumed _ _ _ _ R Hsl Hst). lia. }
  rewrite (load_mod _ _ (pos (rb_ s) t))
    by (rewrite handle_header, Z.add_0_r by done; done).
  rewrite Hh, Hst, commit_header by apply G.
  by rewrite (store_mod _ _ _ _ (handle_header _ t G)).
Qed.

Lemma write_step s q t sl j v :
  rel s q -> slots q !! t = Some sl -> sl_status sl = Reserved ->
  0 <= j -> 8 * j < sample_size (rb_ s) ->
  step_ok s (set_slots q (<[t := mkSlot Reserved (<[j := v]> (sl_words sl))]> (slots q)))
    ODone (EWrite t j v).
Proof.
  intros R Hsl Hst Hj Hjs. pose proof (rel_geo _ _ R) as G.
  pose proof (reserved_not_consumed _ _ _ _ R Hsl Hst) as Hc.
  pose proof (geo_size _ G) as Hsz. pose proof (record_size_bounds _ Hsz).
  pose proof (rel_order _ _ R). pose proof (lookup_lt_Some _ _ _ Hsl).
  eexists. split.
  { cbn. rewrite (handle_lookup _ _ _ _ R Hsl). cbn [mbind option_bind]. unfold write_payload.
    by rewrite (store_mod _ _ _ _ (handle_word _ t j G)). }
  split; [|done].
  apply rel_store with sl; [done..|by apply word_inside|].
  destruct (rel_slots _ _ R t sl Hsl) as [Hh Hw]; [lia|]. split.
  - rewrite load_store, decide_False.
    + rewrite Hst in Hh. exact Hh.
    + replace (pos (store _ _ _) t) with (pos (rb_ s) t + 0) by (rewrite Z.add_0_r; done).
      apply cells_differ with (released q) (length (slots q));
        try apply word_inside; auto; try lia; apply (rel_room _ _ R).
  - intros j' v'. cbn [sl_words]. rewrite lookup_insert_Some. intros [(<- & <-)|[Hne Hj']].
    + split_and!; [done..|]. rewrite load_store, decide_True; [done|].
      f_equal. change (pos (store _ _ _) t) with (pos (rb_ s) t). lia.
    + destruct (Hw _ _ Hj') as (? & ? & Hv). split_and!; [done..|].
      rewrite load_store, decide_False; [exact Hv|].
      change (pos (store _ _ _) t) with (pos (rb_ s) t). rewrite <- Z.add_assoc.
      apply cells_differ with (released q) (length (slots q));
        try apply word_inside; auto; try lia; apply (rel_room _ _ R).
Qed.

Lemma pos_S rb t : pos rb (S t) = pos rb t + record_size (sample_size rb).
Proof. unfold pos. lia. Qed.

Lemma pos_mono rb t t' : geometry rb -> (t <= t')%nat -> pos rb t <= pos rb t'.
Proof.
  intros G Ht. pose proof (geo_size _ G) as Hsz. pose proof (record_size_bounds _ Hsz).
  unfold pos. apply Z.mul_le_mono_nonneg_r; lia.
Qed.

Lemma pos_nonneg rb t : geometry rb -> 0 <= pos rb t.
Proof. intros G. apply (pos_mono rb 0 t G). lia. Qed.

Lemma pos_inj rb t t' : geometry rb -> pos rb t = pos rb t' -> t = t'.
Proof.
  intros G. pose proof (geo_size _ G) as Hsz. pose proof (record_size_bounds _ Hsz).
  unfold pos. nia.
Qed.

(** Room for one more record, in bytes and in records. *)
Lemma room_iff rb n m :
  geometry rb -> (m <= n)%nat ->
  pos rb (S n) - pos rb m <= mask rb <-> (n - m < capacity rb)%nat.
Proof.
  intros G Hle. pose proof (geo_size _ G) as Hsz. pose proof (record_size_bounds _ Hsz).
  unfold capacity, pos. set (r := record_size (sample_size rb)) in *.
  pose proof (geometry_data_pos _ G). pose proof (geo_mask _ G).
  replace (Z.of_nat (S n) * r - Z.of_nat m * r) with (r * Z.of_nat (S n - m)) by lia.
  split.
  - intros Hb. assert (Z.of_nat (S n - m) <= mask rb / r)
      by (apply Z.div_le_lower_bound; lia). lia.
  - intros Hb. assert (Z.of_nat (S n - m) <= mask rb / r) by lia.
    pose proof (Z.mul_div_le (mask rb) r). nia.
Qed.

Lemma reserve_step s q ok :
  rel s q -> pos (rb_ s) (S (length (slots q))) < 2 ^ 64 ->
  forall q' o, a_step (capacity (rb_ s)) (sample_size (rb_ s)) q (EReserve ok) = Some (q', o) ->
  step_ok s q' o (EReserve ok).
Proof.
  intros R Hov q' o Ha. pose proof (rel_geo _ _ R) as G. pose proof (rel_order _ _ R) as Hor.
  pose proof (geo_size _ G) as Hsz. pose proof (record_size_bounds _ Hsz).
  unfold step_ok. cbn -[record_size] in *. unfold Reserve. fold (record_size (sample_size (rb_ s))).
  rewrite (proj2 (Z.eqb_neq (record_size (sample_size (rb_ s))) 0)) by lia.
  destruct ok; cbn -[record_size] in *; simplify_eq; [|by eexists; split_and!; [done|destruct s|..]].
  rewrite (rel_writer _ _ R), (rel_reader _ _ R), <- pos_S.
  pose proof (pos_nonneg _ (S (length (slots q))) G).
  pose proof (pos_nonneg _ (released q) G).
  pose proof (pos_mono _ (released q) (S (length (slots q))) G ltac:(lia)).
  rewrite (wrap_small 64 (pos (rb_ s) (S (length (slots q))))) by (unfold in_u; lia).
  rewrite (wrap_small 64 (_ - _)) by (unfold in_u; lia).
  pose proof (room_iff _ (length (slots q)) (released q) G ltac:(lia)) as Hroom.
  destruct (Z.ltb_spec (mask (rb_ s)) (pos (rb_ s) (S (length (slots q))) - pos (rb_ s) (released q))).
  { rewrite decide_False in Ha by lia. simplify_eq. by eexists; split_and!; [done|destruct s|..]. }
  rewrite decide_True in Ha by lia. simplify_eq.
  rewrite geometry_land by done.
  eexists. split_and!; [done| |done..].
  set (n := length (slots q)) in *.
  rewrite (store_mod _ _ (pos (rb_ s) n + 0))
    by (pose proof (geometry_data_pos _ G); rewrite Z.add_0_r, Z.mod_mod by lia; done).
  destruct R as [_ _ Hw Hi Hr Hrm Hs Hd Hh Hv Ht Hg Htk].
  split; cbn -[record_size]; rewrite ?length_app; cbn -[record_size]; fold n; try done.
  - by destruct G.
  - lia.
  - by rewrite Nat.add_1_r.
  - by rewrite Nat.add_1_r.
  - intros t sl Hsl Hrel. apply lookup_app_Some in Hsl as [Hsl|[Hge Hsl]].
    + change (slot_match (store (rb_ s) (pos (rb_ s) n + 0) (Z.lor (sample_size (rb_ s)) k_reserved_bit)) t sl).
      pose proof (lookup_lt_Some _ _ _ Hsl).
      apply slot_match_frame with (released q) (S n); auto; lia.
    + apply list_lookup_singleton_Some in Hsl as [Ht0 <-]. fold n in Hge, Ht0. assert (t = n) as -> by lia.
      split; [|intros ? ?; cbn; by rewrite lookup_empty].
      change (load (store (rb_ s) (pos (rb_ s) n + 0) (Z.lor (sample_size (rb_ s)) k_reserved_bit)) (pos (rb_ s) n)
        = header_of (sample_size (rb_ s)) Reserved).
      by rewrite load_store, Z.add_0_r, decide_True.
  - intros t sl Hsl Hlt. rewrite lookup_app_l in Hsl by lia. eauto.
  - rewrite Nat.add_1_r, seq_S, fmap_app, Hh. done.
  - intros v Hvv. specialize (Ht v Hvv). lia.
Qed.

Lemma a_next_spec l : forall c c' o, a_next c l = (c', o) ->
  (c <= c' <= c + length l)%nat /\
  (forall i sl, l !! i = Some sl -> (c + i < c')%nat -> sl_status sl <> Reserved) /\
  (forall t, o = Some t -> (c <= t)%nat /\ c' = S t).
Proof.
  induction l as [|[st ws] l IH]; cbn; intros c c' o H; simplify_eq.
  { split_and!; [lia|lia| |done]. intros i sl. by rewrite lookup_nil. }
  destruct st; simplify_eq.
  - split_and!; [lia|lia| |done]. intros i sl _ ?. lia.
  - split_and!; [lia|lia| |].
    + intros [|i] sl Hi ?; [|lia]. by injection Hi as <-.
    + intros t [= <-]. lia.
  - apply IH in H as (? & Hi & Ht). split_and!; [lia|lia| |].
    + intros [|i] sl Hl ?; [by injection Hl as <-|]. cbn in Hl. apply (Hi _ _ Hl). lia.
    + intros t ->. destruct (Ht t eq_refl). lia.
Qed.

Lemma set_intermediate_id rb p :
  intermediate_reader_pos rb = p -> set_intermediate rb p = rb.
Proof. intros <-. by destruct rb. Qed.

(** The reader's loop follows [a_next], and needs one iteration per record. *)
Lemma GetNext_loop_ok l : forall fuel c rb,
  geometry rb -> intermediate_reader_pos rb = pos rb c ->
  (forall i sl, l !! i = Some sl ->
     load rb (pos rb (c + i)) = header_of (sample_size rb) (sl_status sl)) ->
  pos rb (c + length l) < 2 ^ 64 -> (length l < fuel)%nat ->
  forall c' o, a_next c l = (c', o) ->
  GetNext_loop fuel rb (pos rb (c + length l)) =
    Some (set_intermediate rb (pos rb c'), buf_at rb <$> o).
Proof.
  induction l as [|[st ws] l IH]; intros [|fuel] c rb G Hi Hl Hov Hf c' o Ha; try (cbn in Hf; lia).
  { cbn in Ha. simplify_eq. cbn. rewrite Nat.add_0_r, Hi, Z.eqb_refl.
    by rewrite set_intermediate_id. }
  pose proof (geo_size _ G) as Hsz. pose proof (record_size_bounds _ Hsz).
  assert (length ((mkSlot st ws) :: l) = S (length l)) as Hlen by done.
  rewrite Hlen in *. pose proof (pos_mono rb (S c) (c + S (length l)) G ltac:(lia)).
  pose proof (pos_nonneg rb c G). rewrite pos_S in *.
  cbn [GetNext_loop]. rewrite Hi.
  rewrite (proj2 (Z.eqb_neq _ _)) by lia.
  rewrite geometry_land by done.
  rewrite (load_mod _ _ (pos rb c))
    by (pose proof (geometry_data_pos _ G); rewrite Z.mod_mod by lia; done).
  pose proof (Hl 0%nat _ eq_refl) as Hhd. rewrite Nat.add_0_r in Hhd. cbn [sl_status] in Hhd.
  rewrite Hhd, is_reserved_header by done. cbn [a_next sl_status] in Ha.
  destruct st; [simplify_eq; by rewrite set_intermediate_id| |].
  all: rewrite get_size_header by done; fold (record_size (sample_size rb)).
  all: rewrite is_discarded_header by done; rewrite wrap_small by (unfold in_u; lia).
  - simplify_eq. cbn. by rewrite pos_S.
  - set (rb' := set_intermediate rb (pos rb c + record_size (sample_size rb))).
    replace (c + S (length l))%nat with (S c + length l)%nat in * by lia.
    change (pos rb (S c + length l)) with (pos rb' (S c + length l)).
    rewrite (IH fuel (S c) rb') with (c' := c') (o := o); [done|..]; auto; try lia.
    + by destruct G.
    + cbn. by rewrite pos_S.
    + intros i sl Hsl. specialize (Hl (S i) sl Hsl).
      by replace (c + S i)%nat with (S c + i)%nat in Hl by lia.
Qed.

(** The records the reader still sees. *)
Lemma visible_load s q v i sl :
  rel s q -> visible q = Some v ->
  drop (consumed q) (take v (slots q)) !! i = Some sl ->
  slots q !! (consumed q + i)%nat = Some sl /\ (consumed q + i < v)%nat.
Proof.
  intros R Hv Hl. rewrite lookup_drop in Hl. apply lookup_take_Some in Hl. tauto.
Qed.

Lemma GetNext_ok s q v c' o :
  rel s q -> visible q = Some v -> pos (rb_ s) (length (slots q)) < 2 ^ 64 ->
  a_next (consumed q) (drop (consumed q) (take v (slots q))) = (c', o) ->
  GetNext (rb_ s) (mkReader (pos (rb_ s) v)) =
    Some (set_intermediate (rb_ s) (pos (rb_ s) c'), buf_at (rb_ s) <$> o).
Proof.
  intros R Hv Hov Ha. pose proof (rel_geo _ _ R) as G.
  pose proof (rel_tail _ _ R _ Hv) as Ht. pose proof (rel_order _ _ R).
  pose proof (geo_size _ G) as Hsz. pose proof (record_size_bounds _ Hsz).
  assert (length (drop (consumed q) (take v (slots q))) = (v - consumed q)%nat) as Hlen
    by (rewrite length_drop, length_take; lia).
  unfold GetNext. cbn [_tail]. rewrite (rel_inter _ _ R).
  pose proof (pos_mono _ _ _ G (proj1 Ht)). pose proof (pos_mono _ _ _ G (proj2 Ht)).
  pose proof (pos_nonneg _ (consumed q) G).
  rewrite wrap_small by (unfold in_u; lia).
  replace v with (consumed q + length (drop (consumed q) (take v (slots q))))%nat at 2 by lia.
  apply GetNext_loop_ok; auto; rewrite ?Hlen; try lia.
  - apply (rel_inter _ _ R).
  - intros i sl Hsl. destruct (visible_load _ _ _ _ _ R Hv Hsl) as [Hs _].
    apply (rel_slots _ _ R _ _ Hs). lia.
  - by replace (consumed q + (v - consumed q))%nat with v by lia; lia.
  - unfold pos. nia.
Qed.

Lemma next_step s q v c' o :
  rel s q -> visible q = Some v -> pos (rb_ s) (length (slots q)) < 2 ^ 64 ->
  a_next (consumed q) (drop (consumed q) (take v (slots q))) = (c', o) ->
  step_ok s (mkQ (slots q) (released q) c' (Some v)
               (taken q ++ match o with Some t => [t] | None => [] end))
    match o with Some _ => ORecord | None => ONothing end ENext.
Proof.
  intros R Hv Hov Ha. pose proof (GetNext_ok _ _ _ _ _ R Hv Hov Ha) as Hg.
  unfold step_ok. cbn -[GetNext]. rewrite (rel_visible _ _ R), Hv. cbn -[GetNext]. rewrite Hg.
  apply a_next_spec in Ha as (Hc & Hd & Ho).
  assert (length (drop (consumed q) (take v (slots q))) = (v - consumed q)%nat) as Hlen.
  { pose proof (rel_tail _ _ R _ Hv). rewrite length_drop, length_take; lia. }
  rewrite Hlen in Hc. pose proof (rel_tail _ _ R _ Hv) as Htl.
  destruct R as [G Hor Hw Hi Hr Hrm Hs Hdn Hh Hvv Ht Hgt Htk].
  assert (forall g tk, g = buf_at (rb_ s) <$> tk ->
    (forall i t, tk !! i = Some t -> (released q <= t < c')%nat) ->
    rel (mkSys (set_intermediate (rb_ s) (pos (rb_ s) c')) (handles s)
           (Some (mkReader (pos (rb_ s) v))) g)
        (mkQ (slots q) (released q) c' (Some v) tk)) as Hrel.
  { intros g tk Hgg Htt. split; cbn; try done.
    - by destruct G.
    - lia.
    - intros t sl Hsl Hlt. destruct (decide (t < consumed q)%nat); [by eapply Hdn|].
      apply (Hd (t - consumed q)%nat); [|lia].
      rewrite lookup_drop, lookup_take_Some.
      replace (consumed q + (t - consumed q))%nat with t by lia. split; [done|lia].
    - intros v' [= <-]. lia. }
  assert (forall i t, taken q !! i = Some t -> (released q <= t < c')%nat) as Hold.
  { intros i t Hit. specialize (Htk i t Hit). lia. }
  destruct o as [t|]; cbn [fmap option_fmap option_map]; eexists; split; try done;
    (split; [|done]); apply Hrel; try done.
  - by rewrite fmap_app, Hgt.
  - intros i t' Hit. apply lookup_app_Some in Hit as [Hit|[_ Hit]]; [eauto|].
    apply list_lookup_singleton_Some in Hit as [_ <-].
    destruct (Ho t eq_refl). lia.
  - by rewrite app_nil_r.
  - rewrite app_nil_r. eauto.
Qed.

Lemma open_step s q :
  rel s q -> visible q = None ->
  step_ok s (mkQ (slots q) (released q) (consumed q) (Some (length (slots q))) []) ODone EOpen.
Proof.
  intros R Hv. eexists. split; [done|]. split; [|done].
  destruct R as [G Hor Hw Hi Hr Hrm Hs Hdn Hh Hvv Ht Hgt Htk].
  split; cbn; try done.
  - unfold new_Reader. by rewrite Hw.
  - intros v [= <-]. lia.
Qed.

Lemma available_step s q v :
  rel s q -> visible q = Some v -> pos (rb_ s) (length (slots q)) < 2 ^ 64 ->
  step_ok s q (OCount (Z.of_nat (v - consumed q))) EAvailable.
Proof.
  intros R Hv Hov. pose proof (rel_geo _ _ R) as G. pose proof (rel_tail _ _ R _ Hv) as Ht.
  pose proof (geo_size _ G) as Hsz. pose proof (record_size_bounds _ Hsz).
  exists s. split; [|done]. cbn -[record_size]. rewrite (rel_visible _ _ R), Hv.
  cbn -[AvailableSamples]. unfold AvailableSamples. cbn [_tail].
  rewrite (Z.add_comm sizeof_BufferHeader). fold (record_size (sample_size (rb_ s))).
  rewrite (rel_inter _ _ R). pose proof (pos_mono _ _ _ G (proj1 Ht)).
  pose proof (pos_mono _ _ _ G (proj2 Ht)). pose proof (pos_nonneg _ (consumed q) G).
  rewrite wrap_small by (unfold in_u; lia).
  do 3 f_equal. unfold pos. rewrite <- Z.mul_sub_distr_r, Z.div_mul by lia. lia.
Qed.

Lemma read_step s q i t sl j v :
  rel s q -> taken q !! i = Some t -> slots q !! t = Some sl -> sl_words sl !! j = Some v ->
  step_ok s q (OWord v) (ERead i j).
Proof.
  intros R Hi Ht Hj. pose proof (rel_geo _ _ R) as G. exists s. split; [|done].
  cbn. rewrite (rel_got _ _ R), list_lookup_fmap, Hi.
  change (Some (s, OWord (load (rb_ s) (buf_off (buf_at (rb_ s) t) + 8 * j))) = Some (s, OWord v)).
  rewrite (load_mod _ _ _ (handle_word _ t j G)).
  destruct (rel_slots _ _ R _ _ Ht) as [_ Hw]; [apply (rel_taken _ _ R _ _ Hi)|].
  destruct (Hw _ _ Hj) as (_ & _ & <-). by rewrite Z.add_assoc.
Qed.

Lemma close_step s q :
  rel s q -> step_ok s (mkQ (slots q) (consumed q) (consumed q) None []) ODone EClose.
Proof.
  intros R. pose proof (rel_geo _ _ R) as G. pose proof (rel_order _ _ R) as Hor.
  assert (destroy_Reader (rb_ s) = set_reader_pos (rb_ s) (pos (rb_ s) (consumed q))) as Hd.
  { unfold destroy_Reader. rewrite (rel_inter _ _ R), (rel_reader _ _ R).
    case_if; [done|]. bool_facts.
    pose proof (pos_mono _ (released q) (consumed q) G ltac:(lia)).
    replace (pos (rb_ s) (consumed q)) with (reader_pos (rb_ s))
      by (rewrite (rel_reader _ _ R); lia). by destruct (rb_ s). }
  eexists. split; [cbn; by rewrite Hd|]. split; [|done].
  destruct R as [_ _ Hw Hi Hr Hrm Hs Hdn Hh Hvv Ht Hgt Htk].
  split; cbn; try done.
  - by destruct G.
  - lia.
  - unfold pos in *. cbn in *. pose proof (pos_mono _ (released q) (consumed q) G ltac:(lia)).
    unfold pos in *. lia.
  - intros t sl Hsl Ht'. apply Hs; [done|lia].
Qed.

Lemma step_refines s q e q' o :
  rel s q -> pos (rb_ s) (S (length (slots q))) < 2 ^ 64 ->
  a_step (capacity (rb_ s)) (sample_size (rb_ s)) q e = Some (q', o) -> step_ok s q' o e.
Proof.
  intros R Hov Ha.
  assert (pos (rb_ s) (length (slots q)) < 2 ^ 64) as Hov'.
  { pose proof (pos_mono _ (length (slots q)) (S (length (slots q))) (rel_geo _ _ R)). lia. }
  destruct e; cbn -[a_next] in Ha; unfold update_reserved in Ha.
  - by eapply reserve_step.
  - case_match; bool_facts; simplify_option. case_match; simplify_eq. by apply write_step.
  - simplify_option. case_match; simplify_eq. by apply commit_step.
  - simplify_option. case_match; simplify_eq. by apply discard_step.
  - case_match; simplify_eq. by apply open_step.
  - simplify_option. by apply available_step.
  - simplify_option.
    destruct (a_next _ _) as [c' o'] eqn:Hn.
    pose proof (next_step _ _ _ _ _ R ltac:(eassumption) Hov' Hn) as Hs.
    destruct o'; simplify_eq; rewrite ?app_nil_r in Hs; done.
  - simplify_option. by eapply read_step.
  - case_match; simplify_eq. by apply close_step.
Qed.

Lemma a_step_slots cap size q e q' o :
  a_step cap size q e = Some (q', o) -> (length (slots q') <= S (length (slots q)))%nat.
Proof.
  intros Ha.
  destruct e; cbn -[a_next] in Ha; unfold update_reserved in Ha; simplify_option;
    repeat case_match; simplify_option; repeat case_match; simplify_eq; cbn;
    rewrite ?length_insert, ?length_app; cbn; lia.
Qed.

Lemma run_refines es : forall s q q' outs,
  rel s q -> pos (rb_ s) (length (slots q) + length es) < 2 ^ 64 ->
  a_run (capacity (rb_ s)) (sample_size (rb_ s)) q es = Some (q', outs) ->
  exists s', c_run s es = Some (s', outs) /\ rel s' q'.
Proof.
  induction es as [|e es IH]; cbn [a_run c_run]; intros s q q' outs R Hov Ha.
  { simplify_eq. eauto. }
  apply bind_Some in Ha as ([q1 o] & Hst & Ha). apply bind_Some in Ha as ([q2 os] & Hrun & Ha).
  simplify_eq. cbn [length] in Hov.
  pose proof (pos_mono _ (S (length (slots q))) (length (slots q) + S (length es))
    (rel_geo _ _ R) ltac:(lia)).
  destruct (step_refines s q e q1 o R ltac:(lia) Hst) as (s1 & Hc & R1 & Hsz & Hm).
  rewrite Hc. cbn [mbind option_bind]. apply a_step_slots in Hst.
  assert (forall t, pos (rb_ s1) t = pos (rb_ s) t) as Hp by (intros; unfold pos; by rewrite Hsz).
  destruct (IH s1 q1 q' os) as (s' & -> & R'); [done|..].
  - rewrite Hp. pose proof (pos_mono _ (length (slots q1) + length es)
      (length (slots q) + S (length es)) (rel_geo _ _ R) ltac:(lia)). lia.
  - by rewrite Hsz in *; unfold capacity in *; rewrite Hm, Hsz.
  - eauto.
Qed.

(** ** What [Create] builds *)

Lemma Create_inr os page req size rb :
  Create os page req size = inr rb ->
  rb = {| mask := get_mask_from_size (next_power_of_two (Z.max page req)); meta_size := page;
          data_size := next_power_of_two (Z.max page req); data := ∅; writer_pos := 0;
          reader_pos := 0; intermediate_reader_pos := 0; sample_size := size |}.
Proof. unfold Create. repeat case_if; naive_solver. Qed.

Lemma Create_rel os page req size rb :
  Create os page req size = inr rb ->
  8 <= page <= 2 ^ 63 -> 0 <= req <= 2 ^ 63 -> 0 <= size < 2 ^ 61 ->
  rel (mkSys rb [] None []) empty_queue /\ Z.max page req <= data_size rb.
Proof.
  intros ->%Create_inr Hp Hr Hs.
  destruct (next_power_of_two_pow (Z.max page req) ltac:(lia)) as (k & Hk & Hn & Hle & _).
  split; [|cbn; lia].
  assert (3 <= k).
  { destruct (decide (k < 3)); [|lia]. pose proof (Z.pow_lt_mono_r 2 k 3). lia. }
  assert (2 ^ k <= 2 ^ 63) by (apply Z.pow_le_mono_r; lia).
  assert (get_mask_from_size (2 ^ k) = 2 ^ k - 1) as Hm
    by (apply wrap_small; unfold in_u; lia).
  split; cbn; rewrite ?Hn, ?Hm; try done; try lia.
  - split; cbn; rewrite ?Hm, ?Hn; eauto with lia.
Qed.

(** C6: A ring buffer built by [Create] behaves, for every interleaving of
    reservations, payload writes, commits, discards and reader operations that
    respects the client protocol, exactly like a bounded FIFO history of records:
    the same reservations are granted or refused (room for [capacity] records that
    the reader has not released), readers are offered exactly the committed records
    in reservation order, skipping the discarded ones and stopping at one still being
    written, [AvailableSamples] counts the records left, and every word read back is
    the word written, even across the wrap-around.  In particular [GetNext] always
    returns.  The total volume is below 2^64 bytes, so positions do not wrap. *)
Theorem ring_buffer_refines_queue os page req size rb es q' outs :
  Create os page req size = inr rb ->
  8 <= page <= 2 ^ 63 -> 0 <= req <= 2 ^ 63 -> 0 <= size < 2 ^ 61 ->
  zlen es * record_size size < 2 ^ 64 ->
  a_run (capacity rb) size empty_queue es = Some (q', outs) ->
  exists s', c_run (mkSys rb [] None []) es = Some (s', outs) /\ rel s' q'.
Proof.
  intros Hc Hp Hr Hs Hov Ha. destruct (Create_rel _ _ _ _ _ Hc Hp Hr Hs) as [R _].
  pose proof (Create_inr _ _ _ _ _ Hc) as Hrb.
  apply run_refines with empty_queue; [done|..]; unfold pos; cbn -[record_size] in *;
    rewrite Hrb in *; done.
Qed.

Definition witness_os : os_answers := mkOs true true true true true.
Definition witness_rb : RingBufferImpl :=
  {| mask := 63; meta_size := 64; data_size := 64; data := ∅; writer_pos := 0;
     reader_pos := 0; intermediate_reader_pos := 0; sample_size := 16 |}.
(** Two 24-byte records fit into 64 bytes; the third round wraps around. *)
Definition witness_events : list event :=
  [EReserve true; EReserve true; EReserve true; EReserve false;
   EWrite 0 0 11; EWrite 1 1 22; ECommit 1; EOpen; EAvailable; ENext; ECommit 0; ENext;
   ERead 0 0; ENext; ERead 1 1; ENext; EClose;
   EReserve true; EWrite 2 0 33; EWrite 2 1 44; EReserve true; EDiscard 3; ECommit 2;
   EOpen; ENext; ERead 0 0; ERead 0 1; ENext; EClose].

Lemma ring_buffer_refines_queue_witness :
  exists s', c_run (mkSys witness_rb [] None []) witness_events =
    Some (s', [OGranted; OGranted; OFull; OTimeout; ODone; ODone; ODone; ODone; OCount 2;
               ONothing; ODone; ORecord; OWord 11; ORecord; OWord 22; ONothing; ODone;
               OGranted; ODone; ODone; OGranted; ODone; ODone; ODone; ORecord; OWord 33;
               OWord 44; ONothing; ODone]).
Proof.
  edestruct (ring_buffer_refines_queue witness_os 64 40 16 witness_rb witness_events)
    as (s' & H & _);
    [reflexivity|lia..|vm_compute; reflexivity|vm_compute; reflexivity|].
  exists s'. exact H.
Defined.

(** [align_up] rounds up to the least multiple of the power of two, and gives 0,
    as its comment says, for 0 and for values with no such 64-bit multiple. *)
Theorem align_up_spec x k :
  0 <= k < 64 -> 0 <= x < 2 ^ 64 ->
  let r := align_up x (2 ^ k) in
  (0 < x <= 2 ^ 64 - 2 ^ k -> r mod 2 ^ k = 0 /\ x <= r < x + 2 ^ k) /\
  (x = 0 \/ 2 ^ 64 - 2 ^ k < x -> r = 0).
Proof.
  intros Hk Hx r. assert (0 < 2 ^ k) as Hp by (apply Z.pow_pos_nonneg; lia). split.
  - intros H. subst r. rewrite align_up_eq by lia.
    pose proof (Z.div_mod (x - 1) (2 ^ k) ltac:(lia)).
    pose proof (Z.mod_pos_bound (x - 1) (2 ^ k)). split; [|lia].
    replace (2 ^ k * ((x - 1) / 2 ^ k) + 2 ^ k) with (((x - 1) / 2 ^ k + 1) * 2 ^ k) by lia.
    apply Z.mod_mul. lia.
  - intros H. subst r. unfold align_up.
    assert (2 ^ 64 = 2 ^ k * 2 ^ (64 - k)) as H64
      by (rewrite <- Z.pow_add_r by lia; f_equal; lia).
    assert (0 < 2 ^ (64 - k)) by (apply Z.pow_pos_nonneg; lia).
    rewrite (wrap_small 64 (2 ^ k - 1)) by (unfold in_u; nia).
    assert (u64 (x - 1) / 2 ^ k = 2 ^ (64 - k) - 1) as Hd.
    { symmetry. apply Z.div_unique with (u64 (x - 1) - 2 ^ k * (2 ^ (64 - k) - 1)); [left|lia].
      pose proof (wrap_range 64 (x - 1) ltac:(lia)) as Hw. unfold in_u in Hw.
      destruct H as [->|H]; [change (u64 (0 - 1)) with (2 ^ 64 - 1); lia|].
      pose proof (Z.pow_lt_mono_r 2 k 64 ltac:(lia) ltac:(lia) ltac:(lia)).
      pose proof (wrap_small 64 (x - 1) ltac:(unfold in_u; lia)). lia. }
    rewrite lor_low_mask, Hd by lia.
    replace (2 ^ k * (2 ^ (64 - k) - 1) + (2 ^ k - 1) + 1) with (2 ^ 64) by lia. done.
Qed.

(** [next_power_of_two] is the least power of two not below its argument, up to
    2^63; above that the successor overflows to 0. *)
Theorem next_power_of_two_spec size :
  0 <= size < 2 ^ 64 ->
  (size <= 2 ^ 63 ->
     exists k, 0 <= k <= 63 /\ next_power_of_two size = 2 ^ k /\ size <= 2 ^ k /\
       forall j, 0 <= j -> size <= 2 ^ j -> 2 ^ k <= 2 ^ j) /\
  (2 ^ 63 < size -> next_power_of_two size = 0).
Proof.
  intros Hs. split.
  - intros Hle. destruct (decide (size = 0)) as [->|].
    { exists 0. split_and!; try done; [lia..|]. intros j Hj _.
      pose proof (Z.pow_pos_nonneg 2 j). lia. }
    destruct (next_power_of_two_pow size ltac:(lia)) as (k & Hk & Hn & Hl & Hu).
    exists k. split_and!; [lia|lia|done|done|]. intros j Hj Hsj. apply Z.pow_le_mono_r; [lia|].
    destruct (decide (j < k)); [|lia]. exfalso.
    assert (2 ^ (j + 1) <= 2 ^ k) by (apply Z.pow_le_mono_r; lia).
    rewrite Z.pow_add_r in * by lia. lia.
  - intros Hgt. unfold next_power_of_two. rewrite (proj2 (Z.eqb_neq _ _)) by lia.
    rewrite (wrap_small 64 (size - 1)) by (unfold in_u; lia).
    assert (Z.log2 (size - 1) = 63) as HL by (apply Z.log2_unique; lia).
    assert (smeared 63 1 (size - 1)) as Hsm.
    { split; [lia|]. intros i _ Hi. replace i with (Z.log2 (size - 1)) by lia.
      apply Z.bit_log2. lia. }
    do 6 (apply smear_step in Hsm; [|lia..]). apply smeared_all in Hsm; [|lia].
    cbv zeta. change (2 * 1) with 2 in Hsm; change (2 * 2) with 4 in Hsm;
      change (2 * 4) with 8 in Hsm; change (2 * 8) with 16 in Hsm;
      change (2 * 16) with 32 in Hsm. rewrite Hsm. reflexivity.
Qed.

Lemma next_power_of_two_spec_witness :
  (exists k, 0 <= k <= 63 /\ next_power_of_two 5000 = 2 ^ k /\ 5000 <= 2 ^ k /\
     forall j, 0 <= j -> 5000 <= 2 ^ j -> 2 ^ k <= 2 ^ j) /\
  next_power_of_two (2 ^ 63 + 1) = 0.
Proof. split; apply next_power_of_two_spec; lia. Defined.
