(* ===== verification/SyscallWrappers.v ===== *)
(** * Interposed system calls

    Model of [common.c], [socket_operations.c] and [filesystem_operations.c] of the
    Linux API wrapper: symbol resolution when libdl or libpthread is not loaded yet,
    and the wrappers that restart a call the profiler's own signal interrupted.

    The real libc functions are parameters: [real args k] is what the [k]-th
    invocation with these arguments gives, including what the profiler's signal
    handler stored into the shared flag while the call ran. *)
From stdpp Require Import base sets list strings.
From S2P Require Import Prelude.

(** ** common.c: the hooks and the interruption test *)

Definition EINTR : Z := 4.

(** The parameter [rc] is a C [int]: a wider result is truncated by the call. *)
Definition is_interrupted_by_profiler (rc error_code interrupted_by_profiler : Z) : bool :=
  (i32 rc =? -1) && (error_code =? EINTR) && negb (interrupted_by_profiler =? 0).

(** What an observer of one wrapped call sees, in order. *)
Inductive tev (A : Type) :=
| SetShared (mem : bool)          (* [true]: the flag's address, [false]: NULL *)
| Call (args : A).
Arguments SetShared {A} mem.
Arguments Call {A} args.

(** [__dd_set_shared_memory]: nothing happens while no profiler is registered. *)
Definition __dd_set_shared_memory {A} (dd_set_shared_memory : bool) (mem : bool) : list (tev A) :=
  if negb dd_set_shared_memory then [] else [SetShared mem].

(** ** common.c: symbol resolution *)

(** What the loader offers.  [weak_dlsym] and [weak_pthread_once] are the weak
    symbols of the executable; a function pointer is the function it points to. *)
Abbreviation dlsym_t := (Z -> string -> option Z).
Record loader := mkLoader {
  weak_dlsym : option dlsym_t;
  weak_pthread_once : option Z;
  libc_dlopen_mode : option (string -> option Z);
  next_dlopen : option (string -> option Z);     (* dlsym(RTLD_NEXT, "dlopen") *)
  libc_dlsym_dlsym : Z -> option dlsym_t         (* __libc_dlsym(handle, "dlsym") *)
}.

(** The static variables, and the libraries opened so far. *)
Record statics := mkStatics {
  s_libdl_handle : option Z;
  s_libpthread_handle : option Z;
  dlsym_ptr : option dlsym_t;
  pthread_once_ptr : option Z;
  opened : list string
}.

Definition initial_statics (ld : loader) : statics :=
  mkStatics None None (weak_dlsym ld) (weak_pthread_once ld) [].

Definition note_open (st : statics) (f : string) : statics :=
  mkStatics (s_libdl_handle st) (s_libpthread_handle st) (dlsym_ptr st) (pthread_once_ptr st)
    (opened st ++ [f]).

Definition __dd_dlopen (ld : loader) (st : statics) (filename : string) : statics * option Z :=
  let s_dlopen := match weak_dlsym ld with
                  | None => libc_dlopen_mode ld
                  | Some _ => next_dlopen ld
                  end in
  match s_dlopen with
  | Some f => (note_open st filename, f filename)
  | None => (st, None)
  end.

Definition ensure_libdl_is_loaded (ld : loader) (st : statics) : statics :=
  match weak_dlsym ld, s_libdl_handle st with
  | None, None =>
      let '(st, h) := __dd_dlopen ld st "libdl.so.2" in
      mkStatics h (s_libpthread_handle st) (dlsym_ptr st) (pthread_once_ptr st) (opened st)
  | _, _ => st
  end.

Definition ensure_libpthread_is_loaded (ld : loader) (st : statics) : statics :=
  match weak_pthread_once ld, s_libpthread_handle st with
  | None, None =>
      let '(st, h) := __dd_dlopen ld st "libpthread.so.0" in
      mkStatics (s_libdl_handle st) h (dlsym_ptr st) (pthread_once_ptr st) (opened st)
  | _, _ => st
  end.

Definition __dd_dlsym (ld : loader) (st : statics) (handle : Z) (symbol : string)
    : statics * option Z :=
  match dlsym_ptr st with
  | Some f => (st, f handle symbol)
  | None =>
      let st := match s_libdl_handle st with
                | None => ensure_libdl_is_loaded ld st
                | Some _ => st
                end in
      let st := match s_libdl_handle st with
                | Some h => mkStatics (s_libdl_handle st) (s_libpthread_handle st)
                              (libc_dlsym_dlsym ld h) (pthread_once_ptr st) (opened st)
                | None => st
                end in
      match dlsym_ptr st with
      | None => (st, None)
      | Some f => (st, f handle symbol)
      end
  end.

(** The result is the function [__dd_pthread_once] calls; [None]: it returns -1. *)
Definition __dd_pthread_once (ld : loader) (st : statics) : statics * option Z :=
  match pthread_once_ptr st with
  | Some f => (st, Some f)
  | None =>
      let st := match s_libpthread_handle st with
                | None => ensure_libpthread_is_loaded ld st
                | Some _ => st
                end in
      let st := match s_libpthread_handle st with
                | Some h =>
                    let '(st, p) := __dd_dlsym ld st h "pthread_once" in
                    mkStatics (s_libdl_handle st) (s_libpthread_handle st) (dlsym_ptr st) p
                      (opened st)
                | None => st
                end in
      (st, pthread_once_ptr st)
  end.

(** ** The wrapping macros *)

Record outcome := mkOut { o_rc : Z; o_errno : Z; o_interrupted : Z }.

(** The [do ... while] loop, from its [k]-th iteration; [None]: out of fuel. *)
Fixpoint retry_loop {A} (fuel k : nat) (real : A -> nat -> outcome) (args : A)
    : option (Z * list (tev A)) :=
  match fuel with
  | O => None
  | S fuel =>
      let o := real args k in
      if is_interrupted_by_profiler (o_rc o) (o_errno o) (o_interrupted o)
      then '(rc, tr) ← retry_loop fuel (S k) real args; Some (rc, Call args :: tr)
      else Some (o_rc o, [Call args])
  end.

(** A wrapped function: the cached real symbol (resolved when NULL), registration of
    the flag, the loop, deregistration.  The third component of the result is the new
    cache; [None]: the real function is called through NULL, or out of fuel. *)
Definition WRAPPED_FUNCTION {A} (fuel : nat) (hook : bool)
    (cached resolved : option (A -> nat -> outcome)) (args : A)
    : option (Z * list (tev A) * option (A -> nat -> outcome)) :=
  let real := match cached with Some f => Some f | None => resolved end in
  f ← real;
  '(rc, tr) ← retry_loop fuel 0 f args;
  Some (rc, __dd_set_shared_memory hook true ++ tr ++ __dd_set_shared_memory hook false, real).

(** Exported name and symbol looked up with [RTLD_NEXT], one pair per use of the macro. *)
Definition socket_operations : list (string * string) :=
  (fun s => (s, s)) <$>
  ["select"; "poll"; "accept"; "accept4"; "recv"; "recvfrom"; "recvmsg"; "recvmmsg";
   "connect"; "send"; "sendto"; "sendmsg"].

Definition filesystem_operations : list (string * string) :=
  ((fun s => (s, s)) <$>
   ["read"; "write"; "pread"; "pwrite"; "stat"; "lstat"; "fstatat"; "fstat";
    "__xstat"; "__lxstat"; "__fxstat"; "__fxstatat"]) ++
  ((fun s => (s, s)) <$>    (* WRAPPED_FUNCTION_RENAMED: asmname is exported and looked up *)
   ["pread64"; "pwrite64"; "__xstat64"; "__lxstat64"; "__fxstat64"; "__fxstatat64"]) ++
  [("open", "open"); ("openat", "openat"); ("open64", "open64"); ("openat64", "openat64")] ++
  ((fun s => (s, s)) <$>
   ["__read_chk"; "__pread_chk"; "__pread64_chk"; "__open_2"; "__open64_2"; "__openat_2";
    "__openat64_2"]).

(** ** open and openat: the optional mode argument *)

Definition O_CREAT : Z := 64.              (* 0100 *)
Definition O_DIRECTORY : Z := 65536.       (* 0200000 *)
Definition __O_TMPFILE : Z := 4194304.     (* 020000000 *)
Definition O_TMPFILE : Z := Z.lor __O_TMPFILE O_DIRECTORY.

Definition __dd_open_needs_mode (flags : Z) : bool :=
  if negb (Z.land flags O_CREAT =? 0) then true
  else if Z.land flags O_TMPFILE =? O_TMPFILE then true
  else false.

(** Reading a variadic argument the caller did not pass is undefined. *)
Definition va_arg (args : list Z) : option Z := head args.

Definition open_mode (flags : Z) (varargs : list Z) : option Z :=
  if __dd_open_needs_mode flags then va_arg varargs else Some 0.

Definition open (fuel : nat) (hook : bool)
    (cached resolved : option (string * Z * Z -> nat -> outcome))
    (pathname : string) (flags : Z) (varargs : list Z) :=
  mode ← open_mode flags varargs;
  WRAPPED_FUNCTION fuel hook cached resolved (pathname, flags, mode).

Definition openat (fuel : nat) (hook : bool)
    (cached resolved : option (Z * string * Z * Z -> nat -> outcome))
    (dirfd : Z) (pathname : string) (flags : Z) (varargs : list Z) :=
  mode ← open_mode flags varargs;
  WRAPPED_FUNCTION fuel hook cached resolved (dirfd, pathname, flags, mode).

(** ** Retrying *)

(** The profiler interrupted the call and nothing else happened. *)
Definition profiler_eintr (o : outcome) : Prop :=
  o_rc o = -1 /\ o_errno o = EINTR /\ o_interrupted o <> 0.

Lemma is_interrupted_iff o :
  in_s 32 (o_rc o) ->
  is_interrupted_by_profiler (o_rc o) (o_errno o) (o_interrupted o) = true <-> profiler_eintr o.
Proof.
  intros H. unfold is_interrupted_by_profiler, profiler_eintr. rewrite swrap_small by (auto; lia).
  rewrite !andb_true_iff, negb_true_iff, !Z.eqb_eq, Z.eqb_neq. tauto.
Qed.

Section retry.
Context {A : Type} (real : A -> nat -> outcome) (args : A) (n : nat).
Hypothesis Hrange : forall k, (k <= n)%nat -> in_s 32 (o_rc (real args k)).
Hypothesis Hbefore : forall k, (k < n)%nat -> profiler_eintr (real args k).
Hypothesis Hlast : ~ profiler_eintr (real args n).

Lemma retry_loop_ok d : forall fuel, (d <= n)%nat -> (d < fuel)%nat ->
  retry_loop fuel (n - d) real args = Some (o_rc (real args n), replicate (S d) (Call args)).
Proof.
  induction d as [|d IH]; intros [|fuel] Hd Hf; try lia; cbn [retry_loop].
  - rewrite Nat.sub_0_r.
    destruct (is_interrupted_by_profiler _ _ _) eqn:E; [|done].
    apply is_interrupted_iff in E; [done | by apply Hrange].
  - rewrite (proj2 (is_interrupted_iff _ (Hrange (n - S d)%nat ltac:(lia)))) by (apply Hbefore; lia).
    replace (S (n - S d)) with (n - d)%nat by lia. by rewrite IH by lia.
Qed.
End retry.

(** A wrapped call returns exactly the result of the first invocation that the
    profiler did not interrupt: it re-issues the real call with the same arguments once
    per profiler-induced EINTR and never more, lets every other result through (an EINTR
    the application must see included), keeps the flag registered for exactly the
    duration of the calls, and caches the symbol.  It returns as soon as such an
    invocation exists.  Results are below 2^31, as the kernel guarantees for transfers. *)
Theorem wrapped_function_retries A hook cached resolved (f : A -> nat -> outcome) args n fuel :
  (cached = Some f \/ cached = None /\ resolved = Some f) ->
  (forall k, (k <= n)%nat -> in_s 32 (o_rc (f args k))) ->
  (forall k, (k < n)%nat -> profiler_eintr (f args k)) ->
  (profiler_eintr (f args n) -> False) -> (n < fuel)%nat ->
  WRAPPED_FUNCTION fuel hook cached resolved args =
    Some (o_rc (f args n),
          (if hook then [SetShared true] else []) ++ replicate (S n) (Call args) ++
          (if hook then [SetShared false] else []), Some f).
Proof.
  intros Hf Hr Hb Hl Hfuel. unfold WRAPPED_FUNCTION.
  assert (match cached with Some f => Some f | None => resolved end = Some f) as ->
    by (destruct Hf as [->|[-> ->]]; done).
  cbn [mbind option_bind].
  pose proof (retry_loop_ok f args n Hr Hb Hl n fuel ltac:(lia) Hfuel) as H.
  rewrite Nat.sub_diag in H. rewrite H. by destruct hook.
Qed.

(** Interrupted twice by the profiler, then by another signal: that EINTR is reported. *)
Definition witness_real : Z -> nat -> outcome := fun _ k =>
  match k with 0%nat | 1%nat => mkOut (-1) EINTR 1 | _ => mkOut (-1) EINTR 0 end.

(** The truncation to [int] in the interruption test is visible only for results
    that the kernel never produces. *)
Lemma interrupted_truncates : is_interrupted_by_profiler (2 ^ 32 - 1) EINTR 1 = true.
Proof. reflexivity. Qed.

(** The exported names are pairwise different, and each forwards to the symbol of the
    same name, so no wrapper changes which libc function a caller reaches. *)
Lemma wrapper_table_ok :
  Forall (fun p => p.1 = p.2) (socket_operations ++ filesystem_operations) /\
  NoDup (socket_operations ++ filesystem_operations).*1.
Proof.
  split; [vm_compute; repeat constructor|].
  apply (bool_decide_unpack (NoDup _)). vm_compute. exact I.
Qed.

(** ** Mode arguments *)

Lemma needs_mode_iff flags :
  __dd_open_needs_mode flags = true <->
  Z.testbit flags 6 = true \/ (Z.testbit flags 16 = true /\ Z.testbit flags 22 = true).
Proof.
  unfold __dd_open_needs_mode.
  assert (Z.land flags O_CREAT =? 0 = negb (Z.testbit flags 6)) as ->.
  { destruct (Z.testbit flags 6) eqn:E; cbn.
    - apply Z.eqb_neq. intros H. apply (f_equal (fun x => Z.testbit x 6)) in H.
      by rewrite Z.land_spec, E, Z.bits_0 in H.
    - apply Z.eqb_eq, Z.bits_inj'. intros i Hi. change O_CREAT with (2 ^ 6).
      rewrite Z.land_spec, Z.bits_0, Z.pow2_bits_eqb by lia.
      destruct (Z.eqb_spec 6 i) as [<-|]; [by rewrite E | apply andb_false_r]. }
  assert (Z.land flags O_TMPFILE =? O_TMPFILE = Z.testbit flags 16 && Z.testbit flags 22) as ->.
  { destruct (Z.testbit flags 16 && Z.testbit flags 22) eqn:E; bool_facts.
    - apply Z.eqb_eq, Z.bits_inj'. intros i Hi.
      change O_TMPFILE with (Z.lor (2 ^ 22) (2 ^ 16)).
      rewrite Z.land_spec, Z.lor_spec, !Z.pow2_bits_eqb by lia.
      destruct (Z.eqb_spec 22 i); [subst; cbn; by rewrite andb_true_r|].
      destruct (Z.eqb_spec 16 i); [subst; by rewrite andb_true_r|]. by rewrite andb_false_r.
    - apply Z.eqb_neq. intros H'. apply (f_equal (fun x => Z.testbit x 16)) in H'.
      rewrite Z.land_spec in H'. by replace (Z.testbit flags 16) with false in H'.
    - apply Z.eqb_neq. intros H'. apply (f_equal (fun x => Z.testbit x 22)) in H'.
      rewrite Z.land_spec in H'. by replace (Z.testbit flags 22) with false in H'. }
  destruct (Z.testbit flags 6), (Z.testbit flags 16), (Z.testbit flags 22); cbn; naive_solver.
Qed.

(** [open] and [openat] read the variadic mode exactly when the flags carry
    O_CREAT or the whole O_TMPFILE pattern: a caller that passes a mode then, and only
    then, never has an absent argument read (a plain O_DIRECTORY open included), and its
    mode reaches the real function unchanged. *)
Theorem open_mode_faithful hook fuel path dirfd flags varargs
    (real real' : option (string * Z * Z -> nat -> outcome))
    (real_at real_at' : option (Z * string * Z * Z -> nat -> outcome)) :
  (Z.testbit flags 6 = true \/ (Z.testbit flags 16 = true /\ Z.testbit flags 22 = true) ->
     exists m, varargs = [m]) ->
  let mode := if __dd_open_needs_mode flags then default 0 (head varargs) else 0 in
  open fuel hook real real' path flags varargs =
    WRAPPED_FUNCTION fuel hook real real' (path, flags, mode) /\
  openat fuel hook real_at real_at' dirfd path flags varargs =
    WRAPPED_FUNCTION fuel hook real_at real_at' (dirfd, path, flags, mode).
Proof.
  intros Hv mode. unfold open, openat, open_mode, mode, va_arg. rewrite <- needs_mode_iff in Hv.
  destruct (__dd_open_needs_mode flags); [|done].
  destruct (Hv eq_refl) as [m ->]. done.
Qed.

Definition witness_open : string * Z * Z -> nat -> outcome := fun a _ => mkOut a.2 0 0.

(** ** Resolution *)

(** [dlsym] can be found: it is linked in, or libdl can be opened and holds it. *)
Definition dlsym_available (ld : loader) (f : dlsym_t) : Prop :=
  weak_dlsym ld = Some f \/
  weak_dlsym ld = None /\
  exists o h, libc_dlopen_mode ld = Some o /\ o "libdl.so.2" = Some h /\
    libc_dlsym_dlsym ld h = Some f.

(** Reachable values of the statics. *)
Record statics_ok (ld : loader) (f : dlsym_t) (st : statics) : Prop := {
  so_dlsym : dlsym_ptr st = Some f \/
             dlsym_ptr st = None /\ weak_dlsym ld = None /\ s_libdl_handle st = None;
  so_open : s_libdl_handle st = None -> ("libdl.so.2" ∉ opened st);
  so_once : (length (filter (.= "libdl.so.2") (opened st)) <= 1)%nat
}.

Lemma initial_statics_ok ld f : dlsym_available ld f -> statics_ok ld f (initial_statics ld).
Proof.
  intros [H|[H _]]; split; cbn; rewrite ?H; try (by left); try (by right); try lia; set_solver.
Qed.

Lemma note_open_filter l (x : string) :
  x ∉ l -> (length (filter (.= x) (l ++ [x])) <= 1)%nat.
Proof.
  intros H. rewrite filter_app, length_app.
  assert (filter (.= x) l = []) as ->; [|cbn; by destruct (decide (x = x))].
  induction l as [|y l IH]; [done|]. rewrite filter_cons_False by set_solver. set_solver.
Qed.

Lemma dd_dlsym_ok ld f st handle symbol :
  dlsym_available ld f -> statics_ok ld f st ->
  exists st', __dd_dlsym ld st handle symbol = (st', f handle symbol) /\
    statics_ok ld f st' /\ dlsym_ptr st' = Some f /\
    s_libpthread_handle st' = s_libpthread_handle st /\
    pthread_once_ptr st' = pthread_once_ptr st.
Proof.
  intros Ha [[Hd|(Hd & Hw & Hl)] Ho Hc]; unfold __dd_dlsym; rewrite Hd.
  { exists st. split_and!; try done. by split; [left|..]. }
  destruct Ha as [Ha|(_ & o & h & Hm & Hopen & Hs)]; [congruence|].
  rewrite Hl. unfold ensure_libdl_is_loaded. rewrite Hw, Hl.
  unfold __dd_dlopen. rewrite Hw, Hm. cbn. rewrite Hopen. cbn. rewrite Hs. cbn.
  eexists. split_and!; [done| |done..]. split; cbn; [by left|done|].
  by apply note_open_filter, Ho.
Qed.

(** Any sequence of lookups. *)
Fixpoint dlsym_all (ld : loader) (st : statics) (qs : list (Z * string))
    : statics * list (option Z) :=
  match qs with
  | [] => (st, [])
  | (h, s) :: qs =>
      let '(st, r) := __dd_dlsym ld st h s in
      let '(st, rs) := dlsym_all ld st qs in (st, r :: rs)
  end.

(** Whenever [dlsym] can be found at all (linked in, or in a libdl that can be
    opened), every lookup through [__dd_dlsym] answers what [dlsym] answers, from the
    first one on, and libdl is opened at most once whatever the number of lookups. *)
Theorem dd_dlsym_resolves ld f qs :
  dlsym_available ld f ->
  let '(st, rs) := dlsym_all ld (initial_statics ld) qs in
  rs = (fun q => f q.1 q.2) <$> qs /\
  (length (filter (.= "libdl.so.2") (opened st)) <= 1)%nat.
Proof.
  intros Ha. pose proof (initial_statics_ok ld f Ha) as Hok.
  revert Hok. generalize (initial_statics ld). induction qs as [|[h s] qs IH]; cbn; intros st Hok.
  { split; [done|]. apply Hok. }
  destruct (dd_dlsym_ok ld f st h s Ha Hok) as (st1 & -> & Hok1 & _).
  specialize (IH st1 Hok1). destruct (dlsym_all ld st1 qs) as [st2 rs].
  destruct IH as [-> ?]. done.
Qed.

Definition witness_dlsym : dlsym_t := fun h _ => Some (h + 1).
Definition witness_loader : loader :=
  mkLoader None None (Some (fun _ => Some 5)) None (fun _ => Some witness_dlsym).
