(* ===== verification/CrashHandler.v ===== *)
(** * Interposed loader, process and signal functions

    Model of [functions_to_wrap.c]: the per-thread counters that tell the profiler a
    thread is inside the loader, the set-up that redirects the runtime's crash dump
    tool to dd-dotnet through environment variables ([initLibrary]), the rewriting of
    the arguments and environment in [execve], the thread start wrapper, and the
    signal-mask adjustments.

    [None] as the result of an operation is undefined behaviour of the C code: an
    access outside an array, a dereference of a bad pointer, freeing a literal. *)
From stdpp Require Import base gmap list strings.
From Stdlib Require Import Ascii.
From S2P Require Import Prelude.
#[local] Open Scope string_scope.
#[local] Open Scope list_scope.
#[local] Open Scope Z_scope.

(** ** C strings *)

Definition char_at (s : string) (i : nat) : option ascii := String.get i s.

(** [strncmp(a, b, n) == 0]. *)
Fixpoint strncmp_eq (n : nat) (a b : string) : bool :=
  match n with
  | O => true
  | S n =>
      match a, b with
      | EmptyString, EmptyString => true
      | String x a, String y b => bool_decide (x = y) && strncmp_eq n a b
      | _, _ => false
      end
  end.

Definition tolower (c : ascii) : ascii :=
  let n := N_of_ascii c in
  if ((65 <=? n) && (n <=? 90))%N then ascii_of_N (n + 32) else c.

(** [strcasecmp(a, b) == 0]. *)
Fixpoint strcasecmp_eq (a b : string) : bool :=
  match a, b with
  | EmptyString, EmptyString => true
  | String x a, String y b => bool_decide (tolower x = tolower y) && strcasecmp_eq a b
  | _, _ => false
  end.

(** The last position below [n] that holds a slash: [strrchr] on the whole string, the
    backwards loop of [getSubfolder] below the last slash. *)
Fixpoint last_slash_below (s : string) (n : nat) : option nat :=
  match n with
  | O => None
  | S m => if bool_decide (char_at s m = Some "/"%char) then Some m else last_slash_below s m
  end.

Definition strrchr_slash (s : string) : option nat := last_slash_below s (String.length s).

(** ** Paths *)

(** A returned [char*]: allocated, or a string literal that must not be freed. *)
Inductive cstr := Heap (s : string) | Literal (s : string).

Definition cstr_text (c : cstr) : string := match c with Heap s | Literal s => s end.
Definition free (c : cstr) : option unit :=
  match c with Heap _ => Some tt | Literal _ => None end.

Definition appendToPath (malloc_ok : bool) (folder suffix : string) : option cstr :=
  if malloc_ok then Some (Heap (folder +:+ suffix)) else None.

Definition getFolder (malloc_ok : bool) (path : string) : option cstr :=
  match strrchr_slash path with
  | None => Some (Literal "")
  | Some lastSlash =>
      if malloc_ok then Some (Heap (String.substring 0 lastSlash path)) else None
  end.

Definition getSubfolder (malloc_ok : bool) (path : string) : option cstr :=
  match strrchr_slash path with
  | None => None
  | Some lastSlash =>
      match last_slash_below path lastSlash with
      | None => None
      | Some temp =>
          let temp := S temp in
          if malloc_ok then Some (Heap (String.substring temp (lastSlash - temp) path))
          else None
      end
  end.

(** ** initLibrary *)

Abbreviation env_t := (gmap string string).

Record lib_state := mkLib {
  environ : env_t;
  crashHandler : option string;
  originalMiniDumpName : option string
}.

(** The surroundings: architecture, file system, the loader's answers, and whether the
    two allocations of the path computation succeed. *)
Record host := mkHost {
  aarch64 : bool;
  access_exec : string -> bool;             (* access(path, X_OK) == 0 *)
  isAlpine : bool;                          (* access("/etc/alpine-release", F_OK) == 0 *)
  libraryPath : option string;              (* dladdr of the library itself *)
  dlsym_getenv : bool;
  dlsym_setenv : bool;
  malloc_sub : bool;
  malloc_folder : bool
}.

Definition DdDotnetFolder (h : host) : string :=
  if aarch64 h then "linux-arm64" else "linux-x64".
Definition DdDotnetMuslFolder (h : host) : string :=
  if aarch64 h then "linux-musl-arm64" else "linux-musl-x64".

Definition datadogCrashMarker : string := "datadog_crashtracking".
Definition DD_CRASHTRACKING_ENABLED : string := "DD_CRASHTRACKING_ENABLED".
Definition PASSTHROUGH : string := "DD_INTERNAL_CRASHTRACKING_PASSTHROUGH".
Definition DOTNET_DbgEnableMiniDump : string := "DOTNET_DbgEnableMiniDump".
Definition COMPlus_DbgEnableMiniDump : string := "COMPlus_DbgEnableMiniDump".
Definition DOTNET_DbgMiniDumpName : string := "DOTNET_DbgMiniDumpName".
Definition COMPlus_DbgMiniDumpName : string := "COMPlus_DbgMiniDumpName".
Definition MINIDUMPNAME : string := "DD_INTERNAL_CRASHTRACKING_MINIDUMPNAME".

Definition is_marker (s : string) : bool :=
  strncmp_eq (String.length datadogCrashMarker) s datadogCrashMarker.

Definition first_is (c : ascii) (s : string) : bool := bool_decide (char_at s 0 = Some c).
Definition is_empty (s : string) : bool := bool_decide (s = "").

Definition crash_tracking_disabled (e : env_t) : bool :=
  match e !! DD_CRASHTRACKING_ENABLED with
  | None => false
  | Some v => strcasecmp_eq v "no" || strcasecmp_eq v "false" || strcasecmp_eq v "0"
  end.

(** The candidate path: [None] on undefined behaviour, [Some None] when the C variable
    stays NULL. *)
Definition newCrashHandler (h : host) (path subFolder : string) : option (option string) :=
  match getFolder (malloc_folder h) path with
  | None => Some None
  | Some folder =>
      let p :=
        if bool_decide (subFolder = DdDotnetFolder h)
           || bool_decide (subFolder = DdDotnetMuslFolder h)
        then cstr_text folder +:+ "/dd-dotnet"
        else
          let current := if negb (isAlpine h) then DdDotnetFolder h else DdDotnetMuslFolder h in
          if bool_decide (subFolder = "continuousprofiler")
          then cstr_text folder +:+ "/../" +:+ current +:+ "/dd-dotnet"
          else cstr_text folder +:+ "/" +:+ current +:+ "/dd-dotnet" in
      free folder;; Some (Some p)
  end.

(** The value of the global [crashHandler] after the search. *)
Definition find_crash_handler (h : host) (before : option string) : option (option string) :=
  match libraryPath h with
  | None => Some before
  | Some path =>
      match getSubfolder (malloc_sub h) path with
      | None => Some before
      | Some subFolder =>
          new ← newCrashHandler h path (cstr_text subFolder);
          free subFolder;;
          Some match new with
               | Some p => if access_exec h p then Some p else before
               | None => before
               end
      end
  end.

(** The passthrough decision. *)
Definition set_dump_env (e : env_t) : env_t :=
  let enableMiniDump := match e !! DOTNET_DbgEnableMiniDump with
                        | None => e !! COMPlus_DbgEnableMiniDump
                        | v => v
                        end in
  if match enableMiniDump with Some v => first_is "1"%char v | None => false end
  then
    if match e !! PASSTHROUGH with None => true | Some v => is_empty v end
    then <[PASSTHROUGH := "1"]> e
    else e
  else <[PASSTHROUGH := "0"]> (<[DOTNET_DbgEnableMiniDump := "1"]>
         (<[COMPlus_DbgEnableMiniDump := "1"]> e)).

(** Recovery of the user's dump name. *)
Definition original_name (e : env_t) : option string :=
  let name := e !! DOTNET_DbgMiniDumpName in
  let name := if match name with None => true | Some v => is_marker v end
              then e !! COMPlus_DbgMiniDumpName else name in
  if match name with None => false | Some v => is_marker v end
  then e !! MINIDUMPNAME else name.

Definition set_name_env (e : env_t) (name : option string) : env_t :=
  let e := match name with
           | Some v => if negb (is_empty v) then <[MINIDUMPNAME := v]> e else e
           | None => e
           end in
  <[DOTNET_DbgMiniDumpName := datadogCrashMarker]>
    (<[COMPlus_DbgMiniDumpName := datadogCrashMarker]> e).

Definition initLibrary (h : host) (s : lib_state) : option lib_state :=
  if crash_tracking_disabled (environ s) then Some s
  else if negb (dlsym_getenv h) || negb (dlsym_setenv h) then Some s
  else
    ch ← find_crash_handler h (crashHandler s);
    if match ch with Some p => negb (is_empty p) | None => false end
    then
      let e := set_dump_env (environ s) in
      let name := original_name e in
      Some (mkLib (set_name_env e name) ch name)
    else Some (mkLib (environ s) ch (originalMiniDumpName s)).

Definition fresh_state (e : env_t) : lib_state := mkLib e None None.

(** ** The crash flag and the counters *)

(** [is_app_crashing]: NULL, the MAP_FAILED value, or a pointer to the shared int. *)
Inductive shm := ShmNull | ShmFailed | Shm (v : Z).

Definition deref (p : shm) : option Z := match p with Shm v => Some v | _ => None end.

(** The end of [init]: [mmap_ok] is whether the mapping succeeded. *)
Definition init (mmap_ok : bool) : shm := if mmap_ok then Shm 0 else ShmFailed.

Inductive FUNCTION_ID :=
| ENTERED_DL_ITERATE_PHDR | ENTERED_DL_OPEN | ENTERED_DL_ADDR | ENTERED_PTHREAD_CREATE
| ENTERED_PTHREAD_ATTR_INIT | ENTERED_PTHREAD_GETATTR_DEFAULT_NP
| ENTERED_PTHREAD_SETATTR_DEFAULT_NP | ENTERED_FORK.

#[export] Instance FUNCTION_ID_eq_dec : EqDecision FUNCTION_ID.
Proof. solve_decision. Defined.

Definition fid (f : FUNCTION_ID) : nat :=
  match f with
  | ENTERED_DL_ITERATE_PHDR => 0 | ENTERED_DL_OPEN => 1 | ENTERED_DL_ADDR => 2
  | ENTERED_PTHREAD_CREATE => 3 | ENTERED_PTHREAD_ATTR_INIT => 4
  | ENTERED_PTHREAD_GETATTR_DEFAULT_NP => 5 | ENTERED_PTHREAD_SETATTR_DEFAULT_NP => 6
  | ENTERED_FORK => 7
  end.

(** The thread: the eight bytes of [functions_entered_counter], how often the library
    cache was notified, and what the profiler's signal handler read. *)
Record thr := mkThr { bytes : list Z; notified : nat; observed : list (option Z) }.

Definition bump (f : FUNCTION_ID) (d : Z) (t : thr) : thr :=
  mkThr (alter (fun b => u8 (b + d)) (fid f) (bytes t)) (notified t) (observed t).

Definition counter_value (bs : list Z) : Z := foldr (fun b acc => b + 256 * acc) 0 bs.

Definition dd_inside_wrapped_functions (p : shm) (t : thr) : option Z :=
  match p with
  | ShmNull => Some (u64 (counter_value (bytes t) + 0))
  | _ => v ← deref p; Some (u64 (counter_value (bytes t) + v))
  end.

(** The wrappers around a real function [real]. *)
Definition counted (f : FUNCTION_ID) (real : thr -> thr) (t : thr) : thr :=
  bump f (-1) (real (bump f 1 t)).

Definition notify (hook : bool) (t : thr) : thr :=
  if hook then mkThr (bytes t) (S (notified t)) (observed t) else t.

Definition dl_iterate_phdr (real : thr -> thr) : thr -> thr := counted ENTERED_DL_ITERATE_PHDR real.
Definition dlopen (hook : bool) (real : thr -> thr) : thr -> thr :=
  counted ENTERED_DL_OPEN (fun t => notify hook (real t)).
Definition dlclose (hook : bool) (real : thr -> thr) (t : thr) : thr := notify hook (real t).
Definition dladdr (real : thr -> thr) : thr -> thr := counted ENTERED_DL_ADDR real.
Definition pthread_attr_init (real : thr -> thr) : thr -> thr :=
  counted ENTERED_PTHREAD_ATTR_INIT real.
Definition pthread_getattr_default_np (real : thr -> thr) : thr -> thr :=
  counted ENTERED_PTHREAD_GETATTR_DEFAULT_NP real.
Definition pthread_setattr_default_np (real : thr -> thr) : thr -> thr :=
  counted ENTERED_PTHREAD_SETATTR_DEFAULT_NP real.
(** The counting of [pthread_create] (below, with the block it hands to the new thread). *)
Definition pthread_create_counted (real : thr -> thr) : thr -> thr :=
  counted ENTERED_PTHREAD_CREATE real.

(** What the thread does: calls of wrapped functions, whose real bodies may call wrapped
    functions again (callbacks, constructors), and signals of the profiler. *)
Inductive act :=
| Signal
| DlIteratePhdr (body : list act)
| DlOpen (body : list act)
| DlClose (body : list act)
| DlAddr (body : list act)
| PthreadCreate (body : list act)
| PthreadAttrInit (body : list act)
| PthreadGetattr (body : list act)
| PthreadSetattr (body : list act).

Fixpoint run_act (hook : bool) (p : shm) (a : act) (t : thr) {struct a} : thr :=
  let body l := fun t => fold_left (fun t a => run_act hook p a t) l t in
  match a with
  | Signal => mkThr (bytes t) (notified t) (observed t ++ [dd_inside_wrapped_functions p t])
  | DlIteratePhdr l => dl_iterate_phdr (body l) t
  | DlOpen l => dlopen hook (body l) t
  | DlClose l => dlclose hook (body l) t
  | DlAddr l => dladdr (body l) t
  | PthreadCreate l => pthread_create_counted (body l) t
  | PthreadAttrInit l => pthread_attr_init (body l) t
  | PthreadGetattr l => pthread_getattr_default_np (body l) t
  | PthreadSetattr l => pthread_setattr_default_np (body l) t
  end.

(** ** execve *)

Definition name_opt : string := "--name".
Definition is_name_opt (s : string) : bool := strncmp_eq (String.length name_opt) s name_opt.

(** [argv[i]] of a NULL-terminated array: [None] outside it, [Some None] for the NULL. *)
Definition arg_at (argv : list string) (i : nat) : option (option string) :=
  if decide (i < length argv)%nat then Some (argv !! i)
  else if decide (i = length argv) then Some None else None.

(** [strcmp(pathname + length - 11, "/createdump") == 0]. *)
Definition ends_with_createdump (pathname : string) : bool :=
  let length := String.length pathname in
  negb (Nat.ltb length 11) &&
  bool_decide (String.substring (length - 11) 11 pathname = "/createdump").

Fixpoint has_crash_marker (previousWasNameOpt : bool) (argv : list string) : bool :=
  match argv with
  | [] => false
  | a :: argv =>
      if previousWasNameOpt && is_marker a then true
      else has_crash_marker (is_name_opt a) argv
  end.

Definition ShouldCallCustomCreatedump (s : lib_state) (pathname : option string)
    (argv : list string) : bool :=
  match crashHandler s, pathname with
  | Some _, Some pathname =>
      if negb (ends_with_createdump pathname) then false else has_crash_marker false argv
  | _, _ => false
  end.

(** A slot of an array of [char*] just allocated. *)
Inductive slot := Uninit | Null | Str (s : string).

(** The loop that copies the arguments; indices as in the code. *)
Fixpoint copy_args (fuel : nat) (argv : list string) (original : option string)
    (idx new_idx : nat) (newArgv : list slot) : option (nat * list slot) :=
  match fuel with
  | O => None
  | S fuel =>
      a ← arg_at argv idx;
      match a with
      | None => Some (new_idx, newArgv)
      | Some a =>
          if is_name_opt a then
            match original with
            | Some o =>
                newArgv ← zset newArgv (Z.of_nat new_idx) (Str "--name");
                newArgv ← zset newArgv (Z.of_nat (S new_idx)) (Str o);
                copy_args fuel argv original (idx + 2) (S (S new_idx)) newArgv
            | None => copy_args fuel argv original (idx + 2) new_idx newArgv
            end
          else
            newArgv ← zset newArgv (Z.of_nat new_idx) (Str a);
            copy_args fuel argv original (S idx) (S new_idx) newArgv
      end
  end.

(** [argc] of the code counts the terminating NULL. *)
Definition build_argv (handler : string) (original : option string) (argv : list string)
    : option (list slot) :=
  let argc := S (length argv) in
  let newArgv := replicate (argc + 2) Uninit in
  newArgv ← zset newArgv 0 (Str handler);
  newArgv ← zset newArgv 1 (Str "createdump");
  '(new_idx, newArgv) ← copy_args (S (length argv)) argv original 0 2 newArgv;
  zset newArgv (Z.of_nat new_idx) Null.

Definition env_removed (v : string) : bool :=
  strncmp_eq 11 v "LD_PRELOAD=" ||
  strncmp_eq 25 v "CORECLR_ENABLE_PROFILING=" ||
  strncmp_eq 25 v "DOTNET_DbgEnableMiniDump=" ||
  strncmp_eq 26 v "COMPlus_DbgEnableMiniDump=".

Fixpoint copy_env (envp : list string) (index : nat) (new_envp : list slot)
    : option (nat * list slot) :=
  match envp with
  | [] => Some (index, new_envp)
  | v :: envp =>
      if env_removed v then copy_env envp index new_envp
      else
        new_envp ← zset new_envp (Z.of_nat index) (Str v);
        copy_env envp (S index) new_envp
  end.

Definition build_envp (envp : list string) : option (list slot) :=
  let new_envp := replicate (length envp + 1) Uninit in
  '(index, new_envp) ← copy_env envp 0 new_envp;
  zset new_envp (Z.of_nat index) Null.

(** What the callee of [__real_execve] reads: the strings up to the NULL. *)
Fixpoint c_strings (a : list slot) : option (list string) :=
  match a with
  | Str s :: a => l ← c_strings a; Some (s :: l)
  | Null :: _ => Some []
  | _ => None
  end.

Record exec_call := mkExec { ex_path : option string; ex_argv : list string; ex_envp : list string }.

(** The call that reaches the real [execve], and the crash flag at that moment. *)
Definition execve (s : lib_state) (p : shm) (pathname : option string)
    (argv envp : list string) : option (exec_call * shm) :=
  if negb (ShouldCallCustomCreatedump s pathname argv)
  then Some (mkExec pathname argv envp, p)
  else
    p ← match p with ShmNull => Some ShmNull | _ => _ ← deref p; Some (Shm 1) end;
    handler ← crashHandler s;
    a ← build_argv handler (originalMiniDumpName s) argv;
    e ← build_envp envp;
    a ← c_strings a;
    e ← c_strings e;
    Some (mkExec (Some handler) a e, p).

(** ** Thread creation (Alpine) *)

Record wrapped_arg := mkArg { func : Z; orig_arg : Z }.

(** Heap blocks of [pthread_wrapped_arg], and calls of the thread-finished hook. *)
Record theap := mkTheap { blocks : gmap Z wrapped_arg; next_block : Z; finished : nat }.

(** [real] is what the calling thread goes through in the real function and [rc] what
    that returns; with 0 the new thread will run [dd_pthread_entry] on the returned
    block. *)
Definition pthread_create (malloc_ok : bool) (real : thr -> thr) (rc : Z) (entry arg : Z)
    (t : thr) (h : theap) : option (thr * theap * Z * Z) :=
  if negb malloc_ok then None
  else
    let new_arg := next_block h in
    let h := mkTheap (<[new_arg := mkArg entry arg]> (blocks h)) (new_arg + 1) (finished h) in
    Some (pthread_create_counted real t, h, rc, new_arg).

(** [apply f a] is the user's thread function. *)
Definition dd_pthread_entry (apply : Z -> Z -> Z) (hook : bool) (arg : Z) (h : theap)
    : option (theap * Z) :=
  b ← blocks h !! arg;
  let result := apply (func b) (orig_arg b) in
  Some (mkTheap (delete arg (blocks h)) (next_block h) (if hook then S (finished h) else finished h),
        result).

(** ** Signals *)

Definition SIGUSR1 : Z := 10.
Definition SIGSEGV : Z := 11.
Definition SIGPROF : Z := 27.
Definition SIG_BLOCK : Z := 0.
Definition SIG_UNBLOCK : Z := 1.
Definition SIG_SETMASK : Z := 2.

Record sigaction_t := mkSigaction { sa_handler : Z; sa_mask : gset Z; sa_flags : Z }.

(** What reaches the real functions. *)
Definition sigaction (signum : Z) (act : option sigaction_t) : Z * option sigaction_t :=
  match act with
  | Some a =>
      if signum =? SIGSEGV
      then (signum, Some (mkSigaction (sa_handler a)
                            ({[SIGUSR1]} ∪ ({[SIGPROF]} ∪ sa_mask a)) (sa_flags a)))
      else (signum, act)
  | None => (signum, act)
  end.

Definition pthread_sigmask (how : Z) (set : option (gset Z)) : Z * option (gset Z) :=
  match set with
  | Some s =>
      if (how =? SIG_UNBLOCK) && bool_decide (SIGSEGV ∈ s)
      then (how, Some ({[SIGUSR1]} ∪ ({[SIGPROF]} ∪ s)))
      else (how, set)
  | None => (how, set)
  end.

(** ** initLibrary: safety and stability across child processes *)

Lemma getSubfolder_slash b path c :
  getSubfolder b path = Some c ->
  (exists i, strrchr_slash path = Some i) /\ exists s, c = Heap s.
Proof.
  unfold getSubfolder. destruct (strrchr_slash path) as [i|]; [|done].
  destruct (last_slash_below path i); [|done]. destruct b; [|done]. intros [= <-]. eauto.
Qed.

(** The literal [getFolder] can return is never freed: it is called only on paths in
    which [getSubfolder] found a slash. *)
Lemma find_crash_handler_total h before : is_Some (find_crash_handler h before).
Proof.
  unfold find_crash_handler. destruct (libraryPath h) as [path|]; [|done].
  destruct (getSubfolder _ path) as [c|] eqn:E; [|done].
  apply getSubfolder_slash in E as [[i Hi] [s ->]].
  unfold newCrashHandler, getFolder. rewrite Hi. by destruct (malloc_folder h).
Qed.

Lemma initLibrary_total h s : is_Some (initLibrary h s).
Proof.
  unfold initLibrary. do 2 (case_if; [done|]).
  destruct (find_crash_handler_total h (crashHandler s)) as [ch ->]. cbn. by case_if.
Qed.

Lemma is_marker_marker : is_marker datadogCrashMarker = true.
Proof. reflexivity. Qed.

Lemma set_dump_env_other e k :
  k <> PASSTHROUGH -> k <> DOTNET_DbgEnableMiniDump -> k <> COMPlus_DbgEnableMiniDump ->
  set_dump_env e !! k = e !! k.
Proof.
  intros. unfold set_dump_env. repeat case_if; by rewrite ?lookup_insert_ne.
Qed.

Lemma set_name_env_other e name k :
  k <> MINIDUMPNAME -> k <> DOTNET_DbgMiniDumpName -> k <> COMPlus_DbgMiniDumpName ->
  set_name_env e name !! k = e !! k.
Proof.
  intros. unfold set_name_env. rewrite !lookup_insert_ne by done.
  destruct name; [|done]. case_if; by rewrite ?lookup_insert_ne.
Qed.

(** The dump settings are a fixed point once they have been made. *)
Lemma set_dump_env_again e name :
  set_dump_env (set_name_env (set_dump_env e) name) = set_name_env (set_dump_env e) name.
Proof.
  unfold set_dump_env at 1. rewrite !set_name_env_other by done.
  destruct (match set_dump_env e !! DOTNET_DbgEnableMiniDump with
            | Some v => Some v
            | None => set_dump_env e !! COMPlus_DbgEnableMiniDump
            end) as [v|] eqn:Ev;
    [destruct (first_is "1"%char v) eqn:Ef|].
  - assert (exists w, set_dump_env e !! PASSTHROUGH = Some w /\ is_empty w = false) as (w & -> & ->);
      [|done].
    unfold set_dump_env. repeat case_if; rewrite ?lookup_insert_eq; eauto.
    destruct (e !! PASSTHROUGH); eauto. done.
  - exfalso. revert Ev Ef. unfold set_dump_env. repeat case_if.
    + rewrite !lookup_insert_ne by done. destruct (e !! DOTNET_DbgEnableMiniDump); [congruence|].
      destruct (e !! COMPlus_DbgEnableMiniDump); congruence.
    + destruct (e !! DOTNET_DbgEnableMiniDump); [congruence|].
      destruct (e !! COMPlus_DbgEnableMiniDump); congruence.
    + rewrite lookup_insert_ne, lookup_insert_eq by done. intros [= <-]. done.
  - exfalso. revert Ev. unfold set_dump_env. repeat case_if.
    + rewrite !lookup_insert_ne by done. destruct (e !! DOTNET_DbgEnableMiniDump); [done|].
      destruct (e !! COMPlus_DbgEnableMiniDump); done.
    + destruct (e !! DOTNET_DbgEnableMiniDump); [done|].
      destruct (e !! COMPlus_DbgEnableMiniDump); done.
    + by rewrite lookup_insert_ne, lookup_insert_eq by done.
Qed.

Lemma original_name_again e name :
  name <> Some "" -> (name = None -> e !! MINIDUMPNAME = None) ->
  original_name (set_name_env e name) = name.
Proof.
  intros Hne Hnone. unfold original_name.
  assert (set_name_env e name !! DOTNET_DbgMiniDumpName = Some datadogCrashMarker) as ->
    by (unfold set_name_env; apply lookup_insert_eq).
  assert (set_name_env e name !! COMPlus_DbgMiniDumpName = Some datadogCrashMarker) as ->
    by (unfold set_name_env; by rewrite lookup_insert_ne, lookup_insert_eq).
  rewrite is_marker_marker. rewrite is_marker_marker.
  unfold set_name_env. rewrite !lookup_insert_ne by done.
  destruct name as [v|]; [|auto].
  unfold is_empty. rewrite bool_decide_false by congruence. apply lookup_insert_eq.
Qed.

Lemma set_name_env_again e name : set_name_env (set_name_env e name) name = set_name_env e name.
Proof.
  apply map_eq. intros k. unfold set_name_env.
  destruct name as [v|]; [case_if|]; rewrite !lookup_insert; by repeat case_decide.
Qed.

(** The set-up is inherited correctly: when a process that [initLibrary] configured
    starts a child (which inherits the environment and runs [initLibrary] again), the
    child computes exactly the same environment, crash handler and dump name.  In
    particular the user's dump name survives although its variables now hold the marker,
    and a child does not take the DbgEnableMiniDump=1 its parent set for the user's
    choice.  [initLibrary] never frees a literal or fails otherwise.  The name must be
    non-empty, and no stale saved name may be present when there is none. *)
Theorem initLibrary_child_stable h e s1 :
  initLibrary h (fresh_state e) = Some s1 ->
  originalMiniDumpName s1 <> Some "" ->
  (originalMiniDumpName s1 = None -> e !! MINIDUMPNAME = None) ->
  initLibrary h (fresh_state (environ s1)) = Some s1.
Proof.
  intros Hi Hne Hnone. pose proof Hi as Hcopy. unfold initLibrary in Hi. unfold fresh_state in Hi.
  cbn [environ crashHandler originalMiniDumpName] in Hi.
  destruct (crash_tracking_disabled e) eqn:Ed; [by simplify_eq|].
  destruct (negb (dlsym_getenv h) || negb (dlsym_setenv h)) eqn:El; [by simplify_eq|].
  destruct (find_crash_handler h None) as [ch|] eqn:Ec; [|done]. cbn [mbind option_bind] in Hi.
  destruct (match ch with Some p => negb (is_empty p) | None => false end) eqn:Ep;
    simplify_eq; [|exact Hcopy].
  cbn [environ originalMiniDumpName] in *. unfold initLibrary. unfold fresh_state.
  cbn [environ crashHandler].
  assert (crash_tracking_disabled (set_name_env (set_dump_env e) (original_name (set_dump_env e)))
          = false) as ->.
  { rewrite <- Ed. unfold crash_tracking_disabled.
    by rewrite set_name_env_other, set_dump_env_other. }
  rewrite El, Ec. cbn [mbind option_bind]. rewrite Ep, set_dump_env_again, original_name_again; [|done|].
  - by rewrite set_name_env_again.
  - by rewrite set_dump_env_other.
Qed.

Definition witness_host : host :=
  mkHost false (fun p => bool_decide (p = "/opt/dd/continuousprofiler/../linux-x64/dd-dotnet"))
    false (Some "/opt/dd/continuousprofiler/wrapper.so") true true true true.

Definition witness_parent : lib_state :=
  mkLib (<[DOTNET_DbgMiniDumpName := datadogCrashMarker]>
           (<[COMPlus_DbgMiniDumpName := datadogCrashMarker]>
           (<[MINIDUMPNAME := "my.dmp"]> (<[PASSTHROUGH := "0"]>
           (<[DOTNET_DbgEnableMiniDump := "1"]> (<[COMPlus_DbgEnableMiniDump := "1"]>
           {[DOTNET_DbgMiniDumpName := "my.dmp"]}))))))
    (Some "/opt/dd/continuousprofiler/../linux-x64/dd-dotnet") (Some "my.dmp").

(** ** execve: what the crash handler is started with *)

Definition name_args (original : option string) : list string :=
  match original with Some o => ["--name"; o] | None => [] end.

(** The arguments with every [--name] option replaced; [None] when the last argument
    is a [--name] without value. *)
Fixpoint args_spec (original : option string) (argv : list string) : option (list string) :=
  match argv with
  | [] => Some []
  | a :: rest =>
      if is_name_opt a then
        match rest with
        | [] => None
        | _ :: rest => l ← args_spec original rest; Some (name_args original ++ l)
        end
      else l ← args_spec original rest; Some (a :: l)
  end.

Lemma args_spec_length original n : forall argv l,
  (length argv <= n)%nat -> args_spec original argv = Some l -> (length l <= length argv)%nat.
Proof.
  induction n as [|n IH]; intros [|a rest] l Hn Hs; cbn [args_spec length] in *;
    simplify_eq; cbn [length]; try lia.
  destruct (is_name_opt a).
  - destruct rest as [|b rest]; [done|]. simplify_option. cbn [length] in *.
    pose proof (IH rest _ ltac:(lia) H). destruct original; cbn; lia.
  - simplify_option. pose proof (IH rest _ ltac:(lia) H). cbn. lia.
Qed.

Lemma zset_app {A} (pre : list A) x suf y :
  zset (pre ++ x :: suf) (Z.of_nat (length pre)) y = Some (pre ++ y :: suf).
Proof.
  rewrite zset_in_range by (rewrite length_app; cbn; lia).
  by rewrite Nat2Z.id, insert_app_r_alt, Nat.sub_diag by lia.
Qed.

Lemma arg_at_drop argv i :
  (i <= length argv)%nat -> arg_at argv i = Some (head (drop i argv)).
Proof.
  intros Hi. unfold arg_at. destruct (decide (i < length argv)%nat).
  - by rewrite head_lookup, lookup_drop, Nat.add_0_r.
  - rewrite decide_True by lia. by rewrite drop_ge by lia.
Qed.

Lemma copy_args_ok original argv n : forall fuel idx pre suf,
  (idx <= length argv)%nat -> length (drop idx argv) = n -> (n < fuel)%nat ->
  (n < length suf)%nat ->
  copy_args fuel argv original idx (length pre) (pre ++ suf) =
    l ← args_spec original (drop idx argv);
    Some ((length pre + length l)%nat, pre ++ (Str <$> l) ++ drop (length l) suf).
Proof.
  induction (lt_wf n) as [n _ IH]. intros [|fuel] idx pre suf Hi Hn Hf Hs; [lia|].
  cbn [copy_args]. rewrite arg_at_drop by done. cbn [mbind option_bind].
  destruct (drop idx argv) as [|a rest] eqn:Ed; cbn in Hn.
  { cbn. by rewrite Nat.add_0_r. }
  assert (drop (S idx) argv = rest) as Ed1.
  { replace (S idx) with (idx + 1)%nat by lia. by rewrite <- drop_drop, Ed. }
  assert (S idx <= length argv)%nat.
  { apply (f_equal length) in Ed. rewrite length_drop in Ed. cbn in Ed. lia. }
  cbn [head args_spec]. destruct (is_name_opt a).
  - destruct rest as [|b rest].
    { (* the terminator is skipped *)
      assert (length argv = S idx) as Hlen.
      { apply (f_equal length) in Ed1. rewrite length_drop in Ed1. cbn in Ed1. lia. }
      assert (arg_at argv (idx + 2) = None) as Hout.
      { unfold arg_at. rewrite !decide_False by lia. done. }
      cbn in Hn. destruct fuel as [|fuel]; [lia|].
      destruct suf as [|x [|y suf]]; cbn in Hs; try lia.
      destruct original as [o|]; cbn [copy_args].
      - rewrite zset_app. cbn [mbind option_bind].
        replace (pre ++ Str "--name" :: y :: suf) with ((pre ++ [Str "--name"]) ++ y :: suf)
          by (by rewrite <- app_assoc).
        replace (Z.of_nat (S (length pre))) with (Z.of_nat (length (pre ++ [Str "--name"])))
          by (rewrite length_app; cbn; lia).
        rewrite zset_app. cbn [mbind option_bind]. by rewrite Hout.
      - by rewrite Hout. }
    assert (drop (idx + 2) argv = rest) as Ed2
      by (by rewrite <- drop_drop, Ed).
    assert (idx + 2 <= length argv)%nat.
    { apply (f_equal length) in Ed1. rewrite length_drop in Ed1. cbn in Ed1. lia. }
    cbn in Hn. destruct original as [o|].
    + destruct suf as [|x [|y suf]]; cbn in Hs; try lia.
      rewrite zset_app. cbn [mbind option_bind].
      replace (pre ++ Str "--name" :: y :: suf) with ((pre ++ [Str "--name"]) ++ y :: suf)
        by (by rewrite <- app_assoc).
      replace (Z.of_nat (S (length pre))) with (Z.of_nat (length (pre ++ [Str "--name"])))
        by (rewrite length_app; cbn; lia).
      rewrite zset_app. cbn [mbind option_bind].
      replace ((pre ++ [Str "--name"]) ++ Str o :: suf) with
        ((pre ++ [Str "--name"; Str o]) ++ suf) by (by rewrite <- !app_assoc).
      replace (S (S (length pre))) with (length (pre ++ [Str "--name"; Str o]))
        by (rewrite length_app; cbn; lia).
      rewrite (IH (length rest)), Ed2 by (rewrite ?Ed2; lia).
      destruct (args_spec (Some o) rest) as [l|]; [|done]. cbn.
      f_equal. f_equal; [rewrite length_app; cbn; lia|]. by rewrite <- app_assoc.
    + rewrite (IH (length rest)), Ed2 by (rewrite ?Ed2; lia).
      by destruct (args_spec None rest).
  - destruct suf as [|x suf]; cbn in Hs; [lia|].
    rewrite zset_app. cbn [mbind option_bind].
    replace (pre ++ Str a :: suf) with ((pre ++ [Str a]) ++ suf) by (by rewrite <- app_assoc).
    replace (S (length pre)) with (length (pre ++ [Str a])) by (rewrite length_app; cbn; lia).
    rewrite (IH (length rest)), Ed1 by (rewrite ?Ed1; lia).
    destruct (args_spec original rest) as [l|]; [|done]. cbn.
    f_equal. f_equal; [rewrite length_app; cbn; lia|]. by rewrite <- app_assoc.
Qed.

Lemma c_strings_app l rest : c_strings ((Str <$> l) ++ Null :: rest) = Some l.
Proof. induction l as [|a l IH]; [done|]. cbn. by rewrite IH. Qed.

Lemma build_argv_ok handler original argv :
  (a ← build_argv handler original argv; c_strings a) =
    l ← args_spec original argv; Some (handler :: "createdump" :: l).
Proof.
  unfold build_argv. replace (S (length argv) + 2)%nat with (S (S (S (length argv)))) by lia.
  cbn [replicate]. change (zset (Uninit :: ?l) 0 ?x) with (zset ([] ++ Uninit :: l) (Z.of_nat (@length slot [])) x).
  rewrite zset_app. cbn [mbind option_bind app].
  change (zset (Str handler :: Uninit :: ?l) 1 ?x)
    with (zset ([Str handler] ++ Uninit :: l) (Z.of_nat (length [Str handler])) x).
  rewrite zset_app. cbn [mbind option_bind].
  set (pre := [Str handler; Str "createdump"]).
  change ([Str handler] ++ Str "createdump" :: ?l) with (pre ++ l).
  pose proof (copy_args_ok original argv (length argv) (S (length argv)) 0 pre
    (replicate (S (length argv)) Uninit)) as Hc.
  rewrite drop_0, length_replicate in Hc. specialize (Hc ltac:(lia) eq_refl ltac:(lia) ltac:(lia)).
  change (length pre) with 2%nat in Hc. cbn [replicate] in Hc. rewrite Hc.
  destruct (args_spec original argv) as [l|] eqn:El; [|done]. cbn [mbind option_bind].
  pose proof (args_spec_length _ _ _ _ (le_n _) El) as Hl.
  change (Uninit :: replicate (length argv) Uninit) with (replicate (S (length argv)) Uninit).
  rewrite drop_replicate.
  destruct (S (length argv) - length l)%nat as [|k] eqn:Ek; [lia|]. cbn [replicate].
  replace (pre ++ (Str <$> l) ++ Uninit :: replicate k Uninit)
    with ((pre ++ (Str <$> l)) ++ Uninit :: replicate k Uninit) by (by rewrite <- app_assoc).
  replace (2 + length l)%nat with (length (pre ++ (Str <$> l)))
    by (rewrite length_app, length_fmap; done).
  rewrite zset_app. cbn [mbind option_bind].
  change (pre ++ (Str <$> l)) with (Str <$> (handler :: "createdump" :: l)).
  apply c_strings_app.
Qed.

Definition env_kept (envp : list string) : list string :=
  filter (fun v => env_removed v = false) envp.

Lemma copy_env_ok envp : forall pre suf,
  (length envp < length suf)%nat ->
  copy_env envp (length pre) (pre ++ suf) =
    Some ((length pre + length (env_kept envp))%nat,
          pre ++ (Str <$> env_kept envp) ++ drop (length (env_kept envp)) suf).
Proof.
  unfold env_kept. induction envp as [|v envp IH]; intros pre suf Hs; cbn [copy_env].
  { cbn. by rewrite Nat.add_0_r. }
  cbn in Hs. destruct (env_removed v) eqn:Ev.
  - rewrite filter_cons_False by congruence. apply IH. lia.
  - rewrite filter_cons_True by done. destruct suf as [|x suf]; [cbn in Hs; lia|].
    rewrite zset_app. cbn [mbind option_bind].
    replace (pre ++ Str v :: suf) with ((pre ++ [Str v]) ++ suf) by (by rewrite <- app_assoc).
    replace (S (length pre)) with (length (pre ++ [Str v])) by (rewrite length_app; cbn; lia).
    rewrite IH by (cbn in Hs; lia). f_equal. f_equal; [rewrite length_app; cbn; lia|].
    by rewrite <- app_assoc.
Qed.

Lemma build_envp_ok envp : (e ← build_envp envp; c_strings e) = Some (env_kept envp).
Proof.
  unfold build_envp.
  pose proof (copy_env_ok envp [] (replicate (length envp + 1) Uninit)) as Hc.
  rewrite length_replicate in Hc. specialize (Hc ltac:(lia)). cbn [length app] in Hc.
  rewrite Hc. cbn [mbind option_bind].
  assert (length (env_kept envp) <= length envp)%nat by apply length_filter.
  rewrite drop_replicate.
  destruct (length envp + 1 - length (env_kept envp))%nat as [|k] eqn:Ek; [lia|].
  cbn [replicate Nat.add].
  replace (length (env_kept envp)) with (length (Str <$> env_kept envp)) at 1
    by apply length_fmap.
  rewrite zset_app. apply c_strings_app.
Qed.

(** The crash flag after the store; a pointer left at MAP_FAILED is not caught by the
    NULL test. *)
Definition flag_crash (p : shm) : option shm :=
  match p with ShmNull => Some ShmNull | ShmFailed => None | Shm _ => Some (Shm 1) end.

(** [execve], completely: a call that is not the runtime's crash dump reaches the
    real function untouched; otherwise the crash flag is raised and the handler is
    started with "createdump" followed by the original arguments, each [--name] option
    carrying the user's dump name (or dropped when there is none), and with the
    environment less LD_PRELOAD, the profiler switch and the mini-dump switches, in the
    original order.  Both arrays fit their allocations.  The behaviour is undefined
    exactly when the shared mapping had failed or the last argument is a [--name]
    without value. *)
Theorem execve_spec s p pathname argv envp :
  execve s p pathname argv envp =
    if ShouldCallCustomCreatedump s pathname argv then
      match flag_crash p, crashHandler s, args_spec (originalMiniDumpName s) argv with
      | Some p', Some handler, Some l =>
          Some (mkExec (Some handler) (handler :: "createdump" :: l) (env_kept envp), p')
      | _, _, _ => None
      end
    else Some (mkExec pathname argv envp, p).
Proof.
  unfold execve. destruct (ShouldCallCustomCreatedump s pathname argv); [|done].
  cbn [negb]. destruct p as [| |v]; cbn -[build_argv build_envp]; try done.
  all: destruct (crashHandler s) as [handler|]; cbn -[build_argv build_envp]; [|done].
  all: pose proof (build_argv_ok handler (originalMiniDumpName s) argv) as Ha.
  all: pose proof (build_envp_ok envp) as He.
  all: destruct (build_argv handler _ argv) as [a|]; cbn -[build_envp] in *;
    [|by destruct (args_spec _ argv)].
  all: destruct (build_envp envp) as [e|]; cbn in *; [|done].
  all: rewrite Ha, He; by destruct (args_spec _ argv).
Qed.

(** ** A crash in a process that initLibrary set up *)

Lemma args_spec_no_opt original argv rest :
  Forall (fun a => is_name_opt a = false) argv ->
  args_spec original (argv ++ rest) = l ← args_spec original rest; Some (argv ++ l).
Proof.
  induction 1 as [|a argv Ha _ IH]; cbn [app args_spec].
  - by destruct (args_spec original rest).
  - rewrite Ha, IH. by destruct (args_spec original rest).
Qed.

Lemma has_crash_marker_mid argv rest b :
  Forall (fun a => is_name_opt a = false) argv ->
  has_crash_marker b (argv ++ name_opt :: datadogCrashMarker :: rest) = true.
Proof.
  intros H. revert b. induction H as [|a argv Ha _ IH]; intros b; cbn [app has_crash_marker].
  - rewrite is_marker_marker. change (is_name_opt name_opt) with true.
    by destruct (b && is_marker name_opt).
  - by destruct (b && is_marker a).
Qed.

Lemma append_length a b : String.length (a +:+ b) = (String.length a + String.length b)%nat.
Proof.
  induction a as [|c a IH]; [done|].
  change (S (String.length (a +:+ b)) = S (String.length a + String.length b)). by rewrite IH.
Qed.

Lemma substring_whole s : String.substring 0 (String.length s) s = s.
Proof. induction s as [|c s IH]; [done|]. cbn. by rewrite IH. Qed.

Lemma substring_app a b : String.substring (String.length a) (String.length b) (a +:+ b) = b.
Proof. induction a as [|c a IH]; [apply substring_whole | exact IH]. Qed.

Lemma ends_with_createdump_app dir : ends_with_createdump (dir +:+ "/createdump") = true.
Proof.
  unfold ends_with_createdump. rewrite append_length. cbn [String.length].
  rewrite (proj2 (Nat.ltb_ge _ _)) by lia. rewrite Nat.add_sub.
  apply bool_decide_true. apply (substring_app dir "/createdump").
Qed.

Lemma append_nonempty a c b : is_empty (a +:+ String c b) = false.
Proof. destruct a; by apply bool_decide_false. Qed.

Lemma newCrashHandler_nonempty h path sub p :
  newCrashHandler h path sub = Some (Some p) -> is_empty p = false.
Proof.
  unfold newCrashHandler. destruct (getFolder _ _) as [[f|f]|]; cbn; [|done..].
  intros [= <-]. repeat case_if; apply append_nonempty.
Qed.

Lemma find_crash_handler_nonempty h p :
  find_crash_handler h None = Some (Some p) -> is_empty p = false.
Proof.
  unfold find_crash_handler. destruct (libraryPath h) as [path|]; [|done].
  destruct (getSubfolder _ _) as [sub|]; [|done].
  destruct (newCrashHandler _ _ _) as [[q|]|] eqn:En; cbn; [|destruct (free sub); done..].
  destruct (free sub); cbn; [|done]. case_if; [|done]. intros [= <-].
  by eapply newCrashHandler_nonempty.
Qed.

Lemma initLibrary_handler h e s1 handler :
  initLibrary h (fresh_state e) = Some s1 -> crashHandler s1 = Some handler ->
  environ s1 = set_name_env (set_dump_env e) (originalMiniDumpName s1) /\
  originalMiniDumpName s1 = original_name (set_dump_env e).
Proof.
  unfold initLibrary, fresh_state. cbn [environ crashHandler].
  case_if; [by intros [= <-]|]. case_if; [by intros [= <-]|].
  destruct (find_crash_handler h None) as [[p|]|] eqn:Ef; cbn [mbind option_bind]; [| |done].
  - rewrite (find_crash_handler_nonempty _ _ Ef). cbn [negb]. by intros [= <-].
  - by intros [= <-].
Qed.

(** After [initLibrary] found a handler, the crash dump that the runtime requests (it
    passes the name from DbgMiniDumpName, which is then the marker) starts the handler,
    with the user's own dump name in place of the marker, whatever other options
    surround it; the flag that stops sampling is raised. *)
Theorem crash_is_redirected h e s1 handler dir before after envp v :
  initLibrary h (fresh_state e) = Some s1 -> crashHandler s1 = Some handler ->
  Forall (fun a => is_name_opt a = false) (before ++ after) ->
  environ s1 !! DOTNET_DbgMiniDumpName = Some datadogCrashMarker /\
  execve s1 (Shm v) (Some (dir +:+ "/createdump"))
    (before ++ ["--name"; datadogCrashMarker] ++ after) envp =
    Some (mkExec (Some handler)
            (handler :: "createdump" :: before ++ name_args (original_name (set_dump_env e)) ++ after)
            (env_kept envp), Shm 1).
Proof.
  intros Hi Hh [Hb Ha]%Forall_app.
  destruct (initLibrary_handler _ _ _ _ Hi Hh) as [He Ho].
  split; [rewrite He; apply lookup_insert_eq|].
  unfold execve, ShouldCallCustomCreatedump. rewrite Hh, ends_with_createdump_app. cbn [negb].
  change (["--name"; datadogCrashMarker] ++ after) with (name_opt :: datadogCrashMarker :: after).
  rewrite has_crash_marker_mid by done. cbn [negb deref mbind option_bind].
  pose proof (build_argv_ok handler (originalMiniDumpName s1)
    (before ++ name_opt :: datadogCrashMarker :: after)) as Hav.
  pose proof (build_envp_ok envp) as Hev.
  destruct (build_envp envp) as [ev|]; [|done]. cbn [mbind option_bind] in Hev.
  rewrite args_spec_no_opt in Hav by done. cbn [args_spec] in Hav.
  change (is_name_opt name_opt) with true in Hav. cbn iota in Hav.
  rewrite <- (app_nil_r after) in Hav at 2. rewrite args_spec_no_opt in Hav by done.
  cbn [args_spec mbind option_bind] in Hav. rewrite app_nil_r in Hav.
  destruct (build_argv _ _ _) as [av|]; [|done]. cbn [mbind option_bind] in *.
  rewrite Hav. cbn [mbind option_bind]. rewrite Hev. cbn [mbind option_bind]. by rewrite Ho.
Qed.

(** The copy loop steps over the terminating NULL when the last argument is a [--name]
    option: the call then reads beyond the argument array. *)
Example execve_trailing_name_overruns :
  execve witness_parent (Shm 0) (Some "/usr/share/dotnet/createdump")
    ["createdump"; "--name"; datadogCrashMarker; "--name"] [] = None.
Proof. vm_compute. reflexivity. Qed.

(** The NULL tests do not catch the MAP_FAILED value that [init] leaves when the mapping
    fails: every later query or crash dereferences it. *)
Lemma mmap_failure_dereferenced t s pathname argv envp :
  dd_inside_wrapped_functions (init false) t = None /\
  (ShouldCallCustomCreatedump s pathname argv = true ->
     execve s (init false) pathname argv envp = None).
Proof. split; [done|]. intros H. unfold execve. by rewrite H. Qed.

(** ** Counters *)

Section act_induction.
Context (P : act -> Prop).
Context (HSignal : P Signal) (HIter : forall l, Forall P l -> P (DlIteratePhdr l))
  (HOpen : forall l, Forall P l -> P (DlOpen l)) (HClose : forall l, Forall P l -> P (DlClose l))
  (HAddr : forall l, Forall P l -> P (DlAddr l))
  (HCreate : forall l, Forall P l -> P (PthreadCreate l))
  (HInit : forall l, Forall P l -> P (PthreadAttrInit l))
  (HGet : forall l, Forall P l -> P (PthreadGetattr l))
  (HSet : forall l, Forall P l -> P (PthreadSetattr l)).

Fixpoint act_nested_ind (a : act) : P a :=
  let all := fix all (l : list act) : Forall P l :=
    match l with
    | [] => Forall_nil_2 P
    | a :: l => Forall_cons_2 P a l (act_nested_ind a) (all l)
    end in
  match a with
  | Signal => HSignal
  | DlIteratePhdr l => HIter l (all l)
  | DlOpen l => HOpen l (all l)
  | DlClose l => HClose l (all l)
  | DlAddr l => HAddr l (all l)
  | PthreadCreate l => HCreate l (all l)
  | PthreadAttrInit l => HInit l (all l)
  | PthreadGetattr l => HGet l (all l)
  | PthreadSetattr l => HSet l (all l)
  end.
End act_induction.

Definition body_of (a : act) : list act :=
  match a with
  | Signal => []
  | DlIteratePhdr l | DlOpen l | DlClose l | DlAddr l | PthreadCreate l | PthreadAttrInit l
  | PthreadGetattr l | PthreadSetattr l => l
  end.

(** How deep wrapped calls are nested. *)
Fixpoint nesting (a : act) : nat :=
  let deepest l := foldr (fun a d => Nat.max (nesting a) d) O l in
  match a with
  | Signal => O
  | DlClose l => deepest l
  | DlIteratePhdr l | DlOpen l | DlAddr l | PthreadCreate l | PthreadAttrInit l
  | PthreadGetattr l | PthreadSetattr l => S (deepest l)
  end.

(** For each signal, in order: does it interrupt a counted function? *)
Fixpoint signals_inside (inside : bool) (a : act) : list bool :=
  let all i l := flat_map (signals_inside i) l in
  match a with
  | Signal => [inside]
  | DlClose l => all inside l
  | DlIteratePhdr l | DlOpen l | DlAddr l | PthreadCreate l | PthreadAttrInit l
  | PthreadGetattr l | PthreadSetattr l => all true l
  end.

Definition total (bs : list Z) : Z := foldr Z.add 0 bs.
Definition bytes_ok (bs : list Z) : Prop := length bs = 8%nat /\ Forall (fun b => 0 <= b) bs.

Lemma total_nonneg bs : Forall (fun b => 0 <= b) bs -> 0 <= total bs.
Proof. unfold total. induction 1; cbn in *; lia. Qed.

Lemma total_alter bs i d b :
  bs !! i = Some b -> total (alter (fun b => b + d) i bs) = total bs + d.
Proof.
  revert i. induction bs as [|x bs IH]; intros [|i] H; try done.
  - change (x + d + total bs = x + total bs + d). lia.
  - change (x + total (alter (fun b => b + d) i bs) = x + total bs + d).
    rewrite (IH i H). lia.
Qed.

Lemma total_bound bs i b :
  Forall (fun b => 0 <= b) bs -> bs !! i = Some b -> 0 <= b <= total bs.
Proof.
  intros Hb. revert i. induction Hb as [|x bs Hx Hbs IH]; intros [|i] H; try done;
    change (total (x :: bs)) with (x + total bs).
  - injection H as <-. pose proof (total_nonneg bs Hbs). lia.
  - specialize (IH i H). lia.
Qed.

Lemma counter_value_pos bs :
  Forall (fun b => 0 <= b) bs -> 0 <= counter_value bs /\ (counter_value bs = 0 <-> total bs = 0).
Proof.
  induction 1 as [|b bs Hb Hbs [IH IH0]]; [done|]. cbn -[Z.mul].
  fold (counter_value bs) (total bs). pose proof (total_nonneg bs Hbs). lia.
Qed.

Lemma counter_value_lt bs :
  Forall (fun b => 0 <= b < 256) bs -> counter_value bs < 256 ^ Z.of_nat (length bs).
Proof.
  induction 1 as [|b bs Hb _ IH]; [cbn; lia|]. cbn [counter_value foldr length].
  fold (counter_value bs). rewrite Nat2Z.inj_succ, Z.pow_succ_r by lia. lia.
Qed.

Lemma bytes_small bs : bytes_ok bs -> total bs <= 255 -> Forall (fun b => 0 <= b < 256) bs.
Proof.
  intros [_ Hb] Ht. apply Forall_lookup. intros i b Hi.
  pose proof (total_bound bs i b Hb Hi). lia.
Qed.

(** What a signal handler reads: zero exactly outside of every counted function. *)
Lemma inside_iff p t :
  p = ShmNull \/ p = Shm 0 -> bytes_ok (bytes t) -> total (bytes t) <= 255 ->
  exists c, dd_inside_wrapped_functions p t = Some c /\ (c = 0 <-> total (bytes t) = 0).
Proof.
  intros Hp Hb Ht. pose proof (counter_value_lt _ (bytes_small _ Hb Ht)) as Hl.
  destruct Hb as [Hlen Hnn]. rewrite Hlen in Hl. change (256 ^ Z.of_nat 8) with (2 ^ 64) in Hl.
  destruct (counter_value_pos _ Hnn) as [Hge H0].
  exists (counter_value (bytes t)). split; [|done].
  destruct Hp as [-> | ->]; cbn -[wrap counter_value]; rewrite Z.add_0_r;
    by rewrite wrap_small by (unfold in_u; lia).
Qed.

Lemma bump_up f t :
  bytes_ok (bytes t) -> total (bytes t) < 255 ->
  bytes_ok (bytes (bump f 1 t)) /\ total (bytes (bump f 1 t)) = total (bytes t) + 1 /\
  forall n o, bytes (bump f (-1) (mkThr (bytes (bump f 1 t)) n o)) = bytes t.
Proof.
  intros Hok Ht. pose proof Hok as [Hlen Hb].
  assert (exists b, bytes t !! fid f = Some b) as [b Hf].
  { apply lookup_lt_is_Some. rewrite Hlen. destruct f; cbn; lia. }
  pose proof (total_bound _ _ _ Hb Hf) as Hbb.
  assert (bytes (bump f 1 t) = alter (fun b => b + 1) (fid f) (bytes t)) as E.
  { cbn. apply list_alter_ext; [|done]. intros x Hx. simplify_eq.
    apply wrap_small. unfold in_u. lia. }
  split_and!.
  - split; rewrite E; [by rewrite length_alter|].
    apply Forall_alter; [done|]. intros x Hx Hx0. lia.
  - rewrite E. by rewrite (total_alter _ _ 1 b Hf).
  - intros n o. cbn. rewrite list_alter_alter_eq.
    rewrite (list_alter_ext _ id _ (bytes t)); [by apply list_alter_id| |done].
    intros x Hx. assert (x = b) as -> by congruence. cbn -[wrap].
    rewrite (wrap_small 8 (b + 1)) by (unfold in_u; lia).
    rewrite wrap_small by (unfold in_u; lia). unfold id. lia.
Qed.

(** What one action does to a thread whose counters are in range. *)
Definition act_ok (hook : bool) (p : shm) (a : act) : Prop :=
  forall t, bytes_ok (bytes t) -> total (bytes t) + Z.of_nat (nesting a) <= 255 ->
  let t' := run_act hook p a t in
  bytes t' = bytes t /\
  exists obs, observed t' = observed t ++ obs /\
    Forall2 (fun o (b : bool) => exists c, o = Some c /\ (c = 0 <-> b = false)) obs
      (signals_inside (negb (total (bytes t) =? 0)) a).

Definition deepest (l : list act) : nat := foldr (fun a d => Nat.max (nesting a) d) O l.

Lemma body_ok hook p l : Forall (act_ok hook p) l ->
  forall t, bytes_ok (bytes t) -> total (bytes t) + Z.of_nat (deepest l) <= 255 ->
  let t' := fold_left (fun t a => run_act hook p a t) l t in
  bytes t' = bytes t /\
  exists obs, observed t' = observed t ++ obs /\
    Forall2 (fun o (b : bool) => exists c, o = Some c /\ (c = 0 <-> b = false)) obs
      (flat_map (signals_inside (negb (total (bytes t) =? 0))) l).
Proof.
  induction 1 as [|a l Ha _ IH]; intros t Hb Ht; cbn.
  { split; [done|]. exists []. by rewrite app_nil_r. }
  cbn in Ht. fold (deepest l) in Ht.
  destruct (Ha t Hb ltac:(lia)) as (E1 & obs1 & O1 & F1).
  destruct (IH (run_act hook p a t)) as (E2 & obs2 & O2 & F2); [by rewrite E1|rewrite E1; lia|].
  rewrite E2, E1. split; [done|]. exists (obs1 ++ obs2).
  rewrite O2, O1, app_assoc. split; [done|]. apply Forall2_app; [done|]. by rewrite <- E1.
Qed.

Lemma counted_act_ok hook p f l (post : thr -> thr) :
  (forall t, bytes (post t) = bytes t /\ observed (post t) = observed t) ->
  Forall (act_ok hook p) l ->
  forall t, bytes_ok (bytes t) -> total (bytes t) + Z.of_nat (S (deepest l)) <= 255 ->
  let t' := counted f (fun t => post (fold_left (fun t a => run_act hook p a t) l t)) t in
  bytes t' = bytes t /\
  exists obs, observed t' = observed t ++ obs /\
    Forall2 (fun o (b : bool) => exists c, o = Some c /\ (c = 0 <-> b = false)) obs
      (flat_map (signals_inside true) l).
Proof.
  intros Hpost Hl t Hb Ht t'.
  destruct (bump_up f t Hb ltac:(lia)) as (Hb1 & Ht1 & Hdown).
  destruct (body_ok hook p l Hl (bump f 1 t) Hb1 ltac:(lia)) as (E & obs & O & F).
  rewrite Ht1 in F. pose proof (total_nonneg _ (proj2 Hb)).
  rewrite (proj2 (Z.eqb_neq _ _)) in F by lia. cbn in F.
  subst t'. unfold counted. set (t2 := fold_left _ l _) in *.
  destruct (Hpost t2) as [Hp1 Hp2]. split.
  - rewrite <- (Hdown (notified (post t2)) (observed (post t2))). rewrite <- E, <- Hp1.
    by destruct (post t2).
  - exists obs. split; [|done]. cbn. by rewrite Hp2, O.
Qed.

Lemma run_act_ok hook p a : p = ShmNull \/ p = Shm 0 -> act_ok hook p a.
Proof.
  intros Hp. induction a as [|l IH|l IH|l IH|l IH|l IH|l IH|l IH|l IH] using act_nested_ind;
    intros t Hb Ht.
  - cbn in *. destruct (inside_iff p t Hp Hb ltac:(lia)) as (c & -> & Hc).
    split; [done|]. exists [Some c]. split; [done|]. constructor; [|done].
    exists c. split; [done|]. rewrite Hc.
    destruct (Z.eqb_spec (total (bytes t)) 0); cbn; naive_solver.
  - apply (counted_act_ok hook p ENTERED_DL_ITERATE_PHDR l (fun t => t)); auto.
  - apply (counted_act_ok hook p ENTERED_DL_OPEN l (notify hook)); auto.
    intros t'. unfold notify. by destruct hook.
  - destruct (body_ok hook p l IH t Hb Ht) as (E & obs & O & F).
    assert (forall t', bytes (notify hook t') = bytes t' /\ observed (notify hook t') = observed t')
      as Hn by (intros t'; unfold notify; by destruct hook).
    split; [by rewrite <- E; apply Hn|]. exists obs. split; [|done].
    rewrite <- O. apply Hn.
  - apply (counted_act_ok hook p ENTERED_DL_ADDR l (fun t => t)); auto.
  - apply (counted_act_ok hook p ENTERED_PTHREAD_CREATE l (fun t => t)); auto.
  - apply (counted_act_ok hook p ENTERED_PTHREAD_ATTR_INIT l (fun t => t)); auto.
  - apply (counted_act_ok hook p ENTERED_PTHREAD_GETATTR_DEFAULT_NP l (fun t => t)); auto.
  - apply (counted_act_ok hook p ENTERED_PTHREAD_SETATTR_DEFAULT_NP l (fun t => t)); auto.
Qed.

Definition new_thread : thr := mkThr (replicate 8 0) 0 [].

(** C33: As long as the process is not crashing (the shared flag is absent or 0) and wrapped
    calls are nested at most 255 deep, the range of the byte counters: whatever nest of the
    wrapped loader and pthread functions a thread calls ([dl_iterate_phdr], [dlopen],
    [dlclose], [dladdr], [pthread_create] and the three on thread attributes; the real
    functions may call wrapped functions again through callbacks and constructors), the
    counters are back at zero when the outermost call returns, and every signal that arrives
    meanwhile reads a non-zero value exactly when it interrupts one of the counted
    functions, which are all of these but [dlclose]. *)
Theorem signals_see_wrapped_calls hook p a :
  p = ShmNull \/ p = Shm 0 -> (nesting a <= 255)%nat ->
  let t := run_act hook p a new_thread in
  bytes t = bytes new_thread /\
  Forall2 (fun o (b : bool) => exists c, o = Some c /\ (c = 0 <-> b = false))
    (observed t) (signals_inside false a).
Proof.
  intros Hp Hn. destruct (run_act_ok hook p a Hp new_thread) as (E & obs & O & F).
  - split; [done|]. repeat constructor; lia.
  - cbn. lia.
  - split; [done|]. by rewrite O.
Qed.

Definition witness_act : act :=
  DlClose [Signal;
           DlOpen [DlIteratePhdr [Signal]; PthreadCreate [PthreadAttrInit []; Signal]];
           Signal].

Lemma signals_see_wrapped_calls_witness :
  bytes (run_act true (Shm 0) witness_act new_thread) = replicate 8 0 /\
  signals_inside false witness_act = [false; true; true; false] /\
  Forall2 (fun o (b : bool) => exists c, o = Some c /\ (c = 0 <-> b = false))
    (observed (run_act true (Shm 0) witness_act new_thread)) [false; true; true; false].
Proof.
  destruct (signals_see_wrapped_calls true (Shm 0) witness_act) as [H1 H2].
  - by right.
  - cbn. lia.
  - split_and!; [exact H1 | reflexivity | exact H2].
Defined.

(** ** Thread creation *)

(** The wrapped thread runs the caller's function on the caller's argument, and its
    block is released; with a failed creation the block is never released. *)
Lemma pthread_create_ok real rc entry arg t h apply_ hook :
  bytes_ok (bytes t) -> total (bytes t) < 255 -> blocks h !! next_block h = None ->
  (forall t, bytes (real t) = bytes t) ->
  exists t' h' b, pthread_create true real rc entry arg t h = Some (t', h', rc, b) /\
    bytes t' = bytes t /\
    (exists h'', dd_pthread_entry apply_ hook b h' = Some (h'', apply_ entry arg) /\
       blocks h'' = blocks h) /\
    (rc <> 0 -> blocks h' !! b = Some (mkArg entry arg) /\ blocks h' <> blocks h).
Proof.
  intros Hb Ht Hf Hr. destruct (bump_up ENTERED_PTHREAD_CREATE t Hb Ht) as (_ & _ & Hd).
  eexists _, _, _. split; [reflexivity|]. split.
  { unfold pthread_create_counted, counted. cbn -[wrap] in *. rewrite Hr. apply (Hd 0%nat []). }
  split.
  - eexists. unfold dd_pthread_entry. cbn. rewrite lookup_insert_eq. cbn. split; [done|].
    cbn. by apply delete_insert_id.
  - intros _. cbn. rewrite lookup_insert_eq. split; [done|]. intros E.
    by rewrite <- E, lookup_insert_eq in Hf.
Qed.

(** ** Signal masks *)

(** What the kernel does: it adds the handler's mask and the signal itself while the
    handler runs, and applies a mask change. *)
Definition enter_handler (blocked : gset Z) (signum : Z) (act : sigaction_t) : gset Z :=
  blocked ∪ sa_mask act ∪ {[signum]}.

Definition apply_sigmask (blocked : gset Z) (how : Z) (set : option (gset Z)) : gset Z :=
  match set with
  | None => blocked
  | Some s => if how =? SIG_BLOCK then blocked ∪ s
              else if how =? SIG_UNBLOCK then blocked ∖ s else s
  end.

(** A SIGSEGV handler installed through the wrapper always runs with SIGPROF and
    SIGUSR1 blocked, whatever mask the runtime asked for and without losing any of it;
    and when the runtime leaves the handler by unblocking SIGSEGV (it never returns from
    it) the profiler's signals are deliverable again: a thread that had neither signal
    nor the runtime's mask blocked gets back exactly the mask it had.  Other signals and
    other mask changes are passed through. *)
Theorem sigsegv_masks blocked act :
  SIGPROF ∉ blocked -> SIGUSR1 ∉ blocked -> SIGSEGV ∉ blocked ->
  (exists act', sigaction SIGSEGV (Some act) = (SIGSEGV, Some act') /\
     sa_handler act' = sa_handler act /\ sa_mask act ⊆ sa_mask act' /\
     let in_handler := enter_handler blocked SIGSEGV act' in
     SIGPROF ∈ in_handler /\ SIGUSR1 ∈ in_handler /\
     let '(how, set) := pthread_sigmask SIG_UNBLOCK (Some {[SIGSEGV]}) in
     let after := apply_sigmask in_handler how set in
     SIGPROF ∉ after /\ SIGUSR1 ∉ after /\ SIGSEGV ∉ after /\
     (sa_mask act = ∅ -> after = blocked)) /\
  (forall signum a, signum <> SIGSEGV -> sigaction signum a = (signum, a)) /\
  (forall how set, how <> SIG_UNBLOCK -> pthread_sigmask how set = (how, set)) /\
  (forall s, SIGSEGV ∉ s -> pthread_sigmask SIG_UNBLOCK (Some s) = (SIG_UNBLOCK, Some s)).
Proof.
  intros Hp Hu Hs. split; [|split_and!].
  - eexists. split; [reflexivity|]. split; [done|]. split; [cbn; set_solver|].
    cbn [sa_mask sa_handler]. unfold enter_handler. cbn [sa_mask].
    split; [set_solver|]. split; [set_solver|].
    unfold pthread_sigmask. rewrite bool_decide_true by set_solver. cbn -[union].
    split_and!; [set_solver..|]. intros ->. set_solver.
  - intros signum [a|] Hne; [|done]. unfold sigaction. by rewrite (proj2 (Z.eqb_neq _ _) Hne).
  - intros how [s|] Hne; [|done]. unfold pthread_sigmask. by rewrite (proj2 (Z.eqb_neq _ _) Hne).
  - intros s Hns. unfold pthread_sigmask. by rewrite bool_decide_false, andb_false_r.
Qed.
