(* ===== verification/ManagedThreadList.v ===== *)
(** * The list of managed threads

    Model of [ManagedThreadList.cpp]: the vector of threads the samplers walk, its two
    indexes (by CLR thread id and by OS thread id), the iterators of the samplers and
    the thread counts.  Every operation runs under the list's recursive mutex, so an
    execution is a sequence of operations.

    [ManagedThreadInfo] objects are shared between the vector, the indexes and the
    callers: they live in a store and are named by their address. *)
From stdpp Require Import base gmap list strings.
From S2P Require Import Prelude.

Record ManagedThreadInfo := mkInfo {
  _clrThreadId : Z;
  _osThreadId : Z;
  _osThreadHandle : Z;
  _threadName : string
}.

Definition addr := nat.
Definition INVALID_HANDLE_VALUE : Z := -1.

(** A thread that can be sampled. *)
Definition has_handle (t : ManagedThreadInfo) : bool :=
  negb ((_osThreadHandle t =? 0) || (_osThreadHandle t =? INVALID_HANDLE_VALUE)).

Record ManagedThreadList := mkList {
  store : gmap addr ManagedThreadInfo;
  next_addr : addr;
  _threads : list addr;
  _lookupByClrThreadId : gmap Z addr;
  _lookupByOsThreadId : gmap Z addr;
  _iterators : list Z;
  _cachedItemsSize : Z;
  _highCount : Z;
  _lowCount : Z
}.

Definition new_list : ManagedThreadList := mkList ∅ 0%nat [] ∅ ∅ [] 0 0 0.

(** [GetMemorySize] of a thread depends on string capacities: a parameter. *)
Section operations.
Context (GetMemorySize : ManagedThreadInfo -> Z).

Definition count (s : ManagedThreadList) : Z := u32 (zlen (_threads s)).

Definition FindByClrId (s : ManagedThreadList) (clrThreadId : Z) : option addr :=
  match _threads s with
  | [] => None
  | _ => _lookupByClrThreadId s !! clrThreadId
  end.

(** [std::make_shared<ManagedThreadInfo>(clrThreadId)]. *)
Definition make_info (s : ManagedThreadList) (clrThreadId : Z) : ManagedThreadList * addr :=
  (mkList (<[next_addr s := mkInfo clrThreadId 0 0 ""]> (store s)) (S (next_addr s)) (_threads s)
     (_lookupByClrThreadId s) (_lookupByOsThreadId s) (_iterators s) (_cachedItemsSize s)
     (_highCount s) (_lowCount s), next_addr s).

Definition item_size (s : ManagedThreadList) (a : addr) : Z :=
  default 0 (GetMemorySize <$> store s !! a).

Definition GetOrCreate (s : ManagedThreadList) (clrThreadId : Z) : ManagedThreadList * addr :=
  match FindByClrId s clrThreadId with
  | Some a => (s, a)
  | None =>
      let '(s, a) := make_info s clrThreadId in
      let threads := _threads s ++ [a] in
      let currentCount := zlen threads in
      (mkList (store s) (next_addr s) threads (<[clrThreadId := a]> (_lookupByClrThreadId s))
         (_lookupByOsThreadId s) (_iterators s) (u64 (_cachedItemsSize s + item_size s a))
         (if _highCount s <=? currentCount then u32 currentCount else _highCount s) (_lowCount s), a)
  end.

(** [threadCount] is the size after the removal. *)
Definition update_iterator (removalPos threadCount pos : Z) : Z :=
  let pos := if removalPos <? pos then u32 (pos - 1) else pos in
  if threadCount <=? pos then 0 else pos.

Definition UpdateIterators (s : ManagedThreadList) (removalPos : Z) : ManagedThreadList :=
  mkList (store s) (next_addr s) (_threads s) (_lookupByClrThreadId s) (_lookupByOsThreadId s)
    (update_iterator removalPos (zlen (_threads s)) <$> _iterators s) (_cachedItemsSize s)
    (_highCount s) (_lowCount s).

(** The search loop: position and address of the first thread with this id. *)
Fixpoint find_thread (m : gmap addr ManagedThreadInfo) (clrThreadId pos : Z) (l : list addr)
    : option (Z * addr) :=
  match l with
  | [] => None
  | a :: l =>
      if match m !! a with Some t => _clrThreadId t =? clrThreadId | None => false end
      then Some (pos, a)
      else find_thread m clrThreadId (u32 (pos + 1)) l
  end.

Definition UnregisterThread (s : ManagedThreadList) (clrThreadId : Z)
    : ManagedThreadList * option addr :=
  match find_thread (store s) clrThreadId 0 (_threads s) with
  | None => (s, None)
  | Some (pos, a) =>
      let os := default 0 (_osThreadId <$> store s !! a) in
      let clr := default 0 (_clrThreadId <$> store s !! a) in
      let s := mkList (store s) (next_addr s) (delete (Z.to_nat pos) (_threads s))
                 (delete clr (_lookupByClrThreadId s)) (delete os (_lookupByOsThreadId s))
                 (_iterators s) (u64 (_cachedItemsSize s - item_size s a)) (_highCount s)
                 (_lowCount s) in
      let s := UpdateIterators s pos in
      let low := if _lowCount s =? 0 then count s else u32 (_lowCount s - 1) in
      (mkList (store s) (next_addr s) (_threads s) (_lookupByClrThreadId s)
         (_lookupByOsThreadId s) (_iterators s) (_cachedItemsSize s) (_highCount s) low, Some a)
  end.

Definition update_info (s : ManagedThreadList) (a : addr)
    (f : ManagedThreadInfo -> ManagedThreadInfo) : ManagedThreadList :=
  mkList (alter f a (store s)) (next_addr s) (_threads s) (_lookupByClrThreadId s)
    (_lookupByOsThreadId s) (_iterators s) (_cachedItemsSize s) (_highCount s) (_lowCount s).

Definition SetThreadOsInfo (s : ManagedThreadList) (clrThreadId osThreadId osThreadHandle : Z)
    : ManagedThreadList :=
  let '(s, a) := GetOrCreate s clrThreadId in
  let s := update_info s a (fun t => mkInfo (_clrThreadId t) osThreadId osThreadHandle (_threadName t)) in
  mkList (store s) (next_addr s) (_threads s) (_lookupByClrThreadId s)
    (<[osThreadId := a]> (_lookupByOsThreadId s)) (_iterators s) (_cachedItemsSize s)
    (_highCount s) (_lowCount s).

Definition SetThreadName (s : ManagedThreadList) (clrThreadId : Z) (threadName : string)
    : ManagedThreadList :=
  let '(s, a) := GetOrCreate s clrThreadId in
  update_info s a (fun t => mkInfo (_clrThreadId t) (_osThreadId t) (_osThreadHandle t) threadName).

Definition GetHighCountAndReset (s : ManagedThreadList) : ManagedThreadList * Z :=
  (mkList (store s) (next_addr s) (_threads s) (_lookupByClrThreadId s) (_lookupByOsThreadId s)
     (_iterators s) (_cachedItemsSize s) (count s) (_lowCount s), _highCount s).

Definition GetLowCountAndReset (s : ManagedThreadList) : ManagedThreadList * Z :=
  (mkList (store s) (next_addr s) (_threads s) (_lookupByClrThreadId s) (_lookupByOsThreadId s)
     (_iterators s) (_cachedItemsSize s) (_highCount s) (count s),
   if _lowCount s =? 0 then count s else _lowCount s).

Definition set_iterators (s : ManagedThreadList) (its : list Z) : ManagedThreadList :=
  mkList (store s) (next_addr s) (_threads s) (_lookupByClrThreadId s) (_lookupByOsThreadId s)
    its (_cachedItemsSize s) (_highCount s) (_lowCount s).

Definition CreateIterator (s : ManagedThreadList) : ManagedThreadList * Z :=
  (set_iterators s (_iterators s ++ [0]), u32 (zlen (_iterators s))).

Definition valid_at (s : ManagedThreadList) (pos : Z) : bool :=
  match zget (_threads s) pos with
  | Some a => match store s !! a with Some t => has_handle t | None => false end
  | None => false
  end.

(** The [do ... while] loop; [None]: out of fuel or outside the vector. *)
Fixpoint loop_next (fuel : nat) (s : ManagedThreadList) (startPos pos : Z) : option (addr * Z) :=
  match fuel with
  | O => None
  | S fuel =>
      pInfo ← zget (_threads s) pos;
      let valid := valid_at s pos in
      let pos := u32 (pos + 1) mod zlen (_threads s) in
      if negb (startPos =? pos) && negb valid then loop_next fuel s startPos pos
      else Some (pInfo, pos)
  end.

Definition LoopNext (s : ManagedThreadList) (iterator : Z)
    : option (ManagedThreadList * option addr) :=
  if zlen (_threads s) =? 0 then Some (s, None)
  else if zlen (_iterators s) <=? iterator then Some (s, None)
  else
    startPos ← zget (_iterators s) iterator;
    '(pInfo, pos) ← loop_next (length (_threads s)) s startPos startPos;
    its ← zset (_iterators s) iterator pos;
    Some (set_iterators s its, if startPos =? pos then None else Some pInfo).

(** [current] is what [GetCurrentThreadID] gives: a failure, or the thread id. *)
Definition TryGetCurrentThreadInfo (s : ManagedThreadList) (current : option Z) : option addr :=
  match current with
  | None => None
  | Some clrThreadId => if clrThreadId =? 0 then None else FindByClrId s clrThreadId
  end.

Definition TryGetThreadInfo (s : ManagedThreadList) (osThreadId : Z) : option addr :=
  match _threads s with
  | [] => None
  | _ => _lookupByOsThreadId s !! osThreadId
  end.

Definition RegisterThread (s : ManagedThreadList) (a : addr) : ManagedThreadList * bool :=
  let clr := default 0 (_clrThreadId <$> store s !! a) in
  match _lookupByClrThreadId s !! clr with
  | Some _ => (s, false)
  | None =>
      (mkList (store s) (next_addr s) (_threads s ++ [a]) (<[clr := a]> (_lookupByClrThreadId s))
         (_lookupByOsThreadId s) (_iterators s) (u64 (_cachedItemsSize s + item_size s a))
         (_highCount s) (_lowCount s), true)
  end.

Definition ForEach {A} (callback : A -> addr -> A) (s : ManagedThreadList) (x : A) : A :=
  fold_left callback (_threads s) x.

(** ** Operations as data, and runs *)

Inductive op :=
| OpGetOrCreate (clr : Z)
| OpUnregister (clr : Z)
| OpSetOsInfo (clr os h : Z)
| OpSetName (clr : Z) (name : string)
| OpHigh | OpLow
| OpCreateIterator
| OpLoopNext (it : nat)
| OpMake (clr : Z)             (* a ManagedThreadInfo built by a caller *)
| OpRegister (a : addr).

Definition step (s : ManagedThreadList) (o : op) : option ManagedThreadList :=
  match o with
  | OpGetOrCreate clr => Some (GetOrCreate s clr).1
  | OpUnregister clr => Some (UnregisterThread s clr).1
  | OpSetOsInfo clr os h => Some (SetThreadOsInfo s clr os h)
  | OpSetName clr n => Some (SetThreadName s clr n)
  | OpHigh => Some (GetHighCountAndReset s).1
  | OpLow => Some (GetLowCountAndReset s).1
  | OpCreateIterator => Some (CreateIterator s).1
  | OpLoopNext it => fst <$> LoopNext s (Z.of_nat it)
  | OpMake clr => Some (make_info s clr).1
  | OpRegister a => if bool_decide (is_Some (store s !! a)) then Some (RegisterThread s a).1 else Some s
  end.

Fixpoint run (s : ManagedThreadList) (os : list op) : option ManagedThreadList :=
  match os with
  | [] => Some s
  | o :: os => s ← step s o; run s os
  end.

(** ** Invariant *)

Definition clr_of (s : ManagedThreadList) (a : addr) : option Z := _clrThreadId <$> store s !! a.

Record wf (s : ManagedThreadList) : Prop := {
  wf_store : forall a, a ∈ _threads s -> is_Some (store s !! a);
  wf_alloc : forall a, is_Some (store s !! a) -> (a < next_addr s)%nat;
  wf_lookup : forall clr a, _lookupByClrThreadId s !! clr = Some a <->
                a ∈ _threads s /\ clr_of s a = Some clr;
  wf_nodup : NoDup (_threads s);
  wf_its : Forall (fun p => 0 <= p < Z.max 1 (zlen (_threads s))) (_iterators s)
}.

Lemma FindByClrId_wf s clr : wf s -> FindByClrId s clr = _lookupByClrThreadId s !! clr.
Proof.
  intros W. unfold FindByClrId. destruct (_threads s) as [|a l] eqn:E; [|done].
  destruct (_lookupByClrThreadId s !! clr) as [a|] eqn:El; [|done].
  apply (wf_lookup _ W) in El as [Hin _]. rewrite E in Hin. set_solver.
Qed.

Lemma new_list_wf : wf new_list.
Proof.
  split; cbn; try (by constructor); try set_solver.
  - intros a [t H]. by rewrite lookup_empty in H.
Qed.

Lemma make_info_wf s clr : wf s -> wf (make_info s clr).1.
Proof.
  intros W. assert (store s !! next_addr s = None) as Hf.
  { apply eq_None_not_Some. intros H%(wf_alloc _ W). lia. }
  split; cbn; try apply W.
  - intros a Ha. apply lookup_insert_is_Some'. right. by apply (wf_store _ W).
  - intros a [->|H]%lookup_insert_is_Some'; [lia|]. apply (wf_alloc _ W) in H. lia.
  - intros c a. rewrite (wf_lookup _ W). unfold clr_of. cbn.
    split; intros [Hin Hc]; split; auto; rewrite <- Hc; f_equal;
      apply (wf_store _ W) in Hin as [t Ht]; [|symmetry];
      rewrite lookup_insert_ne; [done|congruence|done|congruence].
Qed.

(** Appending a thread whose CLR id is not in the list yet. *)
Lemma append_wf s a clr its os cs hi lo :
  wf s -> clr_of s a = Some clr -> _lookupByClrThreadId s !! clr = None ->
  its = _iterators s ->
  wf (mkList (store s) (next_addr s) (_threads s ++ [a]) (<[clr := a]> (_lookupByClrThreadId s))
        os its cs hi lo).
Proof.
  intros W Hc Hn ->. split; cbn.
  - intros b [Hb|Hb]%elem_of_app; [by apply W|]. apply list_elem_of_singleton in Hb as ->.
    unfold clr_of in Hc. destruct (store s !! a); [eauto|done].
  - apply W.
  - intros c b. unfold clr_of in *. cbn. rewrite elem_of_app, list_elem_of_singleton.
    rewrite lookup_insert_Some, (wf_lookup _ W). unfold clr_of. split.
    + intros [[-> ->]|[Hne [Hb Hcb]]]; tauto.
    + intros [[Hb | ->] Hcb].
      * right. split; [|done]. intros ->.
        assert (_lookupByClrThreadId s !! c = Some b) by (by apply (wf_lookup _ W)). congruence.
      * left. split; congruence.
  - apply NoDup_app. split_and!; [apply W| |apply NoDup_singleton].
    intros b Hb Hs. apply list_elem_of_singleton in Hs as ->.
    assert (_lookupByClrThreadId s !! clr = Some a) by (by apply (wf_lookup _ W)). congruence.
  - eapply Forall_impl; [apply (wf_its _ W)|]. cbn. intros p. rewrite length_app. cbn. lia.
Qed.

Lemma GetOrCreate_wf s clr : wf s ->
  let '(s', a) := GetOrCreate s clr in
  wf s' /\ a ∈ _threads s' /\ clr_of s' a = Some clr /\
  (_lookupByClrThreadId s !! clr = Some a \/
   _lookupByClrThreadId s !! clr = None /\ _threads s' = _threads s ++ [a] /\ a = next_addr s).
Proof.
  intros W. unfold GetOrCreate. rewrite FindByClrId_wf by done.
  destruct (_lookupByClrThreadId s !! clr) as [a|] eqn:El.
  { apply (wf_lookup _ W) in El as H. split; [done|]. tauto. }
  pose proof (make_info_wf s clr W) as W1. cbn in *.
  assert (clr_of (make_info s clr).1 (next_addr s) = Some clr) as Hc
    by (unfold clr_of; cbn; by rewrite lookup_insert_eq).
  split_and!.
  - by apply (append_wf _ _ _ _ _ _ _ _ W1 Hc).
  - set_solver.
  - exact Hc.
  - right. done.
Qed.

Lemma update_info_wf s a f :
  wf s -> (forall t, _clrThreadId (f t) = _clrThreadId t) -> wf (update_info s a f).
Proof.
  intros W Hf. split; cbn; try apply W.
  - intros b Hb. rewrite lookup_alter_is_Some. by apply W.
  - intros b. rewrite lookup_alter_is_Some. apply W.
  - intros c b. rewrite (wf_lookup _ W). unfold clr_of. cbn.
    destruct (decide (a = b)) as [->|]; [rewrite lookup_alter_eq | by rewrite lookup_alter_ne].
    destruct (store s !! b); cbn; [by rewrite Hf|done].
Qed.

Lemma set_os_lookup_wf s os :
  wf s -> wf (mkList (store s) (next_addr s) (_threads s) (_lookupByClrThreadId s) os
                (_iterators s) (_cachedItemsSize s) (_highCount s) (_lowCount s)).
Proof. intros [H1 H2 H3 H4 H5]. by split. Qed.

Lemma set_counts_wf s hi lo :
  wf s -> wf (mkList (store s) (next_addr s) (_threads s) (_lookupByClrThreadId s)
                (_lookupByOsThreadId s) (_iterators s) (_cachedItemsSize s) hi lo).
Proof. intros [H1 H2 H3 H4 H5]. by split. Qed.

Lemma set_iterators_wf s its :
  wf s -> Forall (fun p => 0 <= p < Z.max 1 (zlen (_threads s))) its -> wf (set_iterators s its).
Proof. intros [H1 H2 H3 H4 H5] H. by split. Qed.

(** ** Removal *)

Lemma find_thread_spec m clr l : forall p,
  0 <= p -> p + zlen l < 2 ^ 32 ->
  match find_thread m clr p l with
  | Some (q, a) => exists i, q = p + Z.of_nat i /\ l !! i = Some a /\
                     _clrThreadId <$> m !! a = Some clr
  | None => forall a, a ∈ l -> _clrThreadId <$> m !! a <> Some clr
  end.
Proof.
  induction l as [|a l IH]; intros p Hp Hb; cbn [find_thread]; [set_solver|].
  cbn [length] in Hb.
  destruct (match m !! a with Some t => _clrThreadId t =? clr | None => false end) eqn:E.
  - exists 0%nat. split; [lia|]. split; [done|].
    destruct (m !! a); [|done]. bool_facts. cbn. by subst.
  - rewrite wrap_small by (unfold in_u; lia). specialize (IH (p + 1) ltac:(lia) ltac:(lia)).
    destruct (find_thread m clr (p + 1) l) as [[q b]|].
    + destruct IH as (i & -> & Hi & Hc). exists (S i). split; [lia|]. done.
    + intros b [->|Hb']%elem_of_cons; [|by apply IH].
      destruct (m !! a); [|done]. bool_facts. cbn. congruence.
Qed.

Lemma delete_elem (l : list addr) i a x :
  NoDup l -> l !! i = Some a -> x ∈ delete i l <-> x ∈ l /\ x <> a.
Proof.
  intros Hn Hi. pose proof (delete_Permutation l i a Hi) as Hp.
  rewrite Hp in Hn. apply NoDup_cons in Hn as [Hna _].
  assert (x ∈ l <-> x = a \/ x ∈ delete i l) as -> by (by rewrite Hp at 1; rewrite elem_of_cons).
  split; [|naive_solver]. intros H. split; [tauto|]. intros ->. done.
Qed.

Lemma update_iterator_range r n p :
  0 <= n < 2 ^ 32 -> 0 <= r -> 0 <= p < 2 ^ 32 ->
  0 <= update_iterator r n p < Z.max 1 n.
Proof.
  intros Hn Hr Hp. unfold update_iterator.
  destruct (Z.ltb_spec r p); [rewrite wrap_small by (unfold in_u; lia)|]; case_if; bool_facts; lia.
Qed.

(** What [UnregisterThread] does to a well-formed list. *)
Lemma UnregisterThread_ok s clr : wf s -> zlen (_threads s) < 2 ^ 32 ->
  let '(s', r) := UnregisterThread s clr in
  wf s' /\ r = _lookupByClrThreadId s !! clr /\
  match r with
  | None => s' = s
  | Some a => exists i, _threads s !! i = Some a /\ _threads s' = delete i (_threads s) /\
      store s' = store s /\
      _lookupByOsThreadId s' = delete (default 0 (_osThreadId <$> store s !! a)) (_lookupByOsThreadId s) /\
      _iterators s' = update_iterator (Z.of_nat i) (zlen (_threads s')) <$> _iterators s
  end.
Proof.
  intros W Hb. unfold UnregisterThread.
  pose proof (find_thread_spec (store s) clr (_threads s) 0 ltac:(lia) ltac:(lia)) as Hf.
  destruct (find_thread (store s) clr 0 (_threads s)) as [[pos a]|].
  - destruct Hf as (i & -> & Hi & Hc). cbn [Z.add]. rewrite !Z.add_0_l, Hc. cbn [default].
    assert (_lookupByClrThreadId s !! clr = Some a) as Hl
      by (apply (wf_lookup _ W); split; [by eapply list_elem_of_lookup_2 | exact Hc]).
    pose proof (lookup_lt_Some _ _ _ Hi) as Hlt.
    assert (zlen (delete i (_threads s)) = zlen (_threads s) - 1) as Hdl.
    { pose proof (length_delete (_threads s) i) as E. rewrite E; [lia|eauto]. }
    split; [|split; [done|]].
    + apply (set_counts_wf (UpdateIterators _ _)). split; cbn; rewrite ?Nat2Z.id.
      * intros b Hb'. rewrite (delete_elem _ _ _ _ (wf_nodup _ W) Hi) in Hb'. apply (wf_store _ W). tauto.
      * apply (wf_alloc _ W).
      * intros c b. rewrite (delete_elem _ _ _ _ (wf_nodup _ W) Hi), lookup_delete_Some.
        rewrite (wf_lookup _ W). unfold clr_of. cbn. split.
        -- intros (Hne & Hin & Hcb). split_and!; auto. intros ->. congruence.
        -- intros ((Hin & Hne) & Hcb). split_and!; auto. intros ->. apply Hne.
           assert (_lookupByClrThreadId s !! c = Some b) by (by apply (wf_lookup _ W)). congruence.
      * apply (NoDup_cons_1_2 a). rewrite <- (delete_Permutation _ _ _ Hi). apply W.
      * apply Forall_fmap, Forall_forall. intros p Hp. cbn.
        pose proof (proj1 (Forall_forall _ _) (wf_its _ W) p Hp) as Hp'. cbn in Hp'.
        apply update_iterator_range; lia.
    + exists i. cbn. rewrite Nat2Z.id. done.
  - split; [done|]. split; [|done]. symmetry. apply eq_None_not_Some. intros [a Ha].
    apply (wf_lookup _ W) in Ha as [Hin Hc]. by apply (Hf a Hin).
Qed.

(** ** The iteration *)

Lemma mod_succ_eq_start p j n :
  0 <= p < n -> 0 <= j < n -> (p + j + 1) mod n = p <-> j = n - 1.
Proof.
  intros Hp Hj. split.
  - intros H. pose proof (Z.div_mod (p + j + 1) n ltac:(lia)) as E. rewrite H in E.
    assert (n * ((p + j + 1) / n) = j + 1) by lia.
    assert ((p + j + 1) / n = 1) by nia. nia.
  - intros ->. replace (p + (n - 1) + 1) with (p + 1 * n) by lia.
    rewrite Z.mod_add by lia. apply Z.mod_small. lia.
Qed.

Lemma loop_next_ok s p : forall d fuel,
  let n := zlen (_threads s) in
  0 <= p < n -> n < 2 ^ 32 -> (Z.of_nat d < n) -> (d < fuel)%nat ->
  let j := n - 1 - Z.of_nat d in
  (forall i, 0 <= i < j -> valid_at s ((p + i) mod n) = false) ->
  exists a pos', loop_next fuel s p ((p + j) mod n) = Some (a, pos') /\
    ((exists k, 0 <= k < n - 1 /\ zget (_threads s) ((p + k) mod n) = Some a /\
        valid_at s ((p + k) mod n) = true /\ pos' = (p + k + 1) mod n /\ pos' <> p /\
        forall i, 0 <= i < k -> valid_at s ((p + i) mod n) = false) \/
     (pos' = p /\ forall i, 0 <= i < n - 1 -> valid_at s ((p + i) mod n) = false)).
Proof.
  intros d. induction d as [|d IH]; intros [|fuel] n Hp Hn Hd Hf j Hinv; try lia;
    cbn [loop_next].
  all: assert (0 <= (p + j) mod n < n) as Hr by (apply Z.mod_pos_bound; lia).
  all: destruct (zget_in_range (_threads s) ((p + j) mod n) Hr) as [a Ha].
  all: rewrite Ha; cbn [mbind option_bind]; fold n.
  all: rewrite (wrap_small 32 ((p + j) mod n + 1)) by (unfold in_u; lia).
  all: rewrite Zplus_mod_idemp_l.
  all: destruct (mod_succ_eq_start p j n Hp ltac:(lia)) as [Hs1 Hs2].
  - rewrite Hs2 by lia. rewrite Z.eqb_refl. cbn [negb andb].
    exists a, p. split; [done|]. right. split; [done|]. intros i Hi. apply Hinv. lia.
  - rewrite (proj2 (Z.eqb_neq p _)) by (intros E; symmetry in E; apply Hs1 in E; lia).
    cbn [negb andb]. destruct (valid_at s ((p + j) mod n)) eqn:Ev; cbn [negb].
    + exists a, ((p + j + 1) mod n). split; [done|]. left. exists j.
      split_and!; auto; [lia..|]. intros E. apply Hs1 in E. lia.
    + specialize (IH fuel Hp Hn ltac:(lia) ltac:(lia)).
      cbv zeta in IH. fold n in IH.
      replace (p + (n - 1 - Z.of_nat d)) with (p + j + 1) in IH by lia.
      apply IH. intros i Hi. destruct (decide (i = j)) as [->|]; [done|]. apply Hinv. lia.
Qed.

Lemma LoopNext_ok s it p :
  wf s -> zlen (_threads s) < 2 ^ 32 -> _threads s <> [] -> _iterators s !! it = Some p ->
  let n := zlen (_threads s) in
  exists s' r p', LoopNext s (Z.of_nat it) = Some (s', r) /\
    s' = set_iterators s (<[it := p']> (_iterators s)) /\ 0 <= p' < n /\
    match r with
    | Some a => exists k, 0 <= k < n - 1 /\ zget (_threads s) ((p + k) mod n) = Some a /\
        valid_at s ((p + k) mod n) = true /\ p' = (p + k + 1) mod n /\
        forall i, 0 <= i < k -> valid_at s ((p + i) mod n) = false
    | None => p' = p /\ forall i, 0 <= i < n - 1 -> valid_at s ((p + i) mod n) = false
    end.
Proof.
  intros W Hn Hne Hit n. unfold LoopNext.
  assert (0 < n) by (subst n; destruct (_threads s); [done|cbn; lia]).
  pose proof (lookup_lt_Some _ _ _ Hit) as Hlt.
  assert (0 <= p < n) as Hp.
  { pose proof (proj1 (Forall_lookup _ _) (wf_its _ W) _ _ Hit) as Hp'. cbn in Hp'. lia. }
  rewrite (proj2 (Z.eqb_neq _ _)) by lia. rewrite (proj2 (Z.leb_gt _ _)) by lia.
  assert (zget (_iterators s) (Z.of_nat it) = Some p) as ->
    by (apply zget_Some; rewrite Nat2Z.id; split; [lia|done]).
  cbn [mbind option_bind].
  destruct (loop_next_ok s p (Z.to_nat (n - 1)) (length (_threads s)))
    as (a & p' & Hl & Hcase); [done|done|lia|lia|intros; lia|].
  fold n in Hl, Hcase. replace (p + (n - 1 - Z.of_nat (Z.to_nat (n - 1)))) with p in Hl by lia.
  rewrite Z.mod_small in Hl by lia. rewrite Hl. cbn [mbind option_bind].
  rewrite zset_in_range by lia. cbn [mbind option_bind]. rewrite Nat2Z.id.
  assert (0 <= p' < n).
  { destruct Hcase as [(k & _ & _ & _ & -> & _)|[-> _]]; [apply Z.mod_pos_bound; lia|done]. }
  destruct Hcase as [(k & Hk & Hg & Hv & E & Hne' & Hi)|[E Hi]].
  - rewrite (proj2 (Z.eqb_neq _ _)) by congruence. eexists _, _, p'. split; [done|].
    split; [done|]. split; [done|]. exists k. auto.
  - rewrite E, Z.eqb_refl. eexists _, _, p. rewrite E in *. auto.
Qed.

(** ** Every operation preserves the invariant *)

Lemma GetOrCreate_length s clr :
  zlen (_threads (GetOrCreate s clr).1) <= zlen (_threads s) + 1.
Proof. unfold GetOrCreate. destruct (FindByClrId s clr); cbn; rewrite ?length_app; cbn; lia. Qed.

Lemma step_ok s o :
  wf s -> zlen (_threads s) < 2 ^ 32 ->
  exists s', step s o = Some s' /\ wf s' /\ zlen (_threads s') <= zlen (_threads s) + 1.
Proof.
  intros W Hb. destruct o as [clr|clr|clr os h|clr nm| | | |it|clr|a]; cbn [step].
  - pose proof (GetOrCreate_wf s clr W) as H. pose proof (GetOrCreate_length s clr).
    destruct (GetOrCreate s clr) as [s' a]. exists s'. split; [done|]. split; [apply H|done].
  - pose proof (UnregisterThread_ok s clr W Hb) as H. destruct (UnregisterThread s clr) as [s' r].
    exists s'. split; [done|]. destruct H as (W' & _ & H). split; [done|].
    destruct r as [a|]; [|subst; lia]. destruct H as (i & Hi & -> & _).
    rewrite length_delete by eauto. lia.
  - unfold SetThreadOsInfo. pose proof (GetOrCreate_wf s clr W) as H.
    pose proof (GetOrCreate_length s clr). destruct (GetOrCreate s clr) as [s' a].
    eexists. split; [done|]. split; [|done]. destruct H as [W' _].
    apply (set_os_lookup_wf (update_info _ _ _)). by apply update_info_wf.
  - unfold SetThreadName. pose proof (GetOrCreate_wf s clr W) as H.
    pose proof (GetOrCreate_length s clr). destruct (GetOrCreate s clr) as [s' a].
    eexists. split; [done|]. split; [|done]. destruct H as [W' _]. by apply update_info_wf.
  - eexists. split; [done|]. split; [by apply set_counts_wf|cbn; lia].
  - eexists. split; [done|]. split; [by apply set_counts_wf|cbn; lia].
  - eexists. split; [done|]. split; [|cbn; lia]. apply set_iterators_wf; [done|].
    apply Forall_app. split; [apply W|]. repeat constructor; lia.
  - destruct (_threads s) as [|a0 l0] eqn:Et.
    { exists s. unfold LoopNext. rewrite Et. cbn. split; [done|]. split; [done|lia]. }
    destruct (_iterators s !! it) as [p|] eqn:Ei.
    + destruct (LoopNext_ok s it p W) as (s' & r & p' & -> & -> & Hp' & _);
        [by rewrite Et|congruence|done|].
      eexists. split; [done|]. split; [|cbn [fst set_iterators _threads]; rewrite Et; lia].
      apply set_iterators_wf; [done|]. apply Forall_insert; [apply W|lia].
    + exists s. apply lookup_ge_None in Ei. unfold LoopNext. rewrite Et.
      rewrite (proj2 (Z.eqb_neq _ _)) by (cbn; lia). rewrite (proj2 (Z.leb_le _ _)) by lia.
      split; [done|]. split; [done|lia].
  - eexists. split; [done|]. split; [by apply make_info_wf|cbn; lia].
  - case_bool_decide as Ha; [|exists s; split; [done|split; [done|lia]]].
    eexists. split; [done|]. unfold RegisterThread. destruct Ha as [t Ht]. rewrite Ht. cbn.
    destruct (_lookupByClrThreadId s !! _clrThreadId t) eqn:El; [split; [done|cbn; lia]|].
    split; [|cbn; rewrite length_app; cbn; lia].
    apply (append_wf s a (_clrThreadId t)); auto. unfold clr_of. by rewrite Ht.
Qed.

Lemma run_ok os : forall s,
  wf s -> zlen (_threads s) + zlen os < 2 ^ 32 ->
  exists s', run s os = Some s' /\ wf s' /\ zlen (_threads s') <= zlen (_threads s) + zlen os.
Proof.
  induction os as [|o os IH]; intros s W Hb; cbn [run].
  { exists s. split; [done|]. split; [done|cbn; lia]. }
  cbn [length] in Hb. destruct (step_ok s o W ltac:(lia)) as (s1 & -> & W1 & H1).
  cbn [mbind option_bind]. destruct (IH s1 W1 ltac:(lia)) as (s2 & -> & W2 & H2).
  exists s2. split; [done|]. split; [done|]. cbn [length]. lia.
Qed.

(** C29: Every sequence of operations on a new list completes without leaving the vectors,
    and keeps the structure consistent: the threads are distinct and alive, the CLR-id
    index holds exactly the threads of the vector (so a lookup, hence GetOrCreate and
    UnregisterThread, finds a thread if and only if it is registered, under its own id),
    and every iterator stays inside the vector. *)
Theorem thread_list_consistent os :
  zlen os < 2 ^ 32 ->
  exists s, run new_list os = Some s /\ wf s /\
    (forall clr, FindByClrId s clr = _lookupByClrThreadId s !! clr) /\
    (forall clr a, FindByClrId s clr = Some a <-> a ∈ _threads s /\ clr_of s a = Some clr).
Proof.
  intros Hb. destruct (run_ok os new_list new_list_wf ltac:(cbn; lia)) as (s & Hr & W & _).
  exists s. split; [done|]. split; [done|].
  split; [intros; by apply FindByClrId_wf|].
  intros clr a. rewrite FindByClrId_wf by done. apply W.
Qed.

(** [LoopNext] returns the first thread with a usable OS handle, starting at the
    iterator's thread and wrapping around, and leaves the iterator just behind it.  The
    candidate just before the starting point is the one exception: when the search gets
    that far it answers nullptr, whether that last thread has a handle or not. *)
Theorem LoopNext_spec s it p :
  wf s -> zlen (_threads s) < 2 ^ 32 -> _threads s <> [] -> _iterators s !! it = Some p ->
  let n := zlen (_threads s) in
  exists s' r p', LoopNext s (Z.of_nat it) = Some (s', r) /\
    s' = set_iterators s (<[it := p']> (_iterators s)) /\ 0 <= p' < n /\
    match r with
    | Some a => exists k, 0 <= k < n - 1 /\ zget (_threads s) ((p + k) mod n) = Some a /\
        valid_at s ((p + k) mod n) = true /\ p' = (p + k + 1) mod n /\
        forall i, 0 <= i < k -> valid_at s ((p + i) mod n) = false
    | None => p' = p /\ forall i, 0 <= i < n - 1 -> valid_at s ((p + i) mod n) = false
    end.
Proof. exact (LoopNext_ok s it p). Qed.

(** Calling [LoopNext] repeatedly. *)
Fixpoint loop_many (m : nat) (s : ManagedThreadList) (it : nat)
    : option (ManagedThreadList * list (option addr)) :=
  match m with
  | O => Some (s, [])
  | S m =>
      '(s, r) ← LoopNext s (Z.of_nat it);
      '(s, rs) ← loop_many m s it;
      Some (s, r :: rs)
  end.

Lemma loop_many_ok m : forall s it p,
  wf s -> 2 <= zlen (_threads s) < 2 ^ 32 -> _iterators s !! it = Some p ->
  (forall i, 0 <= i < zlen (_threads s) -> valid_at s i = true) ->
  exists s', loop_many m s it =
    Some (s', (fun i => zget (_threads s) ((p + Z.of_nat i) mod zlen (_threads s))) <$> seq 0 m).
Proof.
  induction m as [|m IH]; intros s it p W Hn Hit Hv; [by exists s|].
  destruct (LoopNext_ok s it p W) as (s1 & r & p1 & E & Hs1 & Hp1 & Hr); [lia| |done|].
  { intros E. rewrite E in Hn. cbn in Hn. lia. }
  set (n := zlen (_threads s)) in *.
  assert (0 <= p < n) as Hp.
  { pose proof (proj1 (Forall_lookup _ _) (wf_its _ W) _ _ Hit) as Hp'. cbn in Hp'. lia. }
  assert (r = zget (_threads s) (p mod n) /\ p1 = (p + 1) mod n) as [-> ->].
  { destruct r as [a|].
    - destruct Hr as (k & Hk & Hg & _ & -> & Hi). assert (k = 0) as ->.
      { destruct (decide (k = 0)); [done|]. specialize (Hi 0 ltac:(lia)).
        rewrite Hv in Hi; [done|]. apply Z.mod_pos_bound. lia. }
      by rewrite Z.add_0_r in *.
    - destruct Hr as [_ Hi]. specialize (Hi 0 ltac:(lia)).
      rewrite Hv in Hi; [done|]. apply Z.mod_pos_bound. lia. }
  destruct (IH s1 it ((p + 1) mod n)) as [s2 E2].
  - subst s1. apply set_iterators_wf; [done|]. apply Forall_insert; [apply W|]. fold n. lia.
  - by subst s1.
  - subst s1. cbn. apply list_lookup_insert_eq. by eapply lookup_lt_Some.
  - subst s1. exact Hv.
  - exists s2. cbn [loop_many]. rewrite E. cbn [mbind option_bind]. rewrite E2.
    cbn [mbind option_bind]. do 2 f_equal. cbn [seq fmap list_fmap]. rewrite Z.add_0_r.
    f_equal. replace (_threads s1) with (_threads s) by (by subst s1).
    rewrite <- fmap_S_seq, <- list_fmap_compose. apply list_fmap_ext. intros i x _. cbn. fold n.
    rewrite Zplus_mod_idemp_l. do 2 f_equal. lia.
Qed.

(** When every thread has a handle and there are at least two, the samplers visit the
    threads in turn: the m-th call after the iterator stood at position p returns the
    thread at position p + m modulo the number of threads, so no thread is starved. *)
Theorem LoopNext_round_robin m s it p :
  wf s -> 2 <= zlen (_threads s) < 2 ^ 32 -> _iterators s !! it = Some p ->
  (forall i, 0 <= i < zlen (_threads s) -> valid_at s i = true) ->
  exists s', loop_many m s it =
    Some (s', (fun i => zget (_threads s) ((p + Z.of_nat i) mod zlen (_threads s))) <$> seq 0 m).
Proof. apply loop_many_ok. Qed.

(** Unregistering a thread removes exactly that thread, and an iterator that stood at
    another thread still stands at that thread; one that stood at the removed thread now
    stands at its successor, or at the first thread when there is none. *)
Theorem UnregisterThread_iterators s clr a it p :
  wf s -> zlen (_threads s) < 2 ^ 32 -> FindByClrId s clr = Some a ->
  _iterators s !! it = Some p ->
  exists s' i p', UnregisterThread s clr = (s', Some a) /\ wf s' /\
    _threads s !! i = Some a /\ _threads s' = delete i (_threads s) /\
    _iterators s' !! it = Some p' /\
    (zget (_threads s) p <> Some a -> zget (_threads s') p' = zget (_threads s) p) /\
    (zget (_threads s) p = Some a ->
       zget (_threads s') p' = match _threads s !! S i with
                               | Some b => Some b
                               | None => _threads s' !! 0%nat
                               end).
Proof.
  intros W Hb Hf Hit. rewrite FindByClrId_wf in Hf by done.
  pose proof (UnregisterThread_ok s clr W Hb) as H.
  destruct (UnregisterThread s clr) as [s' r]. destruct H as (W' & Hr & H).
  rewrite Hf in Hr. subst r. destruct H as (i & Hi & Hth & Hst & _ & Hits).
  pose proof (lookup_lt_Some _ _ _ Hi) as Hlt.
  assert (length (_threads s') = (length (_threads s) - 1)%nat) as Hlen
    by (rewrite Hth, length_delete by eauto; lia).
  pose proof (proj1 (Forall_lookup _ _) (wf_its _ W) _ _ Hit) as Hp. cbn in Hp.
  exists s', i, (update_iterator (Z.of_nat i) (zlen (_threads s')) p).
  split; [done|]. split; [done|]. split; [done|]. split; [done|].
  split; [by rewrite Hits, list_lookup_fmap, Hit|].
  unfold update_iterator.
  split.
  - intros Hne.
    assert (p <> Z.of_nat i).
    { intros ->. apply Hne. apply zget_Some. rewrite Nat2Z.id. split; [lia|done]. }
    rewrite !Hth. destruct (Z.ltb_spec (Z.of_nat i) p).
    + rewrite wrap_small by (unfold in_u; lia). rewrite (proj2 (Z.leb_gt _ _)).
      * unfold zget. rewrite !(proj2 (Z.ltb_ge _ _)) by lia.
        rewrite list_lookup_delete_ge by lia. f_equal. lia.
      * rewrite <- Hth, Hlen. lia.
    + rewrite (proj2 (Z.leb_gt _ _)) by (rewrite <- Hth, Hlen; lia).
      unfold zget. rewrite !(proj2 (Z.ltb_ge _ _)) by lia. by rewrite list_lookup_delete_lt by lia.
  - intros Hpa. apply zget_Some in Hpa as [Hp0 Hpa].
    assert (Z.to_nat p = i) as Hpi by (eapply NoDup_lookup; [apply W|done..]).
    rewrite (proj2 (Z.ltb_ge _ _)) by lia.
    destruct (decide (S i < length (_threads s))%nat) as [Hs|Hs].
    + destruct (lookup_lt_is_Some_2 _ _ Hs) as [b Hb']. rewrite Hb'.
      rewrite (proj2 (Z.leb_gt _ _)) by lia. apply zget_Some. split; [lia|].
      rewrite Hth, list_lookup_delete_ge by lia. by rewrite Hpi.
    + rewrite (lookup_ge_None_2 (_threads s) (S i)) by lia.
      rewrite (proj2 (Z.leb_le _ _)) by lia. done.
Qed.

(** ** The OS-id index *)

Definition os_of (s : ManagedThreadList) (a : addr) : option Z := _osThreadId <$> store s !! a.

Definition os_sound (s : ManagedThreadList) : Prop :=
  forall os a, _lookupByOsThreadId s !! os = Some a -> a ∈ _threads s /\ os_of s a = Some os.

(** The runtime assigns a managed thread to an OS thread once, and an OS id is reused
    only after the thread that had it was unregistered. *)
Definition assigns_once (s : ManagedThreadList) (o : op) : bool :=
  match o with
  | OpSetOsInfo clr os _ =>
      bool_decide (_lookupByOsThreadId s !! os = None) &&
      match FindByClrId s clr with
      | None => true
      | Some a => bool_decide (Forall (fun p => p.2 <> a) (map_to_list (_lookupByOsThreadId s)))
      end
  | _ => true
  end.

Fixpoint run_assigns_once (s : ManagedThreadList) (os : list op) : bool :=
  match os with
  | [] => true
  | o :: os =>
      assigns_once s o && match step s o with Some s => run_assigns_once s os | None => true end
  end.

Lemma GetOrCreate_os s clr : wf s -> os_sound s ->
  let '(s', a) := GetOrCreate s clr in
  os_sound s' /\ _lookupByOsThreadId s' = _lookupByOsThreadId s.
Proof.
  intros W Hs. unfold GetOrCreate. destruct (FindByClrId s clr); cbn; [done|]. split; [|done].
  intros os a Ha. cbn in *. apply Hs in Ha as [Hin Ho]. split; [set_solver|].
  unfold os_of in *. cbn. rewrite lookup_insert_ne; [done|].
  intros <-. apply (wf_store _ W), (wf_alloc _ W) in Hin. lia.
Qed.

Lemma step_os s o s' :
  wf s -> zlen (_threads s) < 2 ^ 32 -> os_sound s -> assigns_once s o = true ->
  step s o = Some s' -> os_sound s'.
Proof.
  intros W Hb Hs Ho Hst.
  destruct o as [clr|clr|clr os h|clr nm| | | |it|clr|a]; cbn [step] in Hst; simplify_eq;
    try (exact Hs).
  - pose proof (GetOrCreate_os s clr W Hs) as H. destruct (GetOrCreate s clr) as [s' a]. apply H.
  - pose proof (UnregisterThread_ok s clr W Hb) as H.
    destruct (UnregisterThread s clr) as [s' [a|]]; cbn; [|by destruct H as (_ & _ & ->)].
    destruct H as (_ & _ & i & Hi & Ht & Hst & Hos & _). intros os b Hb'. rewrite Hos in Hb'.
    apply lookup_delete_Some in Hb' as [Hne Hb']. apply Hs in Hb' as [Hin Hob].
    unfold os_of in *. rewrite Hst. split; [|done]. rewrite Ht, (delete_elem _ _ _ _ (wf_nodup _ W) Hi).
    split; [done|]. intros ->. rewrite Hob in Hne. done.
  - cbn in Ho. apply andb_true_iff in Ho as [Hfree Hold]. apply bool_decide_eq_true in Hfree.
    unfold SetThreadOsInfo. pose proof (GetOrCreate_os s clr W Hs) as Hg.
    pose proof (GetOrCreate_wf s clr W) as Hw. destruct (GetOrCreate s clr) as [s1 a].
    destruct Hg as [Hs1 Hl1]. destruct Hw as (W1 & Hin1 & Hc1 & Hcase).
    intros os' b Hb'. cbn in Hb'. unfold os_of. cbn.
    apply lookup_insert_Some in Hb' as [[<- <-]|[Hne Hb']].
    + split; [done|]. rewrite lookup_alter_eq.
      destruct (wf_store _ W1 a Hin1) as [t ->]. done.
    + apply Hs1 in Hb' as Hsb. destruct Hsb as [Hin Hob]. split; [done|].
      rewrite lookup_alter_ne; [done|]. intros <-. rewrite Hl1 in Hb'.
      destruct Hcase as [Hex|(_ & _ & ->)].
      * rewrite FindByClrId_wf, Hex in Hold by done. apply bool_decide_eq_true in Hold.
        rewrite Forall_forall in Hold. apply (Hold (os', a)); [|done].
        by apply elem_of_map_to_list.
      * apply Hs in Hb' as [Hin' _]. apply (wf_store _ W), (wf_alloc _ W) in Hin'. lia.
  - unfold SetThreadName. pose proof (GetOrCreate_os s clr W Hs) as Hg.
    destruct (GetOrCreate s clr) as [s1 a]. destruct Hg as [Hs1 Hl1].
    intros os b Hb'. cbn in Hb'. apply Hs1 in Hb' as [Hin Hob]. split; [done|].
    unfold os_of in *. cbn. destruct (decide (a = b)) as [->|];
      [rewrite lookup_alter_eq | by rewrite lookup_alter_ne].
    destruct (store s1 !! b); done.
  - destruct (LoopNext s (Z.of_nat it)) as [[s1 r]|] eqn:E; [|done]. cbn in Hst. simplify_eq.
    unfold LoopNext in E.
    destruct (zlen (_threads s) =? 0); [by simplify_eq|].
    destruct (zlen (_iterators s) <=? Z.of_nat it); [by simplify_eq|].
    destruct (zget (_iterators s) (Z.of_nat it)) as [p|]; [|done]. cbn in E.
    destruct (loop_next _ s p p) as [[b p']|]; [|done]. cbn in E.
    destruct (zset (_iterators s) (Z.of_nat it) p'); [|done]. cbn in E. simplify_eq. exact Hs.
  - intros os a Ha. cbn in Ha. apply Hs in Ha as [Hin Ho']. split; [done|].
    unfold os_of in *. cbn. rewrite lookup_insert_ne; [done|].
    intros <-. apply (wf_store _ W), (wf_alloc _ W) in Hin. lia.
  - case_bool_decide; simplify_eq; [|done]. unfold RegisterThread.
    destruct (_lookupByClrThreadId s !! _); cbn; [done|]. intros os b Hb'. cbn in *.
    apply Hs in Hb' as [Hin Hob]. split; [set_solver|done].
Qed.

(** As long as a managed thread is assigned to an OS thread once, and an OS id is reused
    only after its thread is gone, the OS-id index never answers with a stale thread: the
    thread found for an OS id is registered and has this OS id. *)
Theorem os_index_sound os s :
  zlen os < 2 ^ 32 -> run_assigns_once new_list os = true -> run new_list os = Some s ->
  forall osThreadId a, TryGetThreadInfo s osThreadId = Some a ->
    a ∈ _threads s /\ os_of s a = Some osThreadId.
Proof.
  intros Hb Ho Hr.
  assert (os_sound s) as Hs.
  { assert (os_sound new_list) as H0 by (intros ? ?; cbn; by rewrite lookup_empty).
    pose proof new_list_wf as W. revert H0 W Ho Hr.
    assert (zlen (_threads new_list) + zlen os < 2 ^ 32) as Hb' by (cbn; lia). revert Hb'.
    generalize new_list. clear Hb. induction os as [|o os IH]; intros s0 Hb H0 W Ho Hr.
    { cbn in Hr. by simplify_eq. }
    cbn [run run_assigns_once length] in *. bool_facts.
    destruct (step_ok s0 o W ltac:(lia)) as (s1 & E & W1 & Hl). rewrite E in *.
    cbn in Hr. apply (IH s1); [lia| |exact W1|done|done].
    eapply (step_os s0 o s1); [exact W|lia|exact H0|done|done]. }
  intros osId a Ha. apply Hs. unfold TryGetThreadInfo in Ha. by destruct (_threads s).
Qed.
End operations.

(** ** Witnesses *)

Definition witness_size (t : ManagedThreadInfo) : Z := 100 + Z.of_nat (String.length (_threadName t)).

Definition witness_ops : list op :=
  [OpCreateIterator; OpSetOsInfo 1 11 101; OpSetOsInfo 2 12 102; OpSetOsInfo 3 13 103;
   OpLoopNext 0; OpLoopNext 0].

Definition witness_list : ManagedThreadList :=
  default new_list (run witness_size new_list witness_ops).

Lemma witness_list_wf : wf witness_list.
Proof.
  destruct (run_ok witness_size witness_ops new_list new_list_wf ltac:(cbn; lia)) as (s & E & W & _).
  unfold witness_list. by rewrite E.
Qed.

Lemma thread_list_consistent_witness :
  exists s, run witness_size new_list witness_ops = Some s /\ wf s.
Proof.
  destruct (thread_list_consistent witness_size witness_ops) as (s & H1 & H2 & _);
    [vm_compute; reflexivity | by exists s].
Defined.

(** ** Behaviours worth knowing *)

(** A list with a single thread never yields it. *)
Example LoopNext_single_thread :
  (s ← run witness_size new_list [OpCreateIterator; OpSetOsInfo 1 11 101];
   '(_, r) ← LoopNext s 0; Some r) = Some None.
Proof. reflexivity. Qed.

(** Without the assumption of [os_index_sound], an old OS id keeps the thread reachable
    after it was unregistered. *)
Example os_index_stale :
  (s ← run witness_size new_list
         [OpSetOsInfo 1 10 101; OpSetOsInfo 1 11 101; OpGetOrCreate 2; OpUnregister 1];
   Some (TryGetThreadInfo s 10, _threads s)) = Some (Some 0%nat, [1%nat]).
Proof. reflexivity. Qed.

(** The cached memory size subtracts the size a thread has when it is removed, not the one
    that was added: naming a thread in between makes the unsigned total wrap around. *)
Example cached_size_underflows :
  _cachedItemsSize <$> run witness_size new_list
    [OpGetOrCreate 1; OpSetName 1 "worker"; OpUnregister 1] = Some (2 ^ 64 - 6).
Proof. reflexivity. Qed.

(** The low count is decremented even when the number of threads has grown meanwhile, and
    threads added by RegisterThread do not raise the high count. *)
Example low_count_not_minimum :
  (s ← run witness_size new_list
         [OpGetOrCreate 1; OpGetOrCreate 2; OpGetOrCreate 3; OpUnregister 1;
          OpGetOrCreate 4; OpGetOrCreate 5; OpUnregister 5];
   Some ((GetLowCountAndReset s).2, length (_threads s))) = Some (1, 3%nat).
Proof. reflexivity. Qed.

Example high_count_ignores_registered :
  (s ← run witness_size new_list [OpMake 1; OpRegister 0%nat];
   Some ((GetHighCountAndReset s).2, length (_threads s))) = Some (0, 1%nat).
Proof. reflexivity. Qed.
