(* ===== verification/TypeReferenceTree.v ===== *)
(** * The type reference tree and its binary form

    Model of [TypeReferenceTree.h] (the aggregated retention tree) and of
    [TypeReferenceTreeBinarySerializer.cpp] (the varint DFS format), with a reader for
    the wire layout documented in [docs/reference-tree-serialization-formats.md].

    Children and roots are kept in hash maps whose iteration order is unspecified: they
    are lists in the order the map iterates, with pairwise different keys.  A child's
    key is its own type id, which is how [GetOrCreateChild] creates it. *)
From stdpp Require Import base gmap list.
From S2P Require Import Prelude.

(** ** The tree *)

Abbreviation byte := Z.
Abbreviation text := (list Z).

Inductive TypeTreeNode :=
| Node (typeID instanceCount totalSize : Z) (children : list TypeTreeNode).

Definition typeID (n : TypeTreeNode) : Z := let '(Node t _ _ _) := n in t.
Definition instanceCount (n : TypeTreeNode) : Z := let '(Node _ c _ _) := n in c.
Definition totalSize (n : TypeTreeNode) : Z := let '(Node _ _ s _) := n in s.
Definition children (n : TypeTreeNode) : list TypeTreeNode := let '(Node _ _ _ l) := n in l.

Definition new_TypeTreeNode (id : Z) : TypeTreeNode := Node id 0 0 [].

Definition AddInstance (size : Z) (n : TypeTreeNode) : TypeTreeNode :=
  let '(Node t c s l) := n in Node t (u64 (c + 1)) (u64 (s + size)) l.

(** [f] applied to the child of this type, created first if there is none: what a caller
    does through the pointer [GetOrCreateChild] returns. *)
Fixpoint on_child (id : Z) (f : TypeTreeNode -> TypeTreeNode) (l : list TypeTreeNode)
    : list TypeTreeNode :=
  match l with
  | [] => [f (new_TypeTreeNode id)]
  | n :: l => if typeID n =? id then f n :: l else n :: on_child id f l
  end.

Definition GetOrCreateChild (childTypeID : Z) (f : TypeTreeNode -> TypeTreeNode)
    (n : TypeTreeNode) : TypeTreeNode :=
  let '(Node t c s l) := n in Node t c s (on_child childTypeID f l).

Fixpoint find_child (id : Z) (l : list TypeTreeNode) : option TypeTreeNode :=
  match l with
  | [] => None
  | n :: l => if typeID n =? id then Some n else find_child id l
  end.

Definition GetChild (childTypeID : Z) (n : TypeTreeNode) : option TypeTreeNode :=
  find_child childTypeID (children n).

Inductive RootCategory :=
| Stack | StaticVariable | Finalizer | Handle | Pinning | ConditionalWeakTable | COM | Other
| Unknown.

#[export] Instance RootCategory_eq_dec : EqDecision RootCategory.
Proof. solve_decision. Defined.

Definition category_byte (c : RootCategory) : byte :=
  match c with
  | Stack => 0 | StaticVariable => 1 | Finalizer => 2 | Handle => 3 | Pinning => 4
  | ConditionalWeakTable => 5 | COM => 6 | Other => 7 | Unknown => 8
  end.

Record TypeRootNode := mkRoot { node : TypeTreeNode; category : RootCategory; fieldName : text }.

(** [field]: the UTF-8 conversion of the field name, if one is given. *)
Definition root_AddInstance (size : Z) (field : option text) (r : TypeRootNode) : TypeRootNode :=
  mkRoot (AddInstance size (node r)) (category r)
    match field with
    | Some f => match f, fieldName r with _ :: _, [] => f | _, old => old end
    | None => fieldName r
    end.

Definition TypeReferenceTree := list TypeRootNode.

(** [f] is what the caller does through the returned pointer. *)
Fixpoint AddRoot (id : Z) (cat : RootCategory) (size : Z) (field : option text)
    (f : TypeTreeNode -> TypeTreeNode) (tree : TypeReferenceTree) : TypeReferenceTree :=
  match tree with
  | [] =>
      let r := root_AddInstance size field (mkRoot (new_TypeTreeNode id) cat []) in
      [mkRoot (f (node r)) (category r) (fieldName r)]
  | r :: tree =>
      if (typeID (node r) =? id) && bool_decide (category r = cat)
      then let r := root_AddInstance size field r in
           mkRoot (f (node r)) (category r) (fieldName r) :: tree
      else r :: AddRoot id cat size field f tree
  end.

Definition IsEmpty (tree : TypeReferenceTree) : bool :=
  match tree with [] => true | _ => false end.
Definition Clear (tree : TypeReferenceTree) : TypeReferenceTree := [].

(** ** Binary encoding *)

Fixpoint varint_loop (fuel : nat) (out : list byte) (value : Z) : list byte :=
  match fuel with
  | O => out
  | S fuel =>
      let byte := u8 (Z.land value 0x7F) in
      let value := Z.shiftr value 7 in
      let byte := if negb (value =? 0) then Z.lor byte 0x80 else byte in
      let out := out ++ [byte] in
      if negb (value =? 0) then varint_loop fuel out value else out
  end.

(** Ten groups of seven bits hold a 64-bit value (shown below). *)
Definition WriteVarint (out : list byte) (value : Z) : list byte := varint_loop 10 out value.
Definition WriteBytes (out data : list byte) : list byte := out ++ data.
Definition WriteString (out : list byte) (str : text) : list byte :=
  WriteVarint out (zlen str) ++ str.

Record StringTable := mkTable { st_bytes : list byte; st_count : Z; typeToIndex : gmap Z Z }.

(** The frame store: the qualified name of a type, if it can be resolved. *)
Section serializer.
Context (GetTypeName : Z -> option text).

Definition type_name (id : Z) : text := default [63] (GetTypeName id).   (* "?" *)

Definition RegisterType (types : StringTable) (id : Z) : StringTable * Z :=
  match typeToIndex types !! id with
  | Some i => (types, i)
  | None =>
      (mkTable (WriteString (st_bytes types) (type_name id)) (u32 (st_count types + 1))
         (<[id := st_count types]> (typeToIndex types)), st_count types)
  end.

Fixpoint WriteNode (n : TypeTreeNode) (types : StringTable) (out : list byte)
    : StringTable * list byte :=
  let '(Node id c s l) := n in
  let '(types, typeIndex) := RegisterType types id in
  let out := WriteVarint out typeIndex in
  let out := WriteVarint out c in
  let out := WriteVarint out s in
  let out := WriteVarint out (zlen l) in
  (fix go (l : list TypeTreeNode) (types : StringTable) (out : list byte) :=
     match l with
     | [] => (types, out)
     | n :: l => let '(types, out) := WriteNode n types out in go l types out
     end) l types out.

Fixpoint WriteNodes (l : list TypeTreeNode) (types : StringTable) (out : list byte)
    : StringTable * list byte :=
  match l with
  | [] => (types, out)
  | n :: l => let '(types, out) := WriteNode n types out in WriteNodes l types out
  end.

Definition WriteRoot (r : TypeRootNode) (types : StringTable) (body : list byte)
    : StringTable * list byte :=
  let '(types, typeIndex) := RegisterType types (typeID (node r)) in
  let body := WriteVarint body typeIndex in
  let body := body ++ [category_byte (category r)] in
  let body := WriteVarint body (instanceCount (node r)) in
  let body := WriteVarint body (totalSize (node r)) in
  let body := WriteString body (fieldName r) in
  let body := WriteVarint body (zlen (children (node r))) in
  WriteNodes (children (node r)) types body.

Fixpoint WriteRoots (tree : TypeReferenceTree) (types : StringTable) (body : list byte)
    : StringTable * list byte :=
  match tree with
  | [] => (types, body)
  | r :: tree => let '(types, body) := WriteRoot r types body in WriteRoots tree types body
  end.

Definition Magic : list byte := [68; 68; 82; 84].
Definition FormatVersion : Z := 1.

Definition Serialize (tree : TypeReferenceTree) : list byte :=
  let '(types, body) := WriteRoots tree (mkTable [] 0 ∅) [] in
  let out := WriteBytes [] Magic in
  let out := WriteVarint out FormatVersion in
  let out := WriteVarint out (st_count types) in
  let out := WriteVarint out (zlen tree) in
  (out ++ st_bytes types) ++ body.
End serializer.

(** ** A reader for the documented layout *)

Fixpoint ReadVarint (fuel : nat) (shift : Z) (input : list byte) : option (Z * list byte) :=
  match fuel, input with
  | S fuel, b :: input =>
      if b <? 128 then Some (Z.shiftl b shift, input)
      else '(v, input) ← ReadVarint fuel (shift + 7) input;
           Some (Z.shiftl (b - 128) shift + v, input)
  | _, _ => None
  end.

Definition read_varint (input : list byte) := ReadVarint 10 0 input.

Definition read_bytes (n : Z) (input : list byte) : option (list byte * list byte) :=
  if n <=? zlen input then Some (take (Z.to_nat n) input, drop (Z.to_nat n) input) else None.

Definition read_string (input : list byte) : option (text * list byte) :=
  '(n, input) ← read_varint input; read_bytes n input.

Fixpoint read_many {A} (read : list byte -> option (A * list byte)) (n : nat) (input : list byte)
    : option (list A * list byte) :=
  match n with
  | O => Some ([], input)
  | S n =>
      '(x, input) ← read input;
      '(xs, input) ← read_many read n input;
      Some (x :: xs, input)
  end.

(** What a reader sees: types by name. *)
Inductive named_node := NamedNode (name : text) (count size : Z) (children : list named_node).
Record named_root := mkNamedRoot {
  n_node : named_node; n_category : RootCategory; n_field : text
}.

Definition category_of_byte (b : byte) : option RootCategory :=
  match b with
  | 0 => Some Stack | 1 => Some StaticVariable | 2 => Some Finalizer | 3 => Some Handle
  | 4 => Some Pinning | 5 => Some ConditionalWeakTable | 6 => Some COM | 7 => Some Other
  | 8 => Some Unknown | _ => None
  end.

Fixpoint read_node (fuel : nat) (names : list text) (input : list byte)
    : option (named_node * list byte) :=
  match fuel with
  | O => None
  | S fuel =>
      '(i, input) ← read_varint input;
      name ← names !! Z.to_nat i;
      '(c, input) ← read_varint input;
      '(s, input) ← read_varint input;
      '(k, input) ← read_varint input;
      '(l, input) ← read_many (read_node fuel names) (Z.to_nat k) input;
      Some (NamedNode name c s l, input)
  end.

Definition read_root (fuel : nat) (names : list text) (input : list byte)
    : option (named_root * list byte) :=
  '(i, input) ← read_varint input;
  name ← names !! Z.to_nat i;
  '(b, input) ← read_bytes 1 input;
  cat ← b ← head b; category_of_byte b;
  '(c, input) ← read_varint input;
  '(s, input) ← read_varint input;
  '(field, input) ← read_string input;
  '(k, input) ← read_varint input;
  '(l, input) ← read_many (read_node fuel names) (Z.to_nat k) input;
  Some (mkNamedRoot (NamedNode name c s l) cat field, input).

Definition Deserialize (input : list byte) : option (list named_root) :=
  '(magic, rest) ← read_bytes 4 input;
  if negb (bool_decide (magic = Magic)) then None
  else
    '(version, rest) ← read_varint rest;
    if negb (version =? FormatVersion) then None
    else
      '(type_count, rest) ← read_varint rest;
      '(root_count, rest) ← read_varint rest;
      '(names, rest) ← read_many read_string (Z.to_nat type_count) rest;
      '(roots, rest) ← read_many (read_root (length input) names) (Z.to_nat root_count) rest;
      match rest with [] => Some roots | _ => None end.

(** ** Variable-length integers *)

Lemma lor_128 b : 0 <= b < 128 -> Z.lor b 128 = b + 128.
Proof.
  intros Hb.
  assert (forallb (fun k => Z.lor (Z.of_nat k) 128 =? Z.of_nat k + 128) (seq 0 128) = true) as H
    by (vm_compute; reflexivity).
  rewrite forallb_forall in H. specialize (H (Z.to_nat b)).
  rewrite Z2Nat.id in H by lia. apply Z.eqb_eq, H, in_seq. lia.
Qed.

Lemma varint_byte v : u8 (Z.land v 127) = v mod 128.
Proof.
  change 127 with (2 ^ 7 - 1). rewrite land_mask by lia. change (2 ^ 7) with 128.
  apply wrap_small. pose proof (Z.mod_pos_bound v 128). unfold in_u. lia.
Qed.

Lemma varint_loop_app fuel : forall out v, varint_loop fuel out v = out ++ varint_loop fuel [] v.
Proof.
  induction fuel as [|fuel IH]; intros out v; cbn [varint_loop]; [by rewrite app_nil_r|].
  destruct (negb (Z.shiftr v 7 =? 0)); [|done].
  rewrite (IH (out ++ _)), (IH ([] ++ _)). by rewrite <- app_assoc.
Qed.

Definition varint (v : Z) : list byte := WriteVarint [] v.

Lemma WriteVarint_app out v : WriteVarint out v = out ++ varint v.
Proof. apply varint_loop_app. Qed.

Lemma varint_loop_read fuel : forall v shift rest,
  0 <= shift -> 0 <= v < 2 ^ (7 * Z.of_nat fuel) -> (0 < fuel)%nat ->
  ReadVarint fuel shift (varint_loop fuel [] v ++ rest) = Some (Z.shiftl v shift, rest).
Proof.
  induction fuel as [|fuel IH]; intros v shift rest Hs Hv Hf; [lia|].
  cbn [varint_loop]. rewrite varint_byte, Z.shiftr_div_pow2 by lia. change (2 ^ 7) with 128.
  pose proof (Z.mod_pos_bound v 128). pose proof (Z.div_mod v 128).
  assert (0 <= v / 128) by (apply Z.div_pos; lia).
  destruct (Z.eqb_spec (v / 128) 0) as [E|E]; cbn [negb].
  - cbn [app ReadVarint]. rewrite (proj2 (Z.ltb_lt _ _)) by lia. do 2 f_equal. f_equal. lia.
  - rewrite varint_loop_app. cbn [app ReadVarint].
    change 128 with 0x80 at 2. rewrite lor_128 by lia.
    rewrite (proj2 (Z.ltb_ge _ _)) by lia.
    assert (0 < fuel)%nat.
    { destruct fuel; [|lia]. change (7 * Z.of_nat 1) with 7 in Hv. lia. }
    rewrite IH; [|lia| |done].
    + cbn [mbind option_bind]. rewrite Z.add_simpl_r, !Z.shiftl_mul_pow2, Z.pow_add_r by lia.
      change (2 ^ 7) with 128. do 2 f_equal. nia.
    + split; [done|]. apply Z.div_lt_upper_bound; [lia|].
      replace (7 * Z.of_nat (S fuel)) with (7 + 7 * Z.of_nat fuel) in Hv by lia.
      rewrite Z.pow_add_r in Hv by lia. lia.
Qed.

Lemma read_varint_ok v rest : 0 <= v < 2 ^ 64 -> read_varint (varint v ++ rest) = Some (v, rest).
Proof.
  intros Hv. unfold read_varint, varint, WriteVarint. rewrite varint_loop_read; [|lia| |lia].
  - by rewrite Z.shiftl_0_r.
  - pose proof (Z.pow_lt_mono_r 2 64 (7 * Z.of_nat 10)). lia.
Qed.

Lemma varint_loop_nonempty fuel v : (1 <= length (varint_loop (S fuel) [] v))%nat.
Proof.
  cbn [varint_loop].
  destruct (negb (Z.shiftr v 7 =? 0)); [rewrite varint_loop_app, length_app|]; cbn; lia.
Qed.

Lemma varint_nonempty v : (1 <= length (varint v))%nat.
Proof. apply varint_loop_nonempty. Qed.

(** ** Strings *)

Definition string_bytes (s : text) : list byte := varint (zlen s) ++ s.

Lemma WriteString_app out s : WriteString out s = out ++ string_bytes s.
Proof. unfold WriteString. by rewrite WriteVarint_app, <- app_assoc. Qed.

Lemma read_bytes_ok s rest : read_bytes (zlen s) (s ++ rest) = Some (s, rest).
Proof.
  unfold read_bytes. rewrite length_app, (proj2 (Z.leb_le _ _)) by lia.
  by rewrite Nat2Z.id, take_app_length, drop_app_length.
Qed.

Lemma read_string_ok s rest :
  zlen s < 2 ^ 64 -> read_string (string_bytes s ++ rest) = Some (s, rest).
Proof.
  intros Hs. unfold read_string, string_bytes. rewrite <- app_assoc, read_varint_ok by lia.
  cbn [mbind option_bind]. apply read_bytes_ok.
Qed.

Lemma read_strings_ok l rest :
  Forall (fun s : text => zlen s < 2 ^ 64) l ->
  read_many read_string (length l) (concat (string_bytes <$> l) ++ rest) = Some (l, rest).
Proof.
  induction 1 as [|s l Hs _ IH]; [done|]. cbn [length read_many fmap list_fmap concat].
  rewrite <- app_assoc, read_string_ok by done. cbn [mbind option_bind].
  change (list_fmap text (list byte) string_bytes l) with (string_bytes <$> l).
  by rewrite IH.
Qed.

(** ** Nodes *)

Section node_induction.
Context (P : TypeTreeNode -> Prop) (HNode : forall t c s l, Forall P l -> P (Node t c s l)).
Fixpoint node_nested_ind (n : TypeTreeNode) : P n :=
  let '(Node t c s l) := n in
  HNode t c s l ((fix all (l : list TypeTreeNode) : Forall P l :=
    match l with
    | [] => Forall_nil_2 P
    | n :: l => Forall_cons_2 P n l (node_nested_ind n) (all l)
    end) l).
End node_induction.

Fixpoint node_size (n : TypeTreeNode) : nat :=
  let '(Node _ _ _ l) := n in S (list_sum (node_size <$> l)).

Fixpoint node_ok (n : TypeTreeNode) : Prop :=
  let '(Node _ c s l) := n in in_u 64 c /\ in_u 64 s /\ foldr (fun n P => node_ok n /\ P) True l.

Definition nodes_ok (l : list TypeTreeNode) : Prop := foldr (fun n P => node_ok n /\ P) True l.
Definition nodes_size (l : list TypeTreeNode) : nat := list_sum (node_size <$> l).

Lemma nodes_size_cons n l : nodes_size (n :: l) = (node_size n + nodes_size l)%nat.
Proof. reflexivity. Qed.

Lemma nodes_size_length l : (length l <= nodes_size l)%nat.
Proof.
  induction l as [|[a b c d] l IH]; [cbn; lia|]. rewrite nodes_size_cons. cbn [node_size length]. lia.
Qed.

Section roundtrip.
Context (GetTypeName : Z -> option text).
Hypothesis Hnames : forall id, zlen (type_name GetTypeName id) < 2 ^ 64.

Fixpoint named (n : TypeTreeNode) : named_node :=
  let '(Node id c s l) := n in NamedNode (type_name GetTypeName id) c s (map named l).

Record table_ok (names : list text) (t : StringTable) : Prop := {
  to_bytes : st_bytes t = concat (string_bytes <$> names);
  to_count : st_count t = zlen names;
  to_len : Forall (fun s : text => zlen s < 2 ^ 64) names;
  to_index : forall id i, typeToIndex t !! id = Some i ->
    0 <= i < zlen names /\ names !! Z.to_nat i = Some (type_name GetTypeName id)
}.

Lemma RegisterType_ok names t id :
  table_ok names t -> zlen names + 1 < 2 ^ 32 ->
  exists t' i more, RegisterType GetTypeName t id = (t', i) /\
    table_ok (names ++ more) t' /\ (length more <= 1)%nat /\ 0 <= i < 2 ^ 32 /\
    (names ++ more) !! Z.to_nat i = Some (type_name GetTypeName id).
Proof.
  intros [Hb Hc Hl Hi] Hlen. unfold RegisterType.
  destruct (typeToIndex t !! id) as [i|] eqn:E.
  - destruct (Hi _ _ E). exists t, i, []. rewrite app_nil_r. split_and!; try done; cbn; lia.
  - exists (mkTable (WriteString (st_bytes t) (type_name GetTypeName id)) (u32 (st_count t + 1))
              (<[id:=st_count t]> (typeToIndex t))), (st_count t), [type_name GetTypeName id].
    assert ((names ++ [type_name GetTypeName id]) !! Z.to_nat (zlen names)
            = Some (type_name GetTypeName id)) as Hlast
      by (rewrite Nat2Z.id, lookup_app_r, Nat.sub_diag by lia; done).
    split; [done|]. split_and!; [|done|lia|lia|by rewrite Hc].
    split; cbn [st_bytes st_count typeToIndex].
    + rewrite WriteString_app, Hb, fmap_app, concat_app. cbn. by rewrite app_nil_r.
    + rewrite Hc, length_app, wrap_small by (unfold in_u; lia). cbn. lia.
    + apply Forall_app. split; [done|]. by constructor.
    + intros id' i' [[<- <-]|[Hne Hi']]%lookup_insert_Some.
      * rewrite Hc. split; [rewrite length_app; cbn; lia|done].
      * apply Hi in Hi' as [Hr Hn]. split; [rewrite length_app; lia|]. by apply lookup_app_l_Some.
Qed.

Lemma WriteNode_unfold id c s l types out :
  WriteNode GetTypeName (Node id c s l) types out =
    let '(types, typeIndex) := RegisterType GetTypeName types id in
    WriteNodes GetTypeName l types
      (WriteVarint (WriteVarint (WriteVarint (WriteVarint out typeIndex) c) s) (zlen l)).
Proof.
  cbn [WriteNode]. destruct (RegisterType GetTypeName types id) as [t i].
  generalize (WriteVarint (WriteVarint (WriteVarint (WriteVarint out i) c) s) (zlen l)) as o.
  revert t. induction l as [|n l IH]; intros t o; [done|].
  cbn [WriteNodes]. destruct (WriteNode GetTypeName n t o) as [t' o']. apply IH.
Qed.

(** Writing appends bytes that any reader holding a table that extends the one built so
    far decodes back. *)
Definition writes {A} (write : StringTable -> list byte -> StringTable * list byte)
    (size : nat) (read : nat -> list text -> list byte -> option (A * list byte)) (x : A) : Prop :=
  forall names t out, table_ok names t -> zlen names + Z.of_nat size < 2 ^ 32 ->
  exists t' more enc, write t out = (t', out ++ enc) /\ table_ok (names ++ more) t' /\
    (length more <= size)%nat /\ (size <= length enc)%nat /\
    forall fuel final rest, (size <= fuel)%nat -> (names ++ more) `prefix_of` final ->
      read fuel final (enc ++ rest) = Some (x, rest).

Definition node_writes (n : TypeTreeNode) : Prop :=
  node_ok n -> writes (WriteNode GetTypeName n) (node_size n) read_node (named n).

Lemma nodes_writes l :
  Forall node_writes l -> nodes_ok l ->
  writes (WriteNodes GetTypeName l) (nodes_size l)
    (fun fuel names => read_many (read_node fuel names) (length l)) (map named l).
Proof.
  induction 1 as [|n l Hn _ IH]; intros Hok names t out Ht Hsz; cbn [WriteNodes].
  { exists t, [], []. rewrite !app_nil_r. split_and!; try done; cbn; lia. }
  destruct Hok as [Hok1 Hok2]. rewrite nodes_size_cons in *.
  destruct (Hn Hok1 names t out Ht ltac:(lia)) as (t1 & m1 & e1 & -> & Ht1 & Hm1 & He1 & Hr1).
  destruct (IH Hok2 (names ++ m1) t1 (out ++ e1) Ht1) as (t2 & m2 & e2 & -> & Ht2 & Hm2 & He2 & Hr2).
  { rewrite length_app. lia. }
  exists t2, (m1 ++ m2), (e1 ++ e2). rewrite !app_assoc. split_and!; try done.
  - rewrite length_app. lia.
  - rewrite length_app. lia.
  - intros fuel final rest Hf Hp. cbn [length read_many]. rewrite <- app_assoc.
    rewrite Hr1; [|lia|].
    + cbn [mbind option_bind]. rewrite Hr2 by (try lia; done). done.
    + etransitivity; [|exact Hp]. by apply prefix_app_r.
Qed.

Lemma node_writes_all n : node_writes n.
Proof.
  induction n as [id c s l IH] using node_nested_ind. intros Hok names t out Ht Hsz.
  cbn [node_ok node_size] in *. destruct Hok as (Hc & Hs & Hl).
  fold (nodes_size l) in *. rewrite WriteNode_unfold.
  destruct (RegisterType_ok names t id Ht ltac:(lia)) as (t1 & i & m1 & -> & Ht1 & Hm1 & Hi & Hni).
  set (o := WriteVarint _ _).
  destruct (nodes_writes l IH Hl (names ++ m1) t1 o Ht1) as (t2 & m2 & e2 & -> & Ht2 & Hm2 & He2 & Hr2).
  { rewrite length_app. lia. }
  pose proof (nodes_size_length l) as Hll.
  exists t2, (m1 ++ m2), (varint i ++ varint c ++ varint s ++ varint (zlen l) ++ e2).
  subst o. rewrite !WriteVarint_app, !app_assoc. split_and!; try done.
  - rewrite length_app. lia.
  - rewrite !length_app. pose proof (varint_nonempty i). lia.
  - intros [|fuel] final rest Hf Hp; [lia|]. cbn [read_node]. rewrite <- !app_assoc.
    rewrite read_varint_ok by lia. cbn [mbind option_bind].
    assert (final !! Z.to_nat i = Some (type_name GetTypeName id)) as ->.
    { eapply prefix_lookup_Some; [|exact Hp]. by apply lookup_app_l_Some. }
    cbn [mbind option_bind]. do 2 (rewrite read_varint_ok by done; cbn [mbind option_bind]).
    rewrite read_varint_ok by lia. cbn [mbind option_bind]. rewrite Nat2Z.id.
    rewrite Hr2 by (try lia; done). done.
Qed.

(** ** Roots and the whole file *)

Definition named_root_of (r : TypeRootNode) : named_root :=
  mkNamedRoot (named (node r)) (category r) (fieldName r).

Definition root_ok (r : TypeRootNode) : Prop := node_ok (node r) /\ zlen (fieldName r) < 2 ^ 64.

Lemma category_roundtrip c : category_of_byte (category_byte c) = Some c.
Proof. by destruct c. Qed.

Lemma root_writes r :
  root_ok r -> writes (WriteRoot GetTypeName r) (node_size (node r)) read_root (named_root_of r).
Proof.
  destruct r as [[id c s l] cat f]. intros [Hok Hf] names t out Ht Hsz.
  cbn [node node_ok node_size fieldName] in *. destruct Hok as (Hc & Hs & Hl).
  fold (nodes_size l) in *. unfold WriteRoot. cbn [node typeID instanceCount totalSize children category fieldName].
  destruct (RegisterType_ok names t id Ht ltac:(lia)) as (t1 & i & m1 & -> & Ht1 & Hm1 & Hi & Hni).
  set (o := WriteVarint _ (zlen l)).
  destruct (nodes_writes l (Forall_true _ _ node_writes_all) Hl (names ++ m1) t1 o Ht1)
    as (t2 & m2 & e2 & -> & Ht2 & Hm2 & He2 & Hr2).
  { rewrite length_app. lia. }
  pose proof (nodes_size_length l) as Hll.
  exists t2, (m1 ++ m2), (varint i ++ [category_byte cat] ++ varint c ++ varint s ++
    string_bytes f ++ varint (zlen l) ++ e2).
  subst o. rewrite !WriteVarint_app, !WriteString_app, !app_assoc.
  split_and!; try done.
  - rewrite length_app. lia.
  - rewrite !length_app. pose proof (varint_nonempty i). lia.
  - intros fuel final rest Hfu Hp. unfold read_root. rewrite <- !app_assoc.
    rewrite read_varint_ok by lia. cbn [mbind option_bind].
    assert (final !! Z.to_nat i = Some (type_name GetTypeName id)) as ->.
    { eapply prefix_lookup_Some; [|exact Hp]. by apply lookup_app_l_Some. }
    cbn [mbind option_bind]. change 1 with (zlen [category_byte cat]).
    rewrite read_bytes_ok. cbn [mbind option_bind head]. rewrite category_roundtrip.
    cbn [mbind option_bind]. do 2 (rewrite read_varint_ok by done; cbn [mbind option_bind]).
    rewrite read_string_ok by done. cbn [mbind option_bind].
    rewrite read_varint_ok by lia. cbn [mbind option_bind]. rewrite Nat2Z.id.
    rewrite Hr2 by (try lia; done). done.
Qed.

Definition roots_size (tree : TypeReferenceTree) : nat := list_sum ((fun r => node_size (node r)) <$> tree).

Lemma roots_size_cons r tree : roots_size (r :: tree) = (node_size (node r) + roots_size tree)%nat.
Proof. reflexivity. Qed.

Lemma roots_writes tree :
  Forall root_ok tree ->
  writes (WriteRoots GetTypeName tree) (roots_size tree)
    (fun fuel names => read_many (read_root fuel names) (length tree)) (map named_root_of tree).
Proof.
  induction 1 as [|r tree Hr _ IH]; intros names t out Ht Hsz; cbn [WriteRoots].
  { exists t, [], []. rewrite !app_nil_r. split_and!; try done; cbn; lia. }
  rewrite roots_size_cons in *.
  destruct (root_writes r Hr names t out Ht ltac:(lia)) as (t1 & m1 & e1 & -> & Ht1 & Hm1 & He1 & Hr1).
  destruct (IH (names ++ m1) t1 (out ++ e1) Ht1) as (t2 & m2 & e2 & -> & Ht2 & Hm2 & He2 & Hr2).
  { rewrite length_app. lia. }
  exists t2, (m1 ++ m2), (e1 ++ e2). rewrite !app_assoc. split_and!; try done.
  - rewrite length_app. lia.
  - rewrite length_app. lia.
  - intros fuel final rest Hf Hp. cbn [length read_many]. rewrite <- app_assoc.
    rewrite Hr1; [|lia|].
    + cbn [mbind option_bind]. rewrite Hr2 by (try lia; done). done.
    + etransitivity; [|exact Hp]. by apply prefix_app_r.
Qed.
End roundtrip.

Lemma roots_size_length tree : (length tree <= roots_size tree)%nat.
Proof.
  induction tree as [|[[a b c d] cat f] tree IH]; [cbn; lia|].
  rewrite roots_size_cons. cbn [node_size node length]. lia.
Qed.

(** C19: Reading back the binary form gives the tree that was written: every root with its
    category and field name, every node with its type name (or "?" when the frame store
    has none), instance count and total size, in the order of the walk, and nothing is
    left over.  The counts are any 64-bit values; fewer than 2^32 nodes, as the 32-bit
    type index requires. *)
Theorem binary_roundtrip GetTypeName tree :
  (forall id, zlen (type_name GetTypeName id) < 2 ^ 64) -> Forall root_ok tree ->
  Z.of_nat (roots_size tree) < 2 ^ 32 ->
  Deserialize (Serialize GetTypeName tree) = Some (map (named_root_of GetTypeName) tree).
Proof.
  intros Hn Hok Hsz. unfold Serialize.
  destruct (roots_writes GetTypeName Hn tree Hok [] (mkTable [] 0 ∅) []) as
    (t & names & body & -> & [Hb Hc Hl _] & Hm & He & Hr); [by split|cbn; lia|].
  cbn [app] in *. pose proof (roots_size_length tree) as Htl.
  unfold WriteBytes. rewrite !WriteVarint_app, Hb, Hc. cbn [app]. rewrite <- !app_assoc.
  unfold Deserialize. set (input := Magic ++ _).
  assert (roots_size tree <= length input)%nat as Hfuel
    by (subst input; rewrite !length_app; lia).
  subst input. change 4 with (zlen Magic). rewrite read_bytes_ok. cbn [mbind option_bind].
  rewrite bool_decide_true by done. cbn [negb].
  rewrite read_varint_ok by (unfold FormatVersion; lia). cbn [mbind option_bind].
  rewrite Z.eqb_refl. cbn [negb].
  rewrite read_varint_ok by lia. cbn [mbind option_bind].
  rewrite read_varint_ok by lia. cbn [mbind option_bind]. rewrite !Nat2Z.id.
  rewrite read_strings_ok by done. cbn [mbind option_bind].
  rewrite <- (app_nil_r body). rewrite Hr; [done| |done].
  rewrite app_nil_r. exact Hfuel.
Qed.

Definition witness_names (id : Z) : option text := if id =? 7 then None else Some [65; id].
Definition witness_tree : TypeReferenceTree :=
  [mkRoot (Node 1 3 300 [Node 2 1 (2 ^ 64 - 1) []; Node 1 2 40 [Node 7 0 0 []]]) Stack [];
   mkRoot (Node 7 1 24 []) StaticVariable [95; 120]].

Lemma binary_roundtrip_witness :
  Deserialize (Serialize witness_names witness_tree) =
    Some [mkNamedRoot (NamedNode [65; 1] 3 300
            [NamedNode [65; 2] 1 (2 ^ 64 - 1) [];
             NamedNode [65; 1] 2 40 [NamedNode [63] 0 0 []]]) Stack [];
          mkNamedRoot (NamedNode [63] 1 24 []) StaticVariable [95; 120]].
Proof.
  apply (binary_roundtrip witness_names witness_tree).
  - intros id. unfold type_name, witness_names. destruct (id =? 7); cbn; lia.
  - repeat constructor; cbn; unfold in_u; lia.
  - vm_compute. reflexivity.
Defined.

(** Variable-length integers: every 64-bit value is written in at most ten bytes, all
    but the last with the high bit set, and read back exactly whatever follows. *)
Theorem varint_roundtrip v rest :
  0 <= v < 2 ^ 64 ->
  read_varint (WriteVarint [] v ++ rest) = Some (v, rest) /\
  (1 <= length (WriteVarint [] v) <= 10)%nat.
Proof.
  intros Hv. split; [by apply read_varint_ok|]. split; [apply varint_nonempty|].
  unfold WriteVarint. generalize 10%nat as fuel. intros fuel. revert v Hv.
  assert (forall v, (length (varint_loop fuel [] v) <= fuel)%nat) as H; [|auto].
  induction fuel as [|fuel IH]; intros v; cbn [varint_loop]; [cbn; lia|].
  destruct (negb (Z.shiftr v 7 =? 0)); [|cbn; lia].
  rewrite varint_loop_app, length_app. specialize (IH (Z.shiftr v 7)). cbn [app length]. lia.
Qed.

Lemma varint_roundtrip_witness :
  read_varint (WriteVarint [] (2 ^ 64 - 1) ++ [5]) = Some (2 ^ 64 - 1, [5]).
Proof. apply (varint_roundtrip (2 ^ 64 - 1) [5]). lia. Defined.

(** ** What the tree counts *)

(** The effect of one visited object: its instance is added at the node that its chain of
    types leads to, creating the nodes on the way. *)
Fixpoint touch (path : list Z) (size : Z) (n : TypeTreeNode) : TypeTreeNode :=
  match path with
  | [] => AddInstance size n
  | id :: path => GetOrCreateChild id (touch path size) n
  end.

(** Instances and bytes recorded at a chain of types. *)
Fixpoint recorded (path : list Z) (n : TypeTreeNode) : Z * Z :=
  match path with
  | [] => (instanceCount n, totalSize n)
  | id :: path => match GetChild id n with Some c => recorded path c | None => (0, 0) end
  end.

Lemma touch_typeID path size n : typeID (touch path size n) = typeID n.
Proof. destruct n, path; done. Qed.

Lemma find_on_child i j f l :
  (forall n, typeID (f n) = typeID n) ->
  find_child j (on_child i f l) =
    if i =? j then Some (f (default (new_TypeTreeNode i) (find_child i l))) else find_child j l.
Proof.
  intros Hf. induction l as [|n l IH]; cbn [on_child find_child].
  - rewrite Hf. cbn. by destruct (Z.eqb_spec i j).
  - destruct (Z.eqb_spec (typeID n) i) as [E|E]; cbn [find_child].
    + rewrite Hf. destruct (Z.eqb_spec (typeID n) j), (Z.eqb_spec i j); cbn; congruence.
    + rewrite IH. destruct (Z.eqb_spec (typeID n) j), (Z.eqb_spec i j); congruence.
Qed.

Lemma recorded_new path id : recorded path (new_TypeTreeNode id) = (0, 0).
Proof. by destruct path. Qed.

Lemma recorded_touch path size : forall q n,
  recorded q (touch path size n) =
    if decide (q = path)
    then (u64 ((recorded q n).1 + 1), u64 ((recorded q n).2 + size)) else recorded q n.
Proof.
  induction path as [|i path IH]; intros q [t c s l]; destruct q as [|j q]; try done.
  cbn [touch GetOrCreateChild recorded]. unfold GetChild. cbn [children].
  rewrite find_on_child by (intros; apply touch_typeID).
  destruct (Z.eqb_spec i j) as [->|Hne].
  - rewrite IH. destruct (find_child j l) as [m|]; cbn [default from_option id].
    + destruct (decide (q = path)), (decide (j :: q = j :: path)); congruence.
    + rewrite recorded_new. destruct (decide (q = path)), (decide (j :: q = j :: path)); congruence.
  - rewrite decide_False by congruence. done.
Qed.

(** Totals of the visits whose chain is [q]. *)
Definition visit_totals (q : list Z) (vs : list (list Z * Z)) : Z * Z :=
  foldr (fun v acc => if decide (v.1 = q) then (acc.1 + 1, acc.2 + v.2) else acc) (0, 0) vs.

(** A tree built by any sequence of visits records, at every chain of types, exactly the
    number of visited objects with that chain and the sum of their sizes (modulo 2^64),
    and nothing at chains that were never visited: instances of the same type reached
    along different chains are kept apart. *)
Theorem tree_counts_visits id vs q :
  recorded q (foldr (fun v n => touch v.1 v.2 n) (new_TypeTreeNode id) vs) =
    (u64 (visit_totals q vs).1, u64 (visit_totals q vs).2).
Proof.
  induction vs as [|[p size] vs IH]; [apply recorded_new|]. cbn [foldr visit_totals fst snd].
  rewrite recorded_touch, IH. fold (visit_totals q vs).
  destruct (decide (q = p)), (decide (p = q)); try congruence. cbn [fst snd]. unfold wrap.
  by rewrite !Zplus_mod_idemp_l.
Qed.
