(* ===== verification/TypeTreeJson.v ===== *)
(** * The JSON form of the type reference tree

    Model of [TypeReferenceTreeJsonSerializer.cpp]: the single-pass writer with its lazily
    filled type table, and the string escaping with its fast path.  Characters are byte
    values. *)
From stdpp Require Import base gmap list strings.
From Stdlib Require Import Ascii.
From S2P Require Import Prelude TypeReferenceTree.

(** The characters of a literal of the source. *)
Fixpoint chars (s : string) : text :=
  match s with
  | EmptyString => []
  | String c s => Z.of_N (N_of_ascii c) :: chars s
  end.
Arguments chars s%_string.

(** ** Writing primitives *)

(** The digits printf gives for %u and %llu. *)
Fixpoint digits (fuel : nat) (v : Z) : text :=
  match fuel with
  | O => []
  | S fuel => if v <? 10 then [48 + v] else digits fuel (v / 10) ++ [48 + v mod 10]
  end.

Definition AppendUInt64 (out : text) (v : Z) : text := out ++ digits 20 v.
Definition AppendUInt32 (out : text) (v : Z) : text := out ++ digits 20 v.

Definition needs_escape (c : byte) : bool := (c =? 34) || (c =? 92) || (c <? 0x20).

Definition hex_digit (d : Z) : byte := if d <? 10 then 48 + d else 87 + d.

(** One character on the slow path; \u%04x of a byte has two leading zeros. *)
Definition escape_char (c : byte) : text :=
  if c =? 34 then [92; 34]
  else if c =? 92 then [92; 92]
  else if c =? 8 then [92; 98]
  else if c =? 12 then [92; 102]
  else if c =? 10 then [92; 110]
  else if c =? 13 then [92; 114]
  else if c =? 9 then [92; 116]
  else if c <? 0x20 then [92; 117; 48; 48; hex_digit (c / 16); hex_digit (c mod 16)]
  else [c].

Definition AppendEscapedJson (out str : text) : text :=
  if negb (existsb needs_escape str) then out ++ str
  else fold_left (fun out c => out ++ escape_char c) str out.

Definition GetRootCategoryCode (c : RootCategory) : text :=
  chars match c with
        | Stack => "K" | StaticVariable => "S" | Finalizer => "F" | Handle => "H"
        | Pinning => "P" | ConditionalWeakTable => "W" | COM => "R" | Other => "O"
        | Unknown => "?"
        end.

(** ** The writer *)

Record TypeTable := mkTypes { tt_json : text; tt_count : Z; tt_index : gmap Z Z }.

(** A double quote, which Rocq strings of this file do not hold. *)
Definition quote : text := [34].

Section json.
Context (GetTypeName : Z -> option text).

Definition RegisterType (types : TypeTable) (id : Z) : TypeTable * Z :=
  match tt_index types !! id with
  | Some i => (types, i)
  | None =>
      let json := if 0 <? tt_count types then tt_json types ++ chars "," else tt_json types in
      let json := json ++ quote in
      let json := match GetTypeName id with
                  | Some name => AppendEscapedJson json name
                  | None => json ++ chars "?"
                  end in
      let json := json ++ quote in
      (mkTypes json (u32 (tt_count types + 1)) (<[id := tt_count types]> (tt_index types)),
       tt_count types)
  end.

(** [,"k":] of the literals in the source. *)
Definition key (k : string) : text := chars "," ++ quote ++ chars k ++ quote ++ chars ":".

Fixpoint OutputNode (n : TypeTreeNode) (types : TypeTable) (out : text) : TypeTable * text :=
  let '(Node id c s l) := n in
  let '(types, typeIndex) := RegisterType types id in
  let out := out ++ chars "{" ++ quote ++ chars "t" ++ quote ++ chars ":" in
  let out := AppendUInt32 out typeIndex in
  let out := if 0 <? c then AppendUInt64 (out ++ key "ic") c else out in
  let out := if 0 <? s then AppendUInt64 (out ++ key "ts") s else out in
  let '(types, out) :=
    match l with
    | [] => (types, out)
    | _ =>
        let '(types, out) :=
          (fix go (first : bool) (l : list TypeTreeNode) (types : TypeTable) (out : text) :=
             match l with
             | [] => (types, out)
             | n :: l =>
                 let out := if negb first then out ++ chars "," else out in
                 let '(types, out) := OutputNode n types out in
                 go false l types out
             end) true l types (out ++ key "ch" ++ chars "[") in
        (types, out ++ chars "]")
    end in
  (types, out ++ chars "}").

Fixpoint OutputNodes (first : bool) (l : list TypeTreeNode) (types : TypeTable) (out : text)
    : TypeTable * text :=
  match l with
  | [] => (types, out)
  | n :: l =>
      let out := if negb first then out ++ chars "," else out in
      let '(types, out) := OutputNode n types out in
      OutputNodes false l types out
  end.

Definition OutputRoot (r : TypeRootNode) (types : TypeTable) (typeIndex : Z) (out : text)
    : TypeTable * text :=
  let out := out ++ chars "{" ++ quote ++ chars "t" ++ quote ++ chars ":" in
  let out := AppendUInt32 out typeIndex in
  let out := out ++ key "c" ++ quote ++ GetRootCategoryCode (category r) ++ quote in
  let out := AppendUInt64 (out ++ key "ic") (instanceCount (node r)) in
  let out := AppendUInt64 (out ++ key "ts") (totalSize (node r)) in
  let out := match fieldName r with
             | [] => out
             | f => AppendEscapedJson (out ++ key "fn" ++ quote) f ++ quote
             end in
  let '(types, out) :=
    match children (node r) with
    | [] => (types, out)
    | _ =>
        let '(types, out) :=
          OutputNodes true (children (node r)) types (out ++ key "ch" ++ chars "[") in
        (types, out ++ chars "]")
    end in
  (types, out ++ chars "}").

Fixpoint OutputRoots (first : bool) (tree : TypeReferenceTree) (types : TypeTable) (out : text)
    : TypeTable * text :=
  match tree with
  | [] => (types, out)
  | r :: tree =>
      let '(types, typeIndex) := RegisterType types (typeID (node r)) in
      let out := if negb first then out ++ chars "," else out in
      let '(types, out) := OutputRoot r types typeIndex out in
      OutputRoots false tree types out
  end.

Definition SerializeJson (tree : TypeReferenceTree) : text :=
  let '(types, rootsJson) := OutputRoots true tree (mkTypes [] 0 ∅) (chars "[") in
  let rootsJson := rootsJson ++ chars "]" in
  let out := chars "{" ++ quote ++ chars "v" ++ quote ++ chars ":1" in
  let out := if 0 <? tt_count types
             then out ++ key "tt" ++ chars "[" ++ tt_json types ++ chars "]" else out in
  out ++ key "r" ++ rootsJson ++ chars "}".
End json.

(** ** JSON values and their compact rendering *)

Inductive json :=
| JNum (v : Z)
| JStr (t : text)
| JArr (l : list json)
| JObj (fields : list (text * json)).

Fixpoint sep (l : list text) : text :=
  match l with
  | [] => []
  | [x] => x
  | x :: l => x ++ [44] ++ sep l
  end.

Definition escape (s : text) : text := s ≫= escape_char.
Definition string_literal (s : text) : text := [34] ++ escape s ++ [34].

Fixpoint render (j : json) : text :=
  match j with
  | JNum v => digits 20 v
  | JStr t => string_literal t
  | JArr l => [91] ++ sep (map render l) ++ [93]
  | JObj fs => [123] ++ sep (map (fun f => string_literal f.1 ++ [58] ++ render f.2) fs) ++ [125]
  end.

(** ** The documented value *)

(** Type ids in the order of the walk, and the string table: first occurrences. *)
Fixpoint preorder (n : TypeTreeNode) : list Z :=
  let '(Node id _ _ l) := n in id :: flat_map preorder l.

Definition root_preorder (r : TypeRootNode) : list Z := preorder (node r).

(** Extend the table by the ids not in it yet. *)
Fixpoint table (known : list Z) (ids : list Z) : list Z :=
  match ids with
  | [] => known
  | id :: ids => table (if decide (id ∈ known) then known else known ++ [id]) ids
  end.

Fixpoint index_of (order : list Z) (id : Z) : Z :=
  match order with
  | [] => 0
  | x :: order => if x =? id then 0 else 1 + index_of order id
  end.

Fixpoint node_json (order : list Z) (n : TypeTreeNode) : json :=
  let '(Node id c s l) := n in
  JObj ([(chars "t", JNum (index_of order id))] ++
        (if 0 <? c then [(chars "ic", JNum c)] else []) ++
        (if 0 <? s then [(chars "ts", JNum s)] else []) ++
        match l with [] => [] | _ => [(chars "ch", JArr (map (node_json order) l))] end).

Definition root_json (order : list Z) (r : TypeRootNode) : json :=
  JObj ([(chars "t", JNum (index_of order (typeID (node r))));
         (chars "c", JStr (GetRootCategoryCode (category r)));
         (chars "ic", JNum (instanceCount (node r)));
         (chars "ts", JNum (totalSize (node r)))] ++
        match fieldName r with [] => [] | f => [(chars "fn", JStr f)] end ++
        match children (node r) with
        | [] => []
        | _ => [(chars "ch", JArr (map (node_json order) (children (node r))))]
        end).

Definition tree_json (GetTypeName : Z -> option text) (tree : TypeReferenceTree) : json :=
  let order := table [] (flat_map root_preorder tree) in
  JObj ([(chars "v", JNum 1)] ++
        match order with
        | [] => []
        | _ => [(chars "tt", JArr (map (fun id => JStr (type_name GetTypeName id)) order))]
        end ++
        [(chars "r", JArr (map (root_json order) tree))]).

(** ** Escaping *)

Lemma escape_char_plain c : needs_escape c = false -> escape_char c = [c].
Proof.
  unfold needs_escape, escape_char. intros H. bool_facts.
  rewrite !(proj2 (Z.eqb_neq _ _)), (proj2 (Z.ltb_ge _ _)) by lia. done.
Qed.

(** The fast path writes what the slow path would. *)
Lemma AppendEscapedJson_eq out s : AppendEscapedJson out s = out ++ escape s.
Proof.
  unfold AppendEscapedJson, escape. destruct (existsb needs_escape s) eqn:E; cbn [negb].
  - clear E. revert out. induction s as [|c s IH]; intros out; cbn; [by rewrite app_nil_r|].
    rewrite IH. by rewrite <- app_assoc.
  - f_equal. induction s as [|c s IH]; [done|]. cbn in *. bool_facts.
    rewrite escape_char_plain by done. cbn. f_equal. auto.
Qed.

(** A reader of the inside of a JSON string, up to the closing quote. *)
Definition hex_value (c : byte) : option Z :=
  if (48 <=? c) && (c <=? 57) then Some (c - 48)
  else if (97 <=? c) && (c <=? 102) then Some (c - 87) else None.

Fixpoint read_json_string (input : text) : option (text * text) :=
  match input with
  | [] => None
  | c :: rest =>
      if c =? 34 then Some ([], rest)
      else if c =? 92 then
        match rest with
        | [] => None
        | e :: rest =>
            if e =? 117 then
              match rest with
              | z1 :: z2 :: a :: b :: rest =>
                  if negb ((z1 =? 48) && (z2 =? 48)) then None
                  else
                    a ← hex_value a; b ← hex_value b;
                    '(s, rest) ← read_json_string rest; Some ((16 * a + b) :: s, rest)
              | _ => None
              end
            else
              c ← (if e =? 34 then Some 34 else if e =? 92 then Some 92
                   else if e =? 98 then Some 8 else if e =? 102 then Some 12
                   else if e =? 110 then Some 10 else if e =? 114 then Some 13
                   else if e =? 116 then Some 9 else None);
              '(s, rest) ← read_json_string rest; Some (c :: s, rest)
        end
      else if c <? 0x20 then None
      else '(s, rest) ← read_json_string rest; Some (c :: s, rest)
  end.

Lemma hex_digit_value d : 0 <= d < 16 -> hex_value (hex_digit d) = Some d.
Proof.
  intros Hd. unfold hex_value, hex_digit. destruct (Z.ltb_spec d 10).
  - rewrite !(proj2 (Z.leb_le _ _)) by lia. cbn. f_equal. lia.
  - rewrite (proj2 (Z.leb_gt (87 + d) 57)) by lia. rewrite andb_false_r.
    rewrite !(proj2 (Z.leb_le _ _)) by lia. cbn. f_equal. lia.
Qed.

Lemma read_escape_char c rest :
  0 <= c ->
  read_json_string (escape_char c ++ rest) =
    '(s, rest) ← read_json_string rest; Some (c :: s, rest).
Proof.
  intros Hc. unfold escape_char.
  repeat match goal with
  | |- context [if c =? ?k then _ else _] =>
      destruct (Z.eqb_spec c k) as [->|?]; [reflexivity|]
  end.
  destruct (Z.ltb_spec c 32).
  - cbn [app read_json_string Z.eqb Pos.eqb negb andb].
    assert (0 <= c / 16 < 16) by (split; [apply Z.div_pos|apply Z.div_lt_upper_bound]; lia).
    pose proof (Z.mod_pos_bound c 16). pose proof (Z.div_mod c 16).
    rewrite !hex_digit_value by lia. cbn [mbind option_bind].
    replace (16 * (c / 16) + c mod 16) with c by lia. done.
  - cbn [app read_json_string]. rewrite !(proj2 (Z.eqb_neq _ _)) by done.
    by rewrite (proj2 (Z.ltb_ge _ _)) by done.
Qed.

(** A string written between quotes is read back exactly by a JSON reader: the first
    unescaped quote is the closing one, whatever bytes the string holds, and the fast path
    that copies the string verbatim gives the same characters as escaping one by one. *)
Theorem escape_roundtrip str out rest :
  Forall (fun c => 0 <= c) str ->
  AppendEscapedJson out str = out ++ escape str /\
  read_json_string (AppendEscapedJson [] str ++ quote ++ rest) = Some (str, rest).
Proof.
  intros Hs. rewrite !AppendEscapedJson_eq. split; [done|]. cbn [app].
  induction Hs as [|c str Hc _ IH]; [done|]. unfold escape in *. cbn [mbind list_bind].
  change (list_bind byte byte escape_char str) with (str ≫= escape_char).
  rewrite <- app_assoc, read_escape_char by done. by rewrite IH.
Qed.

Lemma escape_roundtrip_witness :
  read_json_string (AppendEscapedJson [] [34; 97; 10; 1; 92] ++ quote ++ [44]) =
    Some ([34; 97; 10; 1; 92], [44]).
Proof. apply (escape_roundtrip [34; 97; 10; 1; 92] [] [44]). repeat constructor; lia. Defined.

(** ** The type table *)

Lemma index_of_app l m id : id ∈ l -> index_of (l ++ m) id = index_of l id.
Proof.
  induction l as [|x l IH]; [set_solver|]. cbn. intros Hin.
  destruct (Z.eqb_spec x id); [done|]. f_equal. apply IH. set_solver.
Qed.

Lemma index_of_last l id : id ∉ l -> index_of (l ++ [id]) id = zlen l.
Proof.
  induction l as [|x l IH]; cbn [app index_of length]; intros Hin.
  - by rewrite Z.eqb_refl.
  - rewrite (proj2 (Z.eqb_neq x id)) by set_solver. rewrite IH by set_solver. lia.
Qed.

Lemma index_of_prefix l m id : l `prefix_of` m -> id ∈ l -> index_of m id = index_of l id.
Proof. intros [k ->]. apply index_of_app. Qed.

Lemma table_prefix ids : forall known, known `prefix_of` table known ids.
Proof.
  induction ids as [|id ids IH]; intros known; cbn; [done|].
  etransitivity; [|apply IH]. case_decide; [done|]. by apply prefix_app_r.
Qed.

Lemma table_app ids1 ids2 : forall known, table known (ids1 ++ ids2) = table (table known ids1) ids2.
Proof. induction ids1 as [|id ids1 IH]; intros known; cbn; [done|apply IH]. Qed.

Lemma table_length ids : forall known, (length (table known ids) <= length known + length ids)%nat.
Proof.
  induction ids as [|id ids IH]; intros known; cbn [table length]; [lia|].
  etransitivity; [apply IH|]. case_decide; rewrite ?length_app; cbn; lia.
Qed.

Definition comma (l : list text) : text := l ≫= fun x => [44] ++ x.

Lemma sep_cons x l : sep (x :: l) = x ++ comma l.
Proof.
  revert x. induction l as [|y l IH]; intros x; [by rewrite app_nil_r|].
  change (sep (x :: y :: l)) with (x ++ [44] ++ sep (y :: l)). by rewrite IH.
Qed.

Lemma comma_app l m : comma (l ++ m) = comma l ++ comma m.
Proof. apply bind_app. Qed.

Lemma comma_singleton x : comma [x] = [44] ++ x.
Proof. unfold comma. cbn. by rewrite app_nil_r. Qed.

Lemma sep_snoc l x : sep (l ++ [x]) = match l with [] => x | _ => sep l ++ [44] ++ x end.
Proof.
  destruct l as [|y l]; [done|]. rewrite <- app_comm_cons, !sep_cons, comma_app.
  unfold comma at 2. cbn. by rewrite app_nil_r, <- app_assoc.
Qed.

Section rendering.
Context (GetTypeName : Z -> option text).

Definition name_literal (id : Z) : text := string_literal (type_name GetTypeName id).

Record types_ok (known : list Z) (t : TypeTable) : Prop := {
  ty_json : tt_json t = sep (map name_literal known);
  ty_count : tt_count t = zlen known;
  ty_index : forall id, tt_index t !! id = if decide (id ∈ known) then Some (index_of known id) else None
}.

Lemma RegisterType_json known t id :
  types_ok known t -> zlen known + 1 < 2 ^ 32 ->
  exists t', RegisterType GetTypeName t id = (t', index_of (table known [id]) id) /\
    types_ok (table known [id]) t'.
Proof.
  intros [Hj Hc Hi] Hlen. unfold RegisterType. rewrite Hi. cbn [table].
  destruct (decide (id ∈ known)) as [Hin|Hin]; [by exists t|].
  rewrite index_of_last by done. rewrite Hc. eexists. split; [reflexivity|].
  split; cbn [tt_json tt_count tt_index].
  - rewrite map_app. cbn [map]. rewrite sep_snoc.
    assert (forall o, match GetTypeName id with
                      | Some name => AppendEscapedJson o name
                      | None => o ++ chars "?"
                      end = o ++ escape (type_name GetTypeName id)) as Hesc.
    { intros o. unfold type_name. destruct (GetTypeName id); [apply AppendEscapedJson_eq|done]. }
    rewrite Hesc, Hj. unfold name_literal, string_literal, quote.
    destruct known as [|k known]; [by rewrite <- !app_assoc|].
    rewrite (proj2 (Z.ltb_lt _ _)) by (cbn [length]; lia). cbn [map]. by rewrite <- !app_assoc.
  - rewrite length_app, wrap_small by (unfold in_u; lia). cbn. lia.
  - intros id'. destruct (decide (id' = id)) as [->|Hne].
    + rewrite lookup_insert_eq, decide_True by set_solver. by rewrite index_of_last.
    + rewrite lookup_insert_ne, Hi by done. destruct (decide (id' ∈ known)).
      * rewrite decide_True by set_solver. by rewrite index_of_app.
      * rewrite decide_False; [done|]. set_solver.
Qed.

(** ** Nodes *)

Definition field_text (f : text * json) : text := string_literal f.1 ++ [58] ++ render f.2.

Lemma render_obj f fs :
  render (JObj (f :: fs)) = [123] ++ field_text f ++ comma (map field_text fs) ++ [125].
Proof.
  change (render (JObj (f :: fs))) with ([123] ++ sep (map field_text (f :: fs)) ++ [125]).
  cbn [map]. by rewrite sep_cons, <- app_assoc.
Qed.

Lemma render_arr l : render (JArr l) = [91] ++ sep (map render l) ++ [93].
Proof. done. Qed.

(** The children array, when there are children. *)
Definition children_fields (order : list Z) (l : list TypeTreeNode) : list (text * json) :=
  match l with [] => [] | _ => [(chars "ch", JArr (map (node_json order) l))] end.

Lemma OutputNode_unfold id c s l types out :
  OutputNode GetTypeName (Node id c s l) types out =
    let '(types, typeIndex) := RegisterType GetTypeName types id in
    let out := out ++ chars "{" ++ quote ++ chars "t" ++ quote ++ chars ":" in
    let out := AppendUInt32 out typeIndex in
    let out := if 0 <? c then AppendUInt64 (out ++ key "ic") c else out in
    let out := if 0 <? s then AppendUInt64 (out ++ key "ts") s else out in
    let '(types, out) :=
      match l with
      | [] => (types, out)
      | _ =>
          let '(types, out) := OutputNodes GetTypeName true l types (out ++ key "ch" ++ chars "[") in
          (types, out ++ chars "]")
      end in
    (types, out ++ chars "}").
Proof.
  cbn [OutputNode]. destruct (RegisterType GetTypeName types id) as [t i]. reflexivity.
Qed.

Definition node_renders (n : TypeTreeNode) : Prop :=
  forall known t out final, types_ok known t -> zlen known + zlen (preorder n) < 2 ^ 32 ->
  table known (preorder n) `prefix_of` final ->
  exists t', OutputNode GetTypeName n t out = (t', out ++ render (node_json final n)) /\
    types_ok (table known (preorder n)) t'.

Lemma nodes_render l : Forall node_renders l ->
  forall first known t out final, types_ok known t ->
  zlen known + zlen (flat_map preorder l) < 2 ^ 32 ->
  table known (flat_map preorder l) `prefix_of` final ->
  exists t', OutputNodes GetTypeName first l t out =
      (t', out ++ (if first then sep (map (fun n => render (node_json final n)) l)
                   else comma (map (fun n => render (node_json final n)) l))) /\
    types_ok (table known (flat_map preorder l)) t'.
Proof.
  induction 1 as [|n l Hn _ IH]; intros first known t out final Ht Hlen Hp; cbn [OutputNodes].
  { exists t. destruct first; cbn; by rewrite app_nil_r. }
  cbn [flat_map] in *. rewrite table_app in *. rewrite length_app in Hlen.
  pose proof (table_length (preorder n) known) as Htl.
  destruct (Hn known t (if negb first then out ++ chars "," else out) final Ht ltac:(lia))
    as (t1 & -> & Ht1); [etransitivity; [apply table_prefix|exact Hp]|].
  destruct (IH false _ t1 ((if negb first then out ++ chars "," else out) ++
    render (node_json final n)) final Ht1 ltac:(lia) Hp) as (t2 & -> & Ht2).
  exists t2. split; [|done]. f_equal. cbn [map].
  destruct first; cbn [negb].
  - rewrite sep_cons. by rewrite <- app_assoc.
  - unfold comma. cbn [mbind list_bind]. by rewrite <- !app_assoc.
Qed.

(** The part of an object behind its plain fields. *)
Lemma children_render l : Forall node_renders l ->
  forall known t out final, types_ok known t -> zlen known + zlen (flat_map preorder l) < 2 ^ 32 ->
  table known (flat_map preorder l) `prefix_of` final ->
  exists t', match l with
      | [] => (t, out)
      | _ => let '(types, out) := OutputNodes GetTypeName true l t (out ++ key "ch" ++ chars "[") in
             (types, out ++ chars "]")
      end = (t', out ++ comma (map field_text (children_fields final l))) /\
    types_ok (table known (flat_map preorder l)) t'.
Proof.
  intros Hl known t out final Ht Hlen Hp. destruct l as [|n l].
  { exists t. cbn. by rewrite app_nil_r. }
  destruct (nodes_render (n :: l) Hl true known t (out ++ key "ch" ++ chars "[") final Ht Hlen Hp)
    as (t1 & -> & Ht1).
  exists t1. split; [|done]. f_equal. unfold children_fields.
  change (map field_text [(chars "ch", JArr (map (node_json final) (n :: l)))])
    with [field_text (chars "ch", JArr (map (node_json final) (n :: l)))].
  rewrite comma_singleton. unfold field_text. cbn [fst snd].
  rewrite render_arr, map_map, <- !app_assoc. done.
Qed.

Lemma node_renders_all n : node_renders n.
Proof.
  induction n as [id c s l IH] using node_nested_ind. intros known t out final Ht Hlen Hp.
  cbn [preorder] in *. rewrite OutputNode_unfold.
  change (id :: flat_map preorder l) with ([id] ++ flat_map preorder l) in *.
  rewrite table_app in *. rewrite length_app in Hlen. cbn [length] in Hlen.
  destruct (RegisterType_json known t id Ht ltac:(lia)) as (t1 & -> & Ht1).
  pose proof (table_length [id] known) as Htl. cbn [length] in Htl.
  cbv zeta.
  match goal with |- context [match l with [] => (t1, ?x) | _ => _ end] => set (o := x) end.
  destruct (children_render l IH _ t1 o final Ht1 ltac:(lia) Hp) as (t2 & -> & Ht2).
  exists t2. split; [|done]. f_equal. subst o. cbn [node_json].
  assert (index_of final id = index_of (table known [id]) id) as ->.
  { apply index_of_prefix; [etransitivity; [apply table_prefix|exact Hp]|].
    cbn. case_decide; set_solver. }
  fold (children_fields final l). rewrite <- app_comm_cons, app_nil_l, render_obj.
  rewrite !map_app, !comma_app. unfold AppendUInt32, AppendUInt64.
  destruct (0 <? c), (0 <? s); cbn [map]; rewrite ?comma_singleton;
    change (comma []) with (@nil Z); unfold field_text at 1 2; cbn [fst snd];
    try (unfold field_text at 1; cbn [fst snd]); rewrite <- ?app_assoc; reflexivity.
Qed.

(** ** Roots *)

Lemma root_renders r known t out final :
  types_ok known t -> zlen known + zlen (root_preorder r) < 2 ^ 32 ->
  table known (root_preorder r) `prefix_of` final ->
  exists t', (let '(types, i) := RegisterType GetTypeName t (typeID (node r)) in
              OutputRoot GetTypeName r types i out) = (t', out ++ render (root_json final r)) /\
    types_ok (table known (root_preorder r)) t'.
Proof.
  destruct r as [[id c s l] cat f]. unfold root_preorder. cbn [node preorder typeID].
  intros Ht Hlen Hp.
  change (id :: flat_map preorder l) with ([id] ++ flat_map preorder l) in *.
  rewrite table_app in *. rewrite length_app in Hlen. cbn [length] in Hlen.
  destruct (RegisterType_json known t id Ht ltac:(lia)) as (t1 & -> & Ht1).
  pose proof (table_length [id] known) as Htl. cbn [length] in Htl.
  unfold OutputRoot. cbn [node children category instanceCount totalSize fieldName]. cbv zeta.
  match goal with |- context [match l with [] => (t1, ?x) | _ => _ end] => set (o := x) end.
  destruct (children_render l (Forall_true _ _ node_renders_all) _ t1 o final Ht1 ltac:(lia) Hp)
    as (t2 & -> & Ht2).
  exists t2. split; [|done]. f_equal. subst o.
  assert (index_of final id = index_of (table known [id]) id) as E.
  { apply index_of_prefix; [etransitivity; [apply table_prefix|exact Hp]|].
    cbn. case_decide; set_solver. }
  unfold root_json. cbn [node typeID children category instanceCount totalSize fieldName].
  rewrite E. fold (children_fields final l).
  rewrite <- app_comm_cons, render_obj, !map_app, !comma_app. unfold AppendUInt32, AppendUInt64.
  destruct f as [|x f].
  - cbn [map]. unfold comma at 2. cbn [mbind list_bind]. change (comma []) with (@nil Z).
    destruct cat; unfold field_text at 1 2 3 4; cbn [fst snd]; rewrite <- ?app_assoc; reflexivity.
  - rewrite AppendEscapedJson_eq. cbn [map]. rewrite !comma_singleton. unfold comma at 2.
    cbn [mbind list_bind]. unfold field_text at 1 2 3 4 5. cbn [fst snd render].
    change (field_text (chars "fn", JStr (x :: f)))
      with (string_literal (chars "fn") ++ [58] ++ [34] ++ escape (x :: f) ++ [34]).
    destruct cat; rewrite <- ?app_assoc; reflexivity.
Qed.

Lemma roots_render tree : forall first known t out final,
  types_ok known t -> zlen known + zlen (flat_map root_preorder tree) < 2 ^ 32 ->
  table known (flat_map root_preorder tree) `prefix_of` final ->
  exists t', OutputRoots GetTypeName first tree t out =
      (t', out ++ (if first then sep (map (fun r => render (root_json final r)) tree)
                   else comma (map (fun r => render (root_json final r)) tree))) /\
    types_ok (table known (flat_map root_preorder tree)) t'.
Proof.
  induction tree as [|r tree IH]; intros first known t out final Ht Hlen Hp; cbn [OutputRoots].
  { exists t. destruct first; cbn; by rewrite app_nil_r. }
  cbn [flat_map] in *. rewrite table_app in *. rewrite length_app in Hlen.
  pose proof (table_length (root_preorder r) known) as Htl.
  set (o := if negb first then out ++ chars "," else out).
  destruct (root_renders r known t o final Ht ltac:(lia)) as (t1 & Hr & Ht1);
    [etransitivity; [apply table_prefix|exact Hp]|].
  destruct (RegisterType GetTypeName t (typeID (node r))) as [t0 i]. rewrite Hr.
  destruct (IH false _ t1 (o ++ render (root_json final r)) final Ht1 ltac:(lia) Hp)
    as (t2 & -> & Ht2).
  exists t2. split; [|done]. f_equal. cbn [map]. subst o. destruct first; cbn [negb].
  - rewrite sep_cons. by rewrite <- app_assoc.
  - unfold comma. cbn [mbind list_bind]. by rewrite <- !app_assoc.
Qed.
End rendering.

(** The writer's output is the compact rendering of the documented JSON value: the
    version, the table of type names in order of first occurrence in the walk (omitted
    when empty), and the roots with their category code, counts, field name and children,
    every node carrying the position of its type in that table.  Every string is properly
    escaped.  Fewer than 2^32 nodes, as the 32-bit index requires. *)
Theorem json_rendering GetTypeName tree :
  zlen (flat_map root_preorder tree) < 2 ^ 32 ->
  SerializeJson GetTypeName tree = render (tree_json GetTypeName tree).
Proof.
  intros Hlen. unfold SerializeJson, tree_json.
  set (order := table [] (flat_map root_preorder tree)).
  destruct (roots_render GetTypeName tree true [] (mkTypes [] 0 ∅) (chars "[") order)
    as (t & -> & [Hj Hc _]); [by split|cbn; lia|done|].
  fold order in Hj, Hc. rewrite Hc.
  rewrite <- app_comm_cons, app_nil_l, render_obj, map_app, comma_app.
  change (map field_text [(chars "r", JArr (map (root_json order) tree))])
    with [field_text (chars "r", JArr (map (root_json order) tree))].
  rewrite comma_singleton. unfold field_text at 3. cbn [fst snd].
  rewrite render_arr, map_map.
  destruct order as [|x order'] eqn:Eo.
  - cbn [length Z.of_nat Z.ltb Z.compare map]. change (comma []) with (@nil Z).
    rewrite <- !app_assoc. reflexivity.
  - rewrite (proj2 (Z.ltb_lt _ _)) by (cbn [length]; lia). rewrite <- Eo in *.
    change (map field_text [(chars "tt", JArr (map (fun id => JStr (type_name GetTypeName id)) order))])
      with [field_text (chars "tt", JArr (map (fun id => JStr (type_name GetTypeName id)) order))].
    rewrite comma_singleton. unfold field_text at 2. cbn [fst snd].
    rewrite render_arr, map_map.
    change (map (fun id => render (JStr (type_name GetTypeName id))) order)
      with (map (name_literal GetTypeName) order).
    rewrite <- Hj, <- !app_assoc. reflexivity.
Qed.

(** ** Numbers *)

Definition digits_value (l : text) : Z := fold_left (fun acc d => 10 * acc + (d - 48)) l 0.

(** Twenty digits hold every 64-bit value, and denote it. *)
Lemma digits_value_ok fuel : forall v,
  0 <= v < 10 ^ Z.of_nat fuel -> digits_value (digits fuel v) = v.
Proof.
  unfold digits_value. induction fuel as [|fuel IH]; intros v Hv; cbn [digits].
  { cbn in *. lia. }
  destruct (Z.ltb_spec v 10); [cbn; lia|]. rewrite fold_left_app, IH; cbn [fold_left].
  - pose proof (Z.div_mod v 10). lia.
  - rewrite Nat2Z.inj_succ, Z.pow_succ_r in Hv by lia.
    split; [apply Z.div_pos; lia|apply Z.div_lt_upper_bound; lia].
Qed.

Lemma AppendUInt64_value v : 0 <= v < 2 ^ 64 -> digits_value (AppendUInt64 [] v) = v.
Proof. intros. apply digits_value_ok. change (10 ^ Z.of_nat 20) with 100000000000000000000. lia. Qed.
