(* ===== verification/FaultMonad.v ===== *)
(** * Computations that fault, throw or get stuck

    Code of the profiler that reads the memory of the inspected process runs under
    [MemoryFaultGuard.h]: it ends normally, by a memory access fault the guard recovers
    from, or by an exception, and what it did to its state before stays.  [Stuck] stands
    for what must be proved impossible: an access outside of an array, or a loop that does
    not end within its fuel.

    The file holds the monad, the loop over a list, a small Hoare logic for it and the
    model of the guard itself. *)
From stdpp Require Import base list.
From S2P Require Import Prelude.

Inductive res (A : Type) := Done (x : A) | Fault | Throw | Stuck.
Arguments Done {A} x.
Arguments Fault {A}.
Arguments Throw {A}.
Arguments Stuck {A}.

Definition M (St A : Type) : Type := St -> St * res A.

#[export] Instance M_ret St : MRet (M St) := fun A x s => (s, Done x).
#[export] Instance M_bind St : MBind (M St) := fun A B f m s =>
  match m s with
  | (s, Done x) => f x s
  | (s, Fault) => (s, Fault)
  | (s, Throw) => (s, Throw)
  | (s, Stuck) => (s, Stuck)
  end.

Definition fault {St A} : M St A := fun s => (s, Fault).
Definition throw {St A} : M St A := fun s => (s, Throw).
Definition stuck {St A} : M St A := fun s => (s, Stuck).
Definition skip {St} : M St unit := mret tt.
Definition gets {St A} (f : St -> A) : M St A := fun s => (s, Done (f s)).
Definition modify {St} (f : St -> St) : M St unit := fun s => (f s, Done tt).

(** An operation on part of the state that has no defined result on some states. *)
Definition try {St A} (o : option A) : M St A :=
  match o with Some x => mret x | None => stuck end.

(** [for (x : l) body(x)]. *)
Fixpoint for_each {St A} (l : list A) (body : A -> M St unit) : M St unit :=
  match l with
  | [] => skip
  | x :: l => body x;; for_each l body
  end.

Lemma bind_done {St A B} (m : M St A) (f : A -> M St B) s s' x :
  m s = (s', Done x) -> (m ≫= f) s = f x s'.
Proof. intros H. unfold mbind, M_bind. by rewrite H. Qed.

Lemma for_each_app {St A} (l m : list A) (body : A -> M St unit) s :
  for_each (l ++ m) body s = (for_each l body;; for_each m body) s.
Proof.
  revert s. induction l as [|x l IH]; intros s; [done|]. cbn [app for_each].
  unfold mbind, M_bind in *. destruct (body x s) as [s' [[]| | |]]; [|done..].
  rewrite IH. done.
Qed.

Lemma for_each_ext {St A} (l : list A) (f g : A -> M St unit) :
  Forall (fun x => forall s, f x s = g x s) l -> forall s, for_each l f s = for_each l g s.
Proof.
  induction 1 as [|x l Hx _ IH]; intros s; [done|]. cbn [for_each].
  unfold mbind, M_bind. rewrite Hx. destruct (g x s) as [s' [[]| | |]]; [apply IH|done..].
Qed.

Lemma for_each_map {St A B} (g : A -> B) (l : list A) (f : B -> M St unit) s :
  for_each (map g l) f s = for_each l (fun x => f (g x)) s.
Proof.
  revert s. induction l as [|x l IH]; intros s; [done|]. cbn [map for_each].
  unfold mbind, M_bind. destruct (f (g x) s) as [s' [[]| | |]]; [apply IH|done..].
Qed.

Lemma for_each_flat_map {St A B} (g : A -> list B) (l : list A) (f : B -> M St unit) s :
  for_each (flat_map g l) f s = for_each l (fun x => for_each (g x) f) s.
Proof.
  revert s. induction l as [|x l IH]; intros s; [done|]. cbn [flat_map for_each].
  rewrite for_each_app. unfold mbind, M_bind.
  destruct (for_each (g x) f s) as [s' [[]| | |]]; [apply IH|done..].
Qed.

(** ** Hoare triples

    [Q] holds after a normal end and [E] after a fault or an exception; the computation
    never gets stuck. *)
Definition triple {St A} (P : St -> Prop) (m : M St A) (Q : A -> St -> Prop) (E : St -> Prop)
    : Prop :=
  forall s, P s ->
    match m s with
    | (s, Done x) => Q x s
    | (s, Fault) | (s, Throw) => E s
    | (_, Stuck) => False
    end.

Section rules.
Context {St : Type}.
Implicit Types P : St -> Prop.

Lemma triple_ret {A} P (x : A) Q E : (forall s, P s -> Q x s) -> triple P (mret x : M St A) Q E.
Proof. intros H s Hs. by apply H. Qed.

Lemma triple_bind {A B} P (m : M St A) (f : A -> M St B) R Q E :
  triple P m R E -> (forall x, triple (R x) (f x) Q E) -> triple P (m ≫= f) Q E.
Proof.
  intros Hm Hf s Hs. specialize (Hm s Hs). unfold mbind, M_bind.
  destruct (m s) as [s' [x| | |]]; [|done..]. by apply Hf.
Qed.

Lemma triple_weaken {A} P P' (m : M St A) (Q Q' : A -> St -> Prop) (E E' : St -> Prop) :
  triple P m Q E -> (forall s, P' s -> P s) -> (forall x s, Q x s -> Q' x s) ->
  (forall s, E s -> E' s) -> triple P' m Q' E'.
Proof.
  intros Hm HP HQ HE s Hs. specialize (Hm s (HP s Hs)).
  destruct (m s) as [s' [x| | |]]; auto.
Qed.

Lemma triple_ext {A} P (m m' : M St A) Q E :
  (forall s, m s = m' s) -> triple P m' Q E -> triple P m Q E.
Proof. intros He Hm s Hs. rewrite He. by apply Hm. Qed.

Lemma triple_fault {A} P (Q : A -> St -> Prop) (E : St -> Prop) :
  (forall s, P s -> E s) -> triple P fault Q E.
Proof. intros H s Hs. by apply H. Qed.

Lemma triple_throw {A} P (Q : A -> St -> Prop) (E : St -> Prop) :
  (forall s, P s -> E s) -> triple P throw Q E.
Proof. intros H s Hs. by apply H. Qed.

Lemma triple_gets {A} P (f : St -> A) (Q : A -> St -> Prop) E :
  (forall s, P s -> Q (f s) s) -> triple P (gets f) Q E.
Proof. intros H s Hs. by apply H. Qed.

Lemma triple_modify P (f : St -> St) (Q : unit -> St -> Prop) E :
  (forall s, P s -> Q tt (f s)) -> triple P (modify f) Q E.
Proof. intros H s Hs. by apply H. Qed.

Lemma triple_for_each {A} (Inv : St -> Prop) (l : list A) body E :
  (forall x, x ∈ l -> triple Inv (body x) (fun _ => Inv) E) ->
  triple Inv (for_each l body) (fun _ => Inv) E.
Proof.
  induction l as [|x l IH]; intros H; [by apply triple_ret|]. cbn [for_each].
  apply triple_bind with (R := fun _ => Inv); [apply H; constructor|].
  intros _. apply IH. intros y Hy. apply H. by constructor.
Qed.

(** The invariant may depend on the elements processed so far. *)
Lemma triple_for_each_prefix {A} (Inv : list A -> St -> Prop) (l : list A) body E :
  (forall pre x, x ∈ l -> triple (Inv pre) (body x) (fun _ => Inv (pre ++ [x])) E) ->
  triple (Inv []) (for_each l body) (fun _ => Inv l) E.
Proof.
  intros H. assert (forall post pre, (forall x, x ∈ post -> x ∈ l) ->
    triple (Inv pre) (for_each post body) (fun _ => Inv (pre ++ post)) E) as Hgen.
  { induction post as [|x post IH]; intros pre Hin; cbn [for_each].
    - apply triple_ret. by rewrite app_nil_r.
    - apply triple_bind with (R := fun _ => Inv (pre ++ [x])); [apply H, Hin; constructor|].
      intros _. rewrite (cons_middle x pre post), app_assoc.
      apply IH. intros y Hy. apply Hin. by constructor. }
  by apply (Hgen l []).
Qed.
End rules.

(** ** The memory fault guard *)

Record Guard := mkGuard {
  installed : bool;                 (* both signal handlers are registered *)
  t_inGuardedRegion : bool;
  attempts : nat                    (* registrations tried so far *)
}.

Inductive RunResult := Completed | Faulted | Unavailable.

#[export] Instance RunResult_eq_dec : EqDecision RunResult.
Proof. solve_decision. Defined.

Section guard.
Context {St : Type}.
(** Outcome of the n-th registration of the SIGSEGV and of the SIGBUS handler. *)
Context (RegisterHandlers : nat -> bool * bool).

Definition EnsureInstalled (g : Guard) : Guard * bool :=
  if installed g then (g, true)
  else
    let '(segvInstalled, busInstalled) := RegisterHandlers (attempts g) in
    let success := segvInstalled && busInstalled in
    (mkGuard success (t_inGuardedRegion g) (S (attempts g)), success).

Definition set_region (b : bool) (g : Guard) : Guard := mkGuard (installed g) b (attempts g).

(** A fault lands in the recovery branch, an exception runs the destructor of the scope:
    both clear the flag that arms the handler. *)
Definition Run (body : M St unit) : M (Guard * St) RunResult := fun '(g, s) =>
  let '(g, ok) := EnsureInstalled g in
  if negb ok then ((g, s), Done Unavailable)
  else
    let g := set_region true g in
    match body s with
    | (s, Done _) => ((set_region false g, s), Done Completed)
    | (s, Fault) => ((set_region false g, s), Done Faulted)
    | (s, Throw) => ((set_region false g, s), Throw)
    | (s, Stuck) => ((g, s), Stuck)
    end.
End guard.
