(* ===== verification/GCDesc.v ===== *)
(** * Reading GC descriptors

    Model of [GCDescReader.h]: the descriptors the CLR keeps in front of a MethodTable say
    which words of an object are references.  The profiler reads them, and the objects,
    from raw memory of the inspected process: a word may be unreadable (the access faults)
    and the descriptor may hold anything. *)
From stdpp Require Import base list.
From S2P Require Import Prelude FaultMonad.

Definition sizeof_ptr : Z := 8.
Definition Flag_ContainsPointers : Z := 0x01000000.
Definition MaxValSerieItems : Z := 0xFFFF.

Inductive SelfTestResult := Pending | Passed | Failed.

#[export] Instance SelfTestResult_eq_dec : EqDecision SelfTestResult.
Proof. solve_decision. Defined.

(** Sanity bound on a series count. *)
Definition LooksLikeValidSeriesCount (count objectSize : Z) : bool :=
  if count =? 0 then false
  else
    let maxSeries := i64 (i64 (objectSize / sizeof_ptr) + 1) in
    let magnitude := if count <? 0 then i64 (- count) else count in
    magnitude <=? maxSeries.

(** [ValSerieItem] on a 64-bit process. *)
Definition GetNptrs (value : Z) : Z := u32 (Z.land value 0xFFFFFFFF).
Definition GetSkip (value : Z) : Z := u32 (Z.land (Z.shiftr (u64 value) 32) 0xFFFFFFFF).

Section reader.
Context {St : Type}.
(** The 8-byte word at an address; [None]: reading it faults. *)
Context (mem : Z -> option Z).

Definition read_word (a : Z) : M St Z :=
  match mem a with Some v => mret v | None => fault end.

Definition ContainsGCPointers (classID : Z) : M St bool :=
  if classID =? 0 then mret false
  else flags ← read_word classID;
       mret (negb (Z.land (u32 flags) Flag_ContainsPointers =? 0)).

Definition GetSeriesCount (classID : Z) : M St Z :=
  v ← read_word (u64 (classID - 8)); mret (i64 v).

(** One slot: read it and report a non-null reference. *)
Definition visit_slot (slot offset : Z) (callback : Z -> Z -> Z -> M St unit) : M St unit :=
  refValue ← read_word slot;
  if negb (refValue =? 0) then callback slot refValue (u32 offset) else skip.

(** Series [i], from 1. *)
Definition visit_series (classID objectAddress objectSize : Z)
    (callback : Z -> Z -> Z -> M St unit) (i : nat) : M St unit :=
  encodedSize ← read_word (u64 (classID - 8 - 16 * Z.of_nat i));
  let rangeSize := i64 (i64 encodedSize + i64 objectSize) in
  if rangeSize <=? 0 then skip
  else
    offset ← read_word (u64 (classID - 16 * Z.of_nat i));
    let offset := i64 offset in
    if (offset <? 0) || (objectSize <? u64 offset) || (objectSize <? u64 (offset + rangeSize))
    then skip
    else
      let numRefs := rangeSize / sizeof_ptr in
      for_each (seq 0 (Z.to_nat numRefs)) (fun j =>
        visit_slot (u64 (objectAddress + offset + 8 * Z.of_nat j)) (offset + 8 * Z.of_nat j)
          callback).

Definition EnumerateObjectRefs (classID objectAddress objectSize : Z)
    (callback : Z -> Z -> Z -> M St unit) : M St unit :=
  seriesCount ← GetSeriesCount classID;
  if seriesCount <=? 0 then skip
  else if negb (LooksLikeValidSeriesCount seriesCount objectSize) then skip
  else for_each (seq 1 (Z.to_nat seriesCount))
         (visit_series classID objectAddress objectSize callback).

(** [nptrs] consecutive pointers; gives the address behind them. *)
Fixpoint visit_ptrs (arrayAddress : Z) (callback : Z -> Z -> Z -> M St unit) (nptrs : nat) (cur : Z)
    : M St Z :=
  match nptrs with
  | O => mret cur
  | S nptrs =>
      visit_slot cur (u64 (cur - arrayAddress)) callback;;
      visit_ptrs arrayAddress callback nptrs (u64 (cur + 8))
  end.

Fixpoint visit_items (classID arrayAddress : Z) (callback : Z -> Z -> Z -> M St unit)
    (vs : list nat) (cur : Z) : M St Z :=
  match vs with
  | [] => mret cur
  | v :: vs =>
      item ← read_word (u64 (classID - 24 - 8 * Z.of_nat v));
      cur ← visit_ptrs arrayAddress callback (Z.to_nat (GetNptrs item)) cur;
      visit_items classID arrayAddress callback vs (u64 (cur + GetSkip item))
  end.

Fixpoint visit_elements (classID arrayAddress : Z) (callback : Z -> Z -> Z -> M St unit)
    (numItems : nat) (elements : nat) (cur : Z) : M St Z :=
  match elements with
  | O => mret cur
  | S elements =>
      cur ← visit_items classID arrayAddress callback (seq 0 numItems) cur;
      visit_elements classID arrayAddress callback numItems elements cur
  end.

Definition EnumerateVTArrayRefs (arrayClassID arrayAddress totalElements : Z)
    (callback : Z -> Z -> Z -> M St unit) : M St unit :=
  seriesCount ← GetSeriesCount arrayClassID;
  if 0 <=? seriesCount then skip
  else
    let numValSerieItems := u64 (i64 (- seriesCount)) in
    if MaxValSerieItems <? numValSerieItems then skip
    else
      startOffset ← read_word (u64 (arrayClassID - 16));
      let startOffset := i64 startOffset in
      if startOffset <? 0 then skip
      else
        visit_elements arrayClassID arrayAddress callback (Z.to_nat numValSerieItems)
          (Z.to_nat totalElements) (u64 (arrayAddress + startOffset));; skip.

(** The profiling API's answers: whether the class is an array, and its number of fields
    ([None]: the call fails). *)
Definition ValidateAgainstMetadata (has_info : bool) (IsArrayClass : Z -> M St bool)
    (GetClassLayout : Z -> M St (option Z)) (classID objectSize : Z) : M St SelfTestResult :=
  if negb has_info || (classID =? 0) then mret Pending
  else
   isArray ← IsArrayClass classID;
   if isArray : bool then mret Pending
   else
    flagSaysContainsPointers ← ContainsGCPointers classID;
    layout ← GetClassLayout classID;
    match layout with
    | None => mret Pending
    | Some fieldCount =>
        if flagSaysContainsPointers : bool then
          seriesCount ← GetSeriesCount classID;
          if negb (LooksLikeValidSeriesCount seriesCount objectSize) then mret Failed
          else if fieldCount =? 0 then mret Failed
          else mret Passed
        else mret Pending
    end.
End reader.

(** ** What the enumerations report *)

Section enumeration.
Context {St : Type} (mem : Z -> option Z) (callback : Z -> Z -> Z -> M St unit).

(** All the words of a byte range can be read. *)
Definition readable (lo hi : Z) : Prop := forall a, lo <= a -> a + 8 <= hi -> is_Some (mem a).

Definition word (a : Z) : Z := default 0 (mem a).

(** The non-null references among some slots, with their offsets. *)
Definition refs_of (slots : list (Z * Z)) : list (Z * Z * Z) :=
  omap (fun p => if word p.1 =? 0 then None else Some (p.1, word p.1, u32 p.2)) slots.

Lemma refs_of_cons a o slots :
  refs_of ((a, o) :: slots) =
    if word a =? 0 then refs_of slots else (a, word a, u32 o) :: refs_of slots.
Proof. unfold refs_of. cbn. by destruct (word a =? 0). Qed.

Lemma refs_of_app l m : refs_of (l ++ m) = refs_of l ++ refs_of m.
Proof. apply omap_app. Qed.

Definition report (r : Z * Z * Z) : M St unit := callback r.1.1 r.1.2 r.2.

Definition slots_within (lo hi : Z) (slots : list (Z * Z)) : Prop :=
  Forall (fun p => lo <= p.1 /\ p.1 + 8 <= hi) slots.

Lemma visit_slots_ok lo hi slots s :
  readable lo hi -> slots_within lo hi slots ->
  for_each slots (fun p => visit_slot mem p.1 p.2 callback) s = for_each (refs_of slots) report s.
Proof.
  intros Hr Hs. revert s. induction Hs as [|[a o] slots Ha _ IH]; intros s; [done|].
  rewrite refs_of_cons. cbn [for_each fst snd] in *.
  destruct (Hr a) as [v Hv]; [lia..|].
  assert (word a = v) as -> by (unfold word; by rewrite Hv).
  assert (visit_slot mem a o callback s =
    if v =? 0 then (s, Done tt) else callback a v (u32 o) s) as Hvs.
  { unfold visit_slot, read_word, mbind, M_bind. rewrite Hv. cbn. by destruct (v =? 0). }
  unfold mbind at 1, M_bind at 1. rewrite Hvs. destruct (v =? 0); [apply IH|].
  cbn [for_each]. change (report (a, v, u32 o)) with (callback a v (u32 o)). unfold mbind, M_bind.
  destruct (callback a v (u32 o) s) as [s' [[]| | |]]; [apply IH|done..].
Qed.

(** *** Objects and reference arrays *)

Section objects.
Context (classID objectAddress objectSize : Z).

Definition series_slots (i : nat) : list (Z * Z) :=
  let rangeSize := i64 (i64 (word (u64 (classID - 8 - 16 * Z.of_nat i))) + i64 objectSize) in
  let offset := i64 (word (u64 (classID - 16 * Z.of_nat i))) in
  if (rangeSize <=? 0) ||
     ((offset <? 0) || (objectSize <? u64 offset) || (objectSize <? u64 (offset + rangeSize)))
  then []
  else map (fun j => (objectAddress + offset + 8 * Z.of_nat j, offset + 8 * Z.of_nat j))
         (seq 0 (Z.to_nat (rangeSize / 8))).

Definition object_slots : list (Z * Z) :=
  let seriesCount := i64 (word (u64 (classID - 8))) in
  if (seriesCount <=? 0) || negb (LooksLikeValidSeriesCount seriesCount objectSize) then []
  else flat_map series_slots (seq 1 (Z.to_nat seriesCount)).

Hypothesis Hsize : 0 <= objectSize < 2 ^ 63.
Hypothesis Haddr : 0 <= objectAddress /\ objectAddress + objectSize < 2 ^ 64.

Lemma u64_i64 x : u64 (i64 x) = u64 x.
Proof.
  unfold swrap, wrap. destruct (_ <? _).
  - by rewrite Z.mod_mod.
  - rewrite Zminus_mod, Z.mod_mod by lia. rewrite Z.mod_same by lia.
    by rewrite Z.sub_0_r, Z.mod_mod by lia.
Qed.

Lemma series_slots_within i :
  slots_within objectAddress (objectAddress + objectSize) (series_slots i).
Proof.
  unfold slots_within, series_slots.
  set (r := i64 (i64 (word _) + i64 objectSize)). set (o := i64 (word (u64 (classID - 16 * _)))).
  case_if; [constructor|]. bool_facts. apply Forall_map, Forall_forall. intros j Hj.
  apply elem_of_seq in Hj. cbn [fst].
  assert (in_s 64 r) as Hr by (apply swrap_range; lia).
  assert (in_s 64 o) as Ho by (apply swrap_range; lia). unfold in_s in *.
  change (2 ^ (64 - 1)) with (2 ^ 63) in *.
  rewrite !wrap_small in * by (unfold in_u; lia).
  pose proof (Z.mul_div_le r 8). lia.
Qed.

Lemma object_slots_within : slots_within objectAddress (objectAddress + objectSize) object_slots.
Proof.
  unfold object_slots. case_if; [constructor|].
  generalize (seq 1 (Z.to_nat (i64 (word (u64 (classID - 8)))))) as l.
  induction l as [|i l IH]; cbn; [constructor|].
  apply Forall_app. split; [apply series_slots_within|done].
Qed.

(** The words of the MethodTable's descriptor that can be consulted. *)
Definition descriptor_readable : Prop :=
  forall k, 1 <= k <= 2 * (objectSize / 8 + 1) + 1 -> is_Some (mem (u64 (classID - 8 * k))).

Hypothesis Hobj : readable objectAddress (objectAddress + objectSize).

Lemma visit_series_ok i s :
  is_Some (mem (u64 (classID - 8 - 16 * Z.of_nat i))) ->
  is_Some (mem (u64 (classID - 16 * Z.of_nat i))) ->
  visit_series mem classID objectAddress objectSize callback i s =
    for_each (refs_of (series_slots i)) report s.
Proof.
  intros [enc He] [off Ho].
  rewrite <- (visit_slots_ok objectAddress (objectAddress + objectSize)) by
    (auto using series_slots_within).
  pose proof (series_slots_within i) as Hw. revert Hw.
  unfold visit_series, series_slots, read_word, mbind, M_bind, word. rewrite He, Ho.
  cbn [mret M_ret default from_option id].
  set (r := i64 (i64 enc + i64 objectSize)). set (o := i64 off).
  destruct (r <=? 0); cbn [orb]; [done|].
  destruct ((o <? 0) || (objectSize <? u64 o) || (objectSize <? u64 (o + r))); [done|].
  intros Hw. rewrite for_each_map. apply for_each_ext, Forall_forall. intros j Hj s'. cbn [fst snd].
  unfold slots_within in Hw. rewrite Forall_map, Forall_forall in Hw. specialize (Hw j Hj).
  cbn in Hw. rewrite (wrap_small 64) by (unfold in_u; lia). done.
Qed.

Lemma LooksLikeValid_bound count :
  0 < count -> LooksLikeValidSeriesCount count objectSize = true -> count <= objectSize / 8 + 1.
Proof.
  intros Hc. unfold LooksLikeValidSeriesCount, sizeof_ptr.
  assert (0 <= objectSize / 8 < 2 ^ 60).
  { split; [apply Z.div_pos; lia|apply Z.div_lt_upper_bound; lia]. }
  rewrite (swrap_small 64 (objectSize / 8)) by (unfold in_s; lia).
  rewrite (swrap_small 64 (objectSize / 8 + 1)) by (unfold in_s; lia).
  rewrite (proj2 (Z.eqb_neq _ _)), (proj2 (Z.ltb_ge _ _)) by lia. intros. bool_facts. lia.
Qed.

Lemma EnumerateObjectRefs_ok s :
  descriptor_readable ->
  EnumerateObjectRefs mem classID objectAddress objectSize callback s =
    for_each (refs_of object_slots) report s.
Proof.
  intros Hd. unfold EnumerateObjectRefs, object_slots, GetSeriesCount, read_word.
  assert (0 <= objectSize / 8) by (apply Z.div_pos; lia).
  destruct (Hd 1) as [w Hw]; [lia|]. change (8 * 1) with 8 in Hw.
  unfold mbind, M_bind, word. rewrite Hw. cbn [mret M_ret default from_option id].
  set (sc := i64 w). destruct (Z.leb_spec sc 0); cbn [orb]; [done|].
  destruct (LooksLikeValidSeriesCount sc objectSize) eqn:El; cbn [negb]; [|done].
  apply LooksLikeValid_bound in El; [|done].
  assert (forall l s, Forall (fun i => (1 <= i)%nat /\ Z.of_nat i <= sc) l ->
    for_each l (visit_series mem classID objectAddress objectSize callback) s =
    for_each (refs_of (flat_map series_slots l)) report s) as Hl.
  { clear s. intros l. induction l as [|i l IH]; intros s Hi; [done|].
    apply Forall_cons in Hi as [Hi Hl]. cbn [for_each flat_map].
    rewrite refs_of_app, for_each_app. unfold mbind, M_bind.
    rewrite visit_series_ok.
    - destruct (for_each (refs_of (series_slots i)) report s) as [s' [[]| | |]]; [by apply IH|done..].
    - replace (classID - 8 - 16 * Z.of_nat i) with (classID - 8 * (2 * Z.of_nat i + 1)) by lia.
      apply Hd. lia.
    - replace (classID - 16 * Z.of_nat i) with (classID - 8 * (2 * Z.of_nat i)) by lia.
      apply Hd. lia. }
  apply Hl, Forall_forall. intros i Hi. apply elem_of_seq in Hi. lia.
Qed.
End objects.

(** *** Arrays of value types *)

Section arrays.
Context (classID arrayAddress : Z).

Definition ptr_slots (n : nat) (cur : Z) : list (Z * Z) :=
  map (fun k => (cur + 8 * Z.of_nat k, cur + 8 * Z.of_nat k - arrayAddress)) (seq 0 n).

(** Items as (pointers, bytes to skip). *)
Fixpoint item_slots (items : list (Z * Z)) (cur : Z) : list (Z * Z) :=
  match items with
  | [] => []
  | (n, sk) :: items => ptr_slots (Z.to_nat n) cur ++ item_slots items (cur + 8 * n + sk)
  end.

Definition width (items : list (Z * Z)) : Z := foldr (fun p acc => 8 * p.1 + p.2 + acc) 0 items.

Fixpoint element_slots (items : list (Z * Z)) (elements : nat) (cur : Z) : list (Z * Z) :=
  match elements with
  | O => []
  | S elements => item_slots items cur ++ element_slots items elements (cur + width items)
  end.

Definition item (v : nat) : Z * Z :=
  let w := word (u64 (classID - 24 - 8 * Z.of_nat v)) in (GetNptrs w, GetSkip w).

Lemma item_nonneg v : 0 <= (item v).1 /\ 0 <= (item v).2.
Proof. unfold item, GetNptrs, GetSkip. cbn. split; apply wrap_range; lia. Qed.

Lemma items_nonneg vs : Forall (fun p => 0 <= p.1 /\ 0 <= p.2) (map item vs).
Proof. apply Forall_map, Forall_true. intros v. apply item_nonneg. Qed.

Lemma width_pos items : Forall (fun p => 0 <= p.1 /\ 0 <= p.2) items -> 0 <= width items.
Proof.
  induction 1 as [|[n sk] items [Hn Hs] _ IH]; [done|].
  change (0 <= 8 * n + sk + width items). cbn in *. lia.
Qed.

Lemma width_nonneg vs : 0 <= width (map item vs).
Proof. apply width_pos, items_nonneg. Qed.

Context (hi : Z).
Hypothesis Hhi : hi < 2 ^ 64.
Hypothesis Hlo : 0 <= arrayAddress.
Hypothesis Hread : readable arrayAddress hi.

Lemma ptr_slots_S n cur :
  ptr_slots (S n) cur = (cur, cur - arrayAddress) :: ptr_slots n (cur + 8).
Proof.
  unfold ptr_slots. cbn [seq map]. f_equal; [f_equal; lia|].
  rewrite <- seq_shift, map_map. apply map_ext. intros k. f_equal; lia.
Qed.

Lemma ptr_slots_within n : forall cur,
  arrayAddress <= cur -> cur + 8 * Z.of_nat n <= hi -> slots_within arrayAddress hi (ptr_slots n cur).
Proof.
  intros cur Hc Hn. apply Forall_map, Forall_forall. intros k Hk. apply elem_of_seq in Hk. cbn. lia.
Qed.

Lemma visit_ptrs_ok n : forall cur s,
  arrayAddress <= cur -> cur + 8 * Z.of_nat n <= hi ->
  visit_ptrs mem arrayAddress callback n cur s =
    (for_each (refs_of (ptr_slots n cur)) report;; mret (cur + 8 * Z.of_nat n)) s.
Proof.
  induction n as [|n IH]; intros cur s Hc Hn.
  { cbn. by rewrite Z.add_0_r. }
  pose proof (visit_slots_ok arrayAddress hi (ptr_slots (S n) cur) s Hread) as E.
  rewrite ptr_slots_S in *. unfold mbind, M_bind.
  rewrite <- E by (rewrite <- ptr_slots_S; apply ptr_slots_within; lia).
  cbn [visit_ptrs for_each fst snd].
  rewrite (wrap_small 64 (cur - arrayAddress)) by (unfold in_u; lia).
  unfold mbind, M_bind. destruct (visit_slot _ _ _ _ s) as [s' [[]| | |]]; [|done..].
  rewrite (wrap_small 64 (cur + 8)) by (unfold in_u; lia).
  rewrite IH by lia. unfold mbind, M_bind.
  rewrite (visit_slots_ok arrayAddress hi) by (try apply ptr_slots_within; auto; lia).
  destruct (for_each _ report s') as [s'' [[]| | |]]; [|done..].
  by replace (cur + 8 + 8 * Z.of_nat n) with (cur + 8 * Z.of_nat (S n)) by lia.
Qed.

Lemma item_slots_within items : forall cur,
  Forall (fun p => 0 <= p.1 /\ 0 <= p.2) items ->
  arrayAddress <= cur -> cur + width items <= hi -> slots_within arrayAddress hi (item_slots items cur).
Proof.
  induction items as [|[n sk] items IH]; intros cur Hf Hc Hw; [constructor|].
  apply Forall_cons in Hf as [[Hn Hsk] Hf]. cbn [fst snd] in *.
  change (width ((n, sk) :: items)) with (8 * n + sk + width items) in Hw.
  pose proof (width_pos items Hf).
  cbn [item_slots]. apply Forall_app. split.
  - apply ptr_slots_within; lia.
  - apply IH; [done|lia|lia].
Qed.

Lemma visit_items_ok vs : forall cur s,
  Forall (fun v => is_Some (mem (u64 (classID - 24 - 8 * Z.of_nat v)))) vs ->
  arrayAddress <= cur -> cur + width (map item vs) <= hi ->
  visit_items mem classID arrayAddress callback vs cur s =
    (for_each (refs_of (item_slots (map item vs) cur)) report;;
     mret (cur + width (map item vs))) s.
Proof.
  induction vs as [|v vs IH]; intros cur s Hm Hc Hw.
  { cbn. by rewrite Z.add_0_r. }
  apply Forall_cons in Hm as [[w Hv] Hm]. cbn [visit_items map item_slots].
  unfold read_word. rewrite Hv. cbn [mret M_ret].
  pose proof (item_nonneg v) as [Hn Hs]. pose proof (width_nonneg vs) as Hwn.
  assert (item v = (GetNptrs w, GetSkip w)) as Hi by (unfold item, word; by rewrite Hv).
  cbn [map width foldr] in Hw. fold (width (map item vs)) in Hw. rewrite Hi in *. cbn [fst snd] in *.
  change (width ((GetNptrs w, GetSkip w) :: map item vs))
    with (8 * GetNptrs w + GetSkip w + width (map item vs)).
  rewrite refs_of_app. unfold mbind, M_bind. cbn [mret M_ret].
  rewrite for_each_app, visit_ptrs_ok by lia. rewrite Z2Nat.id by lia. unfold mbind, M_bind.
  destruct (for_each (refs_of (ptr_slots _ cur)) report s) as [s' [[]| | |]]; [|done..].
  cbn [mret M_ret]. rewrite (wrap_small 64) by (unfold in_u; lia).
  rewrite IH by (auto; lia). unfold mbind, M_bind.
  destruct (for_each _ report s') as [s'' [[]| | |]]; [|done..].
  unfold mret, M_ret. do 2 f_equal. lia.
Qed.

Lemma element_slots_within items n : forall cur,
  Forall (fun p => 0 <= p.1 /\ 0 <= p.2) items -> 0 <= width items ->
  arrayAddress <= cur -> cur + Z.of_nat n * width items <= hi ->
  slots_within arrayAddress hi (element_slots items n cur).
Proof.
  induction n as [|n IH]; intros cur Hf Hw0 Hc Hw; [constructor|].
  assert (0 <= Z.of_nat n * width items) by (apply Z.mul_nonneg_nonneg; lia).
  cbn [element_slots]. apply Forall_app. split.
  - apply item_slots_within; [done|lia|lia].
  - apply IH; [done|done|lia|lia].
Qed.

Lemma visit_elements_ok m n : forall cur s,
  Forall (fun v => is_Some (mem (u64 (classID - 24 - 8 * Z.of_nat v)))) (seq 0 m) ->
  arrayAddress <= cur -> cur + Z.of_nat n * width (map item (seq 0 m)) <= hi ->
  (visit_elements mem classID arrayAddress callback m n cur;; skip) s =
    for_each (refs_of (element_slots (map item (seq 0 m)) n cur)) report s.
Proof.
  set (items := map item (seq 0 m)). pose proof (width_nonneg (seq 0 m)) as Hwn. fold items in Hwn.
  induction n as [|n IH]; intros cur s Hm Hc Hw; [done|].
  assert (0 <= Z.of_nat n * width items) by (apply Z.mul_nonneg_nonneg; lia).
  cbn [visit_elements element_slots]. rewrite refs_of_app, for_each_app.
  unfold mbind, M_bind. rewrite visit_items_ok by (auto; fold items; lia). fold items.
  unfold mbind, M_bind. destruct (for_each (refs_of (item_slots items cur)) report s) as [s' [[]| | |]];
    [|done..].
  cbn [mret M_ret]. specialize (IH (cur + width items) s' Hm ltac:(lia) ltac:(lia)).
  unfold mbind, M_bind in IH. exact IH.
Qed.
End arrays.
End enumeration.

(** ** Enumerations do not depend on what the callback does

    An enumeration reads descriptors and slots and hands each reference to its callback:
    the references it reports, and whether it ends by a fault, are a function of the
    memory. *)
Section harvest.
Context (mem : Z -> option Z).

(** Ends with this result, without any effect. *)
Definition ending {St A} (e : res A) : M St A := fun s => (s, e).

Definition harvests {A} (m : forall St, (Z -> Z -> Z -> M St unit) -> M St A)
    (l : list (Z * Z * Z)) (e : res A) : Prop :=
  Forall (fun x => exists a, mem a = Some x.1.2) l /\
  match e with Done _ | Fault => True | Throw | Stuck => False end /\
  forall St cb (s : St), m St cb s = (for_each l (fun x => cb x.1.1 x.1.2 x.2);; ending e) s.

Definition harvestable {A} (m : forall St, (Z -> Z -> Z -> M St unit) -> M St A) : Prop :=
  exists l e, harvests m l e.

Lemma harvestable_ret {A} (x : A) : harvestable (fun St _ => mret x).
Proof. exists [], (Done x). split; [constructor|]. done. Qed.

Lemma harvestable_read a : harvestable (fun St _ => @read_word St mem a).
Proof.
  exists []. unfold read_word. destruct (mem a) as [v|].
  - exists (Done v). split; [constructor|]. done.
  - exists Fault. split; [constructor|]. done.
Qed.

Lemma harvestable_bind {A B} (m : forall St, (Z -> Z -> Z -> M St unit) -> M St A)
    (f : forall St, (Z -> Z -> Z -> M St unit) -> A -> M St B) :
  harvestable m -> (forall x, harvestable (fun St cb => f St cb x)) ->
  harvestable (fun St cb => m St cb ≫= f St cb).
Proof.
  intros (l & e & Hl & He & Hm) Hf. destruct e as [x| | |]; [|..|done|done].
  - destruct (Hf x) as (l' & e' & Hl' & He' & Hm'). exists (l ++ l'), e'.
    split; [by apply Forall_app|]. split; [done|]. intros St cb s.
    unfold mbind at 1, M_bind at 1. rewrite Hm. unfold mbind, M_bind. rewrite for_each_app.
    unfold mbind, M_bind. destruct (for_each l _ s) as [s' [[]| | |]]; [|done..].
    unfold ending. cbv beta iota. by rewrite Hm'.
  - exists l, Fault. split; [done|]. split; [done|]. intros St cb s.
    unfold mbind at 1, M_bind at 1. rewrite Hm. unfold mbind, M_bind.
    by destruct (for_each l _ s) as [s' [[]| | |]].
Qed.

Lemma harvestable_if {A} (b : bool) (m n : forall St, (Z -> Z -> Z -> M St unit) -> M St A) :
  harvestable m -> harvestable n -> harvestable (fun St cb => if b then m St cb else n St cb).
Proof. by destruct b. Qed.

Lemma harvestable_for_each {X} (xs : list X) (m : forall St, (Z -> Z -> Z -> M St unit) -> X -> M St unit) :
  (forall x, harvestable (fun St cb => m St cb x)) ->
  harvestable (fun St cb => for_each xs (m St cb)).
Proof.
  intros Hm. induction xs as [|x xs IH]; [apply harvestable_ret|]. cbn [for_each].
  apply (harvestable_bind (fun St cb => m St cb x) (fun St cb _ => for_each xs (m St cb))); auto.
Qed.

Lemma harvestable_slot slot offset : harvestable (fun St cb => visit_slot mem slot offset cb).
Proof.
  unfold visit_slot. destruct (mem slot) as [v|] eqn:Hv.
  - exists (if negb (v =? 0) then [(slot, v, u32 offset)] else []), (Done tt).
    split; [destruct (negb _); repeat constructor; cbn; eauto|]. split; [done|]. intros St cb s.
    unfold read_word. rewrite Hv. unfold mbind, M_bind. cbn [mret M_ret].
    destruct (negb (v =? 0)); [|done]. cbn [for_each]. unfold mbind, M_bind. cbn.
    by destruct (cb _ _ _ s) as [s' [[]| | |]].
  - exists [], Fault. split; [constructor|]. split; [done|]. intros St cb s.
    unfold read_word, mbind, M_bind. by rewrite Hv.
Qed.

Lemma harvestable_series classID objectAddress objectSize i :
  harvestable (fun St cb => visit_series mem classID objectAddress objectSize cb i).
Proof.
  unfold visit_series. apply harvestable_bind; [apply harvestable_read|]. intros w.
  apply harvestable_if; [apply harvestable_ret|].
  apply harvestable_bind; [apply harvestable_read|]. intros w'.
  apply harvestable_if; [apply harvestable_ret|].
  apply harvestable_for_each. intros j. apply harvestable_slot.
Qed.

Lemma harvestable_object classID objectAddress objectSize :
  harvestable (fun St cb => EnumerateObjectRefs mem classID objectAddress objectSize cb).
Proof.
  unfold EnumerateObjectRefs. apply harvestable_bind.
  { apply (harvestable_bind (fun St _ => read_word mem _) (fun St _ v => mret (i64 v))).
    - apply harvestable_read.
    - intros v. apply harvestable_ret. }
  intros n. apply harvestable_if; [apply harvestable_ret|].
  apply harvestable_if; [apply harvestable_ret|].
  apply harvestable_for_each. intros i. apply harvestable_series.
Qed.

Lemma harvestable_ptrs arrayAddress n : forall cur,
  harvestable (fun St cb => visit_ptrs mem arrayAddress cb n cur).
Proof.
  induction n as [|n IH]; intros cur; [apply harvestable_ret|]. cbn [visit_ptrs].
  apply (harvestable_bind (fun St cb => visit_slot mem cur _ cb)
    (fun St cb _ => visit_ptrs mem arrayAddress cb n (u64 (cur + 8)))); [apply harvestable_slot|].
  intros _. apply IH.
Qed.

Lemma harvestable_items classID arrayAddress vs : forall cur,
  harvestable (fun St cb => visit_items mem classID arrayAddress cb vs cur).
Proof.
  induction vs as [|v vs IH]; intros cur; [apply harvestable_ret|]. cbn [visit_items].
  apply harvestable_bind; [apply harvestable_read|]. intros w.
  apply harvestable_bind; [apply harvestable_ptrs|]. intros cur'. apply IH.
Qed.

Lemma harvestable_elements classID arrayAddress m n : forall cur,
  harvestable (fun St cb => visit_elements mem classID arrayAddress cb m n cur).
Proof.
  induction n as [|n IH]; intros cur; [apply harvestable_ret|]. cbn [visit_elements].
  apply harvestable_bind; [apply harvestable_items|]. intros cur'. apply IH.
Qed.

Lemma harvestable_array classID arrayAddress n :
  harvestable (fun St cb => EnumerateVTArrayRefs mem classID arrayAddress n cb).
Proof.
  unfold EnumerateVTArrayRefs. apply harvestable_bind.
  { apply (harvestable_bind (fun St _ => read_word mem _) (fun St _ v => mret (i64 v))).
    - apply harvestable_read.
    - intros v. apply harvestable_ret. }
  intros k. apply harvestable_if; [apply harvestable_ret|]. cbv zeta.
  apply harvestable_if; [apply harvestable_ret|].
  apply harvestable_bind; [apply harvestable_read|]. intros w.
  apply harvestable_if; [apply harvestable_ret|].
  apply (harvestable_bind (fun St cb => visit_elements mem classID arrayAddress cb _ _ _)
    (fun St cb _ => skip)); [apply harvestable_elements|]. intros _. apply harvestable_ret.
Qed.

(** The references an enumeration reports, by running it with a callback that collects. *)
Definition collect (slot ref offset : Z) : M (list (Z * Z * Z)) unit :=
  modify (fun l => l ++ [(slot, ref, offset)]).

Lemma for_each_collect l acc :
  for_each l (fun x => collect x.1.1 x.1.2 x.2) acc = (acc ++ l, Done tt).
Proof.
  revert acc. induction l as [|[[a b] c] l IH]; intros acc; cbn [for_each].
  - by rewrite app_nil_r.
  - unfold mbind, M_bind. cbn [collect modify]. rewrite IH. by rewrite <- app_assoc.
Qed.

Lemma harvests_collect {A} m l (e : res A) :
  harvests m l e -> m _ collect [] = (l, e).
Proof.
  intros (_ & _ & H). rewrite H. unfold mbind, M_bind. by rewrite for_each_collect.
Qed.
End harvest.

(** C38: Reading the references of an object is memory safe whatever its descriptor holds:
    as long as the object's own words, and the descriptor words that a plausible series
    count can designate, can be read, the enumeration never faults, every slot it reads
    lies inside the object, and it reports exactly the non-null words of the series that
    fit, in order, with their addresses and offsets. *)
Theorem EnumerateObjectRefs_in_bounds St mem classID objectAddress objectSize
    (callback : Z -> Z -> Z -> M St unit) s :
  0 <= objectSize < 2 ^ 63 -> 0 <= objectAddress -> objectAddress + objectSize < 2 ^ 64 ->
  readable mem objectAddress (objectAddress + objectSize) ->
  descriptor_readable mem classID objectSize ->
  let slots := object_slots mem classID objectAddress objectSize in
  EnumerateObjectRefs mem classID objectAddress objectSize callback s =
    for_each (refs_of mem slots) (report callback) s /\
  slots_within objectAddress (objectAddress + objectSize) slots.
Proof.
  intros Hs Ha Hb Hr Hd. split.
  - by apply EnumerateObjectRefs_ok.
  - by apply object_slots_within.
Qed.

(** A class at address 1000 with two series: one word at offset 8, one at offset 24 whose
    end lies outside of the 32-byte object at 2000. *)
Definition witness_mem (a : Z) : option Z :=
  if a =? 1000 - 8 then Some 2
  else if a =? 1000 - 16 then Some 8                  (* offset of the first series *)
  else if a =? 1000 - 24 then Some (2 ^ 64 - 24)      (* 8 - 32 *)
  else if a =? 1000 - 32 then Some 24
  else if a =? 1000 - 40 then Some (2 ^ 64 - 16)      (* 16 - 32: one word too many *)
  else if a =? 2008 then Some 4096
  else Some 7.

Lemma EnumerateObjectRefs_in_bounds_witness :
  EnumerateObjectRefs witness_mem 1000 2000 32
    (fun slot ref off l => (l ++ [(slot, ref, off)], Done tt)) [] =
    ([(2008, 4096, 8)], Done tt).
Proof.
  destruct (EnumerateObjectRefs_in_bounds _ witness_mem 1000 2000 32
    (fun slot ref off l => (l ++ [(slot, ref, off)], Done tt)) []) as [H _]; try lia.
  - intros a _ _. unfold witness_mem. repeat case_if; eauto.
  - intros k _. unfold witness_mem. repeat case_if; eauto.
  - rewrite H. vm_compute. reflexivity.
Defined.

(** The references of a value-type array are read at exactly the places its descriptor
    lays out: for every element, each group of consecutive pointers followed by its gap,
    starting at the start offset and advancing by the width of the pattern.  When the
    elements fit the array, every slot lies inside it and nothing faults. *)
Theorem EnumerateVTArrayRefs_pattern St mem classID arrayAddress size elements
    (callback : Z -> Z -> Z -> M St unit) s :
  let count := i64 (word mem (u64 (classID - 8))) in
  let start := i64 (word mem (u64 (classID - 16))) in
  let items := map (item mem classID) (seq 0 (Z.to_nat (- count))) in
  0 <= arrayAddress -> arrayAddress + size < 2 ^ 64 ->
  readable mem arrayAddress (arrayAddress + size) ->
  (forall k, 1 <= k <= 2 - count -> is_Some (mem (u64 (classID - 8 * k)))) ->
  - MaxValSerieItems <= count < 0 -> 0 <= start -> 0 <= elements ->
  start + elements * width items <= size ->
  let slots := element_slots arrayAddress items (Z.to_nat elements) (arrayAddress + start) in
  EnumerateVTArrayRefs mem classID arrayAddress elements callback s =
    for_each (refs_of mem slots) (report callback) s /\
  slots_within arrayAddress (arrayAddress + size) slots.
Proof.
  intros count start items Ha Hhi Hr Hm Hc Hst He Hfit slots.
  unfold MaxValSerieItems in Hc.
  destruct (Hm 1) as [w1 Hw1]; [lia|]. change (8 * 1) with 8 in Hw1.
  destruct (Hm 2) as [w2 Hw2]; [lia|]. change (8 * 2) with 16 in Hw2.
  assert (i64 w1 = count) as E1 by (unfold count, word; by rewrite Hw1).
  assert (i64 w2 = start) as E2 by (unfold start, word; by rewrite Hw2).
  assert (0 <= width items) as Hwn by apply width_nonneg.
  assert (0 <= elements * width items) by (apply Z.mul_nonneg_nonneg; lia).
  split.
  - unfold EnumerateVTArrayRefs. rewrite (bind_done _ _ s s count)
      by (unfold GetSeriesCount, read_word, mbind, M_bind; rewrite Hw1, <- E1; done).
    rewrite (proj2 (Z.leb_gt _ _)) by lia.
    rewrite (swrap_small 64) by (unfold in_s; lia). rewrite (wrap_small 64) by (unfold in_u; lia).
    rewrite (proj2 (Z.ltb_ge _ _)) by (unfold MaxValSerieItems; lia).
    rewrite (bind_done _ _ s s w2) by (unfold read_word; by rewrite Hw2). rewrite E2.
    rewrite (proj2 (Z.ltb_ge _ _)) by lia. rewrite (wrap_small 64) by (unfold in_u; lia).
    apply (visit_elements_ok mem callback classID arrayAddress (arrayAddress + size)); auto; try lia.
    + apply Forall_forall. intros v Hv. apply elem_of_seq in Hv.
      replace (classID - 24 - 8 * Z.of_nat v) with (classID - 8 * (3 + Z.of_nat v)) by lia.
      apply Hm. lia.
    + rewrite Z2Nat.id by lia. fold items. lia.
  - apply element_slots_within; [apply items_nonneg|done|lia|].
    rewrite Z2Nat.id by lia. fold items. lia.
Qed.

(** Three elements of 24 bytes: one pointer, then 16 bytes without references. *)
Definition witness_array_mem (a : Z) : option Z :=
  if a =? 1000 - 8 then Some (2 ^ 64 - 1)
  else if a =? 1000 - 16 then Some 16
  else if a =? 1000 - 24 then Some (1 + 2 ^ 32 * 16)
  else if a =? 2016 then Some 100
  else if a =? 2064 then Some 300
  else Some 0.

(** The self-test disables the reader only on a contradiction: it fails exactly for a
    non-array class with metadata whose flag announces pointers although the series count
    is implausible or the metadata knows no field; it passes exactly when the flag, the
    count and the metadata agree; and it cannot fault when the two words it reads are
    readable. *)
Theorem self_test_verdict St mem (IsArrayClass : Z -> bool) GetClassLayout classID objectSize
    flags count (s : St) :
  mem classID = Some flags -> mem (u64 (classID - 8)) = Some count -> classID <> 0 ->
  let has_pointers := negb (Z.land (u32 flags) Flag_ContainsPointers =? 0) in
  let plausible := LooksLikeValidSeriesCount (i64 count) objectSize in
  ValidateAgainstMetadata mem true (fun c => mret (IsArrayClass c)) (fun c => mret (GetClassLayout c))
    classID objectSize s =
    (s, Done (if IsArrayClass classID then Pending
              else match GetClassLayout classID with
                   | None => Pending
                   | Some fields =>
                       if negb has_pointers then Pending
                       else if plausible && negb (fields =? 0) then Passed else Failed
                   end)).
Proof.
  intros Hf Hc H0 hp pl.
  unfold ValidateAgainstMetadata, ContainsGCPointers, GetSeriesCount, read_word.
  rewrite (proj2 (Z.eqb_neq _ _) H0). cbn [negb orb].
  unfold mbind, M_bind. cbn [mret M_ret]. destruct (IsArrayClass classID); [done|].
  rewrite Hf, Hc. cbn [mret M_ret]. fold hp. destruct (GetClassLayout classID) as [fields|]; [|done].
  destruct hp; [|done]. cbn [negb]. fold pl.
  destruct pl; cbn [negb andb]; [|done]. by destruct (fields =? 0).
Qed.

(** The magnitude of the most negative count overflows, so it passes the sanity bound. *)
Example LooksLikeValid_most_negative : LooksLikeValidSeriesCount (- 2 ^ 63) 24 = true.
Proof. reflexivity. Qed.
