(* ===== verification/VisitedSet.v ===== *)
(** * What the traversal relies on of the visited set

    The interface between [ReferenceChainTraverser] and the table it tracks visited
    objects with: the operations the traverser calls, and their laws over the finite map
    from visited addresses to class identifiers.  [vs_inv f v] says that [v] is usable
    after at most [f] insertions that a recovered fault or an exception interrupted.
    [VisitedObjectSet] is the implementation. *)
From stdpp Require Import base gmap list.
From S2P Require Import Prelude VisitedObjectSet.

Class VisitedSet (V : Type) := {
  vs_TryInsert : V -> Z -> option (V * InsertResult * Z);
  vs_TryInsert_interrupted : nat -> V -> Z -> option V;
  vs_entry : V -> Z -> option Z;                 (* reading [slot->classID] *)
  vs_store : V -> Z -> Z -> option V;            (* writing [slot->classID] *)
  vs_MarkVisitedAndStore : V -> Z -> Z -> option V;
  vs_MarkPossiblyInconsistent : V -> V;
  vs_Clear : V -> option V;
  vs_contents : V -> gmap Z Z;
  vs_inv : Z -> V -> Prop;
  vs_insert_law f v a :
    0 <= f <= 16 -> vs_inv f v -> a <> 0 -> Z.of_nat (size (vs_contents v)) < MaxEntries ->
    exists v' r i, vs_TryInsert v a = Some (v', r, i) /\ vs_inv f v' /\
      match vs_contents v !! a with
      | Some c => r = AlreadyPresent /\ vs_contents v' = vs_contents v /\ vs_entry v' i = Some c
      | None => r = Inserted /\ vs_contents v' = <[a := 0]> (vs_contents v) /\
          forall c, exists v'', vs_store v' i c = Some v'' /\ vs_inv f v'' /\
            vs_contents v'' = <[a := c]> (vs_contents v)
      end;
  vs_interrupted_law f v a n :
    0 <= f < 16 -> vs_inv f v -> a <> 0 -> Z.of_nat (size (vs_contents v)) < MaxEntries ->
    exists v', vs_TryInsert_interrupted n v a = Some v' /\
      vs_inv (f + 1) (vs_MarkPossiblyInconsistent v') /\
      (vs_contents v' = vs_contents v \/ exists c, vs_contents v' = <[a := c]> (vs_contents v));
  vs_mark_store_law f v a c :
    0 <= f <= 16 -> vs_inv f v -> a <> 0 -> Z.of_nat (size (vs_contents v)) < MaxEntries ->
    exists v', vs_MarkVisitedAndStore v a c = Some v' /\ vs_inv f v' /\
      vs_contents v' = <[a := c]> (vs_contents v);
  vs_clear_law f v :
    vs_inv f v -> exists v', vs_Clear v = Some v' /\ vs_inv 0 v' /\ vs_contents v' = ∅;
  vs_inconsistent_law f v : vs_inv f v -> vs_inv f (vs_MarkPossiblyInconsistent v);
  vs_inconsistent_contents v : vs_contents (vs_MarkPossiblyInconsistent v) = vs_contents v;
  vs_mono_law f f' v : f <= f' -> vs_inv f v -> vs_inv f' v
}.

Lemma wf_inconsistent f s : wf f s -> wf f (MarkPossiblyInconsistent s).
Proof. intros []. split; auto. done. Qed.

Lemma count_lt_max f s : wf f s -> Z.of_nat (size (contents s)) < MaxEntries -> _count s < MaxEntries.
Proof. intros Hwf. rewrite (contents_size f s Hwf). pose proof (wf_count _ _ Hwf). lia. Qed.

Lemma TryInsert_law f v a :
  0 <= f <= 16 -> wf f v -> a <> 0 -> Z.of_nat (size (contents v)) < MaxEntries ->
  exists v' r i, TryInsert v a = Some (v', r, i) /\ wf f v' /\
    match contents v !! a with
    | Some c => r = AlreadyPresent /\ contents v' = contents v /\
                classID <$> zget (_entries v') i = Some c
    | None => r = Inserted /\ contents v' = <[a := 0]> (contents v) /\
        forall c, exists v'', write_slot v' i c = Some v'' /\ wf f v'' /\
          contents v'' = <[a := c]> (contents v)
    end.
Proof.
  intros Hf Hwf Ha Hm. pose proof (count_lt_max _ _ Hwf Hm) as Hc.
  destruct (TryInsert_ok f v a Hf Hwf Ha Hc) as (v' & r & i & HT & Hwf' & _ & Hi & H).
  exists v', r, i. split; [done|]. split; [done|]. destruct (contents v !! a) as [c|].
  - destruct H as (-> & -> & _ & ->). done.
  - destruct H as (-> & HE & _ & _). do 2 (split; [done|]). intros c.
    destruct (write_slot_ok f v' a i c 0 Hwf') as (v'' & ? & ? & _ & _ & HE'); auto.
    { rewrite HE. apply lookup_insert_eq. }
    exists v''. rewrite HE', HE, insert_insert_eq. done.
Qed.

#[export] Instance VisitedObjectSet_VisitedSet : VisitedSet VisitedObjectSet.
Proof.
  refine {|
    vs_TryInsert := TryInsert;
    vs_TryInsert_interrupted := TryInsert_interrupted;
    vs_entry v i := classID <$> zget (_entries v) i;
    vs_store := write_slot;
    vs_MarkVisitedAndStore := MarkVisitedAndStore;
    vs_MarkPossiblyInconsistent := MarkPossiblyInconsistent;
    vs_Clear := Clear;
    vs_contents := contents;
    vs_inv := wf;
    vs_insert_law := TryInsert_law;
    vs_inconsistent_law := wf_inconsistent;
    vs_mono_law := wf_mono |}.
  - intros f v a n Hf Hwf Ha Hm.
    destruct (TryInsert_interrupted_ok f v a n Hf Hwf Ha (count_lt_max _ _ Hwf Hm)) as (v' & ?). eauto.
  - intros f v a c Hf Hwf Ha Hm.
    destruct (MarkVisitedAndStore_ok f v a c Hf Hwf Ha (count_lt_max _ _ Hwf Hm))
      as (v' & ? & ? & _ & _ & ?). eauto.
  - intros f v Hwf. destruct (Clear_ok f v Hwf) as (v' & ? & ? & ? & _). eauto.
  - done.
Defined.
