(* ===== verification/ReferenceChainTraverser.v ===== *)
(** * Traversing the object graph

    Model of [ReferenceChainTraverser.cpp] and of the lookups it makes in [InlineVTCache]:
    from one root, the references of every object are read through its GC descriptor, each
    object is scanned once, and the tree of types counts what was met.  The whole traversal
    runs over memory that may be unreadable, with answers of the profiling API that may
    fail, under the fault guard of [FaultMonad].

    Pointers to tree nodes are the root they hang from and the chain of types below it.
    Allocations may throw, and an insertion into the visited set may be interrupted between
    two of its writes: [interruptions] decides, operation by operation. *)
From stdpp Require Import base gmap list.
From S2P Require Import Prelude FaultMonad VisitedObjectSet VisitedSet TypeReferenceTree GCDesc.

(** ** Data *)

Inductive TraversalStopReason :=
| NoStop | FaultBudgetExhausted | UnexpectedException | FaultGuardUnavailable.

#[export] Instance TraversalStopReason_eq_dec : EqDecision TraversalStopReason.
Proof. solve_decision. Defined.

(** A [TypeTreeNode*]: root type and category, then the types of the chain. *)
Record NodeRef := mkRef { ref_type : Z; ref_category : RootCategory; ref_path : list Z }.

Record TraversalFrame := mkFrame {
  objectAddress : Z; treeNode : NodeRef; depth : Z; frame_class : Z; objectSize : Z }.

Record RootInfo := mkRootInfo {
  address : Z; root_category : RootCategory; root_class : Z; root_size : Z;
  root_field : option text }.

Record InlineVTField := mkField { vt_offset : Z; vt_class : Z; vt_size : Z }.
Definition InlineVTInfo := list InlineVTField.

Record InlineVTCache := mkCache {
  _cache : gmap Z (option InlineVTInfo);
  _pendingClassIDs : gset Z;
  _moduleUnloaded : bool }.

Definition MaxTreeDepth : Z := 128.
Definition MaxFaultsPerDump : Z := 16.
Definition MaxSelfTestObjects : Z := 8.
Definition ELEMENT_TYPE_VALUETYPE : Z := 0x11.

(** Permanent state of the layout self-test. *)
Record Layout := mkLayout {
  _gcDescTrusted : bool; _selfTest : SelfTestResult; _selfTestObjectsChecked : Z;
  _selfTestFailedClassID : Z; _selfTestFailureLogged : bool }.

(** State of the current dump. *)
Record Dump := mkDump { _faultCount : Z; _stopReason : TraversalStopReason }.

Record Stats := mkStats {
  _objectsTraversed : Z; _rootsProcessed : Z; _rootCategoryCounts : list Z }.

Record Traverser (V : Type) := mkTraverser {
  _visited : V;
  _traversalStack : list TraversalFrame;       (* the back of the vector is the head *)
  _tree : TypeReferenceTree;
  _inlineVTCache : InlineVTCache;
  _stats : Stats;
  _layout : Layout;
  _dump : Dump;
  _warnings : list Z;                          (* classes whose self-test failure was logged *)
  _operations : nat                            (* fallible operations so far *)
}.
Arguments mkTraverser {V}.
Arguments _visited {V}.
Arguments _traversalStack {V}.
Arguments _tree {V}.
Arguments _inlineVTCache {V}.
Arguments _stats {V}.
Arguments _layout {V}.
Arguments _dump {V}.
Arguments _warnings {V}.
Arguments _operations {V}.

(** An answer of the profiling API: success, a failed HRESULT, or a call that itself faults
    or throws. *)
Inductive answer (A : Type) := Answer (x : A) | Error | AnswerFault | AnswerThrow.
Arguments Answer {A} x.
Arguments Error {A}.
Arguments AnswerFault {A}.
Arguments AnswerThrow {A}.

Record ICorProfilerInfo := mkInfo {
  IsArrayClass : Z -> answer (Z * Z * Z);            (* element type, element class, rank *)
  GetClassLayout : Z -> answer Z;                    (* number of fields *)
  GetArrayObjectInfo : Z -> Z -> answer ((nat -> Z) * Z);   (* dimension sizes, data *)
  GetClassFromObject : Z -> answer Z;
  GetObjectSize2 : Z -> answer Z }.

(** What happens to the n-th allocation or insertion: nothing, a fault or an exception
    after so many of its writes. *)
Inductive interruption := Smooth | FaultAfter (n : nat) | ThrowAfter (n : nat).

(** ** The tree through node pointers *)

Fixpoint at_path (path : list Z) (f : TypeTreeNode -> TypeTreeNode) (n : TypeTreeNode)
    : TypeTreeNode :=
  match path with
  | [] => f n
  | id :: path => GetOrCreateChild id (at_path path f) n
  end.

Fixpoint at_root (id : Z) (cat : RootCategory) (f : TypeTreeNode -> TypeTreeNode)
    (tree : TypeReferenceTree) : TypeReferenceTree :=
  match tree with
  | [] => []
  | r :: tree =>
      if (typeID (node r) =? id) && bool_decide (category r = cat)
      then mkRoot (f (node r)) (category r) (fieldName r) :: tree
      else r :: at_root id cat f tree
  end.

Definition at_node (p : NodeRef) (f : TypeTreeNode -> TypeTreeNode) (tree : TypeReferenceTree)
    : TypeReferenceTree :=
  at_root (ref_type p) (ref_category p) (at_path (ref_path p) f) tree.

Definition child_ref (p : NodeRef) (id : Z) : NodeRef :=
  mkRef (ref_type p) (ref_category p) (ref_path p ++ [id]).

Definition IsValidObjectAddress (address : Z) : bool :=
  if (address =? 0) || (address <? 0x10000) then false
  else negb (negb (address mod sizeof_ptr =? 0)).

(** Number of elements; [None]: the product overflows. *)
Fixpoint total_elements (dims : list Z) (total : Z) : option Z :=
  match dims with
  | [] => Some total
  | dim :: dims =>
      if negb (dim =? 0) && ((2 ^ 64 - 1) / dim <? total) then None
      else total_elements dims (u64 (total * dim))
  end.

(** The first inline value type whose range holds the offset, with its start. *)
Fixpoint find_field (refOffset baseOffset : Z) (fields : InlineVTInfo)
    : option (InlineVTField * Z) :=
  match fields with
  | [] => None
  | field :: fields =>
      let vtStart := u32 (baseOffset + vt_offset field) in
      if vtStart <? baseOffset then find_field refOffset baseOffset fields
      else if (refOffset <? vtStart) || (vt_size field <=? u32 (refOffset - vtStart))
      then find_field refOffset baseOffset fields
      else Some (field, vtStart)
  end.

(** ** The inline value type cache *)

Definition OnModuleUnloaded (c : InlineVTCache) : InlineVTCache :=
  mkCache (_cache c) (_pendingClassIDs c) true.

Definition ClearCache (c : InlineVTCache) : InlineVTCache :=
  mkCache ∅ ∅ (_moduleUnloaded c).

Definition DropCacheIfModuleUnloaded (c : InlineVTCache) : InlineVTCache * bool :=
  if negb (_moduleUnloaded c) then (c, false)
  else (ClearCache (mkCache (_cache c) (_pendingClassIDs c) false), true).

(** The part of [GetInlineVTInfo] behind the descriptor check. *)
Definition lookup_or_queue (classID : Z) (c : InlineVTCache) : InlineVTCache * option InlineVTInfo :=
  match _cache c !! classID with
  | Some info => (c, info)
  | None => (mkCache (<[classID := None]> (_cache c)) ({[classID]} ∪ _pendingClassIDs c)
               (_moduleUnloaded c), None)
  end.

(** ** Operations *)

Section traverser.
Context {V : Type} `{VisitedSet V}.
(** The memory of the process, the profiling API, the handler registrations and the
    interruptions. *)
Context (mem : Z -> option Z) (info : ICorProfilerInfo).
Context (RegisterHandlers : nat -> bool * bool) (interruptions : nat -> interruption).
(** Fuel of the drain loop and of the recursion over nested value types. *)
Context (drainFuel vtFuel : nat).
Implicit Types s : Traverser V.

Definition with_visited (v : V) s : Traverser V :=
  mkTraverser v (_traversalStack s) (_tree s) (_inlineVTCache s) (_stats s) (_layout s)
    (_dump s) (_warnings s) (_operations s).
Definition with_stack (l : list TraversalFrame) s : Traverser V :=
  mkTraverser (_visited s) l (_tree s) (_inlineVTCache s) (_stats s) (_layout s)
    (_dump s) (_warnings s) (_operations s).
Definition on_tree (f : TypeReferenceTree -> TypeReferenceTree) s : Traverser V :=
  mkTraverser (_visited s) (_traversalStack s) (f (_tree s)) (_inlineVTCache s) (_stats s)
    (_layout s) (_dump s) (_warnings s) (_operations s).
Definition with_cache (c : InlineVTCache) s : Traverser V :=
  mkTraverser (_visited s) (_traversalStack s) (_tree s) c (_stats s) (_layout s)
    (_dump s) (_warnings s) (_operations s).
Definition on_stats (f : Stats -> Stats) s : Traverser V :=
  mkTraverser (_visited s) (_traversalStack s) (_tree s) (_inlineVTCache s) (f (_stats s))
    (_layout s) (_dump s) (_warnings s) (_operations s).
Definition on_layout (f : Layout -> Layout) s : Traverser V :=
  mkTraverser (_visited s) (_traversalStack s) (_tree s) (_inlineVTCache s) (_stats s)
    (f (_layout s)) (_dump s) (_warnings s) (_operations s).
Definition with_dump (d : Dump) s : Traverser V :=
  mkTraverser (_visited s) (_traversalStack s) (_tree s) (_inlineVTCache s) (_stats s)
    (_layout s) d (_warnings s) (_operations s).
Definition with_warnings (l : list Z) s : Traverser V :=
  mkTraverser (_visited s) (_traversalStack s) (_tree s) (_inlineVTCache s) (_stats s)
    (_layout s) (_dump s) l (_operations s).
Definition next_operation s : Traverser V :=
  mkTraverser (_visited s) (_traversalStack s) (_tree s) (_inlineVTCache s) (_stats s)
    (_layout s) (_dump s) (_warnings s) (S (_operations s)).

(** The constructor, given the empty visited set it builds. *)
Definition new_ReferenceChainTraverser (visited : V) (tree : TypeReferenceTree)
    (inlineVTCache : InlineVTCache) : Traverser V :=
  mkTraverser visited [] tree inlineVTCache (mkStats 0 0 (replicate 9 0))
    (mkLayout true Pending 0 0 false) (mkDump 0 NoStop) [] 0.

(** An operation that allocates: it may throw (or be hit by a fault) before any effect. *)
Definition alloc : M (Traverser V) unit := fun s =>
  (next_operation s,
   match interruptions (_operations s) with
   | Smooth => Done tt
   | FaultAfter _ => Fault
   | ThrowAfter _ => Throw
   end).

Definition ask {A} (a : answer A) : M (Traverser V) (option A) :=
  match a with
  | Answer x => mret (Some x)
  | Error => mret None
  | AnswerFault => fault
  | AnswerThrow => throw
  end.

(** [_visited.TryInsert]. *)
Definition insert_visited (a : Z) : M (Traverser V) (InsertResult * Z) := fun s =>
  match interruptions (_operations s) with
  | Smooth =>
      match vs_TryInsert (_visited s) a with
      | Some (v, r, i) => (with_visited v (next_operation s), Done (r, i))
      | None => (s, Stuck)
      end
  | FaultAfter n =>
      match vs_TryInsert_interrupted n (_visited s) a with
      | Some v => (with_visited v (next_operation s), Fault)
      | None => (s, Stuck)
      end
  | ThrowAfter n =>
      match vs_TryInsert_interrupted n (_visited s) a with
      | Some v => (with_visited v (next_operation s), Throw)
      | None => (s, Stuck)
      end
  end.

(** [slot->classID], read and written. *)
Definition slot_class (i : Z) : M (Traverser V) Z :=
  v ← gets _visited; try (vs_entry v i).
Definition store_class (i c : Z) : M (Traverser V) unit :=
  v ← gets _visited; v ← try (vs_store v i c); modify (with_visited v).

(** [p->GetOrCreateChild(id)] and [p->AddInstance(size)]. *)
Definition get_or_create_child (p : NodeRef) (id : Z) : M (Traverser V) NodeRef :=
  alloc;; modify (on_tree (at_node p (GetOrCreateChild id (fun n => n))));; mret (child_ref p id).
Definition add_instance (p : NodeRef) (size : Z) : M (Traverser V) unit :=
  modify (on_tree (at_node p (AddInstance size))).

Definition PushTraversalFrameIfScannable (objectAddress : Z) (treeNode : NodeRef)
    (depth classID objectSize : Z) : M (Traverser V) unit :=
  scannable ← ContainsGCPointers mem classID;
  if scannable : bool then
    alloc;; modify (fun s =>
      with_stack (mkFrame objectAddress treeNode depth classID objectSize :: _traversalStack s) s)
  else skip.

Definition ProcessDiscoveredRef (refAddress : Z) (parentNode : NodeRef) (depth : Z)
    : M (Traverser V) bool :=
  '(r, slot) ← insert_visited refAddress;
  match r with
  | Inserted =>
      targetClassID ← ask (GetClassFromObject info refAddress);
      match targetClassID with
      | None => mret false
      | Some targetClassID =>
          if targetClassID =? 0 then mret false
          else
            targetSize ← ask (GetObjectSize2 info refAddress);
            match targetSize with
            | None => mret false
            | Some targetSize =>
                if targetSize =? 0 then mret false
                else
                  store_class slot targetClassID;;
                  childNode ← get_or_create_child parentNode targetClassID;
                  add_instance childNode targetSize;;
                  PushTraversalFrameIfScannable refAddress childNode (u32 (depth + 1))
                    targetClassID targetSize;;
                  mret true
            end
      end
  | AlreadyPresent =>
      c ← slot_class slot;
      (if negb (c =? 0) then
         revisitSize ← ask (GetObjectSize2 info refAddress);
         childNode ← get_or_create_child parentNode c;
         add_instance childNode (default 0 revisitSize)
       else skip);;
      mret false
  end.

(** The callback of the value-type array path: the same work, after the null check the
    enumeration has already made. *)
Definition array_callback (currentNode : NodeRef) (depth refAddr : Z) : M (Traverser V) unit :=
  if (refAddr =? 0) || negb (IsValidObjectAddress refAddr) then skip
  else ProcessDiscoveredRef refAddr currentNode depth;; skip.

Definition EnqueueValueTypeArrayChildren (arrayAddress arrayClassID : Z) (currentNode : NodeRef)
    (depth : Z) : M (Traverser V) unit :=
  a ← ask (IsArrayClass info arrayClassID);
  match a with
  | None => skip
  | Some (elementType, elementClassID, rank) =>
      if (rank =? 0) || negb (elementType =? ELEMENT_TYPE_VALUETYPE) then skip
      else
        refs ← (if elementClassID =? 0 then mret false else ContainsGCPointers mem elementClassID);
        if negb refs then skip
        else
          (if rank =? 1 then skip else alloc);;
          d ← ask (GetArrayObjectInfo info arrayAddress rank);
          match d with
          | None => skip
          | Some (dimensionSizes, pData) =>
              if pData =? 0 then skip
              else
                match total_elements (map (fun d => u32 (dimensionSizes d)) (seq 0 (Z.to_nat rank))) 1 with
                | None => skip
                | Some totalElements =>
                    if totalElements =? 0 then skip
                    else EnumerateVTArrayRefs mem arrayClassID arrayAddress totalElements
                           (fun _ refAddr _ => array_callback currentNode depth refAddr)
                end
          end
  end.

Definition GetInlineVTInfo (classID : Z) : M (Traverser V) (option InlineVTInfo) :=
  if classID =? 0 then mret None
  else
    refs ← ContainsGCPointers mem classID;
    if negb refs then mret None
    else
      c ← gets _inlineVTCache;
      let '(c, r) := lookup_or_queue classID c in
      modify (with_cache c);; mret r.

Fixpoint AddInlineValueTypeInstances (fuel : nat) (currentNode : NodeRef) (vtInfo : InlineVTInfo)
    : M (Traverser V) unit :=
  match fuel with
  | O => stuck
  | S fuel =>
      for_each vtInfo (fun field =>
        vtNode ← get_or_create_child currentNode (vt_class field);
        add_instance vtNode 0;;
        nestedInfo ← GetInlineVTInfo (vt_class field);
        match nestedInfo with
        | Some nestedInfo => AddInlineValueTypeInstances fuel vtNode nestedInfo
        | None => skip
        end)
  end.

Fixpoint GetInlineValueTypeOwner (fuel : nat) (currentNode : NodeRef) (depth refOffset : Z)
    (vtInfo : InlineVTInfo) (baseOffset : Z) : M (Traverser V) (NodeRef * Z) :=
  match fuel with
  | O => stuck
  | S fuel =>
      match find_field refOffset baseOffset vtInfo with
      | None => mret (currentNode, depth)
      | Some (field, vtStart) =>
          vtNode ← get_or_create_child currentNode (vt_class field);
          nestedInfo ← GetInlineVTInfo (vt_class field);
          match nestedInfo with
          | Some nestedInfo =>
              GetInlineValueTypeOwner fuel vtNode (u32 (depth + 1)) refOffset nestedInfo vtStart
          | None => mret (vtNode, u32 (depth + 1))
          end
      end
  end.

(** The self-test of the first scannable objects; [true]: it failed and the drain returns. *)
Definition self_test (classID objectSize : Z) : M (Traverser V) bool :=
  l ← gets _layout;
  if bool_decide (_selfTest l = Pending) && (_selfTestObjectsChecked l <? MaxSelfTestObjects) then
    modify (on_layout (fun l => mkLayout (_gcDescTrusted l) (_selfTest l)
      (u32 (_selfTestObjectsChecked l + 1)) (_selfTestFailedClassID l) (_selfTestFailureLogged l)));;
    result ← ValidateAgainstMetadata mem true
      (fun c => a ← ask (IsArrayClass info c); mret (bool_decide (is_Some a)))
      (fun c => ask (GetClassLayout info c)) classID objectSize;
    match result with
    | Failed =>
        modify (on_layout (fun l => mkLayout false Failed (_selfTestObjectsChecked l)
          classID (_selfTestFailureLogged l)));;
        mret true
    | Passed =>
        modify (on_layout (fun l => mkLayout (_gcDescTrusted l) Passed (_selfTestObjectsChecked l)
          (_selfTestFailedClassID l) (_selfTestFailureLogged l)));;
        mret false
    | Pending => mret false
    end
  else mret false.

(** The references of a frame's object, by their descriptor. *)
Definition scan_references (frame : TraversalFrame) : M (Traverser V) unit :=
  let classID := frame_class frame in
  seriesCount ← GetSeriesCount mem classID;
  if seriesCount <? 0 then
    EnqueueValueTypeArrayChildren (objectAddress frame) classID (treeNode frame) (depth frame)
  else if seriesCount =? 0 then skip
  else
    vtInfo ← GetInlineVTInfo classID;
    match vtInfo with
    | None =>
        EnumerateObjectRefs mem classID (objectAddress frame) (objectSize frame)
          (fun _ refAddr _ =>
             if IsValidObjectAddress refAddr
             then ProcessDiscoveredRef refAddr (treeNode frame) (depth frame);; skip
             else skip)
    | Some vtInfo =>
        AddInlineValueTypeInstances vtFuel (treeNode frame) vtInfo;;
        EnumerateObjectRefs mem classID (objectAddress frame) (objectSize frame)
          (fun _ refAddr offset =>
             if negb (IsValidObjectAddress refAddr) then skip
             else
               '(owner, d) ← GetInlineValueTypeOwner vtFuel (treeNode frame) (depth frame) offset
                               vtInfo 0;
               ProcessDiscoveredRef refAddr owner d;; skip)
    end.

(** One iteration of the drain loop, after the pop; [true]: return. *)
Definition scan_frame (frame : TraversalFrame) : M (Traverser V) bool :=
  if MaxTreeDepth <? depth frame then mret false
  else
    modify (on_stats (fun st => mkStats (u64 (_objectsTraversed st + 1)) (_rootsProcessed st)
                                  (_rootCategoryCounts st)));;
    scannable ← ContainsGCPointers mem (frame_class frame);
    if negb scannable then mret false
    else
      failed ← self_test (frame_class frame) (objectSize frame);
      if failed : bool then mret true
      else scan_references frame;; mret false.

Fixpoint DrainTraversalStack (fuel : nat) : M (Traverser V) unit :=
  match fuel with
  | O => stuck
  | S fuel =>
      stack ← gets _traversalStack;
      match stack with
      | [] => skip
      | frame :: rest =>
          modify (with_stack rest);;
          stop ← scan_frame frame;
          if stop : bool then skip else DrainTraversalStack fuel
      end
  end.

Definition SeedRoot (root : RootInfo) : M (Traverser V) unit :=
  modify (on_stats (fun st => mkStats (_objectsTraversed st) (_rootsProcessed st)
    (alter (fun n => u64 (n + 1)) (Z.to_nat (category_byte (root_category root)))
       (_rootCategoryCounts st))));;
  alloc;;
  modify (on_tree (AddRoot (root_class root) (root_category root) (root_size root)
    (root_field root) (fun n => n)));;
  let rootNode := mkRef (root_class root) (root_category root) [] in
  v ← gets _visited; v ← try (vs_Clear v); modify (with_visited v);;
  modify (with_stack []);;
  alloc;;
  v ← gets _visited;
  v ← try (vs_MarkVisitedAndStore v (address root) (root_class root));
  modify (with_visited v);;
  PushTraversalFrameIfScannable (address root) rootNode 1 (root_class root) (root_size root).

Definition OnTraversalFault s : Traverser V :=
  let n := u32 (_faultCount (_dump s) + 1) in
  let d := mkDump n (if MaxFaultsPerDump <=? n then FaultBudgetExhausted
                     else _stopReason (_dump s)) in
  with_visited (vs_MarkPossiblyInconsistent (_visited s)) (with_dump d s).

Definition OnFaultGuardUnavailable s : Traverser V :=
  with_visited (vs_MarkPossiblyInconsistent (_visited s))
    (with_dump (mkDump (_faultCount (_dump s)) FaultGuardUnavailable) s).

Definition OnTraversalAborted s : Traverser V :=
  with_visited (vs_MarkPossiblyInconsistent (_visited s))
    (with_dump (mkDump (_faultCount (_dump s)) UnexpectedException) s).

Definition LogPendingSelfTestFailure s : Traverser V :=
  let l := _layout s in
  if (_selfTestFailedClassID l =? 0) || _selfTestFailureLogged l then s
  else with_warnings (_warnings s ++ [_selfTestFailedClassID l])
         (on_layout (fun l => mkLayout (_gcDescTrusted l) (_selfTest l) (_selfTestObjectsChecked l)
            (_selfTestFailedClassID l) true) s).

Definition RunGuarded (body : M (Traverser V) unit) : M (Guard * Traverser V) bool :=
  result ← Run RegisterHandlers body;
  match result with
  | Completed => mret true
  | Faulted => modify (fun '(g, s) => (g, OnTraversalFault s));; mret false
  | Unavailable => modify (fun '(g, s) => (g, OnFaultGuardUnavailable s));; mret false
  end.

Definition may_continue s : bool :=
  _gcDescTrusted (_layout s) && bool_decide (_stopReason (_dump s) = NoStop).

(** The resume loop: drains until the stack is empty or the traversal stops. *)
Fixpoint resume (fuel : nat) : M (Guard * Traverser V) unit :=
  match fuel with
  | O => stuck
  | S fuel =>
      s ← gets snd;
      if bool_decide (_traversalStack s = []) || negb (may_continue s) then skip
      else
        RunGuarded (DrainTraversalStack drainFuel);;
        modify (fun '(g, s') =>
          (g, if negb (_faultCount (_dump s') =? _faultCount (_dump s)) &&
                 (_objectsTraversed (_stats s') =? _objectsTraversed (_stats s)) &&
                 negb (bool_decide (_traversalStack s' = []))
              then with_stack (tail (_traversalStack s')) s' else s'));;
        resume fuel
  end.

Definition TraverseFromSingleRootCore (root : RootInfo) : M (Guard * Traverser V) unit :=
  s ← gets snd;
  if negb (may_continue s) then skip
  else
    seeded ← RunGuarded (SeedRoot root);
    if negb seeded then skip
    else
      resume (S (Z.to_nat MaxFaultsPerDump));;
      modify (fun '(g, s) => (g, on_stats (fun st => mkStats (_objectsTraversed st)
        (u64 (_rootsProcessed st + 1)) (_rootCategoryCounts st)) s)).

(** Whatever the core throws stops the dump. *)
Definition TraverseFromSingleRoot (root : RootInfo) : M (Guard * Traverser V) unit := fun gs =>
  match TraverseFromSingleRootCore root gs with
  | ((g, s), Done _) => ((g, LogPendingSelfTestFailure s), Done tt)
  | ((g, s), Throw) => ((g, LogPendingSelfTestFailure (OnTraversalAborted s)), Done tt)
  | r => r
  end.

Definition WasAbortedByFaults s : bool := bool_decide (_stopReason (_dump s) = FaultBudgetExhausted).
Definition WasAbortedByException s : bool :=
  bool_decide (_stopReason (_dump s) = UnexpectedException).
End traverser.
