(* ===== verification/TraversalSafety.v ===== *)
(** * Safety and termination of the traversal

    Whatever the memory holds, whatever the profiling API answers and wherever faults and
    exceptions strike, the traversal of [ReferenceChainTraverser] ends, scans an object at
    most once per root, stays within its fault budget and leaves a usable visited set. *)
From stdpp Require Import base gmap list.
From S2P Require Import Prelude FaultMonad VisitedObjectSet VisitedSet TypeReferenceTree GCDesc.
From S2P Require Import ReferenceChainTraverser.

(** Nothing of the traverser's bookkeeping changes. *)
Definition kept {V} (s0 s : Traverser V) : Prop :=
  _stats s = _stats s0 /\ _layout s = _layout s0 /\ _dump s = _dump s0 /\ _warnings s = _warnings s0.

(** Depths are unsigned. *)
Definition depths_ok (st : list TraversalFrame) : Prop := Forall (fun fr => 0 <= depth fr) st.

Section scanning.
Context {V : Type} `{VisitedSet V}.
Context (mem : Z -> option Z) (info : ICorProfilerInfo) (interruptions : nat -> interruption).
Context (vtFuel : nat).

(** Value types nest to a finite depth, which the fuel covers. *)
Context (rank : Z -> nat) (Hrank : forall k, (rank k < vtFuel)%nat).
Definition ranked (c : InlineVTCache) : Prop :=
  forall k fields fld, _cache c !! k = Some (Some fields) -> fld ∈ fields ->
    (rank (vt_class fld) < rank k)%nat.

(** Every word of the memory that looks like an object address is one of these; fewer than
    the visited set can hold. *)
Context (U : gset Z).
Context (HU : forall a w, mem a = Some w -> IsValidObjectAddress w = true -> w ∈ U).
Context (HUmax : Z.of_nat (size U) < MaxEntries).

Implicit Types s : Traverser V.
Implicit Types Inv : gmap Z Z -> list TraversalFrame -> Prop.

Definition contents_of s : gmap Z Z := vs_contents (_visited s).
Definition potential s : Z := zlen (_traversalStack s) - Z.of_nat (size (contents_of s)).

(** While an object is scanned: the bookkeeping is that of [s0], and every frame pushed
    since belongs to an address visited since. *)
Record scanning (s0 : Traverser V) (f : Z) Inv (s : Traverser V) : Prop := {
  sc_kept : kept s0 s;
  sc_visited : vs_inv f (_visited s);
  sc_dom : dom (contents_of s) ⊆ U;
  sc_ranked : ranked (_inlineVTCache s);
  sc_potential : potential s <= potential s0;
  sc_depths : depths_ok (_traversalStack s);
  sc_inv : Inv (contents_of s) (_traversalStack s)
}.

(** Where a fault or an exception may leave the state. *)
Record broken (s0 : Traverser V) (f : Z) (s : Traverser V) : Prop := {
  br_kept : kept s0 s;
  br_visited : vs_inv (f + 1) (vs_MarkPossiblyInconsistent (_visited s));
  br_dom : dom (contents_of s) ⊆ U;
  br_ranked : ranked (_inlineVTCache s);
  br_potential : potential s <= potential s0;
  br_depths : depths_ok (_traversalStack s)
}.

Context (s0 : Traverser V) (f : Z) (Hf : 0 <= f < 16).

Lemma scanning_broken Inv s : scanning s0 f Inv s -> broken s0 f s.
Proof.
  intros []. split; auto. apply vs_inconsistent_law. apply (vs_mono_law f); [lia|done].
Qed.
Hint Resolve scanning_broken : prof.

Lemma scanning_weaken Inv Inv' s :
  (forall m st, Inv m st -> Inv' m st) -> scanning s0 f Inv s -> scanning s0 f Inv' s.
Proof. intros Hi []. split; auto. Qed.

Abbreviation keeps Inv m := (triple (scanning s0 f Inv) m (fun _ => scanning s0 f Inv) (broken s0 f)).

(** A read that leaves the state alone, with what is known of its result. *)
Abbreviation reads Inv m R :=
  (triple (scanning s0 f Inv) m (fun x s => R x /\ scanning s0 f Inv s) (broken s0 f)).

Lemma reads_bind {A B} Inv Q (m : M (Traverser V) A) (R : A -> Prop) (k : A -> M (Traverser V) B) :
  reads Inv m R -> (forall x, R x -> triple (scanning s0 f Inv) (k x) Q (broken s0 f)) ->
  triple (scanning s0 f Inv) (m ≫= k) Q (broken s0 f).
Proof.
  intros Hm Hk. eapply triple_bind; [exact Hm|]. intros x s [Hx Hs]. by apply Hk.
Qed.

Lemma keeps_bind {A B} Inv Q (m : M (Traverser V) A) (k : A -> M (Traverser V) B) :
  keeps Inv m -> (forall x, triple (scanning s0 f Inv) (k x) Q (broken s0 f)) ->
  triple (scanning s0 f Inv) (m ≫= k) Q (broken s0 f).
Proof. intros Hm Hk. eapply triple_bind; [exact Hm|]. intros x. apply Hk. Qed.

Lemma keeps_ret {A} Inv (x : A) : keeps Inv (mret x).
Proof. by apply triple_ret. Qed.

Lemma reads_read_word Inv a : reads Inv (read_word mem a) (fun w => mem a = Some w).
Proof.
  unfold read_word. destruct (mem a); [by apply triple_ret|].
  apply triple_fault. eauto using scanning_broken.
Qed.

(** What [ContainsGCPointers] answers when it does not fault. *)
Definition scannable (c : Z) : Prop :=
  c <> 0 /\ exists flags, mem c = Some flags /\ Z.land (u32 flags) Flag_ContainsPointers <> 0.

Lemma reads_pointers Inv c :
  reads Inv (ContainsGCPointers mem c) (fun b => b = true <-> scannable c).
Proof.
  unfold ContainsGCPointers. destruct (Z.eqb_spec c 0) as [->|Hc].
  { apply triple_ret. intros s Hs. split; [|done]. split; [done|]. intros [? _]. done. }
  eapply reads_bind; [apply reads_read_word|]. intros w Hw. apply triple_ret. intros s Hs.
  split; [|done]. rewrite negb_true_iff, Z.eqb_neq. unfold scannable. split.
  - intros Hl. split; [done|]. by exists w.
  - intros (_ & w' & Hw' & ?). congruence.
Qed.

Lemma reads_ask {A} Inv (a : answer A) : reads Inv (ask a) (fun x => match x with Some x => a = Answer x | None => a = Error end).
Proof.
  destruct a; [by apply triple_ret..| |].
  - apply triple_fault. eauto using scanning_broken.
  - apply triple_throw. eauto using scanning_broken.
Qed.

Lemma keeps_ask {A} Inv (a : answer A) : keeps Inv (ask a).
Proof. eapply triple_weaken; [apply (reads_ask Inv a)|done| |done]. tauto. Qed.

Lemma scanning_same Inv s s' :
  scanning s0 f Inv s -> kept s s' -> _visited s' = _visited s ->
  _traversalStack s' = _traversalStack s -> ranked (_inlineVTCache s') -> scanning s0 f Inv s'.
Proof.
  intros [Hk Hv Hd Hr Hp Hds Hi] Hk' Ev Es Hr'.
  split; [unfold kept in *; intuition congruence|..];
    unfold potential, contents_of in *; rewrite ?Ev, ?Es; auto.
Qed.

Lemma keeps_alloc Inv : keeps Inv (alloc interruptions).
Proof.
  intros s Hs. unfold alloc. assert (scanning s0 f Inv (next_operation s)) as Hs'.
  { eapply scanning_same; [exact Hs|..]; try done. apply Hs. }
  destruct (interruptions (_operations s)); eauto using scanning_broken.
Qed.

Lemma keeps_on_tree Inv g : keeps Inv (modify (on_tree g)).
Proof.
  apply triple_modify. intros s Hs. eapply scanning_same; [exact Hs|..]; try done. apply Hs.
Qed.

Lemma keeps_get_or_create Inv p id : keeps Inv (get_or_create_child interruptions p id).
Proof.
  unfold get_or_create_child. eapply keeps_bind; [apply keeps_alloc|]. intros _.
  eapply keeps_bind; [apply keeps_on_tree|]. intros _. apply keeps_ret.
Qed.

Lemma keeps_add_instance Inv p size : keeps Inv (add_instance p size).
Proof. apply keeps_on_tree. Qed.

Lemma ranked_queue c k : ranked c -> ranked (lookup_or_queue k c).1.
Proof.
  intros Hc. unfold lookup_or_queue. destruct (_cache c !! k) eqn:E; [done|].
  intros k' fields fld. cbn. rewrite lookup_insert_Some. intros [[_ ?]|[_ ?]]; [done|]. eauto.
Qed.

(** A known value type has fields of smaller rank only. *)
Lemma reads_vt_info Inv k :
  reads Inv (GetInlineVTInfo mem k) (fun r => match r with
    | Some fields => forall fld, fld ∈ fields -> (rank (vt_class fld) < rank k)%nat
    | None => True end).
Proof.
  unfold GetInlineVTInfo. destruct (k =? 0); [by apply triple_ret|].
  eapply reads_bind; [apply reads_pointers|]. intros b _. destruct b; [|by apply triple_ret].
  cbn [negb]. intros s Hs. unfold mbind, M_bind, gets. cbv beta iota.
  pose proof (ranked_queue _ k (sc_ranked _ _ _ _ Hs)) as Hr.
  destruct (lookup_or_queue k (_inlineVTCache s)) as [c r] eqn:E. unfold modify. cbn. split.
  - destruct r as [fields|]; [|done]. unfold lookup_or_queue in E.
    destruct (_cache (_inlineVTCache s) !! k) as [o|] eqn:Ek; [|done].
    simplify_eq. intros fld. by apply (sc_ranked _ _ _ _ Hs).
  - eapply scanning_same; [exact Hs|..]; done.
Qed.

(** ** Discovering a reference *)

(** What the profiling API says of an object, when it resolves it. *)
Definition resolves (b c size : Z) : Prop :=
  GetClassFromObject info b = Answer c /\ c <> 0 /\
  GetObjectSize2 info b = Answer size /\ size <> 0.

(** The effect of a discovered reference on the visited map and the stack. *)
Inductive discover (b d : Z) : gmap Z Z -> list TraversalFrame -> gmap Z Z -> list TraversalFrame -> Prop :=
| discover_known m st c :
    m !! b = Some c -> discover b d m st m st
| discover_unresolved m st :
    m !! b = None -> (forall c size, ~ resolves b c size) ->
    discover b d m st (<[b := 0]> m) st
| discover_leaf m st c size :
    m !! b = None -> resolves b c size -> ~ scannable c ->
    discover b d m st (<[b := c]> m) st
| discover_push m st c size p :
    m !! b = None -> resolves b c size -> scannable c ->
    discover b d m st (<[b := c]> m) (mkFrame b p (u32 (d + 1)) c size :: st).

Lemma contents_bound s : dom (contents_of s) ⊆ U -> Z.of_nat (size (contents_of s)) < MaxEntries.
Proof.
  intros Hd. rewrite <- size_dom. pose proof (subseteq_size _ _ Hd). lia.
Qed.

(** Between the insertion and the store, the slot is known but the class is not. *)
Definition inserted_at (b i : Z) (m : gmap Z Z) (v : V) : Prop :=
  m !! b = None /\ vs_contents v = <[b := 0]> m /\
  forall c, exists v', vs_store v i c = Some v' /\ vs_inv f v' /\ vs_contents v' = <[b := c]> m.

(** A state that [scanning] describes up to the visited map: [b] was just added to it. *)
Definition fresh b i Inv s : Prop :=
  exists m, inserted_at b i m (_visited s) /\ Inv m (_traversalStack s) /\
    scanning s0 f (fun m' _ => m' = <[b := 0]> m) s /\
    zlen (_traversalStack s) - Z.of_nat (size m) <= potential s0.

Lemma insert_visited_spec Inv b :
  b <> 0 -> b ∈ U ->
  triple (scanning s0 f Inv) (insert_visited interruptions b)
    (fun '(r, i) s => match r with
       | Inserted => fresh b i Inv s
       | AlreadyPresent => exists c, vs_entry (_visited s) i = Some c /\
           scanning s0 f (fun m st => Inv m st /\ m !! b = Some c) s
       end) (broken s0 f).
Proof.
  intros Hb HbU s Hs. pose proof (contents_bound s (sc_dom _ _ _ _ Hs)) as Hmax.
  pose proof (sc_visited _ _ _ _ Hs) as Hv. unfold insert_visited.
  assert (forall v', (vs_contents v' = contents_of s \/ exists c, vs_contents v' = <[b := c]> (contents_of s)) ->
    dom (vs_contents v') ⊆ U /\ Z.of_nat (size (contents_of s)) <= Z.of_nat (size (vs_contents v'))) as Hgrow.
  { intros v' [->|[c ->]]; [split; [apply Hs|lia]|]. split.
    - rewrite dom_insert_L. pose proof (sc_dom _ _ _ _ Hs). set_solver.
    - destruct (contents_of s !! b) eqn:E; [rewrite map_size_insert_Some by eauto|rewrite map_size_insert_None by done]; lia. }
  assert (forall n, exists v', vs_TryInsert_interrupted n (_visited s) b = Some v' /\
    broken s0 f (with_visited v' (next_operation s))) as Hint.
  { intros n. destruct (vs_interrupted_law f (_visited s) b n Hf Hv Hb Hmax) as (v' & HE & Hi & Hc).
    exists v'. split; [done|]. destruct (Hgrow v' Hc). split; try apply Hs; try done.
    unfold potential. cbn. pose proof (sc_potential _ _ _ _ Hs). unfold potential in *. unfold contents_of in *; cbn. lia. }
  destruct (interruptions (_operations s)) as [|n|n];
    [|destruct (Hint n) as (v' & -> & ?); done..].
  destruct (vs_insert_law f (_visited s) b ltac:(lia) Hv Hb Hmax) as (v' & r & i & -> & Hi & HE).
  fold (contents_of s) in HE. pose proof (sc_potential _ _ _ _ Hs) as Hp.
  destruct (contents_of s !! b) as [c|] eqn:Hc.
  - destruct HE as (-> & HE & He). exists c. split; [done|].
    destruct (Hgrow v') as [? ?]; [by left|].
    split; try apply Hs; try done; unfold potential, contents_of in *; cbn in *; rewrite ?HE; try done.
    split; [apply Hs|done].
  - destruct HE as (-> & HE & He). exists (contents_of s). destruct (Hgrow v') as [? ?]; [eauto|].
    split; [done|]. split; [apply Hs|]. split; [|done].
    split; try apply Hs; try done; unfold potential, contents_of in *; cbn in *; lia.
Qed.

Lemma fresh_broken b i Inv s : fresh b i Inv s -> broken s0 f s.
Proof. intros (m & _ & _ & Hs & _). by eapply scanning_broken. Qed.

Lemma fresh_ask {A B} b i Inv Q (a : answer A) (k : option A -> M (Traverser V) B) :
  (forall x, match x with Some x => a = Answer x | None => a = Error end ->
     triple (fresh b i Inv) (k x) Q (broken s0 f)) ->
  triple (fresh b i Inv) (ask a ≫= k) Q (broken s0 f).
Proof.
  intros Hk s Hs. unfold mbind, M_bind. destruct a as [x| | |]; cbn.
  - by apply (Hk (Some x)).
  - by apply (Hk None).
  - by eapply fresh_broken.
  - by eapply fresh_broken.
Qed.

(** [b] is new in the map, with this class, and not yet on the stack. *)
Definition added b c Inv (m' : gmap Z Z) (st : list TraversalFrame) : Prop :=
  exists m, m !! b = None /\ m' = <[b := c]> m /\ Inv m st /\
    zlen st - Z.of_nat (size m) <= potential s0.

Lemma fresh_done {A} b i Inv Inv' (x : A) :
  (forall m st, m !! b = None -> Inv m st -> Inv' (<[b := 0]> m) st) ->
  triple (fresh b i Inv) (mret x) (fun _ => scanning s0 f Inv') (broken s0 f).
Proof.
  intros Hi. apply triple_ret. intros s (m & (Hm & HE & _) & HI & [] & _). split; auto.
  rewrite sc_inv0. auto.
Qed.

Lemma store_class_spec b i c Inv :
  triple (fresh b i Inv) (store_class i c) (fun _ => scanning s0 f (added b c Inv)) (broken s0 f).
Proof.
  intros s (m & (Hm & HE & Hst) & HI & Hs & Hp). unfold store_class, mbind, M_bind, gets.
  cbv beta iota. destruct (Hst c) as (v' & -> & Hv' & HE').
  unfold try. cbn [mret M_ret modify]. unfold modify.
  split; try apply Hs; try done; unfold potential, contents_of in *; cbn in *; rewrite ?HE'.
  - rewrite dom_insert_L. pose proof (sc_dom _ _ _ _ Hs) as Hd. unfold contents_of in Hd.
    rewrite HE, dom_insert_L in Hd. done.
  - rewrite map_size_insert_None by done. lia.
  - exists m. auto.
Qed.

Lemma push_spec b c p d size Inv Inv' :
  b <> 0 -> resolves b c size ->
  (forall m st m' st', Inv m st -> discover b d m st m' st' -> Inv' m' st') ->
  triple (scanning s0 f (added b c Inv))
    (PushTraversalFrameIfScannable mem interruptions b p (u32 (d + 1)) c size)
    (fun _ => scanning s0 f Inv') (broken s0 f).
Proof.
  intros Hb Hr HI. unfold PushTraversalFrameIfScannable.
  eapply reads_bind; [apply reads_pointers|]. intros pt Hpt. destruct pt.
  - eapply keeps_bind; [apply keeps_alloc|]. intros _. apply triple_modify. intros s Hs.
    destruct (sc_inv _ _ _ _ Hs) as (m & Hm & HE & Hi & Hp).
    split; try apply Hs; try done; unfold potential in *; cbn in *; change (contents_of (with_stack _ s)) with (contents_of s); rewrite ?HE.
    + rewrite map_size_insert_None by done. unfold potential in *. lia.
    + constructor; [cbn; apply wrap_range; lia|apply Hs].
    + eapply HI; [exact Hi|]. apply discover_push; tauto.
  - apply triple_ret. intros s Hs. eapply scanning_weaken; [|exact Hs].
    intros m' st (m & Hm & -> & Hi & _). eapply HI; [exact Hi|].
    eapply discover_leaf; eauto. intros ?. assert (false = true) by tauto. done.
Qed.

Lemma ProcessDiscoveredRef_spec b p d Inv Inv' :
  b <> 0 -> b ∈ U ->
  (forall m st m' st', Inv m st -> discover b d m st m' st' -> Inv' m' st') ->
  triple (scanning s0 f Inv) (ProcessDiscoveredRef mem info interruptions b p d)
    (fun _ => scanning s0 f Inv') (broken s0 f).
Proof.
  intros Hb HbU HI. unfold ProcessDiscoveredRef.
  eapply triple_bind; [by apply insert_visited_spec|]. intros [[|] i].
  - assert (forall x : bool, (forall c size, ~ resolves b c size) ->
      triple (fresh b i Inv) (mret x) (fun _ => scanning s0 f Inv') (broken s0 f)) as Hnone.
    { intros x Hn. apply fresh_done. intros m st Hm Hi. eapply HI; [exact Hi|].
      by apply discover_unresolved. }
    apply fresh_ask. intros [c|] Ec; [|apply Hnone; intros c' sz (? & _); congruence].
    destruct (Z.eqb_spec c 0) as [->|Hc]; [apply Hnone; intros c' sz (? & ? & _); congruence|].
    apply fresh_ask. intros [sz|] Es; [|apply Hnone; intros c' sz' (_ & _ & ? & _); congruence].
    destruct (Z.eqb_spec sz 0) as [->|Hsz]; [apply Hnone; intros c' sz' (_ & _ & ? & ?); congruence|].
    eapply triple_bind; [apply store_class_spec|]. intros u.
    eapply keeps_bind; [apply keeps_get_or_create|]. intros p'.
    eapply keeps_bind; [apply keeps_add_instance|]. intros _.
    eapply triple_bind; [eapply push_spec; [exact Hb|by split|exact HI]|].
    intros u'. by apply triple_ret.
  - intros s (c & Hc & Hs). unfold slot_class.
    assert (scanning s0 f Inv' s) as Hs'.
    { eapply scanning_weaken; [|exact Hs]. intros m st [Hi Hm]. eapply HI; [exact Hi|].
      by eapply discover_known. }
    rewrite (bind_done _ _ s s c) by (unfold mbind, M_bind, gets; by rewrite Hc).
    revert s Hs' Hc Hs. match goal with |- forall s, _ -> _ -> _ -> match ?m s with _ => _ end =>
      enough (triple (scanning s0 f Inv') m (fun _ => scanning s0 f Inv') (broken s0 f)) as Hm
        by (intros s Hs _ _; exact (Hm s Hs)) end.
    eapply keeps_bind; [|intros _; apply keeps_ret]. destruct (negb (c =? 0)); [|apply keeps_ret].
    eapply keeps_bind; [apply keeps_ask|]. intros sz.
    eapply keeps_bind; [apply keeps_get_or_create|]. intros p'. apply keeps_add_instance.
Qed.

Lemma discover_grows b d m st m' st' :
  discover b d m st m' st' -> dom m ⊆ dom m' /\ b ∈ dom m'.
Proof.
  destruct 1 as [m st c Hm| | | ]; rewrite ?dom_insert_L; [|set_solver..].
  split; [done|]. by apply elem_of_dom_2 in Hm.
Qed.

(** ** Inline value types *)

Lemma find_field_elem refOffset base fields field start :
  find_field refOffset base fields = Some (field, start) -> field ∈ fields.
Proof.
  induction fields as [|x fields IH]; cbn; [done|].
  repeat case_if; intros ?; simplify_eq; try (by constructor); constructor; auto.
Qed.

Lemma AddInlineValueTypeInstances_keeps Inv fuel : forall p fields,
  (0 < fuel)%nat -> (forall fld, fld ∈ fields -> (S (rank (vt_class fld)) < fuel)%nat) ->
  keeps Inv (AddInlineValueTypeInstances mem interruptions fuel p fields).
Proof.
  induction fuel as [|fuel IH]; intros p fields H0 Hr; [lia|]. cbn [AddInlineValueTypeInstances].
  apply triple_for_each. intros fld Hfld. specialize (Hr fld Hfld).
  eapply keeps_bind; [apply keeps_get_or_create|]. intros p'.
  eapply keeps_bind; [apply keeps_add_instance|]. intros _.
  eapply reads_bind; [apply reads_vt_info|]. intros [nested|] Hn; [|apply keeps_ret].
  apply IH; [lia|]. intros fld' Hfld'. specialize (Hn fld' Hfld'). lia.
Qed.

Lemma GetInlineValueTypeOwner_reads Inv fuel : forall n p d off fields base,
  (0 < fuel)%nat -> (forall fld, fld ∈ fields -> (S (rank (vt_class fld)) < fuel)%nat) ->
  (forall fld, fld ∈ fields -> (rank (vt_class fld) < n)%nat) ->
  0 <= d -> d + Z.of_nat fuel < 2 ^ 32 ->
  reads Inv (GetInlineValueTypeOwner mem interruptions fuel p d off fields base)
    (fun r => d <= r.2 <= d + Z.of_nat n).
Proof.
  induction fuel as [|fuel IH]; intros n p d off fields base H0 Hr Hrn Hd Hmax; [lia|].
  cbn [GetInlineValueTypeOwner]. destruct (find_field off base fields) as [[fld start]|] eqn:E.
  2: { apply triple_ret. cbn. auto with lia. }
  apply find_field_elem in E. specialize (Hr fld E). specialize (Hrn fld E).
  assert (u32 (d + 1) = d + 1) as Ed by (apply wrap_small; unfold in_u; lia).
  eapply keeps_bind; [apply keeps_get_or_create|]. intros p'.
  eapply reads_bind; [apply reads_vt_info|]. intros [nested|] Hn; rewrite Ed.
  - eapply triple_weaken; [apply IH with (n := rank (vt_class fld)) (d := d + 1)|done| |done]; try lia.
    + intros fld' Hfld'. specialize (Hn fld' Hfld'). lia.
    + done.
    + intros r s [? ?]. auto with lia.
  - apply triple_ret. cbn. auto with lia.
Qed.

(** ** Scanning one object *)

(** The number of elements of a value-type array that the enumeration is given. *)
Definition array_total (c a total : Z) : Prop :=
  exists elementClass rank dims data,
    IsArrayClass info c = Answer (ELEMENT_TYPE_VALUETYPE, elementClass, rank) /\ rank <> 0 /\
    scannable elementClass /\ GetArrayObjectInfo info a rank = Answer (dims, data) /\ data <> 0 /\
    total_elements (map (fun d => u32 (dims d)) (seq 0 (Z.to_nat rank))) 1 = Some total /\ total <> 0.

(** [b] is a reference of the object, as its descriptor lays them out. *)
Definition reported (c a size b : Z) : Prop :=
  (exists slot off, (slot, b, off) ∈ (EnumerateObjectRefs mem c a size collect []).1) \/
  (exists total slot off, array_total c a total /\
     (slot, b, off) ∈ (EnumerateVTArrayRefs mem c a total collect []).1).

(** A callback that processes the reference [b] if it can be an object, at a depth that at
    most [n] nested inline value types have increased. *)
Definition visits (d : Z) (n : nat) (b : Z) (cb : M (Traverser V) unit) : Prop :=
  if IsValidObjectAddress b then
    forall I I' : gmap Z Z -> list TraversalFrame -> Prop,
      (forall d' m st m' st', d <= d' <= d + Z.of_nat n -> I m st -> discover b d' m st m' st' ->
         I' m' st') ->
      triple (scanning s0 f I) cb (fun _ => scanning s0 f I') (broken s0 f)
  else forall I, keeps I cb.

Lemma enumerate_spec d n (m : forall St, (Z -> Z -> Z -> M St unit) -> M St unit) cb Inv :
  harvestable mem m ->
  (forall slot b off a, mem a = Some b -> visits d n b (cb slot b off)) ->
  (forall b d' mp st mp' st', (exists slot off, (slot, b, off) ∈ (m _ collect []).1) ->
     IsValidObjectAddress b = true -> d <= d' <= d + Z.of_nat n ->
     Inv mp st -> discover b d' mp st mp' st' -> Inv mp' st') ->
  triple (scanning s0 f Inv) (m _ cb)
    (fun _ => scanning s0 f (fun mp st => Inv mp st /\
       forall slot b off, (slot, b, off) ∈ (m _ collect []).1 -> IsValidObjectAddress b = true ->
         b ∈ dom mp)) (broken s0 f).
Proof.
  intros (l & e & Hh) Hcb Hstep. rewrite (harvests_collect _ _ _ _ Hh) in *. cbn [fst] in *.
  destruct Hh as (Hl & He & Hm). rewrite Forall_forall in Hl.
  eapply triple_ext; [intros s; apply Hm|].
  set (I (pre : list (Z * Z * Z)) := fun (mp : gmap Z Z) (st : list TraversalFrame) => Inv mp st /\
    forall x, x ∈ pre -> IsValidObjectAddress x.1.2 = true -> x.1.2 ∈ dom mp).
  eapply triple_bind with (R := fun _ => scanning s0 f (I l)).
  - eapply triple_weaken; [apply (triple_for_each_prefix (fun pre => scanning s0 f (I pre)))| | |]; try done.
    + intros pre [[slot b] off] Hx. destruct (Hl _ Hx) as [a Ha]. specialize (Hcb slot b off a Ha).
      cbn [fst snd] in *. unfold visits in Hcb. destruct (IsValidObjectAddress b) eqn:Hv.
      * apply Hcb. intros d' mp st mp' st' Hd [Hi Hpre] Hdisc.
        destruct (discover_grows _ _ _ _ _ _ Hdisc) as [Hg Hb]. split; [eapply Hstep; eauto|].
        intros x [Hx'|Hx'%list_elem_of_singleton]%elem_of_app ?; [by apply Hg, Hpre|by subst].
      * eapply triple_weaken; [apply (Hcb (I pre))|done| |done]. intros u s.
        apply scanning_weaken. intros mp st [? Hpre]. split; [done|].
        intros x [Hx'|Hx'%list_elem_of_singleton]%elem_of_app ?; [by apply Hpre|].
        subst. cbn in *. congruence.
    + intros s. apply scanning_weaken. intros mp st ?. split; [done|]. intros x Hx. by apply elem_of_nil in Hx.
  - intros u s Hs. destruct e; cbn; [|by eapply scanning_broken|done..].
    eapply scanning_weaken; [|exact Hs]. intros mp st [? Hpre]. split; [done|].
    intros slot b off Hx Hv. by apply (Hpre (slot, b, off)).
Qed.

Lemma valid_nonzero b : IsValidObjectAddress b = true -> b <> 0.
Proof. intros Hv ->. done. Qed.

Lemma visits_direct d n b p a :
  mem a = Some b ->
  visits d n b (if IsValidObjectAddress b
              then ProcessDiscoveredRef mem info interruptions b p d;; skip else skip).
Proof.
  intros Ha. unfold visits. destruct (IsValidObjectAddress b) eqn:Hv; [|intros I; apply keeps_ret].
  intros I I' Hstep. eapply triple_bind; [|intros u; by apply (triple_ret (fun s => scanning s0 f I' s))].
  apply ProcessDiscoveredRef_spec with (Inv := I); eauto using valid_nonzero.
  intros m st m' st'. apply Hstep. lia.
Qed.

Lemma visits_array d n b p a :
  mem a = Some b -> visits d n b (array_callback mem info interruptions p d b).
Proof.
  intros Ha. pose proof (visits_direct d n b p a Ha) as Hv. unfold visits, array_callback in *.
  destruct (IsValidObjectAddress b) eqn:E.
  - by rewrite (proj2 (Z.eqb_neq _ _) (valid_nonzero b E)).
  - by rewrite orb_true_r.
Qed.

Lemma visits_inline d n b p off fields a :
  mem a = Some b -> 0 <= d -> d + Z.of_nat vtFuel < 2 ^ 32 -> (n < vtFuel)%nat ->
  (forall fld, fld ∈ fields -> (rank (vt_class fld) < n)%nat) ->
  visits d n b (if negb (IsValidObjectAddress b) then skip
              else '(owner, d') ← GetInlineValueTypeOwner mem interruptions vtFuel p d off fields 0;
                   ProcessDiscoveredRef mem info interruptions b owner d';; skip).
Proof.
  intros Ha Hd Hmax Hn Hr. unfold visits.
  destruct (IsValidObjectAddress b) eqn:Hv; cbn [negb]; [|intros I; apply keeps_ret].
  intros I I' Hstep. eapply reads_bind.
  - apply GetInlineValueTypeOwner_reads with (n := n); auto; [lia|]. intros fld Hfld. specialize (Hr fld Hfld). lia.
  - intros [owner d'] Hd'. cbn in Hd'. eapply triple_bind; [|intros u; by apply (triple_ret (fun s => scanning s0 f I' s))].
    apply ProcessDiscoveredRef_spec with (Inv := I); eauto using valid_nonzero.
Qed.

(** Every reference of the object is visited afterwards. *)
Definition references_visited (c a size : Z) (mp : gmap Z Z) : Prop :=
  forall b, reported c a size b -> IsValidObjectAddress b = true -> b ∈ dom mp.

Definition closed_under c a size d Inv : Prop :=
  forall b d' mp st mp' st', reported c a size b -> IsValidObjectAddress b = true ->
    d <= d' <= d + Z.of_nat (rank c) -> Inv mp st -> discover b d' mp st mp' st' -> Inv mp' st'.

Lemma object_refs_count c a size w :
  mem (u64 (c - 8)) = Some w -> i64 w <= 0 -> (EnumerateObjectRefs mem c a size collect []).1 = [].
Proof.
  intros Hw Hn. unfold EnumerateObjectRefs, GetSeriesCount, read_word, mbind, M_bind. rewrite Hw. cbn.
  by rewrite (proj2 (Z.leb_le _ _)).
Qed.

Lemma array_refs_count c a total w :
  mem (u64 (c - 8)) = Some w -> 0 <= i64 w -> (EnumerateVTArrayRefs mem c a total collect []).1 = [].
Proof.
  intros Hw Hn. unfold EnumerateVTArrayRefs, GetSeriesCount, read_word, mbind, M_bind. rewrite Hw. cbn.
  by rewrite (proj2 (Z.leb_le _ _)).
Qed.

Lemma EnqueueValueTypeArrayChildren_spec a c size p d Inv w :
  mem (u64 (c - 8)) = Some w -> i64 w < 0 -> closed_under c a size d Inv ->
  triple (scanning s0 f Inv) (EnqueueValueTypeArrayChildren mem info interruptions a c p d)
    (fun _ => scanning s0 f (fun mp st => Inv mp st /\ references_visited c a size mp)) (broken s0 f).
Proof.
  intros Hw Hneg Hcl. unfold EnqueueValueTypeArrayChildren.
  assert (forall b total slot off, array_total c a total ->
    (slot, b, off) ∈ (EnumerateVTArrayRefs mem c a total collect []).1 -> reported c a size b) as Hrep
    by (intros; right; eauto 10).
  assert (forall b, reported c a size b -> exists total slot off, array_total c a total /\
    (slot, b, off) ∈ (EnumerateVTArrayRefs mem c a total collect []).1) as Hrep'.
  { intros b [(slot & off & Hin)|Hr]; [|done].
    rewrite (object_refs_count c a size w) in Hin by (done || lia). by apply elem_of_nil in Hin. }
  assert ((forall total, ~ array_total c a total) ->
    triple (scanning s0 f Inv) skip
      (fun _ => scanning s0 f (fun mp st => Inv mp st /\ references_visited c a size mp)) (broken s0 f))
    as Hskip.
  { intros Hn. apply triple_ret. intros s. apply scanning_weaken. intros mp st Hi. split; [done|].
    intros b (total & _ & _ & Ht & _)%Hrep'. by destruct (Hn total). }
  eapply reads_bind; [apply reads_ask|]. intros [[[et ec] rk]|] Ea;
    [|apply Hskip; intros t (? & ? & ? & ? & ? & _); congruence].
  destruct (Z.eqb_spec rk 0) as [->|Hrk]; [apply Hskip; intros t (? & ? & ? & ? & ? & ? & _); congruence|].
  destruct (Z.eqb_spec et ELEMENT_TYPE_VALUETYPE) as [->|Het];
    [|apply Hskip; intros t (? & ? & ? & ? & ? & ? & _); congruence].
  cbn [orb negb].
  eapply reads_bind with (R := fun b : bool => b = true <-> scannable ec).
  { destruct (Z.eqb_spec ec 0) as [->|Hec]; [|apply reads_pointers].
    apply triple_ret. intros s Hs. split; [|done]. split; [done|]. intros [? _]. done. }
  intros pt Hpt. destruct pt; cbn [negb].
  2: { apply Hskip. intros t (ec' & ? & ? & ? & ? & ? & Hsc & _).
       assert (ec' = ec) as -> by congruence. assert (false = true) by tauto. done. }
  assert (scannable ec) as Hsc by tauto.
  eapply keeps_bind with (m := if rk =? 1 then skip else alloc interruptions).
  { destruct (rk =? 1); [apply keeps_ret|apply keeps_alloc]. }
  intros _. eapply reads_bind; [apply reads_ask|]. intros [[dims data]|] Ed;
    [|apply Hskip; intros t (? & ? & ? & ? & ? & ? & ? & ? & _); congruence].
  destruct (Z.eqb_spec data 0) as [->|Hdata];
    [apply Hskip; intros t (? & ? & ? & ? & ? & ? & ? & ? & ? & _); congruence|].
  assert (forall t, array_total c a t ->
    total_elements (map (fun d => u32 (dims d)) (seq 0 (Z.to_nat rk))) 1 = Some t /\ t <> 0) as Htotal.
  { intros t (ec' & rk' & dims' & data' & E1 & _ & _ & E2 & _ & E3 & E4).
    rewrite Ea in E1. simplify_eq. rewrite Ed in E2. by simplify_eq. }
  destruct (total_elements _ 1) as [total|] eqn:Et;
    [|apply Hskip; intros t [? _]%Htotal; congruence].
  destruct (Z.eqb_spec total 0) as [->|Htot]; [apply Hskip; intros t [? ?]%Htotal; congruence|].
  assert (array_total c a total) as Hat by (exists ec, rk, dims, data; auto 10).
  eapply triple_weaken; [apply (enumerate_spec d (rank c)
    (fun St cb => EnumerateVTArrayRefs mem c a total cb)
    (fun _ b _ => array_callback mem info interruptions p d b) Inv)|done| |done].
  - apply harvestable_array.
  - intros slot b off a'. apply visits_array.
  - intros b d' mp st mp' st' (slot & off & Hin). apply Hcl. eauto.
  - intros u s. apply scanning_weaken. intros mp st [Hi Hall]. split; [done|].
    intros b (total' & slot & off & Ht' & Hin)%Hrep' Hv.
    assert (total' = total) as ->; [|eauto]. apply Htotal in Ht' as [? _]. congruence.
Qed.

Lemma scan_references_spec fr Inv :
  0 <= depth fr -> depth fr + Z.of_nat vtFuel < 2 ^ 32 ->
  closed_under (frame_class fr) (objectAddress fr) (objectSize fr) (depth fr) Inv ->
  triple (scanning s0 f Inv) (scan_references mem info interruptions vtFuel fr)
    (fun _ => scanning s0 f (fun mp st => Inv mp st /\
       references_visited (frame_class fr) (objectAddress fr) (objectSize fr) mp)) (broken s0 f).
Proof.
  destruct fr as [a p d c size]. cbn [depth frame_class objectAddress objectSize treeNode].
  intros Hd Hmax Hcl. unfold scan_references. cbn [depth frame_class objectAddress objectSize treeNode].
  eapply reads_bind with (R := fun n => exists w, mem (u64 (c - 8)) = Some w /\ n = i64 w).
  { unfold GetSeriesCount. eapply reads_bind; [apply reads_read_word|]. intros w Hw.
    apply triple_ret. intros s Hs. split; [by exists w|done]. }
  intros n (w & Hw & ->). destruct (Z.ltb_spec (i64 w) 0) as [Hneg|Hpos].
  { by eapply EnqueueValueTypeArrayChildren_spec. }
  assert (forall b, reported c a size b ->
    exists slot off, (slot, b, off) ∈ (EnumerateObjectRefs mem c a size collect []).1) as Hrep.
  { intros b [Hr|(total & slot & off & _ & Hin)]; [done|].
    rewrite (array_refs_count c a total w) in Hin by done. by apply elem_of_nil in Hin. }
  destruct (Z.eqb_spec (i64 w) 0) as [Hz|Hz].
  { apply triple_ret. intros s. apply scanning_weaken. intros mp st Hi. split; [done|].
    intros b (slot & off & Hin)%Hrep. rewrite (object_refs_count c a size w) in Hin by (done || lia).
    by apply elem_of_nil in Hin. }
  assert (forall cb, (forall slot b off a', mem a' = Some b -> visits d (rank c) b (cb slot b off)) ->
    triple (scanning s0 f Inv) (EnumerateObjectRefs mem c a size cb)
      (fun _ => scanning s0 f (fun mp st => Inv mp st /\ references_visited c a size mp)) (broken s0 f))
    as Henum.
  { intros cb Hcb. eapply triple_weaken; [apply (enumerate_spec d (rank c)
      (fun St cb => EnumerateObjectRefs mem c a size cb) cb Inv)|done| |done].
    - apply harvestable_object.
    - exact Hcb.
    - intros b d' mp st mp' st' Hin. apply Hcl. by left.
    - intros u s. apply scanning_weaken. intros mp st [Hi Hall]. split; [done|].
      intros b (slot & off & Hin)%Hrep Hv. eauto. }
  eapply reads_bind; [apply reads_vt_info|]. intros [fields|] Hfields.
  - assert (forall fld, fld ∈ fields -> (S (rank (vt_class fld)) < vtFuel)%nat) as Hr.
    { intros fld Hfld. specialize (Hfields fld Hfld). pose proof (Hrank c). lia. }
    eapply keeps_bind; [apply AddInlineValueTypeInstances_keeps; auto|].
    { pose proof (Hrank c). lia. }
    intros _. apply Henum. intros slot b off a' Ha. by eapply visits_inline.
  - apply Henum. intros slot b off a' Ha. by eapply visits_direct.
Qed.
End scanning.

(** ** Draining the stack *)

(** The self-test state: distrust is a failed self-test with the class that failed it. *)
Record layout_ok (l : Layout) : Prop := {
  lo_checked : 0 <= _selfTestObjectsChecked l <= MaxSelfTestObjects;
  lo_trusted : _gcDescTrusted l = true <-> _selfTest l <> Failed;
  lo_class : _gcDescTrusted l = true <-> _selfTestFailedClassID l = 0
}.

(** Distrust is permanent. *)
Definition layout_step (l l' : Layout) : Prop :=
  (layout_ok l -> layout_ok l' /\ (_gcDescTrusted l = false -> l' = l)) /\
  _selfTestFailureLogged l' = _selfTestFailureLogged l.

Lemma layout_step_refl l : layout_step l l.
Proof. done. Qed.

Lemma layout_step_ok l l' : layout_step l l' -> layout_ok l -> layout_ok l'.
Proof. intros [H _] Hl. by apply H. Qed.

Lemma layout_step_trans l1 l2 l3 : layout_step l1 l2 -> layout_step l2 l3 -> layout_step l1 l3.
Proof.
  intros [H1 E1] [H2 E2]. split; [|congruence]. intros [Hl2 K1]%H1. destruct (H2 Hl2) as [Hl3 K2].
  split; [done|]. intros Ht. rewrite K2; [by apply K1|]. by rewrite K1.
Qed.

Section draining.
Context {V : Type} `{VisitedSet V}.
Context (mem : Z -> option Z) (info : ICorProfilerInfo) (interruptions : nat -> interruption).
Context (vtFuel : nat) (Hvt : Z.of_nat vtFuel < 2 ^ 31).
Context (rank : Z -> nat) (Hrank : forall k, (rank k < vtFuel)%nat).
Context (U : gset Z).
Context (HU : forall a w, mem a = Some w -> IsValidObjectAddress w = true -> w ∈ U).
Context (HUmax : Z.of_nat (size U) < MaxEntries).
Context (f : Z) (Hf : 0 <= f < 16).
Implicit Types s : Traverser V.

(** From [s] to [s'] the traversal scanned [k] objects. *)
Record progress (k : Z) s s' : Prop := {
  pr_traversed : _objectsTraversed (_stats s') = u64 (_objectsTraversed (_stats s) + k);
  pr_roots : _rootsProcessed (_stats s') = _rootsProcessed (_stats s);
  pr_dump : _dump s' = _dump s;
  pr_warnings : _warnings s' = _warnings s;
  pr_layout : layout_step (_layout s) (_layout s');
  pr_potential : potential s' + k <= potential s;
  pr_dom : dom (contents_of s') ⊆ U;
  pr_ranked : ranked rank (_inlineVTCache s');
  pr_depths : depths_ok (_traversalStack s')
}.

Lemma progress_trans k1 k2 s1 s2 s3 :
  progress k1 s1 s2 -> progress k2 s2 s3 -> progress (k1 + k2) s1 s3.
Proof.
  intros [] []. split; try congruence; try done.
  - rewrite pr_traversed1, pr_traversed0. unfold wrap. rewrite Zplus_mod_idemp_l. f_equal. lia.
  - by eapply layout_step_trans.
  - lia.
Qed.

Lemma validate_spec c size s :
  exists r, ValidateAgainstMetadata mem true
    (fun c => a ← ask (IsArrayClass info c); mret (bool_decide (is_Some a)))
    (fun c => ask (GetClassLayout info c)) c size s = (s, r) /\ r <> Stuck.
Proof.
  unfold ValidateAgainstMetadata, ContainsGCPointers, GetSeriesCount, read_word, mbind, M_bind, ask,
    mret, M_ret, fault, throw.
  repeat (case_match; simplify_eq; try (by eexists)).
Qed.

Lemma layout_pending l : layout_ok l -> _selfTest l = Pending -> _gcDescTrusted l = true.
Proof. intros [_ Ht _] Hp. apply Ht. by rewrite Hp. Qed.

Lemma layout_checked l :
  _selfTest l = Pending -> _selfTestObjectsChecked l < MaxSelfTestObjects ->
  layout_step l (mkLayout (_gcDescTrusted l) (_selfTest l) (u32 (_selfTestObjectsChecked l + 1))
    (_selfTestFailedClassID l) (_selfTestFailureLogged l)).
Proof.
  intros Hp Hc. split; [|done]. intros [H1 H2 H3]. split.
  2: { intros Ht. by rewrite (layout_pending l) in Ht. }
  split; cbn; [|done..].
  unfold MaxSelfTestObjects in *. rewrite (wrap_small 32) by (unfold in_u; lia). lia.
Qed.

Lemma self_test_spec c size s :
  c <> 0 ->
  match self_test mem info c size s with
  | (s', r) => kept s (on_layout (fun _ => _layout s) s') /\ _visited s' = _visited s /\
      _traversalStack s' = _traversalStack s /\ _inlineVTCache s' = _inlineVTCache s /\
      layout_step (_layout s) (_layout s') /\
      match r with
      | Done b => _gcDescTrusted (_layout s') = if b : bool then false else _gcDescTrusted (_layout s)
      | Fault | Throw => True
      | Stuck => False
      end
  end.
Proof.
  intros Hc. unfold self_test. rewrite (bind_done _ _ s s (_layout s)) by done.
  destruct (bool_decide (_selfTest (_layout s) = Pending) && _) eqn:E; [|done].
  apply andb_true_iff in E as [Hp%bool_decide_eq_true Hn%Z.ltb_lt].
  pose proof (layout_checked _ Hp Hn) as Hstep. unfold mbind at 1, M_bind at 1, modify at 1. cbv beta iota.
  match goal with |- context [on_layout ?g s] => set (s1 := on_layout g s) in * end.
  unfold mbind at 1, M_bind at 1. destruct (validate_spec c size s1) as (r & -> & Hr).
  destruct r as [[| |]| | |]; try done; cbn; (repeat (split; [done|])); (split; [|done]).
  - split; [|done]. intros Hl. pose proof (layout_pending _ Hl Hp) as Ht.
    apply Hstep in Hl as [[H1 H2 H3] _]. cbn in *. split; [|congruence].
    split; cbn; [done|by rewrite Ht|done].
  - split; [|done]. intros Hl. pose proof (layout_pending _ Hl Hp) as Ht.
    apply Hstep in Hl as [[H1 H2 H3] _]. cbn in *. split; [|congruence].
    split; cbn; [done|by split|by split].
Qed.

(** ** One frame *)

(** What a drain invariant must allow: popping a frame that is not scanned, and scanning
    one. *)
Record drainable (DI : gmap Z Z -> list TraversalFrame -> Prop) : Prop := {
  di_skip m fr st : DI m (fr :: st) -> MaxTreeDepth < depth fr \/ ~ scannable mem (frame_class fr) -> DI m st;
  di_scan m fr st : DI m (fr :: st) -> depth fr <= MaxTreeDepth -> scannable mem (frame_class fr) ->
    exists I : gmap Z Z -> list TraversalFrame -> Prop, I m st /\
      closed_under mem info rank (frame_class fr) (objectAddress fr) (objectSize fr) (depth fr) I /\
      forall m' st', I m' st' ->
        references_visited mem info (frame_class fr) (objectAddress fr) (objectSize fr) m' -> DI m' st'
}.

Definition bump s : Traverser V :=
  on_stats (fun st => mkStats (u64 (_objectsTraversed st + 1)) (_rootsProcessed st)
                        (_rootCategoryCounts st)) s.

(** A fault or an exception strikes only after the frame was popped and counted. *)
Definition crashed s s' : Prop :=
  exists k, 1 <= k /\ progress k s s' /\ vs_inv (f + 1) (vs_MarkPossiblyInconsistent (_visited s')).

Lemma progress_crash s1 s2 s3 k :
  0 <= k -> progress k s1 s2 -> crashed s2 s3 -> crashed s1 s3.
Proof.
  intros Hk H1 (k2 & ? & H2 & ?). exists (k + k2). split; [lia|]. split; [|done].
  by eapply progress_trans.
Qed.

Lemma progress_broken s s1 s' k :
  progress k s s1 -> broken rank U s1 f s' -> progress k s s'.
Proof.
  intros [] [(Hs & Hl & Hd & Hw) ? ? ? ? ?]. split; try congruence; try done. lia.
Qed.

Lemma progress_scanning s s1 s' k Inv :
  progress k s s1 -> scanning rank U s1 f Inv s' -> progress k s s'.
Proof.
  intros [] [(Hs & Hl & Hd & Hw) ? ? ? ? ?]. split; try congruence; try done. lia.
Qed.

Lemma scanning_refl s Inv :
  vs_inv f (_visited s) -> dom (contents_of s) ⊆ U -> ranked rank (_inlineVTCache s) ->
  depths_ok (_traversalStack s) -> Inv (contents_of s) (_traversalStack s) ->
  scanning rank U s f Inv s.
Proof. intros. split; try done. Qed.

Lemma progress_pop st fr s :
  dom (contents_of s) ⊆ U -> ranked rank (_inlineVTCache s) -> depths_ok (_traversalStack s) -> _traversalStack s = fr :: st ->
  progress 1 s (bump (with_stack st s)) /\ potential (with_stack st s) + 1 = potential s.
Proof.
  intros Hd Hr Hds E. assert (potential (with_stack st s) + 1 = potential s) as Hp.
  { unfold potential, contents_of. rewrite E. cbn [_traversalStack with_stack _visited length]. lia. }
  split; [|done]. split; try done. change (potential (bump (with_stack st s))) with (potential (with_stack st s)). lia.
  rewrite E in Hds. by apply Forall_cons in Hds as [_ ?].
Qed.

Lemma progress_skip st fr s :
  dom (contents_of s) ⊆ U -> ranked rank (_inlineVTCache s) -> depths_ok (_traversalStack s) -> _traversalStack s = fr :: st ->
  in_u 64 (_objectsTraversed (_stats s)) -> progress 0 s (with_stack st s).
Proof.
  intros Hd Hr Hds E Hu. destruct (progress_pop st fr s Hd Hr Hds E) as [Hpr Hp]. split; try done; [|lia|].
  - cbn. by rewrite Z.add_0_r, wrap_small.
  - exact (pr_depths _ _ _ Hpr).
Qed.

Definition frame_result DI s (r : Traverser V * res bool) : Prop :=
  match r with
  | (s', Done false) => exists k, 0 <= k <= 1 /\ progress k s s' /\ potential s' + 1 <= potential s /\
      vs_inv f (_visited s') /\ DI (contents_of s') (_traversalStack s') /\
      _gcDescTrusted (_layout s') = _gcDescTrusted (_layout s)
  | (s', Done true) => progress 1 s s' /\ vs_inv f (_visited s') /\ _gcDescTrusted (_layout s') = false
  | (s', Fault) | (s', Throw) => crashed s s'
  | (_, Stuck) => False
  end.

Lemma crashed_broken s s1 s' : progress 1 s s1 -> broken rank U s1 f s' -> crashed s s'.
Proof.
  intros Hp Hb. exists 1. split; [lia|]. split; [by eapply progress_broken|apply Hb].
Qed.

Lemma scan_frame_spec DI fr st s :
  drainable DI -> vs_inv f (_visited s) -> dom (contents_of s) ⊆ U -> ranked rank (_inlineVTCache s) ->
  in_u 64 (_objectsTraversed (_stats s)) -> depths_ok (_traversalStack s) ->
  _traversalStack s = fr :: st -> DI (contents_of s) (fr :: st) ->
  frame_result DI s (scan_frame mem info interruptions vtFuel fr (with_stack st s)).
Proof.
  intros HDI Hv Hd Hr Hu Hds E Hi. unfold scan_frame.
  destruct (progress_pop st fr s Hd Hr Hds E) as [Hpr Hpot]. rewrite E in Hds.
  apply Forall_cons in Hds as Hds'. destruct Hds' as [Hd0 Hds'].
  destruct (Z.ltb_spec MaxTreeDepth (depth fr)) as [Hdeep|Hdeep].
  { exists 0. split; [lia|]. split; [eapply progress_skip; eauto; by rewrite E|].
    split; [lia|]. split; [done|].
    split; [|done]. eapply (di_skip _ HDI); eauto. }
  rewrite (bind_done _ _ _ (bump (with_stack st s)) tt) by done.
  set (s1 := bump (with_stack st s)) in *.
  assert (scanning rank U s1 f (fun m _ => m = contents_of s) s1) as Hs1 by (by apply scanning_refl).
  pose proof (reads_pointers mem rank U s1 f _ (frame_class fr) s1 Hs1) as Hcp.
  assert (forall s', fst (ContainsGCPointers mem (frame_class fr) s1) = s' -> s' = s1) as Hsame.
  { intros s' <-. unfold ContainsGCPointers, read_word, mbind, M_bind, fault, mret, M_ret.
    by repeat (case_match; simplify_eq). }
  unfold mbind at 1, M_bind at 1. destruct (ContainsGCPointers mem (frame_class fr) s1) as [s1' r].
  rewrite (Hsame s1' eq_refl) in *. clear Hsame.
  destruct r as [b| | |]; [|by eapply crashed_broken..|done]. destruct Hcp as [Hb _].
  destruct b; cbn [negb].
  2: { exists 1. split; [lia|]. split; [done|]. split; [unfold s1; cbn; change (potential (bump (with_stack st s))) with (potential (with_stack st s)); lia|].
       split; [done|]. split; [|done]. eapply (di_skip _ HDI); [exact Hi|]. right. intros ?.
       assert (false = true) by tauto. done. }
  assert (scannable mem (frame_class fr)) as Hsc by tauto.
  pose proof (self_test_spec (frame_class fr) (objectSize fr) s1 (proj1 Hsc)) as Hst.
  unfold mbind at 1, M_bind at 1. destruct (self_test _ _ _ _ s1) as [s2 r2].
  destruct Hst as ((Es & _ & Ed & Ew) & Ev & Est & Ec & Hl & Htr).
  assert (progress 1 s s2) as Hp2.
  { destruct Hpr. split; unfold potential, contents_of in *; cbn in *; rewrite ?Es, ?Ev, ?Est, ?Ec; try congruence; done. }
  assert (vs_inv f (_visited s2)) as Hv2 by (by rewrite Ev).
  assert (forall r, r = Fault \/ r = Throw -> frame_result DI s (s2, r)) as Hcrash.
  { intros r Hrr. assert (crashed s s2); [|by destruct Hrr as [->| ->]]. exists 1. split; [lia|].
    split; [done|]. apply vs_inconsistent_law, (vs_mono_law f); [lia|done]. }
  destruct r2 as [b| | |]; [|by apply Hcrash; auto..|done].
  destruct b; [done|].
  assert (contents_of s2 = contents_of s) as Ecs by (unfold contents_of; by rewrite Ev).
  destruct (di_scan _ HDI _ _ _ Hi Hdeep Hsc) as (I & HI & Hcl & Hend).
  assert (scanning rank U s2 f I s2) as Hs2.
  { apply scanning_refl; [done|by rewrite Ecs|by rewrite Ec|by rewrite Est|]. by rewrite Ecs, Est. }
  pose proof (scan_references_spec mem info interruptions vtFuel rank Hrank U HU HUmax s2 f Hf fr I
    Hd0 ltac:(unfold MaxTreeDepth in *; lia) Hcl s2 Hs2) as Hscan.
  unfold mbind, M_bind. destruct (scan_references _ _ _ _ fr s2) as [s3 [u| | |]];
    [|by eapply crashed_broken..|done].
  exists 1. split; [lia|]. split; [by eapply progress_scanning|].
  assert (potential s2 = potential (with_stack st s)) as Ep2 by (unfold potential; by rewrite Est, Ecs).
  pose proof (sc_potential _ _ _ _ _ _ Hscan). split; [lia|]. split; [apply Hscan|].
  destruct (sc_inv _ _ _ _ _ _ Hscan) as [HI3 Href]. split; [by apply Hend|].
  destruct (sc_kept _ _ _ _ _ _ Hscan) as (_ & -> & _). exact Htr.
Qed.

(** ** The whole drain *)

Definition drain_result (DI : gmap Z Z -> list TraversalFrame -> Prop) s (r : Traverser V * res unit) : Prop :=
  match r with
  | (s', Done _) => exists k, 0 <= k /\ progress k s s' /\ vs_inv f (_visited s') /\
      (_gcDescTrusted (_layout s') = false \/
       _traversalStack s' = [] /\ DI (contents_of s') [] /\
       _gcDescTrusted (_layout s') = _gcDescTrusted (_layout s))
  | (s', Fault) | (s', Throw) => crashed s s'
  | (_, Stuck) => False
  end.

Lemma potential_bound s : dom (contents_of s) ⊆ U -> 0 <= potential s + Z.of_nat (size U).
Proof.
  intros Hd. pose proof (subseteq_size _ _ Hd) as Hs. rewrite size_dom in Hs. unfold potential. clear -Hs. lia.
Qed.

(** The number of frames still to come: those on the stack, and one for every object not
    yet visited. *)
Lemma DrainTraversalStack_spec DI fuel : forall s,
  drainable DI -> potential s + Z.of_nat (size U) < Z.of_nat fuel ->
  vs_inv f (_visited s) -> dom (contents_of s) ⊆ U -> ranked rank (_inlineVTCache s) ->
  in_u 64 (_objectsTraversed (_stats s)) -> depths_ok (_traversalStack s) ->
  DI (contents_of s) (_traversalStack s) ->
  drain_result DI s (DrainTraversalStack mem info interruptions vtFuel fuel s).
Proof.
  induction fuel as [|fuel IH]; intros s HDI Hfuel Hv Hd Hr Hu Hds Hi.
  { pose proof (potential_bound s Hd). lia. }
  cbn [DrainTraversalStack]. rewrite (bind_done _ _ s s (_traversalStack s)) by done.
  destruct (_traversalStack s) as [|fr st] eqn:E; rewrite <- E in Hds.
  { exists 0. split; [done|]. split; [|by rewrite E; auto]. split; try done; [|lia].
    by rewrite Z.add_0_r, wrap_small. }
  rewrite (bind_done _ _ s (with_stack st s) tt) by done.
  pose proof (scan_frame_spec DI fr st s HDI Hv Hd Hr Hu Hds E Hi) as Hfr.
  unfold mbind, M_bind. destruct (scan_frame _ _ _ _ fr _) as [s1 [[]| | |]]; try done.
  - destruct Hfr as (Hp & Hv1 & Htr). exists 1. auto with lia.
  - destruct Hfr as (k & Hk & Hp & Hpot & Hv1 & HI1 & Htr).
    specialize (IH s1 HDI ltac:(lia) Hv1 (pr_dom _ _ _ Hp) (pr_ranked _ _ _ Hp)).
    assert (in_u 64 (_objectsTraversed (_stats s1))) as Hu1.
    { rewrite (pr_traversed _ _ _ Hp). by apply wrap_range. }
    specialize (IH Hu1 (pr_depths _ _ _ Hp) HI1). unfold drain_result in *.
    destruct (DrainTraversalStack _ _ _ _ fuel s1) as [s2 [u| | |]]; [|by eapply progress_crash; eauto; lia..|done].
    destruct IH as (k2 & Hk2 & Hp2 & Hv2 & HE). exists (k + k2). split; [lia|].
    split; [by eapply progress_trans|]. split; [done|]. rewrite Htr in HE. done.
Qed.

Lemma drainable_True : drainable (fun _ _ => True).
Proof.
  split; [done|]. intros m fr st _ _ _. by exists (fun _ _ => True).
Qed.
End draining.
