(* ===== verification/TraversalComplete.v ===== *)
(** * What the traversal has visited

    The invariant behind the completeness of a root's traversal: everything visited was
    reached by a chain of references from the root, and every reference of a scanned object
    is visited. *)
From stdpp Require Import base gmap list.
From S2P Require Import Prelude FaultMonad VisitedObjectSet VisitedSet TypeReferenceTree GCDesc.
From S2P Require Import ReferenceChainTraverser TraversalSafety.

Section complete.
Context (mem : Z -> option Z) (info : ICorProfilerInfo).
Context (rank : Z -> nat) (Hrank : forall c, Z.of_nat (rank c) < 2 ^ 31) (root : RootInfo).

(** The class and size the traversal scans an object with. *)
Definition object (a c size : Z) : Prop :=
  a = address root /\ c = root_class root /\ size = root_size root \/
  a <> address root /\ resolves info a c size.

(** [p] refers to [a]. *)
Definition refers (p a : Z) : Prop :=
  exists c size, object p c size /\ reported mem info c p size a /\ IsValidObjectAddress a = true.

(** A reference leads one level down, and one more for each inline value type around it, of
    which there are at most as many as the rank of the class. *)
Definition one_down (m D : gmap Z Z) (p a : Z) : Prop :=
  exists c dp da, m !! p = Some c /\ D !! p = Some dp /\ D !! a = Some da /\ dp + 1 <= da <= dp + 1 + Z.of_nat (rank c).

(** [S]: objects scanned, the current one included; [C]: those whose references are all
    visited; [D]: the depth at which an object was found. *)
Record explored (S C : gset Z) (D : gmap Z Z) (m : gmap Z Z) (st : list TraversalFrame) : Prop := {
  ex_root : m !! address root = Some (root_class root) /\ D !! address root = Some 1;
  ex_scanned : S ⊆ dom m;
  ex_shallow p : p ∈ S -> exists d, D !! p = Some d /\ d <= MaxTreeDepth;
  ex_class a c : m !! a = Some c -> a <> address root ->
    c = 0 /\ (forall c' size, ~ resolves info a c' size) \/ exists size, resolves info a c size;
  ex_frames fr : fr ∈ st -> m !! objectAddress fr = Some (frame_class fr) /\
    object (objectAddress fr) (frame_class fr) (objectSize fr) /\
    D !! objectAddress fr = Some (depth fr);
  ex_todo a c : m !! a = Some c -> scannable mem c ->
    a ∈ S \/ (exists fr, fr ∈ st /\ objectAddress fr = a) \/
    exists d, D !! a = Some d /\ MaxTreeDepth < d;
  ex_closed p a : p ∈ C -> refers p a -> a ∈ dom m;
  ex_found a : a ∈ dom m -> a <> address root ->
    exists p, p ∈ S /\ refers p a /\ one_down m D p a
}.

Lemma object_inj a c size c' size' : object a c size -> object a c' size' -> c = c' /\ size = size'.
Proof.
  intros [(-> & -> & ->)|(Hne & H1 & _ & H2 & _)] [(E & -> & ->)|(Hne' & H1' & _ & H2' & _)]; try done.
  rewrite H1 in H1'. rewrite H2 in H2'. by simplify_eq.
Qed.

Lemma explored_grow S C D m st b c d dp p cp st' :
  explored S C D m st -> m !! b = None -> p ∈ S -> refers p b -> D !! p = Some dp ->
  m !! p = Some cp -> dp + 1 <= d <= dp + 1 + Z.of_nat (rank cp) ->
  (c = 0 /\ (forall c' size, ~ resolves info b c' size) \/ exists size, resolves info b c size) ->
  (st' = st /\ ~ scannable mem c \/
   exists fr, st' = fr :: st /\ objectAddress fr = b /\ frame_class fr = c /\ depth fr = d /\
     resolves info b c (objectSize fr)) ->
  explored S C (<[b := d]> D) (<[b := c]> m) st'.
Proof.
  intros [Hroot Hs Hsh Hcl Hfr Htodo Hclosed Hfound] Hb Hp Href Hdp Hcp Hlt Hc Hst.
  assert (address root <> b) as Hrb by (intros <-; destruct Hroot; congruence).
  assert (forall a, a ∈ dom m -> a <> b) as Hne
    by (intros a [x Hx]%elem_of_dom ->; congruence).
  split.
  - by rewrite !lookup_insert_ne by done.
  - rewrite dom_insert_L. set_solver.
  - intros q Hq. rewrite lookup_insert_ne; [auto|]. apply not_eq_sym, Hne, Hs, Hq.
  - intros a c'. rewrite lookup_insert_Some. intros [[<- <-]|[? ?]] ?; [done|eauto].
  - intros fr Hin.
    assert (fr ∈ st -> <[b:=c]> m !! objectAddress fr = Some (frame_class fr) /\
      object (objectAddress fr) (frame_class fr) (objectSize fr) /\
      <[b:=d]> D !! objectAddress fr = Some (depth fr)) as Hold.
    { intros Hin'. destruct (Hfr fr Hin') as (E1 & E2 & E3).
      by rewrite !lookup_insert_ne by congruence. }
    destruct Hst as [[-> _]|(fr' & -> & E1 & E2 & E3 & E4)]; [auto|].
    apply elem_of_cons in Hin as [->|Hin]; [|auto]. rewrite E1, E2, E3, !lookup_insert_eq.
    split; [done|]. split; [|done]. right. by split.
  - intros a c'. rewrite lookup_insert_Some. intros [[<- <-]|[Hab Ha]] Hsc.
    + destruct Hst as [[_ ?]|(fr' & -> & E1 & _)]; [done|]. right. left. exists fr'.
      split; [constructor|done].
    + destruct (Htodo a c' Ha Hsc) as [?|[(fr & ? & ?)|(d' & ? & ?)]]; [auto| |].
      * right. left. exists fr. split; [|done]. destruct Hst as [[-> _]|(? & -> & _)]; [done|by constructor].
      * right. right. exists d'. by rewrite lookup_insert_ne by done.
  - intros q a Hq Hqa. rewrite dom_insert_L. specialize (Hclosed q a Hq Hqa). set_solver.
  - intros a. rewrite dom_insert_L. intros [->%elem_of_singleton|Ha]%elem_of_union Har.
    + exists p. split; [done|]. split; [done|]. exists cp, dp, d. rewrite !lookup_insert_eq, !lookup_insert_ne; [done|..];
      apply not_eq_sym, Hne, Hs, Hp.
    + destruct (Hfound a Ha Har) as (q & Hq & ? & cq & dq & da & ?). exists q. split; [done|]. split; [done|]. exists cq, dq, da.
      rewrite !lookup_insert_ne by (apply not_eq_sym, Hne; auto). auto.
Qed.

Lemma explored_discover S C D m st b d d' p cp m' st' :
  explored S C D m st -> p ∈ S -> refers p b -> D !! p = Some d -> m !! p = Some cp ->
  0 <= d -> d <= d' <= d + Z.of_nat (rank cp) -> d' + 1 < 2 ^ 32 ->
  discover mem info b d' m st m' st' ->
  exists D', explored S C D' m' st' /\ D' !! p = Some d /\ m' !! p = Some cp.
Proof.
  intros Hex Hp Href Hd Hcp Hd0 Hdd Hmax Hdisc.
  assert (u32 (d' + 1) = d' + 1) as Eu by (apply wrap_small; unfold in_u; lia).
  assert (forall c, m !! b = None -> (<[b := d' + 1]> D) !! p = Some d /\ (<[b := c]> m) !! p = Some cp) as HDp.
  { intros c Hb. by rewrite !lookup_insert_ne by congruence. }
  destruct Hdisc as [m st c Hm|m st Hm Hn|m st c size Hm Hr Hsc|m st c size q Hm Hr Hsc];
    [by exists D|exists (<[b := d' + 1]> D)..]; (split; [|by apply HDp]).
  - eapply explored_grow; eauto; [lia|]. left. split; [done|]. intros [? _]. done.
  - eapply explored_grow; eauto. lia.
  - eapply explored_grow; eauto; [lia|]. right. eexists. split; [done|]. cbn. by rewrite Eu.
Qed.

(** The drain invariant: every scanned object is closed. *)
Definition explores (m : gmap Z Z) (st : list TraversalFrame) : Prop :=
  exists S D, explored S S D m st.

Lemma explored_pop S C D m fr st :
  explored S C D m (fr :: st) ->
  objectAddress fr ∈ S \/ MaxTreeDepth < depth fr \/ ~ scannable mem (frame_class fr) ->
  explored S C D m st.
Proof.
  intros [Hroot Hs Hsh Hcl Hfr Htodo Hclosed Hfound] Hor. split; auto.
  - intros fr' Hin. apply Hfr. by constructor.
  - intros a c Ha Hsc. destruct (Htodo a c Ha Hsc) as [?|[(fr' & Hin & E)|?]]; [auto| |auto].
    apply elem_of_cons in Hin as [->|Hin]; [|eauto].
    destruct (Hfr fr) as (E1 & _ & E3); [constructor|]. rewrite E in E1, E3.
    destruct Hor as [?|[?|Hno]]; [left; congruence|eauto|].
    assert (frame_class fr = c) as <- by congruence. done.
Qed.

Lemma explored_more S C D m st p d :
  explored S C D m st -> p ∈ dom m -> D !! p = Some d -> d <= MaxTreeDepth ->
  explored (S ∪ {[p]}) C D m st.
Proof.
  intros [Hroot Hs Hsh Hcl Hfr Htodo Hclosed Hfound] Hp Hd Hle. split; auto.
  - set_solver.
  - intros q [Hq| ->%elem_of_singleton]%elem_of_union; eauto.
  - intros a c Ha Hsc. destruct (Htodo a c Ha Hsc) as [?|?]; [left; set_solver|auto].
  - intros a Ha Hr. destruct (Hfound a Ha Hr) as (q & ? & ?). exists q. set_solver.
Qed.

Lemma explored_close S C D m st p c size :
  explored S C D m st -> object p c size -> references_visited mem info c p size m ->
  explored S (C ∪ {[p]}) D m st.
Proof.
  intros [Hroot Hs Hsh Hcl Hfr Htodo Hclosed Hfound] Hp Href. split; auto.
  intros q a [Hq| ->%elem_of_singleton]%elem_of_union Hqa; [eauto|].
  destruct Hqa as (c' & size' & Ho & Hrep & Hv).
  destruct (object_inj _ _ _ _ _ Hp Ho) as [-> ->]. by apply Href.
Qed.

Lemma explores_drainable : drainable mem info rank (fun m st => depths_ok st /\ explores m st).
Proof.
  split.
  - intros m fr st [[_ ?]%Forall_cons (S & D & Hex)] Hor. split; [done|]. exists S, D.
    eapply explored_pop; eauto.
  - intros m fr st [[Hd0 Hds]%Forall_cons (S & D & Hex)] Hdeep Hsc.
    set (p := objectAddress fr). destruct (ex_frames _ _ _ _ _ Hex fr) as (Em & Hobj & Ed); [constructor|].
    exists (fun m' st' => depths_ok st' /\ exists D', explored (S ∪ {[p]}) S D' m' st' /\ D' !! p = Some (depth fr) /\ m' !! p = Some (frame_class fr)).
    split; [|split].
    + split; [done|]. exists D. split; [|done]. apply (explored_pop _ _ _ _ fr); [|left; set_solver].
      eapply explored_more; [done| |done|unfold MaxTreeDepth in *; lia]. apply elem_of_dom. eauto.
    + intros b d' mp st0 mp' st' Hrep Hv Hd' [Hds0 (D0 & Hex0 & Hp0 & Hm0)] Hdisc. split.
      { destruct Hdisc; auto. constructor; [|done]. cbn. apply wrap_range. lia. }
      unfold MaxTreeDepth in *.
      eapply (explored_discover (S ∪ {[p]}) S D0 mp st0 b (depth fr) d' p (frame_class fr)); eauto; [set_solver| |pose proof (Hrank (frame_class fr)); lia].
      exists (frame_class fr), (objectSize fr). done.
    + intros m' st' [Hds' (D' & Hex' & Hp' & _)] Href. split; [done|]. exists (S ∪ {[p]}), D'.
      by eapply explored_close.
Qed.

Lemma explores_root st :
  (scannable mem (root_class root) /\
      st = [mkFrame (address root) (mkRef (root_class root) (root_category root) []) 1
              (root_class root) (root_size root)] \/
    ~ scannable mem (root_class root) /\ st = []) ->
  explores {[address root := root_class root]} st.
Proof.
  intros Hst. exists ∅, {[address root := 1]}. split.
  - by rewrite !lookup_singleton_eq.
  - set_solver.
  - set_solver.
  - intros a c [<- <-]%lookup_singleton_Some ?. done.
  - intros fr Hin. destruct Hst as [[_ ->]|[_ ->]]; [|by apply elem_of_nil in Hin].
    apply list_elem_of_singleton in Hin as ->. cbn. rewrite !lookup_singleton_eq.
    split; [done|]. split; [|done]. by left.
  - intros a c [<- <-]%lookup_singleton_Some Hsc. destruct Hst as [[_ ->]|[? _]]; [|done].
    right. left. eexists. split; [constructor|done].
  - set_solver.
  - intros a. rewrite dom_singleton_L. set_solver.
Qed.
End complete.
