(* ===== verification/TraversalDump.v ===== *)
(** * Properties of a heap dump's traversals

    The entry points of [ReferenceChainTraverser], over the lemmas of [TraversalSafety]:
    seeding a root, the resume loop, the fault budget of a dump, the permanent self-test
    verdict, and what the visited set holds after a root was traversed without a fault. *)
From stdpp Require Import base gmap list.
From S2P Require Import Prelude FaultMonad VisitedObjectSet VisitedSet TypeReferenceTree GCDesc.
From S2P Require Import ReferenceChainTraverser TraversalSafety TraversalComplete.

(** ** Seeding *)

Section seeding.
Context {V : Type} `{VisitedSet V}.
Context (mem : Z -> option Z) (interruptions : nat -> interruption).
Implicit Types s : Traverser V.

Definition root_frame (root : RootInfo) : TraversalFrame :=
  mkFrame (address root) (mkRef (root_class root) (root_category root) []) 1 (root_class root)
    (root_size root).

(** Everything but the visited set, the stack, the tree and the root counts. *)
Definition seed_keeps s s' : Prop :=
  _objectsTraversed (_stats s') = _objectsTraversed (_stats s) /\
  _rootsProcessed (_stats s') = _rootsProcessed (_stats s) /\
  _layout s' = _layout s /\ _dump s' = _dump s /\ _warnings s' = _warnings s /\
  _inlineVTCache s' = _inlineVTCache s.

Definition seed_result (f : Z) (root : RootInfo) s (r : Traverser V * res unit) : Prop :=
  match r with
  | (s', Done _) => seed_keeps s s' /\ vs_inv 0 (_visited s') /\
      contents_of s' = {[address root := root_class root]} /\
      (scannable mem (root_class root) /\ _traversalStack s' = [root_frame root] \/
       ~ scannable mem (root_class root) /\ _traversalStack s' = [])
  | (s', Fault) | (s', Throw) =>
      seed_keeps s s' /\ vs_inv (f + 1) (vs_MarkPossiblyInconsistent (_visited s'))
  | (_, Stuck) => False
  end.

Lemma push_root_spec root s0 f s :
  0 <= f -> seed_keeps s0 s -> vs_inv 0 (_visited s) ->
  contents_of s = {[address root := root_class root]} -> _traversalStack s = [] ->
  seed_result f root s0 (PushTraversalFrameIfScannable mem interruptions (address root)
    (mkRef (root_class root) (root_category root) []) 1 (root_class root) (root_size root) s).
Proof.
  intros Hf Hk Hv Hc Hst. unfold PushTraversalFrameIfScannable.
  assert (vs_inv (f + 1) (vs_MarkPossiblyInconsistent (_visited s))) as Hbad
    by (apply vs_inconsistent_law, (vs_mono_law 0); [lia|done]).
  assert (forall b, (b = true <-> scannable mem (root_class root)) ->
    seed_result f root s0 ((if b : bool then alloc interruptions;; modify (fun s =>
      with_stack (root_frame root :: _traversalStack s) s) else skip) s)) as Hend.
  { intros [] Hb; [|split; [done|]; split; [done|]; split; [done|]; right; split; [|done];
      intros ?; assert (false = true) by tauto; done].
    unfold mbind, M_bind, alloc. destruct (interruptions (_operations s)); [|done..].
    cbn. split; [done|]. split; [done|]. split; [done|]. left. rewrite Hst. tauto. }
  unfold ContainsGCPointers, read_word. destruct (Z.eqb_spec (root_class root) 0) as [E|E].
  { apply (Hend false). unfold scannable. rewrite E. split; [done|]. intros [? _]. done. }
  unfold mbind, M_bind. destruct (mem (root_class root)) as [w|] eqn:Ew; [|done].
  cbn [mret M_ret]. unfold mret, M_ret. apply (Hend (negb _)). rewrite negb_true_iff, Z.eqb_neq.
  unfold scannable. rewrite Ew. split.
  - intros ?. split; [done|]. by exists w.
  - intros (_ & w' & ? & ?). congruence.
Qed.

Lemma SeedRoot_spec root f s :
  0 <= f <= 16 -> vs_inv f (_visited s) -> address root <> 0 ->
  seed_result f root s (SeedRoot mem interruptions root s).
Proof.
  intros Hf Hv Ha. unfold SeedRoot.
  assert (forall v, vs_inv f v -> vs_inv (f + 1) (vs_MarkPossiblyInconsistent v)) as Hbad
    by (intros v ?; apply vs_inconsistent_law, (vs_mono_law f); [lia|done]).
  unfold mbind at 1, M_bind at 1, modify at 1. cbv beta iota.
  match goal with |- context [on_stats ?g s] => set (s1 := on_stats g s) end.
  unfold mbind at 1, M_bind at 1, alloc at 1. change (_operations s1) with (_operations s).
  destruct (interruptions (_operations s)); [|by split; [|apply Hbad]..].
  unfold mbind at 1, M_bind at 1, modify at 1. cbv beta iota.
  match goal with |- context [on_tree ?g ?x] => set (s2 := on_tree g x) end.
  unfold mbind at 1, M_bind at 1, gets at 1. cbv beta iota. change (_visited s2) with (_visited s).
  destruct (vs_clear_law f (_visited s) Hv) as (v1 & -> & Hv1 & Hc1). cbn [try].
  unfold mbind at 1, M_bind at 1, mret at 1, M_ret at 1. cbv beta iota.
  unfold mbind at 1, M_bind at 1, modify at 1. cbv beta iota.
  unfold mbind at 1, M_bind at 1, modify at 1. cbv beta iota.
  set (s3 := with_stack [] (with_visited v1 s2)).
  assert (vs_inv f v1) as Hv1f by (apply (vs_mono_law 0); [lia|done]).
  unfold mbind at 1, M_bind at 1, alloc at 1.
  destruct (interruptions (_operations s3)); [|by split; [|apply Hbad]..].
  unfold mbind at 1, M_bind at 1, gets at 1. cbv beta iota.
  change (_visited (next_operation s3)) with v1.
  destruct (vs_mark_store_law 0 v1 (address root) (root_class root)) as (v2 & -> & Hv2 & Hc2); try done.
  { rewrite Hc1, map_size_empty. done. }
  cbn [try]. unfold mbind at 1, M_bind at 1, mret at 1, M_ret at 1. cbv beta iota.
  unfold mbind at 1, M_bind at 1, modify at 1. cbv beta iota.
  apply push_root_spec; try done; [lia|]. unfold contents_of. cbn. by rewrite Hc2, Hc1.
Qed.
End seeding.

Section dump.
Context {V : Type} `{VisitedSet V}.
Context (mem : Z -> option Z) (info : ICorProfilerInfo).
Context (RegisterHandlers : nat -> bool * bool) (interruptions : nat -> interruption).
Context (drainFuel vtFuel : nat) (Hvt : Z.of_nat vtFuel < 2 ^ 31).
Context (rank : Z -> nat) (Hrank : forall k, (rank k < vtFuel)%nat).
Context (U : gset Z).
Context (HU : forall a w, mem a = Some w -> IsValidObjectAddress w = true -> w ∈ U).
Context (HUmax : Z.of_nat (size U) < MaxEntries).
Context (Hfuel : Z.of_nat (size U) < Z.of_nat drainFuel).
Implicit Types s : Traverser V.

(** ** Guarded runs *)

Abbreviation faults s := (_faultCount (_dump s)).
Abbreviation stopped s := (_stopReason (_dump s)).
Abbreviation traversed s := (_objectsTraversed (_stats s)).

Lemma RunGuarded_cases body g s :
  t_inGuardedRegion g = false -> snd (body s) <> Stuck ->
  exists g', t_inGuardedRegion g' = false /\
    (RunGuarded RegisterHandlers body (g, s) = ((g', OnFaultGuardUnavailable s), Done false) \/
     RunGuarded RegisterHandlers body (g, s) =
       match body s with
       | (s', Done _) => ((g', s'), Done true)
       | (s', Fault) => ((g', OnTraversalFault s'), Done false)
       | (s', Throw) => ((g', s'), Throw)
       | (s', Stuck) => ((g', s'), Stuck)
       end).
Proof.
  intros Hg Hst. unfold RunGuarded, Run, mbind, M_bind.
  destruct (EnsureInstalled RegisterHandlers g) as [g1 ok] eqn:E.
  assert (t_inGuardedRegion g1 = false) as Hg1.
  { unfold EnsureInstalled in E. destruct (installed g); [by simplify_eq|].
    destruct (RegisterHandlers (attempts g)). by simplify_eq. }
  destruct ok; cbn [negb].
  - exists (set_region false (set_region true g1)). split; [done|]. right.
    destruct (body s) as [s' [u| | |]]; done.
  - exists g1. auto.
Qed.

(** The state during the resume loop: the number of insertions that may have been
    interrupted since the last [Clear] is at most the number of faults. *)
Record alive s : Prop := {
  al_faults : 0 <= faults s <= MaxFaultsPerDump;
  al_budget : stopped s = FaultBudgetExhausted <-> faults s = MaxFaultsPerDump;
  al_calm : stopped s <> UnexpectedException;
  al_visited : vs_inv (faults s) (_visited s);
  al_layout : layout_ok (_layout s);
  al_ranked : ranked rank (_inlineVTCache s);
  al_dom : dom (contents_of s) ⊆ U;
  al_traversed : in_u 64 (traversed s);
  al_depths : depths_ok (_traversalStack s)
}.

(** From [s] to [s'], [k] objects were scanned. *)
Record moved (k : Z) s s' : Prop := {
  mv_traversed : traversed s' = u64 (traversed s + k);
  mv_roots : _rootsProcessed (_stats s') = _rootsProcessed (_stats s);
  mv_warnings : _warnings s' = _warnings s;
  mv_layout : layout_step (_layout s) (_layout s');
  mv_potential : potential s' + k <= potential s;
  mv_faults : faults s <= faults s'
}.

Lemma moved_refl s : in_u 64 (traversed s) -> moved 0 s s.
Proof. intros Hu. split; try done; [|lia]. by rewrite Z.add_0_r, wrap_small. Qed.

Lemma moved_trans k1 k2 s1 s2 s3 : moved k1 s1 s2 -> moved k2 s2 s3 -> moved (k1 + k2) s1 s3.
Proof.
  intros [] []. split; try congruence; try lia.
  - rewrite mv_traversed1, mv_traversed0. unfold wrap. rewrite Zplus_mod_idemp_l. f_equal. lia.
  - by eapply layout_step_trans.
Qed.

Lemma moved_progress k s s' : progress rank U k s s' -> moved k s s'.
Proof. intros []. split; try done. by rewrite pr_dump. Qed.

Lemma potential_inconsistent s d :
  potential (with_visited (vs_MarkPossiblyInconsistent (_visited s)) (with_dump d s)) = potential s.
Proof. unfold potential, contents_of. cbn. by rewrite vs_inconsistent_contents. Qed.

Lemma contents_inconsistent s d :
  contents_of (with_visited (vs_MarkPossiblyInconsistent (_visited s)) (with_dump d s)) = contents_of s.
Proof. unfold contents_of. cbn. by rewrite vs_inconsistent_contents. Qed.

Lemma alive_running s : alive s -> stopped s = NoStop -> 0 <= faults s < 16.
Proof.
  intros [Hf Hb _ _ _ _ _ _ _] Hs. rewrite Hs in Hb. unfold MaxFaultsPerDump in *.
  destruct (decide (faults s = 16)) as [E|E]; [|lia]. apply Hb in E. done.
Qed.

(** A recovered fault is counted, and ends the dump when the budget is used up. *)
Lemma OnTraversalFault_spec s s' :
  alive s -> stopped s = NoStop -> crashed rank U (faults s) s s' ->
  alive (OnTraversalFault s') /\ faults (OnTraversalFault s') = faults s + 1 /\
  exists k, 1 <= k /\ moved k s (OnTraversalFault s').
Proof.
  intros Hal Hstop (k & Hk & Hp & Hv). pose proof (alive_running s Hal Hstop) as Hf.
  pose proof (pr_dump _ _ _ _ _ Hp) as Ed.
  assert (faults (OnTraversalFault s') = faults s + 1) as Ef.
  { unfold OnTraversalFault. cbn. rewrite Ed. apply wrap_small. unfold in_u. lia. }
  assert (moved k s (OnTraversalFault s')) as Hmv.
  { destruct (moved_progress k s s' Hp). split; try done; [|lia].
    unfold OnTraversalFault. by rewrite potential_inconsistent. }
  split; [|eauto]. destruct Hp. split; rewrite ?Ef; try done.
  - unfold MaxFaultsPerDump. lia.
  - unfold OnTraversalFault in *. cbn [with_visited with_dump _dump _stopReason _faultCount] in *.
    rewrite Ef, Ed, Hstop. unfold MaxFaultsPerDump. destruct (Z.leb_spec 16 (faults s + 1)); split; try done; lia.
  - unfold OnTraversalFault. cbn [with_visited with_dump _dump _stopReason]. rewrite Ed, Hstop.
    by destruct (_ <=? _).
  - by eapply layout_step_ok, Hal.
  - unfold OnTraversalFault. by rewrite contents_inconsistent.
  - cbn. rewrite pr_traversed. by apply wrap_range.
Qed.

Lemma OnFaultGuardUnavailable_spec s :
  alive s -> stopped s = NoStop ->
  alive (OnFaultGuardUnavailable s) /\ moved 0 s (OnFaultGuardUnavailable s) /\
  stopped (OnFaultGuardUnavailable s) = FaultGuardUnavailable.
Proof.
  intros Hal Hstop. pose proof (alive_running s Hal Hstop) as Hf. split; [|split; [|done]].
  - destruct Hal. split; try done.
    + cbn. unfold MaxFaultsPerDump. split; [done|lia].
    + by apply vs_inconsistent_law.
    + unfold OnFaultGuardUnavailable. by rewrite contents_inconsistent.
  - destruct (moved_refl s (al_traversed _ Hal)). split; try done.
    unfold OnFaultGuardUnavailable. by rewrite potential_inconsistent.
Qed.

(** ** Resuming after faults *)

(** An exception left the guarded region. *)
Definition aborted s s' : Prop :=
  exists k, 0 <= k /\ moved k s s' /\ 0 <= faults s' < 16 /\ stopped s' = NoStop /\
    vs_inv (faults s' + 1) (vs_MarkPossiblyInconsistent (_visited s')) /\
    layout_ok (_layout s') /\ ranked rank (_inlineVTCache s') /\ in_u 64 (traversed s') /\
    dom (contents_of s') ⊆ U.

Definition guarded_drain_result (DI : gmap Z Z -> list TraversalFrame -> Prop) s
    (r : Guard * Traverser V * res bool) : Prop :=
  match r with
  | ((g', s'), Done true) => t_inGuardedRegion g' = false /\ alive s' /\
      (exists k, 0 <= k /\ moved k s s') /\ _dump s' = _dump s /\
      (_gcDescTrusted (_layout s') = false \/ _traversalStack s' = [] /\ DI (contents_of s') [])
  | ((g', s'), Done false) => t_inGuardedRegion g' = false /\ alive s' /\
      (moved 0 s s' /\ stopped s' = FaultGuardUnavailable /\ faults s' = faults s \/
       faults s' = faults s + 1 /\ exists k, 1 <= k /\ moved k s s')
  | ((g', s'), Throw) => t_inGuardedRegion g' = false /\ aborted s s' /\ _dump s' = _dump s
  | _ => False
  end.

Lemma guarded_drain_spec DI g s :
  drainable mem info rank DI -> alive s -> stopped s = NoStop -> potential s <= 0 ->
  DI (contents_of s) (_traversalStack s) -> t_inGuardedRegion g = false ->
  guarded_drain_result DI s
    (RunGuarded RegisterHandlers (DrainTraversalStack mem info interruptions vtFuel drainFuel) (g, s)).
Proof.
  intros HDI Hal Hstop Hpot Hi Hg. pose proof (alive_running s Hal Hstop) as Hf.
  assert (potential s + Z.of_nat (size U) < Z.of_nat drainFuel) as Hfl by lia.
  pose proof (DrainTraversalStack_spec mem info interruptions vtFuel Hvt rank Hrank U HU HUmax
    (faults s) Hf DI drainFuel s HDI Hfl (al_visited _ Hal) (al_dom _ Hal) (al_ranked _ Hal)
    (al_traversed _ Hal) (al_depths _ Hal) Hi) as Hd.
  destruct (RunGuarded_cases (DrainTraversalStack mem info interruptions vtFuel drainFuel) g s Hg)
    as (g' & Hg' & [->| ->]).
  { intros E. destruct (DrainTraversalStack _ _ _ _ _ s) as [s' r]. cbn in E. by subst. }
  { destruct (OnFaultGuardUnavailable_spec s Hal Hstop) as (Ha & Hm & Hs). repeat (split; [done|]).
    left. done. }
  destruct (DrainTraversalStack _ _ _ _ _ s) as [s' [u| | |]]; cbn in Hd |- *; [| | |done].
  - destruct Hd as (k & Hk & Hp & Hv & HE). split; [done|].
    split; [|split; [exists k; split; [done|by apply moved_progress]|]].
    + destruct Hp, Hal. split; rewrite ?pr_dump; try done; auto.
      * by eapply layout_step_ok.
      * rewrite pr_traversed. by apply wrap_range.
    + split; [apply Hp|]. destruct HE as [?|(? & ? & _)]; auto.
  - destruct (OnTraversalFault_spec s s' Hal Hstop Hd) as (Ha & Ef & k & Hk & Hm). split; [done|].
    split; [done|]. right. eauto.
  - destruct Hd as (k & Hk & Hp & Hv). split; [done|]. split; [|apply Hp]. exists k. split; [lia|].
    split; [by apply moved_progress|]. destruct Hp. rewrite pr_dump. split; [done|].
    split; [done|]. split; [done|]. split; [by eapply layout_step_ok, Hal|]. split; [done|].
    split; [|done]. rewrite pr_traversed. by apply wrap_range.
Qed.

(** A drain that faulted has scanned at least one object: the loop's own safety net, which
    would drop a frame, is never used. *)
Lemma counted_change k s s' :
  in_u 64 (traversed s) -> potential s <= 0 -> dom (contents_of s') ⊆ U -> 1 <= k -> moved k s s' ->
  (traversed s' =? traversed s) = false.
Proof.
  intros Hu Hpot Hd Hk Hm. apply Z.eqb_neq. rewrite (mv_traversed _ _ _ Hm). intros E.
  pose proof (potential_bound U s' Hd). pose proof (mv_potential _ _ _ Hm).
  unfold MaxEntries, in_u, wrap in *.
  assert (k mod 2 ^ 64 = 0) as Ek.
  { rewrite <- (Z.mod_small (traversed s) (2 ^ 64)) in E at 2 by done.
    replace k with ((traversed s + k) - traversed s) by lia. rewrite Zminus_mod, E, <- Zminus_mod.
    by rewrite Z.sub_diag. }
  rewrite Z.mod_small in Ek by lia. lia.
Qed.

Definition resume_result (DI : gmap Z Z -> list TraversalFrame -> Prop) s
    (r : Guard * Traverser V * res unit) : Prop :=
  match r with
  | ((g', s'), Done _) => t_inGuardedRegion g' = false /\ alive s' /\
      (exists k, 0 <= k /\ moved k s s') /\
      (may_continue s' = true -> _traversalStack s' = []) /\
      (may_continue s' = true -> faults s' = faults s -> DI (contents_of s') [])
  | ((g', s'), Throw) => t_inGuardedRegion g' = false /\ aborted s s'
  | _ => False
  end.

Lemma aborted_moved k s1 s2 s3 : 0 <= k -> moved k s1 s2 -> aborted s2 s3 -> aborted s1 s3.
Proof.
  intros Hk Hm (k2 & ? & Hm2 & ?). exists (k + k2). split; [lia|]. split; [by eapply moved_trans|done].
Qed.

Lemma resume_moved DI DI' k s1 s2 r :
  0 <= k -> moved k s1 s2 -> resume_result DI s2 r -> faults s1 < faults s2 ->
  resume_result DI' s1 r.
Proof.
  intros Hk Hm Hr Hlt. destruct r as [[g' s'] [u| | |]]; cbn in *; try done.
  - destruct Hr as (? & ? & (k2 & Hk2 & Hm2) & Hst & _). split; [done|]. split; [done|].
    split; [exists (k + k2); split; [lia|by eapply moved_trans]|]. split; [done|].
    intros _ E. pose proof (mv_faults _ _ _ Hm2). lia.
  - destruct Hr as [? ?]. split; [done|]. by eapply aborted_moved.
Qed.

Lemma may_continue_true s : may_continue s = true <-> _gcDescTrusted (_layout s) = true /\ stopped s = NoStop.
Proof. unfold may_continue. by rewrite andb_true_iff, bool_decide_eq_true. Qed.

Lemma resume_spec fuel : forall DI g s,
  drainable mem info rank DI -> alive s -> potential s <= 0 ->
  (MaxFaultsPerDump - faults s < Z.of_nat fuel) -> DI (contents_of s) (_traversalStack s) ->
  t_inGuardedRegion g = false ->
  resume_result DI s (resume mem info RegisterHandlers interruptions drainFuel vtFuel fuel (g, s)).
Proof.
  induction fuel as [|fuel IH]; intros DI g s HDI Hal Hpot Hfl Hi Hg.
  { pose proof (al_faults _ Hal). lia. }
  cbn [resume]. rewrite (bind_done _ _ (g, s) (g, s) s) by done.
  assert (resume_result DI s ((g, s), Done tt) <->
    (may_continue s = true -> _traversalStack s = [])) as Hend.
  { cbn. split; [tauto|]. intros Hst. repeat (split; [done|]). split; [exists 0; split; [done|apply moved_refl, Hal]|].
    split; [done|]. intros Hc _. by rewrite <- Hst. }
  case_bool_decide as Hst; cbn [orb]; [by apply Hend|].
  destruct (may_continue s) eqn:Hc; cbn [negb]; [|by apply Hend].
  apply may_continue_true in Hc as [Htr Hstop].
  pose proof (guarded_drain_spec DI g s HDI Hal Hstop Hpot Hi Hg) as Hd.
  unfold mbind at 1, M_bind at 1. destruct (RunGuarded _ _ (g, s)) as [[g1 s1] [b| | |]]; try done.
  unfold mbind, M_bind, modify. cbv beta iota.
  assert (faults s1 = faults s -> (negb (faults s1 =? faults s) && (traversed s1 =? traversed s) &&
    negb (bool_decide (_traversalStack s1 = [])))%bool = false) as Hsame
    by (intros ->; by rewrite Z.eqb_refl).
  destruct b; cbn in Hd.
  - destruct Hd as (Hg1 & Hal1 & (k & Hk & Hm) & Ed & HE). rewrite Hsame by (by rewrite Ed).
    assert (may_continue s1 = true -> _traversalStack s1 = []) as Hs1.
    { intros [? _]%may_continue_true. destruct HE as [?|[? _]]; congruence. }
    pose proof (mv_potential _ _ _ Hm).
    destruct fuel as [|fuel]; [pose proof (al_faults _ Hal); unfold MaxFaultsPerDump in *;
      pose proof (alive_running s Hal Hstop); lia|].
    cbn [resume]. rewrite (bind_done _ _ (g1, s1) (g1, s1) s1) by done.
    assert (bool_decide (_traversalStack s1 = []) || negb (may_continue s1) = true) as ->.
    { destruct (may_continue s1); [|by rewrite orb_true_r]. by rewrite bool_decide_eq_true_2 by auto. }
    cbn. repeat (split; [done|]). split; [eauto|]. split; [done|].
    intros [? _]%may_continue_true _. destruct HE as [?|[_ ?]]; [congruence|done].
  - destruct Hd as (Hg1 & Hal1 & [(Hm & Hs1 & Ef)|(Ef & k & Hk & Hm)]).
    + rewrite Hsame by done.
      assert (may_continue s1 = false) as Hc1.
      { destruct (may_continue s1) eqn:E; [|done]. apply may_continue_true in E as [_ ?]. congruence. }
      destruct fuel as [|fuel]; [pose proof (alive_running s Hal Hstop); unfold MaxFaultsPerDump in *; lia|].
      cbn [resume]. rewrite (bind_done _ _ (g1, s1) (g1, s1) s1) by done. rewrite Hc1, orb_true_r.
      cbn. rewrite Hc1. repeat (split; [done|]). split; [by exists 0|]. done.
    + pose proof (mv_potential _ _ _ Hm).
      rewrite (counted_change k s s1 (al_traversed _ Hal) Hpot (al_dom _ Hal1) Hk Hm).
      rewrite andb_false_r. cbn [andb].
      eapply (resume_moved (fun _ _ => True) DI k s s1); [lia|done| |lia].
      apply IH; auto; try lia. apply drainable_True.
  - by destruct Hd as (? & ? & _).
Qed.

(** ** Between two roots *)

Record idle s : Prop := {
  id_faults : 0 <= faults s <= MaxFaultsPerDump;
  id_budget : stopped s = FaultBudgetExhausted <-> faults s = MaxFaultsPerDump;
  id_visited : stopped s <> UnexpectedException -> vs_inv (faults s) (_visited s);
  id_layout : layout_ok (_layout s);
  id_ranked : ranked rank (_inlineVTCache s);
  id_traversed : in_u 64 (traversed s)
}.

(** The failure of the self-test is logged once, after the traversal it happened in. *)
Definition failure_logged s : Prop :=
  _selfTestFailureLogged (_layout s) = negb (_gcDescTrusted (_layout s)) /\
  _warnings s = if _gcDescTrusted (_layout s) then [] else [_selfTestFailedClassID (_layout s)].

Lemma alive_idle s : alive s -> idle s.
Proof. intros []. by split. Qed.

(** A step between two idle states. *)
Record root_step (k : Z) s s' : Prop := {
  rs_traversed : traversed s' = u64 (traversed s + k);
  rs_warnings : _warnings s' = _warnings s;
  rs_layout : layout_step (_layout s) (_layout s');
  rs_faults : faults s <= faults s'
}.

Lemma root_step_moved k s s1 s2 :
  seed_keeps s s1 -> moved k s1 s2 -> root_step k s s2.
Proof.
  intros (Et & _ & El & Ed & Ew & _) []. rewrite Et, El, Ed, Ew in *. by split.
Qed.

Lemma root_step_refl s : in_u 64 (traversed s) -> root_step 0 s s.
Proof. intros. split; try done. by rewrite Z.add_0_r, wrap_small. Qed.

Definition core_result s (r : Guard * Traverser V * res unit) : Prop :=
  match r with
  | ((g', s'), Done _) => t_inGuardedRegion g' = false /\ idle s' /\
      exists k, 0 <= k <= Z.of_nat (size (contents_of s')) /\ root_step k s s'
  | ((g', s'), Throw) => t_inGuardedRegion g' = false /\ idle (OnTraversalAborted s') /\
      exists k, 0 <= k <= Z.of_nat (size (contents_of s')) /\ root_step k s s'
  | _ => False
  end.

Lemma idle_aborted s :
  0 <= faults s < 16 -> layout_ok (_layout s) -> ranked rank (_inlineVTCache s) ->
  in_u 64 (traversed s) -> idle (OnTraversalAborted s).
Proof.
  intros Hf Hl Hr Hu. clear - Hf Hl Hr Hu. split; cbn; unfold MaxFaultsPerDump; try done; try lia. split; [done|lia].
Qed.

Lemma idle_fault s s' :
  idle s -> 0 <= faults s < 16 -> seed_keeps s s' -> stopped s = NoStop ->
  vs_inv (faults s + 1) (vs_MarkPossiblyInconsistent (_visited s')) ->
  idle (OnTraversalFault s') /\ root_step 0 s (OnTraversalFault s').
Proof.
  intros [Hf Hb Hv Hl Hr Hu] Hlt (Et & Er & El & Ed & Ew & Ec) Hs Hv'.
  assert (u32 (faults s + 1) = faults s + 1) as Ef by (apply wrap_small; unfold in_u; lia).
  split; split; cbn; rewrite ?Et, ?El, ?Ed, ?Ew, ?Ec, ?Ef, ?Hs; unfold MaxFaultsPerDump in *; try done; try lia.
  - destruct (Z.leb_spec 16 (faults s + 1)); split; try done; lia.
  - by rewrite Z.add_0_r, wrap_small.
Qed.

Lemma moved_bound k s s' : potential s <= 0 -> moved k s s' -> k <= Z.of_nat (size (contents_of s')).
Proof. intros Hp Hm. pose proof (mv_potential _ _ _ Hm). unfold potential in *. clear -Hp H0. lia. Qed.

Lemma seeded_alive root s s1 :
  idle s -> stopped s = NoStop -> address root ∈ U ->
  seed_keeps s s1 -> vs_inv 0 (_visited s1) ->
  contents_of s1 = {[address root := root_class root]} ->
  _traversalStack s1 = [root_frame root] \/ _traversalStack s1 = [] ->
  alive s1 /\ potential s1 <= 0.
Proof.
  intros Hid Hs HrU Hk Hv1 Hc1 Hst. clear - Hid Hs HrU Hk Hv1 Hc1 Hst.
  destruct Hid as [Hf Hb Hv Hl Hr Hu], Hk as (Et & _ & El & Ed & Ew & Ec). split.
  - split; rewrite ?Et, ?El, ?Ed, ?Ec, ?Hs; try done.
    + by rewrite <- Hs.
    + apply (vs_mono_law 0); [lia|done].
    + rewrite Hc1, dom_singleton_L. set_solver.
    + destruct Hst as [->| ->]; repeat constructor. cbn. lia.
  - unfold potential. rewrite Hc1, map_size_singleton. destruct Hst as [->| ->]; cbn; lia.
Qed.

(** Once seeded, the resume loop: with the result of a drain invariant the seed establishes. *)
Lemma seeded_resume DI root g s s1 :
  drainable mem info rank DI -> idle s -> stopped s = NoStop -> address root ∈ U ->
  t_inGuardedRegion g = false -> seed_keeps s s1 -> vs_inv 0 (_visited s1) ->
  contents_of s1 = {[address root := root_class root]} ->
  _traversalStack s1 = [root_frame root] \/ _traversalStack s1 = [] ->
  DI (contents_of s1) (_traversalStack s1) ->
  alive s1 /\ potential s1 <= 0 /\
  resume_result DI s1 (resume mem info RegisterHandlers interruptions drainFuel vtFuel
    (S (Z.to_nat MaxFaultsPerDump)) (g, s1)).
Proof.
  intros HDI Hid Hs HrU Hg Hk Hv Hc Hst HI.
  destruct (seeded_alive root s s1 Hid Hs HrU Hk Hv Hc Hst) as [Hal Hp]. split; [done|]. split; [done|].
  apply resume_spec; auto. pose proof (al_faults _ Hal). unfold MaxFaultsPerDump in *. lia.
Qed.

Lemma Core_spec root g s :
  idle s -> address root <> 0 -> address root ∈ U -> t_inGuardedRegion g = false ->
  core_result s (TraverseFromSingleRootCore mem info RegisterHandlers interruptions drainFuel vtFuel
    root (g, s)).
Proof.
  intros Hid Ha HrU Hg. unfold TraverseFromSingleRootCore.
  rewrite (bind_done _ _ (g, s) (g, s) s) by done.
  destruct (may_continue s) eqn:Hc; cbn [negb].
  2: { cbn. split; [done|]. split; [done|]. exists 0. split; [lia|]. apply root_step_refl, Hid. }
  apply may_continue_true in Hc as [Htr Hs].
  assert (0 <= faults s < 16) as Hf.
  { destruct Hid as [Hf Hb _ _ _ _]. unfold MaxFaultsPerDump in *. rewrite Hs in Hb.
    destruct (decide (faults s = 16)) as [E|]; [apply Hb in E; done|lia]. }
  assert (vs_inv (faults s) (_visited s)) as Hv by (apply Hid; by rewrite Hs).
  pose proof (SeedRoot_spec mem interruptions root (faults s) s ltac:(lia) Hv Ha) as Hseed.
  unfold mbind at 1, M_bind at 1.
  destruct (RunGuarded_cases (SeedRoot mem interruptions root) g s Hg) as (g1 & Hg1 & [->| ->]).
  { intros E. destruct (SeedRoot _ _ _ s) as [s1 r1]. cbn in E. by subst. }
  { cbn. split; [done|]. split.
    2: { exists 0. split; [lia|]. by destruct (root_step_refl s (id_traversed _ Hid)). }
    destruct Hid. split; cbn; try done; unfold MaxFaultsPerDump; [split; [done|lia]|].
    intros _. by apply vs_inconsistent_law. }
  destruct (SeedRoot _ _ _ s) as [s1 [u| | |]]; cbn in Hseed; [| | |done].
  - destruct Hseed as (Hk & Hv1 & Hc1 & Hst). cbn [negb].
    destruct (seeded_resume (fun _ _ => True) root g1 s s1) as (Hal1 & Hp1 & Hres); auto; try done.
    { apply drainable_True. }
    { destruct Hst as [[_ ?]|[_ ?]]; auto. }
    unfold mbind, M_bind. destruct (resume _ _ _ _ _ _ _ (g1, s1)) as [[g2 s2] [u2| | |]]; try done; cbn in Hres |- *.
    + destruct Hres as (Hg2 & Hal2 & (k & Hk0 & Hm) & _). split; [done|]. split.
      { by destruct (alive_idle _ Hal2). }
      exists k. split; [split; [done|exact (moved_bound k s1 s2 Hp1 Hm)]|].
      by destruct (root_step_moved k s s1 s2 Hk Hm).
    + destruct Hres as (Hg2 & k & Hk0 & Hm & Hf2 & Hs2 & Hv2 & Hl2 & Hr2 & Hu2 & Hd2). split; [done|].
      split; [by apply idle_aborted|]. exists k.
      split; [split; [done|by eapply moved_bound]|]. by eapply root_step_moved.
  - destruct Hseed as [Hk Hv1]. cbn. split; [done|]. cbn [negb].
    destruct (idle_fault s s1) as [? ?]; auto. split; [done|]. exists 0. auto with lia.
  - destruct Hseed as [Hk Hv1]. split; [done|]. destruct Hid as [_ _ _ Hl Hr Hu].
    pose proof Hk as (Et & _ & El & Ed & Ew & Ec). split.
    + apply idle_aborted; by rewrite ?Ed, ?El, ?Ec, ?Et.
    + exists 0. split; [lia|]. split; rewrite ?Et, ?Ew, ?El, ?Ed; try done. by rewrite Z.add_0_r, wrap_small.
Qed.

(** ** One root *)

Lemma idle_log s : idle s -> idle (LogPendingSelfTestFailure s).
Proof.
  intros Hid. unfold LogPendingSelfTestFailure. destruct (_ || _); [done|].
  destruct Hid as [? ? ? [] ? ?]. by split.
Qed.

Lemma log_fields s : let s' := LogPendingSelfTestFailure s in
  _dump s' = _dump s /\ _stats s' = _stats s /\ _visited s' = _visited s /\
  _gcDescTrusted (_layout s') = _gcDescTrusted (_layout s).
Proof. cbv zeta. unfold LogPendingSelfTestFailure. by destruct (_ || _). Qed.

Lemma failure_logged_step k s s' :
  failure_logged s -> layout_ok (_layout s) -> layout_ok (_layout s') -> root_step k s s' ->
  failure_logged (LogPendingSelfTestFailure s').
Proof.
  intros [Hl Hw] Hok Hok' [_ Ew [Hst El] _]. unfold failure_logged, LogPendingSelfTestFailure.
  destruct (Hst Hok) as [_ Hperm]. destruct (_gcDescTrusted (_layout s)) eqn:Et.
  - rewrite El, Hl. cbn [negb orb]. rewrite orb_false_r.
    destruct (_gcDescTrusted (_layout s')) eqn:Et'.
    + rewrite (proj2 (Z.eqb_eq _ _)) by (by apply (lo_class _ Hok')).
      cbn. by rewrite El, Hl, Et', Ew, Hw.
    + rewrite (proj2 (Z.eqb_neq _ _)).
      * cbn. by rewrite Et', Ew, Hw.
      * intros E. apply (lo_class _ Hok') in E. congruence.
  - rewrite (Hperm eq_refl), Hl, orb_true_r. rewrite (Hperm eq_refl), Et, Ew, Hw. done.
Qed.

Lemma Traverse_spec root g s :
  idle s -> failure_logged s -> address root <> 0 -> address root ∈ U -> t_inGuardedRegion g = false ->
  exists g' s' k, TraverseFromSingleRoot mem info RegisterHandlers interruptions drainFuel vtFuel
      root (g, s) = ((g', s'), Done tt) /\
    t_inGuardedRegion g' = false /\ idle s' /\ failure_logged s' /\
    0 <= k <= Z.of_nat (size (contents_of s')) /\ traversed s' = u64 (traversed s + k) /\
    faults s <= faults s'.
Proof.
  intros Hid Hlog Ha HrU Hg. pose proof (Core_spec root g s Hid Ha HrU Hg) as Hcore.
  unfold TraverseFromSingleRoot.
  destruct (TraverseFromSingleRootCore _ _ _ _ _ _ root (g, s)) as [[g1 s1] [u| | |]]; try done;
    destruct Hcore as (Hg1 & Hid1 & k & Hk & Hst); eexists g1, _, k; (split; [done|]); (split; [done|]);
    (split; [by apply idle_log|]).
  - split; [eapply failure_logged_step; eauto; [apply Hid|apply Hid1]|].
    destruct (log_fields s1) as (-> & -> & Ev & _). unfold contents_of in *. rewrite Ev. by destruct Hst.
  - assert (root_step k s (OnTraversalAborted s1)) as Hst' by (by destruct Hst).
    split; [eapply failure_logged_step; eauto; [apply Hid|apply Hid1]|].
    destruct (log_fields (OnTraversalAborted s1)) as (-> & -> & Ev & _). unfold contents_of in *.
    rewrite Ev. cbn. rewrite vs_inconsistent_contents. by destruct Hst.
Qed.

Lemma Traverse_all_spec roots : forall g s,
  idle s -> failure_logged s -> Forall (fun root => address root <> 0 /\ address root ∈ U) roots ->
  t_inGuardedRegion g = false ->
  exists g' s', for_each roots (TraverseFromSingleRoot mem info RegisterHandlers interruptions
      drainFuel vtFuel) (g, s) = ((g', s'), Done tt) /\
    t_inGuardedRegion g' = false /\ idle s' /\ failure_logged s'.
Proof.
  induction roots as [|root roots IH]; intros g s Hid Hlog Hall Hg; [by exists g, s|].
  apply Forall_cons in Hall as [[Ha HrU] Hall]. cbn [for_each].
  destruct (Traverse_spec root g s Hid Hlog Ha HrU Hg) as (g1 & s1 & k & E & Hg1 & Hid1 & Hlog1 & _).
  rewrite (bind_done _ _ _ _ _ E). by apply IH.
Qed.

(** The traversal of a root that ends without a fault and without being stopped. *)
Lemma Traverse_complete root g s g' s' :
  idle s -> address root <> 0 -> address root ∈ U -> t_inGuardedRegion g = false ->
  may_continue s = true ->
  TraverseFromSingleRoot mem info RegisterHandlers interruptions drainFuel vtFuel root (g, s) =
    ((g', s'), Done tt) ->
  may_continue s' = true -> faults s' = faults s ->
  explores mem info rank root (contents_of s') [].
Proof.
  intros Hid Ha HrU Hg Hc HE Hc' Hf. unfold TraverseFromSingleRoot in HE.
  destruct (TraverseFromSingleRootCore _ _ _ _ _ _ root (g, s)) as [[g1 s1] [u| | |]] eqn:Hcore; try done.
  2: { simplify_eq. apply may_continue_true in Hc' as [_ Hc'].
       destruct (log_fields (OnTraversalAborted s1)) as (Ed & _). by rewrite Ed in Hc'. }
  simplify_eq. destruct (log_fields s1) as (Ed & _ & Ev & Et). rewrite Ed in Hf.
  assert (may_continue s1 = true) as Hc1.
  { apply may_continue_true. apply may_continue_true in Hc'. by rewrite Ed, Et in Hc'. }
  unfold contents_of. rewrite Ev. clear Hc'. unfold TraverseFromSingleRootCore in Hcore.
  rewrite (bind_done _ _ (g, s) (g, s) s), Hc in Hcore by done. cbn [negb] in Hcore.
  apply may_continue_true in Hc as [Htr Hs].
  assert (0 <= faults s <= 16) as Hf16 by (pose proof (id_faults _ Hid); unfold MaxFaultsPerDump in *; lia).
  assert (vs_inv (faults s) (_visited s)) as Hv by (apply Hid; by rewrite Hs).
  pose proof (SeedRoot_spec mem interruptions root (faults s) s Hf16 Hv Ha) as Hseed.
  unfold mbind at 1, M_bind at 1 in Hcore.
  destruct (RunGuarded_cases (SeedRoot mem interruptions root) g s Hg) as (g2 & Hg2 & [E|E]).
  { intros E. destruct (SeedRoot _ _ _ s) as [s2 r2]. cbn in E. by subst. }
  { rewrite E in Hcore. cbn in Hcore. unfold skip, mret, M_ret in Hcore. simplify_eq. apply may_continue_true in Hc1 as [_ Hbad]. by cbn in Hbad. }
  rewrite E in Hcore. clear E. destruct (SeedRoot _ _ _ s) as [s2 [u2| | |]]; cbn in Hseed; try done.
  - destruct Hseed as (Hk & Hv2 & Hc2 & Hst). cbn [negb] in Hcore.
    assert (forall c, Z.of_nat (rank c) < 2 ^ 31) as Hr31 by (intros c; pose proof (Hrank c); lia).
    destruct (seeded_resume (fun m st => depths_ok st /\ explores mem info rank root m st) root g2 s s2)
      as (Hal & Hp & Hres); auto.
    { by apply explores_drainable. }
    { destruct Hst as [[_ ?]|[_ ?]]; auto. }
    { split; [|rewrite Hc2; by apply explores_root].
      destruct Hst as [[_ ->]|[_ ->]]; repeat constructor. cbn. lia. }
    unfold mbind, M_bind in Hcore.
    destruct (resume _ _ _ _ _ _ _ (g2, s2)) as [[g3 s3] [u3| | |]]; try done.
    unfold modify in Hcore. simplify_eq. destruct Hres as (_ & _ & _ & _ & Hdi). destruct Hk as (_ & _ & _ & Ed2 & _).
    apply Hdi; [exact Hc1|]. cbn in Hf. by rewrite Ed2.
  - cbn in Hcore. unfold skip, mret, M_ret in Hcore. simplify_eq. destruct Hseed as [(_ & _ & _ & Ed2 & _) _]. exfalso.
    cbn in Hf. rewrite Ed2 in Hf. rewrite (wrap_small 32) in Hf by (unfold in_u; lia). lia.
Qed.
End dump.

(** ** Properties *)

(** What bounds a traversal: the words of the memory that look like object addresses are
    fewer than the visited set can hold and than the fuel of the drain loop, and value
    types nest less deeply than the fuel of their recursion. *)
Record bounded (mem : Z -> option Z) (drainFuel vtFuel : nat) (rank : Z -> nat) (U : gset Z) : Prop := {
  bd_nesting : Z.of_nat vtFuel < 2 ^ 31;
  bd_rank : forall k, (rank k < vtFuel)%nat;
  bd_objects : forall a w, mem a = Some w -> IsValidObjectAddress w = true -> w ∈ U;
  bd_entries : Z.of_nat (size U) < MaxEntries;
  bd_fuel : Z.of_nat (size U) < Z.of_nat drainFuel
}.

Lemma new_idle {V} `{VisitedSet V} rank visited tree cache :
  vs_inv 0 visited -> ranked rank cache ->
  idle rank (new_ReferenceChainTraverser visited tree cache) /\
  failure_logged (new_ReferenceChainTraverser visited tree cache).
Proof.
  intros Hv Hr. split; [|done]. split; cbn; try done.
Qed.

(** C1: The traversals of a dump always come back: whatever the memory, the profiling API
    and the allocator do, every root's traversal ends and returns to its caller, no fault
    or exception escapes, the guarded-region flag is clear, at most 16 faults are recovered
    (and exactly 16 when the dump is reported as aborted by faults), the self-test ran on
    at most 8 objects, and its failure was logged once, exactly if the reader is no longer
    trusted. *)
Theorem dump_returns {V} `{VisitedSet V} mem info RegisterHandlers interruptions drainFuel vtFuel
    rank U visited tree cache roots g :
  bounded mem drainFuel vtFuel rank U -> vs_inv 0 visited -> ranked rank cache ->
  Forall (fun root => address root <> 0 /\ address root ∈ U) roots -> t_inGuardedRegion g = false ->
  exists g' s',
    for_each roots (TraverseFromSingleRoot mem info RegisterHandlers interruptions drainFuel vtFuel)
      (g, new_ReferenceChainTraverser visited tree cache) = ((g', s'), Done tt) /\
    t_inGuardedRegion g' = false /\
    0 <= _faultCount (_dump s') <= MaxFaultsPerDump /\
    (WasAbortedByFaults s' = true <-> _faultCount (_dump s') = MaxFaultsPerDump) /\
    _selfTestObjectsChecked (_layout s') <= MaxSelfTestObjects /\
    _warnings s' =
      if _gcDescTrusted (_layout s') then [] else [_selfTestFailedClassID (_layout s')].
Proof.
  intros [] Hv Hr Hroots Hg. destruct (new_idle rank visited tree cache Hv Hr) as [Hid Hlog].
  edestruct (Traverse_all_spec mem info RegisterHandlers interruptions drainFuel vtFuel) as (g' & s' & E & Hg' & Hid' & Hlog'); eauto.
  exists g', s'. split; [done|]. split; [done|]. destruct Hid' as [? Hb ? [] ? ?].
  split; [done|]. split; [unfold WasAbortedByFaults; by rewrite bool_decide_eq_true|].
  split; [lia|]. apply Hlog'.
Qed.

(** Within one root no object is scanned twice, cycles or not: the count of traversed
    objects rises by at most the number of distinct addresses visited. *)
Theorem objects_scanned_once {V} `{VisitedSet V} mem info RegisterHandlers interruptions drainFuel
    vtFuel rank U root g (s : Traverser V) :
  bounded mem drainFuel vtFuel rank U -> idle rank s -> failure_logged s ->
  address root <> 0 -> address root ∈ U -> t_inGuardedRegion g = false ->
  exists g' s' k,
    TraverseFromSingleRoot mem info RegisterHandlers interruptions drainFuel vtFuel root (g, s) =
      ((g', s'), Done tt) /\
    0 <= k <= Z.of_nat (size (contents_of s')) /\
    _objectsTraversed (_stats s') = u64 (_objectsTraversed (_stats s) + k).
Proof.
  intros [] Hid Hlog Ha HrU Hg.
  edestruct (Traverse_spec mem info RegisterHandlers interruptions drainFuel vtFuel) as (g' & s' & k & E & _ & _ & _ & Hk & Ht & _); eauto.
  by exists g', s', k.
Qed.

(** C5: A traversal that ends without a fault and without being stopped is complete and
    sound. The root is visited at depth one; every other visited object is referred to by a
    scanned object and lies one level below it, or lower by as many levels as inline value
    types nest around the reference, which the rank of the referring class bounds; only
    objects no deeper than the maximal tree depth are scanned; every reference of a scanned
    object is visited; and a visited object with pointers was scanned, unless it lies deeper
    than the maximal tree depth. *)
Theorem traversal_explores {V} `{VisitedSet V} mem info RegisterHandlers interruptions drainFuel
    vtFuel rank U root g (s : Traverser V) g' s' :
  bounded mem drainFuel vtFuel rank U -> idle rank s -> address root <> 0 -> address root ∈ U ->
  t_inGuardedRegion g = false -> may_continue s = true ->
  TraverseFromSingleRoot mem info RegisterHandlers interruptions drainFuel vtFuel root (g, s) =
    ((g', s'), Done tt) ->
  may_continue s' = true -> _faultCount (_dump s') = _faultCount (_dump s) ->
  let visited := contents_of s' in
  exists (scanned : gset Z) (D : gmap Z Z),
    visited !! address root = Some (root_class root) /\ D !! address root = Some 1 /\
    (forall a, a ∈ dom visited -> a <> address root -> exists p,
       p ∈ scanned /\ refers mem info root p a /\ one_down rank visited D p a) /\
    (forall p, p ∈ scanned -> exists d, D !! p = Some d /\ d <= MaxTreeDepth) /\
    (forall p a, p ∈ scanned -> refers mem info root p a -> a ∈ dom visited) /\
    (forall a c, visited !! a = Some c -> scannable mem c ->
       a ∈ scanned \/ exists d, D !! a = Some d /\ MaxTreeDepth < d).
Proof.
  intros [] Hid Ha HrU Hg Hc HE Hc' Hf.
  destruct (Traverse_complete mem info RegisterHandlers interruptions drainFuel vtFuel
    bd_nesting0 rank bd_rank0 U bd_objects0 bd_entries0 bd_fuel0 root g s g' s') as (S & D & []); auto.
  exists S, D. destruct ex_root. do 5 (split; [done|]).
  intros a c Hac Hsc. destruct (ex_todo a c Hac Hsc) as [?|[(fr & Hin & _)|?]]; auto.
  by apply elem_of_nil in Hin.
Qed.

(** Distrust and a stop are final for the dump: once the self-test failed, or a fault
    budget, an exception or an unavailable guard stopped the dump, no later root changes
    anything. *)
Theorem stop_is_final {V} `{VisitedSet V} mem info RegisterHandlers interruptions drainFuel vtFuel
    rank roots g (s : Traverser V) :
  idle rank s -> failure_logged s ->
  _gcDescTrusted (_layout s) = false \/ _stopReason (_dump s) <> NoStop ->
  for_each roots (TraverseFromSingleRoot mem info RegisterHandlers interruptions drainFuel vtFuel)
    (g, s) = ((g, s), Done tt).
Proof.
  intros Hid [Hl Hw] Hstop. induction roots as [|root roots IH]; [done|]. cbn [for_each].
  rewrite (bind_done _ _ (g, s) (g, s) tt); [done|].
  unfold TraverseFromSingleRoot, TraverseFromSingleRootCore.
  rewrite (bind_done _ _ (g, s) (g, s) s) by done.
  assert (may_continue s = false) as ->.
  { destruct (may_continue s) eqn:E; [|done]. apply may_continue_true in E as [? ?].
    destruct Hstop; congruence. }
  cbn. f_equal. f_equal. unfold LogPendingSelfTestFailure. rewrite Hl.
  pose proof (lo_class _ (id_layout _ _ Hid)) as Hc. destruct (_gcDescTrusted (_layout s)).
  - rewrite (proj2 (Z.eqb_eq _ _)) by (by apply Hc). done.
  - by rewrite orb_true_r.
Qed.

(** A drain interrupted by a fault has counted at least one object, so that resuming
    it makes progress and the safety net of the resume loop never drops a frame. *)
Theorem faulting_drain_counted {V} `{VisitedSet V} mem info RegisterHandlers interruptions drainFuel
    vtFuel rank U g (s : Traverser V) g' s' r :
  bounded mem drainFuel vtFuel rank U -> alive rank U s -> _stopReason (_dump s) = NoStop ->
  zlen (_traversalStack s) <= Z.of_nat (size (contents_of s)) -> t_inGuardedRegion g = false ->
  RunGuarded RegisterHandlers (DrainTraversalStack mem info interruptions vtFuel drainFuel) (g, s) =
    ((g', s'), r) ->
  _faultCount (_dump s') <> _faultCount (_dump s) ->
  _faultCount (_dump s') = _faultCount (_dump s) + 1 /\
  _objectsTraversed (_stats s') <> _objectsTraversed (_stats s).
Proof.
  intros [] Hal Hs Hp Hg HE Hne.
  assert (potential s <= 0) as Hpot by (unfold potential; lia).
  pose proof (guarded_drain_spec mem info RegisterHandlers interruptions drainFuel vtFuel bd_nesting0
    rank bd_rank0 U bd_objects0 bd_entries0 bd_fuel0 (fun _ _ => True) g s
    (drainable_True mem info rank) Hal Hs Hpot I Hg) as Hd.
  rewrite HE in Hd. destruct r as [[]| | |]; cbn in Hd; try done.
  - destruct Hd as (_ & _ & _ & Ed & _). congruence.
  - destruct Hd as (_ & Hal' & [(_ & _ & ?)|(Ef & k & Hk & Hm)]); [congruence|]. split; [done|].
    apply Z.eqb_neq. eapply counted_change; eauto; [apply Hal|apply Hal'].
  - destruct Hd as (_ & _ & Ed). congruence.
Qed.

(** ** A heap of two objects that refer to each other *)

Module Example_heap.
Definition class_ : Z := 0x20000.
Definition first_ : Z := 0x30000.
Definition second_ : Z := 0x40000.

(** One reference at offset 8 of a 24-byte object. *)
Definition mem (a : Z) : option Z :=
  if a =? class_ then Some Flag_ContainsPointers
  else if a =? class_ - 8 then Some 1
  else if a =? class_ - 16 then Some 8
  else if a =? class_ - 24 then Some (2 ^ 64 - 16)
  else if a =? first_ + 8 then Some second_
  else if a =? second_ + 8 then Some first_
  else None.

Definition objects : gset Z :=
  {[first_]} ∪ {[second_]} ∪ {[Flag_ContainsPointers]} ∪ {[2 ^ 64 - 16]}.

Definition info : ICorProfilerInfo := mkInfo
  (fun _ => Error) (fun _ => Answer 1) (fun _ _ => Error)
  (fun a => if (a =? first_) || (a =? second_) then Answer class_ else Error)
  (fun _ => Answer 24).

Definition smooth (n : nat) : interruption := Smooth.
Definition registered (n : nat) : bool * bool := (true, true).
Definition no_rank (c : Z) : nat := 0.
Definition empty_set : VisitedObjectSet :=
  mkSet (replicate 512 0) (replicate 512 (mkEntry 0)) [] 0 0 0 false 511.
Definition empty_cache : InlineVTCache := mkCache ∅ ∅ false.
Definition start : Traverser VisitedObjectSet := new_ReferenceChainTraverser empty_set [] empty_cache.
Definition guard : Guard := mkGuard false false 0.
Definition root : RootInfo := mkRootInfo first_ Stack class_ 24 None.

Lemma objects_bounded : bounded mem 5 1 no_rank objects.
Proof.
  split.
  - reflexivity.
  - intros k. apply Nat.lt_0_1.
  - intros a w. unfold mem, objects. rewrite !elem_of_union, !elem_of_singleton.
    repeat case_if; intros Hw Hv; simplify_eq; try discriminate Hv; tauto.
  - reflexivity.
  - reflexivity.
Qed.

Lemma empty_wf : vs_inv 0 empty_set.
Proof.
  destruct (new_ok 512) as (s & E & Hwf & _); [done|].
  assert (new_VisitedObjectSet 512 = Some empty_set) as E' by reflexivity.
  rewrite E' in E. by simplify_eq.
Qed.

Lemma empty_ranked : ranked no_rank empty_cache.
Proof. by intros k fields fld Hk. Qed.

Lemma root_in : first_ ∈ objects.
Proof. unfold objects. set_solver. Qed.
End Example_heap.

Import Example_heap.

Lemma dump_returns_witness :
  exists g' s', for_each [root; root] (TraverseFromSingleRoot mem info registered smooth 5 1)
      (guard, start) = ((g', s'), Done tt) /\ 0 <= _faultCount (_dump s') <= 16.
Proof.
  destruct (dump_returns mem info registered smooth 5 1 no_rank objects empty_set [] empty_cache
    [root; root] guard) as (g' & s' & E & _ & Hf & _).
  - exact objects_bounded.
  - exact empty_wf.
  - exact empty_ranked.
  - repeat constructor; try discriminate; exact root_in.
  - reflexivity.
  - exists g', s'. split; [exact E|exact Hf].
Defined.

(** Both objects are scanned once although they form a cycle. *)
Definition traversed_heap : Guard * Traverser VisitedObjectSet :=
  Eval vm_compute in fst (TraverseFromSingleRoot mem info registered smooth 5 1 root (guard, start)).

Lemma traversal_explores_witness :
  may_continue (snd traversed_heap) = true /\
  exists scanned : gset Z, forall p a, p ∈ scanned -> refers mem info root p a ->
    a ∈ dom (contents_of (snd traversed_heap)).
Proof.
  destruct (new_idle no_rank empty_set [] empty_cache empty_wf empty_ranked) as [Hid _].
  split; [reflexivity|].
  destruct (traversal_explores mem info registered smooth 5 1 no_rank objects root guard start
    (fst traversed_heap) (snd traversed_heap)) as (S & D & _ & _ & _ & _ & Hc & _).
  - exact objects_bounded.
  - exact Hid.
  - discriminate.
  - exact root_in.
  - reflexivity.
  - reflexivity.
  - vm_compute. reflexivity.
  - reflexivity.
  - reflexivity.
  - exists S. exact Hc.
Defined.

(** The second object's reference is unreadable. *)
Definition torn_mem (a : Z) : option Z := if a =? second_ + 8 then None else mem a.

(** The root seeded, about to be drained. *)
Definition seeded_heap : Traverser VisitedObjectSet :=
  Eval vm_compute in fst (SeedRoot torn_mem smooth root start).

Lemma seeded_heap_alive : alive no_rank objects seeded_heap.
Proof.
  destruct (new_idle no_rank empty_set [] empty_cache empty_wf empty_ranked) as [Hid _].
  assert (SeedRoot torn_mem smooth root start = (seeded_heap, Done tt)) as E by (vm_compute; reflexivity).
  pose proof (SeedRoot_spec torn_mem smooth root 0 start ltac:(done) empty_wf ltac:(done)) as Hs.
  rewrite E in Hs. destruct Hs as (Hk & Hv & Hc & Hst).
  apply (seeded_alive no_rank objects root start seeded_heap Hid eq_refl root_in Hk Hv Hc).
  destruct Hst as [[_ ?]|[_ ?]]; auto.
Qed.
