(* ===== verification/Sampling.v ===== *)
(** * Sampling decisions

    Model of [AdaptiveSampler.cpp], [GenericSampler.cpp], [GroupSampler.h] and
    [PoissonAllocationSampler.cpp]: which events a provider keeps, and the counts from
    which the kept ones are scaled up.

    Floating-point values are of an abstract type with the operations the source uses, so
    that no theorem depends on rounding; random draws are arguments.  Calls on one
    [Counts] object come from many threads: [AddSample] is also modelled as the steps of
    its compare-and-exchange loop, interleaved by a schedule. *)
From Stdlib Require QArith.
From stdpp Require Import base gmap list strings.
From S2P Require Import Prelude.

(** ** Floating-point numbers *)

Class Double := {
  double : Type;
  dlt : double -> double -> bool;
  dle : double -> double -> bool;
  deq : double -> double -> bool;
  dadd : double -> double -> double;
  dsub : double -> double -> double;
  dmul : double -> double -> double;
  ddiv : double -> double -> double;
  of_int : Z -> double;
  isnan : double -> bool;
  llround : double -> Z;
  dpow : Z -> double -> double          (* pow(lookback, exponent) *)
}.

(** [std::min] and [std::max]. *)
Definition dmin `{Double} (a b : double) : double := if dlt b a then b else a.
Definition dmax `{Double} (a b : double) : double := if dlt a b then b else a.

(** ** Counts *)

Record Counts := mkCounts { _testCount : Z; _sampleCount : Z }.

Definition AddTest (c : Counts) : Counts := mkCounts (i64 (_testCount c + 1)) (_sampleCount c).

(** [AddSample(limit)], run without interference. *)
Definition AddSample_limit (limit : Z) (c : Counts) : Counts * bool :=
  let newValue := Z.min (i64 (_sampleCount c + 1)) limit in
  (mkCounts (_testCount c) newValue, newValue <? limit).

Definition AddSample (c : Counts) : Counts := mkCounts (_testCount c) (i64 (_sampleCount c + 1)).
Definition ResetCounts : Counts := mkCounts 0 0.

(** ** AdaptiveSampler *)

Section adaptive.
Context `{Double}.

Record AdaptiveSampler := mkSampler {
  _emaAlpha : double;
  _samplesPerWindow : Z;
  _countsRef : bool;                 (* which of the two slots is current *)
  _probability : double;
  _samplesBudget : Z;
  _totalCountRunningAverage : double;
  _avgSamples : double;
  _budgetLookback : Z;
  _budgetAlpha : double;
  _countsSlotIndex : bool;
  _countsSlots : Counts * Counts;
  _rollWindowCallback : bool         (* there is a callback *)
}.

Definition ComputeIntervalAlpha (lookback : Z) : double :=
  dsub (of_int 1) (dpow lookback (ddiv (of_int (-1)) (of_int lookback))).

Definition new_AdaptiveSampler (samplesPerWindow averageLookback budgetLookback : Z)
    (callback : bool) : AdaptiveSampler :=
  let averageLookback := if averageLookback <? 1 then 1 else averageLookback in
  let budgetLookback := if budgetLookback <? 1 then 1 else budgetLookback in
  {| _emaAlpha := ComputeIntervalAlpha averageLookback;
     _samplesPerWindow := samplesPerWindow; _countsRef := false;
     _probability := of_int 1;
     _samplesBudget := i64 (samplesPerWindow + i64 (budgetLookback * samplesPerWindow));
     _totalCountRunningAverage := of_int 0; _avgSamples := of_int 0;
     _budgetLookback := budgetLookback; _budgetAlpha := ComputeIntervalAlpha budgetLookback;
     _countsSlotIndex := false; _countsSlots := (ResetCounts, ResetCounts);
     _rollWindowCallback := callback |}.

Definition slot (b : bool) (p : Counts * Counts) : Counts := if b then p.2 else p.1.
Definition set_slot (b : bool) (c : Counts) (p : Counts * Counts) : Counts * Counts :=
  if b then (p.1, c) else (c, p.2).

Definition counts (s : AdaptiveSampler) : Counts := slot (_countsRef s) (_countsSlots s).
Definition with_slots (p : Counts * Counts) (s : AdaptiveSampler) : AdaptiveSampler :=
  {| _emaAlpha := _emaAlpha s; _samplesPerWindow := _samplesPerWindow s;
     _countsRef := _countsRef s; _probability := _probability s;
     _samplesBudget := _samplesBudget s;
     _totalCountRunningAverage := _totalCountRunningAverage s; _avgSamples := _avgSamples s;
     _budgetLookback := _budgetLookback s; _budgetAlpha := _budgetAlpha s;
     _countsSlotIndex := _countsSlotIndex s; _countsSlots := p;
     _rollWindowCallback := _rollWindowCallback s |}.
Definition with_counts (c : Counts) (s : AdaptiveSampler) : AdaptiveSampler :=
  with_slots (set_slot (_countsRef s) c (_countsSlots s)) s.

(** [u]: what [NextDouble] draws. *)
Definition Sample (u : double) (s : AdaptiveSampler) : AdaptiveSampler * bool :=
  let c := AddTest (counts s) in
  if dlt u (_probability s) then
    let '(c, r) := AddSample_limit (_samplesBudget s) c in (with_counts c s, r)
  else (with_counts c s, false).

Definition Keep (s : AdaptiveSampler) : AdaptiveSampler * bool :=
  (with_counts (AddSample (AddTest (counts s))) s, true).

Definition Drop (s : AdaptiveSampler) : AdaptiveSampler * bool :=
  (with_counts (AddTest (counts s)) s, false).

(** The new average and the budget it gives. *)
Definition CalculateBudgetEma (sampledCount : Z) (s : AdaptiveSampler) : double * Z :=
  let avg :=
    if isnan (_avgSamples s) || dle (_budgetAlpha s) (of_int 0) then of_int sampledCount
    else dadd (_avgSamples s)
           (dmul (_budgetAlpha s) (dsub (of_int sampledCount) (_avgSamples s))) in
  (avg, llround (dmul (dmax (dsub (of_int (_samplesPerWindow s)) avg) (of_int 0))
                   (of_int (_budgetLookback s)))).

(** [true]: the callback of the owner runs. *)
Definition RollWindow (s : AdaptiveSampler) : AdaptiveSampler * bool :=
  let old := _countsSlotIndex s in
  let c := slot old (_countsSlots s) in
  let index := negb old in
  let '(avg, budget) := CalculateBudgetEma (_sampleCount c) s in
  let total :=
    if deq (_totalCountRunningAverage s) (of_int 0) || dle (_emaAlpha s) (of_int 0)
    then of_int (_testCount c)
    else dadd (_totalCountRunningAverage s)
           (dmul (_emaAlpha s) (dsub (of_int (_testCount c)) (_totalCountRunningAverage s))) in
  ({| _emaAlpha := _emaAlpha s; _samplesPerWindow := _samplesPerWindow s; _countsRef := index;
      _probability := if dle total (of_int 0) then of_int 1
                      else dmin (ddiv (of_int budget) total) (of_int 1);
      _samplesBudget := budget; _totalCountRunningAverage := total; _avgSamples := avg;
      _budgetLookback := _budgetLookback s; _budgetAlpha := _budgetAlpha s;
      _countsSlotIndex := index; _countsSlots := set_slot old ResetCounts (_countsSlots s);
      _rollWindowCallback := _rollWindowCallback s |}, _rollWindowCallback s).

Definition Stop (s : AdaptiveSampler) : AdaptiveSampler :=
  {| _emaAlpha := _emaAlpha s; _samplesPerWindow := _samplesPerWindow s;
     _countsRef := _countsRef s; _probability := _probability s;
     _samplesBudget := _samplesBudget s;
     _totalCountRunningAverage := _totalCountRunningAverage s; _avgSamples := _avgSamples s;
     _budgetLookback := _budgetLookback s; _budgetAlpha := _budgetAlpha s;
     _countsSlotIndex := _countsSlotIndex s; _countsSlots := _countsSlots s;
     _rollWindowCallback := false |}.

(** Tests, samples, budget, probability and average. *)
Definition GetInternalState (s : AdaptiveSampler) : Z * Z * Z * double * double :=
  (_testCount (counts s), _sampleCount (counts s), _samplesBudget s, _probability s,
   _totalCountRunningAverage s).

(** ** GenericSampler *)

Definition SamplingWindow : Z := 500.    (* milliseconds *)

Definition SamplingWindowsPerRecording (intervalSec samplingWindowMs : Z) : Z :=
  i32 (Z.quot (intervalSec * 1000) samplingWindowMs).

Definition SamplesPerWindow (samplesLimit samplingWindowsPerRecording : Z) : Z :=
  if samplingWindowsPerRecording =? 0 then samplesLimit
  else Z.quot samplesLimit samplingWindowsPerRecording.

Definition new_GenericSampler (samplesLimit uploadInterval : Z) : AdaptiveSampler :=
  let windows := SamplingWindowsPerRecording uploadInterval SamplingWindow in
  new_AdaptiveSampler (SamplesPerWindow samplesLimit windows) windows 16 true.

(** ** GroupSampler *)

Context {K : Type} `{Countable K}.

Record GroupInfo := mkInfo {
  RealCount : Z; SampledCount : Z; RealValue : Z; SampledValue : Z }.

Record GroupSampler := mkGroupSampler {
  _sampler : AdaptiveSampler;
  _knownGroups : gset K;
  _groups : gmap K GroupInfo;
  _keepAtLeastOne : bool }.

Definition new_GroupSampler (samplesLimit uploadInterval : Z) (keepAtLeastOne : bool)
    : GroupSampler :=
  mkGroupSampler (new_GenericSampler samplesLimit uploadInterval) ∅ ∅ keepAtLeastOne.

Definition AddInGroup (group : K) (value : Z) (groups : gmap K GroupInfo) : gmap K GroupInfo :=
  match groups !! group with
  | Some i => <[group := mkInfo (u64 (RealCount i + 1)) (SampledCount i)
                           (u64 (RealValue i + value)) (SampledValue i)]> groups
  | None => <[group := mkInfo 1 0 value 0]> groups
  end.

(** What [Sample] does through [pInfo] when the event is kept. *)
Definition add_sampled (value : Z) (i : GroupInfo) : GroupInfo :=
  mkInfo (RealCount i) (u64 (SampledCount i + 1)) (RealValue i) (u64 (SampledValue i + value)).

Definition SampleGroup (group : K) (value : Z) (u : double) (s : GroupSampler)
    : GroupSampler * bool :=
  let groups := AddInGroup group value (_groups s) in
  let inserted := bool_decide (group ∉ _knownGroups s) in
  let known := {[group]} ∪ _knownGroups s in
  if inserted && _keepAtLeastOne s then
    let '(sampler, r) := Keep (_sampler s) in
    (mkGroupSampler sampler known (alter (add_sampled value) group groups) (_keepAtLeastOne s), r)
  else
    let '(sampler, sampled) := Sample u (_sampler s) in
    (mkGroupSampler sampler known
       (if sampled then alter (add_sampled value) group groups else groups)
       (_keepAtLeastOne s), sampled).

(** The groups with a kept event, with their counts; all counts start again from zero. *)
Definition GetGroups (s : GroupSampler) : GroupSampler * list (K * GroupInfo) :=
  (mkGroupSampler (_sampler s) (_knownGroups s) ((fun _ => mkInfo 0 0 0 0) <$> _groups s)
     (_keepAtLeastOne s),
   filter (fun p => 0 < SampledCount p.2) (map_to_list (_groups s))).

Definition OnRollWindow (s : GroupSampler) : GroupSampler :=
  mkGroupSampler (_sampler s) ∅ (_groups s) (_keepAtLeastOne s).

(** The timer: the window of the sampler rolls, then its callback runs. *)
Definition roll (s : GroupSampler) : GroupSampler :=
  let '(sampler, callback) := RollWindow (_sampler s) in
  let s := mkGroupSampler sampler (_knownGroups s) (_groups s) (_keepAtLeastOne s) in
  if callback : bool then OnRollWindow s else s.
End adaptive.

(** ** PoissonAllocationSampler *)

Record PoissonAllocationSampler := mkPoisson { _meanInterval : Z; _bytesUntilSample : Z }.

(** [draw]: what the exponential distribution gives, truncated to [uint64_t]. *)
Definition NextSamplingDistance (draw : Z) : Z := Z.max (u64 draw) 1.

Definition new_PoissonAllocationSampler (meanSamplingInterval draw : Z) : PoissonAllocationSampler :=
  mkPoisson meanSamplingInterval (i64 (NextSamplingDistance draw)).

Definition ShouldSample (allocationSize draw : Z) (p : PoissonAllocationSampler)
    : PoissonAllocationSampler * bool :=
  let left := i64 (_bytesUntilSample p - i64 allocationSize) in
  if 0 <? left then (mkPoisson (_meanInterval p) left, false)
  else (mkPoisson (_meanInterval p) (i64 (NextSamplingDistance draw)), true).

(** ** The compare-and-exchange loop of [AddSample], step by step *)

Inductive caller := Ready | Loaded (previousValue : Z) | Returned (sampled : bool).

#[export] Instance caller_eq_dec : EqDecision caller.
Proof. solve_decision. Defined.

(** One step of a thread on the shared counter. *)
Definition caller_step (limit : Z) (count : Z) (c : caller) : Z * caller :=
  match c with
  | Ready => (count, Loaded count)
  | Loaded previousValue =>
      let newValue := Z.min (i64 (previousValue + 1)) limit in
      if count =? previousValue then (newValue, Returned (newValue <? limit))
      else (count, Ready)
  | Returned b => (count, Returned b)
  end.

(** The threads named by the schedule take one step each. *)
Fixpoint interleave (limit : Z) (schedule : list nat) (count : Z) (ts : list caller)
    : Z * list caller :=
  match schedule with
  | [] => (count, ts)
  | i :: schedule =>
      match ts !! i with
      | Some c =>
          let '(count, c) := caller_step limit count c in
          interleave limit schedule count (<[i := c]> ts)
      | None => interleave limit schedule count ts
      end
  end.

(** ** Interleaved calls *)

Definition count_if (p : caller -> bool) (ts : list caller) : Z :=
  foldr (fun c n => (if p c then 1 else 0) + n) 0 ts.

Definition is_returned (c : caller) : bool := match c with Returned _ => true | _ => false end.
Definition is_accepted (c : caller) : bool := match c with Returned b => b | _ => false end.

Lemma count_if_insert p ts i c c' :
  ts !! i = Some c ->
  count_if p (<[i := c']> ts) = count_if p ts - (if p c then 1 else 0) + (if p c' then 1 else 0).
Proof.
  revert i. induction ts as [|t ts IH]; intros [|i] Hi; [done|done| |].
  - cbn in Hi |- *. simplify_eq. lia.
  - specialize (IH i Hi). change (<[S i := c']> (t :: ts)) with (t :: <[i := c']> ts).
    unfold count_if in *. cbn [foldr]. lia.
Qed.

Lemma count_if_nonneg p ts : 0 <= count_if p ts.
Proof.
  unfold count_if in *. induction ts as [|t ts IH]; cbn [foldr]; [lia|]. destruct (p t); lia.
Qed.

(** The counter and the answers, after [returned] of the calls have ended. *)
Definition budget_inv (limit c0 count : Z) (ts : list caller) : Prop :=
  count = Z.min (c0 + count_if is_returned ts) limit /\
  count_if is_accepted ts = Z.min (count_if is_returned ts) (Z.max 0 (limit - 1 - c0)).

Lemma budget_step limit c0 count ts i c :
  0 <= c0 <= limit -> limit < 2 ^ 63 - 1 -> budget_inv limit c0 count ts -> ts !! i = Some c ->
  budget_inv limit c0 (caller_step limit count c).1 (<[i := (caller_step limit count c).2]> ts).
Proof.
  intros Hc Hl [E1 E2] Hi. pose proof (count_if_nonneg is_returned ts) as Hr.
  assert (forall c', is_returned c' = false -> is_returned c = false ->
    budget_inv limit c0 count (<[i := c']> ts)) as Hsame.
  { intros c' H1 H2. unfold budget_inv.
    rewrite !(count_if_insert _ _ _ _ _ Hi), H1, H2.
    assert (is_accepted c' = false) as -> by (by destruct c').
    assert (is_accepted c = false) as -> by (by destruct c). lia. }
  destruct c as [|prev|b]; cbn [caller_step].
  - by apply Hsame.
  - cbv zeta. destruct (Z.eqb_spec count prev) as [->|Hne]; cbn [fst snd]; [|by apply Hsame].
    rewrite swrap_small by (unfold in_s; cbn; lia).
    unfold budget_inv. rewrite !(count_if_insert _ _ _ _ _ Hi). cbn [is_returned is_accepted].
    destruct (Z.ltb_spec (Z.min (prev + 1) limit) limit); lia.
  - cbn [fst snd]. rewrite list_insert_id by done. done.
Qed.

Lemma interleave_inv limit c0 schedule : forall count ts,
  0 <= c0 <= limit -> limit < 2 ^ 63 - 1 -> budget_inv limit c0 count ts ->
  let r := interleave limit schedule count ts in budget_inv limit c0 r.1 r.2.
Proof.
  induction schedule as [|i schedule IH]; intros count ts Hc Hl Hinv; [done|]. cbn [interleave].
  destruct (ts !! i) as [c|] eqn:Hi; [|by apply IH].
  pose proof (budget_step limit c0 count ts i c Hc Hl Hinv Hi) as Hs.
  destruct (caller_step limit count c) as [count' c']. by apply IH.
Qed.

Lemma count_if_ready p n : p Ready = false -> count_if p (replicate n Ready) = 0.
Proof. intros Hp. induction n; cbn; [done|]. by rewrite Hp. Qed.

(** However the threads that share a window interleave their loads and exchanges, no
    decision is lost or duplicated: the counter holds the calls that returned, capped by
    the budget, and of [r] calls exactly the first [budget - 1 - c0] are accepted, so that
    a window never grants more than its budget allows. *)
Theorem concurrent_budget limit c0 schedule n :
  0 <= c0 <= limit -> limit < 2 ^ 63 - 1 ->
  let '(count, ts) := interleave limit schedule c0 (replicate n Ready) in
  let r := count_if is_returned ts in
  count = Z.min (c0 + r) limit /\
  count_if is_accepted ts = Z.min r (Z.max 0 (limit - 1 - c0)).
Proof.
  intros Hc Hl. pose proof (interleave_inv limit c0 schedule c0 (replicate n Ready) Hc Hl) as Hinv.
  destruct (interleave _ _ _ _) as [count ts]. apply Hinv.
  split; rewrite !count_if_ready by done; lia.
Qed.

(** A kept event counts above the limit, and the next tested one lowers the count again. *)
Example keep_count_lost :
  let c := AddSample (AddSample (AddSample ResetCounts)) in
  _sampleCount c = 3 /\ AddSample_limit 1 c = (mkCounts 0 1, false).
Proof. done. Qed.

(** ** Group counts *)

Section groups.
Context `{Double} {K : Type} `{Countable K}.

Inductive group_op :=
| OpSample (group : K) (value : Z) (u : double)
| OpRoll
| OpGet.

(** A kept or dropped event. *)
Definition event : Type := K * Z * bool.

(** The state with two ghost logs: the events since the last [GetGroups], and the groups
    seen since the last window began. *)
Definition group_step (o : group_op) (x : GroupSampler (K := K) * list event * gset K)
    : GroupSampler (K := K) * list event * gset K :=
  let '(s, log, seen) := x in
  match o with
  | OpSample g v u =>
      let '(s, r) := SampleGroup g v u s in (s, log ++ [(g, v, r)], {[g]} ∪ seen)
  | OpRoll => (roll s, log, ∅)
  | OpGet => ((GetGroups s).1, [], seen)
  end.

Definition of_group (g : K) (l : list event) : list event := filter (fun e => e.1.1 = g) l.
Definition kept (l : list event) : list event := filter (fun e => e.2 = true) l.
Definition value_sum (l : list event) : Z := foldr (fun e n => e.1.2 + n) 0 l.

(** The counts a group should have after these events. *)
Definition tally (g : K) (l : list event) : GroupInfo :=
  let l := of_group g l in
  mkInfo (u64 (zlen l)) (u64 (zlen (kept l))) (u64 (value_sum l)) (u64 (value_sum (kept l))).

Definition info_of (s : GroupSampler (K := K)) (g : K) : GroupInfo :=
  default (mkInfo 0 0 0 0) (_groups s !! g).

Lemma value_sum_app l m : value_sum (l ++ m) = value_sum l + value_sum m.
Proof. unfold value_sum in *. induction l as [|e l IH]; cbn [app foldr]; [done|]. rewrite IH. lia. Qed.

Lemma tally_app g l (e : event) :
  tally g (l ++ [e]) =
    if decide (e.1.1 = g) then
      let i := tally g l in
      let i := mkInfo (u64 (RealCount i + 1)) (SampledCount i) (u64 (RealValue i + e.1.2)) (SampledValue i) in
      if e.2 then add_sampled e.1.2 i else i
    else tally g l.
Proof.
  unfold tally, of_group, kept. rewrite filter_app, filter_cons, filter_nil.
  destruct (decide (e.1.1 = g)); [|by rewrite app_nil_r].
  rewrite filter_app, filter_cons, filter_nil. rewrite !value_sum_app, !length_app. cbn [length].
  unfold add_sampled. destruct e as [[g' v] b]. cbn [fst snd RealCount SampledCount RealValue SampledValue].
  assert (value_sum [(g', v, b)] = v) as -> by (cbn; lia).
  destruct b.
  - rewrite decide_True by done. cbn [length].
    assert (value_sum [(g', v, true)] = v) as -> by (cbn; lia).
    rewrite !u64_add, !Nat2Z.inj_add. done.
  - rewrite decide_False by done. rewrite !u64_add, !Nat2Z.inj_add. cbn [length value_sum foldr].
    by rewrite !Z.add_0_r.
Qed.

Definition zero_info : GroupInfo := mkInfo 0 0 0 0.
Definition add_real (v : Z) (i : GroupInfo) : GroupInfo :=
  mkInfo (u64 (RealCount i + 1)) (SampledCount i) (u64 (RealValue i + v)) (SampledValue i).

Lemma AddInGroup_lookup g v (m : gmap K GroupInfo) g' :
  in_u 64 v ->
  AddInGroup g v m !! g' =
    if decide (g' = g) then Some (add_real v (default zero_info (m !! g))) else m !! g'.
Proof.
  intros Hv. unfold AddInGroup. destruct (m !! g) as [i|] eqn:E.
  - destruct (decide (g' = g)) as [->|]; [by rewrite lookup_insert_eq|by rewrite lookup_insert_ne].
  - destruct (decide (g' = g)) as [->|]; [|by rewrite lookup_insert_ne].
    rewrite lookup_insert_eq. unfold add_real. cbn [default from_option id zero_info RealCount SampledCount RealValue SampledValue].
    by rewrite !Z.add_0_l, (wrap_small 64 v), (wrap_small 64 1) by (done || unfold in_u; lia).
Qed.

(** What one call does to the counts of every group. *)
Lemma SampleGroup_info g v u (s : GroupSampler (K := K)) g' :
  in_u 64 v ->
  let '(s', r) := SampleGroup g v u s in
  info_of s' g' =
    if decide (g' = g) then
      let i := add_real v (info_of s g) in if r : bool then add_sampled v i else i
    else info_of s g'.
Proof.
  intros Hv.
  assert (forall r : bool, default zero_info ((if r then alter (add_sampled v) g (AddInGroup g v (_groups s))
      else AddInGroup g v (_groups s)) !! g') =
    if decide (g' = g) then
      let i := add_real v (info_of s g) in if r then add_sampled v i else i
    else info_of s g') as Hgen.
  { intros r. unfold info_of. destruct r; rewrite ?lookup_alter; repeat case_decide; subst;
      rewrite ?AddInGroup_lookup by done; repeat case_decide; done. }
  unfold SampleGroup. destruct (bool_decide _ && _).
  - apply (Hgen true).
  - destruct (Sample u (_sampler s)) as [sampler r]. apply (Hgen r).
Qed.

Lemma Sample_callback u (s : AdaptiveSampler) : _rollWindowCallback (Sample u s).1 = _rollWindowCallback s.
Proof. unfold Sample. destruct (dlt _ _); [|done]. by destruct (AddSample_limit _ _). Qed.

Lemma SampleGroup_known g v u (s : GroupSampler (K := K)) :
  let '(s', r) := SampleGroup g v u s in
  _knownGroups s' = {[g]} ∪ _knownGroups s /\ _keepAtLeastOne s' = _keepAtLeastOne s /\
  _rollWindowCallback (_sampler s') = _rollWindowCallback (_sampler s) /\
  (_keepAtLeastOne s = true -> g ∉ _knownGroups s -> r = true).
Proof.
  unfold SampleGroup. destruct (bool_decide (g ∉ _knownGroups s) && _keepAtLeastOne s) eqn:E; [done|].
  pose proof (Sample_callback u (_sampler s)). destruct (Sample u (_sampler s)) as [sampler r].
  repeat (split; [done|]). intros Hk Hg. rewrite Hk, andb_true_r in E. by apply bool_decide_eq_false in E.
Qed.

Record group_inv (x : GroupSampler (K := K) * list event * gset K) : Prop := {
  gi_info : forall g, info_of x.1.1 g = tally g x.1.2;
  gi_known : _knownGroups x.1.1 = x.2;
  gi_callback : _rollWindowCallback (_sampler x.1.1) = true
}.

Definition op_ok (o : group_op) : Prop := match o with OpSample _ v _ => in_u 64 v | _ => True end.

Lemma group_step_inv o x : op_ok o -> group_inv x -> group_inv (group_step o x).
Proof.
  destruct x as [[s log] seen]. intros Ho [Hi Hk Hc]. cbn [fst snd] in *. destruct o as [g v u| |]; cbn [group_step].
  - pose proof (fun g' => SampleGroup_info g v u s g' Ho) as HI. pose proof (SampleGroup_known g v u s) as HK.
    destruct (SampleGroup g v u s) as [s' r]. destruct HK as (HK1 & _ & HK3 & _).
    split; cbn [fst snd]; [|by rewrite HK1, Hk|by rewrite HK3].
    intros g'. rewrite tally_app, HI. cbn [fst snd].
    destruct (decide (g' = g)) as [->|Hne]; [rewrite decide_True by done|rewrite decide_False by done; apply Hi].
    rewrite Hi. done.
  - unfold roll. destruct (RollWindow (_sampler s)) as [sampler c] eqn:E.
    assert (c = true /\ _rollWindowCallback sampler = true) as [-> Hc'].
    { unfold RollWindow in E. destruct (CalculateBudgetEma _ _). by simplify_eq. }
    by split.
  - split; cbn [fst snd]; [|done|done]. intros g. unfold info_of, GetGroups. cbn. rewrite lookup_fmap.
    by destruct (_groups s !! g).
Qed.

Lemma group_steps_inv os x : Forall op_ok os -> group_inv x -> group_inv (foldl (fun x o => group_step o x) x os).
Proof.
  revert x. induction os as [|o os IH]; intros x Hos Hx; [done|]. apply Forall_cons in Hos as [Ho Hos].
  cbn. apply IH; [done|]. by apply group_step_inv.
Qed.

Lemma new_group_inv samplesLimit uploadInterval keep :
  group_inv (new_GroupSampler samplesLimit uploadInterval keep, [], ∅).
Proof. split; done. Qed.

(** The group sampler accounts for every event: after any sequence of events, window
    rolls and harvests, a harvest returns exactly the groups with a kept event since the
    previous harvest, with the number and total value of their events and of their kept
    events; and with the at-least-one policy the first event of a group in a window is
    always kept. *)
Theorem group_sampler_accounts samplesLimit uploadInterval keep os :
  Forall op_ok os ->
  let '(s, log, seen) := foldl (fun x o => group_step o x)
    (new_GroupSampler samplesLimit uploadInterval keep, [], ∅) os in
  (forall g i, (g, i) ∈ (GetGroups s).2 <-> i = tally g log /\ 0 < SampledCount (tally g log)) /\
  (forall g v u, _keepAtLeastOne s = true -> g ∉ seen -> (SampleGroup g v u s).2 = true).
Proof.
  intros Hos. pose proof (group_steps_inv os _ Hos (new_group_inv samplesLimit uploadInterval keep)) as Hinv.
  destruct (foldl _ _ os) as [[s log] seen]. destruct Hinv as [Hi Hk _]. cbn [fst snd] in *. split.
  - intros g i. cbn [GetGroups snd]. rewrite list_elem_of_filter, elem_of_map_to_list.
    cbn [snd]. specialize (Hi g).
    unfold info_of in Hi. rewrite <- Hi. destruct (_groups s !! g) as [i'|];
      cbn [default from_option id SampledCount]; split.
    + intros [? [= ->]]. by split.
    + intros [-> ?]. by split.
    + intros [_ ?]. done.
    + intros [_ ?]. lia.
  - intros g v u Hkeep Hg. pose proof (SampleGroup_known g v u s) as HK.
    destruct (SampleGroup g v u s) as [s' r]. destruct HK as (_ & _ & _ & HK). apply HK; [done|]. by rewrite Hk.
Qed.
End groups.

(** ** Exact rationals, for examples *)

Definition Qlt_b (x y : QArith_base.Q) : bool := negb (QArith_base.Qle_bool y x).

(** Halves are rounded away from zero. *)
Definition Qround (x : QArith_base.Q) : Z :=
  let n := QArith_base.Qnum x in
  let d := Zpos (QArith_base.Qden x) in
  Z.sgn n * ((2 * Z.abs n + d) / (2 * d)).

(** Powers are exact for the exponent base one, the case of the example below. *)
#[local] Instance exact_double : Double := {
  double := QArith_base.Q;
  dlt := Qlt_b;
  dle := QArith_base.Qle_bool;
  deq := QArith_base.Qeq_bool;
  dadd := QArith_base.Qplus;
  dsub := QArith_base.Qminus;
  dmul := QArith_base.Qmult;
  ddiv := QArith_base.Qdiv;
  of_int := QArith_base.inject_Z;
  isnan _ := false;
  llround := Qround;
  dpow l _ := if l =? 1 then QArith_base.inject_Z 1 else QArith_base.Qmake 1 2
}.

(** Budget and probability over four windows, with both lookbacks one. *)
Example RollWindow_budgets :
  let s0 := new_AdaptiveSampler 2 1 1 false in
  let s1 := (RollWindow (Drop (Keep s0).1).1).1 in
  let s2 := (RollWindow (Drop (Keep (Keep s1).1).1).1).1 in
  let s3 := (RollWindow (Drop (Drop (Drop s2).1).1).1).1 in
  _samplesBudget <$> [s0; s1; s2; s3] = [4; 1; 0; 2] /\
  deq (_probability s1) (QArith_base.Qmake 1 2) = true /\
  deq (_probability s2) (of_int 0) = true /\
  deq (_probability s3) (QArith_base.Qmake 2 3) = true.
Proof. vm_compute. done. Qed.

Definition witness_ops : list (group_op (K := nat)) :=
  [OpSample 1%nat 10 (of_int 0); OpSample 1%nat 5 (of_int 2); OpGet; OpSample 2%nat 7 (of_int 0);
   OpRoll; OpSample 1%nat 3 (of_int 0); OpSample 1%nat 4 (of_int 2)].

(** ** Allocation sampling *)

(** The bytes allocated since the last sample, and the distance drawn for the next. *)
Fixpoint poisson_spec (since distance : Z) (allocs : list (Z * Z)) : list bool :=
  match allocs with
  | [] => []
  | (size, draw) :: allocs =>
      if distance <=? since + size then true :: poisson_spec 0 (Z.max draw 1) allocs
      else false :: poisson_spec (since + size) distance allocs
  end.

Fixpoint poisson_run (p : PoissonAllocationSampler) (allocs : list (Z * Z)) : list bool :=
  match allocs with
  | [] => []
  | (size, draw) :: allocs =>
      let '(p, r) := ShouldSample size draw p in r :: poisson_run p allocs
  end.

Lemma poisson_run_ok allocs : forall p since distance,
  Forall (fun a => 0 <= a.1 < 2 ^ 62 /\ 0 <= a.2 < 2 ^ 62) allocs ->
  _bytesUntilSample p = distance - since -> 0 <= since < distance -> distance < 2 ^ 62 ->
  poisson_run p allocs = poisson_spec since distance allocs.
Proof.
  induction allocs as [|[size draw] allocs IH]; intros p since distance Hall Hp Hs Hd; [done|].
  apply Forall_cons in Hall as [[H1 H2] Hall]. cbn [fst snd] in *. cbn [poisson_run poisson_spec].
  unfold ShouldSample, NextSamplingDistance. rewrite Hp.
  rewrite (swrap_small 64 size) by (unfold in_s; lia).
  rewrite (swrap_small 64 (distance - since - size)) by (unfold in_s; lia).
  rewrite (wrap_small 64 draw) by (unfold in_u; lia).
  rewrite (swrap_small 64 (Z.max draw 1)) by (unfold in_s; lia).
  destruct (Z.ltb_spec 0 (distance - since - size)), (Z.leb_spec distance (since + size)); try lia.
  - f_equal. apply IH; cbn; auto; lia.
  - f_equal. apply IH; cbn; auto; lia.
Qed.

(** An allocation is sampled exactly when the bytes allocated since the last sample,
    its own included, reach the distance drawn then: no allocation is skipped or counted
    twice, whatever its size. *)
Theorem poisson_sampling mean first allocs :
  0 <= first < 2 ^ 62 -> Forall (fun a => 0 <= a.1 < 2 ^ 62 /\ 0 <= a.2 < 2 ^ 62) allocs ->
  poisson_run (new_PoissonAllocationSampler mean first) allocs =
    poisson_spec 0 (Z.max first 1) allocs.
Proof.
  intros Hf Hall. apply poisson_run_ok; auto; [|lia..]. cbn. unfold NextSamplingDistance.
  rewrite (wrap_small 64) by (unfold in_u; lia).
  rewrite (swrap_small 64) by (unfold in_s; lia). lia.
Qed.
