(* ===== verification/ThreadInfo.v ===== *)
(** * The profiler's record of a managed thread

    Model of [ManagedThreadInfo.h] and [ManagedThreadInfo.cpp]: the identity of a thread,
    the names used in profiles, the timestamps and deadlock counts the sampling loop keeps
    on it, the trace context that managed code publishes through shared memory, and the
    Linux signalling state.

    The members are grouped by what uses them; each operation is a function on the group
    it touches, lifted to the whole record. *)
From stdpp Require Import base list.
From S2P Require Import Prelude TypeReferenceTree TypeTreeJson.

(** ** Data *)

Record TraceContext := mkContext {
  _currentLocalRootSpanId : Z; _currentTraceIdHi : Z; _currentTraceIdLo : Z }.

Record TraceContextTrackingInfo := mkTracking { _writeGuard : Z; _context : TraceContext }.

#[export] Instance TraceContext_eq_dec : EqDecision TraceContext.
Proof. solve_decision. Defined.

Inductive ContentionType := ContentionUnknown | ContentionLock | ContentionWait.

(** Names: [None] before the once flag has fired. *)
Record Names := mkNames {
  _osThreadId : Z; _osThreadHandle : Z; _threadName : text;
  _profileThreadId : option text; _profileThreadName : option text }.

Record Timing := mkTiming {
  _lastSampleHighPrecisionTimestamp : Z; _cpuConsumption : Z; _timestamp : Z;
  _waitStartTimestamp : Z; _contentionType : ContentionType }.

Record Deadlocks := mkDeadlocks {
  _deadlockTotalCount : Z; _deadlockInPeriodCount : Z; _deadlockDetectionPeriod : Z }.

(** [_sharedMemoryArea]: [Some v] is a pointer to an [int] that holds [v]. *)
Record LinuxState := mkLinux {
  _sharedMemoryArea : option Z; _timerId : Z; _stackBase : Z; _stackEnd : Z }.

Record ManagedThreadInfo := mkThreadInfo {
  _profilerThreadInfoId : Z;
  _clrThreadId : Z;
  names : Names;
  timing : Timing;
  deadlocks : Deadlocks;
  _isThreadDestroyed : bool;
  _traceContext : TraceContextTrackingInfo;
  linux : LinuxState;
  _blockingThread : Z * text;
  _objLock : bool                    (* held *)
}.

Definition MaxProfilerThreadInfoId : Z := 0xFFFFFF.

(** ** Thread identifiers

    [counter] is [s_nextProfilerThreadInfoId].  The loop is run without interference:
    [None] is out of fuel. *)
Fixpoint generate_loop (fuel : nat) (newId counter : Z) : option (Z * Z) :=
  match fuel with
  | O => None
  | S fuel =>
      if MaxProfilerThreadInfoId <=? newId then
        if counter =? newId then generate_loop fuel 1 1           (* the exchange succeeds *)
        else generate_loop fuel counter (u32 (counter + 1))       (* fetch_add *)
      else Some (newId, counter)
  end.

Definition GenerateProfilerThreadInfoId (fuel : nat) (counter : Z) : option (Z * Z) :=
  generate_loop fuel counter (u32 (counter + 1)).

Definition zero_context : TraceContext := mkContext 0 0 0.

Definition new_ManagedThreadInfo (id clrThreadId osThreadId osThreadHandle : Z) (name : text)
    : ManagedThreadInfo :=
  mkThreadInfo id clrThreadId (mkNames osThreadId osThreadHandle name None None)
    (mkTiming 0 0 0 0 ContentionUnknown) (mkDeadlocks 0 0 0) false (mkTracking 0 zero_context)
    (mkLinux None (-1) 0 0) (0, []) false.

(** ** Names *)

Section names.
(** [shared::ToString]: UTF-16 to UTF-8. *)
Context (ToString : text -> text).

Definition BuildProfileThreadId (n : Names) : text := AppendUInt32 [] (_osThreadId n).

Definition BuildProfileThreadName (n : Names) : text :=
  match _threadName n with [] => [] | name => ToString name end.

(** [std::call_once]: the first call computes the string, all return it. *)
Definition GetProfileThreadId (n : Names) : Names * text :=
  match _profileThreadId n with
  | Some id => (n, id)
  | None =>
      let id := BuildProfileThreadId n in
      (mkNames (_osThreadId n) (_osThreadHandle n) (_threadName n) (Some id) (_profileThreadName n), id)
  end.

Definition GetProfileThreadName (n : Names) : Names * text :=
  match _profileThreadName n with
  | Some name => (n, name)
  | None =>
      let name := BuildProfileThreadName n in
      (mkNames (_osThreadId n) (_osThreadHandle n) (_threadName n) (_profileThreadId n) (Some name), name)
  end.

Definition SetOsInfo (osThreadId osThreadHandle : Z) (n : Names) : Names :=
  (GetProfileThreadId (mkNames osThreadId osThreadHandle (_threadName n) (_profileThreadId n)
     (_profileThreadName n))).1.

Definition SetThreadName (name : text) (n : Names) : Names :=
  (GetProfileThreadName (mkNames (_osThreadId n) (_osThreadHandle n) name (_profileThreadId n)
     (_profileThreadName n))).1.
End names.

(** ** Timing *)

Definition SetLastSampleTimestamp (value : Z) (t : Timing) : Timing * Z :=
  (mkTiming value (_cpuConsumption t) (_timestamp t) (_waitStartTimestamp t) (_contentionType t),
   _lastSampleHighPrecisionTimestamp t).

Definition SetCpuConsumption (value timestamp : Z) (t : Timing) : Timing * Z :=
  (mkTiming (_lastSampleHighPrecisionTimestamp t) value timestamp (_waitStartTimestamp t)
     (_contentionType t), _cpuConsumption t).

Definition SetWaitStart (timestamp : Z) (t : Timing) : Timing :=
  mkTiming (_lastSampleHighPrecisionTimestamp t) (_cpuConsumption t) (_timestamp t) timestamp
    (_contentionType t).

Definition SetContentionType (c : ContentionType) (t : Timing) : Timing :=
  mkTiming (_lastSampleHighPrecisionTimestamp t) (_cpuConsumption t) (_timestamp t)
    (_waitStartTimestamp t) c.

(** ** Deadlock counts *)

(** The counts before and after. *)
Definition GetOrResetDeadlocksCount (period : Z) (d : Deadlocks) : Deadlocks * (Z * Z) :=
  let prev := _deadlockInPeriodCount d in
  let d := if negb (_deadlockDetectionPeriod d =? period)
           then mkDeadlocks (_deadlockTotalCount d) 0 period else d in
  (d, (prev, _deadlockInPeriodCount d)).

Definition IncDeadlocksCount (d : Deadlocks) : Deadlocks :=
  mkDeadlocks (u64 (_deadlockTotalCount d + 1)) (u64 (_deadlockInPeriodCount d + 1))
    (_deadlockDetectionPeriod d).

Definition GetDeadlocksCount (d : Deadlocks) : Z * Z * Z :=
  (_deadlockTotalCount d, _deadlockInPeriodCount d, _deadlockDetectionPeriod d).

(** ** Trace context *)

(** The guard is read as a [bool]. *)
Definition CanReadTraceContext (t : TraceContextTrackingInfo) : bool :=
  let canReadTraceContext := negb (_writeGuard t =? 0) in negb canReadTraceContext.

Definition GetTracingContext (t : TraceContextTrackingInfo) : TraceContext :=
  if CanReadTraceContext t then _context t else zero_context.

Definition HasTraceContext (t : TraceContextTrackingInfo) : bool :=
  if CanReadTraceContext t then
    let context := GetTracingContext t in
    negb (_currentLocalRootSpanId context =? 0) && negb (_currentTraceIdHi context =? 0) &&
    negb (_currentTraceIdLo context =? 0)
  else false.

(** ** Linux *)

Definition CanBeInterrupted (l : LinuxState) : bool :=
  match _sharedMemoryArea l with None => true | Some _ => false end.

Definition MarkAsInterrupted (l : LinuxState) : LinuxState :=
  match _sharedMemoryArea l with
  | Some _ => mkLinux (Some 1) (_timerId l) (_stackBase l) (_stackEnd l)
  | None => l
  end.

Definition SetSharedMemory (memoryArea : option Z) (l : LinuxState) : LinuxState :=
  mkLinux memoryArea (_timerId l) (_stackBase l) (_stackEnd l).

Definition SetTimerId (timerId : Z) (l : LinuxState) : LinuxState * Z :=
  (mkLinux (_sharedMemoryArea l) timerId (_stackBase l) (_stackEnd l), _timerId l).

Definition SetStackBounds (stackBase stackEnd : Z) (l : LinuxState) : LinuxState :=
  mkLinux (_sharedMemoryArea l) (_timerId l) stackBase stackEnd.

Definition GetStackBounds (l : LinuxState) : Z * Z := (_stackBase l, _stackEnd l).

(** ** Lifecycle *)

Definition with_destroyed (lock destroyed : bool) (i : ManagedThreadInfo) : ManagedThreadInfo :=
  mkThreadInfo (_profilerThreadInfoId i) (_clrThreadId i) (names i) (timing i) (deadlocks i)
    destroyed (_traceContext i) (linux i) (_blockingThread i) lock.

(** [lock] by a second holder would block: [None]. *)
Definition AcquireLock (i : ManagedThreadInfo) : option ManagedThreadInfo :=
  if _objLock i then None else Some (with_destroyed true (_isThreadDestroyed i) i).
Definition TryAcquireLock (i : ManagedThreadInfo) : ManagedThreadInfo * bool :=
  if _objLock i then (i, false) else (with_destroyed true (_isThreadDestroyed i) i, true).
Definition ReleaseLock (i : ManagedThreadInfo) : ManagedThreadInfo :=
  with_destroyed false (_isThreadDestroyed i) i.

Definition SetThreadDestroyed (i : ManagedThreadInfo) : option ManagedThreadInfo :=
  i ← AcquireLock i; Some (ReleaseLock (with_destroyed true true i)).

Definition SetBlockingThread (osThreadId : Z) (name : text) (i : ManagedThreadInfo)
    : ManagedThreadInfo * (Z * text) :=
  (mkThreadInfo (_profilerThreadInfoId i) (_clrThreadId i) (names i) (timing i) (deadlocks i)
     (_isThreadDestroyed i) (_traceContext i) (linux i) (osThreadId, name) (_objLock i),
   _blockingThread i).

(** [answer]: the domain the profiling API reports, or a failure. *)
Definition GetAppDomainId (answer : option Z) : Z := default 0 answer.

(** ** Identifiers are distinct until the counter reaches its maximum *)

Fixpoint generate_many (n : nat) (counter : Z) : option (list Z * Z) :=
  match n with
  | O => Some ([], counter)
  | S n =>
      '(id, counter) ← GenerateProfilerThreadInfoId 1 counter;
      '(ids, counter) ← generate_many n counter;
      Some (id :: ids, counter)
  end.

Lemma generate_below counter fuel :
  0 <= counter < MaxProfilerThreadInfoId ->
  GenerateProfilerThreadInfoId (S fuel) counter = Some (counter, counter + 1).
Proof.
  intros Hc. unfold GenerateProfilerThreadInfoId. cbn [generate_loop].
  unfold MaxProfilerThreadInfoId in *. rewrite (wrap_small 32) by (unfold in_u; lia).
  by rewrite (proj2 (Z.leb_gt _ _)) by lia.
Qed.

Lemma generate_many_ok n : forall counter,
  0 <= counter -> counter + Z.of_nat n <= MaxProfilerThreadInfoId ->
  generate_many n counter = Some (seqZ counter (Z.of_nat n), counter + Z.of_nat n).
Proof.
  induction n as [|n IH]; intros counter Hc Hn.
  - cbn. by rewrite Z.add_0_r.
  - cbn [generate_many]. rewrite generate_below by lia. cbn [mbind option_bind].
    rewrite IH by lia. cbn [mbind option_bind]. rewrite (seqZ_cons counter) by lia.
    rewrite <- Z.add_1_r. do 2 f_equal; [|lia]. do 2 f_equal; lia.
Qed.

Lemma generate_spin k : forall counter fuel,
  MaxProfilerThreadInfoId <= counter -> counter + Z.of_nat k = 2 ^ 32 - 1 -> (k + 2 <= fuel)%nat ->
  generate_loop fuel counter (u32 (counter + 1)) = Some (0, 1).
Proof.
  induction k as [|k IH]; intros counter fuel Hc Hk Hfuel; (destruct fuel as [|fuel]; [lia|]);
    cbn [generate_loop]; rewrite (proj2 (Z.leb_le _ _)) by lia.
  - assert (counter = 2 ^ 32 - 1) as -> by lia. destruct fuel as [|fuel]; [lia|]. reflexivity.
  - rewrite (wrap_small 32 (counter + 1)) by (unfold in_u, MaxProfilerThreadInfoId in *; lia).
    rewrite (proj2 (Z.eqb_neq _ _)) by lia. apply IH; lia.
Qed.

(** Thread identifiers: the first 16,777,214 threads get the identifiers 1, 2, 3, ...,
    all different.  Once the counter has reached the maximum, the compare-and-exchange
    that should start again from 1 never succeeds without interference from another
    thread (it compares with the value before the increment): the loop spins until the
    32-bit counter wraps around and hands out the identifier 0. *)
Theorem thread_ids n counter :
  1 + Z.of_nat n <= MaxProfilerThreadInfoId -> MaxProfilerThreadInfoId <= counter < 2 ^ 32 ->
  generate_many n 1 = Some (seqZ 1 (Z.of_nat n), 1 + Z.of_nat n) /\
  NoDup (seqZ 1 (Z.of_nat n)) /\
  exists fuel, GenerateProfilerThreadInfoId fuel counter = Some (0, 1) /\
    2 ^ 32 - counter < Z.of_nat fuel.
Proof.
  intros Hn Hc. split; [apply generate_many_ok; lia|]. split; [apply NoDup_seqZ|].
  exists (Z.to_nat (2 ^ 32 - 1 - counter) + 2)%nat. split; [|lia].
  unfold GenerateProfilerThreadInfoId.
  apply (generate_spin (Z.to_nat (2 ^ 32 - 1 - counter))); unfold MaxProfilerThreadInfoId in *; lia.
Qed.

(** ** The trace context is never torn *)

(** What managed code does through the pointer it was given, one store at a time. *)
Inductive store :=
| StoreGuard (v : Z) | StoreRoot (v : Z) | StoreHi (v : Z) | StoreLo (v : Z).

Definition do_store (e : store) (t : TraceContextTrackingInfo) : TraceContextTrackingInfo :=
  let c := _context t in
  match e with
  | StoreGuard v => mkTracking v c
  | StoreRoot v => mkTracking (_writeGuard t) (mkContext v (_currentTraceIdHi c) (_currentTraceIdLo c))
  | StoreHi v => mkTracking (_writeGuard t) (mkContext (_currentLocalRootSpanId c) v (_currentTraceIdLo c))
  | StoreLo v => mkTracking (_writeGuard t) (mkContext (_currentLocalRootSpanId c) (_currentTraceIdHi c) v)
  end.

(** The protocol: the fields are written only while the guard is up. *)
Definition allowed (e : store) (t : TraceContextTrackingInfo) : Prop :=
  match e with StoreGuard _ => True | _ => _writeGuard t <> 0 end.

Fixpoint protocol (es : list store) (t : TraceContextTrackingInfo) : Prop :=
  match es with
  | [] => True
  | e :: es => allowed e t /\ protocol es (do_store e t)
  end.

(** The contexts that were complete when the guard went down. *)
Fixpoint published (last : TraceContext) (es : list store) (t : TraceContextTrackingInfo)
    : TraceContext :=
  match es with
  | [] => last
  | e :: es =>
      let t := do_store e t in
      published (match e with StoreGuard v => if v =? 0 then _context t else last | _ => last end) es t
  end.

Lemma published_ok es : forall last t,
  protocol es t -> (_writeGuard t = 0 -> last = _context t) ->
  let t' := foldl (fun t e => do_store e t) t es in
  _writeGuard t' = 0 -> published last es t = _context t'.
Proof.
  induction es as [|e es IH]; intros last t Hp Hl; [done|]. destruct Hp as [Ha Hp].
  cbn [foldl published]. apply IH; [done|]. destruct e as [v|v|v|v]; cbn in *; intros Hg; try done.
  by rewrite Hg.
Qed.

(** A sample taken at any moment, between any two stores of a managed thread that
    updates its trace context, attributes the context that was published last or none at
    all, never a mixture of two. *)
Theorem trace_context_not_torn es t :
  protocol es t -> _writeGuard t = 0 ->
  let t' := foldl (fun t e => do_store e t) t es in
  GetTracingContext t' = published (_context t) es t \/
  (GetTracingContext t' = zero_context /\ HasTraceContext t' = false).
Proof.
  intros Hp Hg t'. unfold GetTracingContext, HasTraceContext, CanReadTraceContext.
  destruct (Z.eqb_spec (_writeGuard t') 0) as [E|E]; cbn [negb]; [left|by right].
  symmetry. by apply published_ok.
Qed.

(** ** Profile names are computed once *)

(** Whatever happens afterwards, the first name read is the one all samples carry. *)
Lemma profile_name_frozen ToString n name :
  _profileThreadName n = Some name ->
  forall new, (GetProfileThreadName ToString (SetThreadName ToString new n)).2 = name.
Proof. destruct n. cbn. intros ->. done. Qed.

(** A thread that is sampled before it is named stays unnamed in profiles. *)
Example sampled_before_named ToString :
  let n := (GetProfileThreadName ToString (mkNames 42 0 [] None None)).1 in
  (GetProfileThreadName ToString (SetThreadName ToString [65] n)).2 = [].
Proof. reflexivity. Qed.
