(* ===== verification/EventPayloads.v ===== *)
(** * Payloads of the runtime's events

    Model of [EventsParserHelper.h] and of the packed structures of [ClrEventsParser.h] and
    [IGCDumpListener.h].  A payload is the sequence of its bytes; a read outside of it is
    [OutOfBounds], which the theorems exclude, and [Malformed] is the parser's own refusal
    ([false], or a null string).

    A packed structure is a list of field widths with a conversion from and to the values of
    its fields (class [Pod]); the machine is little-endian with 8-byte pointers. *)
From stdpp Require Import base list.
From S2P Require Import Prelude.

Abbreviation bytes := (list Z).

Inductive outcome (A : Type) := Ok (x : A) | Malformed | OutOfBounds.
Arguments Ok {A} x.
Arguments Malformed {A}.
Arguments OutOfBounds {A}.

#[export] Instance outcome_ret : MRet outcome := fun A x => Ok x.
#[export] Instance outcome_bind : MBind outcome := fun A B f m =>
  match m with Ok x => f x | Malformed => Malformed | OutOfBounds => OutOfBounds end.

(** ** Little-endian numbers *)

Fixpoint le (bs : bytes) : Z :=
  match bs with [] => 0 | b :: bs => b + 256 * le bs end.

Fixpoint le_bytes (w : nat) (v : Z) : bytes :=
  match w with O => [] | S w => v mod 256 :: le_bytes w (v / 256) end.

Lemma le_bytes_length w v : length (le_bytes w v) = w.
Proof. revert v. induction w; intros v; cbn [le_bytes length]; auto. Qed.

Lemma le_le_bytes w v : in_u (8 * Z.of_nat w) v -> le (le_bytes w v) = v.
Proof.
  unfold in_u. revert v. induction w as [|w IH]; intros v Hv; cbn [le_bytes le].
  - change (2 ^ (8 * Z.of_nat 0)) with 1 in Hv. lia.
  - replace (8 * Z.of_nat (S w)) with (8 + 8 * Z.of_nat w) in Hv by lia.
    rewrite Z.pow_add_r in Hv by lia. change (2 ^ 8) with 256 in Hv.
    assert (0 < 2 ^ (8 * Z.of_nat w)) as Hp by (apply Z.pow_pos_nonneg; lia).
    rewrite IH; [pose proof (Z.div_mod v 256); lia|].
    split; [apply Z.div_pos; lia|apply Z.div_lt_upper_bound; lia].
Qed.

(** ** Packed structures *)

Class Pod (T : Type) := {
  layout : list nat;
  of_fields : list Z -> T;
  to_fields : T -> list Z;
  of_to x : of_fields (to_fields x) = x;
  to_length x : length (to_fields x) = length layout
}.
Arguments layout T {_}.

Definition sizeof (T : Type) `{Pod T} : nat := sum_list (layout T).

Fixpoint split_fields (ws : list nat) (bs : bytes) : list Z :=
  match ws with [] => [] | w :: ws => le (take w bs) :: split_fields ws (drop w bs) end.

Fixpoint join_fields (ws : list nat) (vs : list Z) : bytes :=
  match ws, vs with w :: ws, v :: vs => le_bytes w v ++ join_fields ws vs | _, _ => [] end.

Definition of_bytes {T} `{Pod T} (bs : bytes) : T := of_fields (split_fields (layout T) bs).
Definition to_bytes {T} `{Pod T} (x : T) : bytes := join_fields (layout T) (to_fields x).

(** The values fit the fields. *)
Definition fits {T} `{Pod T} (x : T) : Prop :=
  Forall2 (fun w v => in_u (8 * Z.of_nat w) v) (layout T) (to_fields x).

Lemma split_join ws vs :
  Forall2 (fun w v => in_u (8 * Z.of_nat w) v) ws vs -> split_fields ws (join_fields ws vs) = vs.
Proof.
  induction 1 as [|w v ws vs Hv Hws IH]; [done|].
  cbn [join_fields split_fields].
  rewrite take_app_length', drop_app_length' by (by rewrite le_bytes_length).
  by rewrite le_le_bytes, IH.
Qed.

Lemma join_length ws vs : length ws = length vs -> length (join_fields ws vs) = sum_list ws.
Proof.
  revert vs. induction ws as [|w ws IH]; intros [|v vs] Hl; try done.
  cbn [join_fields]. rewrite length_app, le_bytes_length, IH by (simpl in Hl; lia). done.
Qed.

Section pod.
Context {T : Type} `{Pod T}.

Lemma to_bytes_length (x : T) : length (to_bytes x) = sizeof T.
Proof. apply join_length. by rewrite to_length. Qed.

Lemma of_to_bytes (x : T) : fits x -> of_bytes (to_bytes x) = x.
Proof. intros Hx. unfold of_bytes, to_bytes. by rewrite split_join, of_to. Qed.
End pod.

(** ** EventsParserHelper *)

(** The [n] bytes at [pEventData + offset]. *)
Definition load (pEventData : bytes) (offset : Z) (n : nat) : outcome bytes :=
  if (0 <=? offset) && (offset + Z.of_nat n <=? zlen pEventData)
  then Ok (take n (drop (Z.to_nat offset) pEventData)) else OutOfBounds.

(** [offset + sizeof(T)] is computed at the width of [size_t]. *)
Definition Read (T : Type) `{Pod T} (pEventData : bytes) (cbEventData offset : Z) : outcome (T * Z) :=
  if cbEventData <? u64 (offset + Z.of_nat (sizeof T)) then Malformed
  else
    bs ← load pEventData offset (sizeof T);
    Ok (of_bytes bs, u32 (offset + Z.of_nat (sizeof T))).

Definition wchar : nat := 2.

(** [std::char_traits<WCHAR>::find(start, maxChars, 0)]: the characters before the first
    zero; a null result is [Malformed]. *)
Fixpoint find_terminator (pEventData : bytes) (start : Z) (maxChars : nat) : outcome (list Z) :=
  match maxChars with
  | O => Malformed
  | S maxChars =>
    bs ← load pEventData start wchar;
    if le bs =? 0 then Ok []
    else rest ← find_terminator pEventData (start + 2) maxChars; Ok (le bs :: rest)
  end.

(** The string is what the returned pointer shows a reader that stops at the terminator. *)
Definition ReadWideString (pEventData : bytes) (cbEventData offset : Z) : outcome (list Z * Z) :=
  if cbEventData <=? offset then Malformed
  else
    let maxChars := u32 (cbEventData - offset) / 2 in
    chars ← find_terminator pEventData offset (Z.to_nat maxChars);
    Ok (chars, u32 (offset + u32 ((zlen chars + 1) * 2))).

(** A wide string and its terminator. *)
Definition wide_bytes (cs : list Z) : bytes := concat (le_bytes wchar <$> cs) ++ le_bytes wchar 0.
Definition wide_char (c : Z) : Prop := in_u 16 c /\ c <> 0.

(** ** Lemmas *)

(** The buffer an event is delivered with. *)
Definition delivered (pEventData : bytes) (cbEventData : Z) : Prop :=
  zlen pEventData = cbEventData /\ cbEventData < 2 ^ 32.

Lemma load_app pre bs post :
  load (pre ++ bs ++ post) (zlen pre) (length bs) = Ok bs.
Proof.
  unfold load. rewrite !length_app, !Nat2Z.inj_add.
  rewrite (proj2 (Z.leb_le _ _)), (proj2 (Z.leb_le _ _)) by lia. cbn [andb].
  rewrite Nat2Z.id, drop_app_length, take_app_length. done.
Qed.

Lemma load_in_bounds d o n : 0 <= o -> o + Z.of_nat n <= zlen d -> exists bs, load d o n = Ok bs.
Proof.
  intros. unfold load. rewrite (proj2 (Z.leb_le _ _)), (proj2 (Z.leb_le _ _)) by lia. eauto.
Qed.

Lemma u64_offset o n : 0 <= o < 2 ^ 32 -> 0 <= n < 2 ^ 32 -> u64 (o + n) = o + n.
Proof. intros. apply wrap_small. unfold in_u. lia. Qed.

(** Whatever the bytes, a read refuses or stays within the payload. *)
Lemma Read_safe T `{Pod T} d cb o :
  delivered d cb -> 0 <= o <= cb -> Z.of_nat (sizeof T) < 2 ^ 32 ->
  Read T d cb o = Malformed /\ cb < o + Z.of_nat (sizeof T) \/
  exists x, Read T d cb o = Ok (x, o + Z.of_nat (sizeof T)) /\ o + Z.of_nat (sizeof T) <= cb.
Proof.
  intros [Hd Hcb] Ho Hs. unfold Read. rewrite u64_offset by lia.
  destruct (Z.ltb_spec cb (o + Z.of_nat (sizeof T))) as [Hlt|Hge]; [by left|right].
  destruct (load_in_bounds d o (sizeof T)) as [bs ->]; [lia|lia|].
  exists (of_bytes bs). cbn [mbind outcome_bind].
  rewrite wrap_small by (unfold in_u; lia). done.
Qed.

Lemma find_terminator_safe d o n :
  0 <= o -> o + 2 * Z.of_nat n <= zlen d ->
  find_terminator d o n = Malformed \/
  exists cs, find_terminator d o n = Ok cs /\ (length cs < n)%nat.
Proof.
  revert o. induction n as [|n IH]; intros o Ho Hn; [by left|]. cbn [find_terminator].
  destruct (load_in_bounds d o wchar) as [bs ->]; [done|unfold wchar; lia|].
  cbn [mbind outcome_bind]. case_if.
  - right. exists []. split; [done|simpl; lia].
  - destruct (IH (o + 2)) as [->|(cs & -> & Hl)]; [lia|lia|by left|right].
    exists (le bs :: cs). split; [done|simpl; lia].
Qed.

Lemma ReadWideString_safe d cb o :
  delivered d cb -> 0 <= o <= cb ->
  ReadWideString d cb o = Malformed \/
  exists cs, ReadWideString d cb o = Ok (cs, o + 2 * (zlen cs + 1)) /\ o + 2 * (zlen cs + 1) <= cb.
Proof.
  intros [Hd Hcb] Ho. unfold ReadWideString.
  destruct (Z.leb_spec cb o); [by left|].
  rewrite wrap_small by (unfold in_u; lia).
  pose proof (Z.mul_div_le (cb - o) 2 ltac:(lia)).
  assert (0 <= (cb - o) / 2) by (apply Z.div_pos; lia).
  destruct (find_terminator_safe d o (Z.to_nat ((cb - o) / 2))) as [->|(cs & -> & Hl)];
    [lia|lia|by left|right].
  exists cs. cbn [mbind outcome_bind].
  rewrite (wrap_small 32 ((zlen cs + 1) * 2)), wrap_small by (unfold in_u; lia).
  split; [do 2 f_equal; lia|lia].
Qed.

(** A structure that is in the payload is what the read gives. *)
Lemma Read_app T `{Pod T} pre (x : T) post cb :
  fits x -> delivered (pre ++ to_bytes x ++ post) cb ->
  Read T (pre ++ to_bytes x ++ post) cb (zlen pre) = Ok (x, zlen (pre ++ to_bytes x)).
Proof.
  intros Hx [Hd Hcb]. rewrite !length_app, to_bytes_length, !Nat2Z.inj_add in *.
  unfold Read. rewrite u64_offset by lia.
  rewrite (proj2 (Z.ltb_ge _ _)) by lia.
  rewrite <- (to_bytes_length x) at 1.
  rewrite load_app. cbn [mbind outcome_bind].
  rewrite of_to_bytes, wrap_small by (done || unfold in_u; lia). done.
Qed.

(** A payload cut within the structure is refused. *)
Lemma Read_cut T `{Pod T} d cb o :
  delivered d cb -> 0 <= o <= cb -> Z.of_nat (sizeof T) < 2 ^ 32 ->
  cb < o + Z.of_nat (sizeof T) -> Read T d cb o = Malformed.
Proof. intros Hd Ho Hs Hlt. destruct (Read_safe T d cb o) as [[? _]|(x & _ & ?)]; [..|lia]; done. Qed.

Lemma load_char pre c post :
  in_u 16 c -> exists bs, load (pre ++ le_bytes wchar c ++ post) (zlen pre) wchar = Ok bs /\ le bs = c.
Proof.
  intros Hc. exists (le_bytes wchar c). split.
  - rewrite <- (le_bytes_length wchar c) at 2. apply load_app.
  - by apply le_le_bytes.
Qed.

Lemma find_terminator_app pre cs post n :
  Forall wide_char cs -> (length cs < n)%nat ->
  find_terminator (pre ++ wide_bytes cs ++ post) (zlen pre) n = Ok cs.
Proof.
  intros Hcs. revert pre n. induction Hcs as [|c cs [Hc Hz] Hcs IH]; intros pre [|n] Hn;
    cbn [length] in Hn; try lia; unfold wide_bytes; cbn [fmap list_fmap concat]; rewrite <- !app_assoc.
  - cbn [find_terminator app]. destruct (load_char pre 0 post) as (bs & -> & Hbs); [done|].
    cbn [mbind outcome_bind]. by rewrite Hbs.
  - cbn [find_terminator].
    destruct (load_char pre c (concat (le_bytes wchar <$> cs) ++ le_bytes wchar 0 ++ post))
      as (bs & -> & Hbs); [done|].
    cbn [mbind outcome_bind]. rewrite Hbs, (proj2 (Z.eqb_neq _ _)) by done.
    specialize (IH (pre ++ le_bytes wchar c) n ltac:(lia)). unfold wide_bytes in IH.
    rewrite length_app, le_bytes_length, Nat2Z.inj_add, <- !app_assoc in IH.
    change (Z.of_nat wchar) with 2 in IH. by rewrite IH.
Qed.

Lemma wide_bytes_length cs : zlen (wide_bytes cs) = 2 * (zlen cs + 1).
Proof.
  unfold wide_bytes. rewrite length_app, le_bytes_length.
  assert (length (concat (le_bytes wchar <$> cs)) = 2 * length cs)%nat as ->.
  { induction cs as [|c cs IH]; [done|]. rewrite fmap_cons. cbn [concat length].
    rewrite length_app, le_bytes_length, IH. unfold wchar. lia. }
  unfold wchar. lia.
Qed.

Lemma ReadWideString_app pre cs post cb :
  Forall wide_char cs -> delivered (pre ++ wide_bytes cs ++ post) cb ->
  ReadWideString (pre ++ wide_bytes cs ++ post) cb (zlen pre) = Ok (cs, zlen (pre ++ wide_bytes cs)).
Proof.
  intros Hcs [Hd Hcb]. pose proof (wide_bytes_length cs) as Hw.
  rewrite !length_app, !Nat2Z.inj_add in *.
  unfold ReadWideString. rewrite (proj2 (Z.leb_gt _ _)) by lia.
  rewrite (wrap_small 32 (cb - zlen pre)) by (unfold in_u; lia).
  rewrite find_terminator_app; [|done|].
  - cbn [mbind outcome_bind]. rewrite (wrap_small 32 ((zlen cs + 1) * 2)), wrap_small by (unfold in_u; lia).
    do 2 f_equal. lia.
  - assert (zlen cs + 1 <= (cb - zlen pre) / 2) by (apply Z.div_le_lower_bound; lia). lia.
Qed.

(** Numbers are one-field structures. *)
Definition uint (w : nat) : Type := Z.

#[export, refine] Instance uint_pod w : Pod (uint w) := {
  layout := [w];
  of_fields l := match l with [v] => v | _ => 0 end;
  to_fields v := [v]
}.
Proof. all: done. Defined.

Lemma fits_uint w (v : uint w) : in_u (8 * Z.of_nat w) v -> fits v.
Proof. intros Hv. apply Forall2_cons_2; [exact Hv|apply Forall2_nil_2]. Qed.

(** ** The structures *)

Record GCStartPayload := mkGCStart {
  GCStart_Count : Z; GCStart_Depth : Z; GCStart_Reason : Z; GCStart_Type : Z
}.

#[export, refine] Instance GCStartPayload_pod : Pod GCStartPayload := {
  layout := [4; 4; 4; 4]%nat;
  of_fields l :=
    match l with
    | [a0; a1; a2; a3] =>
      mkGCStart a0 a1 a2 a3
    | _ => mkGCStart 0 0 0 0
    end;
  to_fields x :=
    [GCStart_Count x; GCStart_Depth x; GCStart_Reason x; GCStart_Type x]
}.
Proof. all: by intros []. Defined.

Record GCEndPayload := mkGCEnd {
  GCEnd_Count : Z; GCEnd_Depth : Z
}.

#[export, refine] Instance GCEndPayload_pod : Pod GCEndPayload := {
  layout := [4; 4]%nat;
  of_fields l :=
    match l with
    | [a0; a1] =>
      mkGCEnd a0 a1
    | _ => mkGCEnd 0 0
    end;
  to_fields x :=
    [GCEnd_Count x; GCEnd_Depth x]
}.
Proof. all: by intros []. Defined.

Record GCHeapStatsV1Payload := mkV1 {
  V1_GenerationSize0 : Z; V1_TotalPromotedSize0 : Z; V1_GenerationSize1 : Z;
  V1_TotalPromotedSize1 : Z; V1_GenerationSize2 : Z; V1_TotalPromotedSize2 : Z;
  V1_GenerationSize3 : Z; V1_TotalPromotedSize3 : Z; V1_FinalizationPromotedSize : Z;
  V1_FinalizationPromotedCount : Z; V1_PinnedObjectCount : Z; V1_SinkBlockCount : Z;
  V1_GCHandleCount : Z; V1_ClrInstanceID : Z
}.

#[export, refine] Instance GCHeapStatsV1Payload_pod : Pod GCHeapStatsV1Payload := {
  layout := [8; 8; 8; 8; 8; 8; 8; 8; 8; 8; 4; 4; 4; 2]%nat;
  of_fields l :=
    match l with
    | [a0; a1; a2; a3; a4; a5; a6; a7; a8; a9; a10; a11; a12; a13] =>
      mkV1 a0 a1 a2 a3 a4 a5 a6 a7 a8 a9 a10 a11 a12 a13
    | _ => mkV1 0 0 0 0 0 0 0 0 0 0 0 0 0 0
    end;
  to_fields x :=
    [V1_GenerationSize0 x; V1_TotalPromotedSize0 x; V1_GenerationSize1 x; V1_TotalPromotedSize1
    x; V1_GenerationSize2 x; V1_TotalPromotedSize2 x; V1_GenerationSize3 x;
    V1_TotalPromotedSize3 x; V1_FinalizationPromotedSize x; V1_FinalizationPromotedCount x;
    V1_PinnedObjectCount x; V1_SinkBlockCount x; V1_GCHandleCount x; V1_ClrInstanceID x]
}.
Proof. all: by intros []. Defined.

Record GCHeapStatsV2Payload := mkV2 {
  V2_GenerationSize0 : Z; V2_TotalPromotedSize0 : Z; V2_GenerationSize1 : Z;
  V2_TotalPromotedSize1 : Z; V2_GenerationSize2 : Z; V2_TotalPromotedSize2 : Z;
  V2_GenerationSize3 : Z; V2_TotalPromotedSize3 : Z; V2_FinalizationPromotedSize : Z;
  V2_FinalizationPromotedCount : Z; V2_PinnedObjectCount : Z; V2_SinkBlockCount : Z;
  V2_GCHandleCount : Z; V2_ClrInstanceID : Z; V2_GenerationSize4 : Z; V2_TotalPromotedSize4 : Z
}.

#[export, refine] Instance GCHeapStatsV2Payload_pod : Pod GCHeapStatsV2Payload := {
  layout := [8; 8; 8; 8; 8; 8; 8; 8; 8; 8; 4; 4; 4; 2; 8; 8]%nat;
  of_fields l :=
    match l with
    | [a0; a1; a2; a3; a4; a5; a6; a7; a8; a9; a10; a11; a12; a13; a14; a15] =>
      mkV2 a0 a1 a2 a3 a4 a5 a6 a7 a8 a9 a10 a11 a12 a13 a14 a15
    | _ => mkV2 0 0 0 0 0 0 0 0 0 0 0 0 0 0 0 0
    end;
  to_fields x :=
    [V2_GenerationSize0 x; V2_TotalPromotedSize0 x; V2_GenerationSize1 x; V2_TotalPromotedSize1
    x; V2_GenerationSize2 x; V2_TotalPromotedSize2 x; V2_GenerationSize3 x;
    V2_TotalPromotedSize3 x; V2_FinalizationPromotedSize x; V2_FinalizationPromotedCount x;
    V2_PinnedObjectCount x; V2_SinkBlockCount x; V2_GCHandleCount x; V2_ClrInstanceID x;
    V2_GenerationSize4 x; V2_TotalPromotedSize4 x]
}.
Proof. all: by intros []. Defined.

Record GCGlobalHeapPayload := mkGlobalHeap {
  GlobalHeap_FinalYoungestDesired : Z; GlobalHeap_NumHeaps : Z; GlobalHeap_CondemnedGeneration :
  Z; GlobalHeap_Gen0ReductionCount : Z; GlobalHeap_Reason : Z; GlobalHeap_GlobalMechanisms : Z;
  GlobalHeap_ClrInstanceID : Z; GlobalHeap_PauseMode : Z; GlobalHeap_MemPressure : Z
}.

#[export, refine] Instance GCGlobalHeapPayload_pod : Pod GCGlobalHeapPayload := {
  layout := [8; 4; 4; 4; 4; 4; 2; 4; 4]%nat;
  of_fields l :=
    match l with
    | [a0; a1; a2; a3; a4; a5; a6; a7; a8] =>
      mkGlobalHeap a0 a1 a2 a3 a4 a5 a6 a7 a8
    | _ => mkGlobalHeap 0 0 0 0 0 0 0 0 0
    end;
  to_fields x :=
    [GlobalHeap_FinalYoungestDesired x; GlobalHeap_NumHeaps x; GlobalHeap_CondemnedGeneration x;
    GlobalHeap_Gen0ReductionCount x; GlobalHeap_Reason x; GlobalHeap_GlobalMechanisms x;
    GlobalHeap_ClrInstanceID x; GlobalHeap_PauseMode x; GlobalHeap_MemPressure x]
}.
Proof. all: by intros []. Defined.

(** [DurationNs] is the bit pattern of a [double]. *)
Record ContentionStopV1Payload := mkContentionStop {
  ContentionStop_ContentionFlags : Z; ContentionStop_ClrInstanceId : Z;
  ContentionStop_DurationNs : Z
}.

#[export, refine] Instance ContentionStopV1Payload_pod : Pod ContentionStopV1Payload := {
  layout := [1; 2; 8]%nat;
  of_fields l :=
    match l with
    | [a0; a1; a2] =>
      mkContentionStop a0 a1 a2
    | _ => mkContentionStop 0 0 0
    end;
  to_fields x :=
    [ContentionStop_ContentionFlags x; ContentionStop_ClrInstanceId x; ContentionStop_DurationNs
    x]
}.
Proof. all: by intros []. Defined.

Record ContentionStartV2Payload := mkContentionStart {
  ContentionStart_ContentionFlags : Z; ContentionStart_ClrInstanceId : Z; ContentionStart_LockId
  : Z; ContentionStart_AssociatedObjectID : Z; ContentionStart_LockOwnerThreadID : Z
}.

#[export, refine] Instance ContentionStartV2Payload_pod : Pod ContentionStartV2Payload := {
  layout := [1; 2; 8; 8; 8]%nat;
  of_fields l :=
    match l with
    | [a0; a1; a2; a3; a4] =>
      mkContentionStart a0 a1 a2 a3 a4
    | _ => mkContentionStart 0 0 0 0 0
    end;
  to_fields x :=
    [ContentionStart_ContentionFlags x; ContentionStart_ClrInstanceId x; ContentionStart_LockId
    x; ContentionStart_AssociatedObjectID x; ContentionStart_LockOwnerThreadID x]
}.
Proof. all: by intros []. Defined.

Record WaitHandleWaitStartPayload := mkWaitStart {
  WaitStart_WaitSource : Z; WaitStart_AssociatedObjectID : Z; WaitStart_ClrInstanceId : Z
}.

#[export, refine] Instance WaitHandleWaitStartPayload_pod : Pod WaitHandleWaitStartPayload := {
  layout := [1; 8; 2]%nat;
  of_fields l :=
    match l with
    | [a0; a1; a2] =>
      mkWaitStart a0 a1 a2
    | _ => mkWaitStart 0 0 0
    end;
  to_fields x :=
    [WaitStart_WaitSource x; WaitStart_AssociatedObjectID x; WaitStart_ClrInstanceId x]
}.
Proof. all: by intros []. Defined.

Record WaitHandleWaitStopPayload := mkWaitStop {
  WaitStop_ClrInstanceId : Z
}.

#[export, refine] Instance WaitHandleWaitStopPayload_pod : Pod WaitHandleWaitStopPayload := {
  layout := [2]%nat;
  of_fields l :=
    match l with
    | [a0] =>
      mkWaitStop a0
    | _ => mkWaitStop 0
    end;
  to_fields x :=
    [WaitStop_ClrInstanceId x]
}.
Proof. all: by intros []. Defined.

Record GCBulkNodeValue := mkNodeValue {
  NodeValue_Address : Z; NodeValue_Size : Z; NodeValue_TypeID : Z; NodeValue_EdgeCount : Z
}.

#[export, refine] Instance GCBulkNodeValue_pod : Pod GCBulkNodeValue := {
  layout := [8; 8; 8; 8]%nat;
  of_fields l :=
    match l with
    | [a0; a1; a2; a3] =>
      mkNodeValue a0 a1 a2 a3
    | _ => mkNodeValue 0 0 0 0
    end;
  to_fields x :=
    [NodeValue_Address x; NodeValue_Size x; NodeValue_TypeID x; NodeValue_EdgeCount x]
}.
Proof. all: by intros []. Defined.

Record GCBulkNodePayload := mkBulkNode {
  BulkNode_Index : Z; BulkNode_Count : Z; BulkNode_ClrInstanceID : Z
}.

#[export, refine] Instance GCBulkNodePayload_pod : Pod GCBulkNodePayload := {
  layout := [4; 4; 2]%nat;
  of_fields l :=
    match l with
    | [a0; a1; a2] =>
      mkBulkNode a0 a1 a2
    | _ => mkBulkNode 0 0 0
    end;
  to_fields x :=
    [BulkNode_Index x; BulkNode_Count x; BulkNode_ClrInstanceID x]
}.
Proof. all: by intros []. Defined.

Record GCBulkEdgeValue := mkEdgeValue {
  EdgeValue_Value : Z; EdgeValue_ReferencingFieldID : Z
}.

#[export, refine] Instance GCBulkEdgeValue_pod : Pod GCBulkEdgeValue := {
  layout := [8; 4]%nat;
  of_fields l :=
    match l with
    | [a0; a1] =>
      mkEdgeValue a0 a1
    | _ => mkEdgeValue 0 0
    end;
  to_fields x :=
    [EdgeValue_Value x; EdgeValue_ReferencingFieldID x]
}.
Proof. all: by intros []. Defined.

Record GCBulkEdgePayload := mkBulkEdge {
  BulkEdge_Index : Z; BulkEdge_Count : Z; BulkEdge_ClrInstanceID : Z
}.

#[export, refine] Instance GCBulkEdgePayload_pod : Pod GCBulkEdgePayload := {
  layout := [4; 4; 2]%nat;
  of_fields l :=
    match l with
    | [a0; a1; a2] =>
      mkBulkEdge a0 a1 a2
    | _ => mkBulkEdge 0 0 0
    end;
  to_fields x :=
    [BulkEdge_Index x; BulkEdge_Count x; BulkEdge_ClrInstanceID x]
}.
Proof. all: by intros []. Defined.

Record GCBulkRootEdgeValue := mkRootEdgeValue {
  RootEdgeValue_RootedNodeAddress : Z; RootEdgeValue_Kind : Z; RootEdgeValue_Flags : Z;
  RootEdgeValue_GCRootID : Z
}.

#[export, refine] Instance GCBulkRootEdgeValue_pod : Pod GCBulkRootEdgeValue := {
  layout := [8; 1; 4; 8]%nat;
  of_fields l :=
    match l with
    | [a0; a1; a2; a3] =>
      mkRootEdgeValue a0 a1 a2 a3
    | _ => mkRootEdgeValue 0 0 0 0
    end;
  to_fields x :=
    [RootEdgeValue_RootedNodeAddress x; RootEdgeValue_Kind x; RootEdgeValue_Flags x;
    RootEdgeValue_GCRootID x]
}.
Proof. all: by intros []. Defined.

Record GCBulkRootEdgePayload := mkBulkRootEdge {
  BulkRootEdge_Index : Z; BulkRootEdge_Count : Z; BulkRootEdge_ClrInstanceID : Z
}.

#[export, refine] Instance GCBulkRootEdgePayload_pod : Pod GCBulkRootEdgePayload := {
  layout := [4; 4; 2]%nat;
  of_fields l :=
    match l with
    | [a0; a1; a2] =>
      mkBulkRootEdge a0 a1 a2
    | _ => mkBulkRootEdge 0 0 0
    end;
  to_fields x :=
    [BulkRootEdge_Index x; BulkRootEdge_Count x; BulkRootEdge_ClrInstanceID x]
}.
Proof. all: by intros []. Defined.

Record GCBulkRootStaticVarValue := mkStaticVarValue {
  StaticVarValue_GCRootID : Z; StaticVarValue_ObjectID : Z; StaticVarValue_TypeID : Z;
  StaticVarValue_Flags : Z
}.

#[export, refine] Instance GCBulkRootStaticVarValue_pod : Pod GCBulkRootStaticVarValue := {
  layout := [8; 8; 8; 4]%nat;
  of_fields l :=
    match l with
    | [a0; a1; a2; a3] =>
      mkStaticVarValue a0 a1 a2 a3
    | _ => mkStaticVarValue 0 0 0 0
    end;
  to_fields x :=
    [StaticVarValue_GCRootID x; StaticVarValue_ObjectID x; StaticVarValue_TypeID x;
    StaticVarValue_Flags x]
}.
Proof. all: by intros []. Defined.

Record GCBulkRootStaticVarPayload := mkBulkStaticVar {
  BulkStaticVar_Count : Z; BulkStaticVar_AppDomainID : Z; BulkStaticVar_ClrInstanceID : Z
}.

#[export, refine] Instance GCBulkRootStaticVarPayload_pod : Pod GCBulkRootStaticVarPayload := {
  layout := [4; 8; 2]%nat;
  of_fields l :=
    match l with
    | [a0; a1; a2] =>
      mkBulkStaticVar a0 a1 a2
    | _ => mkBulkStaticVar 0 0 0
    end;
  to_fields x :=
    [BulkStaticVar_Count x; BulkStaticVar_AppDomainID x; BulkStaticVar_ClrInstanceID x]
}.
Proof. all: by intros []. Defined.
