(* ===== verification/ClrEventsParser.v ===== *)
(** * The runtime's events

    Model of [ClrEventsParser.cpp]: the dispatch of an event by its keywords and
    identifier, the decoding of its payload, the calls made to the listeners, and the state
    machine that follows the garbage collections (a background one and a blocking one may be
    open at the same time).

    The listeners are other components: what the parser does to them is the sequence of
    calls it makes, each with its arguments.  [None] is a read outside of the payload, or a
    loop that does not end within its fuel. *)
From stdpp Require Import base list.
From S2P Require Import Prelude EventPayloads.

(** ** Data *)

Definition EVENT_ALLOCATION_TICK : Z := 10.
Definition EVENT_ALLOCATION_SAMPLED : Z := 303.
Definition EVENT_CONTENTION_START : Z := 81.
Definition EVENT_CONTENTION_STOP : Z := 91.
Definition EVENT_WAITHANDLE_START : Z := 301.
Definition EVENT_WAITHANDLE_STOP : Z := 302.
Definition EVENT_GC_TRIGGERED : Z := 35.
Definition EVENT_GC_START : Z := 1.
Definition EVENT_GC_END : Z := 2.
Definition EVENT_GC_HEAP_STAT : Z := 4.
Definition EVENT_GC_GLOBAL_HEAP_HISTORY : Z := 205.
Definition EVENT_GC_SUSPEND_EE_BEGIN : Z := 9.
Definition EVENT_GC_RESTART_EE_END : Z := 3.
Definition EVENT_GC_BULK_NODE : Z := 18.
Definition EVENT_GC_BULK_EDGE : Z := 19.
Definition EVENT_GC_BULK_ROOT_EDGE : Z := 16.
Definition EVENT_GC_BULK_ROOT_STATIC_VAR : Z := 38.

Definition KEYWORD_GC : Z := 0x1.
Definition KEYWORD_CONTENTION : Z := 0x4000.
Definition KEYWORD_GCHEAPDUMP : Z := 0x100000.
Definition KEYWORD_WAITHANDLE : Z := 0x40000000000.
Definition KEYWORD_ALLOCATION_SAMPLING : Z := 0x80000000000.

Definition NonConcurrentGC : Z := 0.
Definition BackgroundGC : Z := 1.
Definition ForegroundGC : Z := 2.
Definition Compaction : Z := 0x2.

Record AllocationTickV4Payload := mkTick {
  Tick_AllocationAmount : Z; Tick_AllocationKind : Z; Tick_ClrInstanceId : Z;
  Tick_AllocationAmount64 : Z; Tick_TypeId : Z; Tick_TypeName : list Z;
  Tick_HeapIndex : Z; Tick_Address : Z; Tick_ObjectSize : Z
}.

Record AllocationSampledPayload := mkSampled {
  Sampled_AllocationKind : Z; Sampled_ClrInstanceId : Z; Sampled_TypeId : Z;
  Sampled_TypeName : list Z; Sampled_Address : Z; Sampled_ObjectSize : Z;
  Sampled_SampledByteOffset : Z
}.

(** Timestamps and durations are counts of nanoseconds. *)
Record GCDetails := mkGC {
  Number : Z; Generation : Z; Reason : Z; GcType : Z; IsCompacting : bool;
  PauseDuration : Z; StartTimestamp : Z;
  gen2Size : Z; lohSize : Z; pohSize : Z; memPressure : Z;
  HasGlobalHeapHistoryBeenReceived : bool; HasHeapStatsBeenReceived : bool
}.

(** A listener that may be a null pointer is a boolean; the listeners of garbage
    collections are numbered by their registration. *)
Record ClrEventsParser := mkParser {
  _allocationEnabled : bool;
  _contentionEnabled : bool;
  _pAllocationListener : bool;
  _pContentionListener : bool;
  _pGCSuspensionsListener : bool;
  _pGarbageCollectionsListeners : list nat;
  _pGCDumpListener : bool;
  _skipReferenceChain : bool;
  _skipGcLifecycleEvents : bool;
  _suspensionStart : Z;
  _currentBGC : GCDetails;
  _gcInProgress : GCDetails
}.

Record EndReport := mkEnd {
  end_number : Z; end_generation : Z; end_reason : Z; end_type : Z; end_isCompacting : bool;
  end_pauseDuration : Z; end_totalDuration : Z; end_endTimestamp : Z;
  end_gen2Size : Z; end_lohSize : Z; end_pohSize : Z; end_memPressure : Z
}.

(** The calls to the listeners.  A pointer into the payload is its offset. *)
Inductive Notification :=
| OnAllocation (allocationKind classId : Z) (typeName : list Z) (address objectSize allocationAmount : Z)
| OnAllocationSampled (allocationKind classId : Z) (typeName : list Z)
    (address objectSize allocationByteOffset : Z)
| OnBulkNodes (Index Count pNodes : Z)
| OnBulkEdges (Index Count pEdges : Z)
| OnBulkRootEdges (Index Count pRoots : Z)
| OnBulkRootStaticVar (root : GCBulkRootStaticVarValue) (fieldName : list Z)
| OnContention (contentionDuration : option Z)
| SetBlockingThread (osThreadId : Z)
| OnWaitStart (timestamp associatedObjectId : Z)
| OnWaitStop (timestamp : Z)
| OnSuspension (timestamp number generation pauseDuration : Z)
| OnGarbageCollectionStart (listener : nat) (timestamp number generation reason type : Z)
| OnGarbageCollectionEnd (listener : nat) (report : EndReport).

(** ** Setting up *)

Definition ResetGC : GCDetails :=
  {| Number := -1; Generation := 0; Reason := 0; GcType := 0; IsCompacting := false;
     PauseDuration := 0; StartTimestamp := 0; gen2Size := 0; lohSize := 0; pohSize := 0;
     memPressure := 0; HasGlobalHeapHistoryBeenReceived := false;
     HasHeapStatsBeenReceived := false |}.

(** [_suspensionStart] is not initialised: [indeterminate] is what memory held. *)
Definition new_ClrEventsParser (pAllocationListener pContentionListener pGCSuspensionsListener : bool)
    (IsHeapSnapshotSkipTraversal IsGcLifecycleEventsProcessingSkipped pGCDumpListener : bool)
    (indeterminate : Z) : ClrEventsParser :=
  {| _allocationEnabled := true; _contentionEnabled := true;
     _pAllocationListener := pAllocationListener; _pContentionListener := pContentionListener;
     _pGCSuspensionsListener := pGCSuspensionsListener; _pGarbageCollectionsListeners := [];
     _pGCDumpListener := pGCDumpListener; _skipReferenceChain := IsHeapSnapshotSkipTraversal;
     _skipGcLifecycleEvents := IsGcLifecycleEventsProcessingSkipped;
     _suspensionStart := indeterminate; _currentBGC := ResetGC; _gcInProgress := ResetGC |}.

Section setters.
Context (s : ClrEventsParser).

Definition set_flags (allocation contention : bool) : ClrEventsParser :=
  mkParser allocation contention (_pAllocationListener s) (_pContentionListener s)
    (_pGCSuspensionsListener s) (_pGarbageCollectionsListeners s) (_pGCDumpListener s)
    (_skipReferenceChain s) (_skipGcLifecycleEvents s) (_suspensionStart s) (_currentBGC s)
    (_gcInProgress s).

Definition set_listeners (l : list nat) : ClrEventsParser :=
  mkParser (_allocationEnabled s) (_contentionEnabled s) (_pAllocationListener s)
    (_pContentionListener s) (_pGCSuspensionsListener s) l (_pGCDumpListener s)
    (_skipReferenceChain s) (_skipGcLifecycleEvents s) (_suspensionStart s) (_currentBGC s)
    (_gcInProgress s).

Definition set_gcs (suspension : Z) (bgc gc : GCDetails) : ClrEventsParser :=
  mkParser (_allocationEnabled s) (_contentionEnabled s) (_pAllocationListener s)
    (_pContentionListener s) (_pGCSuspensionsListener s) (_pGarbageCollectionsListeners s)
    (_pGCDumpListener s) (_skipReferenceChain s) (_skipGcLifecycleEvents s) suspension bgc gc.
End setters.

(** The null pointer is [None]. *)
Definition Register (pListener : option nat) (s : ClrEventsParser) : ClrEventsParser :=
  match pListener with
  | None => s
  | Some l => set_listeners s (_pGarbageCollectionsListeners s ++ [l])
  end.

Definition SetAllocationTrackingEnabled (enabled : bool) (s : ClrEventsParser) : ClrEventsParser :=
  set_flags s enabled (_contentionEnabled s).

Definition SetContentionTrackingEnabled (enabled : bool) (s : ClrEventsParser) : ClrEventsParser :=
  set_flags s (_allocationEnabled s) enabled.

(** ** Following garbage collections *)

(** The two collections that may be open. *)
Inductive Slot := Foreground | Background.

Definition gc_of (s : ClrEventsParser) (k : Slot) : GCDetails :=
  match k with Foreground => _gcInProgress s | Background => _currentBGC s end.

Definition set_gc (s : ClrEventsParser) (k : Slot) (gc : GCDetails) : ClrEventsParser :=
  match k with
  | Foreground => set_gcs s (_suspensionStart s) (_currentBGC s) gc
  | Background => set_gcs s (_suspensionStart s) gc (_gcInProgress s)
  end.

Definition set_suspension (s : ClrEventsParser) (t : Z) : ClrEventsParser :=
  set_gcs s t (_currentBGC s) (_gcInProgress s).

Definition GetCurrentGC (s : ClrEventsParser) : Slot :=
  if negb (Number (_gcInProgress s) =? -1) then Foreground else Background.

(** [number] is unsigned here and signed for the listener. *)
Definition NotifySuspension (s : ClrEventsParser) (timestamp number generation duration : Z) :
    list Notification :=
  if _pGCSuspensionsListener s then [OnSuspension timestamp (i32 number) generation duration] else [].

Definition NotifyGarbageCollectionStarted (s : ClrEventsParser)
    (timestamp number generation reason type : Z) : list Notification :=
  (fun l => OnGarbageCollectionStart l timestamp number generation reason type) <$>
    _pGarbageCollectionsListeners s.

Definition NotifyGarbageCollectionEnd (s : ClrEventsParser) (report : EndReport) : list Notification :=
  (fun l => OnGarbageCollectionEnd l report) <$> _pGarbageCollectionsListeners s.

(** The report of [gc] ending at [timestamp]. *)
Definition end_report (gc : GCDetails) (timestamp pressure : Z) : EndReport :=
  {| end_number := Number gc; end_generation := Generation gc; end_reason := Reason gc;
     end_type := GcType gc; end_isCompacting := IsCompacting gc;
     end_pauseDuration := PauseDuration gc; end_totalDuration := timestamp - StartTimestamp gc;
     end_endTimestamp := timestamp; end_gen2Size := gen2Size gc; end_lohSize := lohSize gc;
     end_pohSize := pohSize gc; end_memPressure := pressure |}.

Definition InitializeGC (timestamp : Z) (payload : GCStartPayload) : GCDetails :=
  {| Number := i32 (GCStart_Count payload); Generation := GCStart_Depth payload;
     Reason := GCStart_Reason payload; GcType := GCStart_Type payload; IsCompacting := false;
     PauseDuration := 0; StartTimestamp := timestamp; gen2Size := 0; lohSize := 0; pohSize := 0;
     memPressure := 0; HasGlobalHeapHistoryBeenReceived := false;
     HasHeapStatsBeenReceived := false |}.

Definition slot_of (payload : GCStartPayload) : Slot :=
  if (GCStart_Depth payload =? 2) && (GCStart_Type payload =? BackgroundGC)
  then Background else Foreground.

Definition OnGCStart (timestamp : Z) (payload : GCStartPayload) (s : ClrEventsParser) :
    ClrEventsParser * list Notification :=
  (set_gc s (slot_of payload) (InitializeGC timestamp payload),
   NotifyGarbageCollectionStarted s timestamp (i32 (GCStart_Count payload)) (GCStart_Depth payload)
     (GCStart_Reason payload) (GCStart_Type payload)).

Definition OnGCTriggered (s : ClrEventsParser) : ClrEventsParser * list Notification := (s, []).

Definition OnGCEnd (payload : GCEndPayload) (s : ClrEventsParser) :
    ClrEventsParser * list Notification := (s, []).

Definition OnGCSuspendEEBegin (timestamp : Z) (s : ClrEventsParser) :
    ClrEventsParser * list Notification :=
  (set_suspension s timestamp, []).

Definition set_pause (gc : GCDetails) (d : Z) : GCDetails :=
  mkGC (Number gc) (Generation gc) (Reason gc) (GcType gc) (IsCompacting gc) d (StartTimestamp gc)
    (gen2Size gc) (lohSize gc) (pohSize gc) (memPressure gc)
    (HasGlobalHeapHistoryBeenReceived gc) (HasHeapStatsBeenReceived gc).

Definition OnGCRestartEEEnd (timestamp : Z) (s : ClrEventsParser) :
    ClrEventsParser * list Notification :=
  let k := GetCurrentGC s in
  let gc := gc_of s k in
  if Number gc =? -1 then (set_suspension s 0, [])
  else
    let '(suspensionDuration, suspension) :=
      if negb (_suspensionStart s =? 0) then
        let d := timestamp - _suspensionStart s in
        (d, NotifySuspension s timestamp (u32 (Number gc)) (Generation gc) d)
      else (0, []) in
    let s := set_suspension s 0 in
    let gc := set_pause gc (PauseDuration gc + suspensionDuration) in
    if (Generation gc <? 2) || (GcType gc =? NonConcurrentGC) then
      (set_gc s k ResetGC,
       suspension ++ NotifyGarbageCollectionEnd s (end_report gc timestamp (memPressure gc)))
    else (set_gc s k gc, suspension).

Definition set_heap_stats (gc : GCDetails) (gen2 loh poh : Z) : GCDetails :=
  mkGC (Number gc) (Generation gc) (Reason gc) (GcType gc) (IsCompacting gc) (PauseDuration gc)
    (StartTimestamp gc) gen2 loh poh (memPressure gc) (HasGlobalHeapHistoryBeenReceived gc) true.

(** The flag is set even if no collection is known. *)
Definition OnGCHeapStats (timestamp gen2 loh poh : Z) (s : ClrEventsParser) :
    ClrEventsParser * list Notification :=
  let k := GetCurrentGC s in
  let gc := gc_of s k in
  if Number gc =? -1 then
    (set_gc s k (set_heap_stats gc (gen2Size gc) (lohSize gc) (pohSize gc)), [])
  else
    let gc := set_heap_stats gc gen2 loh poh in
    if HasGlobalHeapHistoryBeenReceived gc && (Generation gc =? 2) && (GcType gc =? BackgroundGC)
    then (set_gc s k ResetGC,
          NotifyGarbageCollectionEnd s (end_report gc timestamp (memPressure gc)))
    else (set_gc s k gc, []).

Definition set_history (gc : GCDetails) (compacting : bool) (pressure : Z) : GCDetails :=
  mkGC (Number gc) (Generation gc) (Reason gc) (GcType gc) compacting (PauseDuration gc)
    (StartTimestamp gc) (gen2Size gc) (lohSize gc) (pohSize gc) pressure true
    (HasHeapStatsBeenReceived gc).

Definition is_compacting (payload : GCGlobalHeapPayload) : bool :=
  Z.land (GlobalHeap_GlobalMechanisms payload) Compaction =? Compaction.

Definition OnGCGlobalHeapHistory (timestamp : Z) (payload : GCGlobalHeapPayload) (s : ClrEventsParser) :
    ClrEventsParser * list Notification :=
  let k := GetCurrentGC s in
  let gc := gc_of s k in
  if Number gc =? -1 then (s, [])
  else
    let gc := set_history gc (is_compacting payload) (GlobalHeap_MemPressure payload) in
    if HasHeapStatsBeenReceived gc && (Generation gc =? 2) && (GcType gc =? BackgroundGC)
    then (set_gc s k ResetGC,
          NotifyGarbageCollectionEnd s (end_report gc timestamp (GlobalHeap_MemPressure payload)))
    else (set_gc s k gc, []).

(** ** Decoding *)

(** The [double] with these bits, rounded half away from zero; [None] where [std::llround]
    has no specified result. *)
Definition llround (bits : Z) : option Z :=
  let e := Z.land (Z.shiftr bits 52) 0x7FF in
  let f := Z.land bits (2 ^ 52 - 1) in
  if e =? 0x7FF then None
  else
    let mant := if e =? 0 then f else f + 2 ^ 52 in
    let sh := Z.max e 1 - 1075 in
    let mag := if 0 <=? sh then mant * 2 ^ sh else (mant + 2 ^ (- sh - 1)) / 2 ^ (- sh) in
    let v := if Z.testbit bits 63 then - mag else mag in
    if (- 2 ^ 63 <=? v) && (v <? 2 ^ 63) then Some v else None.

Section decoding.
Context (cbEventData : Z) (pEventData : bytes).

Definition ParseAllocationEvent : outcome AllocationTickV4Payload :=
  '(AllocationAmount, offset) ← Read (uint 4) pEventData cbEventData 0;
  '(AllocationKind, offset) ← Read (uint 4) pEventData cbEventData offset;
  '(ClrInstanceId, offset) ← Read (uint 2) pEventData cbEventData offset;
  '(AllocationAmount64, offset) ← Read (uint 8) pEventData cbEventData offset;
  '(TypeId, offset) ← Read (uint 8) pEventData cbEventData offset;
  '(TypeName, offset) ← ReadWideString pEventData cbEventData offset;
  '(HeapIndex, offset) ← Read (uint 4) pEventData cbEventData offset;
  '(Address, offset) ← Read (uint 8) pEventData cbEventData offset;
  '(ObjectSize, offset) ← Read (uint 8) pEventData cbEventData offset;
  Ok (mkTick AllocationAmount AllocationKind ClrInstanceId AllocationAmount64 TypeId TypeName
        HeapIndex Address ObjectSize).

Definition ParseAllocationSampledPayload : outcome AllocationSampledPayload :=
  '(AllocationKind, offset) ← Read (uint 4) pEventData cbEventData 0;
  '(ClrInstanceId, offset) ← Read (uint 2) pEventData cbEventData offset;
  '(TypeId, offset) ← Read (uint 8) pEventData cbEventData offset;
  '(TypeName, offset) ← ReadWideString pEventData cbEventData offset;
  '(Address, offset) ← Read (uint 8) pEventData cbEventData offset;
  '(ObjectSize, offset) ← Read (uint 8) pEventData cbEventData offset;
  '(SampledByteOffset, offset) ← Read (uint 8) pEventData cbEventData offset;
  Ok (mkSampled AllocationKind ClrInstanceId TypeId TypeName Address ObjectSize SampledByteOffset).

Abbreviation step := (ClrEventsParser -> option (ClrEventsParser * list Notification)).

(** Reads what an event carries, and goes on with it; a refused payload ends the event. *)
Definition with_payload {A} (r : outcome A) (k : A -> step) : step := fun s =>
  match r with
  | Ok x => k x s
  | Malformed => Some (s, [])
  | OutOfBounds => None
  end.

(** The entries of a [GCBulkRootStaticVar] event, one by one. *)
Fixpoint static_vars (fuel : nat) (i Count offset : Z) : option (list Notification) :=
  if i <? Count then
    match fuel with
    | O => None
    | S fuel =>
      match Read GCBulkRootStaticVarValue pEventData cbEventData offset with
      | OutOfBounds => None
      | Malformed => Some []
      | Ok (value, offset) =>
        match ReadWideString pEventData cbEventData offset with
        | OutOfBounds => None
        | Malformed => Some []
        | Ok (fieldName, offset) =>
          rest ← static_vars fuel (u32 (i + 1)) Count offset;
          Some (OnBulkRootStaticVar value fieldName :: rest)
        end
      end
    end
  else Some [].

(** The events of a heap dump, and whether the method returns after them. *)
Definition ParseBulkEvent (id : Z) : step := fun s =>
  if id =? EVENT_GC_BULK_NODE then
    if _pGCDumpListener s then
      with_payload (Read GCBulkNodePayload pEventData cbEventData 0) (fun '(payload, offset) s =>
        Some (s, [OnBulkNodes (BulkNode_Index payload) (BulkNode_Count payload) offset])) s
    else Some (s, [])
  else if id =? EVENT_GC_BULK_EDGE then
    if _pGCDumpListener s then
      with_payload (Read GCBulkEdgePayload pEventData cbEventData 0) (fun '(payload, offset) s =>
        Some (s, [OnBulkEdges (BulkEdge_Index payload) (BulkEdge_Count payload) offset])) s
    else Some (s, [])
  else if id =? EVENT_GC_BULK_ROOT_EDGE then
    if _skipReferenceChain s then Some (s, [])
    else if _pGCDumpListener s then
      with_payload (Read GCBulkRootEdgePayload pEventData cbEventData 0) (fun '(payload, offset) s =>
        Some (s, [OnBulkRootEdges (BulkRootEdge_Index payload) (BulkRootEdge_Count payload) offset])) s
    else Some (s, [])
  else if id =? EVENT_GC_BULK_ROOT_STATIC_VAR then
    if _skipReferenceChain s then Some (s, [])
    else if _pGCDumpListener s then
      with_payload (Read GCBulkRootStaticVarPayload pEventData cbEventData 0) (fun '(payload, offset) s =>
        l ← static_vars (S (length pEventData)) 0 (BulkStaticVar_Count payload) offset;
        Some (s, l)) s
    else Some (s, [])
  else Some (s, []).

(** The sizes a [GCHeapStats] event carries. *)
Definition heap_stats (version : Z) : outcome (Z * Z * Z) :=
  if version =? 1 then
    '(payload, offset) ← Read GCHeapStatsV1Payload pEventData cbEventData 0;
    Ok (V1_GenerationSize2 payload, V1_GenerationSize3 payload, 0)
  else if version =? 2 then
    '(payload, offset) ← Read GCHeapStatsV2Payload pEventData cbEventData 0;
    Ok (V2_GenerationSize2 payload, V2_GenerationSize3 payload, V2_GenerationSize4 payload)
  else Ok (0, 0, 0).

(** The events of a collection's lifetime. *)
Definition ParseLifecycleEvent (timestamp id version : Z) : step := fun s =>
  if id =? EVENT_GC_TRIGGERED then Some (OnGCTriggered s)
  else if id =? EVENT_GC_START then
    with_payload (Read GCStartPayload pEventData cbEventData 0) (fun '(payload, _) s =>
      Some (OnGCStart timestamp payload s)) s
  else if id =? EVENT_GC_END then
    with_payload (Read GCEndPayload pEventData cbEventData 0) (fun '(payload, _) s =>
      Some (OnGCEnd payload s)) s
  else if id =? EVENT_GC_SUSPEND_EE_BEGIN then Some (OnGCSuspendEEBegin timestamp s)
  else if id =? EVENT_GC_RESTART_EE_END then Some (OnGCRestartEEEnd timestamp s)
  else if id =? EVENT_GC_HEAP_STAT then
    with_payload (heap_stats version) (fun '(gen2, loh, poh) s =>
      Some (OnGCHeapStats timestamp gen2 loh poh s)) s
  else if id =? EVENT_GC_GLOBAL_HEAP_HISTORY then
    with_payload (Read GCGlobalHeapPayload pEventData cbEventData 0) (fun '(payload, _) s =>
      Some (OnGCGlobalHeapHistory timestamp payload s)) s
  else Some (s, []).

(** No identifier belongs to both groups of events, so running them one after the other is
    what the method does: an early return out of the first skips nothing of the second. *)
Definition ParseGcEvent (timestamp id version : Z) : step := fun s =>
  if (id =? EVENT_ALLOCATION_TICK) && (version =? 4) then
    if negb (_pAllocationListener s) || negb (_allocationEnabled s) then Some (s, [])
    else
      with_payload ParseAllocationEvent (fun payload s =>
        Some (s, [OnAllocation (Tick_AllocationKind payload) (Tick_TypeId payload)
                    (Tick_TypeName payload) (Tick_Address payload) (Tick_ObjectSize payload)
                    (Tick_AllocationAmount64 payload)])) s
  else
    '(s, bulk) ← ParseBulkEvent id s;
    if _skipGcLifecycleEvents s then Some (s, bulk)
    else
      '(s, l) ← ParseLifecycleEvent timestamp id version s;
      Some (s, bulk ++ l).

Definition ParseAllocationSampledEvent (id : Z) : step := fun s =>
  if negb (_pAllocationListener s) then Some (s, [])
  else if id =? EVENT_ALLOCATION_SAMPLED then
    with_payload ParseAllocationSampledPayload (fun payload s =>
      Some (s, [OnAllocationSampled (Sampled_AllocationKind payload) (Sampled_TypeId payload)
                  (Sampled_TypeName payload) (Sampled_Address payload) (Sampled_ObjectSize payload)
                  (Sampled_SampledByteOffset payload)])) s
  else Some (s, []).

(** A refused [ContentionStop] payload returns, but its identifier is not that of the
    second test. *)
Definition ParseContentionEvent (id version : Z) : step := fun s =>
  if negb (_pContentionListener s) || negb (_contentionEnabled s) then Some (s, [])
  else if (id =? EVENT_CONTENTION_STOP) && (1 <=? version) then
    with_payload (Read ContentionStopV1Payload pEventData cbEventData 0) (fun '(payload, _) s =>
      Some (s, [OnContention (llround (ContentionStop_DurationNs payload))])) s
  else if (id =? EVENT_CONTENTION_START) && (2 <=? version) then
    with_payload (Read ContentionStartV2Payload pEventData cbEventData 0) (fun '(payload, _) s =>
      Some (s, [SetBlockingThread (ContentionStart_LockOwnerThreadID payload)])) s
  else Some (s, []).

Definition ParseWaitHandleEvent (timestamp id : Z) : step := fun s =>
  if negb (_pContentionListener s) then Some (s, [])
  else if id =? EVENT_WAITHANDLE_START then
    with_payload (Read WaitHandleWaitStartPayload pEventData cbEventData 0) (fun '(payload, _) s =>
      Some (s, [OnWaitStart timestamp (WaitStart_AssociatedObjectID payload)])) s
  else if id =? EVENT_WAITHANDLE_STOP then
    with_payload (Read WaitHandleWaitStopPayload pEventData cbEventData 0) (fun '(payload, _) s =>
      Some (s, [OnWaitStop timestamp])) s
  else Some (s, []).

Definition has_keyword (keywords k : Z) : bool := Z.land keywords k =? k.

Definition ParseEvent (timestamp version keywords id : Z) : step := fun s =>
  if has_keyword keywords KEYWORD_GC || has_keyword keywords KEYWORD_GCHEAPDUMP then
    ParseGcEvent timestamp id version s
  else if has_keyword keywords KEYWORD_CONTENTION then ParseContentionEvent id version s
  else if has_keyword keywords KEYWORD_WAITHANDLE then ParseWaitHandleEvent timestamp id s
  else if has_keyword keywords KEYWORD_ALLOCATION_SAMPLING then ParseAllocationSampledEvent id s
  else Some (s, []).
End decoding.

(** ** Sequences of events *)

Record Event := mkEvent {
  ev_timestamp : Z; ev_version : Z; ev_keywords : Z; ev_id : Z; ev_data : bytes
}.

(** Payload sizes are 32 bits wide. *)
Definition deliverable (e : Event) : Prop := zlen (ev_data e) < 2 ^ 32.

Definition deliver (e : Event) (s : ClrEventsParser) : option (ClrEventsParser * list Notification) :=
  ParseEvent (zlen (ev_data e)) (ev_data e) (ev_timestamp e) (ev_version e) (ev_keywords e)
    (ev_id e) s.

Fixpoint deliver_all (es : list Event) (s : ClrEventsParser) :
    option (ClrEventsParser * list Notification) :=
  match es with
  | [] => Some (s, [])
  | e :: es =>
    '(s, l) ← deliver e s;
    '(s, l') ← deliver_all es s;
    Some (s, l ++ l')
  end.

Lemma deliver_all_app es1 es2 s s1 l1 s2 l2 :
  deliver_all es1 s = Some (s1, l1) -> deliver_all es2 s1 = Some (s2, l2) ->
  deliver_all (es1 ++ es2) s = Some (s2, l1 ++ l2).
Proof.
  revert s l1. induction es1 as [|e es1 IH]; intros s l1 H1 H2; simpl in *; [by simplify_eq|].
  destruct (deliver e s) as [[s0 l0]|]; [|done]. simpl in *.
  destruct (deliver_all es1 s0) as [[s1' l1']|] eqn:E; [|done]. simpl in *. simplify_eq.
  erewrite IH by done. simpl. by rewrite app_assoc.
Qed.

(** ** No read leaves a payload *)

Section safety.
Context (d : bytes) (cb : Z) (Hd : delivered d cb).

(** Neither a read outside of the payload nor a loop out of fuel. *)
Definition safe {A} (r : outcome A) : Prop := r <> OutOfBounds.

Lemma Read_then T `{Pod T} {B} o (k : T * Z -> outcome B) :
  0 <= o <= cb -> Z.of_nat (sizeof T) < 2 ^ 32 ->
  (forall x o', o <= o' <= cb -> safe (k (x, o'))) -> safe (Read T d cb o ≫= k).
Proof.
  intros Ho Hs Hk. destruct (Read_safe T d cb o Hd Ho Hs) as [[-> _]|(x & -> & Hle)]; [done|].
  apply Hk. lia.
Qed.

Lemma ReadWideString_then {B} o (k : list Z * Z -> outcome B) :
  0 <= o <= cb -> (forall x o', o <= o' <= cb -> safe (k (x, o'))) ->
  safe (ReadWideString d cb o ≫= k).
Proof.
  intros Ho Hk. destruct (ReadWideString_safe d cb o Hd Ho) as [->|(x & -> & Hle)]; [done|].
  apply Hk. lia.
Qed.

Lemma cb_nonneg : 0 <= cb.
Proof. destruct Hd as [<- _]. lia. Qed.

Ltac parse_safe := pose proof cb_nonneg;
  repeat (first [apply Read_then; [lia|done|intros ???]
                |apply ReadWideString_then; [lia|intros ???]]); done.

Lemma ParseAllocationEvent_safe : safe (ParseAllocationEvent cb d).
Proof. unfold ParseAllocationEvent. parse_safe. Qed.

Lemma ParseAllocationSampledPayload_safe : safe (ParseAllocationSampledPayload cb d).
Proof. unfold ParseAllocationSampledPayload. parse_safe. Qed.

Lemma heap_stats_safe version : safe (heap_stats cb d version).
Proof. unfold heap_stats. repeat case_if; parse_safe. Qed.

Lemma Read_payload_safe T `{Pod T} : Z.of_nat (sizeof T) < 2 ^ 32 -> safe (Read T d cb 0).
Proof.
  intros Hs. pose proof cb_nonneg.
  destruct (Read_safe T d cb 0 Hd ltac:(lia) Hs) as [[-> _]|(x & -> & _)]; done.
Qed.

(** An entry takes at least 30 bytes, so the fuel is never exhausted. *)
Lemma static_vars_safe fuel i Count o :
  0 <= o <= cb -> cb - o < Z.of_nat fuel -> is_Some (static_vars cb d fuel i Count o).
Proof.
  revert i o. induction fuel as [|fuel IH]; intros i o Ho Hf; [lia|].
  cbn [static_vars]. case_if; [|eauto].
  destruct (Read_safe GCBulkRootStaticVarValue d cb o Hd Ho) as [[-> _]|(x & -> & Hle)]; [done|eauto|].
  change (Z.of_nat (sizeof GCBulkRootStaticVarValue)) with 28 in *.
  destruct (ReadWideString_safe d cb (o + 28) Hd) as [->|(y & -> & Hle')]; [lia|eauto|].
  destruct (IH (u32 (i + 1)) (o + 28 + 2 * (zlen y + 1))) as [l ->]; [lia..|]. simpl. eauto.
Qed.

(** What an event leaves alone. *)
Definition same_setup (s s' : ClrEventsParser) : Prop :=
  _allocationEnabled s' = _allocationEnabled s /\ _contentionEnabled s' = _contentionEnabled s /\
  _pAllocationListener s' = _pAllocationListener s /\
  _pContentionListener s' = _pContentionListener s /\
  _pGCSuspensionsListener s' = _pGCSuspensionsListener s /\
  _pGarbageCollectionsListeners s' = _pGarbageCollectionsListeners s /\
  _pGCDumpListener s' = _pGCDumpListener s /\ _skipReferenceChain s' = _skipReferenceChain s /\
  _skipGcLifecycleEvents s' = _skipGcLifecycleEvents s.

Definition step_ok (s : ClrEventsParser) (r : option (ClrEventsParser * list Notification)) : Prop :=
  exists s' l, r = Some (s', l) /\ same_setup s s'.

Lemma same_setup_refl s : same_setup s s.
Proof. done. Qed.

Lemma step_ok_return s s' l : same_setup s s' -> step_ok s (Some (s', l)).
Proof. unfold step_ok. eauto. Qed.

Lemma step_ok_handler s (r : ClrEventsParser * list Notification) :
  same_setup s r.1 -> step_ok s (Some r).
Proof. destruct r. apply step_ok_return. Qed.

Lemma with_payload_ok {A} (r : outcome A) k s :
  safe r -> (forall x, step_ok s (k x s)) -> step_ok s (with_payload r k s).
Proof. destruct r; simpl; intros Hr Hk; [done|by apply step_ok_return|done]. Qed.

Lemma set_gc_setup s k gc : same_setup s (set_gc s k gc).
Proof. by destruct k. Qed.

Lemma set_gcs_setup s t k gc : same_setup s (set_gc (set_suspension s t) k gc).
Proof. by destruct k. Qed.

Lemma OnGCRestartEEEnd_setup t s : same_setup s (OnGCRestartEEEnd t s).1.
Proof.
  unfold OnGCRestartEEEnd. case_if; [done|].
  destruct (negb (_suspensionStart s =? 0)); case_if; apply set_gcs_setup.
Qed.

Lemma OnGCHeapStats_setup t a b c s : same_setup s (OnGCHeapStats t a b c s).1.
Proof. unfold OnGCHeapStats. repeat case_if; apply set_gc_setup. Qed.

Lemma OnGCGlobalHeapHistory_setup t p s : same_setup s (OnGCGlobalHeapHistory t p s).1.
Proof. unfold OnGCGlobalHeapHistory. repeat case_if; try apply set_gc_setup. done. Qed.

Lemma ParseLifecycleEvent_ok t id v s : step_ok s (ParseLifecycleEvent cb d t id v s).
Proof.
  unfold ParseLifecycleEvent.
  repeat case_if; try (by apply step_ok_return);
    try (apply with_payload_ok; [by apply Read_payload_safe|intros [p o]]).
  - apply step_ok_handler, set_gc_setup.
  - by apply step_ok_return.
  - apply step_ok_handler, OnGCRestartEEEnd_setup.
  - apply with_payload_ok; [apply heap_stats_safe|intros [[a b] c]].
    apply step_ok_handler, OnGCHeapStats_setup.
  - apply step_ok_handler, OnGCGlobalHeapHistory_setup.
Qed.

Lemma ParseBulkEvent_ok id s : exists l, ParseBulkEvent cb d id s = Some (s, l).
Proof.
  assert (Hdone : exists l : list Notification, Some (s, @nil Notification) = Some (s, l)) by eauto.
  pose proof cb_nonneg as Hcb. unfold ParseBulkEvent. repeat case_if; try exact Hdone.
  - destruct (Read_safe GCBulkNodePayload d cb 0 Hd) as [[-> _]|(x & -> & _)];
      [lia|done|exact Hdone|simpl; eauto].
  - destruct (Read_safe GCBulkEdgePayload d cb 0 Hd) as [[-> _]|(x & -> & _)];
      [lia|done|exact Hdone|simpl; eauto].
  - destruct (Read_safe GCBulkRootEdgePayload d cb 0 Hd) as [[-> _]|(x & -> & _)];
      [lia|done|exact Hdone|simpl; eauto].
  - destruct (Read_safe GCBulkRootStaticVarPayload d cb 0 Hd) as [[-> _]|(x & -> & Hle)];
      [lia|done|exact Hdone|].
    cbn [with_payload].
    destruct (static_vars_safe (S (length d)) 0 (BulkStaticVar_Count x)
      (0 + Z.of_nat (sizeof GCBulkRootStaticVarPayload))) as [l ->]; [lia|destruct Hd; lia|].
    simpl. eauto.
Qed.

Lemma ParseGcEvent_ok t id v s : step_ok s (ParseGcEvent cb d t id v s).
Proof.
  unfold ParseGcEvent. repeat case_if; try (by apply step_ok_return).
  - apply with_payload_ok; [apply ParseAllocationEvent_safe|]. intros p. by apply step_ok_return.
  - destruct (ParseBulkEvent_ok id s) as [l ->]. simpl. case_if; [by apply step_ok_return|].
    destruct (ParseLifecycleEvent_ok t id v s) as (s' & l' & -> & Hs). simpl.
    by apply step_ok_return.
Qed.

Lemma ParseEvent_ok t v kw id s : step_ok s (ParseEvent cb d t v kw id s).
Proof.
  unfold ParseEvent, ParseContentionEvent, ParseWaitHandleEvent, ParseAllocationSampledEvent.
  repeat case_if; try (by apply step_ok_return); try apply ParseGcEvent_ok;
    (apply with_payload_ok;
      [by (apply Read_payload_safe || apply ParseAllocationSampledPayload_safe)|]).
  all: first [intros [p o]; by apply step_ok_return | intros p; by apply step_ok_return].
Qed.
End safety.

Lemma deliver_ok e s : deliverable e -> step_ok s (deliver e s).
Proof. intros He. apply ParseEvent_ok. by split. Qed.

Lemma deliver_all_ok es s : Forall deliverable es -> step_ok s (deliver_all es s).
Proof.
  intros Hes. revert s. induction Hes as [|e es He Hes IH]; intros s; [by apply step_ok_return|].
  cbn [deliver_all]. destruct (deliver_ok e s He) as (s1 & l1 & -> & H1). cbn [mbind option_bind].
  destruct (IH s1) as (s2 & l2 & -> & H2). cbn [mbind option_bind]. apply step_ok_return.
  unfold same_setup in *. intuition congruence.
Qed.
