(* ===== verification/GcLifecycle.v ===== *)
(** * Garbage collections as the listeners see them

    Properties of [ClrEventsParser]: for the sequences of events the runtime sends, every
    collection is reported to the listeners with the right figures; for arbitrary events and
    payloads, every report of an end is that of a collection reported started. *)
From stdpp Require Import base list.
From S2P Require Import Prelude EventPayloads ClrEventsParser.

(** ** Events of a collection's lifetime, on the wire *)

Inductive GcEvent :=
| Suspend (t : Z)
| Restart (t : Z)
| Start (t : Z) (payload : GCStartPayload)
| StatsV1 (t : Z) (payload : GCHeapStatsV1Payload)
| StatsV2 (t : Z) (payload : GCHeapStatsV2Payload)
| History (t : Z) (payload : GCGlobalHeapPayload).

Definition wire (e : GcEvent) : Event :=
  match e with
  | Suspend t => mkEvent t 1 KEYWORD_GC EVENT_GC_SUSPEND_EE_BEGIN []
  | Restart t => mkEvent t 1 KEYWORD_GC EVENT_GC_RESTART_EE_END []
  | Start t p => mkEvent t 2 KEYWORD_GC EVENT_GC_START (to_bytes p)
  | StatsV1 t p => mkEvent t 1 KEYWORD_GC EVENT_GC_HEAP_STAT (to_bytes p)
  | StatsV2 t p => mkEvent t 2 KEYWORD_GC EVENT_GC_HEAP_STAT (to_bytes p)
  | History t p => mkEvent t 2 KEYWORD_GC EVENT_GC_GLOBAL_HEAP_HISTORY (to_bytes p)
  end.

Definition event_fits (e : GcEvent) : Prop :=
  match e with
  | Suspend _ | Restart _ => True
  | Start _ p => fits p
  | StatsV1 _ p => fits p
  | StatsV2 _ p => fits p
  | History _ p => fits p
  end.

Definition handle (e : GcEvent) (s : ClrEventsParser) : ClrEventsParser * list Notification :=
  match e with
  | Suspend t => OnGCSuspendEEBegin t s
  | Restart t => OnGCRestartEEEnd t s
  | Start t p => OnGCStart t p s
  | StatsV1 t p => OnGCHeapStats t (V1_GenerationSize2 p) (V1_GenerationSize3 p) 0 s
  | StatsV2 t p =>
      OnGCHeapStats t (V2_GenerationSize2 p) (V2_GenerationSize3 p) (V2_GenerationSize4 p) s
  | History t p => OnGCGlobalHeapHistory t p s
  end.

Fixpoint handle_all (es : list GcEvent) (s : ClrEventsParser) : ClrEventsParser * list Notification :=
  match es with
  | [] => (s, [])
  | e :: es =>
    let '(s, l) := handle e s in
    let '(s, l') := handle_all es s in (s, l ++ l')
  end.

(** A payload that is exactly one structure. *)
Lemma Read_whole T `{Pod T} (x : T) :
  fits x -> Z.of_nat (sizeof T) < 2 ^ 32 ->
  Read T (to_bytes x) (zlen (to_bytes x)) 0 = Ok (x, Z.of_nat (sizeof T)).
Proof.
  intros Hx Hs. pose proof (Read_app T [] x [] (zlen (to_bytes x)) Hx) as Hr.
  rewrite app_nil_r in Hr. cbn [app length] in Hr. rewrite to_bytes_length in *.
  apply Hr. split; [by rewrite to_bytes_length|done].
Qed.

Lemma deliver_wire e s :
  event_fits e -> _skipGcLifecycleEvents s = false -> deliver (wire e) s = Some (handle e s).
Proof.
  intros He Hs. unfold deliver, ParseEvent, ParseGcEvent, ParseBulkEvent, ParseLifecycleEvent.
  destruct e; cbn -[Read to_bytes length handle has_keyword] in *;
    change (has_keyword KEYWORD_GC KEYWORD_GC) with true; cbn [orb]; rewrite Hs;
    cbn -[Read to_bytes length handle]; unfold heap_stats; cbn -[Read to_bytes length handle];
    rewrite ?(Read_whole _ payload) by done; cbn [mbind option_bind outcome_bind with_payload];
    cbn [handle]; first [reflexivity|match goal with |- _ = Some ?x => destruct x; reflexivity end].
Qed.

Lemma handle_setup e s : same_setup s (handle e s).1.
Proof.
  destruct e; cbn [handle].
  - done.
  - apply OnGCRestartEEEnd_setup.
  - apply set_gc_setup.
  - apply OnGCHeapStats_setup.
  - apply OnGCHeapStats_setup.
  - apply OnGCGlobalHeapHistory_setup.
Qed.

Lemma deliver_wires es s :
  Forall event_fits es -> _skipGcLifecycleEvents s = false ->
  deliver_all (wire <$> es) s = Some (handle_all es s).
Proof.
  intros Hes. revert s. induction Hes as [|e es He Hes IH]; intros s Hs; [done|].
  rewrite fmap_cons. cbn [deliver_all handle_all]. rewrite deliver_wire by done.
  destruct (handle e s) as [s1 l1] eqn:E. cbn [mbind option_bind].
  pose proof (handle_setup e s) as Hsetup. rewrite E in Hsetup. cbn in Hsetup.
  rewrite IH by (destruct Hsetup as (_&_&_&_&_&_&_&_&?); congruence).
  by destruct (handle_all es s1).
Qed.

(** ** The sequences of events the runtime sends *)

(** What the collection followed learns from an event of its lifetime. *)
Definition observe (gc : GCDetails) (e : GcEvent) : GCDetails :=
  match e with
  | StatsV1 _ p => set_heap_stats gc (V1_GenerationSize2 p) (V1_GenerationSize3 p) 0
  | StatsV2 _ p =>
      set_heap_stats gc (V2_GenerationSize2 p) (V2_GenerationSize3 p) (V2_GenerationSize4 p)
  | History _ p => set_history gc (is_compacting p) (GlobalHeap_MemPressure p)
  | _ => gc
  end.

Definition is_observation (e : GcEvent) : bool :=
  match e with StatsV1 _ _ | StatsV2 _ _ | History _ _ => true | _ => false end.

(** A whole blocking collection, or a pause of the background one. *)
Inductive Episode :=
| Blocking (t0 t1 : Z) (payload : GCStartPayload) (observed : list GcEvent) (t2 : Z)
| Pause (t0 t2 : Z).

Definition events_of (e : Episode) : list GcEvent :=
  match e with
  | Blocking t0 t1 p observed t2 => Suspend t0 :: Start t1 p :: observed ++ [Restart t2]
  | Pause t0 t2 => [Suspend t0; Restart t2]
  end.

(** A collection the execution engine's restart ends. *)
Definition blocking (p : GCStartPayload) : Prop :=
  i32 (GCStart_Count p) <> -1 /\ (GCStart_Depth p < 2 \/ GCStart_Type p = NonConcurrentGC).

Definition background (p : GCStartPayload) : Prop :=
  i32 (GCStart_Count p) <> -1 /\ GCStart_Depth p = 2 /\ GCStart_Type p = BackgroundGC.

Definition episode_ok (e : Episode) : Prop :=
  match e with
  | Blocking t0 _ p observed _ =>
      t0 <> 0 /\ blocking p /\ forallb is_observation observed = true /\ fits p /\
      Forall event_fits observed
  | Pause t0 _ => t0 <> 0
  end.

Definition pause_of (e : Episode) : Z := match e with Pause t0 t2 => t2 - t0 | _ => 0 end.
Definition pauses (es : list Episode) : Z := foldr (fun e n => pause_of e + n) 0 es.

(** The calls a blocking collection, or a pause of [bgc], must give. *)
Definition calls_of (s : ClrEventsParser) (bgc : GCStartPayload) (e : Episode) : list Notification :=
  match e with
  | Blocking t0 t1 p observed t2 =>
      let gc := fold_left observe observed (InitializeGC t1 p) in
      NotifyGarbageCollectionStarted s t1 (i32 (GCStart_Count p)) (GCStart_Depth p)
        (GCStart_Reason p) (GCStart_Type p) ++
      NotifySuspension s t2 (GCStart_Count p) (GCStart_Depth p) (t2 - t0) ++
      NotifyGarbageCollectionEnd s (end_report (set_pause gc (t2 - t0)) t2 (memPressure gc))
  | Pause t0 t2 => NotifySuspension s t2 (GCStart_Count bgc) (GCStart_Depth bgc) (t2 - t0)
  end.

Lemma handle_all_app es1 es2 s :
  handle_all (es1 ++ es2) s =
  let '(s1, l1) := handle_all es1 s in let '(s2, l2) := handle_all es2 s1 in (s2, l1 ++ l2).
Proof.
  revert s. induction es1 as [|e es1 IH]; intros s.
  - cbn [app handle_all]. by destruct (handle_all es2 s).
  - cbn [app handle_all]. destruct (handle e s) as [s0 l0]. rewrite IH.
    destruct (handle_all es1 s0) as [s1 l1], (handle_all es2 s1) as [s2 l2]. by rewrite app_assoc.
Qed.

(** The signed number of a collection and its unsigned form name the same one. *)
Lemma i32_idemp n : i32 (u32 (i32 n)) = i32 n.
Proof.
  unfold swrap, wrap. rewrite !Zmod_mod.
  pose proof (Z.mod_pos_bound n (2 ^ 32) ltac:(lia)).
  assert ((if n mod 2 ^ 32 <? 2 ^ (32 - 1) then n mod 2 ^ 32 else n mod 2 ^ 32 - 2 ^ 32) mod 2 ^ 32
    = n mod 2 ^ 32) as ->; [|done].
  case_if; [by apply Zmod_mod|].
  rewrite <- Zminus_mod_idemp_r, Z_mod_same_full, Z.sub_0_r. apply Zmod_mod.
Qed.

Section episodes.
Context (s0 : ClrEventsParser) (bgc : GCStartPayload).
Hypothesis Hbgc : background bgc.

(** Known facts of [gc] that events of its lifetime leave alone. *)
Definition started (gc : GCDetails) (t : Z) (p : GCStartPayload) : Prop :=
  Number gc = i32 (GCStart_Count p) /\ Generation gc = GCStart_Depth p /\
  Reason gc = GCStart_Reason p /\ GcType gc = GCStart_Type p /\ StartTimestamp gc = t.

Lemma observe_started gc t p e : started gc t p -> started (observe gc e) t p.
Proof. by destruct e. Qed.

Lemma observe_pause gc e : PauseDuration (observe gc e) = PauseDuration gc.
Proof. by destruct e. Qed.

Lemma fold_observe_started l gc t p : started gc t p -> started (fold_left observe l gc) t p.
Proof. revert gc. induction l as [|e l IH]; intros gc Hgc; [done|]. by apply IH, observe_started. Qed.

Lemma fold_observe_pause l gc : PauseDuration (fold_left observe l gc) = PauseDuration gc.
Proof.
  revert gc. induction l as [|e l IH]; intros gc; [done|]. cbn [fold_left]. by rewrite IH, observe_pause.
Qed.

(** An observation of the collection in progress, which it does not end. *)
Lemma handle_observation e s k gc t p :
  is_observation e = true -> GetCurrentGC s = k -> gc_of s k = gc -> started gc t p ->
  i32 (GCStart_Count p) <> -1 ->
  (blocking p \/ HasGlobalHeapHistoryBeenReceived (observe gc e) = false \/
   HasHeapStatsBeenReceived (observe gc e) = false) ->
  handle e s = (set_gc s k (observe gc e), []).
Proof.
  intros He <- <- (Hn & Hg & _ & Ht & _) Hp Hend.
  assert (Hno : HasGlobalHeapHistoryBeenReceived (observe (gc_of s (GetCurrentGC s)) e) &&
    HasHeapStatsBeenReceived (observe (gc_of s (GetCurrentGC s)) e) &&
    (GCStart_Depth p =? 2) && (GCStart_Type p =? BackgroundGC) = false).
  { destruct Hend as [[_ Hb]|[-> | ->]]; [|done|by rewrite andb_false_r].
    unfold BackgroundGC, NonConcurrentGC in *.
    apply not_true_iff_false. intros Hc. bool_facts. lia. }
  destruct e; try done; cbn [handle observe] in *; unfold OnGCHeapStats, OnGCGlobalHeapHistory;
    rewrite Hn, (proj2 (Z.eqb_neq _ _) Hp);
    cbn [HasGlobalHeapHistoryBeenReceived HasHeapStatsBeenReceived set_heap_stats set_history
      Generation GcType] in *; rewrite Hg, Ht.
  1, 2: rewrite andb_true_r in Hno; by rewrite Hno.
  cbn [andb] in Hno. by rewrite Hno.
Qed.

(** Foreground collections while the background slot holds [b]. *)
Abbreviation st t b f := (set_gcs s0 t b f).

Lemma handle_observed l t b gc t1 p :
  forallb is_observation l = true -> started gc t1 p -> blocking p ->
  handle_all l (st t b gc) = (st t b (fold_left observe l gc), []).
Proof.
  revert gc. induction l as [|e l IH]; intros gc Hl Hgc Hp; [done|].
  cbn [forallb] in Hl. bool_facts. cbn [handle_all fold_left].
  rewrite (handle_observation e _ Foreground gc t1 p); [|done| |done|done|apply Hp|by left].
  - cbn [set_gc]. change (set_gcs (st t b gc) _ _ ?g) with (st t b g).
    by rewrite IH by (done || by apply observe_started).
  - unfold GetCurrentGC. cbn [_gcInProgress set_gcs]. destruct Hgc as (-> & _), Hp as [Hp _].
    by rewrite (proj2 (Z.eqb_neq _ _) Hp).
Qed.

(** The restart that ends a blocking collection. *)
Lemma handle_restart_blocking t0 t2 b gc t1 p :
  t0 <> 0 -> started gc t1 p -> PauseDuration gc = 0 -> blocking p ->
  handle (Restart t2) (st t0 b gc) =
  (st 0 b ResetGC,
   NotifySuspension s0 t2 (GCStart_Count p) (GCStart_Depth p) (t2 - t0) ++
   NotifyGarbageCollectionEnd s0 (end_report (set_pause gc (t2 - t0)) t2 (memPressure gc))).
Proof.
  intros Ht (Hn & Hg & _ & Htp & _) Hpd [Hp Hb]. cbn [handle].
  unfold OnGCRestartEEEnd, GetCurrentGC. cbn [_gcInProgress set_gcs gc_of].
  rewrite Hn, (proj2 (Z.eqb_neq _ _) Hp). cbn [negb gc_of _gcInProgress set_gcs _suspensionStart].
  rewrite Hn, (proj2 (Z.eqb_neq _ _) Hp), (proj2 (Z.eqb_neq _ _) Ht). cbn [negb].
  cbn [Generation GcType set_pause]. rewrite Hg, Htp.
  assert ((GCStart_Depth p <? 2) || (GCStart_Type p =? NonConcurrentGC) = true) as ->.
  { apply orb_true_iff. rewrite Z.ltb_lt, Z.eqb_eq. tauto. }
  unfold NotifySuspension. rewrite i32_idemp, Hpd. done.
Qed.

Lemma blocking_episode t b f t0 t1 p observed t2 :
  episode_ok (Blocking t0 t1 p observed t2) ->
  handle_all (events_of (Blocking t0 t1 p observed t2)) (st t b f) =
  (st 0 b ResetGC, calls_of s0 bgc (Blocking t0 t1 p observed t2)).
Proof.
  intros (Ht0 & Hp & Hobs & _). cbn [events_of handle_all handle].
  unfold OnGCSuspendEEBegin, OnGCStart.
  assert (slot_of p = Foreground) as ->.
  { destruct Hp as [_ Hp]. unfold slot_of, BackgroundGC, NonConcurrentGC in *.
    case_if; [bool_facts; lia|done]. }
  change (set_gc (set_suspension (st t b f) t0) Foreground ?g) with (st t0 b g).
  rewrite handle_all_app, (handle_observed _ _ _ _ t1 p) by (done || by repeat split).
  cbn [handle_all app].
  rewrite (handle_restart_blocking _ _ _ _ t1 p);
    [|done|by apply fold_observe_started|by rewrite fold_observe_pause|done].
  cbn [calls_of]. by rewrite !app_nil_r.
Qed.

(** A pause the background collection is charged with. *)
Lemma handle_restart_background t0 t2 b t1 :
  t0 <> 0 -> started b t1 bgc ->
  handle (Restart t2) (st t0 b ResetGC) =
  (st 0 (set_pause b (PauseDuration b + (t2 - t0))) ResetGC,
   NotifySuspension s0 t2 (GCStart_Count bgc) (GCStart_Depth bgc) (t2 - t0)).
Proof.
  intros Ht (Hn & Hg & _ & Htp & _). destruct Hbgc as (Hp & Hd & Hty). cbn [handle].
  unfold OnGCRestartEEEnd. change (GetCurrentGC (st t0 b ResetGC)) with Background.
  cbn [gc_of _currentBGC set_gcs].
  rewrite Hn, (proj2 (Z.eqb_neq _ _) Hp). cbn [_suspensionStart set_gcs].
  rewrite (proj2 (Z.eqb_neq _ _) Ht). cbn [negb Generation GcType set_pause].
  rewrite Hg, Htp, Hd, Hty. cbn [Z.ltb Z.eqb orb BackgroundGC NonConcurrentGC Z.compare].
  unfold NotifySuspension. by rewrite i32_idemp.
Qed.

Lemma pause_episode t b t0 t2 t1 :
  t0 <> 0 -> started b t1 bgc ->
  handle_all (events_of (Pause t0 t2)) (st t b ResetGC) =
  (st 0 (set_pause b (PauseDuration b + (t2 - t0))) ResetGC, calls_of s0 bgc (Pause t0 t2)).
Proof.
  intros Ht Hb. cbn [events_of handle_all].
  change (handle (Suspend t0) ?s) with (OnGCSuspendEEBegin t0 s). unfold OnGCSuspendEEBegin.
  change (set_suspension (st t b ?f) t0) with (st t0 b f).
  rewrite (handle_restart_background _ _ _ t1) by done. cbn [calls_of]. by rewrite app_nil_r.
Qed.

(** Any mix of blocking collections and pauses, while [bgc] runs. *)
Lemma episodes t1 es b :
  Forall episode_ok es -> started b t1 bgc ->
  handle_all (concat (events_of <$> es)) (st 0 b ResetGC) =
  (st 0 (set_pause b (PauseDuration b + pauses es)) ResetGC, concat (calls_of s0 bgc <$> es)).
Proof.
  intros Hes. revert b. induction Hes as [|e es He Hes IH]; intros b Hb.
  - cbn. destruct b. cbn. by rewrite Z.add_0_r.
  - rewrite !fmap_cons. cbn [concat]. rewrite handle_all_app. destruct e as [t0 t1' p obs t2|t0 t2].
    + by rewrite blocking_episode, IH by done.
    + rewrite (pause_episode _ _ _ _ t1) by done. rewrite IH by done.
      unfold pauses. cbn [foldr pause_of PauseDuration set_pause]. by rewrite Z.add_assoc.
Qed.
End episodes.

(** What a background collection learns last, in one order or the other. *)
Definition completing (statsFirst : bool) (ts th : Z) (q : GCHeapStatsV2Payload)
    (h : GCGlobalHeapPayload) : GcEvent * GcEvent :=
  if statsFirst then (StatsV2 ts q, History th h) else (History th h, StatsV2 ts q).

Definition background_report (t1 : Z) (p : GCStartPayload) (pause tend : Z)
    (q : GCHeapStatsV2Payload) (h : GCGlobalHeapPayload) : EndReport :=
  {| end_number := i32 (GCStart_Count p); end_generation := 2; end_reason := GCStart_Reason p;
     end_type := BackgroundGC; end_isCompacting := is_compacting h; end_pauseDuration := pause;
     end_totalDuration := tend - t1; end_endTimestamp := tend;
     end_gen2Size := V2_GenerationSize2 q; end_lohSize := V2_GenerationSize3 q;
     end_pohSize := V2_GenerationSize4 q; end_memPressure := GlobalHeap_MemPressure h |}.

Section background_gc.
Context (s0 : ClrEventsParser) (p : GCStartPayload) (t1 : Z).
Hypothesis Hp : background p.
Abbreviation st t b f := (set_gcs s0 t b f).

Lemma background_start t b f :
  handle (Start t1 p) (st t b f) =
  (st t (InitializeGC t1 p) f,
   NotifyGarbageCollectionStarted s0 t1 (i32 (GCStart_Count p)) (GCStart_Depth p)
     (GCStart_Reason p) (GCStart_Type p)).
Proof.
  destruct Hp as (_ & Hd & Ht). cbn [handle]. unfold OnGCStart, slot_of. rewrite Hd, Ht. done.
Qed.

(** The second of the two events ends the collection. *)
Lemma handle_completing (statsFirst : bool) ts th q h gc t :
  started gc t1 p ->
  HasGlobalHeapHistoryBeenReceived gc = negb statsFirst -> HasHeapStatsBeenReceived gc = statsFirst ->
  (if statsFirst
   then gen2Size gc = V2_GenerationSize2 q /\ lohSize gc = V2_GenerationSize3 q /\
        pohSize gc = V2_GenerationSize4 q
   else IsCompacting gc = is_compacting h /\ memPressure gc = GlobalHeap_MemPressure h) ->
  handle (completing statsFirst ts th q h).2 (st t gc ResetGC) =
  (st t ResetGC ResetGC,
   NotifyGarbageCollectionEnd s0
     (background_report t1 p (PauseDuration gc) (if statsFirst then th else ts) q h)).
Proof.
  intros (Hn & Hg & Hr & Ht & Hst) Hh Hs Hknown. destruct Hp as (Hne & Hd & Hty).
  destruct statsFirst; cbn [completing snd handle];
    [unfold OnGCGlobalHeapHistory|unfold OnGCHeapStats];
    change (GetCurrentGC (st t gc ResetGC)) with Background; cbn [gc_of _currentBGC set_gcs];
    rewrite Hn, (proj2 (Z.eqb_neq _ _) Hne);
    cbn [set_history set_heap_stats HasHeapStatsBeenReceived HasGlobalHeapHistoryBeenReceived
      Generation GcType]; rewrite ?Hs, ?Hh, Hg, Ht, Hd, Hty;
    cbn [andb negb Z.eqb Pos.eqb BackgroundGC]; unfold end_report, background_report;
    cbn [set_history set_heap_stats Number Generation Reason GcType IsCompacting PauseDuration
      StartTimestamp gen2Size lohSize pohSize memPressure]; rewrite Hn, Hg, Hr, Ht, Hst, Hd, Hty.
  - by destruct Hknown as (-> & -> & ->).
  - by destruct Hknown as (-> & ->).
Qed.

(** The first one is only remembered. *)
Lemma handle_first (statsFirst : bool) ts th q h gc t :
  started gc t1 p -> HasGlobalHeapHistoryBeenReceived gc = false -> HasHeapStatsBeenReceived gc = false ->
  handle (completing statsFirst ts th q h).1 (st t gc ResetGC) =
  (st t (observe gc (completing statsFirst ts th q h).1) ResetGC, []).
Proof.
  intros Hgc Hh Hs.
  rewrite (handle_observation (completing statsFirst ts th q h).1 _ Background gc t1 p).
  - done.
  - by destruct statsFirst.
  - done.
  - done.
  - done.
  - apply Hp.
  - right. destruct statsFirst; cbn; auto.
Qed.
End background_gc.

(** ** Properties *)

(** From any state, the events of a blocking collection (suspension, start, sizes and
    history in any number and order, restart) are parsed into: the start, the suspension and
    the end with the pause and total durations and the last sizes and memory pressure
    received, once per registered listener; a background collection being followed is left
    as it was. *)
Theorem blocking_gc_reported s t0 t1 p observed t2 :
  _skipGcLifecycleEvents s = false -> episode_ok (Blocking t0 t1 p observed t2) ->
  deliver_all (wire <$> events_of (Blocking t0 t1 p observed t2)) s =
  Some (set_gcs s 0 (_currentBGC s) ResetGC, calls_of s p (Blocking t0 t1 p observed t2)).
Proof.
  intros Hskip He. rewrite deliver_wires; [|destruct He as (_ & _ & _ & Hf & Hfs)|done].
  - f_equal. replace s with (set_gcs s (_suspensionStart s) (_currentBGC s) (_gcInProgress s)) at 1
      by (by destruct s).
    rewrite (blocking_episode s p) by done. done.
  - cbn [events_of]. repeat (apply Forall_cons; split; [done|]).
    apply Forall_app. split; [done|]. by repeat constructor.
Qed.

Lemma events_of_fit e : episode_ok e -> Forall event_fits (events_of e).
Proof.
  destruct e as [t0 t1 p obs t2|t0 t2]; cbn [episode_ok events_of].
  - intros (_ & _ & _ & Hp & Hobs). do 2 (apply Forall_cons; split; [done|]).
    apply Forall_app. split; [done|]. by apply Forall_singleton.
  - intros _. by repeat (apply Forall_cons; split; [done|]).
Qed.

Lemma episodes_fit es : Forall episode_ok es -> Forall event_fits (concat (events_of <$> es)).
Proof.
  induction 1 as [|e es He Hes IH]; [done|]. rewrite fmap_cons. cbn [concat].
  apply Forall_app. split; [by apply events_of_fit|done].
Qed.

(** A background collection: its opening pause, and what happens until it ends. *)
Definition background_events (t0 t1 : Z) (p : GCStartPayload) (t2 : Z) (es1 : list Episode)
    (a : GcEvent) (es2 : list Episode) (b : GcEvent) : list GcEvent :=
  [Suspend t0; Start t1 p; Restart t2] ++ concat (events_of <$> es1) ++ [a] ++
  concat (events_of <$> es2) ++ [b].

Lemma background_run s0 statsFirst t b0 t0 t1 p t2 es1 es2 ts th q h :
  background p -> t0 <> 0 -> Forall episode_ok es1 -> Forall episode_ok es2 ->
  handle_all (background_events t0 t1 p t2 es1 (completing statsFirst ts th q h).1 es2
    (completing statsFirst ts th q h).2) (set_gcs s0 t b0 ResetGC) =
  (set_gcs s0 0 ResetGC ResetGC,
   NotifyGarbageCollectionStarted s0 t1 (i32 (GCStart_Count p)) (GCStart_Depth p)
     (GCStart_Reason p) (GCStart_Type p) ++
   calls_of s0 p (Pause t0 t2) ++ concat (calls_of s0 p <$> es1) ++ concat (calls_of s0 p <$> es2) ++
   NotifyGarbageCollectionEnd s0
     (background_report t1 p (t2 - t0 + pauses es1 + pauses es2) (if statsFirst then th else ts) q h)).
Proof.
  intros Hp Ht0 H1 H2. unfold background_events. set (a := (completing _ _ _ _ _).1).
  set (b := (completing _ _ _ _ _).2).
  assert (Hst : started (InitializeGC t1 p) t1 p) by done.
  cbn [app handle_all]. change (handle (Suspend t0) ?s) with (OnGCSuspendEEBegin t0 s).
  unfold OnGCSuspendEEBegin. change (set_suspension (set_gcs s0 t b0 ?f) t0) with (set_gcs s0 t0 b0 f).
  rewrite (background_start s0 p t1 Hp), (handle_restart_background s0 p Hp _ _ _ t1) by done.
  rewrite handle_all_app, (episodes s0 p Hp t1) by done. cbn [handle_all].
  unfold a. rewrite (handle_first s0 p t1 Hp) by done. fold a.
  rewrite handle_all_app, (episodes s0 p Hp t1) by (done || by apply observe_started).
  cbn [handle_all]. unfold b. rewrite (handle_completing s0 p t1 Hp).
  - cbn [PauseDuration set_pause]. rewrite observe_pause. cbn [PauseDuration set_pause InitializeGC].
    cbn [calls_of app]. by rewrite Z.add_0_l, app_nil_r.
  - by apply observe_started.
  - by destruct statsFirst.
  - by destruct statsFirst.
  - by destruct statsFirst.
Qed.

(** C24: a background collection is reported ended exactly once, when the second of its heap
    statistics and its history arrives, whichever comes last, with its own sizes and the sum
    of its own pauses, however many blocking collections ran meanwhile; and each of these is
    reported as if the background one did not exist. *)
Theorem background_gc_reported s statsFirst t0 t1 p t2 es1 es2 ts th q h :
  _skipGcLifecycleEvents s = false -> _gcInProgress s = ResetGC ->
  background p -> fits p -> fits q -> fits h -> t0 <> 0 ->
  Forall episode_ok es1 -> Forall episode_ok es2 ->
  let '(a, b) := completing statsFirst ts th q h in
  deliver_all (wire <$> background_events t0 t1 p t2 es1 a es2 b) s =
  Some (set_gcs s 0 ResetGC ResetGC,
    NotifyGarbageCollectionStarted s t1 (i32 (GCStart_Count p)) 2 (GCStart_Reason p) BackgroundGC ++
    calls_of s p (Pause t0 t2) ++
    concat (calls_of s p <$> es1) ++ concat (calls_of s p <$> es2) ++
    NotifyGarbageCollectionEnd s
      (background_report t1 p (t2 - t0 + pauses es1 + pauses es2) (if statsFirst then th else ts) q h)).
Proof.
  intros Hskip Hfg Hp Hfp Hfq Hfh Ht0 H1 H2. destruct (completing statsFirst ts th q h) as [a b] eqn:Eab.
  assert (Hab : event_fits a /\ event_fits b)
    by (unfold completing in Eab; destruct statsFirst; simplify_eq; done).
  rewrite deliver_wires; [|unfold background_events|done].
  - f_equal. replace s with (set_gcs s (_suspensionStart s) (_currentBGC s) ResetGC) at 1
      by (destruct s; cbn in *; by subst).
    pose proof (background_run s statsFirst (_suspensionStart s) (_currentBGC s) t0 t1 p t2 es1 es2
      ts th q h Hp Ht0 H1 H2) as Hr.
    rewrite Eab in Hr. cbn [fst snd] in Hr. rewrite Hr. by destruct Hp as (_ & -> & ->).
  - rewrite !Forall_app, !Forall_cons, !Forall_nil. naive_solver (by apply episodes_fit).
Qed.

(** ** What a listener is told, for arbitrary events *)

Record OpenGC := mkOpen {
  o_number : Z; o_generation : Z; o_reason : Z; o_type : Z; o_start : Z; o_pause : Z
}.

(** The blocking and the background collection a listener knows to be open. *)
Definition Monitor : Type := option OpenGC * option OpenGC.

Definition current (m : Monitor) : option OpenGC := match m.1 with Some o => Some o | None => m.2 end.
Definition set_current (m : Monitor) (o : option OpenGC) : Monitor :=
  match m.1 with Some _ => (o, m.2) | None => (None, o) end.

Definition ends (o : OpenGC) (r : EndReport) : bool :=
  (end_number r =? o_number o) && (end_generation r =? o_generation o) &&
  (end_reason r =? o_reason o) && (end_type r =? o_type o) &&
  (end_pauseDuration r =? o_pause o) && (end_totalDuration r =? end_endTimestamp r - o_start o).

(** One call, as listener [l] sees it: [None] if it contradicts the calls before.  A
    suspension or an end must be that of the collection open (the blocking one first); an
    end must give the sum of the suspensions told for it and the time since its start. *)
Definition watch (l : nat) (m : Monitor) (n : Notification) : option Monitor :=
  match n with
  | OnGarbageCollectionStart l' t num g r ty =>
      if decide (l' = l) then
        let o := if num =? -1 then None else Some (mkOpen num g r ty t 0) in
        Some (if (g =? 2) && (ty =? BackgroundGC) then (m.1, o) else (o, m.2))
      else Some m
  | OnSuspension _ num g d =>
      o ← current m;
      if (num =? o_number o) && (g =? o_generation o) then
        Some (set_current m (Some (mkOpen (o_number o) (o_generation o) (o_reason o) (o_type o)
                                     (o_start o) (o_pause o + d))))
      else None
  | OnGarbageCollectionEnd l' r =>
      if decide (l' = l) then
        o ← current m; if ends o r then Some (set_current m None) else None
      else Some m
  | _ => Some m
  end.

Fixpoint watch_all (l : nat) (m : Monitor) (ns : list Notification) : option Monitor :=
  match ns with [] => Some m | n :: ns => m ← watch l m n; watch_all l m ns end.

Section monitoring.
Context (l : nat).

Lemma watch_all_app m ns1 ns2 :
  watch_all l m (ns1 ++ ns2) = m ← watch_all l m ns1; watch_all l m ns2.
Proof.
  revert m. induction ns1 as [|n ns1 IH]; intros m; [done|]. cbn [app watch_all].
  destruct (watch l m n); [apply IH|done].
Qed.

(** Calls that are not about collections. *)
Definition quiet (n : Notification) : Prop := forall m, watch l m n = Some m.

Lemma watch_quiet m ns : Forall quiet ns -> watch_all l m ns = Some m.
Proof. induction 1 as [|n ns Hn Hns IH]; [done|]. cbn [watch_all]. by rewrite Hn. Qed.

(** One call per listener is one call for [l]. *)
Lemma watch_broadcast m (f : nat -> Notification) ls :
  NoDup ls -> l ∈ ls -> (forall l', l' <> l -> quiet (f l')) ->
  watch_all l m (f <$> ls) = watch l m (f l).
Proof.
  intros Hnd Hl Hf. apply list_elem_of_split in Hl as (l1 & l2 & ->).
  apply NoDup_app in Hnd as (_ & Hl1 & Hnd). apply NoDup_cons in Hnd as [Hl2 _].
  rewrite fmap_app, fmap_cons, watch_all_app, watch_quiet.
  - cbn [mbind option_bind watch_all]. destruct (watch l m (f l)) as [m'|]; [|done].
    cbn [mbind option_bind]. apply watch_quiet, Forall_fmap, Forall_forall.
    intros l' Hl'. apply Hf. by intros ->.
  - apply Forall_fmap, Forall_forall. intros l' Hl'. apply Hf. intros ->. apply (Hl1 l Hl'). by left.
Qed.

(** What the listener knows of a collection the parser follows. *)
Definition known (gc : GCDetails) : option OpenGC :=
  if Number gc =? -1 then None
  else Some (mkOpen (Number gc) (Generation gc) (Reason gc) (GcType gc) (StartTimestamp gc)
               (PauseDuration gc)).

Definition known_of (s : ClrEventsParser) : Monitor := (known (_gcInProgress s), known (_currentBGC s)).

Record watched (s : ClrEventsParser) : Prop := {
  watched_nodup : NoDup (_pGarbageCollectionsListeners s);
  watched_in : l ∈ _pGarbageCollectionsListeners s;
  watched_suspensions : _pGCSuspensionsListener s = true;
  watched_numbers k : i32 (u32 (Number (gc_of s k))) = Number (gc_of s k)
}.

Lemma watched_setup s s' :
  watched s -> same_setup s s' -> (forall k, i32 (u32 (Number (gc_of s' k))) = Number (gc_of s' k)) ->
  watched s'.
Proof.
  intros [H1 H2 H3 _] (_ & _ & _ & _ & E1 & E2 & _) Hn. by split; rewrite ?E1, ?E2.
Qed.

(** The slot the next suspension or end is about. *)
Lemma current_known s : current (known_of s) = known (gc_of s (GetCurrentGC s)).
Proof.
  unfold current, known_of, GetCurrentGC, known, gc_of. cbn [fst snd].
  destruct (Number (_gcInProgress s) =? -1) eqn:E; cbn [negb]; [done|]. by rewrite E.
Qed.

Lemma set_current_known s gc :
  set_current (known_of s) (known gc) = known_of (set_gc s (GetCurrentGC s) gc).
Proof.
  unfold set_current, known_of, GetCurrentGC. cbn [fst snd].
  unfold known at 1. destruct (Number (_gcInProgress s) =? -1) eqn:E; cbn; [|done].
  unfold known at 2. by rewrite E.
Qed.

Lemma handler_start t p s :
  watched s ->
  watch_all l (known_of s) (OnGCStart t p s).2 = Some (known_of (OnGCStart t p s).1) /\
  watched (OnGCStart t p s).1.
Proof.
  intros Hs. cbn [OnGCStart fst snd]. unfold NotifyGarbageCollectionStarted. split.
  - rewrite watch_broadcast; [|apply Hs|apply Hs|].
    + cbn [watch]. rewrite decide_True by done. unfold slot_of. by case_if.
    + intros l' Hl' m. cbn [watch]. by rewrite decide_False.
  - apply (watched_setup s); [done|apply set_gc_setup|]. intros k.
    pose proof (watched_numbers s Hs) as Hn. pose proof (Hn Foreground). pose proof (Hn Background).
    destruct (slot_of p), k; cbn [gc_of set_gc set_gcs _gcInProgress _currentBGC InitializeGC Number];
      (apply i32_idemp || done).
Qed.

(** The current collection reported ended. *)
Lemma watch_end s gc t pressure :
  watched s -> Number gc <> -1 ->
  current (known_of s) = known gc ->
  watch_all l (known_of s) (NotifyGarbageCollectionEnd s (end_report gc t pressure)) =
  Some (known_of (set_gc s (GetCurrentGC s) ResetGC)).
Proof.
  intros Hs Hn Hc. unfold NotifyGarbageCollectionEnd.
  rewrite watch_broadcast; [|apply Hs|apply Hs|].
  - cbn [watch]. rewrite decide_True by done. rewrite Hc. unfold known.
    rewrite (proj2 (Z.eqb_neq _ _) Hn). cbn [mbind option_bind].
    unfold ends, end_report. cbn. rewrite !Z.eqb_refl. cbn [andb].
    by rewrite <- (set_current_known s ResetGC).
  - intros l' Hl' m. cbn [watch]. by rewrite decide_False.
Qed.

Lemma watched_set_gc s k gc :
  watched s -> i32 (u32 (Number gc)) = Number gc -> watched (set_gc s k gc).
Proof.
  intros Hs Hgc. apply (watched_setup s); [done|apply set_gc_setup|]. intros k'.
  pose proof (watched_numbers s Hs Foreground). pose proof (watched_numbers s Hs Background).
  by destruct k, k'.
Qed.

(** An event that only changes what the monitor does not see. *)
Lemma known_update s gc :
  known gc = known (gc_of s (GetCurrentGC s)) -> known_of (set_gc s (GetCurrentGC s) gc) = known_of s.
Proof.
  intros Hgc. unfold known_of. destruct (GetCurrentGC s); cbn in *; by rewrite Hgc.
Qed.

Lemma handler_stats t a b c s :
  watched s ->
  watch_all l (known_of s) (OnGCHeapStats t a b c s).2 = Some (known_of (OnGCHeapStats t a b c s).1) /\
  watched (OnGCHeapStats t a b c s).1.
Proof.
  intros Hs. pose proof (watched_numbers s Hs (GetCurrentGC s)) as Hn. unfold OnGCHeapStats.
  destruct (Number _ =? -1) eqn:E; [|apply Z.eqb_neq in E; case_if]; cbn [fst snd];
    (split; [|by apply watched_set_gc]).
  - cbn [watch_all]. by rewrite known_update.
  - by rewrite watch_end by (done || by rewrite current_known).
  - cbn [watch_all]. by rewrite known_update.
Qed.

Lemma handler_history t p s :
  watched s ->
  watch_all l (known_of s) (OnGCGlobalHeapHistory t p s).2 =
    Some (known_of (OnGCGlobalHeapHistory t p s).1) /\
  watched (OnGCGlobalHeapHistory t p s).1.
Proof.
  intros Hs. pose proof (watched_numbers s Hs (GetCurrentGC s)) as Hn. unfold OnGCGlobalHeapHistory.
  destruct (Number _ =? -1) eqn:E; [done|apply Z.eqb_neq in E; case_if]; cbn [fst snd];
    (split; [|by apply watched_set_gc]).
  - by rewrite watch_end by (done || by rewrite current_known).
  - cbn [watch_all]. by rewrite known_update.
Qed.

(** A suspension is added to the collection in progress. *)
Lemma watch_suspension s t d :
  let k := GetCurrentGC s in let gc := gc_of s k in
  watched s -> Number gc <> -1 ->
  watch_all l (known_of s) (NotifySuspension s t (u32 (Number gc)) (Generation gc) d) =
  Some (known_of (set_gc s k (set_pause gc (PauseDuration gc + d)))).
Proof.
  intros k gc Hs Hn. unfold NotifySuspension. rewrite (watched_suspensions s Hs).
  cbn [watch_all watch]. rewrite current_known. fold k gc. unfold known.
  rewrite (proj2 (Z.eqb_neq _ _) Hn). cbn [mbind option_bind o_number o_generation].
  rewrite (watched_numbers s Hs k : i32 (u32 (Number gc)) = Number gc), !Z.eqb_refl. cbn [andb].
  unfold k. rewrite <- (set_current_known s (set_pause gc (PauseDuration gc + d))). unfold known.
  cbn [Number set_pause]. by rewrite (proj2 (Z.eqb_neq _ _) Hn).
Qed.

Lemma GetCurrentGC_keep s g :
  Number g = Number (gc_of s (GetCurrentGC s)) ->
  GetCurrentGC (set_gc s (GetCurrentGC s) g) = GetCurrentGC s.
Proof.
  unfold GetCurrentGC. destruct (Number (_gcInProgress s) =? -1) eqn:E; cbn; intros Hg; [by rewrite E|].
  by rewrite Hg, E.
Qed.

Lemma handler_restart t s :
  watched s ->
  watch_all l (known_of s) (OnGCRestartEEEnd t s).2 = Some (known_of (OnGCRestartEEEnd t s).1) /\
  watched (OnGCRestartEEEnd t s).1.
Proof.
  intros Hs. pose proof (watched_numbers s Hs (GetCurrentGC s)) as Hn.
  assert (Hreset : watched (set_suspension s 0)) 
    by (apply (watched_setup s); [done..|intros k; apply (watched_numbers s Hs k)]).
  unfold OnGCRestartEEEnd. destruct (Number _ =? -1) eqn:E; [done|]. bool_facts.
  set (k := GetCurrentGC s) in *. set (gc := gc_of s k) in *.
  set (d := if negb (_suspensionStart s =? 0) then t - _suspensionStart s else 0).
  set (g := set_pause gc (PauseDuration gc + d)).
  assert (Hw : exists ns, (if negb (_suspensionStart s =? 0) then
      (t - _suspensionStart s, NotifySuspension s t (u32 (Number gc)) (Generation gc) (t - _suspensionStart s))
    else (0, [])) = (d, ns) /\ watch_all l (known_of s) ns = Some (known_of (set_gc s k g))).
  { unfold d, g. destruct (negb (_suspensionStart s =? 0)); eexists; (split; [done|]).
    - by apply watch_suspension.
    - cbn [watch_all]. rewrite known_update; [done|]. unfold known, set_pause. cbn. by rewrite Z.add_0_r. }
  destruct Hw as (ns & -> & Hw). fold g.
  assert (Hk : known_of (set_gc s k g) = known_of (set_gc (set_suspension s 0) k g)) by (by destruct k).
  case_if; cbn [fst snd]; (split; [|by apply watched_set_gc]).
  - rewrite watch_all_app, Hw. cbn [mbind option_bind].
    assert (Hcur : GetCurrentGC (set_gc s k g) = k).
    { by apply GetCurrentGC_keep. }
    pose proof (watch_end (set_gc s k g) g t (memPressure g)) as He. rewrite Hcur in He.
    change (NotifyGarbageCollectionEnd (set_suspension s 0)) with (NotifyGarbageCollectionEnd s).
    replace (NotifyGarbageCollectionEnd s) with (NotifyGarbageCollectionEnd (set_gc s k g))
      by (by destruct k).
    rewrite He; [by destruct k|by apply watched_set_gc|done|].
    rewrite current_known, Hcur. by destruct k.
  - rewrite Hw. by rewrite Hk.
Qed.

(** ** Whole events *)

Definition tracked (s : ClrEventsParser) (r : option (ClrEventsParser * list Notification)) : Prop :=
  exists s' ns, r = Some (s', ns) /\ watch_all l (known_of s) ns = Some (known_of s') /\ watched s'.

Lemma tracked_quiet s ns : watched s -> Forall quiet ns -> tracked s (Some (s, ns)).
Proof. intros Hs Hns. exists s, ns. by rewrite watch_quiet. Qed.

Lemma tracked_one s n : watched s -> quiet n -> tracked s (Some (s, [n])).
Proof. intros Hs Hn. apply tracked_quiet; [done|]. by apply Forall_singleton. Qed.

Lemma tracked_handler s (r : ClrEventsParser * list Notification) :
  watch_all l (known_of s) r.2 = Some (known_of r.1) /\ watched r.1 -> tracked s (Some r).
Proof. destruct r as [s' ns]. exists s', ns. tauto. Qed.

Lemma with_payload_tracked {A} (r : outcome A) k s :
  watched s -> safe r -> (forall x, tracked s (k x s)) -> tracked s (with_payload r k s).
Proof. destruct r; intros Hs Hr Hk; [apply Hk|by apply tracked_quiet|done]. Qed.

Section one_event.
Context (d : bytes) (cb : Z) (Hd : delivered d cb) (s : ClrEventsParser) (Hs : watched s).

Lemma lifecycle_tracked t id v : tracked s (ParseLifecycleEvent cb d t id v s).
Proof.
  assert (Hdone : tracked s (Some (s, []))) by (by apply tracked_quiet).
  unfold ParseLifecycleEvent. repeat case_if; try exact Hdone;
    try (apply with_payload_tracked; [done|by apply Read_payload_safe|intros [p o]]).
  - by apply tracked_handler, handler_start.
  - exact Hdone.
  - apply tracked_handler. split; [done|]. apply (watched_setup s); [done..|]. apply (watched_numbers s Hs).
  - by apply tracked_handler, handler_restart.
  - apply with_payload_tracked; [done|by apply heap_stats_safe|intros [[a b] c]].
    by apply tracked_handler, handler_stats.
  - by apply tracked_handler, handler_history.
Qed.

Lemma static_vars_quiet fuel i Count o ns :
  static_vars cb d fuel i Count o = Some ns -> Forall quiet ns.
Proof.
  revert i o ns. induction fuel as [|fuel IH]; intros i o ns; cbn [static_vars]; case_if;
    intros; simplify_eq; try done.
  destruct (Read _ d cb o) as [[x o1]| |]; simplify_eq; [|done].
  destruct (ReadWideString d cb o1) as [[cs o2]| |]; simplify_eq; [|done].
  destruct (static_vars cb d fuel _ Count o2) as [rest|] eqn:E; simplify_option.
  apply Forall_cons. split; [done|by eapply IH].
Qed.

Lemma bulk_quiet id : exists ns, ParseBulkEvent cb d id s = Some (s, ns) /\ Forall quiet ns.
Proof.
  destruct (ParseBulkEvent_ok d cb Hd id s) as [ns Hns]. exists ns. split; [done|].
  revert Hns. unfold ParseBulkEvent. repeat case_if; try (intros; by simplify_eq);
    unfold with_payload; destruct (Read _ d cb 0) as [[x o]| |]; intros; simplify_eq; try done;
    try (by apply Forall_singleton).
  destruct (static_vars _ _ _ _ _ _) as [rest|] eqn:E; simplify_option. by eapply static_vars_quiet.
Qed.

Lemma gc_event_tracked t id v : tracked s (ParseGcEvent cb d t id v s).
Proof.
  unfold ParseGcEvent. repeat case_if; try (by apply tracked_quiet).
  - apply with_payload_tracked; [done|by apply ParseAllocationEvent_safe|].
    intros p. by apply tracked_one.
  - destruct (bulk_quiet id) as (ns & -> & Hns). cbn [mbind option_bind].
    case_if; [by apply tracked_quiet|].
    destruct (lifecycle_tracked t id v) as (s' & ns' & -> & Hw & Hs'). cbn [mbind option_bind].
    exists s', (ns ++ ns'). rewrite watch_all_app, watch_quiet by done. done.
Qed.

Lemma event_tracked t v kw id : tracked s (ParseEvent cb d t v kw id s).
Proof.
  unfold ParseEvent, ParseContentionEvent, ParseWaitHandleEvent, ParseAllocationSampledEvent.
  repeat case_if; try (by apply tracked_quiet); try apply gc_event_tracked;
    (apply with_payload_tracked;
      [done|by (apply Read_payload_safe || apply ParseAllocationSampledPayload_safe)|]).
  all: first [intros [p o]; by apply tracked_one | intros p; by apply tracked_one].
Qed.
End one_event.

Lemma events_tracked es s : Forall deliverable es -> watched s -> tracked s (deliver_all es s).
Proof.
  intros Hes. revert s. induction Hes as [|e es He Hes IH]; intros s Hs; [by apply tracked_quiet|].
  cbn [deliver_all].
  destruct (event_tracked (ev_data e) (zlen (ev_data e)) ltac:(by split) s Hs (ev_timestamp e)
    (ev_version e) (ev_keywords e) (ev_id e)) as (s1 & n1 & E1 & Hw1 & Hs1).
  unfold deliver. rewrite E1. cbn [mbind option_bind].
  destruct (IH s1 Hs1) as (s2 & n2 & -> & Hw2 & Hs2). cbn [mbind option_bind].
  exists s2, (n1 ++ n2). rewrite watch_all_app, Hw1. done.
Qed.
End monitoring.

(** Whatever events arrive, with whatever payloads, no read leaves a payload, and the
    calls a registered listener gets are consistent: an end is reported only for a
    collection reported started and not ended since, with its number, generation, reason and
    type, the time since its start and the sum of the suspensions reported for it. *)
Theorem gc_reports_match l es s :
  Forall deliverable es ->
  NoDup (_pGarbageCollectionsListeners s) -> l ∈ _pGarbageCollectionsListeners s ->
  _pGCSuspensionsListener s = true ->
  _gcInProgress s = ResetGC -> _currentBGC s = ResetGC ->
  exists s' calls open,
    deliver_all es s = Some (s', calls) /\ same_setup s s' /\
    watch_all l (None, None) calls = Some open /\
    (open.1 = None <-> Number (_gcInProgress s') = -1) /\
    (open.2 = None <-> Number (_currentBGC s') = -1).
Proof.
  intros Hes Hnd Hl Hsu Hf Hb.
  assert (Hs : watched l s) by (split; try done; intros []; cbn; by rewrite ?Hf, ?Hb).
  destruct (events_tracked l es s Hes Hs) as (s' & ns & E & Hw & _).
  destruct (deliver_all_ok es s Hes) as (s1 & n1 & E1 & Hsetup). simplify_eq.
  exists s', ns, (known_of s'). rewrite E. repeat split; try (by destruct Hsetup as (?&?&?&?&?&?&?&?&?)).
  - unfold known_of in Hw at 1. by rewrite Hf, Hb in Hw.
  - cbn. unfold known. by destruct (Z.eqb_spec (Number (_gcInProgress s')) (-1)).
  - intros Hn. cbn. unfold known. by rewrite Hn.
  - cbn. unfold known. by destruct (Z.eqb_spec (Number (_currentBGC s')) (-1)).
  - intros Hn. cbn. unfold known. by rewrite Hn.
Qed.

(** ** Instances *)

Definition example_parser : ClrEventsParser :=
  Register (Some 9%nat) (Register (Some 7%nat)
    (new_ClrEventsParser true true true false false true 12345)).
Definition example_start : GCStartPayload := mkGCStart 5 1 0 0.
Definition example_background : GCStartPayload := mkGCStart 6 2 1 1.
Definition example_stats : GCHeapStatsV2Payload := mkV2 1 2 3 4 5 6 7 8 9 10 11 12 13 14 15 16.
Definition example_history : GCGlobalHeapPayload := mkGlobalHeap 1 2 3 4 5 6 7 8 90.
Definition example_observed : list GcEvent :=
  [StatsV2 120 example_stats; History 130 example_history].
Definition example_blocking : Episode := Blocking 100 110 example_start example_observed 150.

Ltac fits_tac :=
  repeat (apply Forall2_cons; split; [by vm_compute|]); by apply Forall2_nil.

Lemma example_blocking_ok : episode_ok example_blocking.
Proof.
  repeat split; [done|done|by left|fits_tac|]. repeat (apply Forall_cons; split); [fits_tac..|by apply Forall_nil].
Qed.

Lemma background_gc_reported_witness :
  let '(a, b) := completing true 400 410 example_stats example_history in
  deliver_all (wire <$> background_events 10 20 example_background 30 [example_blocking; Pause 200 210]
    a [] b) example_parser =
  Some (set_gcs example_parser 0 ResetGC ResetGC,
    NotifyGarbageCollectionStarted example_parser 20 6 2 1 BackgroundGC ++
    calls_of example_parser example_background (Pause 10 30) ++
    concat (calls_of example_parser example_background <$> [example_blocking; Pause 200 210]) ++
    concat (calls_of example_parser example_background <$> []) ++
    NotifyGarbageCollectionEnd example_parser
      (background_report 20 example_background (30 - 10 + pauses [example_blocking; Pause 200 210] + 0)
         410 example_stats example_history)).
Proof.
  apply (background_gc_reported example_parser true 10 20 example_background 30
    [example_blocking; Pause 200 210] [] 400 410 example_stats example_history);
    try reflexivity; try fits_tac; try done.
  apply Forall_cons. split; [exact example_blocking_ok|]. by apply Forall_singleton.
Defined.
