(* ===== verification/EventDecoding.v ===== *)
(** * Decoding of allocation and static-variable events

    The payloads with strings, whose fields have no fixed offset, over [ClrEventsParser]:
    what a payload laid out as documented gives, and that one cut short gives nothing. *)
From stdpp Require Import base list.
From S2P Require Import Prelude EventPayloads ClrEventsParser GcLifecycle.

(** ** Allocation events *)

Lemma sizeof_uint w : sizeof (uint w) = w.
Proof. apply Nat.add_0_r. Qed.

Lemma Read_uint_app w v pre post cb :
  in_u (8 * Z.of_nat w) v -> delivered (pre ++ le_bytes w v ++ post) cb ->
  Read (uint w) (pre ++ le_bytes w v ++ post) cb (zlen pre) = Ok (v, zlen (pre ++ le_bytes w v)).
Proof.
  intros Hv Hd. pose proof (Read_app (uint w) pre v post cb (fits_uint w v Hv)) as Hr.
  unfold to_bytes in Hr. cbn [layout uint_pod to_fields join_fields] in Hr.
  rewrite app_nil_r in Hr. by apply Hr.
Qed.

Section steps.
Context {B : Type} (d : bytes) (cb : Z) (Hd : delivered d cb).

Lemma Read_uint_step w v pre post (k : uint w * Z -> outcome B) r :
  d = pre ++ le_bytes w v ++ post -> in_u (8 * Z.of_nat w) v ->
  k (v, zlen (pre ++ le_bytes w v)) = r -> (Read (uint w) d cb (zlen pre) ≫= k) = r.
Proof. intros -> Hv Hk. by rewrite Read_uint_app. Qed.

Lemma ReadWideString_step cs pre post (k : list Z * Z -> outcome B) r :
  d = pre ++ wide_bytes cs ++ post -> Forall wide_char cs ->
  k (cs, zlen (pre ++ wide_bytes cs)) = r -> (ReadWideString d cb (zlen pre) ≫= k) = r.
Proof. intros -> Hv Hk. by rewrite ReadWideString_app. Qed.

(** What a successful read used of the payload. *)
Lemma Read_inv w (k : uint w * Z -> outcome B) o y :
  0 <= o <= cb -> Z.of_nat w < 2 ^ 32 -> (Read (uint w) d cb o ≫= k) = Ok y ->
  exists x, o + Z.of_nat w <= cb /\ k (x, o + Z.of_nat w) = Ok y.
Proof.
  intros Ho Hw E. destruct (Read_safe (uint w) d cb o Hd Ho) as [[Hr _]|(x & Hr & Hle)];
    rewrite ?sizeof_uint in *; [done|by rewrite Hr in E|]. rewrite Hr in E. eauto.
Qed.

Lemma ReadWideString_inv (k : list Z * Z -> outcome B) o y :
  0 <= o <= cb -> (ReadWideString d cb o ≫= k) = Ok y ->
  exists cs, o + 2 * (zlen cs + 1) <= cb /\ k (cs, o + 2 * (zlen cs + 1)) = Ok y.
Proof.
  intros Ho E. destruct (ReadWideString_safe d cb o Hd Ho) as [Hr|(cs & Hr & Hle)];
    rewrite Hr in E; [done|eauto].
Qed.

(** A longer payload reads the same. *)
Context (post : bytes) (cb' : Z) (Hd' : delivered (d ++ post) cb').
Definition below (r1 r2 : outcome B) : Prop := forall x, r1 = Ok x -> r2 = Ok x.

Lemma load_longer o n bs : load d o n = Ok bs -> load (d ++ post) o n = Ok bs.
Proof.
  unfold load. rewrite length_app, Nat2Z.inj_add.
  destruct (Z.leb_spec 0 o), (Z.leb_spec (o + Z.of_nat n) (zlen d)); try done.
  rewrite (proj2 (Z.leb_le (o + Z.of_nat n) _)) by lia. cbn [andb]. intros [= <-].
  rewrite drop_app_le, take_app_le; [done|rewrite length_drop; lia|lia].
Qed.

Lemma Read_longer T `{Pod T} o y : 0 <= o <= cb -> Z.of_nat (sizeof T) < 2 ^ 32 ->
  Read T d cb o = Ok y -> Read T (d ++ post) cb' o = Ok y.
Proof.
  intros Ho Hs. destruct Hd as [El _], Hd' as [El' _]. rewrite length_app, Nat2Z.inj_add in El'.
  unfold Read. destruct (Z.ltb_spec cb (u64 (o + Z.of_nat (sizeof T)))); [done|].
  rewrite (proj2 (Z.ltb_ge cb' _)) by lia.
  destruct (load d o (sizeof T)) eqn:E; cbn [mbind outcome_bind]; try done.
  by rewrite (load_longer _ _ _ E).
Qed.

Lemma find_terminator_longer o n n' cs : (n <= n')%nat ->
  find_terminator d o n = Ok cs -> find_terminator (d ++ post) o n' = Ok cs.
Proof.
  revert o n' cs. induction n as [|n IH]; intros o [|n'] cs Hn; try done; [lia|].
  cbn [find_terminator]. destruct (load d o wchar) eqn:E; cbn [mbind outcome_bind]; try done.
  rewrite (load_longer _ _ _ E). cbn [mbind outcome_bind]. case_if; [done|].
  destruct (find_terminator d (o + 2) n) as [rest| |] eqn:E'; cbn [mbind outcome_bind]; try done.
  rewrite (IH _ n' _ ltac:(lia) E'). done.
Qed.

Lemma ReadWideString_longer o y : 0 <= o <= cb ->
  ReadWideString d cb o = Ok y -> ReadWideString (d ++ post) cb' o = Ok y.
Proof.
  intros Ho. destruct Hd as [El ?], Hd' as [El' ?]. rewrite length_app, Nat2Z.inj_add in El'.
  unfold ReadWideString. destruct (Z.leb_spec cb o); [done|].
  rewrite (proj2 (Z.leb_gt cb' o)), !wrap_small by (unfold in_u; lia).
  destruct (find_terminator d o _) as [cs| |] eqn:E; cbn [mbind outcome_bind]; try done.
  erewrite find_terminator_longer; [..|exact E]; [done|].
  apply Z2Nat.inj_le; [apply Z.div_pos; lia..|apply Z.div_le_mono; lia].
Qed.

Lemma Read_below w o (k1 k2 : uint w * Z -> outcome B) :
  0 <= o <= cb -> Z.of_nat w < 2 ^ 32 ->
  (forall x o', o <= o' <= cb -> below (k1 (x, o')) (k2 (x, o'))) ->
  below (Read (uint w) d cb o ≫= k1) (Read (uint w) (d ++ post) cb' o ≫= k2).
Proof.
  intros Ho Hw Hk y E. assert (Z.of_nat (sizeof (uint w)) < 2 ^ 32) by (by rewrite sizeof_uint).
  destruct (Read_safe (uint w) d cb o Hd Ho) as [[Hr _]|(x & Hr & Hle)]; [done|by rewrite Hr in E|].
  rewrite (Read_longer _ _ _ Ho ltac:(done) Hr). rewrite Hr in E. apply Hk; [lia|done].
Qed.

Lemma ReadWideString_below o (k1 k2 : list Z * Z -> outcome B) :
  0 <= o <= cb -> (forall x o', o <= o' <= cb -> below (k1 (x, o')) (k2 (x, o'))) ->
  below (ReadWideString d cb o ≫= k1) (ReadWideString (d ++ post) cb' o ≫= k2).
Proof.
  intros Ho Hk y E.
  destruct (ReadWideString_safe d cb o Hd Ho) as [Hr|(x & Hr & Hle)]; rewrite Hr in E; [done|].
  rewrite (ReadWideString_longer _ _ Ho Hr). apply Hk; [lia|done].
Qed.
End steps.

Ltac same_reads :=
  repeat (first [apply Read_below; [done|done|lia|done|intros ???]
                |apply ReadWideString_below; [done|done|lia|intros ???]]); by intros ?.
Ltac used_bytes E :=
  repeat (first [apply Read_inv in E as (? & ? & E); [|done|lia|done]
                |apply ReadWideString_inv in E as (? & ? & E); [|done|lia]]).
Ltac in_sequence :=
  repeat (first [eapply Read_uint_step; [done|rewrite <- ?app_assoc; reflexivity|done|]
                |eapply ReadWideString_step; [done|rewrite <- ?app_assoc; reflexivity|done|]]).

(** The fields as the runtime lays them out. *)
Definition tick_bytes (x : AllocationTickV4Payload) : bytes :=
  le_bytes 4 (Tick_AllocationAmount x) ++ le_bytes 4 (Tick_AllocationKind x) ++
  le_bytes 2 (Tick_ClrInstanceId x) ++ le_bytes 8 (Tick_AllocationAmount64 x) ++
  le_bytes 8 (Tick_TypeId x) ++ wide_bytes (Tick_TypeName x) ++ le_bytes 4 (Tick_HeapIndex x) ++
  le_bytes 8 (Tick_Address x) ++ le_bytes 8 (Tick_ObjectSize x).

Definition tick_ok (x : AllocationTickV4Payload) : Prop :=
  in_u 32 (Tick_AllocationAmount x) /\ in_u 32 (Tick_AllocationKind x) /\
  in_u 16 (Tick_ClrInstanceId x) /\ in_u 64 (Tick_AllocationAmount64 x) /\
  in_u 64 (Tick_TypeId x) /\ Forall wide_char (Tick_TypeName x) /\ in_u 32 (Tick_HeapIndex x) /\
  in_u 64 (Tick_Address x) /\ in_u 64 (Tick_ObjectSize x) /\ zlen (tick_bytes x) < 2 ^ 32.

Definition sampled_bytes (x : AllocationSampledPayload) : bytes :=
  le_bytes 4 (Sampled_AllocationKind x) ++ le_bytes 2 (Sampled_ClrInstanceId x) ++
  le_bytes 8 (Sampled_TypeId x) ++ wide_bytes (Sampled_TypeName x) ++
  le_bytes 8 (Sampled_Address x) ++ le_bytes 8 (Sampled_ObjectSize x) ++
  le_bytes 8 (Sampled_SampledByteOffset x).

Definition sampled_ok (x : AllocationSampledPayload) : Prop :=
  in_u 32 (Sampled_AllocationKind x) /\ in_u 16 (Sampled_ClrInstanceId x) /\
  in_u 64 (Sampled_TypeId x) /\ Forall wide_char (Sampled_TypeName x) /\
  in_u 64 (Sampled_Address x) /\ in_u 64 (Sampled_ObjectSize x) /\
  in_u 64 (Sampled_SampledByteOffset x) /\ zlen (sampled_bytes x) < 2 ^ 32.

Lemma tick_bytes_length x : zlen (tick_bytes x) = 46 + 2 * (zlen (Tick_TypeName x) + 1).
Proof.
  unfold tick_bytes. rewrite !length_app, !le_bytes_length, !Nat2Z.inj_add, wide_bytes_length. lia.
Qed.

Lemma sampled_bytes_length x : zlen (sampled_bytes x) = 38 + 2 * (zlen (Sampled_TypeName x) + 1).
Proof.
  unfold sampled_bytes. rewrite !length_app, !le_bytes_length, !Nat2Z.inj_add, wide_bytes_length. lia.
Qed.

Lemma tick_decoded x : tick_ok x -> ParseAllocationEvent (zlen (tick_bytes x)) (tick_bytes x) = Ok x.
Proof.
  intros (? & ? & ? & ? & ? & ? & ? & ? & ? & Hl).
  assert (Hd : delivered (tick_bytes x) (zlen (tick_bytes x))) by done.
  unfold ParseAllocationEvent. change 0 with (zlen (@nil Z)) at 1. in_sequence. by destruct x.
Qed.

Lemma sampled_decoded x :
  sampled_ok x -> ParseAllocationSampledPayload (zlen (sampled_bytes x)) (sampled_bytes x) = Ok x.
Proof.
  intros (? & ? & ? & ? & ? & ? & ? & Hl).
  assert (Hd : delivered (sampled_bytes x) (zlen (sampled_bytes x))) by done.
  unfold ParseAllocationSampledPayload. change 0 with (zlen (@nil Z)) at 1. in_sequence. by destruct x.
Qed.

(** A payload cut short is refused. *)
Lemma tick_cut x d post :
  tick_ok x -> tick_bytes x = d ++ post -> post <> [] -> ParseAllocationEvent (zlen d) d = Malformed.
Proof.
  intros Hx Hd Hpost. pose proof (tick_bytes_length x) as Hlen.
  assert (Hl : zlen d < zlen (tick_bytes x)) by (rewrite Hd, length_app; destruct post; [done|simpl; lia]).
  assert (Hfull : delivered (d ++ post) (zlen (d ++ post))) by (rewrite <- Hd; split; [done|apply Hx]).
  assert (Hpart : delivered d (zlen d)) by (split; [done|destruct Hx as (?&?&?&?&?&?&?&?&?&?); lia]).
  destruct (ParseAllocationEvent (zlen d) d) as [y| |] eqn:E; [exfalso|done|].
  - assert (y = x) as ->.
    { assert (below (ParseAllocationEvent (zlen d) d) (ParseAllocationEvent (zlen (d ++ post)) (d ++ post)))
        as Hb by (unfold ParseAllocationEvent; same_reads).
      apply Hb in E. rewrite <- Hd, tick_decoded in E by done. by simplify_eq. }
    unfold ParseAllocationEvent in E. used_bytes E. simplify_eq. cbn in *. lia.
  - by destruct (ParseAllocationEvent_safe d (zlen d)).
Qed.

Lemma sampled_cut x d post :
  sampled_ok x -> sampled_bytes x = d ++ post -> post <> [] ->
  ParseAllocationSampledPayload (zlen d) d = Malformed.
Proof.
  intros Hx Hd Hpost. pose proof (sampled_bytes_length x) as Hlen.
  assert (Hl : zlen d < zlen (sampled_bytes x))
    by (rewrite Hd, length_app; destruct post; [done|simpl; lia]).
  assert (Hfull : delivered (d ++ post) (zlen (d ++ post))) by (rewrite <- Hd; split; [done|apply Hx]).
  assert (Hpart : delivered d (zlen d)) by (split; [done|destruct Hx as (?&?&?&?&?&?&?&?); lia]).
  destruct (ParseAllocationSampledPayload (zlen d) d) as [y| |] eqn:E; [exfalso|done|].
  - assert (y = x) as ->.
    { assert (below (ParseAllocationSampledPayload (zlen d) d)
        (ParseAllocationSampledPayload (zlen (d ++ post)) (d ++ post)))
        as Hb by (unfold ParseAllocationSampledPayload; same_reads).
      apply Hb in E. rewrite <- Hd, sampled_decoded in E by done. by simplify_eq. }
    unfold ParseAllocationSampledPayload in E. used_bytes E. simplify_eq. cbn in *. lia.
  - by destruct (ParseAllocationSampledPayload_safe d (zlen d)).
Qed.

(** An allocation event whose payload is laid out as documented is handed to the
    allocation listener with exactly its fields, the characters of the type name included; if
    any bytes are missing at the end of the payload, wherever it is cut, nothing is
    delivered and the parser is unchanged.  Switching allocation tracking off silences
    AllocationTick events, and AllocationSampled events are delivered all the same. *)
Theorem allocation_events_decoded s t x y :
  tick_ok x -> sampled_ok y -> _pAllocationListener s = true ->
  deliver (mkEvent t 4 KEYWORD_GC EVENT_ALLOCATION_TICK (tick_bytes x)) s =
    Some (s, if _allocationEnabled s then
               [OnAllocation (Tick_AllocationKind x) (Tick_TypeId x) (Tick_TypeName x)
                  (Tick_Address x) (Tick_ObjectSize x) (Tick_AllocationAmount64 x)]
             else []) /\
  (forall d post, tick_bytes x = d ++ post -> post <> [] ->
    deliver (mkEvent t 4 KEYWORD_GC EVENT_ALLOCATION_TICK d) s = Some (s, [])) /\
  deliver (mkEvent t 0 KEYWORD_ALLOCATION_SAMPLING EVENT_ALLOCATION_SAMPLED (sampled_bytes y)) s =
    Some (s, [OnAllocationSampled (Sampled_AllocationKind y) (Sampled_TypeId y) (Sampled_TypeName y)
                (Sampled_Address y) (Sampled_ObjectSize y) (Sampled_SampledByteOffset y)]) /\
  (forall d post, sampled_bytes y = d ++ post -> post <> [] ->
    deliver (mkEvent t 0 KEYWORD_ALLOCATION_SAMPLING EVENT_ALLOCATION_SAMPLED d) s = Some (s, [])).
Proof.
  intros Hx Hy Hl.
  assert (HT : forall d, deliver (mkEvent t 4 KEYWORD_GC EVENT_ALLOCATION_TICK d) s =
    if _allocationEnabled s then
    with_payload (ParseAllocationEvent (zlen d) d) (fun p s =>
      Some (s, [OnAllocation (Tick_AllocationKind p) (Tick_TypeId p) (Tick_TypeName p)
                  (Tick_Address p) (Tick_ObjectSize p) (Tick_AllocationAmount64 p)])) s
    else Some (s, [])).
  { intros d. unfold deliver, ParseEvent, ParseGcEvent. cbn [ev_keywords ev_id ev_version ev_data].
    change (has_keyword KEYWORD_GC KEYWORD_GC) with true. cbn [orb]. rewrite Hl. by destruct (_allocationEnabled s). }
  assert (HS : forall d, deliver (mkEvent t 0 KEYWORD_ALLOCATION_SAMPLING EVENT_ALLOCATION_SAMPLED d) s =
    with_payload (ParseAllocationSampledPayload (zlen d) d) (fun p s =>
      Some (s, [OnAllocationSampled (Sampled_AllocationKind p) (Sampled_TypeId p) (Sampled_TypeName p)
                  (Sampled_Address p) (Sampled_ObjectSize p) (Sampled_SampledByteOffset p)])) s).
  { intros d. unfold deliver, ParseEvent, ParseAllocationSampledEvent. cbn [ev_keywords ev_id ev_data].
    change (has_keyword KEYWORD_ALLOCATION_SAMPLING KEYWORD_GC) with false.
    change (has_keyword KEYWORD_ALLOCATION_SAMPLING KEYWORD_GCHEAPDUMP) with false.
    change (has_keyword KEYWORD_ALLOCATION_SAMPLING KEYWORD_CONTENTION) with false.
    change (has_keyword KEYWORD_ALLOCATION_SAMPLING KEYWORD_WAITHANDLE) with false.
    change (has_keyword KEYWORD_ALLOCATION_SAMPLING KEYWORD_ALLOCATION_SAMPLING) with true.
    cbn [orb]. by rewrite Hl. }
  repeat split; intros; rewrite ?HT, ?HS.
  - rewrite tick_decoded by done. by destruct (_allocationEnabled s).
  - rewrite (tick_cut x d post) by done. by destruct (_allocationEnabled s).
  - by rewrite sampled_decoded.
  - by rewrite (sampled_cut y d post).
Qed.

(** ** Static variables of a heap dump *)

Definition static_entry : Type := GCBulkRootStaticVarValue * list Z.

Definition entry_bytes (e : static_entry) : bytes := to_bytes e.1 ++ wide_bytes e.2.
Definition entry_ok (e : static_entry) : Prop := fits e.1 /\ Forall wide_char e.2.
Definition static_call (e : static_entry) : Notification := OnBulkRootStaticVar e.1 e.2.

Lemma static_vars_decoded fuel d cb i Count pre es :
  delivered d cb -> d = pre ++ concat (entry_bytes <$> es) ->
  Forall entry_ok es -> 0 <= i -> i + zlen es = Count -> Count < 2 ^ 32 ->
  cb - zlen pre < Z.of_nat fuel ->
  static_vars cb d fuel i Count (zlen pre) = Some (static_call <$> es).
Proof.
  intros Hd Hpre Hes. revert fuel i pre Hpre.
  induction Hes as [|[v cs] es [Hv Hcs] Hes IH]; intros fuel i pre Hpre Hi Hc Hb Hf.
  - cbn [length] in Hc. destruct fuel; cbn [static_vars]; by rewrite (proj2 (Z.ltb_ge _ _)) by lia.
  - rewrite fmap_cons in Hpre. cbn [concat length] in Hpre, Hc. unfold entry_bytes at 1 in Hpre.
    cbn [fst snd] in Hpre, Hv, Hcs. rewrite <- !app_assoc in Hpre.
    assert (Hcb : cb = zlen d) by (by destruct Hd).
    destruct fuel as [|fuel].
    { rewrite Hcb, Hpre, length_app in Hf. lia. }
    cbn [static_vars]. rewrite (proj2 (Z.ltb_lt _ _)) by lia.
    rewrite Hpre at 1. rewrite Read_app; [|done|by rewrite <- Hpre].
    rewrite Hpre, app_assoc at 1. rewrite ReadWideString_app; [|done|by rewrite <- app_assoc, <- Hpre].
    rewrite wrap_small by (unfold in_u; lia).
    rewrite IH; [done|by rewrite <- !app_assoc|lia|lia|lia|].
    rewrite !length_app, to_bytes_length, !Nat2Z.inj_add, wide_bytes_length.
    change (Z.of_nat (sizeof GCBulkRootStaticVarValue)) with 28. lia.
Qed.

(** The static variables of a heap dump are reported one by one, in order, each with its
    own name, although the entries have no fixed size. *)
Theorem static_variables_reported s t p es :
  _pGCDumpListener s = true -> _skipReferenceChain s = false ->
  fits p -> BulkStaticVar_Count p = zlen es -> Forall entry_ok es ->
  zlen (to_bytes p ++ concat (entry_bytes <$> es)) < 2 ^ 32 ->
  deliver (mkEvent t 1 KEYWORD_GCHEAPDUMP EVENT_GC_BULK_ROOT_STATIC_VAR
             (to_bytes p ++ concat (entry_bytes <$> es))) s =
  Some (s, static_call <$> es).
Proof.
  intros Hl Hskip Hp Hc Hes Hlen. set (d := to_bytes p ++ concat (entry_bytes <$> es)) in *.
  assert (Hd : delivered d (zlen d)) by done.
  unfold deliver, ParseEvent, ParseGcEvent, ParseBulkEvent, ParseLifecycleEvent.
  cbn [ev_keywords ev_id ev_version ev_data].
  change (has_keyword KEYWORD_GCHEAPDUMP KEYWORD_GCHEAPDUMP) with true. rewrite orb_true_r.
  cbn -[Read static_vars to_bytes d length]. rewrite Hskip, Hl.
  pose proof (Read_app GCBulkRootStaticVarPayload [] p (concat (entry_bytes <$> es)) (zlen d) Hp Hd) as Hr.
  cbn [app length] in Hr. fold d in Hr. change (Z.of_nat 0) with 0 in Hr. rewrite Hr.
  cbn [with_payload].
  rewrite (static_vars_decoded (S (length d)) d (zlen d) 0 _ (to_bytes p) es); try done; [|apply Forall2_cons in Hp as [[_ ?] _]; done|lia].
  cbn [mbind option_bind]. case_if; by rewrite ?app_nil_r.
Qed.

(** ** Instances *)

Definition example_tick : AllocationTickV4Payload := mkTick 100 0 8 100 0x7F00 [83; 116] 0 0xAB00 48.
Definition example_sampled : AllocationSampledPayload := mkSampled 0 8 0x7F00 [83; 116] 0xAB00 48 24.

Definition example_static : GCBulkRootStaticVarPayload := mkBulkStaticVar 2 1 8.
Definition example_entries : list static_entry :=
  [(mkStaticVarValue 1 0xAB00 0x7F00 0, [97; 98]); (mkStaticVarValue 2 0xAC00 0x7F00 1, [])].
