(* ===== verification/HeapSnapshot.v ===== *)
(** * Heap snapshots

    Model of [HeapSnapshotManager.cpp] and [SnapshotCooldown.h]: a dedicated thread opens an
    event session that makes the runtime run a collection and describe its heap; the
    callbacks of that collection fill the class histogram and traverse the object graph from
    every root; the end of the collection lets the dedicated thread close the session.

    The manager is a client of the event parser, whose calls it receives, of the traverser
    and of the tree serializers.  Each handler is a function here; the steps in which the
    dedicated thread and the callbacks interleave are those of [SnapshotSchedule].  [None] as
    a result is a read outside of an event's payload, or a traversal or a construction that
    does not return normally. *)
From stdpp Require Import base gmap list strings.
From S2P Require Import Prelude FaultMonad VisitedObjectSet VisitedSet TypeReferenceTree TypeTreeJson.
From S2P Require Import GCDesc ReferenceChainTraverser EventPayloads ClrEventsParser.

(** ** Cooldown *)

Record SnapshotCooldown := mkCooldown { _interval : Z; _nextAllowed : Z }.

Definition IsAllowed (c : SnapshotCooldown) (now : Z) : bool :=
  (_nextAllowed c =? 0) || (_nextAllowed c <=? now).
Definition OnDumpEnd (c : SnapshotCooldown) (dumpEndTime : Z) : SnapshotCooldown :=
  mkCooldown (_interval c) (dumpEndTime + _interval c).
Definition OnCleanupDone (c : SnapshotCooldown) (cleanupTime : Z) : SnapshotCooldown :=
  mkCooldown (_interval c) (Z.max (_nextAllowed c) (cleanupTime + _interval c)).

(** ** State *)

Record ClassHistogramEntry := mkHistogramEntry {
  ClassName : text; InstanceCount : Z; TotalSize : Z
}.

(** What does not change once the manager is built, times in nanoseconds. *)
Record Settings := mkSettings {
  _heapDumpInterval : Z; _memPressureThreshold : Z; _referenceTreeFormat : Z;
  _delayFirstSnapshot : bool
}.

(** When to take a snapshot, and the session of the one being taken. *)
Record Scheduling := mkScheduling {
  _session : Z;
  _isHeapDumpInProgress : bool;
  _shouldStartHeapDump : bool;
  _shouldCleanupHeapDumpSession : bool;
  _inducedGCNumber : Z;
  _lastTimestamp : Z;
  _snapshotCooldown : SnapshotCooldown;
  _memPressure : Z;
  _runtimeSessionKeywords : Z
}.

(** Figures of the last collection and of the last snapshot. *)
Record Figures := mkFigures {
  _gen2Size : Z; _lohSize : Z; _pohSize : Z;
  _objectCount : Z; _totalSize : Z; _duration : Z; _startTimestamp : Z;
  _lastOldHeapSize : Z; _lastMemPressure : Z
}.

(** Whether references are followed. *)
Record Policy := mkPolicy {
  _gcDescDisabled : bool; _faultGuardUnavailable : bool; _consecutiveFaultyDumps : Z;
  _lastTraversalFaultCount : Z; _visitedSetHighWatermark : Z
}.

(** What a snapshot collects.  The traverser holds references to the tree and to the cache:
    they are kept here, and lent to it while it runs.  [_guard] is the state of the memory
    fault guard, which is global. *)
Record Collected := mkCollected {
  _classHistogram : gmap Z ClassHistogramEntry;
  _typeReferenceTree : TypeReferenceTree;
  _pReferenceChainTraverser : option (Traverser VisitedObjectSet);
  _pInlineVTCache : InlineVTCache;
  _guard : Guard
}.

Record HeapSnapshotManager := mkManager {
  _settings : Settings; _scheduling : Scheduling; _figures : Figures; _policy : Policy;
  _collected : Collected
}.

Definition MaxConsecutiveFaultyDumps : Z := 3.

(** Sessions opened and closed with the runtime. *)
Inductive SessionCall := StartSession | StopSession (session : Z) | ResetKeywords (keywords : Z).

Section setters.
Context (m : HeapSnapshotManager).
Definition on_scheduling (f : Scheduling -> Scheduling) : HeapSnapshotManager :=
  mkManager (_settings m) (f (_scheduling m)) (_figures m) (_policy m) (_collected m).
Definition on_figures (f : Figures -> Figures) : HeapSnapshotManager :=
  mkManager (_settings m) (_scheduling m) (f (_figures m)) (_policy m) (_collected m).
Definition on_policy (f : Policy -> Policy) : HeapSnapshotManager :=
  mkManager (_settings m) (_scheduling m) (_figures m) (f (_policy m)) (_collected m).
Definition on_collected (f : Collected -> Collected) : HeapSnapshotManager :=
  mkManager (_settings m) (_scheduling m) (_figures m) (_policy m) (f (_collected m)).
End setters.

Definition set_session (id : Z) (s : Scheduling) : Scheduling :=
  mkScheduling id (_isHeapDumpInProgress s) (_shouldStartHeapDump s) (_shouldCleanupHeapDumpSession s)
    (_inducedGCNumber s) (_lastTimestamp s) (_snapshotCooldown s) (_memPressure s) (_runtimeSessionKeywords s).
Definition set_in_progress (b : bool) (s : Scheduling) : Scheduling :=
  mkScheduling (_session s) b (_shouldStartHeapDump s) (_shouldCleanupHeapDumpSession s)
    (_inducedGCNumber s) (_lastTimestamp s) (_snapshotCooldown s) (_memPressure s) (_runtimeSessionKeywords s).
Definition set_should_start (b : bool) (s : Scheduling) : Scheduling :=
  mkScheduling (_session s) (_isHeapDumpInProgress s) b (_shouldCleanupHeapDumpSession s)
    (_inducedGCNumber s) (_lastTimestamp s) (_snapshotCooldown s) (_memPressure s) (_runtimeSessionKeywords s).
Definition set_should_cleanup (b : bool) (s : Scheduling) : Scheduling :=
  mkScheduling (_session s) (_isHeapDumpInProgress s) (_shouldStartHeapDump s) b
    (_inducedGCNumber s) (_lastTimestamp s) (_snapshotCooldown s) (_memPressure s) (_runtimeSessionKeywords s).
Definition set_induced (n : Z) (s : Scheduling) : Scheduling :=
  mkScheduling (_session s) (_isHeapDumpInProgress s) (_shouldStartHeapDump s)
    (_shouldCleanupHeapDumpSession s) n (_lastTimestamp s) (_snapshotCooldown s) (_memPressure s)
    (_runtimeSessionKeywords s).
Definition set_last_timestamp (t : Z) (s : Scheduling) : Scheduling :=
  mkScheduling (_session s) (_isHeapDumpInProgress s) (_shouldStartHeapDump s)
    (_shouldCleanupHeapDumpSession s) (_inducedGCNumber s) t (_snapshotCooldown s) (_memPressure s)
    (_runtimeSessionKeywords s).
Definition set_cooldown (c : SnapshotCooldown) (s : Scheduling) : Scheduling :=
  mkScheduling (_session s) (_isHeapDumpInProgress s) (_shouldStartHeapDump s)
    (_shouldCleanupHeapDumpSession s) (_inducedGCNumber s) (_lastTimestamp s) c (_memPressure s)
    (_runtimeSessionKeywords s).
Definition set_pressure (p : Z) (s : Scheduling) : Scheduling :=
  mkScheduling (_session s) (_isHeapDumpInProgress s) (_shouldStartHeapDump s)
    (_shouldCleanupHeapDumpSession s) (_inducedGCNumber s) (_lastTimestamp s) (_snapshotCooldown s) p
    (_runtimeSessionKeywords s).

Definition SetRuntimeSessionParameters (keywords : Z) (m : HeapSnapshotManager) : HeapSnapshotManager :=
  on_scheduling m (fun s => mkScheduling (_session s) (_isHeapDumpInProgress s)
    (_shouldStartHeapDump s) (_shouldCleanupHeapDumpSession s) (_inducedGCNumber s)
    (_lastTimestamp s) (_snapshotCooldown s) (_memPressure s) keywords).

(** The test interval replaces the configured one when it is set. *)
Definition new_HeapSnapshotManager (interval testInterval threshold format : Z) (guard : Guard) :
    HeapSnapshotManager :=
  let delay := 0 <? testInterval in
  let interval := if delay then testInterval else interval in
  mkManager (mkSettings interval threshold format delay)
    (mkScheduling 0 false false false (-1) 0 (mkCooldown interval 0) 0 0)
    (mkFigures 0 0 0 0 0 0 0 0 0)
    (mkPolicy false false 0 0 512)
    (mkCollected ∅ [] None (mkCache ∅ ∅ false) guard).

(** ** Deciding to take a snapshot *)

(** What a new snapshot must not run into. *)
Definition snapshot_under_way (s : Scheduling) : bool :=
  negb (_session s =? 0) || _shouldStartHeapDump s || _shouldCleanupHeapDumpSession s.

(** Whether the snapshot is due; the first time is only noted if the first snapshot is
    delayed. *)
Definition snapshot_due (now : Z) (m : HeapSnapshotManager) : HeapSnapshotManager * bool :=
  let s := _scheduling m in
  if negb (IsAllowed (_snapshotCooldown s) now) then (m, false)
  else if (0 <? _memPressureThreshold (_settings m)) &&
          (_memPressure s <? _memPressureThreshold (_settings m)) then (m, false)
  else if _lastTimestamp s =? 0 then
    (on_scheduling m (set_last_timestamp now), negb (_delayFirstSnapshot (_settings m)))
  else (m, negb (now - _lastTimestamp s <? _heapDumpInterval (_settings m))).

Definition StartAsyncSnapshotIfNeeded (now : Z) (m : HeapSnapshotManager) : HeapSnapshotManager :=
  if snapshot_under_way (_scheduling m) then m
  else
    let '(m, due) := snapshot_due now m in
    if due then on_scheduling m (set_should_start true) else m.

(** ** The end of a snapshot *)

(** The traverser's verdict on the dump. *)
Definition judge (t : Traverser VisitedObjectSet) (p : Policy) : Policy :=
  let p := mkPolicy (_gcDescDisabled p) (_faultGuardUnavailable p) (_consecutiveFaultyDumps p)
    (_faultCount (_dump t)) (Z.max (_visitedSetHighWatermark p) (GetBucketCount (_visited t))) in
  if negb (_gcDescTrusted (_layout t)) then
    mkPolicy true (_faultGuardUnavailable p) (_consecutiveFaultyDumps p)
      (_lastTraversalFaultCount p) (_visitedSetHighWatermark p)
  else match _stopReason (_dump t) with
  | FaultBudgetExhausted =>
    let n := u32 (_consecutiveFaultyDumps p + 1) in
    mkPolicy (if MaxConsecutiveFaultyDumps <=? n then true else _gcDescDisabled p)
      (_faultGuardUnavailable p) n (_lastTraversalFaultCount p) (_visitedSetHighWatermark p)
  | UnexpectedException =>
    mkPolicy (_gcDescDisabled p) (_faultGuardUnavailable p) 0 (_lastTraversalFaultCount p)
      (_visitedSetHighWatermark p)
  | FaultGuardUnavailable =>
    mkPolicy (_gcDescDisabled p) true 0 (_lastTraversalFaultCount p) (_visitedSetHighWatermark p)
  | NoStop =>
    mkPolicy (_gcDescDisabled p) (_faultGuardUnavailable p) 0 (_lastTraversalFaultCount p)
      (_visitedSetHighWatermark p)
  end.

(** [OnEndGCDump] up to its last store, which wakes up the dedicated thread. *)
Definition dump_judged (m : HeapSnapshotManager) : HeapSnapshotManager :=
  let m :=
    match _pReferenceChainTraverser (_collected m) with
    | Some t => on_policy m (judge t)
    | None => m
    end in
  on_scheduling m (fun s => set_cooldown (OnDumpEnd (_snapshotCooldown s) (_lastTimestamp s)) s).

Definition OnEndGCDump (m : HeapSnapshotManager) : HeapSnapshotManager :=
  on_scheduling (dump_judged m) (set_should_cleanup true).

(** ** Callbacks of collections *)

Definition Induced : Z := 1.

Definition OnGarbageCollectionStart (number generation reason type now : Z) (m : HeapSnapshotManager) :
    HeapSnapshotManager :=
  let s := _scheduling m in
  if _isHeapDumpInProgress s && (_inducedGCNumber s =? -1) &&
     ((reason =? Induced) && (generation =? 2) && (type =? NonConcurrentGC)) then
    let m := on_scheduling m (set_induced number) in
    on_figures m (fun f => mkFigures (_gen2Size f) (_lohSize f) (_pohSize f) 0 0 0 now
      (_lastOldHeapSize f) (_lastMemPressure f))
  else m.

(** The figures every collection ends with. *)
Definition note_sizes (r : EndReport) (m : HeapSnapshotManager) : HeapSnapshotManager :=
  on_scheduling (on_figures m (fun f => mkFigures (end_gen2Size r) (end_lohSize r) (end_pohSize r)
    (_objectCount f) (_totalSize f) (_duration f) (_startTimestamp f) (_lastOldHeapSize f)
    (_lastMemPressure f))) (set_pressure (end_memPressure r)).

(** The figures of the dump whose collection has ended. *)
Definition dump_over (r : EndReport) (now : Z) (m : HeapSnapshotManager) : HeapSnapshotManager :=
  let m := on_scheduling m (fun s => set_last_timestamp now (set_in_progress false s)) in
  on_figures m (fun f => mkFigures (_gen2Size f) (_lohSize f) (_pohSize f)
    (_objectCount f) (_totalSize f) (u64 (Z.quot (now - _startTimestamp f) 1000000))
    (_startTimestamp f) (u64 (end_gen2Size r + end_lohSize r + end_pohSize r))
    (end_memPressure r)).

Definition OnGarbageCollectionEnd (r : EndReport) (now : Z) (m : HeapSnapshotManager) :
    HeapSnapshotManager :=
  let m := note_sizes r m in
  if _isHeapDumpInProgress (_scheduling m) then
    if end_number r =? _inducedGCNumber (_scheduling m) then
      OnEndGCDump (dump_over r now (on_scheduling m (set_induced (-1))))
    else m
  else StartAsyncSnapshotIfNeeded now m.

(** ** Callbacks of the dump *)

Section histogram.
Context (GetTypeName : Z -> option text).

(** One node of the heap. *)
Definition add_node (node : GCBulkNodeValue) (h : gmap Z ClassHistogramEntry) :
    gmap Z ClassHistogramEntry :=
  let id := NodeValue_TypeID node in
  match h !! id with
  | None =>
    match GetTypeName id with
    | Some name => <[id := mkHistogramEntry name 1 (NodeValue_Size node)]> h
    | None => h
    end
  | Some e =>
    <[id := mkHistogramEntry (ClassName e) (u64 (InstanceCount e + 1))
              (u64 (TotalSize e + NodeValue_Size node))]> h
  end.

Definition with_histogram (h : gmap Z ClassHistogramEntry) (c : Collected) : Collected :=
  mkCollected h (_typeReferenceTree c) (_pReferenceChainTraverser c) (_pInlineVTCache c) (_guard c).

Definition add_size (size : Z) (f : Figures) : Figures :=
  mkFigures (_gen2Size f) (_lohSize f) (_pohSize f) (_objectCount f) (u64 (_totalSize f + size))
    (_duration f) (_startTimestamp f) (_lastOldHeapSize f) (_lastMemPressure f).

(** The loop over the [count] entries at [pNodes] in the payload. *)
Fixpoint bulk_nodes (count : nat) (data : bytes) (pNodes : Z) (m : HeapSnapshotManager) :
    option HeapSnapshotManager :=
  match count with
  | O => Some m
  | S count =>
    match load data pNodes (sizeof GCBulkNodeValue) with
    | Ok bs =>
      let node : GCBulkNodeValue := of_bytes bs in
      let m := on_figures m (add_size (NodeValue_Size node)) in
      let m := on_collected m (fun c => with_histogram (add_node node (_classHistogram c)) c) in
      bulk_nodes count data (pNodes + Z.of_nat (sizeof GCBulkNodeValue)) m
    | _ => None
    end
  end.

Definition OnBulkNodes (count : Z) (data : bytes) (pNodes : Z) (m : HeapSnapshotManager) :
    option HeapSnapshotManager :=
  let m := on_figures m (fun f => mkFigures (_gen2Size f) (_lohSize f) (_pohSize f)
    (u64 (_objectCount f + count)) (_totalSize f) (_duration f) (_startTimestamp f)
    (_lastOldHeapSize f) (_lastMemPressure f)) in
  bulk_nodes (Z.to_nat count) data pNodes m.
End histogram.

Definition OnBulkEdges (m : HeapSnapshotManager) : HeapSnapshotManager := m.

Section roots.
Context (mem : Z -> option Z) (info : ICorProfilerInfo).
Context (RegisterHandlers : nat -> bool * bool) (interruptions : nat -> interruption).
Context (drainFuel vtFuel : nat).

(** A call of the profiling API outside of the fault guard: [None] if it does not return. *)
Definition call_api {A} (a : answer A) : option (option A) :=
  match a with Answer x => Some (Some x) | Error => Some None | AnswerFault | AnswerThrow => None end.

(** The traverser, with the tree and the cache it refers to. *)
Definition lend (t : Traverser VisitedObjectSet) (c : Collected) : Traverser VisitedObjectSet :=
  with_cache (_pInlineVTCache c) (on_tree (fun _ => _typeReferenceTree c) t).

Definition traverse (root : RootInfo) (m : HeapSnapshotManager) : option HeapSnapshotManager :=
  let c := _collected m in
  match _pReferenceChainTraverser c with
  | None => Some m
  | Some t =>
    match TraverseFromSingleRoot mem info RegisterHandlers interruptions drainFuel vtFuel root
            (_guard c, lend t c) with
    | ((g, t), Done _) =>
      Some (on_collected m (fun c => mkCollected (_classHistogram c) (_tree t) (Some t)
                                        (_inlineVTCache t) g))
    | _ => None
    end
  end.

Definition GCRootKind_Stack : Z := 0.
Definition GCRootKind_Finalizer : Z := 1.
Definition GCRootKind_Handle : Z := 2.
Definition GCRootKind_Other : Z := 3.
Definition GCRootFlags_Pinning : Z := 1.
Definition GCRootFlags_Interior : Z := 4.

Definition root_category_of (kind flags : Z) : RootCategory :=
  if kind =? GCRootKind_Stack then Stack
  else if kind =? GCRootKind_Finalizer then Finalizer
  else if kind =? GCRootKind_Handle then
    if negb (Z.land flags GCRootFlags_Pinning =? 0) then Pinning else Handle
  else if kind =? GCRootKind_Other then Other
  else Unknown.

(** One root edge. *)
Definition root_edge (root : GCBulkRootEdgeValue) (m : HeapSnapshotManager) : option HeapSnapshotManager :=
  if negb (Z.land (RootEdgeValue_Flags root) GCRootFlags_Interior =? 0) then Some m
  else
    let a := RootEdgeValue_RootedNodeAddress root in
    rootClassID ← call_api (GetClassFromObject info a);
    match rootClassID with
    | None => Some m
    | Some rootClassID =>
      size ← call_api (GetObjectSize2 info a);
      match size with
      | None => Some m
      | Some size =>
        traverse (mkRootInfo a (root_category_of (RootEdgeValue_Kind root) (RootEdgeValue_Flags root))
                    rootClassID size None) m
      end
    end.

Fixpoint OnBulkRootEdges (count : nat) (data : bytes) (pRoots : Z) (m : HeapSnapshotManager) :
    option HeapSnapshotManager :=
  match count with
  | O => Some m
  | S count =>
    match load data pRoots (sizeof GCBulkRootEdgeValue) with
    | Ok bs =>
      m ← root_edge (of_bytes bs) m;
      OnBulkRootEdges count data (pRoots + Z.of_nat (sizeof GCBulkRootEdgeValue)) m
    | _ => None
    end
  end.

(** [ToString]: the UTF-8 form of the field's name. *)
Definition OnBulkRootStaticVar (ToString : list Z -> text) (root : GCBulkRootStaticVarValue)
    (fieldName : list Z) (m : HeapSnapshotManager) : option HeapSnapshotManager :=
  size ← call_api (GetObjectSize2 info (StaticVarValue_ObjectID root));
  match size with
  | None => Some m
  | Some size =>
    traverse (mkRootInfo (StaticVarValue_ObjectID root) StaticVariable (StaticVarValue_TypeID root)
                size (Some (ToString fieldName))) m
  end.

(** A call of the event parser, with the payload its pointers point into.  The manager is
    registered as listener [self]. *)
Definition on_notification (GetTypeName : Z -> option text) (ToString : list Z -> text) (self : nat)
    (now : Z) (data : bytes) (n : Notification) (m : HeapSnapshotManager) : option HeapSnapshotManager :=
  match n with
  | ClrEventsParser.OnBulkNodes _ count pNodes => OnBulkNodes GetTypeName count data pNodes m
  | ClrEventsParser.OnBulkEdges _ _ _ => Some (OnBulkEdges m)
  | ClrEventsParser.OnBulkRootEdges _ count pRoots => OnBulkRootEdges (Z.to_nat count) data pRoots m
  | ClrEventsParser.OnBulkRootStaticVar root fieldName => OnBulkRootStaticVar ToString root fieldName m
  | ClrEventsParser.OnGarbageCollectionStart l _ number generation reason type =>
    Some (if decide (l = self) then OnGarbageCollectionStart number generation reason type now m else m)
  | ClrEventsParser.OnGarbageCollectionEnd l r =>
    Some (if decide (l = self) then OnGarbageCollectionEnd r now m else m)
  | _ => Some m
  end.

Fixpoint on_notifications (GetTypeName : Z -> option text) (ToString : list Z -> text) (self : nat)
    (now : Z) (data : bytes) (ns : list Notification) (m : HeapSnapshotManager) :
    option HeapSnapshotManager :=
  match ns with
  | [] => Some m
  | n :: ns =>
    m ← on_notification GetTypeName ToString self now data n m;
    on_notifications GetTypeName ToString self now data ns m
  end.
End roots.

(** ** The dedicated thread *)

Section main_loop.
Context (RegisterHandlers : nat -> bool * bool).
(** The inspection of the types met during a dump. *)
Context (ResolvePendingTypes : InlineVTCache -> InlineVTCache).

(** The traverser of a new dump; [None] if its visited set cannot be built. *)
Definition new_traverser (p : Policy) (c : Collected) : option (option (Traverser VisitedObjectSet)) :=
  if _faultGuardUnavailable p || _gcDescDisabled p then Some None
  else
    visited ← new_VisitedObjectSet (_visitedSetHighWatermark p);
    Some (Some (new_ReferenceChainTraverser visited [] (_pInlineVTCache c))).

(** What a new dump resets before its traverser is built. *)
Definition dump_reset (m : HeapSnapshotManager) : HeapSnapshotManager :=
  let m := on_collected m (fun c => mkCollected (_classHistogram c) (_typeReferenceTree c)
    (_pReferenceChainTraverser c) (DropCacheIfModuleUnloaded (_pInlineVTCache c)).1 (_guard c)) in
  let '(g, available) := EnsureInstalled RegisterHandlers (_guard (_collected m)) in
  let m := on_policy m (fun p => mkPolicy (_gcDescDisabled p) (negb available)
    (if available then _consecutiveFaultyDumps p else 0) (_lastTraversalFaultCount p)
    (_visitedSetHighWatermark p)) in
  on_collected m (fun c => mkCollected ∅ (Clear (_typeReferenceTree c)) (_pReferenceChainTraverser c)
    (_pInlineVTCache c) g).

Definition with_traverser (t : option (Traverser VisitedObjectSet)) (c : Collected) : Collected :=
  mkCollected (_classHistogram c) (_typeReferenceTree c) t (_pInlineVTCache c) (_guard c).

(** [StartGCDump] until it calls the runtime; [None] if an exception leaves it. *)
Definition StartGCDump (m : HeapSnapshotManager) : option (HeapSnapshotManager * list SessionCall) :=
  if negb (_session (_scheduling m) =? 0) then Some (m, [])
  else
    let m := dump_reset m in
    t ← new_traverser (_policy m) (_collected m);
    let m := on_collected m (with_traverser t) in
    Some (on_scheduling m (set_in_progress true), [StartSession]).

(** What follows the return of [EventPipeStartSession]. *)
Definition session_started (hr : option Z) (m : HeapSnapshotManager) : HeapSnapshotManager :=
  match hr with
  | Some id => on_scheduling m (set_session id)
  | None => on_scheduling m (fun s => set_in_progress false (set_session 0 s))
  end.

Definition cleanup_done (now : Z) (m : HeapSnapshotManager) : HeapSnapshotManager :=
  on_scheduling m (fun s => set_cooldown (OnCleanupDone (_snapshotCooldown s) now) s).

(** The keywords are reset by a session opened and closed at once. *)
Definition CleanupSession (now : Z) (m : HeapSnapshotManager) : HeapSnapshotManager * list SessionCall :=
  let s := _scheduling m in
  let '(m, calls) :=
    if negb (_session s =? 0) then (on_scheduling m (set_session 0), [StopSession (_session s)])
    else (m, []) in
  (cleanup_done now m, calls ++ if negb (_runtimeSessionKeywords s =? 0)
               then [ResetKeywords (_runtimeSessionKeywords s)] else []).

Definition ResolvePendingInlineValueTypes (m : HeapSnapshotManager) : HeapSnapshotManager :=
  on_collected m (fun c => mkCollected (_classHistogram c) (_typeReferenceTree c)
    (_pReferenceChainTraverser c) (ResolvePendingTypes (_pInlineVTCache c)) (_guard c)).

Definition MainLoopIteration (now : Z) (m : HeapSnapshotManager) :
    option (HeapSnapshotManager * list SessionCall) :=
  if _shouldCleanupHeapDumpSession (_scheduling m) then
    let m := on_scheduling m (set_should_cleanup false) in
    let '(m, calls) := CleanupSession now m in
    Some (ResolvePendingInlineValueTypes m, calls)
  else if _shouldStartHeapDump (_scheduling m) then
    StartGCDump (on_scheduling m (set_should_start false))
  else Some (m, []).
End main_loop.

Definition OnModuleUnloaded (m : HeapSnapshotManager) : HeapSnapshotManager :=
  on_collected m (fun c => mkCollected (_classHistogram c) (_typeReferenceTree c)
    (_pReferenceChainTraverser c) (ReferenceChainTraverser.OnModuleUnloaded (_pInlineVTCache c))
    (_guard c)).

(** ** What the exporter takes *)

(** The histogram as text; [entries] is the order in which the map iterates. *)
Definition entry_text (e : ClassHistogramEntry) : text :=
  chars "[" ++ quote ++ ClassName e ++ quote ++ chars "," ++ digits 20 (InstanceCount e) ++
  chars "," ++ digits 20 (TotalSize e) ++ chars "]".

Fixpoint entries_text (l : list ClassHistogramEntry) : text :=
  match l with
  | [] => []
  | [e] => entry_text e ++ [10]
  | e :: l => entry_text e ++ chars "," ++ [10] ++ entries_text l
  end.

Definition GetHeapSnapshotText (entries : list ClassHistogramEntry) : text :=
  match entries with
  | [] => []
  | _ => chars "[" ++ [10] ++ entries_text entries ++ chars "]" ++ [10]
  end.

Section exporter.
Context (GetTypeName : Z -> option text).
Context (iterate : gmap Z ClassHistogramEntry -> list (Z * ClassHistogramEntry)).

Definition GetAndClearHeapSnapshotText (m : HeapSnapshotManager) : HeapSnapshotManager * text :=
  (on_collected m (with_histogram ∅),
   GetHeapSnapshotText (snd <$> iterate (_classHistogram (_collected m)))).

Definition ReferenceTreeFormat_Binary : Z := 1.
Definition ReferenceTreeFormat_Json : Z := 2.

Definition GetAndClearReferenceTreeContent (m : HeapSnapshotManager) :
    HeapSnapshotManager * list (text * list Z) :=
  let tree := _typeReferenceTree (_collected m) in
  if IsEmpty tree then (m, [])
  else
    let format := _referenceTreeFormat (_settings m) in
    let json :=
      if negb (Z.land format ReferenceTreeFormat_Json =? 0)
      then [(chars "reference_tree.json", SerializeJson GetTypeName tree)] else [] in
    let bin :=
      if negb (Z.land format ReferenceTreeFormat_Binary =? 0)
      then [(chars "reference_tree.bin", Serialize GetTypeName tree)] else [] in
    (on_collected m (fun c => mkCollected (_classHistogram c) (Clear (_typeReferenceTree c))
       (_pReferenceChainTraverser c) (_pInlineVTCache c) (_guard c)), json ++ bin).
End exporter.
