(* ===== verification/SnapshotSchedule.v ===== *)
(** * The schedule of heap snapshots

    Over the model of [HeapSnapshot]: the steps of the dedicated thread, of the callbacks and
    of the exporter, the abstract schedule in which at most one session is open and dumps are
    spaced by the configured interval, and the simulation between the two. *)
From stdpp Require Import base gmap list strings.
From S2P Require Import Prelude FaultMonad VisitedObjectSet VisitedSet TypeReferenceTree TypeTreeJson.
From S2P Require Import GCDesc ReferenceChainTraverser TraversalSafety TraversalDump.
From S2P Require Import EventPayloads ClrEventsParser HeapSnapshot.

(** ** The threads *)

(** Where the dedicated thread is. *)
Inductive Loop :=
| Idle            (* between two iterations *)
| Checking        (* no cleanup is wanted *)
| CleanupSeen     (* [_shouldCleanupHeapDumpSession] was read, and not cleared yet *)
| Cleaning        (* in [CleanupSession] *)
| Stopped         (* [EventPipeStopSession] was called, [_session] not cleared yet *)
| Closed          (* [_session] is cleared *)
| Leaving         (* the cooldown is set: keywords and pending types are left *)
| StartSeen       (* [_shouldStartHeapDump] was read, and not cleared yet *)
| Starting        (* in [StartGCDump] *)
| Preparing       (* no session is open *)
| Prepared        (* the traverser is ready *)
| Opening.        (* in [EventPipeStartSession] *)

(** Where the callback of a collection's end is. *)
Inductive Callback :=
| Free
| AskSession | AskStart | AskCleanup | AskDue  (* the tests of [StartAsyncSnapshotIfNeeded] *)
| Requesting                                   (* about to set [_shouldStartHeapDump] *)
| Ending (r : EndReport)                       (* the induced collection was recognised *)
| Flagging.                                    (* about to set [_shouldCleanupHeapDumpSession] *)

#[export] Instance Loop_eq_dec : EqDecision Loop.
Proof. solve_decision. Defined.

(** What an observer of the schedule sees. *)
Inductive Mark :=
| Decided (t : Z)                          (* the end of a collection decides on a snapshot *)
| Requested                                (* and asks for it *)
| Took                                     (* the dedicated thread takes the request *)
| Dropped                                  (* a session is open: the request is lost *)
| Abandoned                                (* the traverser cannot be built *)
| OpeningSession                           (* the dedicated thread calls the runtime *)
| Opened (session : Z)
| OpenFailed
| Recognised                               (* the induced collection starts *)
| CollectionEnded                          (* and ends *)
| DumpEnded (t : Z)
| Flagged                                  (* a cleanup is asked for *)
| CleanupBegun
| SessionStopped (session : Z)
| Cleaned (t : Z).

Definition touches_schedule (n : Notification) : bool :=
  match n with
  | ClrEventsParser.OnGarbageCollectionStart _ _ _ _ _ _
  | ClrEventsParser.OnGarbageCollectionEnd _ _ => true
  | _ => false
  end.

Section system.
Context (mem : Z -> option Z) (info : ICorProfilerInfo).
Context (RegisterHandlers : nat -> bool * bool) (interruptions : nat -> interruption).
Context (drainFuel vtFuel : nat) (ResolvePendingTypes : InlineVTCache -> InlineVTCache).
Context (GetTypeName : Z -> option text) (ToString : list Z -> text) (self : nat).

(** A step of [MainLoopIteration]: one access to the state it shares with the callbacks.
    [hr] is the answer of [EventPipeStartSession]; the loop catches what [StartGCDump]
    throws. *)
Definition loop_step (now : Z) (hr : option Z) (m : HeapSnapshotManager) (l : Loop) :
    HeapSnapshotManager * Loop * list Mark :=
  let s := _scheduling m in
  match l with
  | Idle => (m, if _shouldCleanupHeapDumpSession s then CleanupSeen else Checking, [])
  | CleanupSeen => (on_scheduling m (set_should_cleanup false), Cleaning, [CleanupBegun])
  | Cleaning =>
    if negb (_session s =? 0) then (m, Stopped, [SessionStopped (_session s)]) else (m, Closed, [])
  | Stopped => (on_scheduling m (set_session 0), Closed, [])
  | Closed => (cleanup_done now m, Leaving, [Cleaned now])
  | Leaving => (ResolvePendingInlineValueTypes ResolvePendingTypes m, Idle, [])
  | Checking => (m, if _shouldStartHeapDump s then StartSeen else Idle, [])
  | StartSeen => (on_scheduling m (set_should_start false), Starting, [Took])
  | Starting => if negb (_session s =? 0) then (m, Idle, [Dropped]) else (m, Preparing, [])
  | Preparing =>
    let m := dump_reset RegisterHandlers m in
    match new_traverser (_policy m) (_collected m) with
    | Some t => (on_collected m (with_traverser t), Prepared, [])
    | None => (m, Idle, [Abandoned])
    end
  | Prepared => (on_scheduling m (set_in_progress true), Opening, [OpeningSession])
  | Opening =>
    (session_started hr m, Idle, [match hr with Some id => Opened id | None => OpenFailed end])
  end.

(** A step of [OnGarbageCollectionEnd], once it has begun. *)
Definition callback_step (now : Z) (m : HeapSnapshotManager) (c : Callback) :
    HeapSnapshotManager * Callback * list Mark :=
  let s := _scheduling m in
  match c with
  | Free => (m, Free, [])
  | AskSession => (m, if negb (_session s =? 0) then Free else AskStart, [])
  | AskStart => (m, if _shouldStartHeapDump s then Free else AskCleanup, [])
  | AskCleanup => (m, if _shouldCleanupHeapDumpSession s then Free else AskDue, [])
  | AskDue =>
    let '(m, due) := snapshot_due now m in
    if due then (m, Requesting, [Decided now]) else (m, Free, [])
  | Requesting => (on_scheduling m (set_should_start true), Free, [Requested])
  | Ending r => (dump_judged (dump_over r now m), Flagging, [DumpEnded now])
  | Flagging => (on_scheduling m (set_should_cleanup true), Free, [Flagged])
  end.

(** The beginning of [OnGarbageCollectionEnd]. *)
Definition callback_begin (r : EndReport) (m : HeapSnapshotManager) :
    HeapSnapshotManager * Callback * list Mark :=
  let m := note_sizes r m in
  if _isHeapDumpInProgress (_scheduling m) then
    if end_number r =? _inducedGCNumber (_scheduling m) then
      (on_scheduling m (set_induced (-1)), Ending r, [CollectionEnded])
    else (m, Free, [])
  else (m, AskSession, []).

Definition marks_of_start (m m' : HeapSnapshotManager) : list Mark :=
  if (_inducedGCNumber (_scheduling m) =? -1) && negb (_inducedGCNumber (_scheduling m') =? -1)
  then [Recognised] else [].

Definition State : Type := HeapSnapshotManager * Loop * Callback.

(** A step of the dedicated thread, of a callback or of the exporter.  Events are delivered
    one after another, a session the runtime opens has an identifier other than 0, and
    collections have a number other than -1. *)
Inductive step : State -> list Mark -> State -> Prop :=
| step_loop m l c now hr m' l' ks :
    hr <> Some 0 -> loop_step now hr m l = (m', l', ks) -> step (m, l, c) ks (m', l', c)
| step_callback m l c now m' c' ks :
    callback_step now m c = (m', c', ks) -> step (m, l, c) ks (m', l, c')
| step_gc_start m l number generation reason type now :
    let m' := OnGarbageCollectionStart number generation reason type now m in
    step (m, l, Free) (marks_of_start m m') (m', l, Free)
| step_gc_end m l r m' c' ks :
    end_number r <> -1 -> callback_begin r m = (m', c', ks) -> step (m, l, Free) ks (m', l, c')
| step_dump m l n now data m' :
    touches_schedule n = false ->
    on_notification mem info RegisterHandlers interruptions drainFuel vtFuel GetTypeName ToString
      self now data n m = Some m' ->
    step (m, l, Free) [] (m', l, Free)
| step_unload m l c : step (m, l, c) [] (OnModuleUnloaded m, l, c)
| step_text m l c iterate : step (m, l, c) [] ((GetAndClearHeapSnapshotText iterate m).1, l, c)
| step_tree m l c : step (m, l, c) [] ((GetAndClearReferenceTreeContent GetTypeName m).1, l, c)
| step_keywords m l c k : step (m, l, c) [] (SetRuntimeSessionParameters k m, l, c).

Inductive steps : State -> list Mark -> State -> Prop :=
| steps_nil x : steps x [] x
| steps_cons x a y b z : step x a y -> steps y b z -> steps x (a ++ b) z.

(** *** Steps and handlers

    Steps that nothing interrupts are the handlers. *)

Fixpoint loop_steps (n : nat) (now : Z) (m : HeapSnapshotManager) (l : Loop) :
    HeapSnapshotManager * Loop :=
  match n with O => (m, l) | S n => let '(m, l, _) := loop_step now None m l in loop_steps n now m l end.

Lemma iteration_uninterrupted now m m' calls :
  MainLoopIteration RegisterHandlers ResolvePendingTypes now m = Some (m', calls) ->
  exists n l, loop_steps n now m Idle = (m', l) /\
    l = match calls with StartSession :: _ => Opening | _ => Idle end.
Proof.
  unfold MainLoopIteration. destruct (_shouldCleanupHeapDumpSession (_scheduling m)) eqn:Ec.
  - unfold CleanupSession. cbn [on_scheduling _scheduling set_should_cleanup _session _runtimeSessionKeywords].
    destruct (negb (_session (_scheduling m) =? 0)) eqn:Es; intros [= <- <-];
      [exists 6%nat|exists 5%nat]; exists Idle; cbn; rewrite Ec; cbn; rewrite Es; cbn; (split; [done|]); by repeat case_match.
  - destruct (_shouldStartHeapDump (_scheduling m)) eqn:Ew; unfold StartGCDump.
    + cbn [on_scheduling _scheduling set_should_start _session].
      destruct (negb (_session (_scheduling m) =? 0)) eqn:Es.
      { intros [= <- <-]. exists 4%nat, Idle. cbn. rewrite Ec. cbn. rewrite Ew. cbn. by rewrite Es. }
      intros H. simplify_option. exists 6%nat, Opening. cbn. rewrite Ec. cbn. rewrite Ew. cbn. rewrite Es.
      cbn. match goal with H : new_traverser _ _ = _ |- _ => rewrite H end. done.
    + intros [= <- <-]. exists 2%nat, Idle. cbn. rewrite Ec. cbn. by rewrite Ew.
Qed.

Fixpoint callback_steps (n : nat) (now : Z) (m : HeapSnapshotManager) (c : Callback) :
    HeapSnapshotManager * Callback :=
  match n with O => (m, c) | S n => let '(m, c, _) := callback_step now m c in callback_steps n now m c end.

Lemma collection_end_uninterrupted r now m :
  callback_steps 5 now (callback_begin r m).1.1 (callback_begin r m).1.2 =
  (OnGarbageCollectionEnd r now m, Free).
Proof.
  unfold callback_begin, OnGarbageCollectionEnd.
  destruct (_isHeapDumpInProgress (_scheduling (note_sizes r m))); [by case_if|].
  unfold StartAsyncSnapshotIfNeeded, snapshot_under_way. cbn [callback_steps callback_step fst snd].
  destruct (negb _); [done|]. cbn [callback_steps callback_step orb].
  destruct (_shouldStartHeapDump _); [done|]. cbn [callback_steps callback_step orb].
  destruct (_shouldCleanupHeapDumpSession _); [done|]. cbn [callback_steps callback_step].
  by destruct (snapshot_due _ _) as [m' []].
Qed.

(** ** The abstract schedule *)

(** What the dedicated thread does, and a callback. *)
Inductive Stage := Resting | Taking | SessionOpening | Tidying.
Inductive Caller := NoCall | Deciding | Closing | Waking.

#[export] Instance Stage_eq_dec : EqDecision Stage.
Proof. solve_decision. Defined.
#[export] Instance Caller_eq_dec : EqDecision Caller.
Proof. solve_decision. Defined.

(** [allowed]: no snapshot may be decided on before (0: at any time); [opened]: the session;
    [dumping]: a dump is under way, and [recognised] its collection; [wanted] and [untidy]:
    a dump, or a cleanup, is asked for. *)
Record Schedule := mkSchedule {
  stage : Stage; caller : Caller; wanted : bool; untidy : bool;
  opened : option Z; dumping : bool; recognised : bool; allowed : Z
}.

Definition new_schedule : Schedule := mkSchedule Resting NoCall false false None false false 0.

Definition may_decide (allowed t : Z) : bool := (allowed =? 0) || (allowed <=? t).

Definition schedule_step (interval : Z) (s : Schedule) (k : Mark) : option Schedule :=
  let '(mkSchedule st ca w u op d rc al) := s in
  match k, st, ca with
  | Decided t, _, NoCall => if may_decide al t then Some (mkSchedule st Deciding w u op d rc al) else None
  | Requested, _, Deciding => Some (mkSchedule st NoCall true u op d rc al)
  | Took, Resting, _ => if w then Some (mkSchedule Taking ca false u op d rc al) else None
  | Dropped, Taking, _ => match op with Some _ => Some (mkSchedule Resting ca w u op d rc al) | None => None end
  | Abandoned, Taking, _ => match op with None => Some (mkSchedule Resting ca w u op d rc al) | Some _ => None end
  | OpeningSession, Taking, _ =>
    match op with None => Some (mkSchedule SessionOpening ca w u None true rc al) | Some _ => None end
  | Opened id, SessionOpening, _ => Some (mkSchedule Resting ca w u (Some id) d rc al)
  | OpenFailed, SessionOpening, _ => Some (mkSchedule Resting ca w u None false rc al)
  | Recognised, _, NoCall => if d && negb rc then Some (mkSchedule st ca w u op d true al) else None
  | CollectionEnded, _, NoCall => if d && rc then Some (mkSchedule st Closing w u op d false al) else None
  | DumpEnded t, _, Closing => Some (mkSchedule st Waking w u op false rc (t + interval))
  | Flagged, _, Waking => Some (mkSchedule st NoCall w true op d rc al)
  | CleanupBegun, Resting, _ => if u then Some (mkSchedule Tidying ca w false op d rc al) else None
  | SessionStopped id, Tidying, _ =>
    if bool_decide (op = Some id) then Some (mkSchedule Tidying ca w u None d rc al) else None
  | Cleaned t, Tidying, _ =>
    match op with
    | None => Some (mkSchedule Resting ca w u None d rc (Z.max al (t + interval)))
    | Some _ => None
    end
  | _, _, _ => None
  end.

Fixpoint schedule_run (interval : Z) (s : Schedule) (ks : list Mark) : option Schedule :=
  match ks with [] => Some s | k :: ks => s ← schedule_step interval s k; schedule_run interval s ks end.

Lemma schedule_run_app interval s ks1 ks2 :
  schedule_run interval s (ks1 ++ ks2) =
  s ← schedule_run interval s ks1; schedule_run interval s ks2.
Proof.
  revert s. induction ks1 as [|k ks1 IH]; intros s; [done|]. cbn [app schedule_run].
  destruct (schedule_step interval s k); [apply IH|done].
Qed.

(** *** Spacing

    Nothing is under way. *)
Definition quiet (s : Schedule) : bool :=
  bool_decide (stage s = Resting) && bool_decide (caller s = NoCall) && negb (wanted s) &&
  negb (untidy s) && bool_decide (opened s = None) && negb (dumping s).

(** Every snapshot is decided on while nothing is under way. *)
Fixpoint calm (interval : Z) (s : Schedule) (ks : list Mark) : bool :=
  match ks with
  | [] => true
  | k :: ks =>
    match k with Decided _ => quiet s | _ => true end &&
    match schedule_step interval s k with Some s => calm interval s ks | None => true end
  end.

(** Every session is opened for a snapshot that was decided on, at [asked], when the interval
    since the last dump and its cleanup had passed. *)
Fixpoint spaced (interval asked : Z) (s : Schedule) (ks : list Mark) : bool :=
  match ks with
  | [] => true
  | k :: ks =>
    match schedule_step interval s k with
    | Some s' =>
      match k with OpeningSession => may_decide (allowed s) asked | _ => true end &&
      spaced interval (match k with Decided t => t | _ => asked end) s' ks
    | None => true
    end
  end.

(** A snapshot decided on in quiet is the only thing under way until its session is opened. *)
Inductive undisturbed (asked : Z) : Schedule -> Prop :=
| nothing_asked st ca u op d rc al : st <> Taking -> ca <> Deciding ->
    undisturbed asked (mkSchedule st ca false u op d rc al)
| being_asked st ca w rc al : may_decide al asked = true ->
    (st, ca, w) = (Resting, Deciding, false) \/ (st, ca, w) = (Resting, NoCall, true) \/
    (st, ca, w) = (Taking, NoCall, false) ->
    undisturbed asked (mkSchedule st ca w false None false rc al).

Lemma undisturbed_step interval asked s k s' :
  undisturbed asked s -> schedule_step interval s k = Some s' ->
  (match k with Decided _ => quiet s | _ => true end) = true ->
  undisturbed (match k with Decided t => t | _ => asked end) s' /\
  (match k with OpeningSession => may_decide (allowed s) asked | _ => true end) = true.
Proof.
  intros Hu Hs Hq. destruct Hu as [st ca u op d rc al H1 H2|st ca w rc al H1 H2].
  - destruct k, st, ca; cbn in Hs; try done; repeat case_match; simplify_eq;
      try (split; [by constructor|done]); unfold quiet in Hq; cbn in Hq; bool_facts; try done.
    destruct u, d, op; try done. split; [|done]. apply being_asked; auto.
  - destruct H2 as [[= -> -> ->]|[[= -> -> ->]|[= -> -> ->]]]; destruct k; cbn in Hs; try done; simplify_eq;
      (split; [|done]); first [by apply nothing_asked|by apply being_asked; auto].
Qed.

Lemma calm_spaced interval ks : forall asked s,
  undisturbed asked s -> calm interval s ks = true -> spaced interval asked s ks = true.
Proof.
  induction ks as [|k ks IH]; intros asked s Hu Hc; [done|]. cbn [calm spaced] in *.
  apply andb_true_iff in Hc as [Hk Hc].
  destruct (schedule_step interval s k) as [s'|] eqn:E; [|done].
  destruct (undisturbed_step interval asked s k s' Hu E Hk) as [Hu' ->]. by apply IH.
Qed.

(** *** Running a schedule

    A given order of steps: of the dedicated thread, of the callback at work, or a new
    callback. *)
Inductive Act :=
| Loops (n : nat) (now : Z) (hr : option Z)
| Calls (n : nat) (now : Z)
| GcStart (number now : Z)
| GcEnd (r : EndReport).

Fixpoint act_n (n : nat) (f : State -> State * list Mark) (x : State) : State * list Mark :=
  match n with
  | O => (x, [])
  | S n => let '(x, a) := f x in let '(x, b) := act_n n f x in (x, a ++ b)
  end.

(** [None] if events overlap, or a runtime's answer is out of range. *)
Definition act (x : State) (a : Act) : option (State * list Mark) :=
  match a, x with
  | Loops n now hr, _ =>
    if decide (hr = Some 0) then None
    else Some (act_n n (fun '(m, l, c) => let '(m, l, ks) := loop_step now hr m l in (m, l, c, ks)) x)
  | Calls n now, _ =>
    Some (act_n n (fun '(m, l, c) => let '(m, c, ks) := callback_step now m c in (m, l, c, ks)) x)
  | GcStart number now, (m, l, Free) =>
    let m' := OnGarbageCollectionStart number 2 Induced NonConcurrentGC now m in
    Some (m', l, Free, marks_of_start m m')
  | GcEnd r, (m, l, Free) =>
    if end_number r =? -1 then None
    else let '(m, c, ks) := callback_begin r m in Some (m, l, c, ks)
  | _, _ => None
  end.

Fixpoint acts (x : State) (l : list Act) : option (State * list Mark) :=
  match l with
  | [] => Some (x, [])
  | a :: l => '(x, ks) ← act x a; '(x, ks') ← acts x l; Some (x, ks ++ ks')
  end.

Lemma steps_app x a y b z : steps x a y -> steps y b z -> steps x (a ++ b) z.
Proof.
  induction 1 as [|x a y b' z' Hs Hr IH]; [done|]. intros H. rewrite <- app_assoc.
  eapply steps_cons; [done|]. by apply IH.
Qed.

Lemma steps_one x a y : step x a y -> steps x a y.
Proof. intros H. rewrite <- (app_nil_r a). eapply steps_cons; [done|apply steps_nil]. Qed.

Lemma act_n_steps f n : forall x y ks,
  (forall x, step x (f x).2 (f x).1) -> act_n n f x = (y, ks) -> steps x ks y.
Proof.
  induction n as [|n IH]; intros x y ks Hf; cbn; [intros; simplify_eq; apply steps_nil|].
  pose proof (Hf x) as Hx. destruct (f x) as [x1 a]. destruct (act_n n f x1) as [z b] eqn:E.
  intros. simplify_eq. eapply steps_cons; [done|]. by apply IH.
Qed.

Lemma act_steps x a y ks : act x a = Some (y, ks) -> steps x ks y.
Proof.
  destruct a as [n now hr|n now|number now|r]; cbn; intros H.
  - destruct (decide _) as [|Hhr]; [done|]. injection H as H. eapply act_n_steps; [|exact H].
    intros [[m l] c]. destruct (loop_step now hr m l) as [[m' l'] ks'] eqn:E. by eapply step_loop.
  - injection H as H. eapply act_n_steps; [|exact H].
    intros [[m l] c]. destruct (callback_step now m c) as [[m' c'] ks'] eqn:E. by eapply step_callback.
  - destruct x as [[m l] []]; simplify_eq. apply steps_one, step_gc_start.
  - destruct x as [[m l] []]; try done. destruct (Z.eqb_spec (end_number r) (-1)); [done|].
    destruct (callback_begin r m) as [[m' c'] ks'] eqn:E. simplify_eq. apply steps_one. by eapply step_gc_end.
Qed.

Lemma acts_steps l : forall x y ks, acts x l = Some (y, ks) -> steps x ks y.
Proof.
  induction l as [|a l IH]; intros x y ks; cbn; [intros; simplify_eq; apply steps_nil|].
  destruct (act x a) as [[x1 ks1]|] eqn:E1; [|done]. cbn.
  destruct (acts x1 l) as [[x2 ks2]|] eqn:E2; [|done]. cbn. intros. simplify_eq.
  eapply steps_app; [by eapply act_steps|eauto].
Qed.

(** ** Simulation *)

Definition stage_of (l : Loop) : Stage :=
  match l with
  | Idle | Checking | CleanupSeen | StartSeen | Leaving => Resting
  | Cleaning | Stopped | Closed => Tidying
  | Starting | Preparing | Prepared => Taking
  | Opening => SessionOpening
  end.

Definition caller_of (c : Callback) : Caller :=
  match c with
  | Requesting => Deciding | Ending _ => Closing | Flagging => Waking
  | Free | AskSession | AskStart | AskCleanup | AskDue => NoCall
  end.

Definition open_session (s : Scheduling) (l : Loop) : option Z :=
  if decide (l = Stopped) then None else if _session s =? 0 then None else Some (_session s).

Definition abstract (x : State) : Schedule :=
  let '(m, l, c) := x in
  let s := _scheduling m in
  mkSchedule (stage_of l) (caller_of c) (_shouldStartHeapDump s) (_shouldCleanupHeapDumpSession s)
    (open_session s l) (_isHeapDumpInProgress s) (negb (_inducedGCNumber s =? -1))
    (_nextAllowed (_snapshotCooldown s)).

(** What the dedicated thread has read and only itself changes. *)
Definition loop_knows (s : Scheduling) (l : Loop) : Prop :=
  match l with
  | StartSeen => _shouldStartHeapDump s = true
  | CleanupSeen => _shouldCleanupHeapDumpSession s = true
  | Preparing | Prepared | Opening | Closed => _session s = 0
  | _ => True
  end.

Record consistent (m : HeapSnapshotManager) (l : Loop) : Prop := {
  cs_loop : loop_knows (_scheduling m) l;
  cs_interval : _interval (_snapshotCooldown (_scheduling m)) = _heapDumpInterval (_settings m)
}.

(** A step is matched by its marks. *)
Definition simulates (x : State) (ks : list Mark) (x' : State) : Prop :=
  consistent x'.1.1 x'.1.2 /\ _settings x'.1.1 = _settings x.1.1 /\
  schedule_run (_heapDumpInterval (_settings x.1.1)) (abstract x) ks = Some (abstract x').

Lemma simulates_same m l c m' c' :
  consistent m l -> _settings m' = _settings m -> _scheduling m' = _scheduling m ->
  caller_of c' = caller_of c -> simulates (m, l, c) [] (m', l, c').
Proof.
  intros [] Hs Hc Hca. unfold simulates, abstract. cbn. rewrite Hc, Hca. split; [|done].
  split; rewrite ?Hc, ?Hs; done.
Qed.

Lemma bulk_nodes_schedule n data p : forall m m',
  bulk_nodes GetTypeName n data p m = Some m' ->
  _settings m' = _settings m /\ _scheduling m' = _scheduling m.
Proof.
  revert p. induction n as [|n IH]; intros p m m'; cbn [bulk_nodes]; [intros; by simplify_eq|].
  destruct (load data p _); try done. intros H%IH. done.
Qed.

Lemma traverse_schedule root m m' :
  traverse mem info RegisterHandlers interruptions drainFuel vtFuel root m = Some m' ->
  _settings m' = _settings m /\ _scheduling m' = _scheduling m.
Proof.
  unfold traverse. destruct (_pReferenceChainTraverser _); [|intros; by simplify_eq].
  destruct (TraverseFromSingleRoot _ _ _ _ _ _ _ _) as [[g' t'] []]; intros; by simplify_eq.
Qed.

Lemma root_edge_schedule root m m' :
  root_edge mem info RegisterHandlers interruptions drainFuel vtFuel root m = Some m' ->
  _settings m' = _settings m /\ _scheduling m' = _scheduling m.
Proof.
  unfold root_edge. case_if; [intros; by simplify_eq|]. intros H. simplify_option.
  destruct x as [c|]; [|by simplify_eq]. simplify_option.
  destruct x as [z|]; [|by simplify_eq]. by eapply traverse_schedule.
Qed.

Lemma root_edges_schedule n data p : forall m m',
  OnBulkRootEdges mem info RegisterHandlers interruptions drainFuel vtFuel n data p m = Some m' ->
  _settings m' = _settings m /\ _scheduling m' = _scheduling m.
Proof.
  revert p. induction n as [|n IH]; intros p m m'; cbn [OnBulkRootEdges]; [intros; by simplify_eq|].
  destruct (load data p _); try done. intros H. simplify_option.
  apply root_edge_schedule in H as [E1 E2]. apply IH in H0 as [E3 E4]. by rewrite E3, E4.
Qed.

Lemma notification_schedule now data n m m' :
  touches_schedule n = false ->
  on_notification mem info RegisterHandlers interruptions drainFuel vtFuel GetTypeName ToString
    self now data n m = Some m' ->
  _settings m' = _settings m /\ _scheduling m' = _scheduling m.
Proof.
  destruct n; cbn; try done; intros _ H; try (by simplify_eq).
  - by apply bulk_nodes_schedule in H.
  - by eapply root_edges_schedule.
  - unfold OnBulkRootStaticVar in H. simplify_option. destruct x; [|by simplify_eq].
    by eapply traverse_schedule.
Qed.

Lemma dump_reset_schedule m :
  _scheduling (dump_reset RegisterHandlers m) = _scheduling m /\
  _settings (dump_reset RegisterHandlers m) = _settings m.
Proof. unfold dump_reset. by destruct (EnsureInstalled _ _). Qed.

Lemma loop_simulates now hr m l c m' l' ks :
  hr <> Some 0 -> consistent m l -> loop_step now hr m l = (m', l', ks) ->
  simulates (m, l, c) ks (m', l', c).
Proof.
  intros Hhr [Hl Hi] Hs. destruct l; cbn in Hl, Hs; simplify_eq; unfold simulates; cbn.
  - by destruct (_shouldCleanupHeapDumpSession _) eqn:E.
  - by destruct (_shouldStartHeapDump _) eqn:E.
  - by rewrite Hl.
  - destruct (Z.eqb_spec (_session (_scheduling m)) 0) as [E|E]; cbn in *; simplify_eq; cbn; [done|].
    split; [done|]. split; [done|]. unfold open_session. cbn.
    by rewrite (proj2 (Z.eqb_neq _ _) E), bool_decide_true.
  - done.
  - split; [done|]. split; [done|]. unfold open_session. cbn. by rewrite Hl, Hi.
  - done.
  - by rewrite Hl.
  - destruct (Z.eqb_spec (_session (_scheduling m)) 0) as [E|E]; cbn in *; simplify_eq; cbn; [done|].
    split; [done|]. split; [done|]. unfold open_session. cbn. by rewrite (proj2 (Z.eqb_neq _ _) E).
  - destruct (dump_reset_schedule m) as [E1 E2]. unfold open_session. rewrite Hl. cbn.
    destruct (new_traverser _ _); simplify_eq; unfold open_session; cbn; rewrite ?E1, ?E2, ?Hl; cbn;
      (split; [split; cbn; by rewrite ?E1, ?E2|done]).
  - unfold open_session. cbn. by rewrite Hl.
  - destruct hr as [id|]; cbn; unfold open_session; cbn; [|done]. rewrite (proj2 (Z.eqb_neq id 0)) by congruence.
    done.
Qed.

Lemma snapshot_due_cases now m m' due :
  snapshot_due now m = (m', due) ->
  (m' = m \/ m' = on_scheduling m (set_last_timestamp now)) /\
  (due = true -> IsAllowed (_snapshotCooldown (_scheduling m)) now = true).
Proof.
  unfold snapshot_due. destruct (IsAllowed _ _) eqn:E; cbn; repeat case_match; intros; simplify_eq; auto.
Qed.

Lemma callback_simulates now m l c m' c' ks :
  consistent m l -> callback_step now m c = (m', c', ks) -> simulates (m, l, c) ks (m', l, c').
Proof.
  intros Hc Hs. destruct c; cbn in Hs; simplify_eq; try (by case_match; apply simulates_same).
  - by apply simulates_same.
  - destruct (snapshot_due now m) as [m1 due] eqn:E. destruct (snapshot_due_cases _ _ _ _ E) as [Hm Ha].
    destruct due; simplify_eq.
    + specialize (Ha eq_refl). destruct Hc as [Hl Hi].
      assert (consistent m' l /\ _settings m' = _settings m /\ abstract (m', l, Requesting) =
        mkSchedule (stage_of l) Deciding (wanted (abstract (m, l, AskDue))) (untidy (abstract (m, l, AskDue)))
          (opened (abstract (m, l, AskDue))) (dumping (abstract (m, l, AskDue)))
          (recognised (abstract (m, l, AskDue))) (allowed (abstract (m, l, AskDue)))) as (H1 & H2 & H3)
        by (destruct Hm as [->| ->]; (split; [by split|done])).
      split; [done|]. split; [done|]. cbn [schedule_run]. rewrite H3. cbn. unfold may_decide, IsAllowed in *.
      by rewrite Ha.
    + destruct Hm as [->| ->]; [by apply simulates_same|]. destruct Hc. by split.
  - destruct Hc as [Hl Hi]. split; [|done]. split; [|done]. by destruct l.
  - destruct Hc as [Hl Hi]. unfold dump_judged, simulates, dump_over. cbn.
    destruct (_pReferenceChainTraverser (_collected m)); cbn; rewrite Hi;
      (split; [split; [by destruct l|done]|done]).
  - destruct Hc as [Hl Hi]. split; [|done]. split; [|done]. by destruct l.
Qed.

Lemma gc_start_simulates m l number generation reason type now :
  consistent m l ->
  let m' := OnGarbageCollectionStart number generation reason type now m in
  simulates (m, l, Free) (marks_of_start m m') (m', l, Free).
Proof.
  intros Hc. cbn zeta. unfold marks_of_start, OnGarbageCollectionStart.
  destruct (_isHeapDumpInProgress (_scheduling m) && (_inducedGCNumber (_scheduling m) =? -1)) eqn:E;
    [|cbn; rewrite andb_negb_r; by apply simulates_same].
  apply andb_true_iff in E as [E1 E2]. cbn [andb].
  destruct ((reason =? Induced) && (generation =? 2) && (type =? NonConcurrentGC)); cbn; rewrite E2;
    [|by apply simulates_same].
  destruct Hc as [Hl Hi]. unfold simulates. cbn.
  destruct (number =? -1) eqn:En; cbn; rewrite E1, E2; cbn;
    (split; [split; [by destruct l|done]|split; [done|]]); unfold open_session; cbn; by rewrite ?En, ?E1.
Qed.

Lemma gc_end_simulates m l r m' c' ks :
  consistent m l -> end_number r <> -1 -> callback_begin r m = (m', c', ks) ->
  simulates (m, l, Free) ks (m', l, c').
Proof.
  intros [Hl Hi] Hn Hs. unfold callback_begin in Hs. cbn in Hs.
  assert (forall c, caller_of c = NoCall -> simulates (m, l, Free) [] (note_sizes r m, l, c)) as Hsame.
  { intros c Ec. unfold simulates. cbn. rewrite Ec. split; [|done]. split; [by destruct l|done]. }
  destruct (_isHeapDumpInProgress _) eqn:Ep; [|simplify_eq; by apply Hsame].
  destruct (Z.eqb_spec (end_number r) (_inducedGCNumber (_scheduling m))) as [En|]; simplify_eq; [|by apply Hsame].
  unfold simulates. cbn. rewrite Ep, <- En, (proj2 (Z.eqb_neq _ _) Hn). cbn.
  split; [split; [by destruct l|done]|]. unfold open_session. cbn. done.
Qed.

Lemma step_simulates x ks x' : consistent x.1.1 x.1.2 -> step x ks x' -> simulates x ks x'.
Proof.
  intros Hc Hs. destruct Hs; cbn in Hc; try (by apply simulates_same).
  - by eapply loop_simulates.
  - by eapply callback_simulates.
  - by apply gc_start_simulates.
  - by eapply gc_end_simulates.
  - edestruct notification_schedule; [eassumption..|]. by apply simulates_same.
  - unfold GetAndClearReferenceTreeContent. case_match; by apply simulates_same.
  - destruct Hc as [Hl Hi]. split; [|done]. split; [by destruct l|done].
Qed.

Lemma steps_simulate x ks y : steps x ks y -> consistent x.1.1 x.1.2 -> simulates x ks y.
Proof.
  induction 1 as [[[m l] c]|x a y b z Hs Hr IH]; intros Hc; [by apply simulates_same|].
  destruct (step_simulates _ _ _ Hc Hs) as (Hc1 & E1 & R1).
  destruct (IH Hc1) as (Hc2 & E2 & R2). split; [done|]. split; [congruence|].
  rewrite schedule_run_app, R1. cbn. by rewrite <- E1.
Qed.
End system.
