(* ===== verification/HeapDump.v ===== *)
(** * Properties of heap snapshots

    The schedule refines the abstract one; the histogram counts exactly the objects
    described; reading of references is switched off for good exactly when it must be; and
    the events of a dump, from the parser through the manager to the traverser, are always
    processed to the end. *)
From stdpp Require Import base gmap list strings.
From S2P Require Import Prelude FaultMonad VisitedObjectSet VisitedSet TypeReferenceTree TypeTreeJson.
From S2P Require Import GCDesc ReferenceChainTraverser TraversalSafety TraversalDump.
From S2P Require Import EventPayloads ClrEventsParser HeapSnapshot SnapshotSchedule.

(** ** The histogram *)

Section counting.
Context (GetTypeName : Z -> option text).

Definition instances (c : Z) (nodes : list GCBulkNodeValue) : list GCBulkNodeValue :=
  filter (fun n => NodeValue_TypeID n = c) nodes.

Definition size_of (nodes : list GCBulkNodeValue) : Z := foldr (fun n z => NodeValue_Size n + z) 0 nodes.

(** What the histogram must hold for class [c]. *)
Definition counted (nodes : list GCBulkNodeValue) (c : Z) : option ClassHistogramEntry :=
  match GetTypeName c, instances c nodes with
  | Some name, (_ :: _) as l => Some (mkHistogramEntry name (u64 (zlen l)) (u64 (size_of l)))
  | _, _ => None
  end.

Lemma size_of_app l1 l2 : size_of (l1 ++ l2) = size_of l1 + size_of l2.
Proof. unfold size_of. induction l1 as [|n l1 IH]; cbn; [done|]. unfold size_of in IH. lia. Qed.

Lemma instances_snoc c nodes n :
  instances c (nodes ++ [n]) =
  instances c nodes ++ if decide (NodeValue_TypeID n = c) then [n] else [].
Proof. unfold instances. by rewrite filter_app. Qed.

Lemma counted_known nodes c e : counted nodes c = Some e -> GetTypeName c = Some (ClassName e).
Proof.
  unfold counted. destruct (GetTypeName c), (instances c nodes); intros; by simplify_eq.
Qed.

Lemma add_node_counted nodes n h :
  fits n -> (forall c, h !! c = counted nodes c) ->
  forall c, add_node GetTypeName n h !! c = counted (nodes ++ [n]) c.
Proof.
  intros Hn Hh c. unfold add_node. rewrite Hh.
  assert (Hsz : in_u 64 (NodeValue_Size n)).
  { apply Forall2_cons in Hn as [_ Hn]. by apply Forall2_cons in Hn as [? _]. }
  destruct (decide (c = NodeValue_TypeID n)) as [->|Hc].
  - unfold counted. rewrite instances_snoc, decide_True by done.
    destruct (GetTypeName _) as [name|] eqn:En; cbn.
    + destruct (instances _ nodes) as [|x l]; cbn [app]; rewrite lookup_insert_eq.
      * unfold size_of. cbn. rewrite Z.add_0_r, (wrap_small 64 (NodeValue_Size n)) by done. done.
      * pose proof (size_of_app l [n]) as Hs. unfold size_of in *. cbn in *. rewrite !u64_add, length_app, Hs.
        do 2 f_equal; f_equal; cbn; lia.
    + by rewrite Hh; unfold counted; rewrite En.
  - assert (counted (nodes ++ [n]) c = counted nodes c) as ->.
    { unfold counted. rewrite instances_snoc, decide_False by done. by rewrite app_nil_r. }
    repeat case_match; rewrite ?lookup_insert_ne by done; apply Hh.
Qed.

(** The whole loop over nodes laid out in the payload. *)
Lemma bulk_nodes_counted seen nodes : forall data pre post m,
  data = pre ++ concat (to_bytes <$> nodes) ++ post -> Forall fits nodes ->
  (forall c, _classHistogram (_collected m) !! c = counted seen c) ->
  exists m', bulk_nodes GetTypeName (length nodes) data (zlen pre) m = Some m' /\
    _settings m' = _settings m /\ _scheduling m' = _scheduling m /\ _policy m' = _policy m /\
    (forall c, _classHistogram (_collected m') !! c = counted (seen ++ nodes) c) /\
    _objectCount (_figures m') = _objectCount (_figures m) /\
    u64 (_totalSize (_figures m')) = u64 (_totalSize (_figures m) + size_of nodes).
Proof.
  revert seen. induction nodes as [|n nodes IH]; intros seen data pre post m Hd Hf Hh.
  - exists m. rewrite app_nil_r. unfold size_of. cbn. by rewrite Z.add_0_r.
  - apply Forall_cons in Hf as [Hn Hf]. rewrite fmap_cons in Hd. cbn [concat] in Hd.
    rewrite <- app_assoc in Hd. cbn [length bulk_nodes].
    assert (load data (zlen pre) (sizeof GCBulkNodeValue) = Ok (to_bytes n)) as ->.
    { rewrite Hd, <- (to_bytes_length n). apply load_app. }
    rewrite of_to_bytes by done.
    set (m1 := on_collected _ _).
    destruct (IH (seen ++ [n]) data (pre ++ to_bytes n) post m1) as (m' & E & E1 & E2 & E3 & E4 & E5 & E6).
    { by rewrite <- app_assoc. }
    { done. }
    { intros c. cbn. by apply add_node_counted. }
    rewrite length_app, to_bytes_length, Nat2Z.inj_add in E. exists m'. split; [exact E|].
    rewrite <- app_assoc in E4. repeat (split; [done|]).
    rewrite E6. unfold m1. cbn.
    rewrite u64_add. f_equal. unfold size_of. cbn. lia.
Qed.
End counting.

(** ** Reading of references *)

Definition untrusted (t : Traverser VisitedObjectSet) : Prop := _gcDescTrusted (_layout t) = false.
Definition exhausted (t : Traverser VisitedObjectSet) : Prop :=
  _gcDescTrusted (_layout t) = true /\ _stopReason (_dump t) = FaultBudgetExhausted.

(** The verdicts of successive dumps. *)
Definition judge_all (ts : list (Traverser VisitedObjectSet)) (p : Policy) : Policy :=
  fold_left (fun p t => judge t p) ts p.

(** Three faulty dumps in a row. *)
Definition three_faulty (ts : list (Traverser VisitedObjectSet)) : Prop :=
  exists l1 a b c l2, ts = l1 ++ [a; b; c] ++ l2 /\ exhausted a /\ exhausted b /\ exhausted c.

Lemma judge_spec t p :
  (untrusted t -> _gcDescDisabled (judge t p) = true) /\
  (exhausted t ->
    _consecutiveFaultyDumps (judge t p) = u32 (_consecutiveFaultyDumps p + 1) /\
    _gcDescDisabled (judge t p) =
      (if 3 <=? u32 (_consecutiveFaultyDumps p + 1) then true else _gcDescDisabled p)) /\
  (~ untrusted t -> ~ exhausted t ->
    _consecutiveFaultyDumps (judge t p) = 0 /\ _gcDescDisabled (judge t p) = _gcDescDisabled p) /\
  (_gcDescDisabled p = true -> _gcDescDisabled (judge t p) = true).
Proof.
  unfold untrusted, exhausted, judge.
  destruct (_gcDescTrusted (_layout t)), (_stopReason (_dump t)); cbn;
    repeat split; intros; try done; try (by destruct_and?); try tauto.
  by case_if.
Qed.

#[export] Instance exhausted_dec t : Decision (exhausted t).
Proof. apply and_dec; apply _. Defined.

(** The faulty dumps in a row at the head of a list, the latest first. *)
Fixpoint streak (r : list (Traverser VisitedObjectSet)) : Z :=
  match r with [] => 0 | t :: r => if decide (exhausted t) then 1 + streak r else 0 end.

Lemma streak_two r :
  2 <= streak r <-> exists a b r', r = a :: b :: r' /\ exhausted a /\ exhausted b.
Proof.
  assert (Hnn : forall r, 0 <= streak r)
    by (intros l; induction l as [|t l IH]; cbn; [lia|]; case_decide; lia).
  split.
  - destruct r as [|a [|b r]]; cbn; repeat case_decide; try lia. eauto 10.
  - intros (a & b & r' & -> & Ha & Hb). cbn. rewrite !decide_True by done. pose proof (Hnn r'). lia.
Qed.

Lemma three_snoc ts t :
  three_faulty (ts ++ [t]) <-> three_faulty ts \/ exhausted t /\ 2 <= streak (rev ts).
Proof.
  rewrite streak_two. split.
  - intros (l1 & a & b & c & l2 & E & Ha & Hb & Hc). destruct l2 as [|x l2 _] using rev_ind.
    + right. rewrite app_nil_r in E. change [a; b; c] with ([a; b] ++ [c]) in E. rewrite app_assoc in E.
      apply app_inj_tail in E as [-> ->]. split; [done|]. exists b, a, (rev l1). by rewrite rev_app_distr.
    + left. rewrite !app_assoc in E. apply app_inj_tail in E as [-> _].
      exists l1, a, b, c, l2. by rewrite <- !app_assoc.
  - intros [(l1 & a & b & c & l2 & -> & H)|(Ht & b & a & r & E & Hb & Ha)].
    + exists l1, a, b, c, (l2 ++ [t]). by rewrite <- !app_assoc.
    + apply (f_equal (@rev _)) in E. rewrite rev_involutive in E. cbn in E. rewrite <- app_assoc in E.
      exists (rev r), a, b, t, []. rewrite E, <- !app_assoc. done.
Qed.

Lemma judge_all_snoc ts t p : judge_all (ts ++ [t]) p = judge t (judge_all ts p).
Proof. unfold judge_all. by rewrite fold_left_app. Qed.

(** While reading is on, the counter is the streak and no reason to switch it off occurred. *)
Lemma judge_all_spec ts p :
  _gcDescDisabled p = false -> _consecutiveFaultyDumps p = 0 ->
  let bad := Exists untrusted ts \/ three_faulty ts in
  (_gcDescDisabled (judge_all ts p) = true /\ bad) \/
  (_gcDescDisabled (judge_all ts p) = false /\ ~ bad /\
   _consecutiveFaultyDumps (judge_all ts p) = streak (rev ts) /\ 0 <= streak (rev ts) <= 2).
Proof.
  intros Hd Hc. induction ts as [|t ts IH] using rev_ind; cbn.
  - right. split; [done|]. split; [|by split; [done|lia]].
    intros [H|(l1 & a & b & c & l2 & E & _)]; [by inversion H|]. by destruct l1.
  - rewrite judge_all_snoc, three_snoc, Exists_app, Exists_cons, Exists_nil, rev_app_distr. cbn.
    destruct (judge_spec t (judge_all ts p)) as (Hu & He & Hn & Hk).
    destruct IH as [[IH ?]|(IH & Hno & Hs & Hr)]; [left; split; [auto|tauto]|].
    destruct (decide (_gcDescTrusted (_layout t) = false)) as [Hun|Hun]; [left; split; [auto|unfold untrusted; tauto]|].
    destruct (decide (exhausted t)) as [Hex|Hex].
    + destruct (He Hex) as [Hc' Hd']. rewrite Hs, wrap_small in Hc', Hd' by (unfold in_u; lia).
      rewrite Hd', IH. destruct (Z.leb_spec 3 (streak (rev ts) + 1)).
      * left. split; [done|]. right. right. split; [done|lia].
      * right. split; [done|]. split; [intros [[?|[?|?]]|[?|[_ ?]]]; [tauto|done|done|tauto|lia]|]. lia.
    + destruct (Hn Hun Hex) as [Hc' Hd']. right. rewrite Hd', Hc'. split; [done|].
      split; [unfold untrusted; tauto|lia].
Qed.

(** ** Events through the parser to the manager *)

Section pipeline.
Context (mem : Z -> option Z) (info : ICorProfilerInfo).
Context (RegisterHandlers : nat -> bool * bool) (interruptions : nat -> interruption).
Context (drainFuel vtFuel : nat).
Context (GetTypeName : Z -> option text) (ToString : list Z -> text) (self : nat).

Definition process (now : Z) (e : Event) (pm : ClrEventsParser * HeapSnapshotManager) :
    option (ClrEventsParser * HeapSnapshotManager) :=
  '(p, ns) ← deliver e pm.1;
  m ← on_notifications mem info RegisterHandlers interruptions drainFuel vtFuel GetTypeName ToString
        self now (ev_data e) ns pm.2;
  Some (p, m).

Fixpoint process_all (es : list (Z * Event)) (pm : ClrEventsParser * HeapSnapshotManager) :
    option (ClrEventsParser * HeapSnapshotManager) :=
  match es with
  | [] => Some pm
  | (now, e) :: es => pm ← process now e pm; process_all es pm
  end.

(** A bulk event of nodes. *)
Definition node_event (t : Z) (h : GCBulkNodePayload) (rest : bytes) : Event :=
  mkEvent t 1 KEYWORD_GCHEAPDUMP EVENT_GC_BULK_NODE (to_bytes h ++ rest).

Lemma node_event_delivered t h rest p :
  fits h -> zlen (to_bytes h ++ rest) < 2 ^ 32 -> _pGCDumpListener p = true ->
  deliver (node_event t h rest) p =
  Some (p, [ClrEventsParser.OnBulkNodes (BulkNode_Index h) (BulkNode_Count h) (zlen (to_bytes h))]).
Proof.
  intros Hh Hl Hp. unfold deliver, node_event, ParseEvent, ParseGcEvent, ParseBulkEvent, ParseLifecycleEvent.
  cbn [ev_keywords ev_id ev_version ev_data ev_timestamp].
  change (has_keyword KEYWORD_GCHEAPDUMP KEYWORD_GCHEAPDUMP) with true. rewrite orb_true_r.
  cbn -[Read to_bytes length]. rewrite Hp.
  pose proof (Read_app GCBulkNodePayload [] h rest (zlen (to_bytes h ++ rest)) Hh) as Hr.
  cbn [app length] in Hr. change (Z.of_nat 0) with 0 in Hr. rewrite Hr by done.
  cbn [with_payload mbind option_bind]. by case_if.
Qed.

Lemma process_nodes now t h rest p m :
  fits h -> zlen (to_bytes h ++ rest) < 2 ^ 32 -> _pGCDumpListener p = true ->
  process now (node_event t h rest) (p, m) =
  m ← OnBulkNodes GetTypeName (BulkNode_Count h) (to_bytes h ++ rest) (zlen (to_bytes h)) m;
  Some (p, m).
Proof.
  intros Hh Hl Hp. unfold process. cbn [fst snd]. rewrite node_event_delivered by done.
  cbn [mbind option_bind on_notifications on_notification node_event ev_data].
  by destruct (OnBulkNodes _ _ _ _ _).
Qed.

(** The array of nodes is read entry by entry, whatever the size of the payload. *)
Lemma bulk_nodes_bounds n : forall data pos m, 0 <= pos <= zlen data ->
  is_Some (bulk_nodes GetTypeName n data pos m) <-> pos + 32 * Z.of_nat n <= zlen data.
Proof.
  induction n as [|n IH]; intros data pos m Hpos; cbn [bulk_nodes].
  - split; [lia|]. eauto.
  - change (sizeof GCBulkNodeValue) with 32%nat. change (Z.of_nat 32) with 32.
    destruct (decide (pos + 32 <= zlen data)) as [Hin|Hout].
    + destruct (load_in_bounds data pos 32) as [bs ->]; [lia|lia|]. rewrite IH by lia. lia.
    + unfold load. rewrite (proj2 (Z.leb_gt (pos + Z.of_nat 32) _)) by lia. rewrite andb_false_r.
      split; [by intros [? ?]|lia].
Qed.

(** ** Roots *)

Context (rank : Z -> nat) (U : gset Z) (Hb : bounded mem drainFuel vtFuel rank U).

(** The profiling API answers for the roots the collection reports, and only for addresses
    of objects. *)
Record answers : Prop := {
  an_class a : exists r, call_api (GetClassFromObject info a) = Some r;
  an_size a : exists r, call_api (GetObjectSize2 info a) = Some r;
  an_class_object a c : GetClassFromObject info a = Answer c -> a <> 0 /\ a ∈ U;
  an_size_object a z : GetObjectSize2 info a = Answer z -> a <> 0 /\ a ∈ U
}.

(** Between two callbacks. *)
Record ready (m : HeapSnapshotManager) : Prop := {
  rd_guard : t_inGuardedRegion (_guard (_collected m)) = false;
  rd_traverser t : _pReferenceChainTraverser (_collected m) = Some t ->
    idle rank (lend t (_collected m)) /\ failure_logged (lend t (_collected m))
}.

Lemma ready_same m m' : ready m -> _guard (_collected m') = _guard (_collected m) ->
  _pReferenceChainTraverser (_collected m') = _pReferenceChainTraverser (_collected m) ->
  _pInlineVTCache (_collected m') = _pInlineVTCache (_collected m) -> ready m'.
Proof.
  intros [Hg Ht] E1 E2 E3. split; [by rewrite E1|]. intros t. rewrite E2. intros Et.
  destruct (Ht t Et) as [[] []]. unfold lend in *. rewrite E3. by split; split.
Qed.

Lemma traverse_ready root m :
  ready m -> address root <> 0 -> address root ∈ U ->
  exists m', traverse mem info RegisterHandlers interruptions drainFuel vtFuel root m = Some m' /\ ready m'.
Proof.
  intros [Hg Ht] Ha HU. unfold traverse.
  destruct (_pReferenceChainTraverser (_collected m)) as [t|] eqn:Et.
  - destruct (Ht t eq_refl) as [Hid Hlog]. destruct Hb.
    edestruct (Traverse_spec mem info RegisterHandlers interruptions drainFuel vtFuel)
      as (g' & s' & k & -> & Hg' & Hid' & Hlog' & _); eauto.
    eexists. split; [done|]. split; [done|]. cbn. intros t0 [= <-].
    destruct Hid', Hlog'. by split; split.
  - exists m. split; [done|]. split; [done|]. intros t0. by rewrite Et.
Qed.

Context (Hans : answers).

Lemma call_api_Some {A} (a : answer A) x : call_api a = Some (Some x) -> a = Answer x.
Proof. destruct a; intros; by simplify_eq/=. Qed.

Lemma root_edge_ready root m :
  ready m ->
  exists m', root_edge mem info RegisterHandlers interruptions drainFuel vtFuel root m = Some m' /\ ready m'.
Proof.
  intros Hm. unfold root_edge. case_if; [by eauto|].
  set (a := RootEdgeValue_RootedNodeAddress root).
  destruct (an_class Hans a) as [r Hr]. rewrite Hr. cbn. destruct r as [c|]; [|by eauto].
  destruct (an_size Hans a) as [z Hz]. rewrite Hz. cbn. destruct z as [z|]; [|by eauto].
  apply call_api_Some, (an_class_object Hans) in Hr as [? ?]. by apply traverse_ready.
Qed.

Lemma root_edges_ready n data : forall pos m,
  ready m -> 0 <= pos -> pos + 21 * Z.of_nat n <= zlen data ->
  exists m', OnBulkRootEdges mem info RegisterHandlers interruptions drainFuel vtFuel n data pos m = Some m'
    /\ ready m'.
Proof.
  induction n as [|n IH]; intros pos m Hm Hpos Hl; cbn [OnBulkRootEdges]; [by eauto|].
  change (sizeof GCBulkRootEdgeValue) with 21%nat.
  destruct (load_in_bounds data pos 21) as [bs ->]; [lia|lia|].
  destruct (root_edge_ready (of_bytes bs) m Hm) as (m1 & -> & Hm1). cbn [mbind option_bind].
  change (Z.of_nat 21) with 21. apply IH; [done|lia|lia].
Qed.

Lemma bulk_nodes_ready n data : forall pos m m',
  ready m -> bulk_nodes GetTypeName n data pos m = Some m' -> ready m'.
Proof.
  induction n as [|n IH]; intros pos m m' Hm; cbn [bulk_nodes]; [intros; by simplify_eq|].
  destruct (load data pos _); try done. intros H%IH; [done|]. by eapply ready_same.
Qed.

(** The arrays a call of the parser points to are in the payload. *)
Definition array_fits (data : bytes) (n : Notification) : Prop :=
  match n with
  | ClrEventsParser.OnBulkNodes _ count p => 0 <= count /\ 0 <= p /\ p + 32 * count <= zlen data
  | ClrEventsParser.OnBulkRootEdges _ count p => 0 <= count /\ 0 <= p /\ p + 21 * count <= zlen data
  | _ => True
  end.

Lemma OnGarbageCollectionEnd_collected r now m :
  _collected (OnGarbageCollectionEnd r now m) = _collected m.
Proof.
  unfold OnGarbageCollectionEnd, OnEndGCDump, dump_judged, StartAsyncSnapshotIfNeeded, snapshot_due.
  repeat case_match; simplify_eq; done.
Qed.

Lemma notification_ready now data n m :
  ready m -> array_fits data n ->
  exists m', on_notification mem info RegisterHandlers interruptions drainFuel vtFuel GetTypeName
    ToString self now data n m = Some m' /\ ready m'.
Proof.
  intros Hm. destruct n; cbn [on_notification array_fits]; intros Hfit; try (by eauto).
  - unfold OnBulkNodes. set (m0 := on_figures _ _).
    destruct (proj2 (bulk_nodes_bounds (Z.to_nat Count) data pNodes m0 ltac:(lia))) as [m' E]; [lia|].
    exists m'. split; [done|]. eapply bulk_nodes_ready; [|done]. by eapply ready_same.
  - apply root_edges_ready; [done|lia|lia].
  - unfold OnBulkRootStaticVar. destruct (an_size Hans (StaticVarValue_ObjectID root)) as [z Hz].
    rewrite Hz. cbn. destruct z as [z|]; [|by eauto].
    apply call_api_Some, (an_size_object Hans) in Hz as [? ?]. by apply traverse_ready.
  - eexists. split; [done|]. case_decide; [|done]. unfold OnGarbageCollectionStart.
    case_if; [|done]. by eapply ready_same.
  - eexists. split; [done|]. case_decide; [|done].
    apply (ready_same m); by rewrite ?OnGarbageCollectionEnd_collected.
Qed.

Lemma notifications_ready now data ns : forall m,
  ready m -> Forall (array_fits data) ns ->
  exists m', on_notifications mem info RegisterHandlers interruptions drainFuel vtFuel GetTypeName
    ToString self now data ns m = Some m' /\ ready m'.
Proof.
  induction ns as [|n ns IH]; intros m Hm Hf; cbn [on_notifications]; [by eauto|].
  apply Forall_cons in Hf as [Hn Hf]. destruct (notification_ready now data n m Hm Hn) as (m1 & -> & Hm1).
  cbn [mbind option_bind]. by apply IH.
Qed.

(** An event whose arrays are complete. *)
Definition complete (e : Event) : Prop :=
  deliverable e /\ forall p p' ns, deliver e p = Some (p', ns) -> Forall (array_fits (ev_data e)) ns.

Lemma process_all_ready es : forall p m,
  Forall (fun te => complete te.2) es -> ready m ->
  exists p' m', process_all es (p, m) = Some (p', m') /\ ready m'.
Proof.
  induction es as [|[now e] es IH]; intros p m Hes Hm; cbn [process_all]; [by eauto|].
  apply Forall_cons in Hes as [[He Hf] Hes]. unfold process. cbn [fst snd].
  destruct (deliver_ok e p He) as (p1 & ns & E & _). rewrite E. cbn [mbind option_bind].
  destruct (notifications_ready now (ev_data e) ns m Hm (Hf _ _ _ E)) as (m1 & -> & Hm1).
  cbn [mbind option_bind]. by apply IH.
Qed.

End pipeline.

(** The dump the manager starts is ready for its callbacks. *)
Lemma StartGCDump_ready RegisterHandlers rank m :
  t_inGuardedRegion (_guard (_collected m)) = false ->
  ranked rank (_pInlineVTCache (_collected m)) ->
  _visitedSetHighWatermark (_policy m) <= 4294967296 -> _session (_scheduling m) = 0 ->
  exists m', StartGCDump RegisterHandlers m = Some (m', [StartSession]) /\ ready rank m' /\
    _isHeapDumpInProgress (_scheduling m') = true /\ _classHistogram (_collected m') = ∅ /\
    _typeReferenceTree (_collected m') = [] /\
    (is_Some (_pReferenceChainTraverser (_collected m')) <->
     _faultGuardUnavailable (_policy m') = false /\ _gcDescDisabled (_policy m) = false).
Proof.
  intros Hg Hr Hw Hs. unfold StartGCDump, dump_reset. rewrite Hs. cbn [Z.eqb negb].
  destruct (EnsureInstalled RegisterHandlers _) as [g av] eqn:Eg.
  assert (Hg' : t_inGuardedRegion g = false).
  { unfold EnsureInstalled in Eg. cbn in Eg.
    destruct (installed _); [by simplify_eq|]. destruct (RegisterHandlers _). by simplify_eq. }
  assert (Hr' : ranked rank (DropCacheIfModuleUnloaded (_pInlineVTCache (_collected m))).1).
  { unfold DropCacheIfModuleUnloaded. case_if; [done|].
    intros k fields fld Hk. cbn in Hk. by rewrite lookup_empty in Hk. }
  unfold new_traverser. cbn [_policy on_policy _faultGuardUnavailable _gcDescDisabled on_collected].
  destruct (negb av || _gcDescDisabled (_policy m)) eqn:Eo.
  - eexists. split; [done|]. split; [split; [done|]; by intros t|]. repeat (split; [done|]). cbn.
    rewrite is_Some_alt. destruct av; cbn in *; intuition congruence.
  - cbn [_visitedSetHighWatermark on_policy _policy].
    destruct (new_ok (_visitedSetHighWatermark (_policy m)) Hw) as (v & -> & Hv & _).
    assert (Hv' : vs_inv 0 v) by exact Hv.
    cbn [mbind option_bind]. eexists. split; [done|]. split.
    + split; [done|]. cbn. intros t [= <-].
      destruct (new_idle (V := VisitedObjectSet) rank v [] (DropCacheIfModuleUnloaded (_pInlineVTCache (_collected m))).1 Hv' Hr')
        as [[] []]. by split; split.
    + repeat (split; [done|]). cbn. apply orb_false_iff in Eo as [E1 E2]. rewrite E1, E2. naive_solver.
Qed.

(** ** Properties *)

(** C8: whatever the interleaving of the dedicated thread, the collections' callbacks, the
    exporter and the runtime's answers, access by access to the state they share, the
    schedule of heap snapshots refines the abstract one.  A snapshot is decided on only when
    the interval since the ends of the dumps and cleanups noted so far has passed; a session
    is opened only for a request that was taken, when none is open, and is the only one
    until it is stopped, exactly once, by a cleanup; a dump ends with the collection that was
    recognised as its own, and a cleanup follows the end of a dump.  And as long as every
    snapshot is decided on while nothing is under way, every session is opened at least the
    interval after the end of the last dump and of its cleanup. *)
Theorem snapshots_follow_schedule mem info RegisterHandlers interruptions drainFuel vtFuel
    ResolvePendingTypes GetTypeName ToString self interval testInterval threshold format guard ks x :
  steps mem info RegisterHandlers interruptions drainFuel vtFuel ResolvePendingTypes GetTypeName
    ToString self
    (new_HeapSnapshotManager interval testInterval threshold format guard, Idle, Free) ks x ->
  let between := if 0 <? testInterval then testInterval else interval in
  schedule_run between new_schedule ks = Some (abstract x) /\
  (calm between new_schedule ks = true -> spaced between 0 new_schedule ks = true).
Proof.
  intros Hs. apply steps_simulate in Hs; [|by split].
  destruct Hs as (Hc & _ & Hr). split; [exact Hr|]. apply calm_spaced. by apply nothing_asked.
Qed.

(** C25: once a dump is started, the events of the collection, parsed and handed to the
    manager in any order and number, are all processed: nothing is read outside of a
    payload, every traversal of a reported root returns, and the fault guard is left
    disarmed; provided that the arrays of bulk events are complete. *)
Theorem dump_callbacks_return mem info RegisterHandlers interruptions drainFuel vtFuel GetTypeName
    ToString self rank U m p es :
  bounded mem drainFuel vtFuel rank U -> answers info U ->
  t_inGuardedRegion (_guard (_collected m)) = false ->
  ranked rank (_pInlineVTCache (_collected m)) ->
  _visitedSetHighWatermark (_policy m) <= 4294967296 -> _session (_scheduling m) = 0 ->
  Forall (fun te => complete te.2) es ->
  exists m1 p' m',
    StartGCDump RegisterHandlers m = Some (m1, [StartSession]) /\
    process_all mem info RegisterHandlers interruptions drainFuel vtFuel GetTypeName ToString self es
      (p, m1) = Some (p', m') /\
    t_inGuardedRegion (_guard (_collected m')) = false /\
    forall t, _pReferenceChainTraverser (_collected m') = Some t ->
      0 <= _faultCount (_dump t) <= MaxFaultsPerDump /\
      (_stopReason (_dump t) = FaultBudgetExhausted <-> _faultCount (_dump t) = MaxFaultsPerDump).
Proof.
  intros Hb Ha Hg Hr Hw Hs Hes.
  destruct (StartGCDump_ready RegisterHandlers rank m Hg Hr Hw Hs) as (m1 & E1 & Hm1 & _).
  destruct (process_all_ready mem info RegisterHandlers interruptions drainFuel vtFuel GetTypeName
    ToString self rank U Hb Ha es p m1 Hes Hm1) as (p' & m' & E & [Hg' Ht']).
  exists m1, p', m'. repeat (split; [done|]). intros t Ht.
  destruct (Ht' t Ht) as [[? ? _ _ _ _] _]. done.
Qed.

(** C40: a payload that announces [Count] nodes is read outside of its bounds exactly when it
    does not hold them all: nothing between the parser and the histogram checks the count. *)
Theorem bulk_nodes_unchecked mem info RegisterHandlers interruptions drainFuel vtFuel GetTypeName
    ToString self now t h rest p m :
  fits h -> zlen (to_bytes h ++ rest) < 2 ^ 32 -> _pGCDumpListener p = true ->
  process mem info RegisterHandlers interruptions drainFuel vtFuel GetTypeName ToString self now
    (node_event t h rest) (p, m) = None <-> zlen rest < 32 * BulkNode_Count h.
Proof.
  intros Hh Hl Hp. rewrite process_nodes by done. unfold OnBulkNodes. set (m0 := on_figures _ _).
  assert (Hc : 0 <= BulkNode_Count h).
  { apply Forall2_cons in Hh as [_ Hh]. by apply Forall2_cons in Hh as [[? _] _]. }
  pose proof (bulk_nodes_bounds GetTypeName (Z.to_nat (BulkNode_Count h)) (to_bytes h ++ rest)
    (zlen (to_bytes h)) m0) as Hbd.
  rewrite length_app, Nat2Z.inj_add in Hbd. specialize (Hbd ltac:(lia)).
  destruct (bulk_nodes GetTypeName _ _ _ m0) as [m'|]; cbn.
  - split; [done|]. destruct Hbd as [Hbd _]. specialize (Hbd ltac:(done)). lia.
  - split; [|done]. intros _. destruct (decide (zlen rest < 32 * BulkNode_Count h)); [done|].
    destruct Hbd as [_ Hbd]. destruct Hbd as [? ?]; [lia|done].
Qed.

(** The events of a heap description. *)
Definition node_events (batches : list (GCBulkNodePayload * list GCBulkNodeValue)) : list (Z * Event) :=
  (fun b => (0, node_event 0 b.1 (concat (to_bytes <$> b.2)))) <$> batches.

Definition batch_ok (b : GCBulkNodePayload * list GCBulkNodeValue) : Prop :=
  fits b.1 /\ Forall fits b.2 /\ BulkNode_Count b.1 = zlen b.2 /\
  zlen (to_bytes b.1 ++ concat (to_bytes <$> b.2)) < 2 ^ 32.

Lemma process_batches mem info RegisterHandlers interruptions drainFuel vtFuel GetTypeName ToString
    self p batches : forall seen m,
  _pGCDumpListener p = true -> Forall batch_ok batches ->
  (forall c, _classHistogram (_collected m) !! c = counted GetTypeName seen c) ->
  exists m', process_all mem info RegisterHandlers interruptions drainFuel vtFuel GetTypeName ToString
      self (node_events batches) (p, m) = Some (p, m') /\
    (forall c, _classHistogram (_collected m') !! c = counted GetTypeName (seen ++ mjoin batches.*2) c) /\
    u64 (_objectCount (_figures m')) = u64 (_objectCount (_figures m) + zlen (mjoin batches.*2)) /\
    u64 (_totalSize (_figures m')) = u64 (_totalSize (_figures m) + size_of (mjoin batches.*2)).
Proof.
  induction batches as [|[h nodes] batches IH]; intros seen m Hp Hok Hh.
  - exists m. cbn. rewrite app_nil_r. unfold size_of. cbn. by rewrite !Z.add_0_r.
  - apply Forall_cons in Hok as [(Hf & Hn & Hc & Hl) Hok]. cbn [fst snd] in *.
    unfold node_events. rewrite fmap_cons. cbn [process_all fst snd].
    rewrite process_nodes by done. unfold OnBulkNodes. rewrite Hc, Nat2Z.id.
    set (m0 := on_figures _ _).
    destruct (bulk_nodes_counted GetTypeName seen nodes (to_bytes h ++ concat (to_bytes <$> nodes))
      (to_bytes h) [] m0) as (m1 & -> & _ & _ & _ & E4 & E5 & E6); [by rewrite app_nil_r|done|done|].
    cbn [mbind option_bind].
    destruct (IH (seen ++ nodes) m1 Hp Hok E4) as (m' & E & F1 & F2 & F3).
    exists m'. split; [exact E|]. rewrite fmap_cons. cbn [mjoin list_join snd].
    rewrite app_assoc. split; [done|]. rewrite F2, F3, E5, size_of_app, length_app, Nat2Z.inj_add.
    rewrite <- (u64_add (_totalSize (_figures m1))), E6. unfold m0. cbn.
    split; by rewrite u64_add, <- Z.add_assoc.
Qed.

(** After the bulk events of a dump, the histogram counts exactly the objects they
    describe: for every class whose name is known, the number of its objects and their total
    size; and nothing else.  The snapshot's figures are the totals over all objects. *)
Theorem histogram_counts_nodes mem info RegisterHandlers interruptions drainFuel vtFuel GetTypeName
    ToString self p m batches :
  _pGCDumpListener p = true -> Forall batch_ok batches ->
  _classHistogram (_collected m) = ∅ -> _objectCount (_figures m) = 0 -> _totalSize (_figures m) = 0 ->
  exists m', process_all mem info RegisterHandlers interruptions drainFuel vtFuel GetTypeName ToString
      self (node_events batches) (p, m) = Some (p, m') /\
    let nodes := mjoin batches.*2 in
    (forall c, _classHistogram (_collected m') !! c = counted GetTypeName nodes c) /\
    u64 (_objectCount (_figures m')) = u64 (zlen nodes) /\
    u64 (_totalSize (_figures m')) = u64 (size_of nodes).
Proof.
  intros Hp Hb Hh Ho Ht.
  destruct (process_batches mem info RegisterHandlers interruptions drainFuel vtFuel GetTypeName ToString
    self p batches [] m Hp Hb) as (m' & E & E1 & E2 & E3).
  - intros c. rewrite Hh, lookup_empty. unfold counted. by destruct (GetTypeName c).
  - exists m'. rewrite Ho in E2. rewrite Ht in E3. done.
Qed.

(** Reading of references is switched off for the rest of the process exactly when a
    self-test failed, or three dumps in a row used up their fault budget. *)
Theorem reading_disabled ts p :
  _gcDescDisabled p = false -> _consecutiveFaultyDumps p = 0 ->
  _gcDescDisabled (judge_all ts p) = true <-> Exists untrusted ts \/ three_faulty ts.
Proof.
  intros Hd Hc. destruct (judge_all_spec ts p Hd Hc) as [[-> ?]|(-> & ? & _)]; [done|].
  split; [done|tauto].
Qed.

(** The manager may ask for a snapshot at the end of this collection. *)
Definition due (m : HeapSnapshotManager) (r : EndReport) (now : Z) : Prop :=
  let s := _scheduling m in
  IsAllowed (_snapshotCooldown s) now = true /\
  (_memPressureThreshold (_settings m) <= 0 \/
   _memPressureThreshold (_settings m) <= end_memPressure r) /\
  (_lastTimestamp s = 0 /\ _delayFirstSnapshot (_settings m) = false \/
   _lastTimestamp s <> 0 /\ _heapDumpInterval (_settings m) <= now - _lastTimestamp s).

Lemma due_requested m r now :
  quiet (abstract (m, Idle, Free)) = true -> due m r now ->
  let m1 := OnGarbageCollectionEnd r now m in
  _shouldStartHeapDump (_scheduling m1) = true /\ _shouldCleanupHeapDumpSession (_scheduling m1) = false /\
  _session (_scheduling m1) = 0 /\ _collected m1 = _collected m /\ _policy m1 = _policy m /\
  _settings m1 = _settings m /\ _snapshotCooldown (_scheduling m1) = _snapshotCooldown (_scheduling m) /\
  _inducedGCNumber (_scheduling m1) = _inducedGCNumber (_scheduling m).
Proof.
  intros Ha (Hal & Hpr & Hti). unfold quiet, abstract, open_session in Ha. cbn in Ha.
  destruct (_shouldStartHeapDump (_scheduling m)) eqn:Ew; [done|].
  destruct (_shouldCleanupHeapDumpSession (_scheduling m)) eqn:Ec; [done|].
  destruct (_session (_scheduling m) =? 0) eqn:Es; [|done].
  destruct (_isHeapDumpInProgress (_scheduling m)) eqn:Ep; [done|].
  cbn zeta. unfold OnGarbageCollectionEnd. cbn. rewrite Ep.
  unfold StartAsyncSnapshotIfNeeded, snapshot_under_way, snapshot_due. cbn. rewrite Ew, Ec, Es, Hal. cbn.
  assert ((0 <? _memPressureThreshold (_settings m)) &&
    (end_memPressure r <? _memPressureThreshold (_settings m)) = false) as ->.
  { apply not_true_iff_false. intros Hbad. bool_facts. lia. }
  apply Z.eqb_eq in Es. destruct Hti as [[-> ->]|[Hl Hi]]; cbn; [done|].
  by rewrite (proj2 (Z.eqb_neq _ _) Hl), (proj2 (Z.ltb_ge _ _) Hi).
Qed.

(** A due snapshot is taken and the manager comes back to waiting: the collection's end
    requests it, the dedicated thread opens a session, the induced collection is recognised,
    its end lets the thread close that very session, and the next snapshot is allowed one
    interval after both the end of the dump and the cleanup. *)
Theorem due_snapshot_is_taken RegisterHandlers ResolvePendingTypes rank m r now t1 id n t2 r' t3 t4 :
  quiet (abstract (m, Idle, Free)) = true -> _inducedGCNumber (_scheduling m) = -1 -> due m r now ->
  _interval (_snapshotCooldown (_scheduling m)) = _heapDumpInterval (_settings m) ->
  t_inGuardedRegion (_guard (_collected m)) = false ->
  ranked rank (_pInlineVTCache (_collected m)) ->
  _visitedSetHighWatermark (_policy m) <= 4294967296 ->
  id <> 0 -> n <> -1 -> end_number r' = n ->
  let m1 := OnGarbageCollectionEnd r now m in
  exists m2 m6 calls,
    MainLoopIteration RegisterHandlers ResolvePendingTypes t1 m1 = Some (m2, [StartSession]) /\
    let m3 := session_started (Some id) m2 in
    let m4 := OnGarbageCollectionStart n 2 Induced NonConcurrentGC t2 m3 in
    let m5 := OnGarbageCollectionEnd r' t3 m4 in
    MainLoopIteration RegisterHandlers ResolvePendingTypes t4 m5 = Some (m6, StopSession id :: calls) /\
    abstract (m6, Idle, Free) =
      mkSchedule Resting NoCall false false None false false
        (Z.max (t3 + _heapDumpInterval (_settings m)) (t4 + _heapDumpInterval (_settings m))).
Proof.
  intros Ha Hn Hdue Hint Hg Hr Hw Hid Hn1 Hr' m1.
  destruct (due_requested m r now Ha Hdue) as (E1 & E2 & E3 & E4 & E5 & E6 & E7 & E8).
  fold m1 in E1, E2, E3, E4, E5, E6, E7, E8.
  set (m1' := on_scheduling m1 (set_should_start false)).
  destruct (StartGCDump_ready RegisterHandlers rank m1') as (m2 & F1 & _ & F2 & _);
    [by cbn; rewrite E4|by cbn; rewrite E4|by cbn; rewrite E5|done|].
  assert (Hsched : _scheduling m2 = set_in_progress true (_scheduling m1') /\ _settings m2 = _settings m1).
  { unfold StartGCDump in F1. cbn [m1' on_scheduling _scheduling set_should_start _session] in F1.
    rewrite E3 in F1. cbn [Z.eqb negb] in F1. destruct (dump_reset_schedule RegisterHandlers m1') as [R1 R2].
    simplify_option. cbn. by rewrite R1, R2. }
  destruct Hsched as [Hs Hset].
  assert (M1 : MainLoopIteration RegisterHandlers ResolvePendingTypes t1 m1 = Some (m2, [StartSession]))
    by (unfold MainLoopIteration; by rewrite E2, E1).
  set (m3 := session_started (Some id) m2).
  set (m4 := OnGarbageCollectionStart n 2 Induced NonConcurrentGC t2 m3).
  set (m5 := OnGarbageCollectionEnd r' t3 m4).
  assert (H4 : _scheduling m4 = set_induced n (set_session id (_scheduling m2)) /\ _settings m4 = _settings m1).
  { unfold m4, OnGarbageCollectionStart. cbn. rewrite Hs. cbn. rewrite E8, Hn. cbn.
    by rewrite Hs. }
  assert (H5 : _scheduling m5 = set_should_cleanup true (set_cooldown (OnDumpEnd (_snapshotCooldown
      (_scheduling m1)) t3) (set_last_timestamp t3 (set_in_progress false (set_induced (-1)
        (set_pressure (end_memPressure r') (_scheduling m4)))))) /\ _settings m5 = _settings m1).
  { unfold m5, OnGarbageCollectionEnd. cbn. destruct H4 as [H4a H4b]. rewrite H4a. cbn. rewrite Hs. cbn.
    rewrite (proj2 (Z.eqb_eq _ _) Hr'). unfold OnEndGCDump, dump_judged, dump_over. cbn.
    destruct (_pReferenceChainTraverser (_collected m4)); cbn;
      (split; [|exact H4b]); by rewrite H4a, Hs. }
  destruct H4 as [H4 _], H5 as [H5 H5s].
  exists m2.
  assert (exists m6 calls, MainLoopIteration RegisterHandlers ResolvePendingTypes t4 m5 =
    Some (m6, StopSession id :: calls) /\ abstract (m6, Idle, Free) =
      mkSchedule Resting NoCall false false None false false
        (Z.max (t3 + _heapDumpInterval (_settings m)) (t4 + _heapDumpInterval (_settings m)))) as (m6 & calls & M6 & A6).
  { unfold MainLoopIteration. rewrite H5. cbn [set_should_cleanup _shouldCleanupHeapDumpSession].
    unfold CleanupSession. cbn [on_scheduling _scheduling]. rewrite H5, H4. cbn.
    rewrite (proj2 (Z.eqb_neq _ _) Hid). cbn. eexists _, _. split; [done|].
    unfold abstract, open_session. cbn. rewrite H5, H4. cbn. rewrite Hs. cbn.
    unfold OnCleanupDone, OnDumpEnd. cbn. by rewrite E7, Hint. }
  exists m6, calls. by split.
Qed.

(** ** Instances *)

Module Example_dump.
Import TraversalDump.Example_heap.

Definition api : ICorProfilerInfo :=
  mkInfo (IsArrayClass info) (GetClassLayout info) (GetArrayObjectInfo info)
    (fun a => if (a =? first_) || (a =? second_) then Answer class_ else Error)
    (fun a => if (a =? first_) || (a =? second_) then Answer 24 else Error).

Definition names (c : Z) : option text := if c =? class_ then Some [67] else None.
Definition manager : HeapSnapshotManager := new_HeapSnapshotManager 100 0 0 3 guard.
Definition parser : ClrEventsParser := new_ClrEventsParser true true true false false true 0.

Lemma api_answers : answers api objects.
Proof.
  assert (HU : forall a, (a =? first_) || (a =? second_) = true -> a <> 0 /\ a ∈ objects).
  { intros a Ha. unfold objects. rewrite !elem_of_union, !elem_of_singleton.
    bool_facts; subst; (split; [discriminate|tauto]). }
  split; intros a; cbn; try (by case_if; eexists); intros z; case_if; intros; simplify_eq; by apply HU.
Qed.

Definition roots_event : Event :=
  mkEvent 7 1 KEYWORD_GCHEAPDUMP EVENT_GC_BULK_ROOT_EDGE
    (to_bytes (mkBulkRootEdge 0 2 8) ++ to_bytes (mkRootEdgeValue first_ 0 0 1) ++
     to_bytes (mkRootEdgeValue second_ 2 1 2)).

Lemma roots_complete : complete roots_event.
Proof.
  split; [by vm_compute|]. intros [a b c d e f g h i j k n] p' ns.
  destruct g, h, i; vm_compute; intros [= <- <-]; repeat constructor; discriminate.
Qed.

Definition nodes : list GCBulkNodeValue := [mkNodeValue first_ 24 class_ 0; mkNodeValue second_ 40 class_ 0].
Definition batch : GCBulkNodePayload * list GCBulkNodeValue := (mkBulkNode 0 2 8, nodes).

Lemma batch_fits : batch_ok batch.
Proof.
  repeat split; [..|repeat (apply Forall_cons; split; [|])]; try done;
    repeat (apply Forall2_cons; split; [by vm_compute|]); by apply Forall2_nil.
Qed.

Definition faulty : Traverser VisitedObjectSet := with_dump (mkDump 16 FaultBudgetExhausted) start.
Definition report (n : Z) : EndReport := mkEnd n 2 1 0 false 5 6 500 1 2 3 90.
End Example_dump.

Import Example_dump.

Lemma dump_callbacks_return_witness :
  exists m1 p' m',
    StartGCDump Example_heap.registered manager = Some (m1, [StartSession]) /\
    process_all Example_heap.mem api Example_heap.registered Example_heap.smooth 5 1 names (fun s => s)
      3 [(9, roots_event)] (parser, m1) = Some (p', m') /\
    t_inGuardedRegion (_guard (_collected m')) = false.
Proof.
  destruct (dump_callbacks_return Example_heap.mem api Example_heap.registered Example_heap.smooth 5 1
    names (fun s => s) 3 Example_heap.no_rank Example_heap.objects manager parser [(9, roots_event)])
    as (m1 & p' & m' & E1 & E2 & Hg & _).
  - exact Example_heap.objects_bounded.
  - exact api_answers.
  - reflexivity.
  - exact Example_heap.empty_ranked.
  - vm_compute. discriminate.
  - reflexivity.
  - apply Forall_cons. split; [exact roots_complete|]. by apply Forall_nil.
  - exists m1, p', m'. auto.
Defined.

Lemma bulk_nodes_unchecked_witness :
  process Example_heap.mem api Example_heap.registered Example_heap.smooth 5 1 names (fun s => s) 3 9
    (node_event 7 (mkBulkNode 0 2 8) (to_bytes (mkNodeValue Example_heap.first_ 24 Example_heap.class_ 0)))
    (parser, manager) = None.
Proof.
  apply (bulk_nodes_unchecked Example_heap.mem api Example_heap.registered Example_heap.smooth 5 1 names
    (fun s => s) 3 9 7 (mkBulkNode 0 2 8) _ parser manager).
  - repeat (apply Forall2_cons; split; [by vm_compute|]); by apply Forall2_nil.
  - by vm_compute.
  - reflexivity.
  - by vm_compute.
Defined.

(** A dump: the end of a collection asks for it, the dedicated thread opens a session, the
    induced collection starts and ends, and the session is cleaned up. *)
Definition one_dump (n start : Z) : list Act :=
  [GcEnd (report n); Calls 5 start; Loops 6 (start + 5) None; Loops 1 (start + 6) (Some 77);
   GcStart (n + 1) (start + 10); GcEnd (report (n + 1)); Calls 2 (start + 20); Loops 6 (start + 30) None].

Definition run_acts (l : list Act) : option (State * list Mark) :=
  acts Example_heap.registered (fun c => c) (manager, Idle, Free) l.

(** What happens while the dedicated thread has taken the second request and not yet opened
    its session: another collection ends, and asks again. *)
Definition two_requests : list Act :=
  [GcEnd (report 6); Calls 5 700; Loops 3 705 None; GcEnd (report 7); Calls 5 706;
   Loops 3 707 None; Loops 1 708 (Some 78); GcStart 8 710; GcEnd (report 8); Calls 2 720;
   Loops 6 730 None; Loops 6 740 None].

Definition calm_trace : list Mark := Eval vm_compute in
  match run_acts (one_dump 4 500) with Some (_, ks) => ks | None => [] end.
Definition racy_trace : list Mark := Eval vm_compute in
  match run_acts (one_dump 4 500 ++ two_requests) with Some (_, ks) => ks | None => [] end.

Lemma run_reached l x ks :
  run_acts l = Some (x, ks) ->
  steps Example_heap.mem api Example_heap.registered Example_heap.smooth 5 1 (fun c => c) names
    (fun s => s) 3 (manager, Idle, Free) ks x.
Proof. apply acts_steps. Qed.

(** Nothing prevents the end of a collection from asking for a snapshot while the dedicated
    thread is between taking a request and marking its dump as in progress: the second
    request is kept, and served right after the cleanup of the first dump, at 740 although
    no snapshot is allowed before 830. *)
Example second_dump_at_once :
  (exists x, steps Example_heap.mem api Example_heap.registered Example_heap.smooth 5 1 (fun c => c)
    names (fun s => s) 3 (manager, Idle, Free) racy_trace x) /\
  racy_trace = calm_trace ++
    [Decided 700; Requested; Took; Decided 706; Requested; OpeningSession; Opened 78; Recognised;
     CollectionEnded; DumpEnded 720; Flagged; CleanupBegun; SessionStopped 78; Cleaned 730;
     Took; OpeningSession] /\
  spaced 100 0 new_schedule racy_trace = false /\ calm 100 new_schedule racy_trace = false.
Proof.
  split; [|by vm_compute].
  destruct (run_acts (one_dump 4 500 ++ two_requests)) as [[x ks]|] eqn:E; [|by vm_compute in E].
  exists x. replace racy_trace with ks by (vm_compute in E; by injection E). by eapply run_reached.
Qed.

Lemma snapshots_follow_schedule_witness :
  exists x,
    schedule_run 100 new_schedule calm_trace = Some (abstract x) /\
    spaced 100 0 new_schedule calm_trace = true.
Proof.
  destruct (run_acts (one_dump 4 500)) as [[x ks]|] eqn:E; [|by vm_compute in E].
  assert (ks = calm_trace) as -> by (vm_compute in E; by injection E).
  destruct (snapshots_follow_schedule Example_heap.mem api Example_heap.registered Example_heap.smooth 5 1
    (fun c => c) names (fun s => s) 3 100 0 0 3 Example_heap.guard _ _ (run_reached _ _ _ E)) as [H1 H2].
  exists x. split; [exact H1|]. apply H2. vm_compute. reflexivity.
Defined.
