(* ===== verification/CodeCache.v ===== *)
(** * The cache of managed code ranges

    Model of [ManagedCodeCache.cpp]/[.h]: the code of compiled methods indexed by pages of
    64 KB, each page with its sorted vector of ranges, and the sorted vector of the code
    ranges of precompiled modules.  The unwinder asks the cache, from a signal handler,
    whether an instruction pointer is managed; the symbolisation asks for its function.

    The locks are outcomes of the operations: a lookup from a signal handler may fail to
    take each of them in time.  An insertion into one page is the unit of a write, since it
    is what the lock of a page protects. *)
From stdpp Require Import base gmap list sorting.
From S2P Require Import Prelude.

(** ** Ranges *)

Record CodeRange := mkRange {
  startAddress : Z; endAddress : Z;      (* inclusive *)
  functionId : Z; isDynamic : bool
}.

Record ModuleCodeRange := mkModule {
  m_startAddress : Z; m_endAddress : Z; isRemoved : bool
}.

#[export] Instance CodeRange_eq_dec : EqDecision CodeRange.
Proof. solve_decision. Defined.

Class Range (A : Type) := { range_start : A -> Z; range_end : A -> Z }.

#[export] Instance CodeRange_Range : Range CodeRange :=
  {| range_start := startAddress; range_end := endAddress |}.
#[export] Instance ModuleCodeRange_Range : Range ModuleCodeRange :=
  {| range_start := m_startAddress; range_end := m_endAddress |}.

Definition contains {A} `{Range A} (r : A) (ip : Z) : bool :=
  (range_start r <=? ip) && (ip <=? range_end r).

(** [std::lower_bound] and [std::upper_bound]: the furthermost position such that every
    element before it satisfies, respectively, [comp elem value] and [!(comp value elem)]. *)
Fixpoint bound {A} (before : A -> bool) (l : list A) : nat :=
  match l with
  | [] => 0
  | x :: l => if before x then S (bound before l) else 0
  end.

Definition FindRange {A} `{Range A} (container : list A) (value : Z) : option A :=
  match bound (fun range => range_start range <=? value) container with
  | O => None
  | S i =>
    match container !! i with
    | Some it => if contains it value then Some it else None
    | None => None
    end
  end.

(** [std::vector::insert]. *)
Definition insert_at {A} (i : nat) (x : A) (l : list A) : list A := take i l ++ x :: drop i l.

(** ** The cache *)

Record ManagedCodeCache := mkCache {
  _pagesMap : gmap Z (list CodeRange);
  _modulesCodeRanges : list ModuleCodeRange;
  _lockFailureMetric : Z
}.

Definition empty_cache : ManagedCodeCache := mkCache ∅ [] 0.

Definition PAGE_SHIFT : Z := 16.
Definition GetPageNumber (address : Z) : Z := Z.shiftr address PAGE_SHIFT.

(** *** Functions *)

Definition InsertCodeRangeIntoPage (ranges : list CodeRange) (range : CodeRange) : list CodeRange :=
  let insertPos := bound (fun r => negb (startAddress range <? startAddress r)) ranges in
  match insertPos with
  | O => insert_at insertPos range ranges
  | S i =>
    match ranges !! i with
    | Some previous =>
      if (startAddress previous =? startAddress range) && (endAddress previous =? endAddress range) &&
         (functionId previous =? functionId range) &&
         Bool.eqb (isDynamic previous) (isDynamic range)
      then ranges else insert_at insertPos range ranges
    | None => ranges
    end
  end.

(** The page is created when it does not exist. *)
Definition insert_in_page (pages : gmap Z (list CodeRange)) (page : Z) (range : CodeRange) :
    gmap Z (list CodeRange) :=
  <[page := InsertCodeRangeIntoPage (default [] (pages !! page)) range]> pages.

(** [for (page = startPage; page <= endPage; ++page)]. *)
Fixpoint insert_pages (n : nat) (page : Z) (range : CodeRange) (pages : gmap Z (list CodeRange)) :
    gmap Z (list CodeRange) :=
  match n with
  | O => pages
  | S n => insert_pages n (page + 1) range (insert_in_page pages page range)
  end.

Definition page_span (range : CodeRange) : nat :=
  Z.to_nat (GetPageNumber (endAddress range) + 1 - GetPageNumber (startAddress range)).

Definition with_pages (f : gmap Z (list CodeRange) -> gmap Z (list CodeRange)) (c : ManagedCodeCache) :=
  mkCache (f (_pagesMap c)) (_modulesCodeRanges c) (_lockFailureMetric c).

Fixpoint AddFunctionRangesToCache (newRanges : list CodeRange) (c : ManagedCodeCache) :
    ManagedCodeCache :=
  match newRanges with
  | [] => c
  | range :: newRanges =>
    AddFunctionRangesToCache newRanges
      (with_pages (insert_pages (page_span range) (GetPageNumber (startAddress range)) range) c)
  end.

Record FunctionInfo := mkFunctionInfo { FunctionId : Z; IsDynamic : bool }.

(** [FunctionID] is a [UINT_PTR]: -1 is its largest value. *)
Definition InvalidFunctionId : Z := 2 ^ 64 - 1.

Definition GetFunctionInfoImpl (ip : Z) (c : ManagedCodeCache) : option FunctionInfo :=
  match _pagesMap c !! GetPageNumber ip with
  | None => None
  | Some ranges =>
    match FindRange ranges ip with
    | Some range => Some (mkFunctionInfo (functionId range) (isDynamic range))
    | None => None
    end
  end.

(** *** Modules *)

Definition AddModuleRangesToCache (moduleCodeRanges : list ModuleCodeRange) (c : ManagedCodeCache) :
    ManagedCodeCache :=
  mkCache (_pagesMap c)
    (foldl (fun ranges m =>
       insert_at (bound (fun r => negb (m_startAddress m <? m_startAddress r)) ranges) m ranges)
       (_modulesCodeRanges c) moduleCodeRanges)
    (_lockFailureMetric c).

(** [std::find_if] on the bounds, then the flag of the range that was found is set. *)
Fixpoint mark_removed (range : ModuleCodeRange) (l : list ModuleCodeRange) : list ModuleCodeRange :=
  match l with
  | [] => []
  | r :: l =>
    if (m_startAddress r =? m_startAddress range) && (m_endAddress r =? m_endAddress range)
    then mkModule (m_startAddress r) (m_endAddress r) true :: l
    else r :: mark_removed range l
  end.

Definition RemoveModuleRanges (moduleCodeRanges : list ModuleCodeRange) (c : ManagedCodeCache) :
    ManagedCodeCache :=
  mkCache (_pagesMap c)
    (foldl (fun ranges m => mark_removed m ranges) (_modulesCodeRanges c) moduleCodeRanges)
    (_lockFailureMetric c).

(** [locked]: the shared lock of the modules was taken in time. *)
Definition IsCodeInR2RModule (ip : Z) (locked : bool) (c : ManagedCodeCache) : option bool :=
  if negb locked then None
  else match FindRange (_modulesCodeRanges c) ip with
  | None => Some false
  | Some moduleCodeRange =>
    if isRemoved moduleCodeRange then Some false else Some (contains moduleCodeRange ip)
  end.

(** ** Lookup from a signal handler *)

(** Whether each timed lock is acquired: the map of the pages, the page, the modules. *)
Record Locks := mkLocks { pages_locked : bool; page_locked : bool; modules_locked : bool }.

Definition IsManagedImpl (ip : Z) (l : Locks) (c : ManagedCodeCache) : option bool :=
  if negb (pages_locked l) then None
  else match _pagesMap c !! GetPageNumber ip with
  | Some ranges =>
    if negb (page_locked l) then None
    else match FindRange ranges ip with
    | Some _ => Some true
    | None => IsCodeInR2RModule ip (modules_locked l) c
    end
  | None => IsCodeInR2RModule ip (modules_locked l) c
  end.

Definition IsManaged (ip : Z) (l : Locks) (c : ManagedCodeCache) : ManagedCodeCache * option bool :=
  let result := IsManagedImpl ip l c in
  match result with
  | None => (mkCache (_pagesMap c) (_modulesCodeRanges c) (u64 (_lockFailureMetric c + 1)), None)
  | Some _ => (c, result)
  end.

(** ** Questions to the profiling API *)

Definition COR_PRF_MODULE_NGEN : Z := 2.
Definition IMAGE_DOS_SIGNATURE : Z := 0x5A4D.
Definition IMAGE_NT_SIGNATURE : Z := 0x4550.
Definition IMAGE_SCN_MEM_EXECUTE : Z := 0x20000000.
Definition MaxCodeInfos : nat := 8.
Definition MaxEnumerationAttempts : nat := 3.
(** [HRESULT_FROM_WIN32(ERROR_INSUFFICIENT_BUFFER)], as a signed 32-bit value. *)
Definition INSUFFICIENT_BUFFER : Z := i32 0x8007007A.

(** Answer of [GetNativeCodeStartAddresses]: result, count and the addresses written. *)
Record StartAddresses := mkStarts { sa_hr : Z; sa_count : Z; sa_written : list Z }.

Section api.
(** [ICorProfilerInfo9], when the runtime has it: the answer to the n-th call for a
    function, with the capacity of the buffer; the blocks of the native code at an address
    (start, size) or a failure. *)
Context (has_info9 : bool).
Context (GetNativeCodeStartAddresses : Z -> Z -> nat -> Z -> StartAddresses).
Context (GetCodeInfo4 : Z -> option (list (Z * Z))).
Context (GetCodeInfo2 : Z -> option (list (Z * Z))).
Context (GetFunctionFromIP : Z -> option Z).
(** Base address and flags of a module. *)
Context (GetModuleInfo2 : Z -> option (Z * Z)).
(** Little-endian values at an address; [None] is an unreadable one. *)
Context (read16 read32 : Z -> option Z).

(** The API fills an array of [MaxCodeInfos] entries. *)
Definition appendRanges (fid : Z) (dynamic : bool) (infos : list (Z * Z)) : list CodeRange :=
  omap (fun '(start, size) =>
    if negb (size =? 0) then Some (mkRange start (u64 (start + size - 1)) fid dynamic) else None)
    (take MaxCodeInfos infos).

Definition ranges_at (fid : Z) (dynamic : bool) (start : Z) : list CodeRange :=
  match GetCodeInfo4 start with
  | Some infos => appendRanges fid dynamic infos
  | None => []
  end.

(** The enumeration attempts; [None] falls back on [GetCodeInfo2].  The buffer is resized,
    with zeros, to the count before each call. *)
Fixpoint enumerate (attempts call : nat) (fid reJitId : Z) (dynamic : bool) (count : Z) :
    option (list CodeRange) :=
  match attempts with
  | O => None
  | S attempts =>
    let a := GetNativeCodeStartAddresses fid reJitId call count in
    let starts := resize (Z.to_nat count) 0 (sa_written a) in
    if sa_hr a <? 0 then
      if (sa_hr a =? INSUFFICIENT_BUFFER) && (count <? sa_count a)
      then enumerate attempts (S call) fid reJitId dynamic (sa_count a)
      else None
    else Some (flat_map (ranges_at fid dynamic) (take (Z.to_nat (sa_count a)) starts))
  end.

Definition GetCodeRanges (fid : Z) (dynamic : bool) (reJitId : Z) : list CodeRange :=
  let legacy :=
    match GetCodeInfo2 fid with
    | Some infos => appendRanges fid dynamic infos
    | None => []
    end in
  if has_info9 then
    let a := GetNativeCodeStartAddresses fid reJitId 0 0 in
    if (0 <=? sa_hr a) && negb (sa_count a =? 0) then
      match enumerate MaxEnumerationAttempts 1 fid reJitId dynamic (sa_count a) with
      | Some result => result
      | None => legacy
      end
    else legacy
  else legacy.

Definition AddFunction (fid : Z) (dynamic : bool) (reJitId : Z) (c : ManagedCodeCache) :
    ManagedCodeCache :=
  let ranges := GetCodeRanges fid dynamic reJitId in
  if bool_decide (ranges = []) then c else AddFunctionRangesToCache ranges c.

(** The executable sections of the image: the header of section [i] is 40 bytes long. *)
Fixpoint code_sections (n : nat) (base headers : Z) : option (list ModuleCodeRange) :=
  match n with
  | O => Some []
  | S n =>
    characteristics ← read32 (u64 (headers + 36));
    here ← (if negb (Z.land characteristics IMAGE_SCN_MEM_EXECUTE =? 0) then
              virtualAddress ← read32 (u64 (headers + 12));
              virtualSize ← read32 (u64 (headers + 8));
              let codeStart := u64 (base + virtualAddress) in
              Some [mkModule codeStart (u64 (codeStart + virtualSize - 1)) false]
            else Some []);
    rest ← code_sections n base (u64 (headers + 40));
    Some (here ++ rest)
  end.

Definition GetModuleCodeRanges (moduleId : Z) : option (list ModuleCodeRange) :=
  match GetModuleInfo2 moduleId with
  | None => Some []
  | Some (baseLoadAddress, moduleFlags) =>
    if negb (Z.land moduleFlags COR_PRF_MODULE_NGEN =? COR_PRF_MODULE_NGEN) then Some []
    else
      e_magic ← read16 baseLoadAddress;
      if negb (e_magic =? IMAGE_DOS_SIGNATURE) then Some []
      else
        e_lfanew ← read32 (u64 (baseLoadAddress + 60));
        let ntHeaders := u64 (baseLoadAddress + i32 e_lfanew) in
        signature ← read32 ntHeaders;
        if negb (signature =? IMAGE_NT_SIGNATURE) then Some []
        else
          optionalSize ← read16 (u64 (ntHeaders + 20));
          numberOfSections ← read16 (u64 (ntHeaders + 6));
          code_sections (Z.to_nat numberOfSections) baseLoadAddress
            (u64 (ntHeaders + 24 + optionalSize))
  end.

Definition AddModule (moduleId : Z) (c : ManagedCodeCache) : option ManagedCodeCache :=
  moduleCodeRanges ← GetModuleCodeRanges moduleId;
  if bool_decide (length moduleCodeRanges = 0%nat) then Some c
  else Some (AddModuleRangesToCache moduleCodeRanges c).

Definition RemoveModule (moduleId : Z) (c : ManagedCodeCache) : option ManagedCodeCache :=
  moduleCodeRanges ← GetModuleCodeRanges moduleId;
  if bool_decide (length moduleCodeRanges = 0%nat) then Some c
  else Some (RemoveModuleRanges moduleCodeRanges c).

(** Outside of a signal handler the locks are waited for. *)
Definition GetFunctionInfo (ip : Z) (c : ManagedCodeCache) : ManagedCodeCache * FunctionInfo :=
  match GetFunctionInfoImpl ip c with
  | Some info => (c, info)
  | None =>
    match IsCodeInR2RModule ip true c with
    | Some true =>
      match GetFunctionFromIP ip with
      | Some fid =>
        if negb (fid =? InvalidFunctionId)
        then (AddFunction fid false 0 c, mkFunctionInfo fid false)
        else (c, mkFunctionInfo fid false)
      | None => (c, mkFunctionInfo InvalidFunctionId false)
      end
    | _ => (c, mkFunctionInfo InvalidFunctionId false)
    end
  end.
End api.

(** ** The reference search

    Among the ranges that were inserted, in order, the one with the greatest start at or
    below the address, the newest of them for equal starts. *)
Section search.
Context {A : Type} `{Range A}.

Definition better (ip : Z) (best : option A) (r : A) : option A :=
  if range_start r <=? ip then
    match best with
    | Some b => if range_start b <=? range_start r then Some r else best
    | None => Some r
    end
  else best.

Definition newest (ip : Z) (h : list A) : option A := foldl (better ip) None h.

Definition search (ip : Z) (h : list A) : option A :=
  match newest ip h with
  | Some r => if contains r ip then Some r else None
  | None => None
  end.

Definition sorted (l : list A) : Prop := StronglySorted (fun a b => range_start a <= range_start b) l.

Lemma bound_split (p : A -> bool) l :
  exists l1 l2, l = l1 ++ l2 /\ bound p l = length l1 /\ Forall (fun x => p x = true) l1 /\
    (forall x l3, l2 = x :: l3 -> p x = false).
Proof.
  induction l as [|x l (l1 & l2 & -> & Hb & Hl & Hr)]; [by exists [], []|]. cbn [bound].
  destruct (p x) eqn:Hx.
  - exists (x :: l1), l2. rewrite Hb. split_and!; [done..|by constructor|done].
  - exists [], (x :: l1 ++ l2). split_and!; [done..|]. by intros ? ? [= <- <-].
Qed.

Lemma insert_at_app (l1 l2 : list A) x : insert_at (length l1) x (l1 ++ l2) = l1 ++ x :: l2.
Proof. unfold insert_at. by rewrite take_app_length, drop_app_length. Qed.

Lemma sorted_app l1 l2 :
  sorted (l1 ++ l2) <->
  sorted l1 /\ sorted l2 /\ forall a b, a ∈ l1 -> b ∈ l2 -> range_start a <= range_start b.
Proof.
  unfold sorted. induction l1 as [|x l1 IH]; cbn [app].
  - split; [|by intros (_ & ? & _)]. intros Hs. split_and!; [constructor|done|]. intros a b Ha. set_solver.
  - split.
    + intros [Hs Hx]%StronglySorted_inv. apply IH in Hs as (H1 & H2 & H12).
      apply Forall_app in Hx as [Hx1 Hx2]. split_and!; [by constructor|done|].
      intros a b [->|Ha]%elem_of_cons Hb; [|by apply H12]. rewrite Forall_forall in Hx2. by apply Hx2.
    + intros ([H1 Hx]%StronglySorted_inv & H2 & H12). constructor; [apply IH|].
      * split_and!; [done..|]. intros a b Ha Hb. apply H12; [by constructor|done].
      * apply Forall_app. split; [done|]. apply Forall_forall. intros b Hb. apply H12; [by constructor|done].
Qed.

(** The ranges of a sorted vector that start at or below a value come first. *)
Lemma bound_sorted (l : list A) v :
  sorted l ->
  exists l1 l2, l = l1 ++ l2 /\ bound (fun r => range_start r <=? v) l = length l1 /\
    Forall (fun r => range_start r <= v) l1 /\ Forall (fun r => v < range_start r) l2.
Proof.
  intros Hs. destruct (bound_split (fun r => range_start r <=? v) l) as (l1 & l2 & -> & Hb & H1 & H2).
  exists l1, l2. split_and!; [done..| |].
  - eapply Forall_impl; [exact H1|]. cbn. intros. bool_facts. lia.
  - destruct l2 as [|x l3]; [done|]. specialize (H2 x l3 eq_refl). cbn in H2. bool_facts.
    apply sorted_app in Hs as (_ & [_ Hx]%StronglySorted_inv & _).
    constructor; [lia|]. eapply Forall_impl; [exact Hx|]. cbn. lia.
Qed.

Lemma insert_sorted (l1 l2 : list A) x :
  sorted (l1 ++ l2) -> Forall (fun r => range_start r <= range_start x) l1 ->
  Forall (fun r => range_start x < range_start r) l2 -> sorted (l1 ++ x :: l2).
Proof.
  intros (H1 & H2 & H12)%sorted_app Hl Hr. rewrite Forall_forall in Hl, Hr. apply sorted_app. split_and!; [done| |].
  - constructor; [done|]. apply Forall_forall. intros r Hr'. specialize (Hr r Hr'). lia.
  - intros a b Ha [->|Hb]%elem_of_cons; auto.
Qed.

(** *** The search and insertions *)

Lemma newest_app ip l1 l2 : newest ip (l1 ++ l2) = foldl (better ip) (newest ip l1) l2.
Proof. apply foldl_app. Qed.

Lemma newest_above ip best l :
  Forall (fun r => ip < range_start r) l -> foldl (better ip) best l = best.
Proof.
  intros Hl. revert best. induction Hl as [|r l Hr _ IH]; intros best; [done|]. cbn [foldl].
  unfold better at 2. destruct (Z.leb_spec (range_start r) ip); [lia|]. apply IH.
Qed.

Lemma newest_start ip l r : newest ip l = Some r -> r ∈ l /\ range_start r <= ip.
Proof.
  induction l as [|x l IH] using rev_ind; [done|]. rewrite newest_app. cbn [foldl]. unfold better.
  destruct (Z.leb_spec (range_start x) ip); [|naive_solver set_solver].
  destruct (newest ip l) as [b|]; [|intros [= ->]; set_solver].
  destruct (range_start b <=? range_start x); intros [= ->]; [set_solver|].
  naive_solver set_solver.
Qed.

(** A sorted vector is searched by looking at the last range that starts at or below. *)
Lemma newest_last ip l1 l2 x :
  sorted (l1 ++ [x]) -> range_start x <= ip -> Forall (fun r => ip < range_start r) l2 ->
  newest ip ((l1 ++ [x]) ++ l2) = Some x.
Proof.
  intros (_ & _ & H12)%sorted_app Hx H2. rewrite newest_app, newest_above by done.
  rewrite newest_app. cbn [foldl]. unfold better. destruct (Z.leb_spec (range_start x) ip); [|lia].
  destruct (newest ip l1) as [b|] eqn:Eb; [|done]. apply newest_start in Eb as [Hb _].
  destruct (Z.leb_spec (range_start b) (range_start x)); [done|].
  specialize (H12 b x Hb ltac:(set_solver)). lia.
Qed.

Lemma FindRange_search l ip : sorted l -> FindRange l ip = search ip l.
Proof.
  intros Hs. unfold FindRange, search.
  destruct (bound_sorted l ip Hs) as (l1 & l2 & -> & -> & H1 & H2).
  destruct l1 as [|x l1 _] using rev_ind.
  - cbn [length app]. unfold newest. rewrite newest_above by done. done.
  - rewrite length_app, Nat.add_1_r, lookup_app_l by (rewrite length_app; cbn; lia).
    rewrite lookup_app_r, Nat.sub_diag by lia. cbn.
    apply Forall_app in H1 as [_ [Hx _]%Forall_cons_1].
    apply sorted_app in Hs as (Hs & _). by rewrite newest_last.
Qed.

(** Inserting behind the ranges with the same start is adding to the history. *)
Lemma newest_insert ip l1 l2 x :
  sorted (l1 ++ l2) -> Forall (fun r => range_start r <= range_start x) l1 ->
  Forall (fun r => range_start x < range_start r) l2 ->
  newest ip (l1 ++ x :: l2) = better ip (newest ip (l1 ++ l2)) x.
Proof.
  intros Hs H1 H2. rewrite !newest_app. cbn [foldl].
  destruct (Z.leb_spec (range_start x) ip) as [Hx|Hx].
  2:{ rewrite !newest_above; [|eapply Forall_impl; [exact H2|cbn; lia]..].
      by unfold better; destruct (Z.leb_spec (range_start x) ip); [lia|]. }
  assert (better ip (newest ip l1) x = Some x) as E1.
  { unfold better. destruct (Z.leb_spec (range_start x) ip); [|lia].
    destruct (newest ip l1) as [b|] eqn:Eb; [|done]. apply newest_start in Eb as [Hb _].
    rewrite Forall_forall in H1. specialize (H1 b Hb).
    by destruct (Z.leb_spec (range_start b) (range_start x)); [|lia]. }
  rewrite E1. clear Hs.
  assert (forall b, (forall y, b = Some y -> range_start y <= range_start x) ->
    foldl (better ip) (Some x) l2 = better ip (foldl (better ip) b l2) x) as Hgen; [|apply Hgen].
  2:{ intros y Hy%newest_start. rewrite Forall_forall in H1. naive_solver. }
  clear E1 H1. induction l2 as [|y l2 IH] using rev_ind; intros b Hb.
  - cbn [foldl]. unfold better. destruct (Z.leb_spec (range_start x) ip); [|lia].
    destruct b as [b|]; [|done]. specialize (Hb b eq_refl).
    by destruct (Z.leb_spec (range_start b) (range_start x)); [|lia].
  - apply Forall_app in H2 as [H2 [Hy _]%Forall_cons_1]. rewrite !foldl_app. cbn [foldl].
    rewrite (IH H2 b Hb). set (c := foldl (better ip) b l2).
    unfold better. destruct (Z.leb_spec (range_start y) ip); destruct (Z.leb_spec (range_start x) ip); try lia.
    + destruct c as [c|].
      * destruct (Z.leb_spec (range_start c) (range_start x)).
        -- destruct (Z.leb_spec (range_start x) (range_start y)); [|lia].
           destruct (Z.leb_spec (range_start c) (range_start y)); [|lia].
           by destruct (Z.leb_spec (range_start y) (range_start x)); [lia|].
        -- destruct (Z.leb_spec (range_start c) (range_start y)).
           ++ by destruct (Z.leb_spec (range_start y) (range_start x)); [lia|].
           ++ by destruct (Z.leb_spec (range_start c) (range_start x)); [lia|].
      * destruct (Z.leb_spec (range_start x) (range_start y)); [|lia].
        by destruct (Z.leb_spec (range_start y) (range_start x)); [lia|].
    + done.
Qed.
End search.

(** ** Pages *)

Lemma bound_ext {A} (p q : A -> bool) l : (forall x, p x = q x) -> bound p l = bound q l.
Proof. intros H. induction l as [|x l IH]; [done|]. cbn [bound]. by rewrite H, IH. Qed.

Lemma not_after (a b : Z) : negb (a <? b) = (b <=? a).
Proof. by rewrite Z.leb_antisym. Qed.

(** A second identical range does not change what is found. *)
Lemma newest_duplicate ip (l1 l2 : list CodeRange) r :
  sorted (l1 ++ [r]) -> newest ip ((l1 ++ [r]) ++ r :: l2) = newest ip ((l1 ++ [r]) ++ l2).
Proof.
  intros Hs. rewrite !(newest_app ip (l1 ++ [r])). cbn [foldl]. f_equal.
  rewrite newest_app. cbn [foldl].
  destruct (Z.leb_spec (range_start r) ip) as [Hr|Hr].
  - pose proof (newest_last ip l1 [] r Hs Hr ltac:(constructor)) as E.
    rewrite app_nil_r, newest_app in E. cbn [foldl] in E. rewrite E. unfold better.
    destruct (Z.leb_spec (range_start r) ip); [|lia]. by rewrite Z.leb_refl.
  - unfold better. by destruct (Z.leb_spec (range_start r) ip); [lia|].
Qed.

Lemma InsertCodeRangeIntoPage_spec l r :
  sorted l ->
  sorted (InsertCodeRangeIntoPage l r) /\
  forall ip, newest ip (InsertCodeRangeIntoPage l r) = better ip (newest ip l) r.
Proof.
  intros Hs. unfold InsertCodeRangeIntoPage.
  rewrite (bound_ext _ (fun x => range_start x <=? startAddress r)) by (intros; apply not_after).
  destruct (bound_sorted l (startAddress r) Hs) as (l1 & l2 & -> & -> & H1 & H2).
  assert (Hins : sorted (l1 ++ r :: l2) /\
    forall ip, newest ip (l1 ++ r :: l2) = better ip (newest ip (l1 ++ l2)) r).
  { split; [by apply insert_sorted|]. intros ip. by apply newest_insert. }
  destruct l1 as [|x l1 _] using rev_ind; [exact Hins|].
  rewrite insert_at_app. rewrite length_app, Nat.add_1_r, lookup_app_l by (rewrite length_app; cbn; lia).
  rewrite lookup_app_r, Nat.sub_diag by lia. cbn [lookup list_lookup].
  case_if; [|exact Hins]. bool_facts.
  assert (x = r) as ->.
  { destruct x, r. cbn in *. subst. f_equal. by apply eqb_prop. }
  split; [done|]. intros ip. rewrite <- (proj2 Hins).
  apply sorted_app in Hs as (Hs & _). by rewrite newest_duplicate.
Qed.

Definition spans (r : CodeRange) (page : Z) : bool :=
  (GetPageNumber (startAddress r) <=? page) && (page <=? GetPageNumber (endAddress r)).

Abbreviation page_of pages p := (default [] (pages !! p)).

Lemma insert_pages_lookup n page r pages p :
  page_of (insert_pages n page r pages) p =
    if (page <=? p) && (p <? page + Z.of_nat n)
    then InsertCodeRangeIntoPage (page_of pages p) r else page_of pages p.
Proof.
  revert page pages. induction n as [|n IH]; intros page pages; cbn [insert_pages].
  - destruct (Z.leb_spec page p), (Z.ltb_spec p (page + Z.of_nat 0)); cbn; lia || done.
  - rewrite IH. unfold insert_in_page. destruct (decide (p = page)) as [->|Hp].
    + rewrite lookup_insert_eq. cbn.
      destruct (Z.leb_spec (page + 1) page); [lia|]. cbn. rewrite Z.leb_refl.
      by destruct (Z.ltb_spec page (page + Z.of_nat (S n))); [|lia].
    + rewrite lookup_insert_ne by done.
      destruct (Z.leb_spec (page + 1) p), (Z.ltb_spec p (page + 1 + Z.of_nat n)), (Z.leb_spec page p),
        (Z.ltb_spec p (page + Z.of_nat (S n))); cbn; lia || done.
Qed.

Lemma insert_range_lookup r pages p :
  page_of (insert_pages (page_span r) (GetPageNumber (startAddress r)) r pages) p =
    if spans r p then InsertCodeRangeIntoPage (page_of pages p) r else page_of pages p.
Proof.
  rewrite insert_pages_lookup. unfold spans, page_span.
  destruct (Z.leb_spec (GetPageNumber (startAddress r)) p); cbn; [|done].
  destruct (Z.ltb_spec p (GetPageNumber (startAddress r) +
    Z.of_nat (Z.to_nat (GetPageNumber (endAddress r) + 1 - GetPageNumber (startAddress r))))),
    (Z.leb_spec p (GetPageNumber (endAddress r))); lia || done.
Qed.

(** [h] is what was inserted: every page is sorted and finds what the reference search
    finds among the ranges that lie on it. *)
Definition indexed (pages : gmap Z (list CodeRange)) (h : list CodeRange) : Prop :=
  forall p, sorted (page_of pages p) /\
    forall ip, newest ip (page_of pages p) = newest ip (filter (fun r => spans r p) h).

Lemma indexed_insert pages h r :
  indexed pages h ->
  indexed (insert_pages (page_span r) (GetPageNumber (startAddress r)) r pages) (h ++ [r]).
Proof.
  intros Hi p. destruct (Hi p) as [Hs Hn]. rewrite insert_range_lookup, filter_app.
  destruct (InsertCodeRangeIntoPage_spec _ r Hs) as [Hs' Hn'].
  destruct (spans r p) eqn:E.
  - split; [done|]. intros ip. rewrite Hn', Hn, (filter_cons_True _ r) by (by rewrite E).
    by rewrite newest_app.
  - split; [done|]. intros ip. rewrite (filter_cons_False _ r) by (rewrite E; intros []).
    by rewrite filter_nil, app_nil_r.
Qed.

Lemma indexed_add rs c h :
  indexed (_pagesMap c) h -> indexed (_pagesMap (AddFunctionRangesToCache rs c)) (h ++ rs).
Proof.
  revert c h. induction rs as [|r rs IH]; intros c h Hi; cbn [AddFunctionRangesToCache].
  - by rewrite app_nil_r.
  - rewrite (cons_middle r h rs), app_assoc. apply IH. by apply indexed_insert.
Qed.

Lemma AddFunctionRangesToCache_modules rs c :
  _modulesCodeRanges (AddFunctionRangesToCache rs c) = _modulesCodeRanges c.
Proof. revert c. induction rs as [|r rs IH]; intros c; [done|]. cbn. by rewrite IH. Qed.

Lemma GetFunctionInfoImpl_search c h ip :
  indexed (_pagesMap c) h ->
  GetFunctionInfoImpl ip c =
    (fun r => mkFunctionInfo (functionId r) (isDynamic r)) <$>
      search ip (filter (fun r => spans r (GetPageNumber ip)) h).
Proof.
  intros Hi. destruct (Hi (GetPageNumber ip)) as [Hs Hn]. unfold GetFunctionInfoImpl.
  assert (E : FindRange (page_of (_pagesMap c) (GetPageNumber ip)) ip =
    search ip (filter (fun r => spans r (GetPageNumber ip)) h)).
  { rewrite FindRange_search by done. unfold search. by rewrite Hn. }
  rewrite <- E. destruct (_pagesMap c !! GetPageNumber ip) as [l|]; cbn; [|done].
  by destruct (FindRange l ip).
Qed.

(** ** Histories of the cache *)

(** What changes the cache: a method was compiled, a module loaded or unloaded (its code
    ranges), a lookup from a signal handler was attempted. *)
Inductive cache_op :=
| Compiled (rs : list CodeRange)
| Loaded (ms : list (Z * Z))
| Unloaded (ms : list (Z * Z))
| Asked (ip : Z) (l : Locks).

Definition as_module (b : Z * Z) : ModuleCodeRange := mkModule b.1 b.2 false.

Definition apply_op (c : ManagedCodeCache) (o : cache_op) : ManagedCodeCache :=
  match o with
  | Compiled rs => AddFunctionRangesToCache rs c
  | Loaded ms => AddModuleRangesToCache (as_module <$> ms) c
  | Unloaded ms => RemoveModuleRanges (as_module <$> ms) c
  | Asked ip l => (IsManaged ip l c).1
  end.

Definition run_ops (ops : list cache_op) : ManagedCodeCache := foldl apply_op empty_cache ops.

Definition compiled (ops : list cache_op) : list CodeRange :=
  flat_map (fun o => match o with Compiled rs => rs | _ => [] end) ops.
Definition added (ops : list cache_op) : list (Z * Z) :=
  flat_map (fun o => match o with Loaded ms => ms | _ => [] end) ops.

(** The modules that are loaded and were not unloaded since. *)
Definition load (s : gset (Z * Z)) (o : cache_op) : gset (Z * Z) :=
  match o with
  | Loaded ms => s ∪ list_to_set ms
  | Unloaded ms => s ∖ list_to_set ms
  | _ => s
  end.
Definition loaded (ops : list cache_op) : gset (Z * Z) := foldl load ∅ ops.

Lemma run_ops_snoc ops o : run_ops (ops ++ [o]) = apply_op (run_ops ops) o.
Proof. unfold run_ops. by rewrite foldl_app. Qed.
Lemma compiled_app ops1 ops2 : compiled (ops1 ++ ops2) = compiled ops1 ++ compiled ops2.
Proof. unfold compiled. apply flat_map_app. Qed.
Lemma added_app ops1 ops2 : added (ops1 ++ ops2) = added ops1 ++ added ops2.
Proof. unfold added. apply flat_map_app. Qed.
Lemma loaded_snoc ops o : loaded (ops ++ [o]) = load (loaded ops) o.
Proof. unfold loaded. by rewrite foldl_app. Qed.

Lemma IsManaged_fst ip l c :
  _pagesMap (IsManaged ip l c).1 = _pagesMap c /\
  _modulesCodeRanges (IsManaged ip l c).1 = _modulesCodeRanges c.
Proof. unfold IsManaged. by destruct (IsManagedImpl ip l c). Qed.

Lemma run_ops_indexed ops : indexed (_pagesMap (run_ops ops)) (compiled ops).
Proof.
  induction ops as [|o ops IH] using rev_ind.
  - intros p. cbn. rewrite lookup_empty. split; [constructor|done].
  - rewrite run_ops_snoc, compiled_app.
    destruct o as [rs|ms|ms|ip l]; cbn [apply_op compiled flat_map app]; rewrite ?app_nil_r; [|done..|].
    + by apply indexed_add.
    + by rewrite (proj1 (IsManaged_fst ip l _)).
Qed.

(** *** Modules *)

Definition bounds (m : ModuleCodeRange) : Z * Z := (m_startAddress m, m_endAddress m).

Record modules_ok (l : list ModuleCodeRange) (all : list (Z * Z)) (live : gset (Z * Z)) : Prop := {
  mok_sorted : sorted l;
  mok_bounds : bounds <$> l ≡ₚ all;
  mok_flags : forall m, m ∈ l -> isRemoved m = false <-> bounds m ∈ live;
  mok_live : forall b, b ∈ live -> b ∈ all
}.

Lemma sorted_same_bounds l l' : bounds <$> l = bounds <$> l' -> sorted l -> sorted l'.
Proof.
  unfold sorted. revert l'. induction l as [|m l IH]; intros [|m' l'] E Hs; [done..|]. cbn in E.
  injection E as E1 E2 E3. apply StronglySorted_inv in Hs as [Hs Hm].
  constructor; [by apply IH|]. apply Forall_forall. intros r Hr. cbn.
  assert (bounds r ∈ bounds <$> l) as (r' & Hb & Hr')%list_elem_of_fmap
    by (rewrite E3; by apply list_elem_of_fmap_2).
  rewrite Forall_forall in Hm. specialize (Hm r' Hr'). cbn in Hm.
  unfold bounds in Hb. injection Hb as -> _. lia.
Qed.

Lemma modules_ok_add l all live b :
  modules_ok l all live -> NoDup (all ++ [b]) ->
  modules_ok (insert_at (bound (fun r => negb (b.1 <? m_startAddress r)) l) (as_module b) l)
    (all ++ [b]) (live ∪ {[b]}).
Proof.
  intros [Hs Hb Hf Hl] Hn.
  rewrite (bound_ext _ (fun x => range_start x <=? b.1)) by (intros; apply not_after).
  destruct (bound_sorted l b.1 Hs) as (l1 & l2 & -> & -> & H1 & H2). rewrite insert_at_app.
  assert (Hnb : b ∉ all).
  { apply NoDup_app in Hn as (_ & Hn & _). intros Hin. apply (Hn b Hin). set_solver. }
  assert (bounds (as_module b) = b) as Eb by by destruct b.
  split.
  - by apply insert_sorted.
  - rewrite fmap_app, fmap_cons, <- Permutation_middle, <- fmap_app, Hb, Eb. by rewrite Permutation_app_comm.
  - intros m Hm. assert (m = as_module b \/ m ∈ l1 ++ l2) as [->|Hm'] by set_solver.
    + rewrite Eb. cbn. set_solver.
    + rewrite (Hf m Hm'). assert (bounds m ∈ all) by (rewrite <- Hb; by apply list_elem_of_fmap_2).
      set_solver.
  - set_solver.
Qed.

Lemma mark_removed_bounds b l : bounds <$> mark_removed b l = bounds <$> l.
Proof.
  induction l as [|m l IH]; [done|]. cbn [mark_removed]. case_if; cbn; [done|]. by rewrite IH.
Qed.

Lemma mark_removed_elem b l m :
  NoDup (bounds <$> l) -> m ∈ mark_removed (as_module b) l ->
  (bounds m = b /\ isRemoved m = true) \/ (bounds m <> b /\ m ∈ l).
Proof.
  induction l as [|x l IH]; cbn [mark_removed fmap list_fmap]; intros Hn Hm; [set_solver|].
  apply NoDup_cons in Hn as [Hx Hn].
  assert (bounds x = b <-> (m_startAddress x =? m_startAddress (as_module b)) &&
    (m_endAddress x =? m_endAddress (as_module b)) = true) as Hb.
  { destruct b, x. cbn. rewrite andb_true_iff, !Z.eqb_eq. unfold bounds. cbn. split; [by intros [= -> ->]|].
    by intros [-> ->]. }
  destruct (_ && _) eqn:E.
  - assert (bounds x = b) as Ex by by apply Hb. apply elem_of_cons in Hm as [->|Hm].
    + left. split; [|done]. by rewrite <- Ex.
    + right. split; [|by right]. intros Em. apply Hx. rewrite Ex, <- Em. by apply list_elem_of_fmap_2.
  - apply elem_of_cons in Hm as [->|Hm].
    + right. split; [|by left]. intros Ex. by apply Hb in Ex.
    + destruct (IH Hn Hm) as [?|[? ?]]; [by left|]. right. split; [done|by right].
Qed.

Lemma modules_ok_remove l all live b :
  modules_ok l all live -> NoDup all ->
  modules_ok (mark_removed (as_module b) l) all (live ∖ {[b]}).
Proof.
  intros [Hs Hb Hf Hl] Hn. assert (Hnb : NoDup (bounds <$> l)) by by rewrite Hb.
  split.
  - eapply sorted_same_bounds; [symmetry; apply mark_removed_bounds|done].
  - by rewrite mark_removed_bounds.
  - intros m Hm. destruct (mark_removed_elem b l m Hnb Hm) as [[E1 E2]|[E1 E2]].
    + rewrite E2, E1. set_solver.
    + rewrite (Hf m E2). set_solver.
  - set_solver.
Qed.

Lemma modules_ok_adds ms l all live :
  modules_ok l all live -> NoDup (all ++ ms) ->
  modules_ok (foldl (fun ranges m =>
       insert_at (bound (fun r => negb (m_startAddress m <? m_startAddress r)) ranges) m ranges)
       l (as_module <$> ms)) (all ++ ms) (live ∪ list_to_set ms).
Proof.
  revert l all live. induction ms as [|b ms IH]; intros l all live Hok Hn.
  - rewrite app_nil_r. cbn. by rewrite right_id_L by apply _.
  - cbn [fmap list_fmap foldl list_to_set]. rewrite (cons_middle b all ms), app_assoc in Hn |- *.
    rewrite (assoc_L (∪)). apply IH; [|done]. apply modules_ok_add; [done|].
    by apply NoDup_app in Hn as (? & _ & _).
Qed.

Lemma modules_ok_removes ms l all live :
  modules_ok l all live -> NoDup all ->
  modules_ok (foldl (fun ranges m => mark_removed m ranges) l (as_module <$> ms)) all
    (live ∖ list_to_set ms).
Proof.
  revert l live. induction ms as [|b ms IH]; intros l live Hok Hn; cbn.
  - by rewrite difference_empty_L.
  - replace (live ∖ ({[b]} ∪ list_to_set ms)) with (live ∖ {[b]} ∖ list_to_set ms) by set_solver.
    apply IH; [|done]. by apply modules_ok_remove.
Qed.

Lemma run_ops_modules ops :
  NoDup (added ops) -> modules_ok (_modulesCodeRanges (run_ops ops)) (added ops) (loaded ops).
Proof.
  induction ops as [|o ops IH] using rev_ind; intros Hn.
  - split; [constructor|done|set_solver|set_solver].
  - rewrite run_ops_snoc, loaded_snoc. rewrite added_app in Hn |- *.
    assert (Hn' : NoDup (added ops)) by by apply NoDup_app in Hn as (? & _ & _).
    specialize (IH Hn').
    destruct o as [rs|ms|ms|ip l]; cbn [apply_op added flat_map load] in *; rewrite ?app_nil_r in *.
    + by rewrite AddFunctionRangesToCache_modules.
    + by apply modules_ok_adds.
    + by apply modules_ok_removes.
    + by rewrite (proj2 (IsManaged_fst ip l _)).
Qed.

(** *** Separate ranges *)

Definition apart {A} `{Range A} (a b : A) : Prop :=
  range_end a < range_start b \/ range_end b < range_start a.

Definition separate {A} `{Range A} (l : list A) : Prop :=
  (forall r, r ∈ l -> range_start r <= range_end r) /\
  forall a b, a ∈ l -> b ∈ l -> a = b \/ apart a b.

Lemma contains_spec {A} `{Range A} (r : A) ip : contains r ip = true <-> range_start r <= ip <= range_end r.
Proof. unfold contains. rewrite andb_true_iff, !Z.leb_le. done. Qed.

Lemma newest_max {A} `{Range A} ip l (r : A) :
  r ∈ l -> range_start r <= ip -> exists b, newest ip l = Some b /\ range_start r <= range_start b.
Proof.
  induction l as [|x l IH] using rev_ind; [set_solver|]. intros Hr Hs. rewrite newest_app. cbn [foldl].
  unfold better. apply elem_of_app in Hr as [Hr|Hr%list_elem_of_singleton].
  - destruct (IH Hr Hs) as (b & -> & Hb).
    destruct (Z.leb_spec (range_start x) ip); [|by exists b].
    destruct (Z.leb_spec (range_start b) (range_start x)); [|by exists b]. exists x. split; [done|lia].
  - subst x. destruct (Z.leb_spec (range_start r) ip); [|lia].
    destruct (newest ip l) as [b|]; [|exists r; split; [done|lia]].
    destruct (Z.leb_spec (range_start b) (range_start r)); [exists r|exists b]; (split; [done|lia]).
Qed.

Lemma search_separate {A} `{Range A} ip l (r : A) :
  separate l -> search ip l = Some r <-> r ∈ l /\ contains r ip = true.
Proof.
  intros [Hw Ha]. unfold search. split.
  - destruct (newest ip l) as [b|] eqn:E; [|done]. apply newest_start in E as [Hb _].
    by destruct (contains b ip) eqn:Hc; intros [= ->].
  - intros [Hr Hc]. apply contains_spec in Hc as Hc'.
    destruct (newest_max ip l r Hr) as (b & E & Hb); [lia|]. rewrite E.
    apply newest_start in E as [Hbl Hbs]. specialize (Hw b Hbl).
    destruct (Ha r b Hr Hbl) as [->|[?|?]]; [by rewrite Hc|lia..].
Qed.

Lemma search_separate_None {A} `{Range A} ip l :
  separate l -> search ip l = None -> forall r : A, r ∈ l -> contains r ip = false.
Proof.
  intros Hs Hn r Hr. destruct (contains r ip) eqn:Hc; [|done].
  assert (search ip l = Some r) by (by apply search_separate). congruence.
Qed.

Lemma contains_spans (r : CodeRange) ip : contains r ip = true -> spans r (GetPageNumber ip).
Proof.
  rewrite contains_spec. cbn. intros [? ?]. unfold spans, GetPageNumber.
  rewrite !Z.shiftr_div_pow2 by done. apply andb_prop_intro. split; apply Is_true_true, Z.leb_le;
    by apply Z.div_le_mono.
Qed.

Lemma separate_filter (P : CodeRange -> bool) l :
  separate l -> separate (filter (fun r => P r) l).
Proof.
  intros [Hw Ha]. split.
  - intros r [_ Hr]%list_elem_of_filter. auto.
  - intros a b [_ ?]%list_elem_of_filter [_ ?]%list_elem_of_filter. auto.
Qed.

(** Modules of which every range was added once and which do not overlap. *)
Lemma modules_separate l all live :
  modules_ok l all live -> NoDup all -> separate (as_module <$> all) -> separate l.
Proof.
  intros [_ Hb _ _] Hn [Hw Ha].
  assert (Hin : forall m, m ∈ l -> as_module (bounds m) ∈ as_module <$> all).
  { intros m Hm. apply list_elem_of_fmap_2. rewrite <- Hb. by apply list_elem_of_fmap_2. }
  split.
  - intros m Hm. apply (Hw _ (Hin m Hm)).
  - intros a b Hla Hlb. destruct (Ha _ _ (Hin a Hla) (Hin b Hlb)) as [E|[?|?]];
      [|right; by left|right; by right].
    left. assert (bounds a = bounds b) as Eb by (unfold bounds, as_module in *; cbn in E; congruence).
    assert (NoDup (bounds <$> l)) as Hnd by by rewrite Hb.
    apply list_elem_of_lookup in Hla as [i Hi]. apply list_elem_of_lookup in Hlb as [j Hj].
    assert (i = j) as ->; [|congruence].
    eapply (NoDup_lookup _ i j (bounds a) Hnd); rewrite list_lookup_fmap; [by rewrite Hi|by rewrite Hj, Eb].
Qed.

Lemma IsCodeInR2RModule_spec ip c all live :
  modules_ok (_modulesCodeRanges c) all live -> NoDup all -> separate (as_module <$> all) ->
  exists b, IsCodeInR2RModule ip true c = Some b /\
    (b = true <-> exists m, m ∈ live /\ m.1 <= ip <= m.2).
Proof.
  intros Hok Hn Hsep. pose proof (modules_separate _ _ _ Hok Hn Hsep) as Hs.
  destruct Hok as [Hso Hb Hf Hl]. unfold IsCodeInR2RModule. cbn [negb].
  rewrite FindRange_search by done. destruct (search ip _) as [m|] eqn:E.
  - apply search_separate in E as [Hm Hc]; [|done]. apply contains_spec in Hc as Hc'. cbn in Hc'.
    destruct (isRemoved m) eqn:Er.
    + exists false. split; [done|]. split; [done|]. intros (b & Hbl & Hip).
      assert (b ∈ bounds <$> _modulesCodeRanges c) as (m' & -> & Hm')%list_elem_of_fmap
        by (rewrite Hb; by apply Hl).
      destruct Hs as [Hw Ha]. destruct (Ha m m' Hm Hm') as [<-|[?|?]]; cbn in *; [|lia..].
      apply (Hf m Hm) in Hbl. congruence.
    + exists true. rewrite Hc. split; [done|]. split; [|done]. intros _.
      exists (bounds m). split; [by apply (Hf m Hm)|done].
  - exists false. split; [done|]. split; [done|]. intros (b & Hbl & Hip).
    assert (b ∈ bounds <$> _modulesCodeRanges c) as (m' & -> & Hm')%list_elem_of_fmap
      by (rewrite Hb; by apply Hl).
    pose proof (search_separate_None ip _ Hs E m' Hm') as Hc.
    assert (contains m' ip = true) by by apply contains_spec. congruence.
Qed.

Lemma IsManagedImpl_spec ops ip l :
  separate (compiled ops) -> NoDup (added ops) -> separate (as_module <$> added ops) ->
  match IsManagedImpl ip l (run_ops ops) with
  | None => l <> mkLocks true true true
  | Some b => b = true <->
      (exists r, r ∈ compiled ops /\ contains r ip = true) \/
      (exists m, m ∈ loaded ops /\ m.1 <= ip <= m.2)
  end.
Proof.
  intros Hc Hn Hm. set (c := run_ops ops).
  destruct (run_ops_indexed ops (GetPageNumber ip)) as [Hs Hnew]. fold c in Hs, Hnew.
  destruct (IsCodeInR2RModule_spec ip c _ _ (run_ops_modules ops Hn) Hn Hm) as (b & Eb & Hb).
  assert (Hmiss : FindRange (page_of (_pagesMap c) (GetPageNumber ip)) ip = None ->
    match IsCodeInR2RModule ip (modules_locked l) c with
    | None => l <> mkLocks true true true
    | Some b => b = true <-> (exists r, r ∈ compiled ops /\ contains r ip = true) \/
        (exists m, m ∈ loaded ops /\ m.1 <= ip <= m.2)
    end).
  { intros E. destruct l as [[] [] []]; cbn [modules_locked]; try done; rewrite Eb, Hb.
    all: split; [by right|]; intros [(r & Hr & Hcr)|?]; [exfalso|done].
    all: rewrite FindRange_search in E by done; unfold search in E; rewrite Hnew in E.
    all: eapply (search_separate_None ip (filter (fun r => spans r (GetPageNumber ip)) (compiled ops))) in E;
      [|by apply (separate_filter (fun r => spans r (GetPageNumber ip)))
       |apply list_elem_of_filter; split; [by apply contains_spans|exact Hr]]; congruence. }
  unfold IsManagedImpl. destruct l as [[] lp lm]; cbn [pages_locked page_locked modules_locked negb] in *; [|done].
  destruct (_pagesMap c !! GetPageNumber ip) as [ranges|] eqn:Ep; cbn [from_option id] in Hs, Hnew, Hmiss; [|by apply Hmiss].
  destruct lp; [|done]. cbn [negb]. destruct (FindRange ranges ip) as [r|] eqn:Ef; [|by apply Hmiss].
  split; [|done]. intros _. left. exists r. rewrite FindRange_search in Ef by done.
  unfold search in Ef. rewrite Hnew in Ef.
  apply (search_separate ip (filter (fun r => spans r (GetPageNumber ip)) (compiled ops))) in Ef as [Hr Hcr];
    [|by apply (separate_filter (fun r => spans r (GetPageNumber ip)))].
  by apply list_elem_of_filter in Hr as [_ Hr].
Qed.

(** ** Properties *)

(** C11: whatever was compiled, loaded, unloaded and asked before, the lookup of a function
    through the page index is the reference search, among all the ranges ever added that
    lie on the page of the address: the one with the greatest start at or below the
    address, the newest of equal ones, if it contains the address.  No page misses a range
    that spans several pages, and skipping repeated ranges loses nothing. *)
Theorem code_lookup_reference ops ip :
  GetFunctionInfoImpl ip (run_ops ops) =
    (fun r => mkFunctionInfo (functionId r) (isDynamic r)) <$>
      search ip (filter (fun r => spans r (GetPageNumber ip)) (compiled ops)).
Proof. apply GetFunctionInfoImpl_search, run_ops_indexed. Qed.

(** As long as the code ranges do not overlap and no module range is added twice, an
    address is attributed to exactly the function that covers it, and the question of the
    signal handler is answered exactly, managed if and only if a compiled method or a
    module that is still loaded covers the address, or given up, and then only because a
    lock was not obtained in time. *)
Theorem managed_code_recognised ops ip l :
  separate (compiled ops) -> NoDup (added ops) -> separate (as_module <$> added ops) ->
  (forall r, r ∈ compiled ops -> contains r ip = true ->
    GetFunctionInfoImpl ip (run_ops ops) = Some (mkFunctionInfo (functionId r) (isDynamic r))) /\
  match (IsManaged ip l (run_ops ops)).2 with
  | None => l <> mkLocks true true true
  | Some b => b = true <->
      (exists r, r ∈ compiled ops /\ contains r ip = true) \/
      (exists m, m ∈ loaded ops /\ m.1 <= ip <= m.2)
  end.
Proof.
  intros Hc Hn Hm. split.
  - intros r Hr Hcr. rewrite (GetFunctionInfoImpl_search _ _ _ (run_ops_indexed ops)).
    rewrite (proj2 (search_separate ip (filter (fun r => spans r (GetPageNumber ip)) (compiled ops)) r
      (separate_filter _ _ Hc))); [done|].
    split; [|done]. apply list_elem_of_filter. split; [by apply contains_spans|done].
  - pose proof (IsManagedImpl_spec ops ip l Hc Hn Hm) as Hi. unfold IsManaged.
    by destruct (IsManagedImpl ip l (run_ops ops)).
Qed.

(** ** Examples *)

Module Example_cache.
(** A method of two pages and a module, then the module is unloaded. *)
Definition method : CodeRange := mkRange 0x1FFF0 0x20010 7 false.
Definition history : list cache_op :=
  [Compiled [method]; Loaded [(0x50000, 0x5FFFF)]; Compiled [method]; Unloaded [(0x50000, 0x5FFFF)]].
Definition all_locks : Locks := mkLocks true true true.

Example second_page : GetFunctionInfoImpl 0x20005 (run_ops history) = Some (mkFunctionInfo 7 false).
Proof. reflexivity. Qed.

(** A module that is loaded again at the same address, and unloaded again, stays managed:
    the flag is set on the first of the two equal ranges. *)
Example reloaded_module_stays :
  IsManagedImpl 0x50010 all_locks
    (run_ops [Loaded [(0x50000, 0x5FFFF)]; Unloaded [(0x50000, 0x5FFFF)];
              Loaded [(0x50000, 0x5FFFF)]; Unloaded [(0x50000, 0x5FFFF)]]) = Some true.
Proof. reflexivity. Qed.
End Example_cache.
