(* ===== verification/SpinningLock.v ===== *)
(** * The reader-writer spinning lock

    Model of [ReaderWriterSpinningMutex.hpp]: every thread runs the code of the lock one
    atomic operation at a time, and the threads are interleaved in any order.  A
    [compare_exchange_weak] may fail for no reason, and the clock is an input of the step
    that reads it.  The lock protects the code cache of [CodeCache], which signal handlers
    read. *)
From stdpp Require Import base list.
From S2P Require Import Prelude.

Definition kFree : Z := 0.
Definition kExclusive : Z := -1.
Definition kMaxActiveSpin : Z := 4000.
Definition kYieldSleep : Z := 500000.        (* nanoseconds *)

Record ReaderWriterSpinningMutex := mkMutex { _state : Z; _waitingWriters : Z }.

Definition new_mutex : ReaderWriterSpinningMutex := mkMutex kFree 0.

(** How long a call waits: [try_lock], [lock], or until a point in time. *)
Inductive patience := Once | Forever | Until (timeoutTime : Z).

Definition expired (p : patience) (now : Z) : bool :=
  match p with
  | Once => true
  | Forever => false
  | Until t => t <=? now
  end.

(** Where a thread is; [spincount] counts the turns of the slow path, which a thread that
    is still on the fast path has not entered. *)
Inductive pc :=
| Outside (last : bool)                              (* result of its last call *)
| TryWrite (p : patience)                            (* try_lock() *)
| Announce (p : patience)                            (* WaitingWriterGuard() *)
| SpinWrite (p : patience) (spincount : Z)           (* compare_exchange_weak(kFree, kExclusive) *)
| PauseWrite (p : patience) (spincount : Z)
| Withdraw (acquired : bool)                         (* ~WaitingWriterGuard() *)
| Writing
| CheckWriters (p : patience) (slow : option Z)      (* _waitingWriters.load() == 0 *)
| LoadState (p : patience) (slow : option Z)
| CasShared (p : patience) (slow : option Z) (expected : Z)
| PauseRead (p : patience) (spincount : Z)
| Reading.

(** The calls a thread outside of the lock may make. *)
Inductive call := CallWrite (p : patience) | CallRead (p : patience).

(** Inputs of a step: the call a thread outside makes, whether a weak exchange fails
    spuriously, and what the clock shows. *)
Record input := mkInput { in_call : call; in_spurious : bool; in_now : Z }.

(** A failed shared attempt: the fast path goes to the slow one unless it is a plain try. *)
Definition shared_failed (p : patience) (slow : option Z) : pc :=
  match slow, p with
  | Some spincount, _ => PauseRead p spincount
  | None, Once => Outside false
  | None, _ => CheckWriters p (Some 0)
  end.

(** [lock] and [try_lock_for] go on to the slow path when [try_lock] fails. *)
Definition try_lock (p : patience) (m : ReaderWriterSpinningMutex) : ReaderWriterSpinningMutex * pc :=
  if _state m =? kFree then (mkMutex kExclusive (_waitingWriters m), Writing)
  else (m, match p with Once => Outside false | _ => Announce p end).

Definition unlock (m : ReaderWriterSpinningMutex) : ReaderWriterSpinningMutex * pc :=
  (mkMutex kFree (_waitingWriters m), Outside true).

(** [WaitingWriterGuard], which counts [n] more waiting writers. *)
Definition waiting_writers (n : Z) (m : ReaderWriterSpinningMutex) : ReaderWriterSpinningMutex :=
  mkMutex (_state m) (i32 (_waitingWriters m + n)).

(** The exchange of [try_lock_exclusive_until_slow], and what follows a failure. *)
Definition exclusive_attempt (spurious : bool) (p : patience) (spincount : Z) (m : ReaderWriterSpinningMutex) :
    ReaderWriterSpinningMutex * pc :=
  if (_state m =? kFree) && negb spurious
  then (mkMutex kExclusive (_waitingWriters m), Withdraw true)
  else (m, PauseWrite p spincount).

Definition exclusive_pause (now : Z) (p : patience) (spincount : Z) : pc :=
  if spincount <? kMaxActiveSpin then SpinWrite p (u32 (spincount + 1))
  else if expired p now then Withdraw false
  else SpinWrite p spincount.

(** [try_lock_shared]: the count of waiting writers is read first. *)
Definition check_writers (p : patience) (slow : option Z) (m : ReaderWriterSpinningMutex) : pc :=
  if _waitingWriters m =? 0 then LoadState p slow else shared_failed p slow.

(** The condition of the loop of [try_lock_shared_once]. *)
Definition shared_loop (p : patience) (slow : option Z) (m : ReaderWriterSpinningMutex) : pc :=
  if kFree <=? _state m then CasShared p slow (_state m) else shared_failed p slow.

Definition shared_exchange (spurious : bool) (p : patience) (slow : option Z) (expected : Z)
    (m : ReaderWriterSpinningMutex) : ReaderWriterSpinningMutex * pc :=
  if (_state m =? expected) && negb spurious
  then (mkMutex (i32 (expected + 1)) (_waitingWriters m), Reading)
  else (m, shared_loop p slow m).

Definition shared_pause (now : Z) (p : patience) (spincount : Z) : pc :=
  if spincount <? kMaxActiveSpin then CheckWriters p (Some (u32 (spincount + 1)))
  else if expired p now then Outside false
  else CheckWriters p (Some spincount).

Definition unlock_shared (m : ReaderWriterSpinningMutex) : ReaderWriterSpinningMutex * pc :=
  (mkMutex (i32 (_state m - 1)) (_waitingWriters m), Outside true).

(** One atomic operation of a thread. *)
Definition local_step (i : input) (m : ReaderWriterSpinningMutex) (c : pc) :
    ReaderWriterSpinningMutex * pc :=
  match c with
  | Outside _ =>
    match in_call i with
    | CallWrite p => (m, TryWrite p)
    | CallRead p => (m, CheckWriters p None)
    end
  | TryWrite p => try_lock p m
  | Announce p => (waiting_writers 1 m, SpinWrite p 0)
  | SpinWrite p spincount => exclusive_attempt (in_spurious i) p spincount m
  | PauseWrite p spincount => (m, exclusive_pause (in_now i) p spincount)
  | Withdraw acquired => (waiting_writers (-1) m, if acquired then Writing else Outside false)
  | Writing => unlock m
  | CheckWriters p slow => (m, check_writers p slow m)
  | LoadState p slow => (m, shared_loop p slow m)
  | CasShared p slow expected => shared_exchange (in_spurious i) p slow expected m
  | PauseRead p spincount => (m, shared_pause (in_now i) p spincount)
  | Reading => unlock_shared m
  end.

(** The sleep between two looks at the clock never goes past the timeout. *)
Definition BoundedSleep_request (p : patience) (now : Z) : Z :=
  match p with
  | Until t => Z.min kYieldSleep (t - now)
  | _ => kYieldSleep
  end.

(** ** All threads *)

Definition system : Type := ReaderWriterSpinningMutex * list pc.

(** Thread [t] makes a step; a thread that does not exist makes none. *)
Definition step (s : system) (e : nat * input) : system :=
  let '(m, ts) := s in
  match ts !! e.1 with
  | Some c => let '(m, c) := local_step e.2 m c in (m, <[e.1 := c]> ts)
  | None => s
  end.

Definition run (s : system) (schedule : list (nat * input)) : system := foldl step s schedule.

Definition initial (threads : nat) : system := (new_mutex, replicate threads (Outside false)).

(** ** The invariant *)

Definition reads (c : pc) : Z := match c with Reading => 1 | _ => 0 end.
Definition writes (c : pc) : Z := match c with Writing | Withdraw true => 1 | _ => 0 end.
Definition waits (c : pc) : Z :=
  match c with SpinWrite _ _ | PauseWrite _ _ | Withdraw _ => 1 | _ => 0 end.

Fixpoint total (f : pc -> Z) (ts : list pc) : Z :=
  match ts with [] => 0 | c :: ts => f c + total f ts end.

Lemma total_insert f ts t c c' : ts !! t = Some c -> total f (<[t := c']> ts) = total f ts - f c + f c'.
Proof.
  revert t. induction ts as [|x ts IH]; intros [|t] H; cbn in *; [done..| |].
  - injection H as ->. lia.
  - rewrite IH by done. lia.
Qed.

Lemma total_range f ts : (forall c, 0 <= f c <= 1) -> 0 <= total f ts <= zlen ts.
Proof. intros Hf. induction ts as [|c ts IH]; cbn; [lia|]. specialize (Hf c). lia. Qed.

Lemma total_at f ts t c :
  (forall c, 0 <= f c <= 1) -> ts !! t = Some c -> f c <= total f ts <= zlen ts - 1 + f c.
Proof.
  intros Hf. revert t. induction ts as [|x ts IH]; intros [|t] H; cbn in *; [done..| |].
  - injection H as ->. pose proof (total_range f ts Hf). lia.
  - specialize (IH t H). specialize (Hf x). lia.
Qed.

Lemma reads_range c : 0 <= reads c <= 1. Proof. destruct c; cbn; lia. Qed.
Lemma writes_range c : 0 <= writes c <= 1. Proof. destruct c as [| | | | |[]| | | | | |]; cbn; lia. Qed.
Lemma waits_range c : 0 <= waits c <= 1. Proof. destruct c; cbn; lia. Qed.
#[export] Hint Resolve reads_range writes_range waits_range : prof.

(** A reader only tries to increment a word that was not exclusive. *)
Definition expects_shared (c : pc) : Prop :=
  match c with CasShared _ _ expected => kFree <= expected | _ => True end.

Record consistent (s : system) : Prop := {
  c_threads : zlen s.2 < 2 ^ 31;
  c_expected : Forall expects_shared s.2;
  c_waiting : _waitingWriters s.1 = total waits s.2;
  c_word :
    (total writes s.2 = 0 /\ _state s.1 = total reads s.2) \/
    (total writes s.2 = 1 /\ total reads s.2 = 0 /\ _state s.1 = kExclusive)
}.

Lemma step_consistent s e : consistent s -> consistent (step s e).
Proof.
  destruct s as [m ts], e as [t i]. intros [Ht He Hw Hs]. cbn [fst snd] in *. unfold step. cbn [fst snd].
  destruct (ts !! t) as [c|] eqn:Ec; [|by split].
  pose proof (total_at reads ts t c reads_range Ec). pose proof (total_at writes ts t c writes_range Ec).
  pose proof (total_at waits ts t c waits_range Ec).
  pose proof (proj1 (Forall_lookup _ _) He t c Ec) as Hx.
  assert (Hgoal : forall m' c', expects_shared c' ->
    _waitingWriters m' = total waits ts - waits c + waits c' ->
    (total writes ts - writes c + writes c' = 0 /\ _state m' = total reads ts - reads c + reads c') \/
    (total writes ts - writes c + writes c' = 1 /\ total reads ts - reads c + reads c' = 0 /\
      _state m' = kExclusive) -> consistent (m', <[t := c']> ts)).
  { intros m' c' Hc' H1' H2'. split; cbn [fst snd]; rewrite ?length_insert; [done|by apply Forall_insert|..];
      rewrite !(total_insert _ _ _ _ _ Ec); done. }
  destruct (local_step i m c) as [m' c'] eqn:El. apply Hgoal; clear Hgoal.
  all: destruct c as [?|p|p|p n|p n|[]| |p [sl|]|p [sl|]|p [sl|] x|p n|];
    cbn [local_step waits writes reads expects_shared] in *;
    unfold try_lock, waiting_writers, exclusive_attempt, exclusive_pause, unlock, check_writers, shared_exchange,
      shared_loop, shared_pause, unlock_shared, shared_failed in El.
  all: repeat match type of El with
    | context [match in_call ?i with _ => _ end] => destruct (in_call i)
    | context [match ?p with Once => _ | _ => _ end] => destruct p
    | context [if ?b then _ else _] => destruct b eqn:?
    end; injection El as <- <-; cbn [_state _waitingWriters waits writes reads expects_shared]; bool_facts.
  all: unfold kFree, kExclusive in *; rewrite ?swrap_small by (unfold in_s; lia); try done; lia.
Qed.

Lemma initial_consistent n : Z.of_nat n < 2 ^ 31 -> consistent (initial n).
Proof.
  intros Hn. assert (forall f, f (Outside false) = 0 -> total f (replicate n (Outside false)) = 0) as E.
  { intros f Hf. clear Hn. induction n as [|n IH]; cbn; [done|]. by rewrite Hf, IH. }
  split; cbn [initial fst snd]; rewrite ?E by done.
  - by rewrite length_replicate.
  - by apply Forall_replicate.
  - done.
  - by left.
Qed.

Lemma run_consistent s schedule : consistent s -> consistent (run s schedule).
Proof.
  revert s. induction schedule as [|e schedule IH]; intros s Hs; [done|]. cbn. by apply IH, step_consistent.
Qed.

Lemma total_two f ts t u c d :
  (forall c, 0 <= f c <= 1) -> f (Outside false) = 0 -> t <> u -> ts !! t = Some c ->
  ts !! u = Some d -> f c + f d <= total f ts.
Proof.
  intros Hf H0 Htu Ht Hu.
  pose proof (total_at f (<[t := Outside false]> ts) u d Hf) as H1.
  rewrite list_lookup_insert_ne, (total_insert f ts t c _ Ht) in H1 by done.
  specialize (H1 Hu). lia.
Qed.

(** ** A thread that runs alone

    A signal handler runs to its end before the interrupted thread goes on: [f k] is the
    input of its [k]-th step. *)
Fixpoint alone (n : nat) (f : nat -> input) (k : nat) (s : ReaderWriterSpinningMutex * pc) :
    ReaderWriterSpinningMutex * pc :=
  match n with
  | O => s
  | S n => alone n f (S k) (local_step (f k) s.1 s.2)
  end.

Lemma alone_add n1 n2 f k s : alone (n1 + n2) f k s = alone n2 f (k + n1) (alone n1 f k s).
Proof.
  revert k s. induction n1 as [|n1 IH]; intros k s; cbn; [by rewrite Nat.add_0_r|].
  rewrite IH. f_equal. lia.
Qed.

(** No reader gets in: a writer holds the lock, or waits for it. *)
Definition closed (m : ReaderWriterSpinningMutex) : Prop :=
  _state m = kExclusive \/ _waitingWriters m <> 0.

Lemma closed_turn m p slow f k :
  closed m -> exists n, (0 < n <= 2)%nat /\
    alone n f k (m, CheckWriters p slow) = (m, shared_failed p slow).
Proof.
  intros Hm. destruct (Z.eqb_spec (_waitingWriters m) 0) as [Hw|Hw].
  - exists 2%nat. split; [lia|]. cbn. unfold check_writers. rewrite Hw. cbn. unfold shared_loop.
    destruct Hm as [->|?]; [done|lia].
  - exists 1%nat. split; [lia|]. cbn. unfold check_writers. by rewrite (proj2 (Z.eqb_neq _ _) Hw).
Qed.

Lemma closed_spins (n : nat) m p f k sp :
  closed m -> 0 <= sp -> sp + Z.of_nat n = kMaxActiveSpin ->
  exists j, (j <= 3 * n + 2)%nat /\
    alone j f k (m, CheckWriters p (Some sp)) = (m, PauseRead p kMaxActiveSpin).
Proof.
  revert k sp. induction n as [|n IH]; intros k sp Hm H0 Hn;
    destruct (closed_turn m p (Some sp) f k Hm) as (j1 & Hj1 & E1).
  - exists j1. split; [lia|]. rewrite E1. cbn. by replace sp with kMaxActiveSpin by lia.
  - assert (sp + 1 < 2 ^ 32 /\ sp < kMaxActiveSpin) as [Hlt Hsp] by (unfold kMaxActiveSpin in *; lia).
    destruct (IH (k + j1 + 1)%nat (sp + 1) Hm) as (j2 & Hj2 & E2); [lia..|].
    exists (j1 + (1 + j2))%nat. split; [lia|]. rewrite alone_add, E1. cbn [shared_failed].
    rewrite (alone_add 1). cbn [alone fst snd local_step]. unfold shared_pause. rewrite (proj2 (Z.ltb_lt _ _) Hsp), wrap_small.
    + exact E2.
    + unfold in_u. lia.
Qed.

Lemma closed_waits (n : nat) m t f k N :
  closed m -> (forall i, (N <= i)%nat -> t <= in_now (f i)) -> (N <= k + n)%nat ->
  exists j, (j <= n + 4)%nat /\
    alone j f k (m, PauseRead (Until t) kMaxActiveSpin) = (m, Outside false).
Proof.
  intros Hm Ht. revert k. induction n as [n IH] using lt_wf_ind. intros k Hn.
  destruct (Z.leb_spec t (in_now (f k))) as [Hk|Hk].
  - exists 1%nat. split; [lia|]. cbn [alone fst snd local_step]. unfold shared_pause. rewrite Z.ltb_irrefl. cbn [expired].
    by rewrite (proj2 (Z.leb_le _ _) Hk).
  - assert (k < N)%nat by (destruct (decide (k < N)%nat); [done|]; specialize (Ht k ltac:(lia)); lia).
    destruct (closed_turn m (Until t) (Some kMaxActiveSpin) f (S k) Hm) as (j1 & Hj1 & E1).
    assert (alone (1 + j1) f k (m, PauseRead (Until t) kMaxActiveSpin) =
      (m, PauseRead (Until t) kMaxActiveSpin)) as E.
    { cbn [Nat.add alone fst snd local_step]. unfold shared_pause. rewrite Z.ltb_irrefl.
      cbn [expired]. rewrite (proj2 (Z.leb_gt _ _) Hk). exact E1. }
    destruct (decide (1 + j1 <= n)%nat) as [Hle|Hle].
    + destruct (IH (n - (1 + j1))%nat ltac:(lia) (k + (1 + j1))%nat ltac:(lia)) as (j2 & Hj2 & E2).
      exists (1 + j1 + j2)%nat. split; [lia|]. by rewrite alone_add, E.
    + exists (1 + j1 + 1)%nat. split; [lia|]. rewrite alone_add, E. cbn [alone fst snd local_step]. unfold shared_pause.
      rewrite Z.ltb_irrefl. cbn [expired]. rewrite (proj2 (Z.leb_le _ _)); [done|]. apply Ht. lia.
Qed.

(** ** Properties *)

(** C10: for any number of threads and any interleaving of their operations, with spurious
    failures and any clock, a thread that holds the lock for writing is the only one that
    holds it, the state word is the number of readers, or -1 exactly with a writer (so the
    assertions in the unlock functions hold), and the number of waiting writers is exact:
    no attempt, successful or timed out, leaks a count that would shut readers out. *)
Theorem lock_excludes n schedule m ts :
  Z.of_nat n < 2 ^ 31 -> run (initial n) schedule = (m, ts) ->
  (forall t u c d, t <> u -> ts !! t = Some c -> ts !! u = Some d -> writes c = 1 ->
    writes d = 0 /\ reads d = 0) /\
  (forall t c, ts !! t = Some c -> writes c = 1 -> _state m = kExclusive) /\
  (forall t c, ts !! t = Some c -> reads c = 1 -> kFree < _state m) /\
  (_state m = kExclusive <-> total writes ts = 1) /\
  (total writes ts = 0 -> _state m = total reads ts) /\
  _waitingWriters m = total waits ts.
Proof.
  intros Hn Hr. pose proof (run_consistent _ schedule (initial_consistent n Hn)) as [_ _ Hw Hs].
  rewrite Hr in Hw, Hs. cbn [fst snd] in *. unfold kExclusive, kFree in *.
  pose proof (total_range reads ts reads_range).
  split_and!; [| | |lia..|done].
  - intros t u c d Htu Ht Hu Hc. pose proof (total_two writes ts t u c d writes_range eq_refl Htu Ht Hu).
    pose proof (total_at reads ts u d reads_range Hu). pose proof (writes_range d). pose proof (reads_range d). lia.
  - intros t c Ht Hc. pose proof (total_at writes ts t c writes_range Ht). lia.
  - intros t c Ht Hc. pose proof (total_at reads ts t c reads_range Ht). lia.
Qed.

(** A signal handler that asks for the lock with a timeout while a writer holds it, or
    waits for it, and cannot go on, for instance because it is the very thread the handler
    interrupted, gives up: within the spins and the steps until the clock passes the
    timeout it returns without the lock and leaves the lock as it was. *)
Theorem handler_gives_up m t f N :
  closed m -> (forall i, (N <= i)%nat -> t <= in_now (f i)) ->
  exists j, Z.of_nat j <= 12010 + Z.of_nat N /\
    alone j f 0 (m, CheckWriters (Until t) None) = (m, Outside false).
Proof.
  intros Hm Ht. destruct (closed_turn m (Until t) None f 0 Hm) as (j1 & Hj1 & E1).
  destruct (closed_spins 4000 m (Until t) f (0 + j1) 0 Hm) as (j2 & Hj2 & E2); [lia|done|].
  destruct (closed_waits N m t f (0 + j1 + j2) N Hm Ht) as (j3 & Hj3 & E3); [lia|].
  exists (j1 + (j2 + j3))%nat. split; [lia|]. rewrite alone_add, E1. cbn [shared_failed].
  rewrite alone_add, E2. exact E3.
Qed.

(** ** Examples *)

Module Example_lock.
Definition read_forever : input := mkInput (CallRead Forever) false 0.
Definition write_forever : input := mkInput (CallWrite Forever) false 0.
(** One reader gets in, then a writer waits, and a second reader is kept out. *)
Definition schedule : list (nat * input) :=
  [(0, read_forever); (0, read_forever); (0, read_forever); (0, read_forever);
   (1, write_forever); (1, write_forever); (1, write_forever);
   (2, read_forever); (2, read_forever)]%nat.

Example second_reader_waits :
  run (initial 3) schedule =
    (mkMutex 1 1, [Reading; SpinWrite Forever 0; CheckWriters Forever (Some 0)]).
Proof. reflexivity. Qed.

(** The clock of a handler that starts at 100 and whose timeout is 150. *)
Definition clock (k : nat) : input := mkInput (CallRead (Until 150)) false (100 + Z.of_nat k).
End Example_lock.

Lemma lock_excludes_witness :
  exists m ts, run (initial 3) Example_lock.schedule = (m, ts) /\ _waitingWriters m = total waits ts.
Proof.
  eexists _, _. split; [reflexivity|].
  eapply (lock_excludes 3 Example_lock.schedule); [lia|reflexivity].
Defined.
