(* ===== verification/Unwinding.v ===== *)
(** * Walking the stack of the interrupted thread

    Model of the buffer of frames ([Callstack.h]), of the diagnostic recorder
    ([UnwindingRecorder.h]) and of the arm64 unwinder ([HybridUnwinder.cpp]): native frames
    with libunwind until managed code is reached, then the chain of frame records
    [previous fp, return address] on the stack.  The walk runs inside a signal handler.

    libunwind is a parameter: what it answers for a cursor.  The memory of the process is
    a partial function on 64-bit words; reading an unreadable word is a crash ([Fault]).
    What the code cache answers may change from one question to the next, since a lock may
    not be obtained in time. *)
From stdpp Require Import base list.
From S2P Require Import Prelude FaultMonad.

(** ** The buffer of frames *)

Definition MaxFrames : Z := 1024.

(** The span of the frames and how many are used. *)
Record Callstack := mkCallstack { _buffer : list Z; _count : Z }.

Definition Add (ip : Z) (c : Callstack) : Callstack * bool :=
  if zlen (_buffer c) <=? _count c then (c, false)
  else (mkCallstack (<[Z.to_nat (_count c) := ip]> (_buffer c)) (_count c + 1), true).

Definition Size (c : Callstack) : Z := _count c.
Definition frames (c : Callstack) : list Z := take (Z.to_nat (_count c)) (_buffer c).

(** ** The recorder *)

Inductive EventType :=
| Start | InitCursor | NativeFrame | ManagedTransition | LibunwindStep | FrameChainStep | Finish.

Inductive FinishReason :=
| Success | BufferFull | FailedGetContext | FailedInitLocal2 | FailedGetReg | FailedLibunwindStep
| NoStackBounds | InvalidFp | TooManyNativeFrames | InvalidIp | FailedIsManaged.

#[export] Instance FinishReason_eq_dec : EqDecision FinishReason.
Proof. solve_decision. Defined.

(** The fields of the cursor libunwind exposes. *)
Record CursorSnapshot := mkSnapshot {
  snap_ip : Z; cfa : Z; locFp : Z; locLr : Z; locSp : Z;
  frameType : Z; cfaRegSp : Z; cfaRegOffset : Z; dwarfStepResult : Z; stepMethod : Z; locInfo : Z
}.

(** The address of the interrupted context, which [RecordStart] also keeps, is left out. *)
Record TraceEvent := mkEvent {
  eventType : EventType; finishReason : FinishReason; result : Z;
  ev_ip : Z; ev_fp : Z; ev_sp : Z; cursorSnapshot : CursorSnapshot
}.

Definition Capacity : Z := 256.

Record UnwindingRecorder := mkRecorder { _entries : list TraceEvent; _totalEvents : Z }.

(** Each record sets some fields of the next entry, if there is one, and leaves the others
    as they were. *)
Definition Record_with (f : TraceEvent -> TraceEvent) (r : UnwindingRecorder) : UnwindingRecorder :=
  mkRecorder
    (if _totalEvents r <? Capacity then alter f (Z.to_nat (_totalEvents r)) (_entries r) else _entries r)
    (_totalEvents r + 1).

Definition RecordStart : UnwindingRecorder -> UnwindingRecorder :=
  Record_with (fun e => mkEvent Start (finishReason e) 0 (ev_ip e) (ev_fp e) (ev_sp e) (cursorSnapshot e)).
Definition RecordFinish (res : Z) (reason : FinishReason) : UnwindingRecorder -> UnwindingRecorder :=
  Record_with (fun e => mkEvent Finish reason res (ev_ip e) (ev_fp e) (ev_sp e) (cursorSnapshot e)).
Definition RecordCursor (t : EventType) (res : Z) (s : CursorSnapshot) :
    UnwindingRecorder -> UnwindingRecorder :=
  Record_with (fun e => mkEvent t (finishReason e) res (ev_ip e) (ev_fp e) (ev_sp e) s).
Definition RecordFrame (t : EventType) (ip fp sp : Z) : UnwindingRecorder -> UnwindingRecorder :=
  Record_with (fun e => mkEvent t (finishReason e) (result e) ip fp sp (cursorSnapshot e)).
Definition RecordLink (t : EventType) (ip fp : Z) : UnwindingRecorder -> UnwindingRecorder :=
  Record_with (fun e => mkEvent t (finishReason e) (result e) ip fp (ev_sp e) (cursorSnapshot e)).

Definition Recorder_Reset (r : UnwindingRecorder) : UnwindingRecorder := mkRecorder (_entries r) 0.
Definition RecordedEvents (r : UnwindingRecorder) : Z := Z.min (_totalEvents r) Capacity.
Definition recorded (r : UnwindingRecorder) : list TraceEvent := take (Z.to_nat (RecordedEvents r)) (_entries r).

(** ** Frame pointers *)

Definition IsValidFp (fp prevFp stackBase stackEnd : Z) : bool :=
  if fp =? 0 then false
  else if negb (fp mod 8 =? 0) then false
  else if (fp <? stackBase) || (stackEnd <? u64 (fp + 16)) then false
  else if negb (prevFp =? 0) && (fp <=? prevFp) then false
  else true.

(** Fake frames of [FrameStore.h]. *)
Definition FakeUnknownIP : Z := 0.
Definition UnknownFrameTypeIP : Z := 3.
Definition MinPlausibleNativeIp : Z := 0x4000.
Definition MaxConsecutiveNativeFrames : Z := 8.

(** ** The walk *)

(** What a walk changes: the frames, the recorder if there is one, and how many questions
    were asked to the code cache. *)
Record Walk := mkWalk { callstack : Callstack; recorder : option UnwindingRecorder; asked : nat }.

Definition record (f : UnwindingRecorder -> UnwindingRecorder) : M Walk unit :=
  modify (fun w => mkWalk (callstack w) (f <$> recorder w) (asked w)).

Definition add_frame (ip : Z) : M Walk bool := fun w =>
  let '(c, ok) := Add ip (callstack w) in (mkWalk c (recorder w) (asked w), Done ok).

Definition size : M Walk Z := gets (fun w => Size (callstack w)).

Inductive Register := REG_IP | REG_FP | REG_SP.

Section unwinder.
Context {cursor context : Type}.
(** Result and value of the register; the value before the call is kept on a failure. *)
Context (unw_get_reg : cursor -> Register -> Z -> Z * Z).
Context (unw_step : cursor -> Z * cursor).
Context (unw_get_cursor_snapshot : cursor -> CursorSnapshot).
Context (unw_getcontext : Z * context).
Context (unw_init_local2 : context -> bool -> Z * cursor).
(** The values of two enumerators of the extended libunwind. *)
Context (UNW_STEP_FALLBACK_LR_NO_PROC_INFO UNW_REG_IP : Z).
(** The answer of the code cache to the n-th question. *)
Context (IsManaged : nat -> Z -> option bool).
Context (mem : Z -> option Z).

Definition read (a : Z) : M Walk Z :=
  match mem a with Some v => mret v | None => fault end.

Definition ask (ip : Z) : M Walk (option bool) := fun w =>
  (mkWalk (callstack w) (recorder w) (S (asked w)), Done (IsManaged (asked w) ip)).

Definition reg (c : cursor) (r : Register) : Z := (unw_get_reg c r 0).2.

Fixpoint UnwindNativeFrames (fuel : nat) (c : cursor) (ip : Z) : M Walk (bool * cursor) :=
  match fuel with
  | O => stuck
  | S fuel =>
    let '(getResult, ip) := unw_get_reg c REG_IP ip in
    if negb (getResult =? 0) || (ip =? 0) then
      record (RecordFinish getResult FailedGetReg);; mret (false, c)
    else if ip <? MinPlausibleNativeIp then
      record (RecordFinish (i32 ip) InvalidIp);; mret (false, c)
    else
      isManaged ← ask ip;
      match isManaged with
      | Some true =>
        record (RecordLink ManagedTransition ip (reg c REG_FP));; mret (true, c)
      | None =>
        _ ← add_frame UnknownFrameTypeIP;
        n ← size;
        record (RecordFinish n FailedIsManaged);; mret (false, c)
      | Some false =>
        record (RecordFrame NativeFrame ip (reg c REG_FP) (reg c REG_SP));;
        ok ← add_frame ip;
        if negb ok then
          n ← size;
          record (RecordFinish n BufferFull);; mret (false, c)
        else
          let '(stepResult, c) := unw_step c in
          let snapshot := unw_get_cursor_snapshot c in
          let unSafeStep := (stepResult <=? 0) ||
                            (stepMethod snapshot =? UNW_STEP_FALLBACK_LR_NO_PROC_INFO) in
          record (RecordCursor LibunwindStep stepResult snapshot);;
          if unSafeStep then
            let stepResult :=
              if 0 <? stepResult then - UNW_STEP_FALLBACK_LR_NO_PROC_INFO else stepResult in
            record (RecordFinish stepResult FailedLibunwindStep);; mret (false, c)
          else UnwindNativeFrames fuel c ip
      end
  end.

(** What follows the loop over the frame records. *)
Definition finish (reason : FinishReason) : M Walk unit :=
  n ← size; record (RecordFinish n reason).

(** The buffer is full: the reason is recorded, then the loop is left as after a success. *)
Definition full : M Walk unit :=
  n ← size;
  record (RecordFinish n BufferFull);; finish Success.

Fixpoint frame_chain (fuel : nat) (fp consecutiveNativeFrames stackBase stackEnd : Z) : M Walk unit :=
  match fuel with
  | O => stuck
  | S fuel =>
    let next (consecutiveNativeFrames : Z) : M Walk unit :=
      fp' ← read fp;
      if IsValidFp fp' fp stackBase stackEnd
      then frame_chain fuel fp' consecutiveNativeFrames stackBase stackEnd
      else finish InvalidFp in
    ip ← read (u64 (fp + 8));
    if ip =? 0 then finish Success
    else
      record (RecordLink FrameChainStep ip fp);;
      isManaged ← ask ip;
      match isManaged with
      | Some true =>
        ok ← add_frame ip;
        if negb ok then full else next 0
      | _ =>
        ok ← match isManaged with None => add_frame FakeUnknownIP | _ => mret true end;
        if negb ok then full
        else if MaxConsecutiveNativeFrames <? consecutiveNativeFrames + 1 then finish TooManyNativeFrames
        else next (consecutiveNativeFrames + 1)
      end
  end.

Definition UnwindManagedFrames (fuel : nat) (c : cursor) (stackBase stackEnd : Z) : M Walk unit :=
  let '(res, ip) := unw_get_reg c REG_IP 0 in
  if negb (res =? 0) || (ip =? 0) then record (RecordFinish UNW_REG_IP FailedGetReg)
  else
    ok ← add_frame ip;
    if negb ok then finish BufferFull
    else
      let '(res, fp) := unw_get_reg c REG_FP 0 in
      if negb (res =? 0) || negb (IsValidFp fp 0 stackBase stackEnd)
      then record (RecordFinish res InvalidFp)
      else frame_chain fuel fp 0 stackBase stackEnd.

(** [ctx] is null when a thread walks its own stack. *)
Definition Unwind (nativeFuel chainFuel : nat) (ctx : option context) (stackBase stackEnd : Z) : M Walk Z :=
  record RecordStart;;
  if (stackBase =? 0) || (stackEnd =? 0) then record (RecordFinish 0 NoStackBounds);; mret 0
  else
    let '(getResult, context, signalFrame) :=
      match ctx with
      | Some context => (0, context, true)
      | None => (unw_getcontext.1, unw_getcontext.2, false)
      end in
    if negb (getResult =? 0) then record (RecordFinish getResult FailedGetContext);; mret (-1)
    else
      let '(initResult, c) := unw_init_local2 context signalFrame in
      record (RecordCursor InitCursor initResult (unw_get_cursor_snapshot c));;
      if negb (initResult =? 0) then record (RecordFinish initResult FailedInitLocal2);; mret (-1)
      else
        '(keepOnUnwinding, c) ← UnwindNativeFrames nativeFuel c 0;
        if negb (keepOnUnwinding : bool) then size
        else UnwindManagedFrames chainFuel c stackBase stackEnd;; size.
End unwinder.

(** ** Frames *)

Definition well_formed (c : Callstack) : Prop := 0 <= _count c <= zlen (_buffer c).

Lemma frames_length c : well_formed c -> zlen (frames c) = _count c.
Proof. unfold well_formed, frames. intros. rewrite length_take. lia. Qed.

Lemma Add_spec ip c :
  well_formed c ->
  let '(c', ok) := Add ip c in
  well_formed c' /\ zlen (_buffer c') = zlen (_buffer c) /\
  frames c' = (if ok then frames c ++ [ip] else frames c) /\
  ok = (_count c <? zlen (_buffer c)) /\ (ok = false -> c' = c).
Proof.
  unfold well_formed, Add. intros Hw. destruct (Z.leb_spec (zlen (_buffer c)) (_count c)).
  - split_and!; [lia..|done| |done]. symmetry. apply Z.ltb_ge. lia.
  - cbn. rewrite length_insert. split_and!; [lia..| |symmetry; apply Z.ltb_lt; lia|done].
    unfold frames. cbn. replace (Z.to_nat (_count c + 1)) with (S (Z.to_nat (_count c))) by lia.
    rewrite (take_S_r _ _ ip) by (apply list_lookup_insert_eq; lia).
    by rewrite take_insert_ge by lia.
Qed.

(** *** Valid frame pointers *)

Lemma IsValidFp_spec fp prev stackBase stackEnd :
  0 <= fp < 2 ^ 64 -> stackEnd < 2 ^ 64 ->
  IsValidFp fp prev stackBase stackEnd = true ->
  0 < fp /\ stackBase <= fp /\ fp mod 8 = 0 /\ (prev <> 0 -> prev < fp) /\
  (fp + 16 <= stackEnd \/ 2 ^ 64 - 16 <= fp).
Proof.
  unfold IsValidFp. intros Hfp He H.
  destruct (Z.eqb_spec fp 0); [done|]. destruct (Z.eqb_spec (fp mod 8) 0); [cbn in H|done].
  destruct (Z.ltb_spec fp stackBase); [done|]. destruct (Z.ltb_spec stackEnd (u64 (fp + 16))); [done|].
  cbn in H. split_and!; [lia|done..| |].
  - intros Hp. destruct (Z.eqb_spec prev 0); [done|]. destruct (Z.leb_spec fp prev); [done|lia].
  - destruct (decide (fp + 16 < 2 ^ 64)) as [Hs|Hs]; [left|right; lia].
    rewrite wrap_small in * by (unfold in_u; lia). lia.
Qed.

Section walk.
Context (IsManaged : nat -> Z -> option bool) (mem : Z -> option Z) (stackBase stackEnd : Z).

(** ** The reference walk *)

(** The return addresses of the chain of frame records. *)
Fixpoint chain (fuel : nat) (fp : Z) : list Z :=
  match fuel, mem (u64 (fp + 8)) with
  | S fuel, Some ip =>
    if ip =? 0 then []
    else ip :: match mem fp with
               | Some fp' => if IsValidFp fp' fp stackBase stackEnd then chain fuel fp' else []
               | None => []
               end
  | _, _ => []
  end.

(** The frames that are kept of a list of return addresses: managed ones, a fake frame for
    each unidentified one, and nothing after nine in a row that are not managed. *)
Fixpoint kept (k : nat) (native : Z) (ips : list Z) : list Z :=
  match ips with
  | [] => []
  | ip :: ips =>
    match IsManaged k ip with
    | Some true => ip :: kept (S k) 0 ips
    | None => FakeUnknownIP ::
        (if MaxConsecutiveNativeFrames <? native + 1 then [] else kept (S k) (native + 1) ips)
    | Some false =>
        if MaxConsecutiveNativeFrames <? native + 1 then [] else kept (S k) (native + 1) ips
    end
  end.

(** Words are 64-bit values. *)
Definition words : Prop := forall a v, mem a = Some v -> 0 <= v < 2 ^ 64.

(** Bound on the records behind [fp]: they go up by eight bytes at least, inside of the
    stack except for the last sixteen bytes of the address space. *)
Definition room (fp : Z) : Z :=
  if fp + 16 <=? stackEnd then (stackEnd - fp) / 8 + 2 else (2 ^ 64 - fp) / 8.

Definition on_stack (fp : Z) : Prop :=
  0 < fp < 2 ^ 64 /\ fp mod 8 = 0 /\ stackBase <= fp /\
  (fp + 16 <= stackEnd \/ 2 ^ 64 - 16 <= fp).

Lemma room_decreases fp fp' :
  stackEnd < 2 ^ 64 -> on_stack fp -> on_stack fp' -> fp < fp' -> 0 <= room fp' < room fp.
Proof.
  intros He (H1 & H2 & H3 & H4) (H1' & H2' & H3' & H4') Hlt. unfold room.
  assert (fp + 8 <= fp').
  { apply Z.mod_divide in H2 as [a ->]; [|done]. apply Z.mod_divide in H2' as [b ->]; [|done]. lia. }
  destruct (Z.leb_spec (fp + 16) stackEnd), (Z.leb_spec (fp' + 16) stackEnd).
  - split; [apply Z.add_nonneg_nonneg; [apply Z.div_pos|]; lia|].
    assert ((stackEnd - fp') / 8 < (stackEnd - fp) / 8); [|lia].
    apply Z.lt_le_trans with ((stackEnd - fp' + 1 * 8) / 8); [rewrite Z.div_add by done; lia|].
    apply Z.div_le_mono; lia.
  - assert (0 <= (2 ^ 64 - fp') / 8 <= 2).
    { split; [apply Z.div_pos; lia|]. apply (Z.div_le_mono _ 16 8); lia. }
    assert (2 <= (stackEnd - fp) / 8) by (apply (Z.div_le_mono 16 _ 8); lia). lia.
  - lia.
  - split; [apply Z.div_pos; lia|].
    apply Z.lt_le_trans with ((2 ^ 64 - fp' + 1 * 8) / 8); [rewrite Z.div_add by done; lia|].
    apply Z.div_le_mono; lia.
Qed.

(** *** What a walk did to the frames *)

(** The walk from [w] to [w'] added [l], as far as the buffer had room. *)
Definition walked (w w' : Walk) (l : list Z) : Prop :=
  well_formed (callstack w') /\ length (_buffer (callstack w')) = length (_buffer (callstack w)) /\
  frames (callstack w') = take (length (_buffer (callstack w))) (frames (callstack w) ++ l).

Lemma walked_same w w' :
  well_formed (callstack w) -> callstack w' = callstack w -> walked w w' [].
Proof.
  intros Hw E. unfold walked. rewrite E, app_nil_r. split_and!; [done..|].
  rewrite take_ge; [done|]. pose proof (frames_length _ Hw). unfold well_formed in Hw. lia.
Qed.

Lemma walked_full w w' l :
  well_formed (callstack w) -> callstack w' = callstack w ->
  zlen (_buffer (callstack w)) <= _count (callstack w) -> walked w w' l.
Proof.
  intros Hw E Hf. unfold walked. rewrite E. split_and!; [done..|].
  pose proof (frames_length _ Hw). unfold well_formed in Hw.
  rewrite take_app_le by lia. by rewrite take_ge by lia.
Qed.

Lemma walked_add ip w c w' l r k :
  well_formed (callstack w) -> Add ip (callstack w) = (c, true) ->
  walked (mkWalk c r k) w' l -> walked w w' (ip :: l).
Proof.
  intros Hw E (H1 & H2 & H3). pose proof (Add_spec ip _ Hw) as Ha. rewrite E in Ha.
  destruct Ha as (_ & Hl & Hf & _ & _). cbn [callstack] in *. assert (length (_buffer c) = length (_buffer (callstack w))) as El by lia.
  split_and!; [done|lia|]. by rewrite H3, Hf, El, <- app_assoc.
Qed.

(** Every aligned word of the stack can be read, and no one is a frame pointer so close to
    the end of the address space that adding the size of a frame record wraps around. *)
Definition readable : Prop :=
  forall a, a mod 8 = 0 -> stackBase <= a -> a + 8 <= stackEnd ->
    exists v, mem a = Some v /\ v < 2 ^ 64 - 16.

(** Going to the next frame record. *)
Definition next (fuel : nat) (fp n : Z) (s : Walk) : Walk * res unit :=
  match mem fp with
  | Some v => (if IsValidFp v fp stackBase stackEnd
               then frame_chain IsManaged mem fuel v n stackBase stackEnd else finish InvalidFp) s
  | None => (s, Fault)
  end.

(** One turn of the loop, with its state. *)
Lemma frame_chain_S fuel fp native w :
  frame_chain IsManaged mem (S fuel) fp native stackBase stackEnd w =
  match mem (u64 (fp + 8)) with
  | None => (w, Fault)
  | Some ip =>
    if ip =? 0 then finish Success w
    else
      let s c := mkWalk c (RecordLink FrameChainStep ip fp <$> recorder w) (S (asked w)) in
      let native' s :=
        if MaxConsecutiveNativeFrames <? native + 1 then finish TooManyNativeFrames s
        else next fuel fp (native + 1) s in
      match IsManaged (asked w) ip with
      | Some true =>
        let '(c, ok) := Add ip (callstack w) in if ok then next fuel fp 0 (s c) else full (s c)
      | Some false => native' (s (callstack w))
      | None =>
        let '(c, ok) := Add FakeUnknownIP (callstack w) in if ok then native' (s c) else full (s c)
      end
  end.
Proof.
  cbn [frame_chain]. unfold next, read, mbind, M_bind, mret, M_ret, fault, record, modify, ask, add_frame.
  destruct (mem (u64 (fp + 8))) as [ip|]; [|done]. destruct (ip =? 0); [done|]. cbn [callstack recorder asked].
  destruct (IsManaged (asked w) ip) as [[]|]; cbn [callstack recorder asked].
  - destruct (Add ip (callstack w)) as [c []]; [|done]. by destruct (mem fp).
  - cbn [negb]. destruct (MaxConsecutiveNativeFrames <? native + 1); [done|]. by destruct (mem fp).
  - destruct (Add FakeUnknownIP (callstack w)) as [c []]; [|done]. cbn [negb].
    destruct (MaxConsecutiveNativeFrames <? native + 1); [done|]. by destruct (mem fp).
Qed.

(** The frames behind a record. *)
Definition behind (fuel : nat) (fp : Z) : list Z :=
  match mem fp with
  | Some fp' => if IsValidFp fp' fp stackBase stackEnd then chain fuel fp' else []
  | None => []
  end.

(** The outcome of a walk from [w] that should add [l]. *)
Definition adds (fp : Z) (w : Walk) (l : list Z) (o : Walk * res unit) : Prop :=
  match o with
  | (w', Done _) => walked w w' l
  | (w', Fault) => (exists l, walked w w' l) /\ (fp < 2 ^ 64 - 16 -> ~ readable)
  | _ => False
  end.

Lemma adds_cons fp ip w c r k l o :
  well_formed (callstack w) -> Add ip (callstack w) = (c, true) ->
  adds fp (mkWalk c r k) l o -> adds fp w (ip :: l) o.
Proof.
  intros Hw Ea. destruct o as [w' [[]| | |]]; cbn; [|..|done|done].
  - by apply walked_add.
  - intros [[l' Hl] Hn]. split; [|done]. exists (ip :: l'). by eapply walked_add.
Qed.

Lemma adds_recorded fp w r k l o : adds fp (mkWalk (callstack w) r k) l o -> adds fp w l o.
Proof. by destruct o as [w' [[]| | |]]. Qed.

(** A frame is added, or the buffer is full. *)
Lemma adds_frame fp ip w r k l (next full : Walk -> Walk * res unit) :
  well_formed (callstack w) ->
  (forall c, well_formed c -> adds fp (mkWalk c r k) l (next (mkWalk c r k))) ->
  (forall c, exists w', full (mkWalk c r k) = (w', Done tt) /\ callstack w' = c) ->
  adds fp w (ip :: l)
    (let '(c, ok) := Add ip (callstack w) in if ok then next (mkWalk c r k) else full (mkWalk c r k)).
Proof.
  intros Hw Hn Hf. pose proof (Add_spec ip _ Hw) as Ha.
  destruct (Add ip (callstack w)) as [c []] eqn:Ea; destruct Ha as (Hc & _ & _ & Hok & Hc').
  - eapply adds_cons; [done|done|]. by apply Hn.
  - destruct (Hf c) as (w' & -> & E). apply walked_full; [done|by rewrite E, Hc'|].
    symmetry in Hok. by apply Z.ltb_ge in Hok.
Qed.

Lemma frame_chain_spec fuel fp native w :
  words -> stackEnd < 2 ^ 64 -> on_stack fp -> room fp < Z.of_nat fuel -> well_formed (callstack w) ->
  adds fp w (kept (asked w) native (chain fuel fp))
    (frame_chain IsManaged mem fuel fp native stackBase stackEnd w).
Proof.
  intros Hm He. revert fp native w. induction fuel as [|fuel IH]; intros fp native w Hfp Hfuel Hw.
  { exfalso. destruct Hfp as ((? & ?) & ? & ? & ?). unfold room in Hfuel.
    destruct (Z.leb_spec (fp + 16) stackEnd);
      [pose proof (Z.div_pos (stackEnd - fp) 8)|pose proof (Z.div_pos (2 ^ 64 - fp) 8)]; lia. }
  assert (Htame : fp < 2 ^ 64 - 16 -> readable ->
    (exists v, mem (u64 (fp + 8)) = Some v /\ v < 2 ^ 64 - 16) /\
    exists v, mem fp = Some v /\ v < 2 ^ 64 - 16).
  { intros Ht Hr. destruct Hfp as ((? & ?) & Hal & ? & [?|?]); [|lia].
    rewrite wrap_small by (unfold in_u; lia). split; apply Hr; try lia.
    rewrite <- Zplus_mod_idemp_l, Hal. done. }
  assert (Hnext : forall n s, well_formed (callstack s) ->
    adds fp s (kept (asked s) n (behind fuel fp)) (next fuel fp n s)).
  { intros n s Hs. unfold next, behind. destruct (mem fp) as [v|] eqn:Ev.
    2:{ split; [exists []; by apply walked_same|]. intros Ht Hr.
        destruct (Htame Ht Hr) as [_ (? & ? & _)]. congruence. }
    destruct (IsValidFp v fp stackBase stackEnd) eqn:Ei; [|by apply walked_same].
    apply IsValidFp_spec in Ei as (Hi0 & Hi1 & Hi2 & Hi3 & Hi4); [|by apply (Hm fp)|done].
    pose proof (Hm fp v Ev). assert (Hv : on_stack v) by (unfold on_stack; lia).
    assert (fp < v) by (apply Hi3; unfold on_stack in Hfp; lia).
    pose proof (room_decreases fp v He Hfp Hv ltac:(done)).
    specialize (IH v n s Hv ltac:(lia) Hs).
    destruct (frame_chain _ _ _ _ _ _ _ s) as [w' [[]| | |]]; [done| |done..].
    destruct IH as [Hl IH]. split; [done|]. intros Ht Hr. apply IH; [|done].
    destruct (Htame Ht Hr) as [_ (? & [= <-] & ?)]. done. }
  rewrite frame_chain_S. cbn [chain]. fold (behind fuel fp). destruct (mem (u64 (fp + 8))) as [ip|].
  2:{ split; [exists []; by apply walked_same|]. intros Ht Hr.
      destruct (Htame Ht Hr) as [(? & ? & _) _]. congruence. }
  destruct (ip =? 0); [by apply walked_same|]. cbn [kept].
  destruct (IsManaged (asked w) ip) as [[]|]; cbv zeta.
  - apply adds_frame; [done| |by eexists]. intros c Hc. by apply (Hnext 0 (mkWalk c _ (S (asked w)))).
  - destruct (MaxConsecutiveNativeFrames <? native + 1); [by apply walked_same|].
    eapply adds_recorded, (Hnext (native + 1) (mkWalk (callstack w) _ (S (asked w)))). done.
  - destruct (MaxConsecutiveNativeFrames <? native + 1); (apply adds_frame; [done| |by eexists]); intros c Hc.
    + by apply walked_same.
    + by apply (Hnext (native + 1) (mkWalk c _ (S (asked w)))).
Qed.

Lemma walked_trans w w1 w2 l1 l2 : walked w w1 l1 -> walked w1 w2 l2 -> walked w w2 (l1 ++ l2).
Proof.
  intros (H1 & H2 & H3) (H4 & H5 & H6). split_and!; [done|lia|]. rewrite H6, H3, H2, app_assoc.
  set (n := length _). set (a := frames (callstack w) ++ l1).
  destruct (decide (length a <= n)%nat); [by rewrite (take_ge a) by lia|].
  rewrite !take_app_le by (rewrite ?length_take; lia). by rewrite take_take, Nat.min_id.
Qed.

Lemma walked_wf w w' l : walked w w' l -> well_formed (callstack w').
Proof. by intros (? & _). Qed.

(** ** The whole unwinder *)

Context {cursor context : Type}.
Context (unw_get_reg : cursor -> Register -> Z -> Z * Z).
Context (unw_step : cursor -> Z * cursor).
Context (unw_get_cursor_snapshot : cursor -> CursorSnapshot).
Context (unw_getcontext : Z * context).
Context (unw_init_local2 : context -> bool -> Z * cursor).
Context (UNW_STEP_FALLBACK_LR_NO_PROC_INFO UNW_REG_IP : Z).

Abbreviation native fuel c ip :=
  (UnwindNativeFrames unw_get_reg unw_step unw_get_cursor_snapshot UNW_STEP_FALLBACK_LR_NO_PROC_INFO
     IsManaged fuel c ip).
Abbreviation managed fuel c :=
  (UnwindManagedFrames unw_get_reg UNW_REG_IP IsManaged mem fuel c stackBase stackEnd).

(** The native walk only adds plausible addresses and the mark of an unidentified frame. *)
Definition native_frame (ip : Z) : Prop := ip = UnknownFrameTypeIP \/ MinPlausibleNativeIp <= ip.

Lemma walked_one ip w c ok r k :
  well_formed (callstack w) -> Add ip (callstack w) = (c, ok) -> walked w (mkWalk c r k) [ip].
Proof.
  intros Hw Ea. pose proof (Add_spec ip _ Hw) as Ha. rewrite Ea in Ha. destruct Ha as (Hc & _ & _ & Hok & Hc').
  destruct ok.
  - eapply (walked_add ip w c _ [] r k); [done|done|]. by apply walked_same.
  - apply walked_full; [done|by apply Hc'|]. symmetry in Hok. by apply Z.ltb_ge in Hok.
Qed.

Lemma native_spec fuel c ip w :
  well_formed (callstack w) -> zlen (_buffer (callstack w)) - _count (callstack w) < Z.of_nat fuel ->
  exists w' x l, native fuel c ip w = (w', Done x) /\ walked w w' l /\ Forall native_frame l.
Proof.
  revert c ip w. induction fuel as [|fuel IH]; intros c ip w Hw Hf; [unfold well_formed in Hw; lia|].
  cbn [UnwindNativeFrames]. destruct (unw_get_reg c REG_IP ip) as [getResult ip'].
  destruct (negb (getResult =? 0) || (ip' =? 0));
    [eexists _, _, []; split; [reflexivity|]; split; [by apply walked_same|constructor]|].
  destruct (Z.ltb_spec ip' MinPlausibleNativeIp) as [Hip|Hip];
    [eexists _, _, []; split; [reflexivity|]; split; [by apply walked_same|constructor]|].
  unfold mbind, M_bind, mret, M_ret, ask, record, modify, add_frame, size, gets. cbn [callstack recorder asked].
  destruct (IsManaged (asked w) ip') as [[]|]; cbn [callstack recorder asked].
  - eexists _, _, []; split; [reflexivity|]; split; [by apply walked_same|constructor].
  - pose proof (Add_spec ip' _ Hw) as Ha. destruct (Add ip' (callstack w)) as [cs ok] eqn:Ea.
    destruct Ha as (Hc & Hl & Hfr & Hok & Hc').
    assert (Hone : Forall native_frame [ip']) by (constructor; [by right|constructor]).
    destruct ok; cbn [negb].
    2:{ eexists _, _, [ip']. split; [reflexivity|]. split; [by eapply walked_one|done]. }
    destruct (unw_step c) as [stepResult c'].
    destruct ((stepResult <=? 0) || _).
    { eexists _, _, [ip']. split; [reflexivity|]. split; [by eapply walked_one|done]. }
    cbn [callstack recorder asked].
    match goal with |- exists w' x l, UnwindNativeFrames _ _ _ _ _ _ _ _ ?s = _ /\ _ =>
      destruct (IH c' ip' s Hc) as (w' & x & l & E & Hwk & Hall) end.
    { cbn [callstack]. rewrite Hl. pose proof (frames_length _ Hw) as E1. pose proof (frames_length _ Hc) as E2.
      rewrite Hfr, length_app in E2. cbn in E2. lia. }
    eexists _, _, (ip' :: l). split; [exact E|]. split; [by eapply walked_add|by constructor; [right|]].
  - destruct (Add UnknownFrameTypeIP (callstack w)) as [cs ok] eqn:Ea.
    eexists _, _, [UnknownFrameTypeIP]. split; [reflexivity|]. split; [by eapply walked_one|].
    constructor; [by left|constructor].
Qed.

(** The register of the frame pointer holds a 64-bit value. *)
Definition registers : Prop := forall c, 0 <= (unw_get_reg c REG_FP 0).2 < 2 ^ 64.

Lemma managed_spec fuel c w :
  words -> registers -> stackEnd < 2 ^ 64 -> Z.max 0 ((stackEnd - stackBase) / 8) + 2 < Z.of_nat fuel ->
  well_formed (callstack w) ->
  let ip := (unw_get_reg c REG_IP 0).2 in
  let fp := (unw_get_reg c REG_FP 0).2 in
  adds fp w
    (if negb ((unw_get_reg c REG_IP 0).1 =? 0) || (ip =? 0) then []
     else ip :: (if negb ((unw_get_reg c REG_FP 0).1 =? 0) || negb (IsValidFp fp 0 stackBase stackEnd) then []
                 else kept (asked w) 0 (chain fuel fp)))
    (managed fuel c w).
Proof.
  intros Hm Hr He Hf Hw. specialize (Hr c). unfold UnwindManagedFrames.
  destruct (unw_get_reg c REG_IP 0) as [res ip]. cbn [fst snd].
  destruct (negb (res =? 0) || (ip =? 0)); [by apply walked_same|].
  unfold mbind, M_bind, mret, M_ret, add_frame.
  destruct (Add ip (callstack w)) as [cs ok] eqn:Ea. pose proof (Add_spec ip _ Hw) as Ha. rewrite Ea in Ha.
  destruct Ha as (Hc & _ & _ & Hok & Hc'). destruct ok; cbn [negb].
  2:{ apply walked_full; [done|by apply Hc'|]. symmetry in Hok. by apply Z.ltb_ge in Hok. }
  destruct (unw_get_reg c REG_FP 0) as [res' fp]. cbn [fst snd] in *.
  apply (adds_cons fp ip w cs (recorder w) (asked w)); [done|done|].
  destruct (negb (res' =? 0)); cbn [orb]; [by apply walked_same|].
  destruct (IsValidFp fp 0 stackBase stackEnd) eqn:Ei; cbn [negb]; [|by apply walked_same].
  apply IsValidFp_spec in Ei as (Hi0 & Hi1 & Hi2 & _ & Hi4); [|done..].
  apply (frame_chain_spec fuel fp 0 (mkWalk cs (recorder w) (asked w))); [done|done|by unfold on_stack; lia| |done].
  unfold room. destruct (Z.leb_spec (fp + 16) stackEnd).
  - assert ((stackEnd - fp) / 8 <= (stackEnd - stackBase) / 8) by (apply Z.div_le_mono; lia). lia.
  - assert ((2 ^ 64 - fp) / 8 <= 2) by (apply (Z.div_le_mono _ 16 8); lia). lia.
Qed.

Abbreviation unwind nativeFuel chainFuel ctx :=
  (Unwind unw_get_reg unw_step unw_get_cursor_snapshot unw_getcontext unw_init_local2
     UNW_STEP_FALLBACK_LR_NO_PROC_INFO UNW_REG_IP IsManaged mem nativeFuel chainFuel ctx stackBase stackEnd).

(** What the caller gets: the number of frames, or 0 or -1 with no frame added. *)
Definition returned (w w' : Walk) (n : Z) : Prop :=
  n = Size (callstack w') \/ ((n = 0 \/ n = -1) /\ callstack w' = callstack w).

(** No frame pointer of the walk is within sixteen bytes of the end of the address space. *)
Definition tame : Prop := readable /\ forall c, (unw_get_reg c REG_FP 0).2 < 2 ^ 64 - 16.

Lemma unwind_spec nativeFuel chainFuel ctx w :
  words -> registers -> stackEnd < 2 ^ 64 -> well_formed (callstack w) ->
  zlen (_buffer (callstack w)) < Z.of_nat nativeFuel ->
  Z.max 0 ((stackEnd - stackBase) / 8) + 2 < Z.of_nat chainFuel ->
  match unwind nativeFuel chainFuel ctx w with
  | (w', Done n) => (exists l, walked w w' l) /\ returned w w' n
  | (w', Fault) => (exists l, walked w w' l) /\ ~ tame
  | _ => False
  end.
Proof.
  intros Hm Hr He Hw Hnf Hcf. unfold Unwind, mbind, M_bind, mret, M_ret, record, modify. cbn [callstack recorder asked].
  destruct ((stackBase =? 0) || (stackEnd =? 0));
    [split; [exists []; by apply walked_same|right; split; [by left|done]]|].
  destruct (match ctx with Some context0 => _ | None => _ end) as [[getResult context'] signalFrame].
  destruct (negb (getResult =? 0));
    [split; [exists []; by apply walked_same|right; split; [by right|done]]|].
  destruct (unw_init_local2 context' signalFrame) as [initResult c]. cbn [callstack recorder asked].
  destruct (negb (initResult =? 0));
    [split; [exists []; by apply walked_same|right; split; [by right|done]]|].
  set (w0 := mkWalk (callstack w) _ (asked w)).
  destruct (native_spec nativeFuel c 0 w0) as (w1 & [b c'] & l & E & Hwk & _);
    [done|cbn; unfold well_formed in Hw; lia|]. rewrite E.
  assert (Hwk' : walked w w1 l) by exact Hwk.
  destruct b; cbn [negb]; [|split; [by exists l|by left]].
  assert (Hlen : length (_buffer (callstack w1)) = length (_buffer (callstack w))) by (by destruct Hwk' as (_ & ? & _)).
  pose proof (managed_spec chainFuel c' w1 Hm Hr He Hcf (walked_wf _ _ _ Hwk')) as Ha. cbv zeta in Ha.
  destruct (UnwindManagedFrames _ _ _ _ _ _ _ _ w1) as [w2 [[]| | |]]; cbn [adds] in Ha; [|..|done|done].
  - split; [|by left]. eexists. by eapply walked_trans.
  - destruct Ha as [[l' Hl] Hn]. split; [eexists; by eapply walked_trans|].
    intros [Hread Hreg]. by apply (Hn (Hreg c')).
Qed.
End walk.

(** ** Properties *)

(** C9: the unwinder always returns, or crashes: whatever libunwind, the code cache and the
    memory hold, the native walk stops at the latest when the buffer is full, the chain of
    frame records ends since valid frame pointers only go up inside of the stack, and no
    frame is written outside of the buffer nor over the earlier ones.  It does not crash when
    the words of the stack can be read and no frame pointer lies within sixteen bytes of the
    end of the address space.  The fuel needed is the size of the buffer and the number of
    words of the stack. *)
Theorem unwind_returns {cursor context : Type} (unw_get_reg : cursor -> Register -> Z -> Z * Z)
    unw_step unw_get_cursor_snapshot (unw_getcontext : Z * context) unw_init_local2 fallback reg_ip
    IsManaged mem stackBase stackEnd nativeFuel chainFuel ctx w :
  words mem -> registers unw_get_reg -> stackEnd < 2 ^ 64 -> well_formed (callstack w) ->
  zlen (_buffer (callstack w)) < Z.of_nat nativeFuel ->
  Z.max 0 ((stackEnd - stackBase) / 8) + 2 < Z.of_nat chainFuel ->
  match Unwind unw_get_reg unw_step unw_get_cursor_snapshot unw_getcontext unw_init_local2 fallback reg_ip
          IsManaged mem nativeFuel chainFuel ctx stackBase stackEnd w with
  | (w', Done n) =>
      returned w w' n /\ well_formed (callstack w') /\ frames (callstack w) `prefix_of` frames (callstack w') /\
      length (_buffer (callstack w')) = length (_buffer (callstack w))
  | (w', Fault) =>
      ~ tame mem stackBase stackEnd unw_get_reg /\ well_formed (callstack w') /\
      frames (callstack w) `prefix_of` frames (callstack w')
  | _ => False
  end.
Proof.
  intros Hm Hr He Hw Hnf Hcf.
  assert (Hpre : forall w' l, walked w w' l -> frames (callstack w) `prefix_of` frames (callstack w')).
  { intros w' l (_ & _ & ->). pose proof (frames_length _ Hw). unfold well_formed in Hw.
    rewrite take_app_ge by lia. by eexists. }
  pose proof (unwind_spec IsManaged mem stackBase stackEnd unw_get_reg unw_step unw_get_cursor_snapshot
    unw_getcontext unw_init_local2 fallback reg_ip nativeFuel chainFuel ctx w Hm Hr He Hw Hnf Hcf) as Hs.
  destruct (Unwind _ _ _ _ _ _ _ _ _ _ _ _ _ _ w) as [w' [n| | |]]; [|..|done|done].
  - destruct Hs as [[l Hl] Hn]. pose proof Hl as (? & ? & _). split_and!; [done..|by eapply Hpre|done].
  - destruct Hs as [[l Hl] Hn]. pose proof Hl as (? & _ & _). split_and!; [done..|by eapply Hpre].
Qed.

(** C34: on a stack that can be read, the managed part of a walk appends to the frames, up to
    the capacity of the buffer, exactly the reference list: the interrupted method, then
    along the chain of frame records the managed return addresses and a fake frame for each
    unidentified one, until nine in a row are not managed. *)
Theorem managed_frames_reference {cursor : Type} (unw_get_reg : cursor -> Register -> Z -> Z * Z) reg_ip
    IsManaged mem stackBase stackEnd fuel c w :
  words mem -> registers unw_get_reg -> stackEnd < 2 ^ 64 -> well_formed (callstack w) ->
  Z.max 0 ((stackEnd - stackBase) / 8) + 2 < Z.of_nat fuel ->
  tame mem stackBase stackEnd unw_get_reg ->
  let ip := (unw_get_reg c REG_IP 0).2 in
  let fp := (unw_get_reg c REG_FP 0).2 in
  (unw_get_reg c REG_IP 0).1 = 0 -> ip <> 0 -> (unw_get_reg c REG_FP 0).1 = 0 ->
  IsValidFp fp 0 stackBase stackEnd = true ->
  exists w', UnwindManagedFrames unw_get_reg reg_ip IsManaged mem fuel c stackBase stackEnd w = (w', Done tt) /\
    frames (callstack w') =
      take (length (_buffer (callstack w)))
        (frames (callstack w) ++ ip :: kept IsManaged (asked w) 0 (chain mem stackBase stackEnd fuel fp)).
Proof.
  intros Hm Hr He Hw Hf [Hread Hreg] ip fp E1 E2 E3 E4.
  pose proof (managed_spec IsManaged mem stackBase stackEnd unw_get_reg reg_ip fuel c w Hm Hr He Hf Hw) as Ha.
  cbv zeta in Ha. fold ip fp in Ha. rewrite E1, E3, E4, (proj2 (Z.eqb_neq _ _) E2) in Ha. cbn [negb orb] in Ha.
  destruct (UnwindManagedFrames _ _ _ _ _ _ _ _ w) as [w' [[]| | |]]; cbn [adds] in Ha; [|..|done|done].
  - exists w'. split; [done|]. by destruct Ha as (_ & _ & ?).
  - destruct Ha as [_ Hn]. exfalso. by apply (Hn (Hreg c)).
Qed.

(** ** Examples *)

Module Example_unwind.
(** A stack of three frame records at 0x1000, 0x1020 and 0x1040, the last with no return
    address; code below 0x9000 is native. *)
Definition mem (a : Z) : option Z :=
  if (0x1000 <=? a) && (a <? 0x1100) then
    Some (if a =? 0x1000 then 0x1020 else if a =? 0x1008 then 0xA010
          else if a =? 0x1020 then 0x1040 else if a =? 0x1028 then 0x8020 else 0)
  else None.
Definition get_reg (c : unit) (r : Register) (before : Z) : Z * Z :=
  (0, match r with REG_IP => 0xA000 | REG_FP => 0x1000 | REG_SP => 0xFF0 end).
Definition snapshot (c : unit) : CursorSnapshot := mkSnapshot 0 0 0 0 0 0 0 0 0 0 0.
Definition step (c : unit) : Z * unit := (1, tt).
Definition init (ctx : unit) (signalFrame : bool) : Z * unit := (0, tt).
Definition is_managed (k : nat) (ip : Z) : option bool := Some (0x9000 <=? ip).
Definition no_event : TraceEvent := mkEvent Start Success 0 0 0 0 (snapshot tt).
Definition fresh (n : nat) : Walk :=
  mkWalk (mkCallstack (replicate n 0) 0) (Some (mkRecorder (replicate 4 no_event) 0)) 0.
Definition walk (n : nat) : Walk * res Z :=
  Unwind get_reg step snapshot (0, tt) init 7 30 is_managed mem (S n) 40 (Some tt) 0x1000 0x1100 (fresh n).

Example walk_frames : frames (callstack (walk 4).1) = [0xA000; 0xA010] /\ (walk 4).2 = Done 2.
Proof. by vm_compute. Qed.

(** A buffer of one frame: the recorder is told of the full buffer, then of a success. *)
Definition one_frame : Walk * res unit :=
  UnwindManagedFrames get_reg 30 is_managed mem 40 tt 0x1000 0x1100 (fresh 1).
Example full_buffer_recorded_twice :
  option_map (fun r => map (fun e => (eventType e, finishReason e)) (recorded r)) (recorder one_frame.1) =
    Some [(FrameChainStep, Success); (Finish, BufferFull); (Finish, Success)].
Proof. by vm_compute. Qed.

(** A frame pointer at the end of the address space passes for valid on any stack. *)
Example wild_frame_pointer_accepted : IsValidFp (2 ^ 64 - 16) 0x1000 0x1000 0x1100 = true.
Proof. reflexivity. Qed.

Lemma mem_words : words mem.
Proof.
  intros a v. unfold mem. destruct (_ && _); [|done]. intros [= <-]. repeat case_if; lia.
Qed.
Lemma mem_readable : readable mem 0x1000 0x1100.
Proof.
  intros a _ H1 H2. unfold mem. rewrite (proj2 (Z.leb_le _ _)), (proj2 (Z.ltb_lt _ _)) by lia. cbn [andb].
  eexists. split; [done|]. repeat case_if; lia.
Qed.
End Example_unwind.

Lemma unwind_returns_witness :
  well_formed (callstack (Example_unwind.walk 4).1) /\ (Example_unwind.walk 4).2 = Done 2.
Proof.
  split; [|by vm_compute].
  pose proof (unwind_returns Example_unwind.get_reg Example_unwind.step Example_unwind.snapshot (0, tt)
    Example_unwind.init 7 30 Example_unwind.is_managed Example_unwind.mem 0x1000 0x1100 5 40 (Some tt)
    (Example_unwind.fresh 4) Example_unwind.mem_words ltac:(intros []; cbn; lia) ltac:(lia)
    ltac:(by vm_compute) ltac:(by vm_compute) ltac:(by vm_compute)) as H.
  unfold Example_unwind.walk. destruct (Unwind _ _ _ _ _ _ _ _ _ _ _ _ _ _ _) as [w' [n| | |]];
    [apply H|apply H|done|done].
Defined.

Lemma managed_frames_reference_witness :
  exists w', UnwindManagedFrames Example_unwind.get_reg 30 Example_unwind.is_managed Example_unwind.mem 40 tt
      0x1000 0x1100 (Example_unwind.fresh 4) = (w', Done tt) /\
    frames (callstack w') = [0xA000; 0xA010].
Proof.
  destruct (managed_frames_reference Example_unwind.get_reg 30 Example_unwind.is_managed Example_unwind.mem
    0x1000 0x1100 40 tt (Example_unwind.fresh 4) Example_unwind.mem_words ltac:(intros []; cbn; lia) ltac:(lia)
    ltac:(by vm_compute) ltac:(by vm_compute)) as (w' & E & Hf).
  - split; [apply Example_unwind.mem_readable|]. intros []. cbn. lia.
  - reflexivity.
  - discriminate.
  - reflexivity.
  - reflexivity.
  - exists w'. split; [exact E|]. rewrite Hf. reflexivity.
Defined.
