(* ===== verification/StackCapture.v ===== *)
(** * Interrupting a thread to collect its stack

    Model of [ProfilerSignalManager.cpp], which installs, watches and chains the handler of
    the profiling signal, and of [LinuxStackFramesCollector.cpp] with its base class
    [StackFramesCollectorBase.cpp]: the sampling thread sends the signal to a thread and
    waits on a condition variable, the handler walks the stack of the thread it runs on,
    and the result is handed back through the shared collector.

    The collector is a system of the sampling thread and of the handlers that run on the
    other threads; each action is one step between two synchronisations.  The kernel may
    deliver foreign signals at any time, the wait may time out or wake up spuriously. *)
From stdpp Require Import base list sets.
From S2P Require Import Prelude.

(** ** The signal handler and its registration *)

Definition SIG_DFL : Z := 0.
Definition SIG_IGN : Z := 1.
Definition SA_SIGINFO : Z := 4.
Definition SA_RESTART : Z := 0x10000000.

(** [struct sigaction]: [sa_handler] and [sa_sigaction] are the same word. *)
Record Action := mkAction { sa_flags : Z; sa_sigaction : Z }.

#[export] Instance Action_eq_dec : EqDecision Action.
Proof. solve_decision. Defined.

(** [None] in [_handler] is the null pointer.  The action of the signal in the kernel is
    part of the state. *)
Record ProfilerSignalManager := mkManager {
  _canReplaceSignalHandler : bool;
  _handler : option Z;
  _isHandlerInPlace : bool;
  _previousAction : Action;
  kernel_action : Action
}.

Definition new_manager (a : Action) : ProfilerSignalManager :=
  mkManager true None false (mkAction 0 0) a.

Section manager.
(** The address of [ProfilerSignalManager::SignalHandler]. *)
Context (SignalHandler : Z).

Definition profiler_action : Action := mkAction (Z.lor SA_RESTART SA_SIGINFO) SignalHandler.

Definition IsProfilerSignalHandlerInstalled (m : ProfilerSignalManager) : bool :=
  (Z.land (sa_flags (kernel_action m)) SA_SIGINFO =? SA_SIGINFO) &&
  (sa_sigaction (kernel_action m) =? SignalHandler).

(** [ok]: the system call succeeds. *)
Definition SetupSignalHandler (ok : bool) (m : ProfilerSignalManager) : ProfilerSignalManager * bool :=
  if negb ok then (m, false)
  else
    let oldAction := kernel_action m in
    let previous := if negb (sa_sigaction oldAction =? SIG_IGN) then oldAction else _previousAction m in
    (mkManager (_canReplaceSignalHandler m) (_handler m) (_isHandlerInPlace m) previous profiler_action, true).

Definition set_in_place (b : bool) (m : ProfilerSignalManager) : ProfilerSignalManager :=
  mkManager (_canReplaceSignalHandler m) (_handler m) b (_previousAction m) (kernel_action m).

Definition RegisterHandler (handler : Z) (ok : bool) (m : ProfilerSignalManager) :
    ProfilerSignalManager * bool :=
  match _handler m, _isHandlerInPlace m with
  | Some current, true => (m, current =? handler)
  | _, _ =>
    let '(m, inPlace) := SetupSignalHandler ok m in
    let m := set_in_place inPlace m in
    (mkManager (_canReplaceSignalHandler m) (if inPlace then Some handler else _handler m)
       (_isHandlerInPlace m) (_previousAction m) (kernel_action m), inPlace)
  end.

Definition UnRegisterHandler (ok : bool) (m : ProfilerSignalManager) : ProfilerSignalManager * bool :=
  if negb (IsProfilerSignalHandlerInstalled m) then (m, false)
  else if negb ok then (m, false)
  else (mkManager (_canReplaceSignalHandler m) (_handler m) false (_previousAction m) (_previousAction m), true).

Definition IgnoreSignal (ok : bool) (m : ProfilerSignalManager) : ProfilerSignalManager * bool :=
  if negb ok then (m, false)
  else (mkManager (_canReplaceSignalHandler m) (_handler m) false (_previousAction m) (mkAction 0 SIG_IGN), true).

Definition CheckSignalHandler (ok : bool) (m : ProfilerSignalManager) : ProfilerSignalManager * bool :=
  if negb (_canReplaceSignalHandler m) then (set_in_place false m, false)
  else if IsProfilerSignalHandlerInstalled m then (m, true)
  else
    let '(m, inPlace) := SetupSignalHandler ok m in
    (mkManager false (_handler m) inPlace (_previousAction m) (kernel_action m), inPlace).

(** *** Delivery of a signal *)

(** What runs during the delivery: the custom handler, the previous one, or its
    call back into the profiler's handler. *)
Inductive ran := Custom (handler : Z) | Previous (handler : Z) (siginfo : bool).

Definition is_previous (r : ran) : bool := match r with Previous _ _ => true | Custom _ => false end.

(** What a handler address does: the custom handler accepts the signal or not, and the
    previous handler may itself call the profiler's handler. *)
Context (accepts : Z -> bool) (calls_back : Z -> bool).

Definition CallCustomHandler (m : ProfilerSignalManager) : list ran * bool :=
  match _handler m with
  | Some h => ([Custom h], accepts h)
  | None => ([], false)
  end.

(** [isExecuting] is thread-local; [fuel] bounds the nesting of handlers. *)
Fixpoint DeliverSignal (fuel : nat) (isExecuting : bool) (m : ProfilerSignalManager) : option (list ran) :=
  match fuel with
  | O => None
  | S fuel =>
    let '(custom, success) := CallCustomHandler m in
    if success : bool then Some custom
    else if isExecuting then Some custom
    else
      let a := _previousAction m in
      let call siginfo :=
        nested ← (if calls_back (sa_sigaction a) then DeliverSignal fuel true m else Some []);
        Some (custom ++ Previous (sa_sigaction a) siginfo :: nested) in
      if (Z.land (sa_flags a) SA_SIGINFO =? SA_SIGINFO) && negb (sa_sigaction a =? 0) then call true
      else if negb (sa_sigaction a =? SIG_DFL) && negb (sa_sigaction a =? SIG_IGN) then call false
      else Some custom
  end.

(** [ProfilerSignalManager::SignalHandler]: only the standard signals have a manager. *)
Definition OnSignal (fuel : nat) (signal : Z) (isExecuting : bool) (m : ProfilerSignalManager) :
    option (list ran) :=
  if (signal <? 1) || (31 <? signal) then Some [] else DeliverSignal fuel isExecuting m.
End manager.

(** ** The collector *)

Definition S_OK : Z := 0.
Definition E_FAIL : Z := i32 0x80004005.
Definition E_ABORT : Z := i32 0x80004004.

(** The reasons for which the collector discards a signal or a walk. *)
Inductive DiscardReason :=
| InSegvHandler | InsideWrappedFunction | ExternalSignal | UnknownThread | WrongManagedThread | EmptyBacktrace.

(** What a handler is called with: whether the signal comes from this process, whether the
    thread was handling a segmentation fault, or was inside of a wrapped function. *)
Record Siginfo := mkSiginfo { from_self : bool; segv_blocked : bool; inside_wrapped : bool }.

(** How the unwinder ends: the number of frames it returns, or an exception. *)
Inductive walk_end := Walked (count : Z) | Threw.

Definition CollectStack (count : Z) : Z * list DiscardReason :=
  if count =? 0 then (E_FAIL, [EmptyBacktrace]) else (S_OK, []).

Definition CollectCallStackCurrentThread (info : Siginfo) (e : walk_end) : Z * list DiscardReason :=
  if inside_wrapped info then (E_ABORT, [InsideWrappedFunction])
  else match e with
  | Walked count => CollectStack count
  | Threw => (E_ABORT, [])
  end.

(** Where the sampling thread is: between collections; with a thread to collect; with the
    lock; with the collector published; waiting for the notification; out of the wait and
    waiting for the lock; with the lock again. *)
Inductive spc :=
| SIdle | SPrepared | SLocked | SArmed | SWaiting | SWaking (timeout : bool) | SWoken (timeout : bool).

(** Where the handler that runs on a thread is. *)
Inductive hpc :=
| HNone
| HEntered (f : Siginfo)              (* before s_pInstanceCurrentlyStackWalking is read *)
| HLocking (f : Siginfo)
| HLocked (f : Siginfo)
| HWalked (errorCode : Z)             (* the walk is done, the lock is still held *)
| HUnlocked (errorCode : Z)
| HStored.                            (* before notify_one *)

Inductive owner := Sampler | HandlerOf (t : nat).

#[export] Instance owner_eq_dec : EqDecision owner.
Proof. solve_decision. Defined.

(** What a collection returned: the thread, the result, and the walk in the buffer, that is
    the thread that wrote the frames and its error code. *)
Record Result := mkResult { r_thread : nat; r_hr : Z; r_buffer : option (nat * Z) }.

Record World := mkWorld {
  w_mutex : option owner;             (* s_stackWalkInProgressMutex *)
  w_instance : bool;                  (* s_pInstanceCurrentlyStackWalking is set *)
  w_target : option nat;              (* _pCurrentCollectionThreadInfo *)
  _lastStackWalkErrorCode : Z;
  _stackWalkFinished : bool;
  w_buffer : option (nat * Z);        (* the walk in _pStackSnapshotResult *)
  w_sampler : spc;
  w_handlers : list hpc;              (* one per thread *)
  w_pending : list bool;              (* a profiling signal of this process is pending *)
  w_interrupted : list nat;           (* threads marked as interrupted *)
  w_discards : list DiscardReason;
  w_results : list Result
}.

Inductive action :=
| ABegin (t : nat)                    (* PrepareForNextCollection, CollectStackSample *)
| AUnavailable                        (* no handler in place *)
| ALock | AArm
| ASend (ok : bool)
| ATimeout | ASpurious
| AReacquire
| AFinish (checked : bool)            (* the answer of CheckSignalHandler after a timeout *)
| ASignal (t : nat) (f : Siginfo)     (* the kernel runs the handler on a thread *)
| AEnter (t : nat) | AHLock (t : nat)
| ACollect (t : nat) (e : walk_end)
| AUnlock (t : nat) | AStore (t : nat) | ANotify (t : nat).

Definition sampler_to (p : spc) (w : World) : World :=
  mkWorld (w_mutex w) (w_instance w) (w_target w) (_lastStackWalkErrorCode w) (_stackWalkFinished w) (w_buffer w)
    p (w_handlers w) (w_pending w) (w_interrupted w) (w_discards w) (w_results w).
Definition handler_to (t : nat) (p : hpc) (w : World) : World :=
  mkWorld (w_mutex w) (w_instance w) (w_target w) (_lastStackWalkErrorCode w) (_stackWalkFinished w) (w_buffer w)
    (w_sampler w) (<[t := p]> (w_handlers w)) (w_pending w) (w_interrupted w) (w_discards w) (w_results w).
Definition with_mutex (o : option owner) (w : World) : World :=
  mkWorld o (w_instance w) (w_target w) (_lastStackWalkErrorCode w) (_stackWalkFinished w) (w_buffer w)
    (w_sampler w) (w_handlers w) (w_pending w) (w_interrupted w) (w_discards w) (w_results w).
Definition with_error (e : Z) (finished : bool) (w : World) : World :=
  mkWorld (w_mutex w) (w_instance w) (w_target w) e finished (w_buffer w)
    (w_sampler w) (w_handlers w) (w_pending w) (w_interrupted w) (w_discards w) (w_results w).
Definition with_pending (l : list bool) (w : World) : World :=
  mkWorld (w_mutex w) (w_instance w) (w_target w) (_lastStackWalkErrorCode w) (_stackWalkFinished w) (w_buffer w)
    (w_sampler w) (w_handlers w) l (w_interrupted w) (w_discards w) (w_results w).

(** The end of [CollectStackSample]: the collector is withdrawn, the lock released, the
    thread forgotten, and the result returned. *)
Definition return_result (hr : Z) (w : World) : World :=
  mkWorld None false None (_lastStackWalkErrorCode w) (_stackWalkFinished w) (w_buffer w) SIdle
    (w_handlers w) (w_pending w) (w_interrupted w) (w_discards w)
    (w_results w ++ [mkResult (default 0%nat (w_target w)) hr (w_buffer w)]).

Definition hr_of (errorCode : Z) : Z := if errorCode =? 0 then S_OK else E_FAIL.

(** [CanCollect]: the reason not to collect, if any. *)
Definition CanCollect (t : nat) (f : Siginfo) (w : World) : option DiscardReason :=
  if segv_blocked f then Some InSegvHandler
  else match w_target w with
  | None => Some UnknownThread
  | Some target =>
    if negb (Nat.eqb target t) then Some WrongManagedThread
    else if negb (from_self f) then Some ExternalSignal
    else None
  end.

(** The part of the handler under the lock, up to the end of the walk or of the refusal. *)
Definition collect (t : nat) (f : Siginfo) (e : walk_end) (w : World) : World :=
  let release d := handler_to t HNone (with_mutex None
    (mkWorld (w_mutex w) (w_instance w) (w_target w) (_lastStackWalkErrorCode w) (_stackWalkFinished w)
       (w_buffer w) (w_sampler w) (w_handlers w) (w_pending w)
       (if w_instance w then w_interrupted w ++ option_list (w_target w) else w_interrupted w)
       (w_discards w ++ d) (w_results w))) in
  if negb (w_instance w) then release []
  else match CanCollect t f w with
  | Some d => release [d]
  | None =>
    let '(errorCode, d) := CollectCallStackCurrentThread f e in
    handler_to t (HWalked errorCode)
      (mkWorld (w_mutex w) (w_instance w) (w_target w) (_lastStackWalkErrorCode w) (_stackWalkFinished w)
         (Some (t, errorCode)) (w_sampler w) (w_handlers w) (w_pending w)
         (w_interrupted w ++ option_list (w_target w)) (w_discards w ++ d) (w_results w))
  end.

Definition step (w : World) (a : action) : option World :=
  match a with
  | ABegin t =>
    match w_sampler w, w_handlers w !! t with
    | SIdle, Some _ =>
      Some (mkWorld (w_mutex w) (w_instance w) (Some t) (_lastStackWalkErrorCode w) (_stackWalkFinished w) None
              SPrepared (w_handlers w) (w_pending w) (w_interrupted w) (w_discards w) (w_results w))
    | _, _ => None
    end
  | AUnavailable =>
    match w_sampler w with
    | SPrepared =>
      Some (mkWorld (w_mutex w) (w_instance w) None (_lastStackWalkErrorCode w) (_stackWalkFinished w) (w_buffer w)
              SIdle (w_handlers w) (w_pending w) (w_interrupted w) (w_discards w)
              (w_results w ++ [mkResult (default 0%nat (w_target w)) E_FAIL (w_buffer w)]))
    | _ => None
    end
  | ALock =>
    match w_sampler w, w_mutex w with
    | SPrepared, None => Some (sampler_to SLocked (with_mutex (Some Sampler) w))
    | _, _ => None
    end
  | AArm =>
    match w_sampler w with
    | SLocked =>
      Some (mkWorld (w_mutex w) true (w_target w) (_lastStackWalkErrorCode w) false (w_buffer w) SArmed
              (w_handlers w) (w_pending w) (w_interrupted w) (w_discards w) (w_results w))
    | _ => None
    end
  | ASend ok =>
    match w_sampler w, w_target w with
    | SArmed, Some t =>
      if ok
      then Some (sampler_to SWaiting (with_mutex None (with_pending (<[t := true]> (w_pending w)) w)))
      else Some (return_result (hr_of (-1)) w)
    | _, _ => None
    end
  | ATimeout => match w_sampler w with SWaiting => Some (sampler_to (SWaking true) w) | _ => None end
  | ASpurious => match w_sampler w with SWaiting => Some (sampler_to (SWaking false) w) | _ => None end
  | AReacquire =>
    match w_sampler w, w_mutex w with
    | SWaking timeout, None => Some (sampler_to (SWoken timeout) (with_mutex (Some Sampler) w))
    | _, _ => None
    end
  | AFinish checked =>
    match w_sampler w with
    | SWoken true =>
      if checked : bool
      then Some (return_result (hr_of E_ABORT) (with_error E_ABORT (_stackWalkFinished w) w))
      else Some (return_result E_FAIL (with_error E_FAIL (_stackWalkFinished w) w))
    | SWoken false => Some (return_result (hr_of (_lastStackWalkErrorCode w)) w)
    | _ => None
    end
  | ASignal t f =>
    match w_handlers w !! t, w_pending w !! t with
    | Some HNone, Some p =>
      if from_self f then
        if (p : bool) then Some (handler_to t (HEntered f) (with_pending (<[t := false]> (w_pending w)) w)) else None
      else Some (handler_to t (HEntered f) w)
    | _, _ => None
    end
  | AEnter t =>
    match w_handlers w !! t with
    | Some (HEntered f) =>
      Some (handler_to t (if w_instance w then HLocking f else HNone) w)
    | _ => None
    end
  | AHLock t =>
    match w_handlers w !! t, w_mutex w with
    | Some (HLocking f), None => Some (handler_to t (HLocked f) (with_mutex (Some (HandlerOf t)) w))
    | _, _ => None
    end
  | ACollect t e =>
    match w_handlers w !! t with
    | Some (HLocked f) => Some (collect t f e w)
    | _ => None
    end
  | AUnlock t =>
    match w_handlers w !! t with
    | Some (HWalked e) => Some (handler_to t (HUnlocked e) (with_mutex None w))
    | _ => None
    end
  | AStore t =>
    match w_handlers w !! t with
    | Some (HUnlocked e) => Some (handler_to t HStored (with_error e true w))
    | _ => None
    end
  | ANotify t =>
    match w_handlers w !! t with
    | Some HStored =>
      Some (handler_to t HNone
        (match w_sampler w with SWaiting => sampler_to (SWaking false) w | _ => w end))
    | _ => None
    end
  end.

Fixpoint run (w : World) (actions : list action) : option World :=
  match actions with
  | [] => Some w
  | a :: actions => w ← step w a; run w actions
  end.

Definition start (threads : nat) : World :=
  mkWorld None false None 0 false None SIdle (replicate threads HNone) (replicate threads false) [] [] [].

(** ** Invariants *)

Definition sampler_holds (p : spc) : bool :=
  match p with SLocked | SArmed | SWoken _ => true | _ => false end.
Definition published (p : spc) : bool :=
  match p with SArmed | SWaiting | SWaking _ | SWoken _ => true | _ => false end.
Definition blocked (p : spc) : bool :=
  match p with SWaiting | SWaking _ => true | _ => false end.
Definition busy (p : spc) : bool := match p with SIdle => false | _ => true end.
Definition handler_holds (h : hpc) : bool :=
  match h with HLocked _ | HWalked _ => true | _ => false end.

Record safe (w : World) : Prop := {
  s_sampler : sampler_holds (w_sampler w) = true <-> w_mutex w = Some Sampler;
  s_handlers : forall t h, w_handlers w !! t = Some h ->
    handler_holds h = true <-> w_mutex w = Some (HandlerOf t);
  s_published : w_instance w = published (w_sampler w);
  s_target : busy (w_sampler w) = true <-> is_Some (w_target w);
  s_walked : forall t e, w_handlers w !! t = Some (HWalked e) ->
    w_target w = Some t /\ w_buffer w = Some (t, e) /\ blocked (w_sampler w) = true;
  s_buffer : forall t e, w_buffer w = Some (t, e) -> busy (w_sampler w) = true -> w_target w = Some t;
  s_results : Forall (fun r => forall t e, r_buffer r = Some (t, e) -> t = r_thread r) (w_results w)
}.

Lemma lookup_handler (l : list hpc) t p u h :
  <[t := p]> l !! u = Some h -> (u = t /\ h = p) \/ (u <> t /\ l !! u = Some h).
Proof.
  destruct (decide (t = u)) as [->|Hne].
  - intros H. left. split; [done|]. assert (u < length l)%nat.
    { apply lookup_lt_Some in H. by rewrite length_insert in H. }
    rewrite list_lookup_insert_eq in H by done. congruence.
  - rewrite list_lookup_insert_ne by done. right. split; [congruence|done].
Qed.

(** The handler of another thread is left where it is. *)
Ltac handlers :=
  repeat match goal with
  | H : <[_ := _]> _ !! _ = Some _ |- _ => apply lookup_handler in H as [[? ?]|[? H]]; [subst|]
  end.

Lemma start_safe n : safe (start n).
Proof.
  split; cbn; try done.
  - intros t h [-> _]%lookup_replicate. done.
  - intros t e [? _]%lookup_replicate. done.
Qed.

Lemma safe_return hr w :
  safe w -> w_mutex w = Some Sampler -> safe (return_result hr w).
Proof.
  intros [H1 H2 H3 H4 H5 H6 H7] Hm. split; cbn; try done.
  - intros t h Hh. rewrite (H2 t h Hh), Hm. done.
  - intros t e Hh. apply (H2 t _) in Hh as [Hh _]. cbn in Hh. specialize (Hh eq_refl). congruence.
  - apply Forall_app. split; [done|]. constructor; [|constructor]. cbn. intros t e Hb.
    rewrite (H6 t e Hb); [done|]. destruct (w_sampler w); try done. cbn in H1. naive_solver.
Qed.

Lemma safe_with_error e b w : safe w -> safe (with_error e b w).
Proof. by intros []. Qed.

Lemma safe_with_pending l w : safe w -> safe (with_pending l w).
Proof. by intros []. Qed.

(** A handler that does not hold the lock before or after the step. *)
Lemma safe_handler t h p w :
  safe w -> w_handlers w !! t = Some h -> handler_holds h = false -> handler_holds p = false ->
  safe (handler_to t p w).
Proof.
  intros [H1 H2 H3 H4 H5 H6 H7] Ht Hh Hp. split; cbn; try done.
  - intros u h' Hu. handlers; [|by apply H2]. rewrite Hp, <- (H2 t h Ht), Hh. done.
  - intros u e Hu. handlers; [done|by apply H5].
Qed.

(** A handler releases the lock. *)
Lemma safe_release t h p w :
  safe w -> w_handlers w !! t = Some h -> handler_holds h = true -> handler_holds p = false ->
  safe (handler_to t p (with_mutex None w)).
Proof.
  intros [H1 H2 H3 H4 H5 H6 H7] Ht Hh Hp. pose proof (proj1 (H2 t h Ht) Hh) as Hm. split; cbn; try done.
  - rewrite H1, Hm. done.
  - intros u h' Hu. handlers; [by rewrite Hp|]. rewrite (H2 u h') by done. rewrite Hm. naive_solver.
  - intros u e Hu. handlers; [done|]. by apply H5.
Qed.

(** A step of the sampling thread that neither takes nor releases the lock. *)
Lemma safe_sampler p w :
  safe w -> sampler_holds p = sampler_holds (w_sampler w) -> published p = published (w_sampler w) ->
  busy p = busy (w_sampler w) -> (blocked (w_sampler w) = true -> blocked p = true) -> safe (sampler_to p w).
Proof.
  intros [H1 H2 H3 H4 H5 H6 H7] E1 E2 E3 E4. split; cbn; try done.
  - by rewrite E1.
  - by rewrite E2.
  - by rewrite E3.
  - intros t e Hh. destruct (H5 t e Hh) as (? & ? & ?). auto.
  - rewrite E3. done.
Qed.

(** The sampling thread takes the lock. *)
Lemma safe_acquire p w :
  safe w -> w_mutex w = None -> sampler_holds p = true -> published p = published (w_sampler w) ->
  busy (w_sampler w) = true -> busy p = true -> safe (sampler_to p (with_mutex (Some Sampler) w)).
Proof.
  intros [H1 H2 H3 H4 H5 H6 H7] Hm E1 E2 E3 E4. split; cbn; try done.
  - intros t h Hh. rewrite (H2 t h Hh), Hm. done.
  - by rewrite E2.
  - by rewrite E4, <- H4, E3.
  - intros t e Hh. apply (H2 t _) in Hh as [Hh _]. cbn in Hh. specialize (Hh eq_refl). congruence.
  - intros t e Hb _. by apply (H6 t e).
Qed.

Lemma safe_collect t f e w :
  safe w -> w_handlers w !! t = Some (HLocked f) -> safe (collect t f e w).
Proof.
  intros Hs Ht. unfold collect.
  assert (Hrel : forall i d, safe (handler_to t HNone (with_mutex None
    (mkWorld (w_mutex w) (w_instance w) (w_target w) (_lastStackWalkErrorCode w) (_stackWalkFinished w)
       (w_buffer w) (w_sampler w) (w_handlers w) (w_pending w) i (w_discards w ++ d) (w_results w))))).
  { intros i d. eapply safe_release; [by destruct Hs|exact Ht|done|done]. }
  destruct (w_instance w) eqn:Ei; cbn [negb]; [|apply Hrel].
  destruct (CanCollect t f w) as [d|] eqn:Ec; [apply Hrel|].
  destruct (CollectCallStackCurrentThread f e) as [errorCode d].
  destruct Hs as [H1 H2 H3 H4 H5 H6 H7].
  assert (Hm : w_mutex w = Some (HandlerOf t)) by by apply (H2 t _ Ht).
  assert (Htg : w_target w = Some t).
  { unfold CanCollect in Ec. destruct (segv_blocked f); [done|]. destruct (w_target w) as [u|]; [|done].
    destruct (Nat.eqb_spec u t) as [->|]; [done|]. done. }
  assert (Hb : blocked (w_sampler w) = true).
  { rewrite Hm in H1. rewrite Ei in H3. destruct (w_sampler w); cbn in *; try done; naive_solver. }
  split; cbn; try done.
  - intros u h Hu. handlers; [by rewrite Hm|]. by apply H2.
  - by rewrite <- H3, Ei.
  - intros u e' Hu. handlers; [naive_solver|]. exfalso.
    assert (w_mutex w = Some (HandlerOf u)) by (by apply (H2 u (HWalked e'))). naive_solver.
  - intros u e' [= <- <-] _. done.
Qed.

Lemma step_safe w a w' : safe w -> step w a = Some w' -> safe w'.
Proof.
  intros Hs. destruct a as [t| | | |ok| | | |checked|t f|t|t|t e|t|t|t]; cbn [step]; intros E.
  - destruct (w_sampler w) eqn:Ep; try done. destruct (w_handlers w !! t); [|done]. injection E as <-.
    destruct Hs as [H1 H2 H3 H4 H5 H6 H7]. rewrite Ep in *. split; cbn; try done.
    intros u e Hu. by destruct (H5 u e Hu) as (_ & _ & ?).
  - destruct (w_sampler w) eqn:Ep; try done. injection E as <-.
    destruct Hs as [H1 H2 H3 H4 H5 H6 H7]. rewrite Ep in *. split; cbn; try done.
    + intros u e Hu. by destruct (H5 u e Hu) as (_ & _ & ?).
    + apply Forall_app. split; [done|]. constructor; [|constructor]. cbn. intros t e Hb.
      by rewrite (H6 t e Hb eq_refl).
  - destruct (w_sampler w) eqn:Ep; try done. destruct (w_mutex w) eqn:Em; [done|]. injection E as <-.
    apply safe_acquire; rewrite ?Ep; done.
  - destruct (w_sampler w) eqn:Ep; try done. injection E as <-.
    destruct Hs as [H1 H2 H3 H4 H5 H6 H7]. rewrite Ep in *. split; cbn; try done.
  - destruct (w_sampler w) eqn:Ep; try done. destruct (w_target w) as [t|] eqn:Et; [|done].
    destruct Hs as [H1 H2 H3 H4 H5 H6 H7]. rewrite Ep in *. assert (Hm : w_mutex w = Some Sampler) by by apply H1.
    destruct ok; injection E as <-.
    + split; cbn; try done.
      * intros u h Hu. rewrite (H2 u h Hu), Hm. done.
      * intros u e Hu. by destruct (H5 u e Hu) as (_ & _ & ?).
    + apply safe_return; [|done]. split; by rewrite ?Ep.
  - destruct (w_sampler w) eqn:Ep; try done. injection E as <-. apply safe_sampler; by rewrite ?Ep.
  - destruct (w_sampler w) eqn:Ep; try done. injection E as <-. apply safe_sampler; by rewrite ?Ep.
  - destruct (w_sampler w) eqn:Ep; try done. destruct (w_mutex w) eqn:Em; [done|]. injection E as <-.
    apply safe_acquire; rewrite ?Ep; done.
  - destruct (w_sampler w) as [| | | | | |b] eqn:Ep; try done.
    assert (Hm : w_mutex w = Some Sampler) by (apply Hs; by rewrite Ep).
    destruct b; [destruct checked|]; injection E as <-; apply safe_return; try done; by apply safe_with_error.
  - destruct (w_handlers w !! t) as [[]|] eqn:Et; try done. destruct (w_pending w !! t) as [p|]; [|done].
    destruct (from_self f); [destruct p; [|done]|]; injection E as <-.
    + apply safe_handler with HNone; [by apply safe_with_pending|done..].
    + by apply safe_handler with HNone.
  - destruct (w_handlers w !! t) as [[]|] eqn:Et; try done. injection E as <-.
    eapply safe_handler; [done|done|done|]. by destruct (w_instance w).
  - destruct (w_handlers w !! t) as [[]|] eqn:Et; try done. destruct (w_mutex w) eqn:Em; [done|]. injection E as <-.
    destruct Hs as [H1 H2 H3 H4 H5 H6 H7]. split; cbn; try done.
    + rewrite H1, Em. done.
    + intros u h Hu. handlers; [done|]. rewrite (H2 u h) by done. rewrite Em. naive_solver.
    + intros u e Hu. handlers; [done|]. by apply H5.
  - destruct (w_handlers w !! t) as [[]|] eqn:Et; try done. injection E as <-. by apply safe_collect.
  - destruct (w_handlers w !! t) as [[]|] eqn:Et; try done. injection E as <-. by eapply safe_release.
  - destruct (w_handlers w !! t) as [[]|] eqn:Et; try done. injection E as <-.
    eapply safe_handler; [by apply safe_with_error|done..].
  - destruct (w_handlers w !! t) as [[]|] eqn:Et; try done. injection E as <-.
    destruct (w_sampler w) eqn:Ep; try by eapply safe_handler.
    eapply safe_handler; [by apply safe_sampler; rewrite ?Ep|done..].
Qed.

Lemma run_safe w actions w' : safe w -> run w actions = Some w' -> safe w'.
Proof.
  revert w. induction actions as [|a actions IH]; intros w Hs; cbn [run]; [by intros [= <-]|].
  destruct (step w a) as [w1|] eqn:E; cbn; [|done]. apply IH. by eapply step_safe.
Qed.

(** ** Collections without timeout

    [own h]: the handler runs because of a signal the sampling thread sent. *)
Definition own (h : hpc) : bool :=
  match h with
  | HNone => false
  | HEntered f | HLocking f | HLocked f => from_self f
  | HWalked _ | HUnlocked _ | HStored => true
  end.

Definition on_time (a : action) : bool := match a with ATimeout | ASpurious => false | _ => true end.

Record punctual (w : World) : Prop := {
  p_pending : forall t, w_pending w !! t = Some true ->
    w_sampler w = SWaiting /\ w_target w = Some t;
  p_own : forall t h, w_handlers w !! t = Some h -> own h = true ->
    w_sampler w = SWaiting /\ w_target w = Some t /\ w_pending w !! t <> Some true;
  p_unlocked : forall t e, w_handlers w !! t = Some (HUnlocked e) -> w_buffer w = Some (t, e);
  p_stored : forall t, w_handlers w !! t = Some HStored ->
    w_buffer w = Some (t, _lastStackWalkErrorCode w);
  p_woken : forall b, w_sampler w = SWaking b \/ w_sampler w = SWoken b ->
    b = false /\ exists t, w_target w = Some t /\ w_buffer w = Some (t, _lastStackWalkErrorCode w);
  p_results : Forall (fun r => r_hr r = S_OK -> r_buffer r = Some (r_thread r, 0)) (w_results w)
}.

Lemma lookup_pending (l : list bool) t b u :
  <[t := b]> l !! u = Some true -> (u = t /\ b = true) \/ (u <> t /\ l !! u = Some true).
Proof.
  destruct (decide (t = u)) as [->|Hne]; [|rewrite list_lookup_insert_ne by done; right; split; [congruence|done]].
  intros H. left. split; [done|]. assert (u < length l)%nat.
  { apply lookup_lt_Some in H. by rewrite length_insert in H. }
  rewrite list_lookup_insert_eq in H by done. congruence.
Qed.

Lemma hr_of_ok e : hr_of e = S_OK <-> e = 0.
Proof. unfold hr_of. destruct (Z.eqb_spec e 0); [done|]. split; [|done]. by vm_compute. Qed.

Lemma start_punctual n : punctual (start n).
Proof.
  split; cbn; try done.
  - intros t [? _]%lookup_replicate. done.
  - intros t h [-> _]%lookup_replicate. done.
  - intros t e [? _]%lookup_replicate. done.
  - intros t [? _]%lookup_replicate. done.
  - by intros b [?|?].
Qed.

(** No signal is on its way while the sampling thread does not wait. *)
Lemma punctual_quiet w t h :
  punctual w -> w_sampler w <> SWaiting -> w_handlers w !! t = Some h -> own h = false.
Proof.
  intros Hp Hw Hh. destruct (own h) eqn:E; [|done]. by destruct (p_own w Hp t h Hh E).
Qed.

Lemma punctual_not_pending w t : punctual w -> w_sampler w <> SWaiting -> w_pending w !! t <> Some true.
Proof. intros Hp Hw Hh. by destruct (p_pending w Hp t Hh). Qed.

(** Steps of the sampling thread when no signal is on its way before or after. *)
Lemma punctual_sampler w w' :
  punctual w -> w_sampler w <> SWaiting -> w_handlers w' = w_handlers w -> w_pending w' = w_pending w ->
  (forall b, w_sampler w' = SWaking b \/ w_sampler w' = SWoken b ->
    b = false /\ exists t, w_target w' = Some t /\ w_buffer w' = Some (t, _lastStackWalkErrorCode w')) ->
  Forall (fun r => r_hr r = S_OK -> r_buffer r = Some (r_thread r, 0)) (w_results w') -> punctual w'.
Proof.
  intros Hp Hs Eh Ep Hw Hr. split; rewrite ?Eh, ?Ep; try done.
  - intros t Ht. by apply punctual_not_pending in Ht.
  - intros t h Hh Ho. by rewrite (punctual_quiet w t h Hp Hs Hh) in Ho.
  - intros t e Hh. by apply (punctual_quiet w t) in Hh.
  - intros t Hh. by apply (punctual_quiet w t) in Hh.
Qed.

Lemma punctual_return hr w w' :
  punctual w -> w_sampler w <> SWaiting -> w' = return_result hr w ->
  (hr = S_OK -> exists t, w_target w = Some t /\ w_buffer w = Some (t, 0)) -> punctual w'.
Proof.
  intros Hp Hs -> Hok. apply (punctual_sampler w); try done.
  - by intros b [?|?].
  - cbn. apply Forall_app. split; [apply Hp|]. constructor; [|constructor]. cbn. intros E.
    destruct (Hok E) as (t & -> & ->). done.
Qed.

(** A handler that was not sent by the sampling thread, or that ends before its walk. *)
Lemma punctual_handler t h p w :
  punctual w -> w_handlers w !! t = Some h -> (own p = true -> own h = true) ->
  (forall e, p <> HUnlocked e) -> p <> HStored -> punctual (handler_to t p w).
Proof.
  intros Hp Hh Ho Hu Hst. split; cbn; try apply Hp.
  - intros u h' Hu' Ho'. handlers; [apply (p_own w Hp t h Hh); auto|by apply (p_own w Hp u h')].
  - intros u e Hu'. handlers; [by destruct (Hu e eq_refl)|by apply (p_unlocked w Hp)].
  - intros u Hu'. handlers; [done|by apply (p_stored w Hp)].
Qed.

Lemma punctual_collect t f e w :
  safe w -> punctual w -> w_handlers w !! t = Some (HLocked f) -> punctual (collect t f e w).
Proof.
  intros Hs Hp Hh. unfold collect.
  assert (Hrel : forall i d, punctual (handler_to t HNone (with_mutex None
    (mkWorld (w_mutex w) (w_instance w) (w_target w) (_lastStackWalkErrorCode w) (_stackWalkFinished w)
       (w_buffer w) (w_sampler w) (w_handlers w) (w_pending w) i (w_discards w ++ d) (w_results w))))).
  { intros i d. apply punctual_handler with (HLocked f); try done. by destruct Hp. }
  destruct (w_instance w) eqn:Ei; cbn [negb]; [|apply Hrel].
  destruct (CanCollect t f w) as [d|] eqn:Ec; [apply Hrel|].
  destruct (CollectCallStackCurrentThread f e) as [errorCode d].
  assert (Hf : from_self f = true).
  { unfold CanCollect in Ec. destruct (segv_blocked f); [done|]. destruct (w_target w) as [u|]; [|done].
    destruct (Nat.eqb u t); [|done]. by destruct (from_self f). }
  destruct (p_own w Hp t (HLocked f) Hh Hf) as (Hw & Ht & Hn).
  assert (Hother : forall u h, u <> t -> w_handlers w !! u = Some h -> own h = false).
  { intros u h Hut Hu. destruct (own h) eqn:E; [|done]. destruct (p_own w Hp u h Hu E) as (_ & ? & _). congruence. }
  split; cbn.
  - apply Hp.
  - intros u h Hu Ho. handlers; [done|]. by rewrite (Hother u h) in Ho.
  - intros u e' Hu. handlers; [done|]. by apply (Hother u) in Hu.
  - intros u Hu. handlers; [done|]. by apply (Hother u) in Hu.
  - intros b [E|E]; congruence.
  - apply Hp.
Qed.

Lemma step_punctual w a w' :
  safe w -> punctual w -> on_time a = true -> step w a = Some w' -> punctual w'.
Proof.
  intros Hs Hp Ha. destruct a as [t| | | |ok| | | |checked|t f|t|t|t e|t|t|t]; cbn [step]; intros E; try done.
  - destruct (w_sampler w) eqn:Ep; try done. destruct (w_handlers w !! t); [|done]. injection E as <-.
    apply (punctual_sampler w); cbn; try done; [congruence|by intros b [?|?]|apply Hp].
  - destruct (w_sampler w) eqn:Ep; try done. injection E as <-.
    apply (punctual_sampler w); cbn; try done; [congruence|by intros b [?|?]|].
    apply Forall_app. split; [apply Hp|]. constructor; [|constructor]. cbn. by vm_compute.
  - destruct (w_sampler w) eqn:Ep; try done. destruct (w_mutex w) eqn:Em; [done|]. injection E as <-.
    apply (punctual_sampler w); cbn; try done; [congruence|by intros b [?|?]|apply Hp].
  - destruct (w_sampler w) eqn:Ep; try done. injection E as <-.
    apply (punctual_sampler w); cbn; try done; [congruence|by intros b [?|?]|apply Hp].
  - destruct (w_sampler w) eqn:Ep; try done. destruct (w_target w) as [t|] eqn:Et; [|done].
    assert (Hnw : w_sampler w <> SWaiting) by congruence. destruct ok; injection E as <-.
    + split; cbn.
      * intros u [[-> _]|[_ Hu]]%lookup_pending; [done|]. by apply (punctual_not_pending w u) in Hu.
      * intros u h Hu Ho. by rewrite (punctual_quiet w u h Hp Hnw Hu) in Ho.
      * intros u e Hu. by apply (punctual_quiet w u) in Hu.
      * intros u Hu. by apply (punctual_quiet w u) in Hu.
      * by intros b [?|?].
      * apply Hp.
    + eapply punctual_return; [done|done|reflexivity|]. by vm_compute.
  - destruct (w_sampler w) as [| | | | |b|] eqn:Ep; try done. destruct (w_mutex w); [done|]. injection E as <-.
    apply (punctual_sampler w); cbn; try done; [congruence| |apply Hp].
    intros b' [?|[= <-]]; [done|]. apply (p_woken w Hp b). by left.
  - destruct (w_sampler w) as [| | | | | |b] eqn:Ep; try done.
    destruct (p_woken w Hp b) as [-> (t & Ht & Hb)]; [by right|]. injection E as <-.
    eapply punctual_return; [done|congruence|reflexivity|]. intros He. apply (proj1 (hr_of_ok _)) in He.
    exists t. by rewrite He in Hb.
  - destruct (w_handlers w !! t) as [[]|] eqn:Et; try done. destruct (w_pending w !! t) as [p|] eqn:Epd; [|done].
    destruct (from_self f) eqn:Ef; [destruct p; [|done]|]; injection E as <-.
    + destruct (p_pending w Hp t Epd) as [Hw Htg]. split; cbn.
      * intros u [[-> ?]|[_ Hu]]%lookup_pending; [done|]. by apply Hp.
      * intros u h Hu Ho. handlers.
        -- split_and!; [done..|]. by intros [[_ ?]|[? _]]%lookup_pending.
        -- destruct (p_own w Hp u h) as (? & ? & ?); [done..|]. congruence.
      * intros u e Hu. handlers; [done|]. by apply (p_unlocked w Hp).
      * intros u Hu. handlers; [done|]. by apply (p_stored w Hp).
      * apply Hp.
      * apply Hp.
    + apply punctual_handler with HNone; try done. cbn. by rewrite Ef.
  - destruct (w_handlers w !! t) as [[]|] eqn:Et; try done. injection E as <-.
    eapply punctual_handler; [done|exact Et|by destruct (w_instance w)..].
  - destruct (w_handlers w !! t) as [[]|] eqn:Et; try done. destruct (w_mutex w) eqn:Em; [done|]. injection E as <-.
    eapply punctual_handler; [by destruct Hp|exact Et|done..].
  - destruct (w_handlers w !! t) as [[]|] eqn:Et; try done. injection E as <-. by apply punctual_collect.
  - destruct (w_handlers w !! t) as [[]|] eqn:Et; try done. injection E as <-.
    destruct (s_walked w Hs t _ Et) as (Ht & Hb & _). split; cbn; try apply Hp.
    + intros u h Hu Ho. handlers; [by apply (p_own w Hp t _ Et)|by apply (p_own w Hp u h)].
    + intros u e Hu. handlers; [congruence|by apply (p_unlocked w Hp)].
    + intros u Hu. handlers; [done|by apply (p_stored w Hp)].
  - destruct (w_handlers w !! t) as [[]|] eqn:Et; try done. injection E as <-.
    destruct (p_own w Hp t _ Et eq_refl) as (Hw & Ht & Hn). pose proof (p_unlocked w Hp t _ Et) as Hb.
    split; cbn; try apply Hp.
    + intros u h Hu Ho. handlers; [done|by apply (p_own w Hp u h)].
    + intros u e Hu. handlers; [done|by apply (p_unlocked w Hp)].
    + intros u Hu. handlers; [done|]. destruct (p_own w Hp u HStored) as (_ & ? & _); [done..|]. congruence.
    + intros b [?|?]; congruence.
  - destruct (w_handlers w !! t) as [[]|] eqn:Et; try done. injection E as <-.
    destruct (p_own w Hp t _ Et eq_refl) as (Hw & Ht & Hn). pose proof (p_stored w Hp t Et) as Hb.
    rewrite Hw. split; cbn.
    + intros u Hu. destruct (p_pending w Hp u Hu) as [_ ?]. congruence.
    + intros u h Hu Ho. handlers; [done|]. destruct (p_own w Hp u h) as (_ & ? & _); [done..|]. congruence.
    + intros u e Hu. handlers; [done|]. destruct (p_own w Hp u (HUnlocked e)) as (_ & ? & _); [done..|]. congruence.
    + intros u Hu. handlers; [done|]. destruct (p_own w Hp u HStored) as (_ & ? & _); [done..|]. congruence.
    + intros b [[= <-]|?]; [|done]. split; [done|]. by exists t.
    + apply Hp.
Qed.

Lemma run_punctual w actions w' :
  safe w -> punctual w -> Forall (fun a => on_time a = true) actions -> run w actions = Some w' ->
  punctual w'.
Proof.
  revert w. induction actions as [|a actions IH]; intros w Hs Hp Ha; cbn [run]; [by intros [= <-]|].
  apply Forall_cons in Ha as [Ha Hall]. destruct (step w a) as [w1|] eqn:E; cbn; [|done].
  apply IH; [by eapply step_safe|by eapply step_punctual|done].
Qed.

Lemma collect_buffer t f e w :
  safe w -> w_handlers w !! t = Some (HLocked f) -> w_buffer (collect t f e w) <> w_buffer w ->
  w_target w = Some t /\ blocked (w_sampler w) = true.
Proof.
  intros Hs Hh Hb. pose proof (safe_collect t f e w Hs Hh) as Hs'. unfold collect in Hb, Hs'.
  destruct (w_instance w); cbn [negb] in *; [|by destruct Hb].
  destruct (CanCollect t f w); [by destruct Hb|]. destruct (CollectCallStackCurrentThread f e) as [x d].
  destruct (s_walked _ Hs' t x) as (H1 & _ & H2).
  - cbn. apply list_lookup_insert_eq. by apply lookup_lt_Some in Hh.
  - done.
Qed.

(** ** Properties *)

(** C13: for every interleaving of the sampling thread, the handlers and the kernel, timeouts,
    spurious wake-ups, lost threads and foreign signals included, the buffer of frames is
    written only by the handler that runs on the thread being collected, while the sampling
    thread is blocked, or by the sampling thread between two collections; a walk that is
    finished and not yet released is the one of the current target; and every result that
    holds frames holds those of the thread that was asked for. *)
Theorem capture_exclusive n actions w :
  run (start n) actions = Some w ->
  (forall a w', step w a = Some w' -> w_buffer w' <> w_buffer w ->
    (exists t e, a = ACollect t e /\ w_target w = Some t /\ blocked (w_sampler w) = true) \/
    (exists t, a = ABegin t /\ w_sampler w = SIdle)) /\
  (forall t e, w_handlers w !! t = Some (HWalked e) ->
    w_target w = Some t /\ w_buffer w = Some (t, e) /\ blocked (w_sampler w) = true) /\
  Forall (fun r => forall t e, r_buffer r = Some (t, e) -> t = r_thread r) (w_results w).
Proof.
  intros Hr. pose proof (run_safe _ _ _ (start_safe n) Hr) as Hs. split_and!; [|apply Hs|apply Hs].
  intros a w' E Hb. destruct a as [t| | | |ok| | | |checked|t f|t|t|t e|t|t|t]; cbn [step] in E.
  all: repeat match type of E with
    | context [match w_sampler ?w with _ => _ end] => destruct (w_sampler w) eqn:?; try done
    | context [match w_handlers ?w !! ?t with _ => _ end] => destruct (w_handlers w !! t) as [[]|] eqn:?; try done
    | context [match ?x with _ => _ end] => destruct x eqn:?; try done
    end; injection E as <-; try (by destruct Hb).
  all: try (by right; eexists).
  all: left; eexists _, _; split; [done|]; by eapply collect_buffer.
Qed.

(** As long as no wait times out or wakes up spuriously, a collection that returns S_OK
    returns the frames its own target wrote in a walk that succeeded: neither a foreign
    signal nor the handler of an earlier collection can make the sampling thread take an
    empty or a foreign buffer for a result. *)
Theorem capture_result_sound n actions w :
  run (start n) actions = Some w -> Forall (fun a => on_time a = true) actions ->
  Forall (fun r => r_hr r = S_OK -> r_buffer r = Some (r_thread r, 0)) (w_results w).
Proof.
  intros Hr Ha. apply (run_punctual (start n) actions w); [apply start_safe|apply start_punctual|done..].
Qed.

(** A signal is handled within two nested handlers, even if the handler that was
    installed before calls the profiler's one back: the previous handler runs at most once
    per delivery, and not at all when the profiler's own handler took the signal or when the
    previous action is the default or to ignore. *)
Theorem signal_chain_bounded accepts calls_back signal m fuel :
  (2 <= fuel)%nat ->
  exists trace, OnSignal accepts calls_back fuel signal false m = Some trace /\
    (length (filter (fun r => is_previous r) trace) <= 1)%nat /\
    (length trace <= 3)%nat /\
    (forall h siginfo, Previous h siginfo ∈ trace ->
      h = sa_sigaction (_previousAction m) /\ h <> SIG_DFL /\
      (siginfo = false -> h <> SIG_IGN) /\
      forall c, _handler m = Some c -> accepts c = false).
Proof.
  intros Hf. destruct fuel as [|[|fuel]]; [lia..|]. unfold OnSignal.
  destruct ((signal <? 1) || (31 <? signal)); [exists []; split_and!; [done|cbn; lia..|set_solver]|].
  cbn [DeliverSignal]. unfold CallCustomHandler.
  destruct (_handler m) as [c|] eqn:Eh; [destruct (accepts c) eqn:Ea|]; cbn [option_list].
  all: try (eexists; split_and!; [reflexivity|vm_compute; lia..|set_solver]).
  all: destruct ((Z.land (sa_flags (_previousAction m)) SA_SIGINFO =? SA_SIGINFO) &&
    negb (sa_sigaction (_previousAction m) =? 0)) eqn:E1;
    [|destruct (negb (sa_sigaction (_previousAction m) =? SIG_DFL) &&
      negb (sa_sigaction (_previousAction m) =? SIG_IGN)) eqn:E2;
      [|eexists; split_and!; [reflexivity|vm_compute; lia..|set_solver]]].
  all: destruct (calls_back (sa_sigaction (_previousAction m))); cbn [mbind option_bind app];
    eexists; (split_and!; [reflexivity|vm_compute; lia..|]).
  all: intros h si Hin; rewrite !elem_of_cons, ?elem_of_nil in Hin;
    destruct Hin as [?|Hin]; simplify_eq; bool_facts; split_and!; naive_solver.
Qed.

(** ** Examples *)

Module Example_capture.
Definition sent : Siginfo := mkSiginfo true false false.
Definition foreign : Siginfo := mkSiginfo false false false.

(** A foreign signal hits thread 1 during the collection of thread 0. *)
Definition collection : list action :=
  [ABegin 0; ALock; AArm; ASend true; ASignal 1 foreign; AEnter 1; AHLock 1; ACollect 1 (Walked 5);
   ASignal 0 sent; AEnter 0; AHLock 0; ACollect 0 (Walked 12); AUnlock 0; AStore 0; ANotify 0;
   AReacquire; AFinish true].

Example collection_succeeds :
  w_results <$> run (start 2) collection = Some [mkResult 0 S_OK (Some (0%nat, 0))].
Proof. reflexivity. Qed.

(** Nothing tests whether the walk is finished: a spurious wake-up returns the code of the
    previous collection, with an empty buffer. *)
Example spurious_wake_up_succeeds :
  w_results <$> run (start 2) (collection ++ [ABegin 1; ALock; AArm; ASend true; ASpurious; AReacquire; AFinish true])
    = Some [mkResult 0 S_OK (Some (0%nat, 0)); mkResult 1 S_OK None].
Proof. reflexivity. Qed.

(** The notification of a walk that ended too late wakes up the next collection. *)
Example late_notification_succeeds :
  w_results <$> run (start 2)
    [ABegin 0; ALock; AArm; ASend true; ASignal 0 sent; AEnter 0; AHLock 0; ACollect 0 (Walked 3);
     ATimeout; AUnlock 0; AReacquire; AFinish true;
     ABegin 1; ALock; AArm; ASend true; AStore 0; ANotify 0; AReacquire; AFinish true]
    = Some [mkResult 0 E_FAIL (Some (0%nat, 0)); mkResult 1 S_OK None].
Proof. reflexivity. Qed.

(** A walk that could not even start (-1 frames) passes for a success. *)
Example failed_walk_succeeds : CollectCallStackCurrentThread sent (Walked (-1)) = (S_OK, []).
Proof. reflexivity. Qed.

(** The handler of the manager below is 500; 77 is a handler of the application. *)
Definition installed : ProfilerSignalManager := (RegisterHandler 500 9 true (new_manager (mkAction 0 77))).1.
Definition replaced : ProfilerSignalManager :=
  mkManager (_canReplaceSignalHandler installed) (_handler installed) (_isHandlerInPlace installed)
    (_previousAction installed) (mkAction 4 88).
Definition restored : ProfilerSignalManager := (CheckSignalHandler 500 true replaced).1.

(** Once it was restored, the handler is given up at the next check although it is there. *)
Example restored_then_given_up :
  IsProfilerSignalHandlerInstalled 500 restored = true /\
  (CheckSignalHandler 500 true restored).2 = false /\
  _isHandlerInPlace (CheckSignalHandler 500 true restored).1 = false.
Proof. by vm_compute. Qed.

(** The application's handler 88 calls the profiler's handler back. *)
Example mutual_handlers :
  OnSignal (fun _ => false) (fun h => h =? 88) 2 10 false restored = Some [Custom 9; Previous 88 true; Custom 9].
Proof. reflexivity. Qed.
End Example_capture.

Lemma capture_exclusive_witness :
  exists w, run (start 2) Example_capture.collection = Some w /\
    Forall (fun r => forall t e, r_buffer r = Some (t, e) -> t = r_thread r) (w_results w).
Proof.
  destruct (run (start 2) Example_capture.collection) as [w|] eqn:E; [|vm_compute in E; discriminate].
  exists w. split; [done|]. exact (proj2 (proj2 (capture_exclusive 2 Example_capture.collection w E))).
Defined.
