(* ===== verification/CpuProfiler.v ===== *)
(** * The timer-driven CPU profiler

    Model of [TimerCreateCpuProfiler.cpp] with the life cycle of [ServiceBase.cpp] and the
    provider of raw samples [RawSampleCollectorBase.h]: a timer per thread sends SIGPROF to
    it; the handler walks the stack into a record reserved in the ring buffer of
    [RingBuffer], which is committed or discarded when the handler leaves; the exporter
    enumerates the records.

    Handlers of several threads, the exporter, the start and the stop of the service, the
    registrations of threads and the other users of the lock of a thread are interleaved.
    The ring buffer is the bounded queue its theorem promises; the events of every run are
    kept, so that they can be replayed on the ring buffer itself.  [_registerLock] is the
    list of the calls that hold it shared and the point of the service that holds it alone;
    a call reads the timer of its thread, asks the kernel and records the answer in
    separate steps, and so do the loops of [StartImpl] and [StopImpl]. *)
From stdpp Require Import base gmap list sorting.
From S2P Require Import Prelude RingBuffer.

(** ** Services *)

Inductive State := Init | Starting | Started | Stopping | Stopped.

(** Where [RegisterThreadImpl] is: before it reads the timer of the thread; it read -1 and
    asks the kernel; it records the new timer. *)
Inductive register_point := RRead | RCreate | RSet (id : Z).

(** Where [UnregisterThreadImpl] is: before the read and before the write of
    [SetTimerId(-1)], which is a [std::exchange] on a plain integer; before the deletion. *)
Inductive unregister_point := UExchange | UForget (id : Z) | UDelete (id : Z).

(** A call that holds [_registerLock] shared: [RegisterThread] before the test of the
    state, and the two implementations. *)
Inductive call := Tests | Registers (p : register_point) | Unregisters (p : unregister_point).

(** Where [ServiceBase::Start] or [ServiceBase::Stop] is; the loops, at thread [k], hold
    [_registerLock] alone. *)
Inductive service_point :=
| Outside
| StartCalled | StartLoop (k : nat) (p : option register_point) | StartReturned (ok : bool)
| StopCalled | StopCleared | StopLoop (k : nat) (p : option unregister_point) | StopWaits.

Record Service := mkService {
  s_state : State; s_point : service_point;
  s_calls : list (nat * call)        (* with the index of the thread *)
}.

(** ** Threads and handlers *)

Inductive DiscardReason :=
| InSegvHandler | InsideWrappedFunction | UnknownThread | UnsufficientSpace | EmptyBacktrace
| FailedAcquiringLock | TimedOut.

(** Where the handler of a thread is: not running; entered, with the profiler it read; counted
    in [_nbThreadsInSignalHandler]; with the lock of the thread and allowed to collect; with a record, walking the stack; done,
    before the record is closed. *)
Inductive cpc := CIdle | CEntered | CCounted | CCollecting | CFilling (h : nat) | CClosing (h : nat) (discard : bool).

Record Thread := mkThread {
  t_osThreadId : Z;
  t_timerId : Z;                     (* -1: none *)
  t_locked : bool;                   (* the lock of ManagedThreadInfo *)
  t_pc : cpc
}.

Record Cpu := mkCpu {
  c_service : Service;
  c_instance : bool;                 (* TimerCreateCpuProfiler::Instance is set *)
  c_threads : list Thread;
  c_timers : gset Z;                 (* the timers that exist in the kernel *)
  _nbThreadsInSignalHandler : Z;
  _totalSampling : Z;
  c_discards : list DiscardReason;   (* what the two discard metrics counted *)
  c_queue : queue;                   (* the ring buffer *)
  c_samples : list (nat * list Z);   (* what the handlers wrote, by record *)
  c_events : list event;             (* the calls made to the ring buffer *)
  c_delivered : list nat             (* the records the exporter was given *)
}.

(** ** Actions *)

Inductive action :=
| AStart | AStartImpl (registered : bool) | AStartEnd
| AStop | AStopImpl | AStopLock | AStopEnd
| ALoop (id : option Z)                                   (* the loop of StartImpl or StopImpl *)
| ARegister (i : nat) | AUnregister (i : nat)             (* a call takes the lock *)
| ACall (n : nat) (id : option Z)                         (* the n-th call goes on *)
| ALock (i : nat) | AUnlock (i : nat)                     (* another user of a thread *)
| AFire (i : nat)                                         (* SIGPROF is delivered *)
| ACount (i : nat)
| ACollect (i : nat) (known inside segv : bool)
| AReserve (i : nat) (owns_lock : bool)
| AFill (i : nat) (count : Z) (words : list Z)
| AClose (i : nat)
| AOpenReader | AMoveNext | ACloseReader.

(** A step is not possible, breaks the rules of the ring buffer, or leads to a state. *)
Inductive outcome := Disabled | Broken | Next (c : Cpu).

Definition set_thread (i : nat) (t : Thread) (c : Cpu) : Cpu :=
  mkCpu (c_service c) (c_instance c) (<[i := t]> (c_threads c)) (c_timers c) (_nbThreadsInSignalHandler c)
    (_totalSampling c) (c_discards c) (c_queue c) (c_samples c) (c_events c) (c_delivered c).
Definition set_service (sv : Service) (c : Cpu) : Cpu :=
  mkCpu sv (c_instance c) (c_threads c) (c_timers c) (_nbThreadsInSignalHandler c)
    (_totalSampling c) (c_discards c) (c_queue c) (c_samples c) (c_events c) (c_delivered c).
Definition set_instance (b : bool) (c : Cpu) : Cpu :=
  mkCpu (c_service c) b (c_threads c) (c_timers c) (_nbThreadsInSignalHandler c)
    (_totalSampling c) (c_discards c) (c_queue c) (c_samples c) (c_events c) (c_delivered c).
Definition set_timers (timers : gset Z) (c : Cpu) : Cpu :=
  mkCpu (c_service c) (c_instance c) (c_threads c) timers (_nbThreadsInSignalHandler c)
    (_totalSampling c) (c_discards c) (c_queue c) (c_samples c) (c_events c) (c_delivered c).
Definition discards (d : list DiscardReason) (c : Cpu) : Cpu :=
  mkCpu (c_service c) (c_instance c) (c_threads c) (c_timers c) (_nbThreadsInSignalHandler c)
    (_totalSampling c) (c_discards c ++ d) (c_queue c) (c_samples c) (c_events c) (c_delivered c).
Definition in_handler (n : Z) (c : Cpu) : Cpu :=
  mkCpu (c_service c) (c_instance c) (c_threads c) (c_timers c) (u64 (_nbThreadsInSignalHandler c + n))
    (_totalSampling c) (c_discards c) (c_queue c) (c_samples c) (c_events c) (c_delivered c).

Definition at_pc (p : cpc) (locked : bool) (t : Thread) : Thread :=
  mkThread (t_osThreadId t) (t_timerId t) locked p.
Definition with_timer (id : Z) (t : Thread) : Thread := mkThread (t_osThreadId t) id (t_locked t) (t_pc t).

(** *** Timers *)

(** [timer_create] fails, or answers an identifier that is not in use. *)
Definition timer_create (id : option Z) (timers : gset Z) : option Z :=
  match id with
  | Some n => if (0 <=? n) && bool_decide (n ∉ timers) then Some n else None
  | None => None
  end.

(** One step of [RegisterThreadImpl] on thread [i], and the point it comes to, if any. *)
Definition RegisterThreadImpl (i : nat) (t : Thread) (p : register_point) (id : option Z) (c : Cpu)
    : Cpu * option register_point :=
  match p with
  | RRead => (c, if negb (t_timerId t =? -1) then None else Some RCreate)
  | RCreate =>
    match timer_create id (c_timers c) with
    | Some id => (set_timers (c_timers c ∪ {[id]}) c, Some (RSet id))
    | None => (c, None)
    end
  | RSet id => (set_thread i (with_timer id t) c, None)
  end.

Definition UnregisterThreadImpl (i : nat) (t : Thread) (p : unregister_point) (c : Cpu)
    : Cpu * option unregister_point :=
  match p with
  | UExchange => (c, Some (UForget (t_timerId t)))
  | UForget id =>
    (set_thread i (with_timer (-1) t) c, if negb (id =? -1) then Some (UDelete id) else None)
  | UDelete id => (set_timers (c_timers c ∖ {[id]}) c, None)
  end.

(** The interval of a timer, in seconds and nanoseconds: the count of nanoseconds goes
    through a 32-bit integer. *)
Definition timer_interval (milliseconds : Z) : Z * Z :=
  let _interval := i32 (milliseconds * 1000000) in
  (Z.quot _interval 1000000000, Z.rem _interval 1000000000).

(** The CPU clock of a thread. *)
Definition thread_cpu_clock (tid : Z) : Z := i32 (Z.lor (Z.shiftl (Z.lnot tid) 3) 6).

(** *** The service *)

(** The service goes on; the calls are those under way. *)
Definition moves (s : State) (p : service_point) (c : Cpu) : Cpu :=
  set_service (mkService s p (s_calls (c_service c))) c.

(** Nobody else holds [_registerLock]. *)
Definition unlocked (c : Cpu) : bool :=
  match s_calls (c_service c) with [] => true | _ => false end.
(** Nobody holds it alone. *)
Definition shareable (c : Cpu) : bool :=
  match s_point (c_service c) with StartLoop _ _ | StopLoop _ _ => false | _ => true end.

(** [ServiceBase::Start] and [ServiceBase::Stop], before and after the call of the
    implementation; in any other state they return at once. *)
Definition Start_begin (c : Cpu) : outcome :=
  match s_state (c_service c) with Init => Next (moves Starting StartCalled c) | _ => Disabled end.
Definition Start_end (c : Cpu) : outcome :=
  match s_point (c_service c) with
  | StartReturned result => Next (moves (if result then Started else Init) Outside c)
  | _ => Disabled
  end.
Definition Stop_begin (c : Cpu) : outcome :=
  match s_state (c_service c) with Started => Next (moves Stopping StopCalled c) | _ => Disabled end.

(** [StartImpl] up to its loop. *)
Definition StartImpl (registered : bool) (c : Cpu) : outcome :=
  match s_point (c_service c) with
  | StartCalled =>
    if registered
    then if unlocked c then Next (moves Starting (StartLoop 0 None) (set_instance true c)) else Disabled
    else Next (moves Starting (StartReturned false) c)
  | _ => Disabled
  end.

(** [StopImpl]: [Instance] is reset; later the lock is taken; the loop; the wait for the
    handlers, whose last read of the counter is the result. *)
Definition StopImpl (c : Cpu) : outcome :=
  match s_point (c_service c) with
  | StopCalled => Next (moves Stopping StopCleared (set_instance false c))
  | _ => Disabled
  end.
Definition StopImpl_lock (c : Cpu) : outcome :=
  match s_point (c_service c) with
  | StopCleared => if unlocked c then Next (moves Stopping (StopLoop 0 None) c) else Disabled
  | _ => Disabled
  end.
Definition StopImpl_result (c : Cpu) : bool := _nbThreadsInSignalHandler c =? 0.
Definition Stop_end (c : Cpu) : outcome :=
  match s_point (c_service c) with
  | StopWaits => Next (moves (if StopImpl_result c then Stopped else Started) Outside c)
  | _ => Disabled
  end.

(** The two loops over the threads; [StartImpl] leaves threads without an OS thread out. *)
Definition loop_step (id : option Z) (c : Cpu) : outcome :=
  match s_point (c_service c) with
  | StartLoop k None =>
    match c_threads c !! k with
    | None => Next (moves Starting (StartReturned true) c)
    | Some t =>
      Next (moves Starting
              (if negb (t_osThreadId t =? 0) then StartLoop k (Some RRead) else StartLoop (S k) None) c)
    end
  | StartLoop k (Some p) =>
    match c_threads c !! k with
    | None => Disabled
    | Some t =>
      let '(c, p) := RegisterThreadImpl k t p id c in
      Next (moves Starting match p with Some p => StartLoop k (Some p) | None => StartLoop (S k) None end c)
    end
  | StopLoop k None =>
    match c_threads c !! k with
    | None => Next (moves Stopping StopWaits c)
    | Some _ => Next (moves Stopping (StopLoop k (Some UExchange)) c)
    end
  | StopLoop k (Some p) =>
    match c_threads c !! k with
    | None => Disabled
    | Some t =>
      let '(c, p) := UnregisterThreadImpl k t p c in
      Next (moves Stopping match p with Some p => StopLoop k (Some p) | None => StopLoop (S k) None end c)
    end
  | _ => Disabled
  end.

(** *** Registrations *)

(** [RegisterThread] and [UnregisterThread] take the lock. *)
Definition begin_call (i : nat) (k : call) (c : Cpu) : outcome :=
  match c_threads c !! i with
  | Some _ =>
    if shareable c
    then Next (set_service (mkService (s_state (c_service c)) (s_point (c_service c)) (s_calls (c_service c) ++ [(i, k)])) c)
    else Disabled
  | None => Disabled
  end.

Definition RegisterThread (c : Cpu) : option call :=
  match s_state (c_service c) with Started => Some (Registers RRead) | _ => None end.

(** One step of a call on thread [i], and where it comes to, if it does not return. *)
Definition call_step (i : nat) (t : Thread) (k : call) (id : option Z) (c : Cpu) : Cpu * option call :=
  match k with
  | Tests => (c, RegisterThread c)
  | Registers p => let '(c, p) := RegisterThreadImpl i t p id c in (c, Registers <$> p)
  | Unregisters p => let '(c, p) := UnregisterThreadImpl i t p c in (c, Unregisters <$> p)
  end.

Definition continue_call (n : nat) (id : option Z) (c : Cpu) : outcome :=
  match s_calls (c_service c) !! n with
  | Some (i, k) =>
    match c_threads c !! i with
    | Some t =>
      let '(c, k) := call_step i t k id c in
      let calls := s_calls (c_service c) in
      Next (set_service (mkService (s_state (c_service c)) (s_point (c_service c))
              match k with Some k => <[n := (i, k)]> calls | None => delete n calls end) c)
    | None => Disabled
    end
  | None => Disabled
  end.

(** The reason not to collect, if any. *)
Definition CanCollect (inside segv : bool) : option DiscardReason :=
  if inside then Some InsideWrappedFunction else if segv then Some InSegvHandler else None.

Section ring.
Context (cap : nat) (size : Z).

(** One call to the ring buffer. *)
Definition ring (e : event) (c : Cpu) : option (Cpu * output) :=
  '(q, o) ← a_step cap size (c_queue c) e;
  Some (mkCpu (c_service c) (c_instance c) (c_threads c) (c_timers c) (_nbThreadsInSignalHandler c)
          (_totalSampling c) (c_discards c) q (c_samples c) (c_events c ++ [e]) (c_delivered c), o).

Fixpoint write_words (h : nat) (j : Z) (words : list Z) (c : Cpu) : option Cpu :=
  match words with
  | [] => Some c
  | v :: words => '(c, _) ← ring (EWrite h j v) c; write_words h (j + 1) words c
  end.

(** The record the reader got, if any, was transformed into a sample. *)
Definition delivers (before : queue) (c : Cpu) : Cpu :=
  mkCpu (c_service c) (c_instance c) (c_threads c) (c_timers c) (_nbThreadsInSignalHandler c)
    (_totalSampling c) (c_discards c) (c_queue c) (c_samples c) (c_events c)
    (c_delivered c ++ drop (length (taken before)) (taken (c_queue c))).

Definition checked (o : option Cpu) : outcome := match o with Some c => Next c | None => Broken end.

(** *** The handler *)

(** The beginning of [Collect]. *)
Definition enter (i : nat) (t : Thread) (c : Cpu) : Cpu :=
  set_thread i (at_pc CCounted (t_locked t) t)
    (mkCpu (c_service c) (c_instance c) (c_threads c) (c_timers c) (u64 (_nbThreadsInSignalHandler c + 1))
       (u64 (_totalSampling c + 1)) (c_discards c) (c_queue c) (c_samples c) (c_events c) (c_delivered c)).

(** From there up to [CanCollect]. *)
Definition fire (i : nat) (t : Thread) (known inside segv : bool) (c : Cpu) : Cpu :=
  let gives_up reason := set_thread i (at_pc CIdle (t_locked t) t) (in_handler (-1) (discards [reason] c)) in
  if negb known then gives_up UnknownThread
  else if t_locked t then gives_up FailedAcquiringLock
  else match CanCollect inside segv with
  | Some reason => gives_up reason
  | None => set_thread i (at_pc CCollecting true t) c
  end.

(** The constructor of [SampleHolder]: the record, if one was reserved. *)
Definition new_SampleHolder (owns_lock : bool) (c : Cpu) : option (Cpu * option nat) :=
  '(c', o) ← ring (EReserve owns_lock) c;
  Some match o with
  | OGranted => (c', Some (length (slots (c_queue c))))
  | OTimeout => (discards [TimedOut; UnsufficientSpace] c', None)
  | _ => (discards [UnsufficientSpace] c', None)
  end.

Definition reserve (i : nat) (t : Thread) (owns_lock : bool) (c : Cpu) : outcome :=
  match new_SampleHolder owns_lock c with
  | None => Broken
  | Some (c, Some h) => Next (set_thread i (at_pc (CFilling h) true t) c)
  | Some (c, None) => Next (set_thread i (at_pc CIdle false t) (in_handler (-1) c))
  end.

(** The walk, and the rest of [Collect]: the counter is decremented here. *)
Definition fill (i : nat) (t : Thread) (h : nat) (count : Z) (words : list Z) (c : Cpu) : outcome :=
  match write_words h 0 words c with
  | None => Broken
  | Some c =>
    let c := mkCpu (c_service c) (c_instance c) (c_threads c) (c_timers c) (_nbThreadsInSignalHandler c)
      (_totalSampling c) (c_discards c) (c_queue c) (c_samples c ++ [(h, words)]) (c_events c) (c_delivered c) in
    if count =? 0
    then Next (set_thread i (at_pc (CClosing h true) true t) (in_handler (-1) (discards [EmptyBacktrace] c)))
    else Next (set_thread i (at_pc (CClosing h false) true t) (in_handler (-1) c))
  end.

(** The destructors: the record of [SampleHolder] is closed, then the lock of the thread is released. *)
Definition close (i : nat) (t : Thread) (h : nat) (discard : bool) (c : Cpu) : outcome :=
  match ring (if discard then EDiscard h else ECommit h) c with
  | None => Broken
  | Some (c, _) => Next (set_thread i (at_pc CIdle false t) c)
  end.

Definition step (c : Cpu) (a : action) : outcome :=
  match a with
  | AStart => Start_begin c
  | AStartImpl registered => StartImpl registered c
  | AStartEnd => Start_end c
  | AStop => Stop_begin c
  | AStopImpl => StopImpl c
  | AStopLock => StopImpl_lock c
  | AStopEnd => Stop_end c
  | ALoop id => loop_step id c
  | ARegister i => begin_call i Tests c
  | AUnregister i => begin_call i (Unregisters UExchange) c
  | ACall n id => continue_call n id c
  | ALock i =>
    match c_threads c !! i with
    | Some t => if t_locked t then Disabled else Next (set_thread i (at_pc (t_pc t) true t) c)
    | None => Disabled
    end
  | AUnlock i =>
    match c_threads c !! i with
    | Some t =>
      match t_pc t with
      | CIdle | CEntered | CCounted => Next (set_thread i (at_pc (t_pc t) false t) c)
      | _ => Disabled
      end
    | None => Disabled
    end
  | AFire i =>
    match c_threads c !! i with
    | Some t =>
      match t_pc t with
      | CIdle => Next (if c_instance c then set_thread i (at_pc CEntered (t_locked t) t) c else c)
      | _ => Disabled
      end
    | None => Disabled
    end
  | ACount i =>
    match c_threads c !! i with
    | Some t => match t_pc t with CEntered => Next (enter i t c) | _ => Disabled end
    | None => Disabled
    end
  | ACollect i known inside segv =>
    match c_threads c !! i with
    | Some t => match t_pc t with CCounted => Next (fire i t known inside segv c) | _ => Disabled end
    | None => Disabled
    end
  | AReserve i owns_lock =>
    match c_threads c !! i with
    | Some t => match t_pc t with CCollecting => reserve i t owns_lock c | _ => Disabled end
    | None => Disabled
    end
  | AFill i count words =>
    match c_threads c !! i with
    | Some t =>
      match t_pc t with
      | CFilling h => if 8 * zlen words <=? size then fill i t h count words c else Disabled
      | _ => Disabled
      end
    | None => Disabled
    end
  | AClose i =>
    match c_threads c !! i with
    | Some t => match t_pc t with CClosing h discard => close i t h discard c | _ => Disabled end
    | None => Disabled
    end
  | AOpenReader =>
    match visible (c_queue c) with
    | None => checked (fst <$> ring EOpen c)
    | Some _ => Disabled
    end
  | AMoveNext =>
    match visible (c_queue c) with
    | Some _ => checked (delivers (c_queue c) ∘ fst <$> ring ENext c)
    | None => Disabled
    end
  | ACloseReader =>
    match visible (c_queue c) with
    | Some _ => checked (fst <$> ring EClose c)
    | None => Disabled
    end
  end.

(** [None]: an action was not possible; [Some None]: the ring buffer was misused. *)
Fixpoint run (c : Cpu) (actions : list action) : option (option Cpu) :=
  match actions with
  | [] => Some (Some c)
  | a :: actions =>
    match step c a with
    | Disabled => None
    | Broken => Some None
    | Next c => run c actions
    end
  end.
End ring.

Definition new_thread (osThreadId : Z) : Thread := mkThread osThreadId (-1) false CIdle.
Definition start (threads : list Z) : Cpu :=
  mkCpu (mkService Init Outside []) false (new_thread <$> threads) ∅ 0 0 [] empty_queue [] [] [].

(** ** The invariant *)

(** The record a handler is responsible for. *)
Definition held (p : cpc) : option nat :=
  match p with CFilling h | CClosing h _ => Some h | _ => None end.

Definition counted (p : cpc) : Z := match p with CCounted | CCollecting | CFilling _ => 1 | _ => 0 end.
Fixpoint total (ps : list cpc) : Z := match ps with [] => 0 | p :: ps => counted p + total ps end.

Definition pcs (c : Cpu) : list cpc := t_pc <$> c_threads c.

(** A record holds a sample. *)
Definition holds (sl : slot) (words : list Z) : Prop :=
  forall k v, words !! k = Some v -> sl_words sl !! Z.of_nat k = Some v.

Record collected (ps : list cpc) (q : queue) (samples : list (nat * list Z)) (delivered : list nat) : Prop := {
  k_held : forall i p h, ps !! i = Some p -> held p = Some h ->
    exists sl, slots q !! h = Some sl /\ sl_status sl = Reserved;
  k_unique : forall i j p r h, ps !! i = Some p -> ps !! j = Some r ->
    held p = Some h -> held r = Some h -> i = j;
  k_filling : forall i h, ps !! i = Some (CFilling h) -> h ∉ samples.*1;
  k_closing : forall i h d, ps !! i = Some (CClosing h d) ->
    exists words sl, (h, words) ∈ samples /\ slots q !! h = Some sl /\ holds sl words;
  k_committed : forall h sl, slots q !! h = Some sl -> sl_status sl = Committed ->
    exists words, (h, words) ∈ samples /\ holds sl words;
  k_samples : NoDup (samples.*1) /\ forall h, h ∈ samples.*1 -> (h < length (slots q))%nat;
  k_order : (consumed q <= length (slots q))%nat /\
    forall v, visible q = Some v -> (consumed q <= v <= length (slots q))%nat;
  k_passed : forall h sl, slots q !! h = Some sl -> (h < consumed q)%nat -> sl_status sl <> Reserved;
  k_sorted : StronglySorted lt delivered;
  k_delivered : forall h, h ∈ delivered <->
    (h < consumed q)%nat /\ exists sl, slots q !! h = Some sl /\ sl_status sl = Committed
}.

Lemma collected_pcs ps ps' q samples delivered :
  collected ps q samples delivered ->
  (forall i p, ps' !! i = Some p -> held p = None \/ ps !! i = Some p) -> collected ps' q samples delivered.
Proof.
  intros [H1 H2 H3 H4 H5 H6 H7 H8 H9 H10] Hp. split; try done.
  - intros i p h Hi Hh. destruct (Hp i p Hi) as [?|?]; [congruence|by eapply H1].
  - intros i j p r h Hi Hj Ep Er. destruct (Hp i p Hi) as [?|?]; [congruence|].
    destruct (Hp j r Hj) as [?|?]; [congruence|]. by eapply H2.
  - intros i h Hi. destruct (Hp i _ Hi) as [?|?]; [done|by eapply H3].
  - intros i h d Hi. destruct (Hp i _ Hi) as [?|?]; [done|by eapply H4].
Qed.

(** The handler of thread [i] moves to a state in which it has no record. *)
Lemma collected_idle ps q samples delivered i p :
  collected ps q samples delivered -> held p = None -> collected (<[i := p]> ps) q samples delivered.
Proof.
  intros Hc Hp. apply (collected_pcs ps); [done|]. intros j r Hj.
  destruct (decide (i = j)) as [->|Hne]; [|rewrite list_lookup_insert_ne in Hj by done; by right].
  assert (j < length ps)%nat by (apply lookup_lt_Some in Hj; by rewrite length_insert in Hj).
  rewrite list_lookup_insert_eq in Hj by done. left. congruence.
Qed.

Lemma lookup_pc (ps : list cpc) i p j r :
  <[i := p]> ps !! j = Some r -> (j = i /\ r = p) \/ (j <> i /\ ps !! j = Some r).
Proof.
  destruct (decide (i = j)) as [->|Hne].
  - intros H. assert (j < length ps)%nat by (apply lookup_lt_Some in H; by rewrite length_insert in H).
    rewrite list_lookup_insert_eq in H by done. left. split; [done|congruence].
  - rewrite list_lookup_insert_ne by done. right. split; [congruence|done].
Qed.

Ltac pcs_cases :=
  repeat match goal with
  | H : <[_ := _]> _ !! _ = Some _ |- _ => apply lookup_pc in H as [[? ?]|[? H]]; [subst|]
  end.

Lemma lookup_snoc {A} (l : list A) x h y :
  (l ++ [x]) !! h = Some y -> (h = length l /\ y = x) \/ l !! h = Some y.
Proof.
  intros H. apply lookup_app_Some in H as [?|[? H]]; [by right|]. left.
  apply list_lookup_singleton_Some in H as [? ?]. split; [lia|done].
Qed.

Lemma collected_reserve ps q samples delivered i :
  collected ps q samples delivered ->
  collected (<[i := CFilling (length (slots q))]> ps) (set_slots q (slots q ++ [mkSlot Reserved ∅])) samples delivered.
Proof.
  intros [H1 H2 H3 H4 H5 [H6 H6'] [H7 H7'] H8 H9 H10]. split; cbn [slots set_slots consumed visible].
  - intros j p h Hj Hh. pcs_cases.
    + cbn in Hh. injection Hh as <-. eexists. rewrite lookup_app_r, Nat.sub_diag by lia. done.
    + destruct (H1 j p h Hj Hh) as (sl & Hsl & ?). exists sl. split; [by apply lookup_app_l_Some|done].
  - assert (Hlt : forall j p h, ps !! j = Some p -> held p = Some h -> (h < length (slots q))%nat).
    { intros j p h Hj Hh. destruct (H1 j p h Hj Hh) as (sl & Hsl & _). by apply lookup_lt_Some in Hsl. }
    intros j k p r h Hj Hk Ep Er. pcs_cases; cbn in *; simplify_eq; [done|..].
    + pose proof (Hlt _ _ _ Hj Ep). lia.
    + pose proof (Hlt _ _ _ Hk Er). lia.
    + by eapply H2.
  - intros j h Hj. pcs_cases; [|by eapply H3]. simplify_eq. intros Hin%H6'. lia.
  - intros j h d Hj. pcs_cases; [done|]. destruct (H4 j h d Hj) as (words & sl & ? & ? & ?).
    exists words, sl. split_and!; [done|by apply lookup_app_l_Some|done].
  - intros h sl [[? ->]|Hsl]%lookup_snoc Hst; [done|by eapply H5].
  - split; [done|]. intros h Hh%H6'. rewrite length_app. lia.
  - rewrite length_app. split; [lia|]. intros v Hv%H7'. lia.
  - intros h sl [[-> ->]|Hsl]%lookup_snoc Hlt; [lia|by eapply H8].
  - done.
  - intros h. rewrite H10. split.
    + intros (? & sl & ? & ?). split; [done|]. exists sl. split; [by apply lookup_app_l_Some|done].
    + intros (? & sl & [[-> ->]|Hsl]%lookup_snoc & ?); [lia|]. by eauto.
Qed.

(** The slot of a handler is replaced, while no other handler has it. *)
Lemma lookup_slot (l : list slot) h sl h' sl' :
  <[h := sl]> l !! h' = Some sl' -> (h' = h /\ sl' = sl) \/ (h' <> h /\ l !! h' = Some sl').
Proof.
  destruct (decide (h = h')) as [->|Hne].
  - intros H. assert (h' < length l)%nat by (apply lookup_lt_Some in H; by rewrite length_insert in H).
    rewrite list_lookup_insert_eq in H by done. left. split; [done|congruence].
  - rewrite list_lookup_insert_ne by done. right. split; [congruence|done].
Qed.

(** What a handler does to its own record: its words while it is reserved, then its status. *)
Lemma collected_slot ps q samples samples' delivered i p p' h sl sl' :
  collected ps q samples delivered -> ps !! i = Some p -> held p = Some h ->
  slots q !! h = Some sl -> sl_status sl = Reserved ->
  (held p' = None \/ (held p' = Some h /\ sl_status sl' = Reserved)) ->
  (forall h', p' <> CFilling h') ->
  (forall h' d, p' = CClosing h' d -> exists words, (h, words) ∈ samples' /\ holds sl' words) ->
  (sl_status sl' = Committed -> exists words, (h, words) ∈ samples' /\ holds sl' words) ->
  (samples' = samples \/ exists words, p = CFilling h /\ samples' = samples ++ [(h, words)]) ->
  collected (<[i := p']> ps) (set_slots q (<[h := sl']> (slots q))) samples' delivered.
Proof.
  intros [H1 H2 H3 H4 H5 [H6 H6'] [H7 H7'] H8 H9 H10] Hi Hp Hsl Hst Hp' Hnf Hcl Hco Hsam.
  assert (Hh : (h < length (slots q))%nat) by by apply lookup_lt_Some in Hsl.
  assert (Hcons : (consumed q <= h)%nat).
  { destruct (decide (h < consumed q)%nat); [|lia]. by destruct (H8 h sl Hsl ltac:(lia)). }
  assert (Hsub : forall x, x ∈ samples -> x ∈ samples').
  { destruct Hsam as [->|(words & _ & ->)]; set_solver. }
  assert (Hother : forall j r, j <> i -> ps !! j = Some r -> held r <> Some h).
  { intros j r Hji Hj Hr. by apply Hji, (H2 j i r p h). }
  split; cbn [slots set_slots consumed visible]; rewrite ?length_insert.
  - intros j r h' Hj Hr. pcs_cases.
    + destruct Hp' as [?|[Hp' ?]]; [congruence|]. assert (h' = h) as -> by congruence.
      exists sl'. split; [by apply list_lookup_insert_eq|done].
    + assert (h' <> h) by (intros ->; by eapply Hother). destruct (H1 j r h' Hj Hr) as (x & ? & ?).
      exists x. split; [by rewrite list_lookup_insert_ne|done].
  - intros j k r r' h' Hj Hk Er Er'. pcs_cases; [done|..|by eapply H2].
    + exfalso. destruct Hp' as [?|[Hp' _]]; [congruence|]. assert (h' = h) as -> by congruence. by eapply Hother.
    + exfalso. destruct Hp' as [?|[Hp' _]]; [congruence|]. assert (h' = h) as -> by congruence. by eapply Hother.
  - intros j h' Hj. pcs_cases; [by destruct (Hnf h')|]. pose proof (H3 j h' Hj).
    destruct Hsam as [->|(words & _ & ->)]; [done|]. rewrite fmap_app. cbn.
    assert (h' <> h) by (intros ->; by eapply Hother). set_solver.
  - intros j h' d Hj. pcs_cases.
    + destruct (Hcl h' d eq_refl) as (words & ? & ?). destruct Hp' as [?|[Hp' ?]]; [done|]. cbn in Hp'.
      injection Hp' as ->. exists words, sl'. split_and!; [done|by apply list_lookup_insert_eq|done].
    + assert (h' <> h) by (intros ->; by eapply Hother). destruct (H4 j h' d Hj) as (words & x & ? & ? & ?).
      exists words, x. split_and!; [auto|by rewrite list_lookup_insert_ne|done].
  - intros h' x [[-> ->]|[? Hx]]%lookup_slot Hc; [auto|]. destruct (H5 h' x Hx Hc) as (words & ? & ?). eauto.
  - destruct Hsam as [->|(words & -> & ->)]; [done|]. rewrite fmap_app. cbn. split.
    + apply NoDup_app. split_and!; [done| |apply NoDup_singleton].
      intros y Hy Hy'%list_elem_of_singleton. subst y. by apply (H3 i h Hi).
    + intros y. rewrite elem_of_app, list_elem_of_singleton. intros [?| ->]; auto.
  - done.
  - intros h' x [[-> ->]|[? Hx]]%lookup_slot ?; [lia|by eapply H8].
  - done.
  - intros h'. rewrite H10. split.
    + intros (? & x & ? & ?). split; [done|]. exists x. split; [rewrite list_lookup_insert_ne by lia; done|done].
    + intros (? & x & [[-> ->]|[? Hx]]%lookup_slot & ?); [lia|]. eauto.
Qed.

Lemma collected_reader ps q samples delivered r v tk :
  collected ps q samples delivered ->
  (v = None \/ v = Some (length (slots q))) ->
  collected ps (mkQ (slots q) r (consumed q) v tk) samples delivered.
Proof.
  intros [H1 H2 H3 H4 H5 H6 [H7 H7'] H8 H9 H10] Hv. split; cbn [slots consumed visible]; try done.
  split; [done|]. intros w Hw. destruct Hv as [->| ->]; [done|]. injection Hw as <-. lia.
Qed.

(** What the reader skips and finds. *)
Lemma a_next_cases l : forall c c' o, a_next c l = (c', o) ->
  (c <= c' <= c + length l)%nat /\
  (forall k sl, l !! k = Some sl -> (c + k < c')%nat -> sl_status sl = Committed -> o = Some (c + k)%nat) /\
  (forall k sl, l !! k = Some sl -> (c + k < c')%nat -> sl_status sl <> Reserved) /\
  (forall t, o = Some t -> (c <= t < c')%nat /\ exists sl, l !! (t - c)%nat = Some sl /\ sl_status sl = Committed).
Proof.
  induction l as [|[st ws] l IH]; cbn [a_next sl_status length]; intros c c' o H; simplify_eq.
  { split_and!; [lia|lia|done|done|done]. }
  destruct st; simplify_eq.
  - split_and!; [lia|lia| | |done]; intros k sl _ ?; lia.
  - split_and!; [lia|lia|..].
    + intros [|k] sl Hk ? ?; [f_equal; lia|lia].
    + intros [|k] sl Hk ?; [|lia]. by injection Hk as <-.
    + intros t [= <-]. split; [lia|]. rewrite Nat.sub_diag. by eexists.
  - apply IH in H as (Hb & Hc & Hr & Ht). split_and!; [lia|lia|..].
    + intros [|k] sl Hk ? Hst; [by injection Hk as <-|]. rewrite (Hc k sl Hk ltac:(lia) Hst). f_equal. lia.
    + intros [|k] sl Hk ?; [by injection Hk as <-|]. apply (Hr k sl Hk). lia.
    + intros t E. destruct (Ht t E) as (Hlt & sl & Hk & Hst). split; [lia|]. exists sl.
      replace (t - c)%nat with (S (t - S c)) by lia. done.
Qed.

Lemma collected_next ps q samples delivered v c' o :
  collected ps q samples delivered -> visible q = Some v ->
  a_next (consumed q) (drop (consumed q) (take v (slots q))) = (c', o) ->
  collected ps (mkQ (slots q) (released q) c' (Some v) (taken q ++ option_list o)) samples
    (delivered ++ option_list o).
Proof.
  intros [H1 H2 H3 H4 H5 H6 [H7 H7'] H8 H9 H10] Hv Hn. specialize (H7' v Hv).
  apply a_next_cases in Hn as (Hb & Hc & Hr & Ht).
  rewrite length_drop, length_take, Nat.min_l in Hb by lia.
  assert (Hl : forall h sl, (consumed q <= h < c')%nat -> slots q !! h = Some sl ->
    drop (consumed q) (take v (slots q)) !! (h - consumed q)%nat = Some sl).
  { intros h sl Hh Hsl. rewrite lookup_drop, lookup_take_Some. split; [|lia].
    by replace (consumed q + (h - consumed q))%nat with h by lia. }
  split; cbn [slots consumed visible]; try done.
  - split; [lia|]. intros w [= <-]. lia.
  - intros h sl Hsl Hlt. destruct (decide (h < consumed q)%nat); [by apply (H8 h)|].
    apply (Hr (h - consumed q)%nat); [apply Hl; [lia|done]|lia].
  - destruct o as [t|]; cbn; [|by rewrite app_nil_r].
    destruct (Ht t eq_refl) as (Hlt & _).
    assert (forall x, x ∈ delivered -> (x < t)%nat) as Hx by (intros x [? _]%H10; lia).
    clear -H9 Hx. induction H9 as [|y l Hs IH Hy]; cbn; [repeat constructor|].
    constructor; [apply IH; intros x ?; apply Hx; by right|]. apply Forall_app. split; [done|].
    constructor; [apply Hx; by left|constructor].
  - intros h. rewrite elem_of_app, H10. split.
    + intros [(? & sl & ? & ?)|Hin]; [split; [lia|by eauto]|].
      destruct o as [t|]; cbn in Hin; [|set_solver]. apply list_elem_of_singleton in Hin as ->.
      destruct (Ht t eq_refl) as (? & sl & Hsl & ?). split; [lia|]. exists sl. split; [|done].
      rewrite lookup_drop, lookup_take_Some in Hsl. destruct Hsl as [Hsl _].
      by replace (consumed q + (t - consumed q))%nat with t in Hsl by lia.
    + intros (? & sl & Hsl & Hst). destruct (decide (h < consumed q)%nat); [left; by eauto|right].
      rewrite (Hc (h - consumed q)%nat sl (Hl h sl ltac:(lia) Hsl) ltac:(lia) Hst). cbn.
      apply list_elem_of_singleton. lia.
Qed.

(** *** Calls to the ring buffer *)

Definition with_ring (q : queue) (es : list event) (c : Cpu) : Cpu :=
  mkCpu (c_service c) (c_instance c) (c_threads c) (c_timers c) (_nbThreadsInSignalHandler c)
    (_totalSampling c) (c_discards c) q (c_samples c) (c_events c ++ es) (c_delivered c).

Section invariant.
Context (cap : nat) (size : Z).

Lemma a_run_app es1 es2 q : forall q1 o1 q2 o2,
  a_run cap size q es1 = Some (q1, o1) -> a_run cap size q1 es2 = Some (q2, o2) ->
  a_run cap size q (es1 ++ es2) = Some (q2, o1 ++ o2).
Proof.
  revert q. induction es1 as [|e es1 IH]; intros q q1 o1 q2 o2 H1 H2; cbn [a_run app] in *; [by simplify_eq|].
  destruct (a_step cap size q e) as [[q' o]|]; cbn in *; [|done].
  destruct (a_run cap size q' es1) as [[q'' os]|] eqn:E; cbn in *; [|done]. simplify_eq.
  by rewrite (IH q' q1 os q2 o2 E H2).
Qed.

Definition traced (c : Cpu) : Prop :=
  exists outs, a_run cap size empty_queue (c_events c) = Some (c_queue c, outs).

Lemma traced_ring c q es outs :
  traced c -> a_run cap size (c_queue c) es = Some (q, outs) -> traced (with_ring q es c).
Proof. intros [o Ho] He. eexists. cbn. by eapply a_run_app. Qed.

Lemma ring_step e c q o :
  a_step cap size (c_queue c) e = Some (q, o) -> ring cap size e c = Some (with_ring q [e] c, o).
Proof. intros E. unfold ring. by rewrite E. Qed.

Lemma traced_step c e q o :
  traced c -> a_step cap size (c_queue c) e = Some (q, o) -> traced (with_ring q [e] c).
Proof. intros Ht E. eapply traced_ring; [done|]. cbn. by rewrite E. Qed.

Lemma update_reserved_ok q h sl f :
  slots q !! h = Some sl -> sl_status sl = Reserved ->
  update_reserved q h f = Some (set_slots q (<[h := f sl]> (slots q)), ODone).
Proof. intros Hsl Hst. unfold update_reserved. rewrite Hsl. cbn. by rewrite Hst. Qed.

Lemma write_words_spec words : forall h j c sl,
  slots (c_queue c) !! h = Some sl -> sl_status sl = Reserved -> 0 <= j -> 8 * (j + zlen words) <= size ->
  exists sl' es outs,
    write_words cap size h j words c =
      Some (with_ring (set_slots (c_queue c) (<[h := sl']> (slots (c_queue c)))) es c) /\
    a_run cap size (c_queue c) es = Some (set_slots (c_queue c) (<[h := sl']> (slots (c_queue c))), outs) /\
    sl_status sl' = Reserved /\
    (forall k v, words !! k = Some v -> sl_words sl' !! (j + Z.of_nat k) = Some v) /\
    (forall j', j' < j -> sl_words sl' !! j' = sl_words sl !! j').
Proof.
  induction words as [|v words IH]; intros h j c sl Hsl Hst Hj Hs; cbn [write_words].
  - exists sl, [], []. rewrite list_insert_id by done. split_and!; try done.
    + unfold with_ring, set_slots. destruct c as [? ? ? ? ? ? ? [] ? ? ?]. cbn. by rewrite app_nil_r.
    + cbn. unfold set_slots. by destruct (c_queue c).
  - cbn [length] in Hs.
    assert (E : a_step cap size (c_queue c) (EWrite h j v) =
      Some (set_slots (c_queue c) (<[h := mkSlot Reserved (<[j := v]> (sl_words sl))]> (slots (c_queue c))), ODone)).
    { cbn [a_step]. rewrite (proj2 (Z.leb_le _ _)), (proj2 (Z.ltb_lt _ _)) by lia. cbn [andb].
      by rewrite (update_reserved_ok _ _ sl). }
    rewrite (ring_step _ _ _ _ E). cbn [mbind option_bind].
    assert (Hh : (h < length (slots (c_queue c)))%nat) by by apply lookup_lt_Some in Hsl.
    destruct (IH h (j + 1) (with_ring (set_slots (c_queue c)
      (<[h := mkSlot Reserved (<[j := v]> (sl_words sl))]> (slots (c_queue c)))) [EWrite h j v] c)
      (mkSlot Reserved (<[j := v]> (sl_words sl)))) as (sl' & es & outs & Ew & Ea & Hst' & Hw & Hlow);
      [cbn; by apply list_lookup_insert_eq|done|lia|lia|].
    cbn [c_queue with_ring slots set_slots released consumed visible taken] in Ew, Ea.
    rewrite list_insert_insert_eq in Ew, Ea.
    exists sl', (EWrite h j v :: es), (ODone :: outs). split_and!; try done.
    + rewrite Ew. unfold with_ring. cbn. by rewrite <- app_assoc.
    + cbn [a_run]. rewrite E. cbn [mbind option_bind]. unfold set_slots in Ea |- *. cbn in Ea |- *. by rewrite Ea.
    + intros [|k] x Hx; cbn in Hx.
      * injection Hx as ->. rewrite Z.add_0_r, Hlow by lia. cbn. by rewrite lookup_insert_eq.
      * replace (j + Z.of_nat (S k)) with (j + 1 + Z.of_nat k) by lia. by apply Hw.
    + intros j' Hj'. rewrite Hlow by lia. cbn. rewrite lookup_insert_ne by lia. done.
Qed.

(** ** Preservation *)

Record inv (c : Cpu) : Prop := {
  i_collected : collected (pcs c) (c_queue c) (c_samples c) (c_delivered c);
  i_count : _nbThreadsInSignalHandler c = u64 (total (pcs c));
  i_traced : traced c
}.

Lemma pcs_insert i t (ts : list Thread) : t_pc <$> <[i := t]> ts = <[i := t_pc t]> (t_pc <$> ts).
Proof. apply list_fmap_insert. Qed.

Lemma total_set ps i p p' : ps !! i = Some p -> total (<[i := p']> ps) = total ps - counted p + counted p'.
Proof.
  revert i. induction ps as [|x ps IH]; intros [|i] H; cbn in *; [done..| |].
  - injection H as ->. lia.
  - rewrite IH by done. lia.
Qed.

(** A step that leaves the handlers and the ring buffer alone. *)
Lemma inv_frame c c' :
  inv c -> pcs c' = pcs c -> c_queue c' = c_queue c -> c_samples c' = c_samples c ->
  c_delivered c' = c_delivered c -> c_events c' = c_events c ->
  _nbThreadsInSignalHandler c' = _nbThreadsInSignalHandler c -> inv c'.
Proof.
  intros [H1 H2 H3] E1 E2 E3 E4 E5 E6. split; [by rewrite E1, E2, E3, E4|by rewrite E1, E6|].
  unfold traced in *. by rewrite E2, E5.
Qed.

Lemma same_pc_insert i t t' (ts : list Thread) :
  ts !! i = Some t -> t_pc t' = t_pc t -> t_pc <$> <[i := t']> ts = t_pc <$> ts.
Proof.
  intros Hi E. rewrite pcs_insert, E. apply list_insert_id. by rewrite list_lookup_fmap, Hi.
Qed.

Lemma inv_register i t p id c : inv c -> c_threads c !! i = Some t -> inv (RegisterThreadImpl i t p id c).1.
Proof.
  intros Hi Et. destruct p; cbn; [done| |].
  - destruct (timer_create id (c_timers c)); cbn; [by eapply inv_frame|done].
  - eapply inv_frame; try done. by eapply same_pc_insert.
Qed.

Lemma inv_unregister i t p c : inv c -> c_threads c !! i = Some t -> inv (UnregisterThreadImpl i t p c).1.
Proof.
  intros Hi Et. destruct p; cbn; [done| |by eapply inv_frame]. eapply inv_frame; try done. by eapply same_pc_insert.
Qed.

Lemma inv_service sv c : inv c -> inv (set_service sv c).
Proof. intros Hi. by eapply inv_frame. Qed.

Lemma inv_instance b c : inv c -> inv (set_instance b c).
Proof. intros Hi. by eapply inv_frame. Qed.

Definition preserved (o : outcome) : Prop :=
  match o with Disabled => True | Broken => False | Next c => inv c end.

Lemma pc_lookup c i t : c_threads c !! i = Some t -> pcs c !! i = Some (t_pc t).
Proof. intros H. unfold pcs. by rewrite list_lookup_fmap, H. Qed.

(** A handler that holds no record moves on. *)
Lemma inv_handler_moves c i t p b d nb n :
  inv c -> c_threads c !! i = Some t -> held p = None ->
  nb = u64 (total (pcs c) - counted (t_pc t) + counted p) ->
  inv (set_thread i (at_pc p b t) (mkCpu (c_service c) (c_instance c) (c_threads c)
    (c_timers c) nb n d (c_queue c) (c_samples c) (c_events c) (c_delivered c))).
Proof.
  intros [H1 H2 H3] Ht Hh ->. pose proof (pc_lookup c i t Ht) as Hl. split; [| |done].
  - cbn. unfold pcs. cbn [c_threads]. rewrite pcs_insert. by apply collected_idle.
  - cbn. unfold pcs. cbn [c_threads]. rewrite pcs_insert, (total_set _ _ (t_pc t)) by done. done.
Qed.

Lemma inv_enter c i t : inv c -> c_threads c !! i = Some t -> t_pc t = CEntered -> inv (enter i t c).
Proof.
  intros Hi Ht Hp. apply inv_handler_moves; [done..|]. rewrite (i_count c Hi), u64_add, Hp. f_equal. cbn. lia.
Qed.

Lemma inv_fire c i t known inside segv :
  inv c -> c_threads c !! i = Some t -> t_pc t = CCounted -> inv (fire i t known inside segv c).
Proof.
  intros Hi Ht Hp.
  assert (Hm : u64 (_nbThreadsInSignalHandler c + -1) = u64 (total (pcs c) - counted (t_pc t) + counted CIdle)).
  { rewrite (i_count c Hi), u64_add, Hp. f_equal. cbn. lia. }
  unfold fire, CanCollect. repeat (case_if; [by apply (inv_handler_moves c)|]).
  apply (inv_handler_moves c _ _ _ _ (c_discards c) _ (_totalSampling c)); [done..|].
  change (_nbThreadsInSignalHandler c = u64 (total (pcs c) - counted (t_pc t) + counted CCollecting)).
  rewrite (i_count c Hi), Hp. f_equal. cbn. lia.
Qed.

Lemma inv_reserve c i t owns_lock :
  inv c -> c_threads c !! i = Some t -> t_pc t = CCollecting -> preserved (reserve cap size i t owns_lock c).
Proof.
  intros [H1 H2 H3] Ht Hp. pose proof (pc_lookup c i t Ht) as Hl. rewrite Hp in Hl. unfold reserve, new_SampleHolder.
  assert (Hno : forall o d, a_step cap size (c_queue c) (EReserve owns_lock) = Some (c_queue c, o) ->
    inv (set_thread i (at_pc CIdle false t)
      (in_handler (-1) (discards d (with_ring (c_queue c) [EReserve owns_lock] c))))).
  { intros o d E. split.
    - cbn. unfold pcs. cbn [c_threads]. rewrite pcs_insert. by apply collected_idle.
    - cbn. unfold pcs. cbn [c_threads]. rewrite pcs_insert, (total_set _ _ CCollecting) by done.
      rewrite H2, u64_add. f_equal. cbn. unfold pcs. lia.
    - exact (traced_step c _ _ _ H3 E). }
  destruct owns_lock.
  - destruct (decide (length (slots (c_queue c)) - released (c_queue c) < cap)%nat) as [Hr|Hr].
    + assert (E : a_step cap size (c_queue c) (EReserve true) =
        Some (set_slots (c_queue c) (slots (c_queue c) ++ [mkSlot Reserved ∅]), OGranted))
        by (cbn; by rewrite decide_True).
      rewrite (ring_step _ _ _ _ E). split.
      * cbn. unfold pcs. cbn [c_threads]. rewrite pcs_insert. by apply collected_reserve.
      * cbn. unfold pcs. cbn [c_threads]. rewrite pcs_insert, (total_set _ _ CCollecting) by done.
        rewrite H2. f_equal. cbn. unfold pcs. lia.
      * exact (traced_step c _ _ _ H3 E).
    + assert (E : a_step cap size (c_queue c) (EReserve true) = Some (c_queue c, OFull))
        by (cbn; by rewrite decide_False).
      rewrite (ring_step _ _ _ _ E). by eapply Hno.
  - assert (E : a_step cap size (c_queue c) (EReserve false) = Some (c_queue c, OTimeout)) by done.
    rewrite (ring_step _ _ _ _ E). by eapply Hno.
Qed.

Lemma inv_fill c i t h count words :
  inv c -> c_threads c !! i = Some t -> t_pc t = CFilling h -> 8 * zlen words <= size ->
  preserved (fill cap size i t h count words c).
Proof.
  intros [H1 H2 H3] Ht Hp Hs. pose proof (pc_lookup c i t Ht) as Hl. rewrite Hp in Hl. unfold fill.
  destruct (k_held _ _ _ _ H1 i _ h Hl eq_refl) as (sl & Hsl & Hst).
  destruct (write_words_spec words h 0 c sl Hsl Hst) as (sl' & es & outs & -> & Ea & Hst' & Hw & _); [lia..|].
  assert (Hgoal : forall d ds nb, nb = u64 (_nbThreadsInSignalHandler c + -1) ->
    inv (set_thread i (at_pc (CClosing h d) true t)
      (mkCpu (c_service c) (c_instance c) (c_threads c) (c_timers c) nb (_totalSampling c) ds
        (set_slots (c_queue c) (<[h := sl']> (slots (c_queue c)))) (c_samples c ++ [(h, words)])
        (c_events c ++ es) (c_delivered c)))).
  { intros d ds nb ->. split.
    - cbn. unfold pcs. cbn [c_threads]. rewrite pcs_insert. cbn [t_pc at_pc].
      eapply (collected_slot _ _ (c_samples c)); try done; [by right|..|right; by eexists].
      + intros _ _ _. exists words. split; [set_solver|exact Hw].
      + congruence.
    - cbn. unfold pcs. cbn [c_threads]. rewrite pcs_insert, (total_set _ _ (CFilling h)) by done.
      rewrite H2, u64_add. f_equal. cbn. unfold pcs. lia.
    - exact (traced_ring c _ es outs H3 Ea). }
  destruct (count =? 0); by apply Hgoal.
Qed.

Lemma inv_close c i t h discard :
  inv c -> c_threads c !! i = Some t -> t_pc t = CClosing h discard -> preserved (close cap size i t h discard c).
Proof.
  intros [H1 H2 H3] Ht Hp. pose proof (pc_lookup c i t Ht) as Hl. rewrite Hp in Hl. unfold close.
  destruct (k_held _ _ _ _ H1 i _ h Hl eq_refl) as (sl & Hsl & Hst).
  destruct (k_closing _ _ _ _ H1 i h discard Hl) as (words & sl0 & Hin & Hsl0 & Hw).
  assert (sl0 = sl) as -> by congruence.
  set (e := if discard then EDiscard h else ECommit h).
  assert (E : a_step cap size (c_queue c) e =
    Some (set_slots (c_queue c) (<[h := mkSlot (if discard then Discarded else Committed) (sl_words sl)]>
      (slots (c_queue c))), ODone)).
  { unfold e. destruct discard; cbn [a_step]; by rewrite (update_reserved_ok _ _ sl). }
  rewrite (ring_step _ _ _ _ E). split.
  - cbn. unfold pcs. cbn [c_threads]. rewrite pcs_insert. cbn [t_pc at_pc].
    eapply (collected_slot _ _ (c_samples c)); try done; [by left|..|by left].
    intros _. by exists words.
  - cbn. unfold pcs. cbn [c_threads]. rewrite pcs_insert, (total_set _ _ (CClosing h discard)) by done.
    rewrite H2. f_equal. cbn. unfold pcs. lia.
  - exact (traced_step c _ _ _ H3 E).
Qed.

Lemma inv_next c v : inv c -> visible (c_queue c) = Some v ->
  preserved (checked (delivers (c_queue c) ∘ fst <$> ring cap size ENext c)).
Proof.
  intros [H1 H2 H3] Hv. destruct (a_next (consumed (c_queue c))
    (drop (consumed (c_queue c)) (take v (slots (c_queue c))))) as [c' o] eqn:En.
  set (q' := mkQ (slots (c_queue c)) (released (c_queue c)) c' (Some v) (taken (c_queue c) ++ option_list o)).
  assert (E : exists out, a_step cap size (c_queue c) ENext = Some (q', out)).
  { cbn [a_step]. rewrite Hv. cbn [mbind option_bind]. rewrite En. unfold q'.
    destruct o; eexists; [done|]. cbn. by rewrite app_nil_r. }
  destruct E as [out E]. rewrite (ring_step _ _ _ _ E). cbn [fmap option_fmap option_map compose fst checked preserved].
  split.
  - cbn. rewrite drop_app_length. by apply collected_next.
  - done.
  - exact (traced_step c _ _ _ H3 E).
Qed.

Lemma inv_loop id c : inv c -> preserved (loop_step id c).
Proof.
  intros Hi. unfold loop_step. destruct (s_point (c_service c)) as [| |k [p|]| | | |k [p|]|]; try done;
    (destruct (c_threads c !! k) as [t|] eqn:Et; [|first [done|by apply inv_service]]); try by apply inv_service.
  - pose proof (inv_register k t p id c Hi Et). destruct (RegisterThreadImpl k t p id c). by apply inv_service.
  - pose proof (inv_unregister k t p c Hi Et). destruct (UnregisterThreadImpl k t p c). by apply inv_service.
Qed.

Lemma inv_begin_call i k c : inv c -> preserved (begin_call i k c).
Proof.
  intros Hi. unfold begin_call. destruct (c_threads c !! i); [|done]. case_match; [|done]. by apply inv_service.
Qed.

Lemma inv_continue_call n id c : inv c -> preserved (continue_call n id c).
Proof.
  intros Hi. unfold continue_call. destruct (s_calls (c_service c) !! n) as [[i k]|]; [|done].
  destruct (c_threads c !! i) as [t|] eqn:Et; [|done].
  assert (inv (call_step i t k id c).1) as Hc.
  { destruct k as [|p|p]; cbn; [done| |].
    - pose proof (inv_register i t p id c Hi Et). by destruct (RegisterThreadImpl i t p id c).
    - pose proof (inv_unregister i t p c Hi Et). by destruct (UnregisterThreadImpl i t p c). }
  destruct (call_step i t k id c). by apply inv_service.
Qed.

Lemma step_preserves c a : inv c -> preserved (step cap size c a).
Proof.
  intros Hi. destruct a as [|reg| | | | | |id|i|i|n id|i|i|i|i|i known inside segv|i owns|i count words|i| | |]; cbn [step].
  - unfold Start_begin. case_match; try done. by apply inv_service.
  - unfold StartImpl. case_match; try done. destruct reg; [|by apply inv_service].
    destruct (unlocked c); [|done]. by apply inv_service, inv_instance.
  - unfold Start_end. case_match; try done. by apply inv_service.
  - unfold Stop_begin. case_match; try done. by apply inv_service.
  - unfold StopImpl. case_match; try done. by apply inv_service, inv_instance.
  - unfold StopImpl_lock. case_match; try done. destruct (unlocked c); [|done]. by apply inv_service.
  - unfold Stop_end. case_match; try done. by apply inv_service.
  - by apply inv_loop.
  - by apply inv_begin_call.
  - by apply inv_begin_call.
  - by apply inv_continue_call.
  - destruct (c_threads c !! i) as [t|] eqn:Et; [|done]. destruct (t_locked t); [done|].
    eapply inv_frame; try done. by eapply same_pc_insert.
  - destruct (c_threads c !! i) as [t|] eqn:Et; [|done].
    destruct (t_pc t) eqn:Ep; try done; (eapply inv_frame; try done; by eapply same_pc_insert).
  - destruct (c_threads c !! i) as [t|] eqn:Et; [|done]. destruct (t_pc t) eqn:Ep; try done.
    destruct (c_instance c); [|done]. pose proof (pc_lookup c i t Et) as Hl. rewrite Ep in Hl. split; [| |by destruct Hi].
    + cbn. unfold pcs. cbn [c_threads]. rewrite pcs_insert. apply collected_idle; [apply Hi|done].
    + cbn. unfold pcs. cbn [c_threads]. rewrite pcs_insert, (total_set _ _ CIdle) by done.
      rewrite (i_count c Hi). f_equal. cbn. unfold pcs. lia.
  - destruct (c_threads c !! i) as [t|] eqn:Et; [|done]. destruct (t_pc t) eqn:Ep; try done. by apply inv_enter.
  - destruct (c_threads c !! i) as [t|] eqn:Et; [|done]. destruct (t_pc t) eqn:Ep; try done. by apply inv_fire.
  - destruct (c_threads c !! i) as [t|] eqn:Et; [|done]. destruct (t_pc t) eqn:Ep; try done. by apply inv_reserve.
  - destruct (c_threads c !! i) as [t|] eqn:Et; [|done]. destruct (t_pc t) eqn:Ep; try done.
    destruct (Z.leb_spec (8 * zlen words) size); [|done]. by apply inv_fill.
  - destruct (c_threads c !! i) as [t|] eqn:Et; [|done]. destruct (t_pc t) eqn:Ep; try done. by apply inv_close.
  - destruct (visible (c_queue c)) as [v|] eqn:Ev; [done|]. destruct Hi as [H1 H2 H3].
    assert (E : a_step cap size (c_queue c) EOpen = Some (mkQ (slots (c_queue c)) (released (c_queue c))
      (consumed (c_queue c)) (Some (length (slots (c_queue c)))) [], ODone)) by (cbn; by rewrite Ev).
    rewrite (ring_step _ _ _ _ E). split; [cbn; apply collected_reader; [done|by right]|done|].
    exact (traced_step c _ _ _ H3 E).
  - destruct (visible (c_queue c)) as [v|] eqn:Ev; [|done]. by eapply inv_next.
  - destruct (visible (c_queue c)) as [v|] eqn:Ev; [|done]. destruct Hi as [H1 H2 H3].
    assert (E : a_step cap size (c_queue c) EClose = Some (mkQ (slots (c_queue c)) (consumed (c_queue c))
      (consumed (c_queue c)) None [], ODone)) by (cbn; by rewrite Ev).
    rewrite (ring_step _ _ _ _ E). split; [cbn; apply collected_reader; [done|by left]|done|].
    exact (traced_step c _ _ _ H3 E).
Qed.

Lemma start_inv threads : inv (start threads).
Proof.
  assert (Hp : forall i p, pcs (start threads) !! i = Some p -> p = CIdle).
  { intros i p. unfold pcs. cbn. rewrite !list_lookup_fmap. destruct (threads !! i); cbn; congruence. }
  split.
  - split; cbn; try done.
    + intros i p h Hi Hh. by rewrite (Hp i p Hi) in Hh.
    + intros i j p r h Hi _ Hh. by rewrite (Hp i p Hi) in Hh.
    + intros i h Hi. by apply Hp in Hi.
    + intros i h d Hi. by apply Hp in Hi.
    + split; [constructor|]. intros h Hh. set_solver.
    + constructor.
    + intros h. split; [set_solver|]. intros [? _]. lia.
  - assert (total (pcs (start threads)) = 0) as E; [|by rewrite E]. clear Hp. unfold pcs. cbn.
    induction threads as [|x l IH]; cbn; [done|]. done.
  - by exists [].
Qed.

Lemma run_preserves c actions o : inv c -> run cap size c actions = Some o -> exists c', o = Some c' /\ inv c'.
Proof.
  revert c. induction actions as [|a actions IH]; intros c Hi; cbn [run]; [intros [= <-]; by exists c|].
  pose proof (step_preserves c a Hi) as Hs. destruct (step cap size c a) as [| |c']; [done|done|]. by apply IH.
Qed.
End invariant.

(** ** Timers *)

















(** *** The service and the calls *)






(** **** Handlers *)








(** **** The start and the stop *)



(** **** The loops *)






(** **** The calls *)






(** **** Every step *)








(** ** Theorems *)

(** C2: Whatever the interleaving of the SIGPROF handlers of the threads, the exporter, the other
    users of the threads and the start and stop of the service, the CPU profiler never misuses
    its ring buffer, and the records the exporter is given, in the order of their
    reservations, are exactly the committed ones it went past: each holds the words of the
    one sample that a handler wrote for it.  The calls the run made, replayed on the ring
    buffer that [Create] mapped, succeed with the same answers, as long as less than 2^64
    bytes are written. *)
Theorem cpu_samples_delivered os page req size rb threads actions o :
  Create os page req size = inr rb ->
  8 <= page <= 2 ^ 63 -> 0 <= req <= 2 ^ 63 -> 0 <= size < 2 ^ 61 ->
  run (capacity rb) size (start threads) actions = Some o ->
  exists c, o = Some c /\
    StronglySorted lt (c_delivered c) /\ NoDup (c_samples c).*1 /\
    (forall h, h ∈ c_delivered c <-> (h < consumed (c_queue c))%nat /\
      exists sl, slots (c_queue c) !! h = Some sl /\ sl_status sl = Committed) /\
    (forall h, h ∈ c_delivered c -> exists words sl,
      (h, words) ∈ c_samples c /\ slots (c_queue c) !! h = Some sl /\ holds sl words) /\
    (zlen (c_events c) * record_size size < 2 ^ 64 -> exists s outs,
      a_run (capacity rb) size empty_queue (c_events c) = Some (c_queue c, outs) /\
      c_run (mkSys rb [] None []) (c_events c) = Some (s, outs) /\ rel s (c_queue c)).
Proof.
  intros Hc Hp Hr Hs Hrun.
  destruct (run_preserves _ _ _ _ _ (start_inv (capacity rb) size threads) Hrun) as (c & -> & [Hcol _ (outs & Ha)]).
  exists c. split; [done|]. split; [apply Hcol|]. split; [apply Hcol|]. split; [apply Hcol|]. split.
  - intros h Hh. apply (k_delivered _ _ _ _ Hcol) in Hh as (_ & sl & Hsl & Hst).
    destruct (k_committed _ _ _ _ Hcol h sl Hsl Hst) as (words & ? & ?). by exists words, sl.
  - intros Hov. destruct (Create_rel _ _ _ _ _ Hc Hp Hr Hs) as [R _]. pose proof (Create_inr _ _ _ _ _ Hc) as Hrb.
    destruct (run_refines (c_events c) (mkSys rb [] None []) empty_queue (c_queue c) outs) as (s & Hc' & R'); [done|..|by eauto].
    + unfold pos. cbn [rb_ slots empty_queue length]. rewrite Hrb in *. cbn -[record_size] in *. lia.
    + cbn [rb_]. replace (sample_size rb) with size; [done|]. by rewrite Hrb.
Qed.


Module Example_cpu.
(** The service starts; the kernel gives the threads these timers. *)
Definition starts (ids : list Z) : list action :=
  [AStart; AStartImpl true] ++ (ids ≫= fun id => [ALoop None; ALoop None; ALoop (Some id); ALoop None]) ++
  [ALoop None; AStartEnd].
(** [StopImpl] on [n] threads with timers. *)
Definition stops (n : nat) : list action :=
  [AStop; AStopImpl; AStopLock] ++ replicate (4 * n + 1) (ALoop None) ++ [AStopEnd].

(** Two threads are sampled; one stack is empty; the exporter reads both records. *)
Definition two_samples : list action :=
  starts [7; 8] ++
  [AFire 0; ALock 1; AFire 1; ACount 1; ACollect 1 true false false;
   ACount 0; ACollect 0 true false false; AReserve 0 true; AUnlock 1; AFire 1; ACount 1; ACollect 1 true false false;
   AReserve 1 true; AFill 1 2 [21; 22]; AFill 0 0 []; AClose 1; AOpenReader; AMoveNext; AClose 0; AMoveNext; AMoveNext;
   ACloseReader].
Definition witness_threads : list Z := [100; 101].

Definition summary (o : option (option Cpu)) : option (list nat * list DiscardReason * Z * Z * list Z) :=
  match o with
  | Some (Some c) => Some (c_delivered c, c_discards c, _totalSampling c, _nbThreadsInSignalHandler c, elements (c_timers c))
  | _ => None
  end.

Example two_samples_delivered :
  summary (run 2 16 (start witness_threads) two_samples) =
    Some ([1%nat], [FailedAcquiringLock; EmptyBacktrace], 3, 0, [7; 8]).
Proof. vm_compute. reflexivity. Qed.

(** [StopImpl] sees no handler and the service is stopped, while a handler has yet to commit
    its record. *)
Example stopped_before_commit :
  match run 2 16 (start witness_threads)
    (starts [7; 8] ++ [AFire 0; ACount 0; ACollect 0 true false false; AReserve 0 true; AFill 0 1 [11]] ++ stops 2) with
  | Some (Some c) => s_state (c_service c) = Stopped /\ t_pc <$> c_threads c = [CClosing 0 false; CIdle] /\ c_timers c = ∅
  | _ => False
  end.
Proof. vm_compute. done. Qed.

(** A handler that read the profiler before [StopImpl] takes a record after the stop. *)
Example sampled_after_stop :
  match run 2 16 (start witness_threads)
    (starts [7; 8] ++ [AFire 0] ++ stops 2 ++ [ACount 0; ACollect 0 true false false; AReserve 0 true]) with
  | Some (Some c) => s_state (c_service c) = Stopped /\ t_pc <$> c_threads c = [CFilling 0; CIdle]
  | _ => False
  end.
Proof. vm_compute. done. Qed.

(** A thread that registers after the loop of [StartImpl] and before the state is published
    gets no timer. *)
Example registration_lost :
  match run 2 16 (start [0; 101])
    ([AStart; AStartImpl true] ++ [ALoop None; ALoop None; ALoop None; ALoop (Some 8); ALoop None; ALoop None] ++
     [ARegister 0; ACall 0 None; AStartEnd]) with
  | Some (Some c) => s_state (c_service c) = Started /\ t_timerId <$> c_threads c = [-1; 8]
  | _ => False
  end.
Proof. vm_compute. done. Qed.

(** A thread registers while the service stops: its timer is created in the state Stopping,
    and [StopImpl] waits for the lock before it deletes it. *)
Definition registers_while_stopping : list action :=
  [AStart; AStartImpl true; ALoop None; ALoop None; AStartEnd;
   ARegister 0; ACall 0 None; ACall 0 None; AStop; AStopImpl; ACall 0 (Some 7)].

Example timer_while_stopping :
  match run 2 16 (start [0]) registers_while_stopping with
  | Some (Some c) =>
    s_state (c_service c) = Stopping /\ c_timers c = {[7]} /\ run 2 16 c [AStopLock] = None /\
    match run 2 16 c ([ACall 0 None; AStopLock] ++ replicate 5 (ALoop None) ++ [AStopEnd]) with
    | Some (Some c) => s_state (c_service c) = Stopped /\ c_timers c = ∅
    | _ => False
    end
  | _ => False
  end.
Proof. vm_compute. done. Qed.

(** Two calls that register one thread at a time, which the shared lock admits, both see no
    timer: one of the two timers is never deleted. *)
Example overlapping_registrations :
  match run 2 16 (start [0])
    ([AStart; AStartImpl true; ALoop None; ALoop None; AStartEnd; ARegister 0; ARegister 0] ++
     [ACall 0 None; ACall 1 None; ACall 0 None; ACall 1 None; ACall 0 (Some 7); ACall 1 (Some 8); ACall 0 None; ACall 0 None] ++
     stops 1) with
  | Some (Some c) => s_state (c_service c) = Stopped /\ c_timers c = {[7]} /\ t_timerId <$> c_threads c = [-1]
  | _ => False
  end.
Proof. vm_compute. done. Qed.

(** The interval of a timer: 9 ms; 2.5 s are negative. *)
Example intervals : timer_interval 9 = (0, 9000000) /\ timer_interval 2500 = (-1, -794967296).
Proof. vm_compute. done. Qed.

Example clocks : thread_cpu_clock 1234 = -9874.
Proof. vm_compute. done. Qed.
End Example_cpu.

Lemma cpu_samples_delivered_witness :
  exists c, run (capacity witness_rb) 16 (start Example_cpu.witness_threads) Example_cpu.two_samples = Some (Some c) /\
    StronglySorted lt (c_delivered c) /\
    exists s outs, c_run (mkSys witness_rb [] None []) (c_events c) = Some (s, outs) /\ rel s (c_queue c).
Proof.
  destruct (run (capacity witness_rb) 16 (start Example_cpu.witness_threads) Example_cpu.two_samples) as [o|] eqn:E;
    [|vm_compute in E; discriminate].
  destruct (cpu_samples_delivered witness_os 64 40 16 witness_rb Example_cpu.witness_threads Example_cpu.two_samples o)
    as (c & -> & H1 & _ & _ & _ & H2); [reflexivity|lia|lia|lia|exact E|].
  exists c. split; [reflexivity|]. split; [exact H1|]. destruct H2 as (s & outs & _ & H3 & H4).
  - vm_compute in E. injection E as <-. vm_compute. reflexivity.
  - exists s, outs. split; [exact H3|exact H4].
Defined.

