(* ===== verification/SamplerManager.v ===== *)
(** * The watcher of the sampling thread

    Model of [StackSamplerLoopManager.cpp] and [.h]: the sampling thread tells its manager
    about every collection; a watcher thread looks every second whether a collection has
    lasted for too long, resumes its target and counts a deadlock; threads, or all of them,
    that deadlock too often are not walked until the next period.  A thread is walked under
    its own lock, which the callback that announces its end also takes.

    Every operation of the manager but [SendStatistics] runs under [_watcherActivityLock]: it
    is one step of the system; [SendStatistics] is one too, and its reads without the lock
    are not divided further.  The records of the threads are those of [ThreadInfo]; other users of the lock
    of a thread are part of the system.  Timestamps are nanoseconds of a monotonic clock and
    stay below 2^63, the statistics are unsigned. *)
From stdpp Require Import base gmap list.
From S2P Require Import Prelude ThreadInfo.

(** ** Constants *)

Definition MaxExpectedStackSampleCollectionDurationMs : Z := 500.
Definition CollectionDurationThresholdNs : Z := MaxExpectedStackSampleCollectionDurationMs * 1000000.
Definition StatsAggregationPeriodMs : Z := 30000.
Definition StatsAggregationPeriodNs : Z := StatsAggregationPeriodMs * 1000000.
Definition StatisticAggregationPeriodNs : Z := 10 * 1000000000.
Definition DeadlocksPerThreadThreshold : Z := 5.
Definition TotalDeadlocksThreshold : Z := 12.

(** ** Statistics *)

Record Statistics := mkStats {
  _totalSuspensionTime : Z; _maxSuspensionTime : Z; _totalSuspensions : Z;
  _totalCollectionTime : Z; _maxCollectionTime : Z; _totalCollections : Z;
  _totalDeadlocks : Z
}.

Definition new_Statistics : Statistics := mkStats 0 0 0 0 0 0 0.

Definition AddSuspensionTime (suspensionTime : Z) (s : Statistics) : Statistics :=
  mkStats (u64 (_totalSuspensionTime s + suspensionTime)) (Z.max suspensionTime (_maxSuspensionTime s))
    (u64 (_totalSuspensions s + 1)) (_totalCollectionTime s) (_maxCollectionTime s) (_totalCollections s)
    (_totalDeadlocks s).

Definition AddCollectionTime (collectionTime : Z) (s : Statistics) : Statistics :=
  mkStats (_totalSuspensionTime s) (_maxSuspensionTime s) (_totalSuspensions s)
    (u64 (_totalCollectionTime s + collectionTime)) (Z.max collectionTime (_maxCollectionTime s))
    (u64 (_totalCollections s + 1)) (_totalDeadlocks s).

Definition IncrDeadlockCount (s : Statistics) : Statistics :=
  mkStats (_totalSuspensionTime s) (_maxSuspensionTime s) (_totalSuspensions s)
    (_totalCollectionTime s) (_maxCollectionTime s) (_totalCollections s) (u64 (_totalDeadlocks s + 1)).

(** ** The manager *)

Definition thread := nat.

Record Manager := mkManager {
  _deadlockInterventionInProgress : Z;
  _pTargetThread : option thread;
  _collectionStartNs : Z;
  _isTargetThreadSuspended : bool;
  _currentPeriod : Z;
  _currentPeriodStartNs : Z;
  _deadlocksInPeriod : Z;
  _totalDeadlockDetectionsCount : Z;
  _threadSuspensionStart : Z;
  _statisticCollectionStartNs : Z;
  _statisticsReadyToSend : option Statistics;
  _currentStatistics : Statistics
}.

(** [start]: the time of the construction; [_threadSuspensionStart] is not initialised. *)
Definition new_Manager (start garbage : Z) : Manager :=
  mkManager 0 None 0 false 0 0 0 0 garbage start None new_Statistics.

(** The manager and the threads it may look at. *)
Record Watch := mkWatch {
  mgr : Manager;
  infos : gmap thread ManagedThreadInfo;
  _deadlockCountMetric : Z
}.

Definition with_mgr (f : Manager -> Manager) (w : Watch) : Watch :=
  mkWatch (f (mgr w)) (infos w) (_deadlockCountMetric w).

Definition with_deadlocks (d : Deadlocks) (i : ManagedThreadInfo) : ManagedThreadInfo :=
  mkThreadInfo (_profilerThreadInfoId i) (_clrThreadId i) (names i) (timing i) d (_isThreadDestroyed i)
    (_traceContext i) (linux i) (_blockingThread i) (_objLock i).

Definition ShouldCollectThread (threadAggPeriodDeadlockCount globalAggPeriodDeadlockCount : Z) : bool :=
  (threadAggPeriodDeadlockCount <=? DeadlocksPerThreadThreshold) &&
  (globalAggPeriodDeadlockCount <=? TotalDeadlocksThreshold).

(** The record is updated; the answer is the safety of the thread, and whether it changed. *)
Definition GetUpdateIsThreadSafe (m : Manager) (i : ManagedThreadInfo) : ManagedThreadInfo * bool * bool :=
  let '(d, (prev, curr)) := GetOrResetDeadlocksCount (_currentPeriod m) (deadlocks i) in
  let wasSafe := ShouldCollectThread prev (_deadlocksInPeriod m) in
  let isSafe := ShouldCollectThread curr (_deadlocksInPeriod m) in
  (with_deadlocks d i, isSafe, negb (Bool.eqb wasSafe isSafe)).

Definition set_target (t : option thread) (suspended : bool) (m : Manager) : Manager :=
  mkManager (_deadlockInterventionInProgress m) t (_collectionStartNs m) suspended (_currentPeriod m)
    (_currentPeriodStartNs m) (_deadlocksInPeriod m) (_totalDeadlockDetectionsCount m)
    (_threadSuspensionStart m) (_statisticCollectionStartNs m) (_statisticsReadyToSend m) (_currentStatistics m).

Definition set_collection (intervention start : Z) (s : Statistics) (m : Manager) : Manager :=
  mkManager intervention (_pTargetThread m) start (_isTargetThreadSuspended m) (_currentPeriod m)
    (_currentPeriodStartNs m) (_deadlocksInPeriod m) (_totalDeadlockDetectionsCount m)
    (_threadSuspensionStart m) (_statisticCollectionStartNs m) (_statisticsReadyToSend m) s.

(** How an operation ends: it waits for the lock of a thread, dereferences a null target,
    or returns. *)
Inductive outcome (A : Type) := Blocked | Crash | Return (a : A).
Arguments Blocked {A}.
Arguments Crash {A}.
Arguments Return {A} a.

Definition AllowStackWalk (t : thread) (w : Watch) : outcome (Watch * bool) :=
  match infos w !! t with
  | None => Crash
  | Some i =>
    let '(i, safe, _) := GetUpdateIsThreadSafe (mgr w) i in
    let refused i := Return (mkWatch (mgr w) (<[t := i]> (infos w)) (_deadlockCountMetric w), false) in
    if negb safe then refused i
    else match AcquireLock i with
    | None => Blocked
    | Some i =>
      if _isThreadDestroyed i then refused (ReleaseLock i)
      else Return (mkWatch (set_target (Some t) false (mgr w)) (<[t := i]> (infos w)) (_deadlockCountMetric w), true)
    end
  end.

Definition NotifyThreadState (isSuspended : bool) (now : Z) : Watch -> Watch :=
  with_mgr (fun m =>
    mkManager (_deadlockInterventionInProgress m) (_pTargetThread m) (_collectionStartNs m) isSuspended
      (_currentPeriod m) (_currentPeriodStartNs m) (_deadlocksInPeriod m) (_totalDeadlockDetectionsCount m)
      now (_statisticCollectionStartNs m) (_statisticsReadyToSend m) (_currentStatistics m)).

Definition NotifyCollectionStart (now : Z) : Watch -> Watch :=
  with_mgr (fun m => set_collection (_deadlockInterventionInProgress m) now (_currentStatistics m) m).

Definition NotifyCollectionEnd (now : Z) : Watch -> Watch :=
  with_mgr (fun m =>
    let collectionDuration := now - _collectionStartNs m in
    set_collection 0 0 (AddCollectionTime (u64 collectionDuration) (_currentStatistics m)) m).

(** [sender]: metrics are sent. *)
Definition NotifyIterationFinished (sender : bool) (now : Z) (w : Watch) : outcome Watch :=
  match _pTargetThread (mgr w) with
  | None => Crash
  | Some t =>
    let m := mgr w in
    let suspensionDuration := now - _threadSuspensionStart m in
    let s := AddSuspensionTime (u64 suspensionDuration) (_currentStatistics m) in
    let send := sender && (StatisticAggregationPeriodNs <=? now - _statisticCollectionStartNs m) in
    Return (mkWatch
      (mkManager (_deadlockInterventionInProgress m) None 0 false (_currentPeriod m) (_currentPeriodStartNs m)
         (_deadlocksInPeriod m) (_totalDeadlockDetectionsCount m) (_threadSuspensionStart m)
         (if send then now else _statisticCollectionStartNs m)
         (if send then Some s else _statisticsReadyToSend m)
         (if send then new_Statistics else s))
      (alter ReleaseLock t (infos w)) (_deadlockCountMetric w))
  end.

(** ** The watcher *)

Definition StartNewStatsAggregationPeriod (now : Z) (m : Manager) : Manager :=
  mkManager (_deadlockInterventionInProgress m) (_pTargetThread m) (_collectionStartNs m)
    (_isTargetThreadSuspended m) (u64 (_currentPeriod m + 1)) now 0 (_totalDeadlockDetectionsCount m)
    (_threadSuspensionStart m) (_statisticCollectionStartNs m) (_statisticsReadyToSend m) (_currentStatistics m).

(** The collector is asked to abort and to resume the target: it answers later. *)
Definition PerformDeadlockIntervention (w : Watch) : outcome Watch :=
  let m := mgr w in
  match _pTargetThread m with
  | None => Crash
  | Some t =>
    match infos w !! t with
    | None => Crash
    | Some i =>
      let '(i, _, _) := GetUpdateIsThreadSafe m i in
      let i := with_deadlocks (IncDeadlocksCount (deadlocks i)) i in
      let m := mkManager 1 (_pTargetThread m) (_collectionStartNs m) (_isTargetThreadSuspended m) (_currentPeriod m)
        (_currentPeriodStartNs m) (u64 (_deadlocksInPeriod m + 1)) (u64 (_totalDeadlockDetectionsCount m + 1))
        (_threadSuspensionStart m) (_statisticCollectionStartNs m) (_statisticsReadyToSend m) (_currentStatistics m) in
      let '(i, _, _) := GetUpdateIsThreadSafe m i in
      Return (mkWatch m (<[t := i]> (infos w)) (_deadlockCountMetric w))
    end
  end.

Definition start_period (now : Z) (m : Manager) : Manager :=
  let periodDurationNs := if _currentPeriodStartNs m =? 0 then 0 else now - _currentPeriodStartNs m in
  if (_currentPeriodStartNs m =? 0) || (StatsAggregationPeriodNs <? periodDurationNs)
  then StartNewStatsAggregationPeriod now m else m.

Definition WatcherLoopIteration (now : Z) (w : Watch) : outcome Watch :=
  let w := with_mgr (start_period now) w in
  let m := mgr w in
  if _collectionStartNs m =? 0 then Return w
  else if 1 <=? _deadlockInterventionInProgress m then
    if _deadlockInterventionInProgress m =? 1 then
      match _pTargetThread m with
      | None => Crash
      | Some _ => Return (with_mgr (set_collection 2 (_collectionStartNs m) (_currentStatistics m)) w)
      end
    else Return w
  else
    let collectionDurationNs := now - _collectionStartNs m in
    if collectionDurationNs <=? CollectionDurationThresholdNs then Return w
    else
      PerformDeadlockIntervention
        (mkWatch (set_collection (_deadlockInterventionInProgress m) (_collectionStartNs m)
                    (IncrDeadlockCount (_currentStatistics m)) m)
           (infos w) (u64 (_deadlockCountMetric w + 1))).

(** [SendStatistics]: what is sent. *)
Definition SendStatistics (sender : bool) (w : Watch) : Watch * option Statistics :=
  if negb sender then (w, None)
  else match _statisticsReadyToSend (mgr w) with
  | None => (w, None)
  | Some s =>
    (with_mgr (fun m => mkManager (_deadlockInterventionInProgress m) (_pTargetThread m) (_collectionStartNs m)
       (_isTargetThreadSuspended m) (_currentPeriod m) (_currentPeriodStartNs m) (_deadlocksInPeriod m)
       (_totalDeadlockDetectionsCount m) (_threadSuspensionStart m) (_statisticCollectionStartNs m) None
       (_currentStatistics m)) w, Some s)
  end.

(** ** The service *)

Record WatcherService := mkWatcherService { _pWatcherThread : bool; _isWatcherShutdownRequested : bool }.

(** [created]: the thread could be created; [ready]: it said so in time.  [None]: the new
    thread object replaces one that was not joined, which ends the process. *)
Definition RunWatcher (created ready : bool) (s : WatcherService) : option (WatcherService * bool) :=
  if negb created then Some (mkWatcherService (_pWatcherThread s) false, false)
  else if _pWatcherThread s then None
  else if ready then Some (mkWatcherService true false, true)
  else Some (mkWatcherService true true, false).

(** [joined]: [join] did not throw. *)
Definition ShutdownWatcher (joined : bool) (s : WatcherService) : WatcherService :=
  if _pWatcherThread s then mkWatcherService (negb joined) true else s.

(** A start that timed out cannot be tried again. *)
Example restart_after_timeout :
  match RunWatcher true false (mkWatcherService false false) with
  | Some (s, ok) => ok = false /\ RunWatcher true true s = None
  | None => False
  end.
Proof. done. Qed.

(** ** The system *)

(** Where the sampling thread is in [CollectOneThreadStackSample]: between two threads; with
    a thread it may walk; after [SuspendTargetThread]; after [NotifyThreadState]; between
    the start and the end of the collection; after its end. *)
Inductive spc :=
| Idle | Allowed (t : thread) | Suspended (t : thread) (suspended : bool) | Notified (t : thread)
| Collecting (t : thread) | Collected (t : thread).

Definition pc_thread (p : spc) : option thread :=
  match p with
  | Idle => None
  | Allowed t | Suspended t _ | Notified t | Collecting t | Collected t => Some t
  end.

Record Sys := mkSys {
  watch : Watch;
  sampler : spc;
  others : gset thread;              (* threads whose lock someone else holds *)
  interventions : list (thread * Z); (* the thread and the period of every intervention *)
  started : Z                        (* collections started *)
}.

Inductive event :=
| EAllow (t : thread)
| ESuspend (ok suspended : bool)
| EState (now : Z) | EStart (now : Z) | EEnd (now : Z) | EFinish (now : Z)
| EWatch (now : Z) | ESend
| ECreate (t : thread) (i : ManagedThreadInfo)
| EDestroy (t : thread) | ELock (t : thread) | EUnlock (t : thread).

(** A step is not possible, dereferences a null target, or leads to a state. *)
Inductive stepped := Disabled | Crashed | Next (s : Sys).

Definition set_watch (w : Watch) (p : spc) (s : Sys) : Sys := mkSys w p (others s) (interventions s) (started s).
Definition set_infos (i : gmap thread ManagedThreadInfo) (o : gset thread) (s : Sys) : Sys :=
  mkSys (mkWatch (mgr (watch s)) i (_deadlockCountMetric (watch s))) (sampler s) o (interventions s) (started s).

(** The interventions of the watcher are seen in the count of detections. *)
Definition watched (before after : Watch) (s : Sys) : list (thread * Z) :=
  if _totalDeadlockDetectionsCount (mgr before) =? _totalDeadlockDetectionsCount (mgr after)
  then interventions s
  else interventions s ++ ((fun t => (t, _currentPeriod (mgr after))) <$> option_list (_pTargetThread (mgr after))).

Section system.
Context (sender : bool).

Definition finish (now : Z) (s : Sys) : stepped :=
  match NotifyIterationFinished sender now (watch s) with
  | Return w => Next (set_watch w Idle s)
  | _ => Crashed
  end.

Definition step (s : Sys) (e : event) : stepped :=
  match e with
  | EAllow t =>
    match sampler s with
    | Idle =>
      match AllowStackWalk t (watch s) with
      | Return (w, true) => Next (set_watch w (Allowed t) s)
      | Return (w, false) => Next (set_watch w Idle s)
      | _ => Disabled
      end
    | _ => Disabled
    end
  | ESuspend ok suspended =>
    match sampler s with
    | Allowed t => Next (set_watch (watch s) (if ok then Suspended t suspended else Collected t) s)
    | _ => Disabled
    end
  | EState now =>
    match sampler s with
    | Suspended t suspended => Next (set_watch (NotifyThreadState suspended now (watch s)) (Notified t) s)
    | _ => Disabled
    end
  | EStart now =>
    match sampler s with
    | Notified t =>
      Next (mkSys (NotifyCollectionStart now (watch s)) (Collecting t) (others s) (interventions s) (started s + 1))
    | _ => Disabled
    end
  | EEnd now =>
    match sampler s with
    | Collecting t => Next (set_watch (NotifyCollectionEnd now (watch s)) (Collected t) s)
    | _ => Disabled
    end
  | EFinish now => match sampler s with Collected _ => finish now s | _ => Disabled end
  | EWatch now =>
    match WatcherLoopIteration now (watch s) with
    | Return w => Next (mkSys w (sampler s) (others s) (watched (watch s) w s) (started s))
    | _ => Crashed
    end
  | ESend => Next (set_watch (SendStatistics sender (watch s)).1 (sampler s) s)
  | ECreate t i =>
    match infos (watch s) !! t with
    | None =>
      if negb (_objLock i) && negb (_isThreadDestroyed i) && (_deadlockInPeriodCount (deadlocks i) =? 0)
         && (_deadlockDetectionPeriod (deadlocks i) =? 0)
      then Next (set_infos (<[t := i]> (infos (watch s))) (others s) s)
      else Disabled
    | Some _ => Disabled
    end
  | EDestroy t =>
    match infos (watch s) !! t with
    | Some i =>
      match SetThreadDestroyed i with
      | Some i => Next (set_infos (<[t := i]> (infos (watch s))) (others s) s)
      | None => Disabled
      end
    | None => Disabled
    end
  | ELock t =>
    match infos (watch s) !! t with
    | Some i =>
      match AcquireLock i with
      | Some i => Next (set_infos (<[t := i]> (infos (watch s))) (others s ∪ {[t]}) s)
      | None => Disabled
      end
    | None => Disabled
    end
  | EUnlock t =>
    if bool_decide (t ∈ others s)
    then Next (set_infos (alter ReleaseLock t (infos (watch s))) (others s ∖ {[t]}) s)
    else Disabled
  end.

(** [None]: an event was not possible; [Some None]: a null target was dereferenced. *)
Fixpoint run (s : Sys) (es : list event) : option (option Sys) :=
  match es with
  | [] => Some (Some s)
  | e :: es =>
    match step s e with
    | Disabled => None
    | Crashed => Some None
    | Next s => run s es
    end
  end.
End system.

Definition start (now garbage : Z) : Sys :=
  mkSys (mkWatch (new_Manager now garbage) ∅ 0) Idle ∅ [] 0.

(** ** The invariant *)

Definition in_period (p : Z) (l : list (thread * Z)) : Z := zlen (filter (fun e => e.2 = p) l).
Definition of_thread (t : thread) (p : Z) (l : list (thread * Z)) : Z := zlen (filter (fun e => e = (t, p)) l).

(** The watcher has not intervened yet in the collection that is prepared or going on. *)
Definition untouched (p : spc) (intervention : Z) : Prop :=
  match p with
  | Allowed _ | Suspended _ _ | Notified _ => True
  | Collecting _ => intervention = 0
  | _ => False
  end.

Definition pending (p : spc) (intervention : Z) : Z :=
  match p with Collecting _ => if intervention =? 0 then 1 else 0 | _ => 0 end.

(** Who holds the locks of the threads. *)
Record locks (w : gmap thread ManagedThreadInfo) (p : spc) (o : gset thread) : Prop := {
  l_held : forall t i, w !! t = Some i -> _objLock i = true <-> pc_thread p = Some t \/ t ∈ o;
  l_target : forall t, pc_thread p = Some t -> t ∉ o /\ exists i, w !! t = Some i /\ _isThreadDestroyed i = false;
  l_others : forall t, t ∈ o -> is_Some (w !! t)
}.

(** What is counted of the interventions. *)
Record counts (w : gmap thread ManagedThreadInfo) (current inPeriod : Z) (l : list (thread * Z)) : Prop := {
  k_stamp : forall t i, w !! t = Some i -> 0 <= _deadlockDetectionPeriod (deadlocks i) <= current;
  k_thread : forall t i, w !! t = Some i ->
    of_thread t current l =
      if _deadlockDetectionPeriod (deadlocks i) =? current then _deadlockInPeriodCount (deadlocks i) else 0;
  k_known : forall t p, (t, p) ∈ l -> is_Some (w !! t);
  k_period : inPeriod = in_period current l;
  k_future : forall p, current < p -> in_period p l = 0;
  k_bound : forall p, in_period p l <= 13 /\ forall t, of_thread t p l <= 6
}.

Record inv (n : Z) (s : Sys) : Prop := {
  v_target : _pTargetThread (mgr (watch s)) = pc_thread (sampler s);
  v_locks : locks (infos (watch s)) (sampler s) (others s);
  v_start : _collectionStartNs (mgr (watch s)) <> 0 -> exists t, sampler s = Collecting t;
  v_interv : 0 <= _deadlockInterventionInProgress (mgr (watch s)) <= 2 /\
    (1 <= _deadlockInterventionInProgress (mgr (watch s)) -> exists t, sampler s = Collecting t);
  v_current : 0 <= _currentPeriod (mgr (watch s)) <= n;
  v_counts : counts (infos (watch s)) (_currentPeriod (mgr (watch s))) (_deadlocksInPeriod (mgr (watch s))) (interventions s);
  v_open : forall t, pc_thread (sampler s) = Some t ->
    untouched (sampler s) (_deadlockInterventionInProgress (mgr (watch s))) ->
    in_period (_currentPeriod (mgr (watch s))) (interventions s) <= 12 /\
    of_thread t (_currentPeriod (mgr (watch s))) (interventions s) <= 5;
  v_total : _totalDeadlockDetectionsCount (mgr (watch s)) = u64 (zlen (interventions s)) /\
    _deadlockCountMetric (watch s) = u64 (zlen (interventions s));
  v_started : zlen (interventions s) +
    pending (sampler s) (_deadlockInterventionInProgress (mgr (watch s))) <= started s
}.

Lemma in_period_nonneg p l : 0 <= in_period p l. Proof. unfold in_period. lia. Qed.
Lemma of_thread_le t p l : of_thread t p l <= in_period p l.
Proof.
  unfold of_thread, in_period. induction l as [|[u q] l IH]; [done|].
  rewrite !filter_cons. cbn [snd]. repeat case_decide; cbn [length]; simplify_eq; lia.
Qed.

Lemma in_period_snoc p l t q : in_period p (l ++ [(t, q)]) = in_period p l + if decide (q = p) then 1 else 0.
Proof.
  unfold in_period. rewrite filter_app, length_app, Nat2Z.inj_add. f_equal.
  rewrite filter_cons, filter_nil. cbn. by case_decide.
Qed.

Lemma of_thread_snoc t p l u q :
  of_thread t p (l ++ [(u, q)]) = of_thread t p l + if decide ((u, q) = (t, p)) then 1 else 0.
Proof.
  unfold of_thread. rewrite filter_app, length_app, Nat2Z.inj_add. f_equal.
  rewrite filter_cons, filter_nil. by case_decide.
Qed.

Lemma of_thread_unknown t p l : (forall q, (t, q) ∉ l) -> of_thread t p l = 0.
Proof.
  intros H. unfold of_thread. induction l as [|[u q] l IH]; [done|]. rewrite filter_cons.
  rewrite decide_False; [apply IH; intros r Hr; apply (H r); by right|]. intros [= -> ->]. apply (H p). by left.
Qed.

(** A thread whose record keeps its counts. *)
Lemma counts_same w current inPeriod l t i i' :
  counts w current inPeriod l -> w !! t = Some i -> deadlocks i' = deadlocks i ->
  counts (<[t := i']> w) current inPeriod l.
Proof.
  intros [H1 H2 H3 H4 H5 H6] Hi E. split; try done.
  - intros u j [[<- <-]|[_ Hj]]%lookup_insert_Some; [rewrite E; by eapply H1|by eapply H1].
  - intros u j [[<- <-]|[_ Hj]]%lookup_insert_Some; [rewrite E; by eapply H2|by eapply H2].
  - intros u p Hu%H3. by apply lookup_insert_is_Some'; right.
Qed.

(** The counts of a thread are brought to the current period. *)
Lemma counts_reset w current inPeriod l t i m :
  counts w current inPeriod l -> w !! t = Some i -> _currentPeriod m = current ->
  counts (<[t := (GetUpdateIsThreadSafe m i).1.1]> w) current inPeriod l /\
  _deadlockDetectionPeriod (deadlocks (GetUpdateIsThreadSafe m i).1.1) = current /\
  _deadlockInPeriodCount (deadlocks (GetUpdateIsThreadSafe m i).1.1) = of_thread t current l /\
  (GetUpdateIsThreadSafe m i).1.2 = ShouldCollectThread (of_thread t current l) (_deadlocksInPeriod m) /\
  _objLock (GetUpdateIsThreadSafe m i).1.1 = _objLock i /\
  _isThreadDestroyed (GetUpdateIsThreadSafe m i).1.1 = _isThreadDestroyed i.
Proof.
  intros [H1 H2 H3 H4 H5 H6] Hi E. pose proof (H1 t i Hi). specialize (H2 t i Hi) as Ht.
  unfold GetUpdateIsThreadSafe, GetOrResetDeadlocksCount. rewrite E.
  destruct (Z.eqb_spec (_deadlockDetectionPeriod (deadlocks i)) current) as [Ep|Ep]; cbn -[of_thread ShouldCollectThread] in *.
  - split_and!; try done; [|by rewrite Ht]. split; try done.
    + intros u j [[<- <-]|[_ Hj]]%lookup_insert_Some; [done|by eapply H1].
    + intros u j [[<- <-]|[_ Hj]]%lookup_insert_Some; cbn; [by rewrite Ep, Z.eqb_refl|by eapply H2].
    + intros u p Hu%H3. by apply lookup_insert_is_Some'; right.
  - split_and!; try done; [|by rewrite Ht]. split; try done.
    + intros u j [[<- <-]|[_ Hj]]%lookup_insert_Some; cbn; [lia|by eapply H1].
    + intros u j [[<- <-]|[_ Hj]]%lookup_insert_Some; cbn; [by rewrite Z.eqb_refl|by eapply H2].
    + intros u p Hu%H3. by apply lookup_insert_is_Some'; right.
Qed.

Lemma counts_period w current inPeriod l :
  counts w current inPeriod l -> counts w (current + 1) 0 l.
Proof.
  intros [H1 H2 H3 H4 H5 H6].
  assert (H0 : in_period (current + 1) l = 0) by (apply H5; lia).
  split; try done.
  - intros t i Hi%H1. lia.
  - intros t i Hi. pose proof (H1 t i Hi). rewrite (proj2 (Z.eqb_neq _ _)) by lia.
    pose proof (of_thread_le t (current + 1) l). unfold of_thread in *. lia.
  - intros p Hp. apply H5. lia.
Qed.

Lemma counts_intervene w current inPeriod l t i :
  counts w current inPeriod l -> w !! t = Some i -> _deadlockDetectionPeriod (deadlocks i) = current ->
  in_period current l <= 12 -> of_thread t current l <= 5 ->
  counts (<[t := with_deadlocks (IncDeadlocksCount (deadlocks i)) i]> w) current (u64 (inPeriod + 1))
    (l ++ [(t, current)]).
Proof.
  intros [H1 H2 H3 H4 H5 H6] Hi Ep Hp Ht. pose proof (H2 t i Hi) as Hc. rewrite Ep, Z.eqb_refl in Hc.
  assert (0 <= of_thread t current l) by (unfold of_thread; lia). pose proof (in_period_nonneg current l).
  split.
  - intros u j [[<- <-]|[_ Hj]]%lookup_insert_Some; cbn; by eapply H1.
  - intros u j [[<- <-]|[Hne Hj]]%lookup_insert_Some; rewrite of_thread_snoc.
    + cbn. rewrite Ep, Z.eqb_refl, decide_True, Hc by done. rewrite wrap_small by (unfold in_u; lia). done.
    + rewrite decide_False by congruence. rewrite Z.add_0_r. by apply H2.
  - intros u p [Hu%H3|Hu%list_elem_of_singleton]%elem_of_app; apply lookup_insert_is_Some'; [by right|].
    left. congruence.
  - rewrite in_period_snoc, decide_True, H4 by done. apply wrap_small. unfold in_u. lia.
  - intros p Hlt. rewrite in_period_snoc, decide_False by lia. rewrite H5 by lia. done.
  - intros p. rewrite in_period_snoc. destruct (H6 p) as [Hb Hb']. split.
    + case_decide; subst; lia.
    + intros u. rewrite of_thread_snoc. specialize (Hb' u). case_decide; simplify_eq; lia.
Qed.

Lemma locks_same w p o t i i' :
  locks w p o -> w !! t = Some i -> _objLock i' = _objLock i -> _isThreadDestroyed i' = _isThreadDestroyed i ->
  locks (<[t := i']> w) p o.
Proof.
  intros [H1 H2 H3] Hi E1 E2. split.
  - intros u j [[<- <-]|[_ Hj]]%lookup_insert_Some; [rewrite E1; by apply H1|by apply H1].
  - intros u Hu. destruct (H2 u Hu) as [Hn (j & Hj & Hd)]. split; [done|].
    destruct (decide (t = u)) as [<-|]; [exists i'|exists j].
    + rewrite lookup_insert_eq. split; [done|]. congruence.
    + by rewrite lookup_insert_ne.
  - intros u Hu. apply lookup_insert_is_Some'. right. by apply H3.
Qed.

Lemma locks_pc w p p' o : locks w p o -> pc_thread p' = pc_thread p -> locks w p' o.
Proof. intros [H1 H2 H3] E. split; rewrite ?E; done. Qed.

(** The sampling thread takes the lock of a thread. *)
Lemma locks_acquire w t i i' o :
  locks w Idle o -> w !! t = Some i -> AcquireLock i = Some i' -> _isThreadDestroyed i' = false ->
  locks (<[t := i']> w) (Allowed t) o.
Proof.
  unfold AcquireLock. intros [H1 H2 H3] Hi Ha Hd. destruct (_objLock i) eqn:El; [done|]. injection Ha as <-.
  assert (Hn : t ∉ o) by (intros Ho; assert (_objLock i = true) by (apply (H1 t i Hi); by right); congruence).
  split.
  - intros u j [[<- <-]|[Hne Hj]]%lookup_insert_Some; cbn [pc_thread].
    + split; [intros _; by left|done].
    + rewrite (H1 u j Hj). cbn. split; [intros [?|?]; [done|by right]|intros [?|?]; [congruence|by right]].
  - cbn. intros u [= <-]. split; [done|]. eexists. rewrite lookup_insert_eq. done.
  - intros u Hu. apply lookup_insert_is_Some'. right. by apply H3.
Qed.

Lemma locks_release w p t o : locks w p o -> pc_thread p = Some t -> locks (alter ReleaseLock t w) Idle o.
Proof.
  intros [H1 H2 H3] Hp. destruct (H2 t Hp) as [Hn _]. split.
  - intros u j. rewrite lookup_alter_Some. cbn [pc_thread]. intros [(<- & i & Hi & ->)|[Hne Hj]].
    + cbn. split; [done|]. by intros [?|?].
    + rewrite (H1 u j Hj), Hp. split; [intros [?|?]; [congruence|by right]|intros [?|?]; [done|by right]].
  - done.
  - intros u Hu. rewrite lookup_alter_is_Some. by apply H3.
Qed.

Lemma counts_alter w current inPeriod l t :
  counts w current inPeriod l -> counts (alter ReleaseLock t w) current inPeriod l.
Proof.
  intros [H1 H2 H3 H4 H5 H6]. split; try done.
  - intros u j. rewrite lookup_alter_Some. intros [(<- & i & Hi & ->)|[_ Hj]]; cbn; by eapply H1.
  - intros u j. rewrite lookup_alter_Some. intros [(<- & i & Hi & ->)|[_ Hj]]; cbn; by eapply H2.
  - intros u p Hu%H3. by rewrite lookup_alter_is_Some.
Qed.

Section preservation.
Context (sender : bool).

(** What the sampling thread does between two locks of the manager. *)
Lemma inv_sampler n s p m' started' :
  inv n s -> pc_thread p = pc_thread (sampler s) ->
  _pTargetThread m' = _pTargetThread (mgr (watch s)) -> _currentPeriod m' = _currentPeriod (mgr (watch s)) ->
  _deadlocksInPeriod m' = _deadlocksInPeriod (mgr (watch s)) ->
  _totalDeadlockDetectionsCount m' = _totalDeadlockDetectionsCount (mgr (watch s)) ->
  (_collectionStartNs m' <> 0 -> exists t, p = Collecting t) ->
  (0 <= _deadlockInterventionInProgress m' <= 2 /\ (1 <= _deadlockInterventionInProgress m' -> exists t, p = Collecting t)) ->
  (untouched p (_deadlockInterventionInProgress m') ->
    untouched (sampler s) (_deadlockInterventionInProgress (mgr (watch s)))) ->
  zlen (interventions s) + pending p (_deadlockInterventionInProgress m') <= started' ->
  inv n (mkSys (mkWatch m' (infos (watch s)) (_deadlockCountMetric (watch s))) p (others s) (interventions s) started').
Proof.
  intros [H1 H2 H3 H4 H5 H6 H7 H8 H9] Ep E1 E2 E3 E4 Hs Hi Hu Hn.
  split; cbn [watch mgr infos sampler others interventions started _deadlockCountMetric];
    rewrite ?E1, ?E2, ?E3, ?E4, ?Ep; try done.
  - by eapply locks_pc.
  - intros t Ht Hun. by apply H7; [|apply Hu].
Qed.

Lemma inv_infos n s t i i' :
  inv n s -> infos (watch s) !! t = Some i -> deadlocks i' = deadlocks i ->
  forall o, locks (<[t := i']> (infos (watch s))) (sampler s) o -> inv n (set_infos (<[t := i']> (infos (watch s))) o s).
Proof.
  intros [H1 H2 H3 H4 H5 H6 H7 H8 H9] Hi E o Hl. split; try done. cbn. by eapply counts_same.
Qed.

Lemma inv_allow n s t w b :
  inv n s -> sampler s = Idle -> AllowStackWalk t (watch s) = Return (w, b) ->
  inv n (set_watch w (if b then Allowed t else Idle) s).
Proof.
  intros [H1 H2 H3 H4 H5 H6 H7 H8 H9] Hp. unfold AllowStackWalk.
  destruct (infos (watch s) !! t) as [i|] eqn:Ei; [|done].
  destruct (counts_reset _ _ _ _ t i (mgr (watch s)) H6 Ei eq_refl) as (Hc & Hs & Hn & Hb & Hl & Hd).
  destruct (GetUpdateIsThreadSafe (mgr (watch s)) i) as [[i1 safe] changed]. cbn [fst snd] in *.
  rewrite Hp in *. assert (Hi0 : _deadlockInterventionInProgress (mgr (watch s)) = 0).
  { destruct H4 as [H4 H4']. destruct (decide (1 <= _deadlockInterventionInProgress (mgr (watch s)))) as [Hge|]; [|lia].
    by destruct (H4' Hge). }
  assert (Hs0 : _collectionStartNs (mgr (watch s)) = 0).
  { destruct (decide (_collectionStartNs (mgr (watch s)) = 0)) as [|Hne]; [done|]. by destruct (H3 Hne). }
  assert (Hl1 : locks (<[t := i1]> (infos (watch s))) Idle (others s)) by by eapply locks_same.
  assert (Hsame : forall j, deadlocks j = deadlocks i1 ->
    counts (<[t := j]> (infos (watch s))) (_currentPeriod (mgr (watch s))) (_deadlocksInPeriod (mgr (watch s))) (interventions s)).
  { intros j Ej. eapply counts_same in Hc; [|apply lookup_insert_eq|exact Ej]. by rewrite insert_insert_eq in Hc. }
  destruct safe; cbn [negb].
  - destruct (AcquireLock i1) as [i2|] eqn:Ea; [|done].
    assert (E2 : deadlocks i2 = deadlocks i1 /\ _isThreadDestroyed i2 = _isThreadDestroyed i1 /\ _objLock i1 = false).
    { unfold AcquireLock in Ea. destruct (_objLock i1); [done|]. by injection Ea as <-. }
    destruct E2 as (E2 & E3 & E4).
    destruct (_isThreadDestroyed i2) eqn:Ed; intros [= <- <-].
    + split; cbn; rewrite ?Hi0, ?Hs0; try done; [|by apply Hsame].
      eapply locks_same in Hl1; [rewrite insert_insert_eq in Hl1; exact Hl1|apply lookup_insert_eq|..]; cbn; congruence.
    + split; cbn; rewrite ?Hi0, ?Hs0; try done.
      * eapply locks_acquire in Hl1; [rewrite insert_insert_eq in Hl1; exact Hl1|apply lookup_insert_eq|done|done].
      * by apply Hsame.
      * intros u [= <-] _. unfold ShouldCollectThread, DeadlocksPerThreadThreshold, TotalDeadlocksThreshold in Hb.
        symmetry in Hb. apply andb_true_iff in Hb as [Hb1 Hb2]. rewrite (k_period _ _ _ _ H6) in Hb2. lia.
  - intros [= <- <-]. split; cbn; rewrite ?Hi0, ?Hs0; done.
Qed.

(** A new period, or not. *)
Lemma inv_period n s now :
  inv n s -> n + 1 < 2 ^ 64 ->
  inv (n + 1) (set_watch (with_mgr (start_period now) (watch s)) (sampler s) s).
Proof.
  intros [H1 H2 H3 H4 H5 H6 H7 H8 H9] Hn. unfold with_mgr, start_period.
  destruct (_ || _); [|split; cbn; try done; lia].
  assert (E : u64 (_currentPeriod (mgr (watch s)) + 1) = _currentPeriod (mgr (watch s)) + 1)
    by (apply wrap_small; unfold in_u; lia).
  split; cbn [watch set_watch mgr infos sampler others interventions started StartNewStatsAggregationPeriod _pTargetThread
    _collectionStartNs _deadlockInterventionInProgress _currentPeriod _deadlocksInPeriod _totalDeadlockDetectionsCount
    _deadlockCountMetric]; rewrite ?E; try done; [lia|by apply counts_period in H6|].
  intros t Ht _. rewrite (k_future _ _ _ _ H6) by lia.
  pose proof (of_thread_le t (_currentPeriod (mgr (watch s)) + 1) (interventions s)) as Hle.
  rewrite (k_future _ _ _ _ H6) in Hle by lia. lia.
Qed.

Lemma inv_intervene n s t w :
  inv n s -> sampler s = Collecting t -> _deadlockInterventionInProgress (mgr (watch s)) = 0 ->
  w = mkWatch (set_collection (_deadlockInterventionInProgress (mgr (watch s))) (_collectionStartNs (mgr (watch s)))
         (IncrDeadlockCount (_currentStatistics (mgr (watch s)))) (mgr (watch s))) (infos (watch s))
         (u64 (_deadlockCountMetric (watch s) + 1)) ->
  exists w', PerformDeadlockIntervention w = Return w' /\
    _pTargetThread (mgr w') = Some t /\ _currentPeriod (mgr w') = _currentPeriod (mgr (watch s)) /\
    _deadlockInterventionInProgress (mgr w') = 1 /\
    inv n (mkSys w' (sampler s) (others s) (interventions s ++ [(t, _currentPeriod (mgr (watch s)))]) (started s)).
Proof.
  intros [H1 H2 H3 H4 H5 H6 H7 H8 H9] Hp Hi0 ->. unfold PerformDeadlockIntervention. rewrite Hp in *.
  cbn [mgr set_collection _pTargetThread infos]. rewrite H1. cbn [pc_thread].
  destruct (l_target _ _ _ H2 t eq_refl) as (_ & i & Ei & Hd). rewrite Ei.
  set (m := mgr (watch s)) in *.
  set (m0 := set_collection _ _ _ m). destruct (counts_reset _ _ _ _ t i m0 H6 Ei eq_refl) as (Hc & Hs & Hn & _ & Hl & Hd1).
  destruct (GetUpdateIsThreadSafe m0 i) as [[i1 safe] changed]. cbn [fst snd] in *.
  destruct (H7 t eq_refl Hi0) as [Hb1 Hb2].
  pose proof (counts_intervene _ _ _ _ t i1 Hc ltac:(apply lookup_insert_eq) Hs Hb1 Hb2) as Hc2.
  rewrite insert_insert_eq in Hc2. set (i2 := with_deadlocks (IncDeadlocksCount (deadlocks i1)) i1) in *.
  set (m1 := mkManager 1 _ _ _ _ _ _ _ _ _ _ _).
  destruct (counts_reset _ _ _ _ t i2 m1 Hc2 ltac:(apply lookup_insert_eq) eq_refl) as (Hc3 & _ & _ & _ & Hl3 & Hd3).
  destruct (GetUpdateIsThreadSafe m1 i2) as [[i3 safe3] changed3]. cbn [fst snd] in *. rewrite insert_insert_eq in Hc3.
  eexists. split; [done|]. split_and!; try done.
  split; cbn [watch mgr infos sampler others interventions started _deadlockCountMetric m1 _pTargetThread pc_thread
    _collectionStartNs _deadlockInterventionInProgress _currentPeriod _deadlocksInPeriod _totalDeadlockDetectionsCount
    m0 set_collection]; try done.
  - eapply locks_same; [done|exact Ei|by rewrite Hl3|by rewrite Hd3].
  - split; [lia|]. intros _. by exists t.
  - destruct H8 as [-> ->]. rewrite !length_app, Nat2Z.inj_add, !u64_add. done.
  - cbn [pending] in *. rewrite Hi0 in H9. cbn in H9. rewrite length_app, Nat2Z.inj_add. cbn. lia.
Qed.

Lemma inv_watch n s now :
  inv n s -> n + 1 < 2 ^ 64 ->
  exists w, WatcherLoopIteration now (watch s) = Return w /\
    inv (n + 1) (mkSys w (sampler s) (others s) (watched (watch s) w s) (started s)).
Proof.
  intros Hi Hn. pose proof (inv_period n s now Hi Hn) as Hi'. unfold WatcherLoopIteration.
  set (w1 := with_mgr (start_period now) (watch s)) in *.
  assert (Et : _totalDeadlockDetectionsCount (mgr w1) = _totalDeadlockDetectionsCount (mgr (watch s)))
    by (unfold w1, with_mgr, start_period; cbn; by destruct (_ || _)).
  assert (Hsame : forall w, _totalDeadlockDetectionsCount (mgr w) = _totalDeadlockDetectionsCount (mgr w1) ->
    watched (watch s) w s = interventions s).
  { intros w E. unfold watched. by rewrite E, Et, Z.eqb_refl. }
  destruct (Z.eqb_spec (_collectionStartNs (mgr w1)) 0) as [Hs|Hs].
  { exists w1. split; [done|]. rewrite (Hsame w1) by done. exact Hi'. }
  destruct (v_start _ _ Hi' Hs) as [t Ht]. cbn in Ht.
  destruct (Z.leb_spec 1 (_deadlockInterventionInProgress (mgr w1))) as [Hge|Hlt].
  - destruct (Z.eqb_spec (_deadlockInterventionInProgress (mgr w1)) 1) as [H1|H1].
    + rewrite (v_target _ _ Hi' : _pTargetThread (mgr w1) = pc_thread (sampler s)), Ht. cbn [pc_thread].
      eexists. split; [done|]. rewrite Hsame by done. rewrite <- Ht.
      apply (inv_sampler _ _ (sampler s) _ (started s) Hi'); try done.
      * cbn. intros _. by exists t.
      * cbn. split; [lia|]. intros _. by exists t.
      * cbn. rewrite Ht. cbn. lia.
      * pose proof (v_started _ _ Hi') as Hv. cbn [watch set_watch sampler interventions started] in Hv. rewrite Ht, H1 in Hv.
        rewrite Ht. cbn in *. lia.
    + exists w1. split; [done|]. rewrite (Hsame w1) by done. exact Hi'.
  - assert (H0 : _deadlockInterventionInProgress (mgr w1) = 0) by (pose proof (proj1 (v_interv _ _ Hi')) as Hv; cbn [watch set_watch] in Hv; lia).
    destruct (Z.leb_spec (now - _collectionStartNs (mgr w1)) CollectionDurationThresholdNs).
    + exists w1. split; [done|]. rewrite (Hsame w1) by done. exact Hi'.
    + destruct (inv_intervene _ _ t _ Hi' Ht H0 eq_refl) as (w' & E & E1 & E2 & _ & Hf). cbn in E.
      exists w'. split; [exact E|]. cbn in Hf. unfold watched.
      destruct (Z.eqb_spec (_totalDeadlockDetectionsCount (mgr (watch s))) (_totalDeadlockDetectionsCount (mgr w'))) as [Ec|Ec].
      * exfalso. rewrite (proj1 (v_total _ _ Hi)) in Ec. pose proof (proj1 (v_total _ _ Hf)) as Ec'. cbn in Ec'.
        rewrite Ec', length_app, Nat2Z.inj_add in Ec. cbn in Ec. unfold wrap in Ec.
        pose proof (Z.div_mod (zlen (interventions s)) (2 ^ 64) ltac:(lia)).
        pose proof (Z.div_mod (zlen (interventions s) + 1) (2 ^ 64) ltac:(lia)). lia.
      * rewrite E1, E2. exact Hf.
Qed.

Definition preserved (n : Z) (o : stepped) : Prop :=
  match o with Disabled => True | Crashed => False | Next s => inv n s end.

Lemma inv_weaken n n' s : inv n s -> n <= n' -> inv n' s.
Proof. intros [H1 H2 H3 H4 H5 H6 H7 H8 H9] Hn. split; try done. lia. Qed.

(** The steps of the sampling thread before and at the start of a collection. *)
Lemma inv_collection n s p w started' :
  inv n s -> pc_thread p = pc_thread (sampler s) -> untouched (sampler s) 0 ->
  (forall t, sampler s <> Collecting t) -> infos w = infos (watch s) -> _deadlockCountMetric w = _deadlockCountMetric (watch s) ->
  _pTargetThread (mgr w) = _pTargetThread (mgr (watch s)) -> _currentPeriod (mgr w) = _currentPeriod (mgr (watch s)) ->
  _deadlocksInPeriod (mgr w) = _deadlocksInPeriod (mgr (watch s)) ->
  _totalDeadlockDetectionsCount (mgr w) = _totalDeadlockDetectionsCount (mgr (watch s)) ->
  _deadlockInterventionInProgress (mgr w) = _deadlockInterventionInProgress (mgr (watch s)) ->
  (_collectionStartNs (mgr w) = _collectionStartNs (mgr (watch s)) \/ exists t, p = Collecting t) ->
  started s + pending p 0 <= started' ->
  inv n (mkSys w p (others s) (interventions s) started').
Proof.
  intros Hi Ep Hu Hnc Ew1 Ew2 E1 E2 E3 E4 E5 Hs Hk. destruct w as [m' w' d']. cbn in *. subst w' d'.
  assert (H0 : _deadlockInterventionInProgress (mgr (watch s)) = 0).
  { destruct (v_interv _ _ Hi) as [? Hv].
    destruct (decide (1 <= _deadlockInterventionInProgress (mgr (watch s)))) as [Hge|]; [|lia].
    destruct (Hv Hge) as [t Ht]. by apply Hnc in Ht. }
  apply inv_sampler; try done; rewrite ?E5, ?H0; try done.
  - intros Hne. destruct Hs as [E|?]; [|done]. rewrite E in Hne. destruct (v_start _ _ Hi Hne) as [t Ht]. by apply Hnc in Ht.
  - pose proof (v_started _ _ Hi) as Hv. rewrite H0 in Hv. destruct (sampler s); cbn in Hv; lia.
Qed.

(** The end of a collection, and a thread that could not be suspended. *)
Lemma inv_collected n s t w :
  inv n s -> pc_thread (sampler s) = Some t -> infos w = infos (watch s) ->
  _deadlockCountMetric w = _deadlockCountMetric (watch s) ->
  _pTargetThread (mgr w) = _pTargetThread (mgr (watch s)) -> _currentPeriod (mgr w) = _currentPeriod (mgr (watch s)) ->
  _deadlocksInPeriod (mgr w) = _deadlocksInPeriod (mgr (watch s)) ->
  _totalDeadlockDetectionsCount (mgr w) = _totalDeadlockDetectionsCount (mgr (watch s)) ->
  _collectionStartNs (mgr w) = 0 -> _deadlockInterventionInProgress (mgr w) = 0 ->
  inv n (set_watch w (Collected t) s).
Proof.
  intros Hi Ep Ew1 Ew2 E1 E2 E3 E4 E5 E6. destruct w as [m' w' d']. cbn in *. subst w' d'.
  apply inv_sampler; try done; rewrite ?E6; try done.
  pose proof (v_started _ _ Hi) as Hv. cbn. destruct (sampler s); cbn in Hv; try lia. case_match; lia.
Qed.

Lemma idle_collection n s : inv n s -> (forall t, sampler s <> Collecting t) ->
  _collectionStartNs (mgr (watch s)) = 0 /\ _deadlockInterventionInProgress (mgr (watch s)) = 0.
Proof.
  intros Hi Hnc. split.
  - destruct (decide (_collectionStartNs (mgr (watch s)) = 0)) as [|Hne]; [done|].
    destruct (v_start _ _ Hi Hne) as [t Ht]. by apply Hnc in Ht.
  - destruct (v_interv _ _ Hi) as [? Hv].
    destruct (decide (1 <= _deadlockInterventionInProgress (mgr (watch s)))) as [Hge|]; [|lia].
    destruct (Hv Hge) as [t Ht]. by apply Hnc in Ht.
Qed.

Lemma inv_finish n s t now : inv n s -> sampler s = Collected t -> preserved n (finish sender now s).
Proof.
  intros Hi Ep. unfold finish, NotifyIterationFinished.
  destruct (idle_collection n s Hi ltac:(by rewrite Ep)) as [_ H0]. pose proof (v_started _ _ Hi) as Hv. rewrite Ep in Hv.
  rewrite (v_target _ _ Hi), Ep. cbn [pc_thread]. destruct Hi as [H1 H2 H3 H4 H5 H6 H7 H8 H9].
  split; cbn; rewrite ?H0; try done.
  - eapply locks_release; [exact H2|by rewrite Ep].
  - by apply counts_alter.
Qed.

Lemma inv_create n s t i :
  inv n s -> infos (watch s) !! t = None -> _objLock i = false -> _deadlockInPeriodCount (deadlocks i) = 0 ->
  _deadlockDetectionPeriod (deadlocks i) = 0 -> inv n (set_infos (<[t := i]> (infos (watch s))) (others s) s).
Proof.
  intros [H1 [L1 L2 L3] H3 H4 H5 [K1 K2 K3 K4 K5 K6] H7 H8 H9] Et El Ec Es.
  assert (Hknown : forall p, (t, p) ∉ interventions s).
  { intros p Hp. apply K3 in Hp as [j Hj]. congruence. }
  split; try done; cbn; split; try done.
  - intros u j [[<- <-]|[_ Hj]]%lookup_insert_Some; [|by apply L1]. rewrite El. split; [done|].
    intros [Hu|Hu]; [destruct (L2 t Hu) as (_ & j & Hj & _)|destruct (L3 t Hu) as [j Hj]]; congruence.
  - intros u Hu. destruct (L2 u Hu) as (? & j & Hj & ?). split; [done|]. exists j.
    rewrite lookup_insert_ne by congruence. done.
  - intros u Hu. apply lookup_insert_is_Some'. right. by apply L3.
  - intros u j [[<- <-]|[_ Hj]]%lookup_insert_Some; [lia|by eapply K1].
  - intros u j [[<- <-]|[_ Hj]]%lookup_insert_Some; [|by apply K2]. rewrite of_thread_unknown by done. by case_match.
  - intros u p Hu%K3. by apply lookup_insert_is_Some'; right.
Qed.

Lemma step_inv n s e : inv n s -> n + 1 < 2 ^ 64 -> preserved (n + 1) (step sender s e).
Proof.
  intros Hi0 Hn. assert (Hi : inv (n + 1) s) by (eapply inv_weaken; [done|lia]).
  destruct e as [t|ok susp|now|now|now|now|now| |t i|t|t|t]; cbn [step].
  - destruct (sampler s) eqn:Ep; try done. destruct (AllowStackWalk t (watch s)) as [| |[w b]] eqn:Ea; [done|done|].
    pose proof (inv_allow _ s t w b Hi Ep Ea) as Ha. by destruct b.
  - destruct (sampler s) as [|t| | | |] eqn:Ep; try done. destruct (idle_collection _ s Hi ltac:(by rewrite Ep)) as [? ?]. destruct ok.
    + apply inv_collection; rewrite ?Ep; try done; [by left|cbn; lia].
    + apply inv_collected; rewrite ?Ep; done.
  - destruct (sampler s) as [| |t susp| | |] eqn:Ep; try done. destruct (idle_collection _ s Hi ltac:(by rewrite Ep)) as [? ?].
    apply inv_collection; rewrite ?Ep; try done; [by left|cbn; lia].
  - destruct (sampler s) as [| | |t| |] eqn:Ep; try done. destruct (idle_collection _ s Hi ltac:(by rewrite Ep)) as [? ?].
    apply inv_collection; rewrite ?Ep; try done; by right; eexists.
  - destruct (sampler s) as [| | | |t|] eqn:Ep; try done. by apply inv_collected; rewrite ?Ep.
  - destruct (sampler s) as [| | | | |t] eqn:Ep; try done. by eapply inv_finish.
  - destruct (inv_watch n s now Hi0 Hn) as (w & -> & Hw). exact Hw.
  - unfold SendStatistics. destruct sender; cbn; [|by destruct s].
    destruct (_statisticsReadyToSend (mgr (watch s))); cbn; [|by destruct s].
    destruct Hi as [H1 H2 H3 H4 H5 H6 H7 H8 H9]. by split.
  - destruct (infos (watch s) !! t) eqn:Et; [done|]. destruct (_ && _ && _ && _) eqn:Eb; [|done]. bool_facts.
    apply inv_create; try done; by destruct (_objLock i).
  - destruct (infos (watch s) !! t) as [i|] eqn:Et; [|done]. unfold SetThreadDestroyed, AcquireLock.
    destruct (_objLock i) eqn:El; [done|]. cbn. eapply inv_infos; [done|exact Et|done|].
    destruct (v_locks _ _ Hi) as [L1 L2 L3]. split.
    + intros u j [[<- <-]|[_ Hj]]%lookup_insert_Some; [|by apply L1]. cbn. rewrite <- El. by apply L1.
    + intros u Hu. destruct (L2 u Hu) as (Hu' & j & Hj & Hd). split; [done|]. exists j.
      rewrite lookup_insert_ne; [done|]. intros <-. assert (_objLock i = true) by (apply (L1 t i Et); by left). congruence.
    + intros u Hu. apply lookup_insert_is_Some'. right. by apply L3.
  - destruct (infos (watch s) !! t) as [i|] eqn:Et; [|done]. unfold AcquireLock.
    destruct (_objLock i) eqn:El; [done|]. cbn. eapply inv_infos; [done|exact Et|done|].
    destruct (v_locks _ _ Hi) as [L1 L2 L3]. assert (Hne : pc_thread (sampler s) <> Some t).
    { intros Hu. assert (_objLock i = true) by (apply (L1 t i Et); by left). congruence. }
    split.
    + intros u j [[<- <-]|[? Hj]]%lookup_insert_Some; cbn; [split; [set_solver|done]|]. rewrite (L1 u j Hj). set_solver.
    + intros u Hu. destruct (L2 u Hu) as (Hu' & j & Hj & Hd). split; [set_solver|]. exists j.
      rewrite lookup_insert_ne; [done|congruence].
    + intros u Hu. apply lookup_insert_is_Some'. apply elem_of_union in Hu as [Hu|Hu]; [right; by apply L3|left; set_solver].
  - case_bool_decide as Ht; [|done]. destruct Hi as [H1 [L1 L2 L3] H3 H4 H5 H6 H7 H8 H9]. split; try done; cbn; [|by apply counts_alter].
    split.
    + intros u j. rewrite lookup_alter_Some. intros [(<- & i & Hi & ->)|[Hne Hj]].
      * cbn. split; [done|]. intros [Hu|Hu]; [by destruct (L2 t Hu)|set_solver].
      * rewrite (L1 u j Hj). set_solver.
    + intros u Hu. destruct (L2 u Hu) as (Hu' & j & Hj & Hd). split; [set_solver|]. exists j.
      rewrite lookup_alter_ne; [done|]. by intros ->.
    + intros u Hu. rewrite lookup_alter_is_Some. apply L3. set_solver.
Qed.

Lemma run_inv es : forall n s o, inv n s -> n + zlen es < 2 ^ 64 -> run sender s es = Some o ->
  exists s', o = Some s' /\ inv (n + zlen es) s'.
Proof.
  induction es as [|e es IH]; intros n s o Hi Hn; cbn [run].
  { intros [= <-]. exists s. split; [done|]. cbn. by rewrite Z.add_0_r. }
  cbn [length] in Hn. pose proof (step_inv n s e Hi ltac:(lia)) as Hs. destruct (step sender s e) as [| |s1]; [done|done|].
  intros Hr. destruct (IH (n + 1) s1 o Hs ltac:(lia) Hr) as (s' & -> & Hi'). exists s'. split; [done|].
  cbn [length]. by replace (n + Z.of_nat (S (length es))) with (n + 1 + zlen es) by lia.
Qed.
End preservation.

Lemma watch_start_inv now garbage : inv 0 (start now garbage).
Proof. split; cbn; try done; split; try done; set_solver. Qed.

(** ** Properties *)

(** C14: Whatever the sampling thread, the watcher, the callbacks that end threads and the other
    users of their locks do and in whatever order, the watcher never looks at a thread that
    is not being collected; the sampling thread has the lock of the thread it walks, alone,
    from its permission to its last notification, and of no other; and no thread is
    destroyed while it is walked. *)
Theorem walks_are_guarded sender now garbage es o :
  zlen es < 2 ^ 64 -> run sender (start now garbage) es = Some o ->
  exists s, o = Some s /\
    _pTargetThread (mgr (watch s)) = pc_thread (sampler s) /\
    (_collectionStartNs (mgr (watch s)) <> 0 -> exists t, sampler s = Collecting t) /\
    (forall t i, infos (watch s) !! t = Some i ->
      _objLock i = true <-> pc_thread (sampler s) = Some t \/ t ∈ others s) /\
    (forall t, pc_thread (sampler s) = Some t -> t ∉ others s /\
      exists i, infos (watch s) !! t = Some i /\ _isThreadDestroyed i = false).
Proof.
  intros Hn Hr. destruct (run_inv sender es 0 _ o (watch_start_inv now garbage) ltac:(lia) Hr) as (s & -> & Hi).
  exists s. split; [done|]. destruct Hi as [H1 [L1 L2 L3] H3 H4 H5 H6 H7 H8 H9]. done.
Qed.

(** C30: The watcher intervenes at most once in a collection; in a period it intervenes at most six
    times for one thread and thirteen times in all, after which the thread, or every
    thread, is refused until the next period; the metric and the total count every
    intervention. *)
Theorem deadlocks_bounded sender now garbage es s :
  zlen es < 2 ^ 64 -> run sender (start now garbage) es = Some (Some s) ->
  zlen (interventions s) <= started s /\
  (forall p, in_period p (interventions s) <= 13 /\ forall t, of_thread t p (interventions s) <= 6) /\
  _totalDeadlockDetectionsCount (mgr (watch s)) = u64 (zlen (interventions s)) /\
  _deadlockCountMetric (watch s) = u64 (zlen (interventions s)) /\
  (forall t w, AllowStackWalk t (watch s) = Return (w, true) ->
    of_thread t (_currentPeriod (mgr (watch s))) (interventions s) <= 5 /\
    in_period (_currentPeriod (mgr (watch s))) (interventions s) <= 12).
Proof.
  intros Hn Hr. destruct (run_inv sender es 0 _ _ (watch_start_inv now garbage) ltac:(lia) Hr) as (s' & [= <-] & Hi).
  pose proof (v_started _ _ Hi) as Hs. destruct Hi as [H1 H2 H3 H4 H5 H6 H7 [H8 H8'] H9].
  split; [unfold pending in Hs; repeat case_match; lia|]. split; [apply H6|]. split; [done|]. split; [done|].
  intros t w. unfold AllowStackWalk. destruct (infos (watch s) !! t) as [i|] eqn:Ei; [|done].
  destruct (counts_reset _ _ _ _ t i (mgr (watch s)) H6 Ei eq_refl) as (_ & _ & _ & Hb & _).
  destruct (GetUpdateIsThreadSafe (mgr (watch s)) i) as [[i1 safe] changed]. cbn [fst snd] in *.
  destruct safe; cbn [negb]; [intros _|done].
  unfold ShouldCollectThread, DeadlocksPerThreadThreshold, TotalDeadlocksThreshold in Hb. symmetry in Hb.
  apply andb_true_iff in Hb as [Hb1 Hb2]. rewrite (k_period _ _ _ _ H6) in Hb2. lia.
Qed.

(** A collection that lasts for more than half a second is detected at the next look of the
    watcher, which resumes the target and counts the deadlock on it, in the period that is
    current then. *)
Theorem stuck_walk_detected sender now garbage es s t later :
  zlen es + 1 < 2 ^ 64 -> run sender (start now garbage) es = Some (Some s) ->
  sampler s = Collecting t -> _collectionStartNs (mgr (watch s)) <> 0 ->
  _deadlockInterventionInProgress (mgr (watch s)) = 0 ->
  CollectionDurationThresholdNs < later - _collectionStartNs (mgr (watch s)) ->
  exists s', step sender s (EWatch later) = Next s' /\ sampler s' = Collecting t /\
    _deadlockInterventionInProgress (mgr (watch s')) = 1 /\
    interventions s' = interventions s ++ [(t, _currentPeriod (mgr (watch s')))] /\
    (StatsAggregationPeriodNs < later - _currentPeriodStartNs (mgr (watch s)) ->
      _currentPeriod (mgr (watch s')) = _currentPeriod (mgr (watch s)) + 1).
Proof.
  intros Hn Hr Ht Hs H0 Hl. destruct (run_inv sender es 0 _ _ (watch_start_inv now garbage) ltac:(lia) Hr) as (s0 & [= <-] & Hi).
  pose proof (inv_period _ s later Hi ltac:(lia)) as Hi'. cbn [step]. unfold WatcherLoopIteration.
  set (w1 := with_mgr (start_period later) (watch s)) in *.
  assert (Es : _collectionStartNs (mgr w1) = _collectionStartNs (mgr (watch s)) /\
    _deadlockInterventionInProgress (mgr w1) = 0 /\
    _totalDeadlockDetectionsCount (mgr w1) = _totalDeadlockDetectionsCount (mgr (watch s)))
    by (unfold w1, with_mgr, start_period; cbn; by destruct (_ || _)).
  destruct Es as (Es & E0 & Et). rewrite Es, E0, (proj2 (Z.eqb_neq _ _) Hs), (proj2 (Z.leb_gt _ _) Hl). cbn [Z.leb Z.compare].
  destruct (inv_intervene _ _ t _ Hi' Ht E0 eq_refl) as (w' & E & E1 & E2 & E3 & Hf).
  cbn [watch set_watch] in E, E2. rewrite Es, E0 in E.
  change (1 <=? 0) with false. cbn iota. rewrite E. eexists. split; [done|]. cbn. split; [done|]. split; [done|]. split.
  - unfold watched. pose proof (proj1 (v_total _ _ Hf)) as Ec'.
    cbn [watch interventions set_watch] in Ec'. rewrite Ec', (proj1 (v_total _ _ Hi)).
    destruct (Z.eqb_spec (u64 (zlen (interventions s)))
      (u64 (zlen (interventions s ++ [(t, _currentPeriod (mgr w1))])))) as [Ec|_]; [|by rewrite E1, E2].
    exfalso. rewrite length_app, Nat2Z.inj_add in Ec. cbn in Ec. unfold wrap in Ec.
    pose proof (Z.div_mod (zlen (interventions s)) (2 ^ 64) ltac:(lia)).
    pose proof (Z.div_mod (zlen (interventions s) + 1) (2 ^ 64) ltac:(lia)). lia.
  - intros Hp. rewrite E2. unfold w1, with_mgr, start_period. cbn.
    assert (Ho : (_currentPeriodStartNs (mgr (watch s)) =? 0) || (StatsAggregationPeriodNs <?
      (if _currentPeriodStartNs (mgr (watch s)) =? 0 then 0 else later - _currentPeriodStartNs (mgr (watch s)))) = true).
    { destruct (Z.eqb_spec (_currentPeriodStartNs (mgr (watch s))) 0); cbn; [done|]. by apply Z.ltb_lt. }
    rewrite Ho. cbn. apply wrap_small. pose proof (v_current _ _ Hi). unfold in_u. lia.
Qed.

(** ** Examples *)

Module Example_watch.
Definition ms : Z := 1000000.
Definition worker : ManagedThreadInfo := new_ManagedThreadInfo 1 7 100 200 [].

(** A collection of the thread that is stuck for 600 ms. *)
Definition stuck (now : Z) : list event :=
  [EAllow 0%nat; ESuspend true false; EState now; EStart now; EWatch (now + 600 * ms); EWatch (now + 700 * ms);
   EEnd (now + 800 * ms); EFinish (now + 800 * ms)].

Definition six : list event :=
  ECreate 0%nat worker :: flat_map (fun k => stuck (1000 * ms * Z.of_nat k)) (seq 1 6).

(** After six deadlocks the thread is refused, and accepted again in the next period. *)
Example refused_then_accepted :
  match run true (start 0 0) (six ++ [EAllow 0%nat]), run true (start 0 0) (six ++ [EWatch (40000 * ms); EAllow 0%nat]) with
  | Some (Some s), Some (Some s') =>
    sampler s = Idle /\ sampler s' = Allowed 0%nat /\ zlen (interventions s) = 6 /\
    _totalDeadlocks (_currentStatistics (mgr (watch s))) = 6
  | _, _ => False
  end.
Proof. vm_compute. done. Qed.

(** Its end is not possible while it is walked. *)
Example destroy_waits :
  run true (start 0 0) [ECreate 0%nat worker; EAllow 0%nat; EDestroy 0%nat] = None.
Proof. vm_compute. done. Qed.

(** The duration of the suspension is counted from the last thread that was suspended, when
    the next one could not be. *)
Example stale_suspension :
  match run true (start 0 0) [ECreate 0%nat worker; EAllow 0%nat; ESuspend true false; EState (1000 * ms);
    EStart (1000 * ms); EEnd (1001 * ms); EFinish (1001 * ms); EAllow 0%nat; ESuspend false false; EFinish (9001 * ms)] with
  | Some (Some s) => _maxSuspensionTime (_currentStatistics (mgr (watch s))) = 8001 * ms
  | _ => False
  end.
Proof. vm_compute. done. Qed.
End Example_watch.

Lemma walks_are_guarded_witness :
  exists s, run true (start 0 0) Example_watch.six = Some (Some s) /\ _pTargetThread (mgr (watch s)) = pc_thread (sampler s).
Proof.
  destruct (run true (start 0 0) Example_watch.six) as [o|] eqn:E; [|vm_compute in E; discriminate].
  destruct (walks_are_guarded true 0 0 Example_watch.six o) as (s & -> & H & _); [vm_compute; reflexivity|exact E|].
  exists s. split; [reflexivity|exact H].
Defined.

Lemma deadlocks_bounded_witness :
  exists s, run true (start 0 0) Example_watch.six = Some (Some s) /\ zlen (interventions s) <= started s /\
    _deadlockCountMetric (watch s) = u64 (zlen (interventions s)).
Proof.
  destruct (run true (start 0 0) Example_watch.six) as [[s|]|] eqn:E; [|vm_compute in E; discriminate..].
  destruct (deadlocks_bounded true 0 0 Example_watch.six s) as (H1 & _ & _ & H2 & _); [vm_compute; reflexivity|exact E|].
  exists s. split; [reflexivity|]. split; [exact H1|exact H2].
Defined.
