(* ===== verification/SamplerLoop.v ===== *)
(** * The sampling loop

    Model of [StackSamplerLoop.cpp]: at every period the loop takes the next threads of the
    list, those with a trace context first, asks its manager whether each may be walked, has
    its stack collected and hands the sample over; the manual CPU profiler samples the
    threads that run on a core.

    The thread list is that of [ManagedThreadList], the permission and the notifications are
    those of [SamplerManager].  The list decides by the OS handles it knows, the loop reads
    the records the manager works on.  What happens around one turn of a loop is an input
    ([Turn]): what other threads did before it, the clock (the system's, which may be set
    back), the answers of the operating system and of the collector.  A loop yields the state
    it has reached and whether it ended: it has not when its fuel is used up, it waits for a
    lock, or it dereferences null ([None] as the result of an operation is one of the latter
    two). *)
From stdpp Require Import base gmap list.
From S2P Require Import Prelude ManagedThreadList ThreadInfo SamplerManager.

Inductive PROFILING_TYPE := WallTime | CpuTime.

#[export] Instance PROFILING_TYPE_eq_dec : EqDecision PROFILING_TYPE.
Proof. solve_decision. Defined.

(** [RawWallTimeSample] and [RawCpuSample], as far as the loop fills them. *)
Record RawSample := mkSample {
  s_type : PROFILING_TYPE;
  s_thread : addr;
  Timestamp : Z;
  Duration : Z;
  s_context : TraceContext;
  s_frames : Z
}.

Record Config := mkConfig {
  _walltimeThreadsThreshold : Z;
  _cpuThreadsThreshold : Z;
  _codeHotspotsThreadsThreshold : Z;
  _samplingPeriod : Z;               (* nanoseconds *)
  _nbCores : Z;
  _isWalltimeEnabled : bool;
  _isCpuEnabled : bool
}.

Record Loop := mkLoop {
  _pManagedThreadList : ManagedThreadList;
  _pCodeHotspotsThreadList : ManagedThreadList;
  lwatch : Watch;
  _samples : list RawSample
}.

(** The iterators the constructor creates. *)
Definition _iteratorWallTime : Z := 0.
Definition _iteratorCpuTime : Z := 1.
Definition _iteratorCodeHotspot : Z := 0.

Record Turn := mkTurn {
  t_env : Loop -> Loop;              (* other threads, before the turn *)
  t_now : Z;
  t_suspend : bool * bool;           (* SuspendTargetThread: success, suspended *)
  t_frames : Z;                      (* frames the collector leaves in the buffer *)
  t_running : bool * Z * bool;       (* IsRunning: running, consumption in ms, failure *)
  t_shutdown : bool                  (* _shutdownRequested, as the loop's condition reads it *)
}.

Section loop.
Context (cfg : Config) (sender : bool).

Definition ComputeWallTime (currentTimestampNs prevTimestampNs : Z) : Z :=
  if prevTimestampNs =? 0 then _samplingPeriod cfg
  else if 0 <? prevTimestampNs then Z.max 0 (currentTimestampNs - prevTimestampNs)
  else _samplingPeriod cfg.

Definition with_timing (t : Timing) (i : ManagedThreadInfo) : ManagedThreadInfo :=
  mkThreadInfo (_profilerThreadInfoId i) (ThreadInfo._clrThreadId i) (names i) t (deadlocks i) (_isThreadDestroyed i)
    (_traceContext i) (linux i) (_blockingThread i) (_objLock i).

Definition set_info (a : addr) (i : ManagedThreadInfo) (l : Loop) : Loop :=
  mkLoop (_pManagedThreadList l) (_pCodeHotspotsThreadList l)
    (mkWatch (mgr (lwatch l)) (<[a := i]> (infos (lwatch l))) (_deadlockCountMetric (lwatch l))) (_samples l).
Definition set_lwatch (w : Watch) (l : Loop) : Loop :=
  mkLoop (_pManagedThreadList l) (_pCodeHotspotsThreadList l) w (_samples l).

(** An empty callstack is not kept. *)
Definition PersistStackSnapshotResults (s : RawSample) (l : Loop) : Loop :=
  if s_frames s =? 0 then l
  else mkLoop (_pManagedThreadList l) (_pCodeHotspotsThreadList l) (lwatch l) (_samples l ++ [s]).

(** The notifications between the permission and the end of the collection. *)
Definition notify (t : Turn) (w : Watch) : option Watch :=
  let w :=
    if (t_suspend t).1 then
      NotifyCollectionEnd (t_now t) (NotifyCollectionStart (t_now t) (NotifyThreadState (t_suspend t).2 (t_now t) w))
    else w in
  match NotifyIterationFinished sender (t_now t) w with Return w => Some w | _ => None end.

Definition CollectOneThreadStackSample (t : Turn) (a : addr) (timestamp duration : Z) (ty : PROFILING_TYPE) (l : Loop) :
    option Loop :=
  i ← infos (lwatch l) !! a;
  if ThreadInfo._osThreadHandle (names i) =? 0 then Some l
  else
    match AllowStackWalk a (lwatch l) with
    | Return (w, true) =>
      w ← notify t w;
      let l := set_lwatch w l in
      if (t_suspend t).1
      then Some (PersistStackSnapshotResults
                   (mkSample ty a timestamp duration (GetTracingContext (_traceContext i)) (t_frames t)) l)
      else Some l
    | Return (w, false) => Some (set_lwatch w l)
    | _ => None
    end.

(** ** Wall time *)

(** Which of the two lists an iteration walks, and with which iterator. *)
Definition the_list (hotspot : bool) (l : Loop) : ManagedThreadList :=
  if hotspot then _pCodeHotspotsThreadList l else _pManagedThreadList l.
Definition set_list (hotspot : bool) (s : ManagedThreadList) (l : Loop) : Loop :=
  if hotspot then mkLoop (_pManagedThreadList l) s (lwatch l) (_samples l)
  else mkLoop s (_pCodeHotspotsThreadList l) (lwatch l) (_samples l).

(** Threads without a trace context are left to the other iteration, and conversely. *)
Definition mustSkip (hotspot : bool) (i : ManagedThreadInfo) : bool :=
  negb (CanBeInterrupted (linux i)) ||
  (if hotspot then negb (HasTraceContext (_traceContext i)) else HasTraceContext (_traceContext i)).

Definition sample_wall (t : Turn) (a : addr) (i : ManagedThreadInfo) (l : Loop) : option Loop :=
  let '(tm, prevSampleTimestamp) := SetLastSampleTimestamp (t_now t) (timing i) in
  let duration := ComputeWallTime (t_now t) prevSampleTimestamp in
  CollectOneThreadStackSample t a (t_now t) duration WallTime (set_info a (with_timing tm i) l).

(** The [do ... while] loop: [continue] goes to its condition. *)
Fixpoint wall_run (hotspot : bool) (fuel k : nat) (turns : nat -> Turn) (i sampledThreadsCount : Z)
    (firstThread : option addr) (l : Loop) : Loop * nat * bool :=
  match fuel with
  | O => (l, k, false)
  | S fuel =>
    let t := turns k in
    let l := t_env t l in
    match LoopNext (the_list hotspot l) (if hotspot then _iteratorCodeHotspot else _iteratorWallTime) with
    | None => (l, k, false)
    | Some (s, _targetThread) =>
      let l := set_list hotspot s l in
      match _targetThread with
      | None => (l, S k, true)
      | Some a =>
        if bool_decide (firstThread = Some a) then (l, S k, true)
        else
          let firstThread := Some (default a firstThread) in
          match (info ← infos (lwatch l) !! a;
                 if mustSkip hotspot info then Some (l, i)
                 else l ← sample_wall t a info l; Some (l, i + 1)) with
          | None => (l, k, false)
          | Some (l, i) =>
            if (i <? sampledThreadsCount) && negb (t_shutdown t)
            then wall_run hotspot fuel (S k) turns i sampledThreadsCount firstThread l
            else (l, S k, true)
          end
      end
    end
  end.

(** The state of a loop that has ended. *)
Definition ended (r : Loop * nat * bool) : option (Loop * nat) := if r.2 then Some r.1 else None.

Definition wall_loop (hotspot : bool) (fuel k : nat) (turns : nat -> Turn) (i sampledThreadsCount : Z)
    (firstThread : option addr) (l : Loop) : option (Loop * nat) :=
  ended (wall_run hotspot fuel k turns i sampledThreadsCount firstThread l).

(** Both iterations take the count of the list of all threads. *)
Definition wall_iteration (hotspot : bool) (fuel k : nat) (turns : nat -> Turn) (l : Loop) : Loop * nat * bool :=
  let managedThreadsCount := i32 (count (_pManagedThreadList l)) in
  let threshold := if hotspot then _codeHotspotsThreadsThreshold cfg else _walltimeThreadsThreshold cfg in
  wall_run hotspot fuel k turns 0 (Z.min managedThreadsCount threshold) None l.

Definition WalltimeProfilingIteration (fuel k : nat) (turns : nat -> Turn) (l : Loop) : option (Loop * nat) :=
  ended (wall_iteration false fuel k turns l).

Definition CodeHotspotIteration (fuel k : nat) (turns : nat -> Turn) (l : Loop) : option (Loop * nat) :=
  ended (wall_iteration true fuel k turns l).

(** ** CPU time *)

Definition ms : Z := 1000000.

(** The consumption that is accounted, in milliseconds: at most the time since the last
    sample, less a microsecond. *)
Definition cpu_for_sample (now lastCpuTimestamp cpuForSample : Z) : Z :=
  if now <? lastCpuTimestamp + cpuForSample * ms then Z.quot (now - lastCpuTimestamp - 1000) ms else cpuForSample.

Definition sample_cpu (t : Turn) (a : addr) (i : ManagedThreadInfo) (l : Loop) : option (Loop * bool) :=
  let lastConsumption := _cpuConsumption (timing i) in
  let '(isRunning, currentConsumption, _) := t_running t in
  let cpuForSample := currentConsumption - lastConsumption in
  if isRunning && (0 <? cpuForSample) then
    let cpuForSample := cpu_for_sample (t_now t) (_timestamp (timing i)) cpuForSample in
    let l := set_info a (with_timing (SetCpuConsumption currentConsumption (t_now t) (timing i)).1 i) l in
    l ← CollectOneThreadStackSample t a (t_now t) (cpuForSample * ms) CpuTime l;
    Some (l, true)
  else Some (l, false).

Fixpoint cpu_loop (n k : nat) (turns : nat -> Turn) (sampledThreads : Z) (l : Loop) : Loop * nat * bool :=
  match n with
  | O => (l, k, true)
  | S n =>
    let t := turns k in
    let l := t_env t l in
    if t_shutdown t then (l, S k, true)
    else
      match LoopNext (_pManagedThreadList l) _iteratorCpuTime with
      | None => (l, k, false)
      | Some (s, _targetThread) =>
        let l := set_list false s l in
        match match _targetThread with
              | None => Some (l, false)
              | Some a => info ← infos (lwatch l) !! a; sample_cpu t a info l
              end with
        | None => (l, k, false)
        | Some (l, sampled) =>
          let sampledThreads := if sampled : bool then u32 (sampledThreads + 1) else sampledThreads in
          if sampled && (_nbCores cfg <=? sampledThreads) then (l, S k, true)
          else cpu_loop n (S k) turns sampledThreads l
        end
      end
  end.

Definition CpuProfilingIteration (k : nat) (turns : nat -> Turn) (l : Loop) : Loop * nat * bool :=
  let managedThreadsCount := i32 (count (_pManagedThreadList l)) in
  let sampledThreadsCount := Z.min managedThreadsCount (_cpuThreadsThreshold cfg) in
  cpu_loop (Z.to_nat sampledThreadsCount) k turns 0 l.

(** ** The loop *)

(** What follows a part of the loop that ended. *)
Definition and_then (r : Loop * nat * bool) (f : nat -> Loop -> Loop * nat * bool) : Loop * nat * bool :=
  let '(l, k, b) := r in if b then f k l else r.

Definition MainLoopIteration (fuel k : nat) (turns : nat -> Turn) (l : Loop) : Loop * nat * bool :=
  and_then
    (if _isWalltimeEnabled cfg then
       and_then (wall_iteration true fuel k turns l) (fun k => wall_iteration false fuel k turns)
     else (l, k, true))
    (fun k l => if _isCpuEnabled cfg then CpuProfilingIteration k turns l else (l, k, true)).

(** The consumptions at the start; [t1] is read once. *)
Fixpoint reset_loop (n k : nat) (turns : nat -> Turn) (t1 : Z) (l : Loop) : Loop * nat * bool :=
  match n with
  | O => (l, k, true)
  | S n =>
    let t := turns k in
    let l := t_env t l in
    match LoopNext (_pManagedThreadList l) _iteratorCpuTime with
    | None => (l, k, false)
    | Some (s, it) =>
      let l := set_list false s l in
      match match it with
            | None => Some l
            | Some a =>
              i ← infos (lwatch l) !! a;
              let '(_, currentConsumption, failure) := t_running t in
              if failure : bool then Some l
              else Some (set_info a (with_timing (SetCpuConsumption currentConsumption t1 (timing i)).1 i) l)
            end with
      | None => (l, k, false)
      | Some l => reset_loop n (S k) turns t1 l
      end
    end
  end.

Definition ResetThreadsCpuConsumption (k : nat) (turns : nat -> Turn) (l : Loop) : Loop * nat * bool :=
  let t1 := t_now (turns k) in
  reset_loop (Z.to_nat (i32 (count (_pManagedThreadList l)))) k turns t1 l.

(** The first [n] rounds of [MainLoop]. *)
Fixpoint rounds (n fuel k : nat) (turns : nat -> Turn) (l : Loop) : Loop * nat * bool :=
  match n with
  | O => (l, k, true)
  | S n => and_then (MainLoopIteration fuel k turns l) (fun k => rounds n fuel k turns)
  end.

Definition MainLoop (n fuel k : nat) (turns : nat -> Turn) (l : Loop) : Loop * nat * bool :=
  and_then (ResetThreadsCpuConsumption k turns l) (fun k => rounds n fuel k turns).
End loop.

(** ** The service *)

(** [_pLoopThread] and [_shutdownRequested]. *)
Record Service := mkService { _pLoopThread : bool; _shutdownRequested : bool }.

(** [created]: the thread could be created; [ready]: it said so in time. *)
Definition StartImpl (created ready : bool) (s : Service) : Service * bool :=
  if _pLoopThread s then (s, false)
  else if negb created then (mkService false false, false)
  else if ready then (mkService true false, true)
  else (mkService true true, false).

(** [joined]: [join] did not throw. *)
Definition StopImpl (joined : bool) (s : Service) : Service * bool :=
  if _pLoopThread s then (mkService (negb joined) true, true) else (s, true).

(** ** One collection *)

Section collection.
Context (cfg : Config) (sender : bool).

(** What a collection leaves as it was in the record of its thread. *)
Definition same_record (i i' : ManagedThreadInfo) : Prop :=
  timing i' = timing i /\ linux i' = linux i /\ _traceContext i' = _traceContext i /\ names i' = names i /\
  (_objLock i = false -> _objLock i' = false).

Definition same_lists (l l' : Loop) : Prop :=
  _pManagedThreadList l' = _pManagedThreadList l /\ _pCodeHotspotsThreadList l' = _pCodeHotspotsThreadList l.

(** At most this sample is added. *)
Definition adds (s : RawSample) (l l' : Loop) : Prop :=
  exists new, _samples l' = _samples l ++ new /\ (new = [] \/ new = [s]).

Lemma same_lists_refl l : same_lists l l.
Proof. done. Qed.

Lemma adds_nothing s l l' : _samples l' = _samples l -> adds s l l'.
Proof. intros E. exists []. rewrite app_nil_r. auto. Qed.

Lemma allow_record a w w' b i :
  infos w !! a = Some i -> AllowStackWalk a w = Return (w', b) ->
  exists i', infos w' = <[a := i']> (infos w) /\ same_record i (if b then ReleaseLock i' else i') /\
    (b = true -> _pTargetThread (mgr w') = Some a).
Proof.
  intros Ei. unfold AllowStackWalk. rewrite Ei. unfold GetUpdateIsThreadSafe.
  destruct (GetOrResetDeadlocksCount _ _) as [d [p c]]. destruct (ShouldCollectThread c _); cbn [negb].
  2: { intros [= <- <-]. eexists. repeat split; done. }
  unfold AcquireLock. cbn. destruct (_objLock i) eqn:El; [done|]. cbn. destruct (_isThreadDestroyed i) eqn:Ed.
  all: intros [= <- <-]; eexists; repeat split; done.
Qed.

Lemma allow_returns a w i :
  infos w !! a = Some i -> _objLock i = false -> exists w' b, AllowStackWalk a w = Return (w', b).
Proof.
  intros Ei El. unfold AllowStackWalk. rewrite Ei. unfold GetUpdateIsThreadSafe.
  destruct (GetOrResetDeadlocksCount _ _) as [d [p c]]. destruct (ShouldCollectThread c _); cbn [negb]; [|eauto].
  unfold AcquireLock. cbn. rewrite El. cbn. destruct (_isThreadDestroyed i); eauto.
Qed.

Lemma notify_ok t w a : _pTargetThread (mgr w) = Some a ->
  exists w', notify sender t w = Some w' /\ infos w' = alter ReleaseLock a (infos w).
Proof.
  intros E. unfold notify. destruct (t_suspend t) as [[] sp]; unfold NotifyIterationFinished; cbn; rewrite E; eauto.
Qed.

Lemma collect_spec t a ts d ty l l' i :
  infos (lwatch l) !! a = Some i -> CollectOneThreadStackSample sender t a ts d ty l = Some l' ->
  same_lists l l' /\ (exists i', infos (lwatch l') = <[a := i']> (infos (lwatch l)) /\ same_record i i') /\
  adds (mkSample ty a ts d (GetTracingContext (_traceContext i)) (t_frames t)) l l'.
Proof.
  intros Ei. unfold CollectOneThreadStackSample. rewrite Ei. cbn [mbind option_bind].
  destruct (ThreadInfo._osThreadHandle (names i) =? 0).
  { intros [= <-]. split; [done|]. split; [|by apply adds_nothing]. exists i. rewrite insert_id by done. done. }
  destruct (AllowStackWalk a (lwatch l)) as [| |[w b]] eqn:Ea; [done|done|].
  destruct (allow_record a _ w b i Ei Ea) as (i1 & E1 & Hs & Ht). destruct b.
  - destruct (notify_ok t w a (Ht eq_refl)) as (w' & -> & E'). cbn [mbind option_bind].
    rewrite E1, alter_insert_eq in E'. unfold PersistStackSnapshotResults, adds.
    destruct (t_suspend t).1; cbn [s_frames]; [destruct (t_frames t =? 0)|]; intros [= <-]; cbn.
    all: split; [done|]; split; [by eexists|].
    1, 3: exists []; rewrite app_nil_r; auto.
    eexists; eauto.
  - intros [= <-]. split; [done|]. split; [by eexists|by apply adds_nothing].
Qed.

Lemma collect_returns t a ts d ty l i :
  infos (lwatch l) !! a = Some i -> _objLock i = false ->
  is_Some (CollectOneThreadStackSample sender t a ts d ty l).
Proof.
  intros Ei El. unfold CollectOneThreadStackSample. rewrite Ei. cbn [mbind option_bind].
  destruct (_ =? 0); [by eexists|]. destruct (allow_returns a _ i Ei El) as (w & b & Ea). rewrite Ea.
  destruct (allow_record a _ w b i Ei Ea) as (i1 & E1 & Hs & Ht). destruct b; [|by eexists].
  destruct (notify_ok t w a (Ht eq_refl)) as (w' & -> & E'). cbn [mbind option_bind]. case_match; by eexists.
Qed.
End collection.

(** ** Invariants of the loop *)

(** An assertion on the state at a turn that every step of the loop keeps. *)
Record stable (cfg : Config) (sender : bool) (turns : nat -> Turn) (I : nat -> Loop -> Prop) : Prop := {
  st_next k l : I k l -> I (S k) l;
  st_env k l : I k l -> I k (t_env (turns k) l);
  st_list k b s l : I k l -> I k (set_list b s l);
  st_wall k a i l l' : I k l -> infos (lwatch l) !! a = Some i ->
    sample_wall cfg sender (turns k) a i l = Some l' -> I k l';
  st_cpu k a i l l' b : I k l -> infos (lwatch l) !! a = Some i ->
    sample_cpu sender (turns k) a i l = Some (l', b) -> I k l'
}.

Section invariants.
Context (cfg : Config) (sender : bool) (turns : nat -> Turn) (I : nat -> Loop -> Prop).
Context (HI : stable cfg sender turns I).

(** It holds wherever a loop is, ended or not. *)
Definition kept (r : Loop * nat * bool) : Prop := I r.1.2 r.1.1.

Lemma kept_and_then r f : kept r -> (forall l k, I k l -> kept (f k l)) -> kept (and_then r f).
Proof. destruct r as [[l k] []]; cbn; auto. Qed.

Lemma kept_wall_run hotspot fuel : forall k i n f l, I k l ->
  kept (wall_run cfg sender hotspot fuel k turns i n f l).
Proof.
  induction fuel as [|fuel IH]; intros k i n f l Hl; cbn [wall_run]; [done|].
  apply (st_env _ _ _ _ HI) in Hl. set (l0 := t_env (turns k) l) in *.
  destruct (LoopNext _ _) as [[s r]|]; [|done]. apply (st_list _ _ _ _ HI k hotspot s) in Hl.
  set (l1 := set_list hotspot s l0) in *. pose proof (st_next _ _ _ _ HI k l1 Hl).
  destruct r as [a|]; [|done]. case_bool_decide; [done|].
  destruct (infos (lwatch l1) !! a) as [info|] eqn:Ei; cbn [mbind option_bind]; [|done].
  assert (Hl2 : forall l2 j, (if mustSkip hotspot info then Some (l1, i)
     else l ← sample_wall cfg sender (turns k) a info l1; Some (l, i + 1)) = Some (l2, j) -> I k l2).
  { intros l2 j. destruct (mustSkip hotspot info); [by intros [= <- <-]|].
    destruct (sample_wall _ _ _ _ _ _) as [l3|] eqn:E3; [|done]. cbn. intros [= <- <-]. by eapply (st_wall _ _ _ _ HI). }
  destruct (if mustSkip hotspot info then _ else _) as [[l2 j]|]; [|done].
  specialize (Hl2 l2 j eq_refl). apply (st_next _ _ _ _ HI) in Hl2. case_match; [by apply IH|done].
Qed.

Lemma kept_cpu_loop n : forall k c l, I k l -> kept (cpu_loop cfg sender n k turns c l).
Proof.
  induction n as [|n IH]; intros k c l Hl; cbn [cpu_loop]; [done|].
  apply (st_env _ _ _ _ HI) in Hl. set (l0 := t_env (turns k) l) in *.
  pose proof (st_next _ _ _ _ HI k l0 Hl). destruct (t_shutdown (turns k)); [done|].
  destruct (LoopNext _ _) as [[s r]|]; [|done]. apply (st_list _ _ _ _ HI k false s) in Hl.
  set (l1 := set_list false s l0) in *.
  assert (Hl2 : forall l2 b, match r with None => Some (l1, false)
     | Some a => info ← infos (lwatch l1) !! a; sample_cpu sender (turns k) a info l1 end = Some (l2, b) -> I k l2).
  { intros l2 b. destruct r as [a|]; [|by intros [= <- <-]].
    destruct (infos (lwatch l1) !! a) as [info|] eqn:Ei; cbn [mbind option_bind]; [|done]. intros E.
    by eapply (st_cpu _ _ _ _ HI). }
  destruct (match r with None => _ | Some _ => _ end) as [[l2 b]|]; [|done].
  specialize (Hl2 l2 b eq_refl). apply (st_next _ _ _ _ HI) in Hl2. case_match; [done|by apply IH].
Qed.

Lemma kept_rounds n fuel : forall k l, I k l -> kept (rounds cfg sender n fuel k turns l).
Proof.
  induction n as [|n IH]; intros k l Hl; cbn [rounds]; [done|]. apply kept_and_then; [|auto].
  unfold MainLoopIteration. apply kept_and_then.
  - case_match; [|done]. apply kept_and_then; [by apply kept_wall_run|]. intros. by apply kept_wall_run.
  - intros l1 k1 Hl1. case_match; [by apply kept_cpu_loop|done].
Qed.

(** The start: [J] while the consumptions are read, all of them with the time [t1]. *)
Lemma reset_keeps (J : Loop -> Prop) t1 n : forall k l,
  (forall k l, J l -> J (t_env (turns k) l)) -> (forall b s l, J l -> J (set_list b s l)) ->
  (forall a i c l, J l -> infos (lwatch l) !! a = Some i ->
     J (set_info a (with_timing (SetCpuConsumption c t1 (timing i)).1 i) l)) ->
  J l -> let r := reset_loop n k turns t1 l in J r.1.1 /\ (k <= r.1.2)%nat.
Proof.
  induction n as [|n IH]; intros k l He Hs Hr Hl; cbn [reset_loop]; [done|].
  apply (He k) in Hl. set (l0 := t_env (turns k) l) in *. destruct (LoopNext _ _) as [[s r]|]; [|done].
  apply (Hs false s) in Hl. set (l1 := set_list false s l0) in *.
  assert (Hl2 : forall l2, match r with None => Some l1
     | Some a => i ← infos (lwatch l1) !! a; let '(_, c, failure) := t_running (turns k) in
       if failure : bool then Some l1 else Some (set_info a (with_timing (SetCpuConsumption c t1 (timing i)).1 i) l1) end
     = Some l2 -> J l2).
  { intros l2. destruct r as [a|]; [|by intros [= <-]].
    destruct (infos (lwatch l1) !! a) as [i|] eqn:Ei; cbn [mbind option_bind]; [|done].
    destruct (t_running (turns k)) as [[? c] []]; intros [= <-]; [done|by apply Hr]. }
  destruct (match r with None => _ | Some _ => _ end) as [l2|]; [|done].
  destruct (IH (S k) l2 He Hs Hr (Hl2 l2 eq_refl)). split; [done|lia].
Qed.

Lemma kept_MainLoop n fuel k l :
  (let r := ResetThreadsCpuConsumption k turns l in I r.1.2 r.1.1) -> kept (MainLoop cfg sender n fuel k turns l).
Proof. intros H. apply kept_and_then; [exact H|]. intros. by apply kept_rounds. Qed.
End invariants.

(** No wall time is negative, whatever the clock does. *)
Definition wall_positive (l : Loop) : Prop :=
  Forall (fun s => s_type s = WallTime -> 0 <= Duration s) (_samples l).

(** What others do between two turns: they create records of threads, at new addresses, and
    drop some; the times of a record belong to the sampling loop. *)
Definition respectful (t : Turn) : Prop :=
  forall l, _samples (t_env t l) = _samples l /\
    forall a i', infos (lwatch (t_env t l)) !! a = Some i' ->
      (exists i, infos (lwatch l) !! a = Some i /\ timing i' = timing i) \/
      (timing i' = mkTiming 0 0 0 0 ContentionUnknown /\ Forall (fun s => s_thread s <> a) (_samples l)).

Lemma wall_positive_stable cfg sender turns :
  0 <= _samplingPeriod cfg -> (forall k, respectful (turns k)) ->
  stable cfg sender turns (fun _ => wall_positive).
Proof.
  intros Hp He. assert (Hadd : forall s l l', adds s l l' -> (s_type s = WallTime -> 0 <= Duration s) ->
    wall_positive l -> wall_positive l').
  { intros s l l' (new & Es & Hn) Hs Hl. unfold wall_positive. rewrite Es, Forall_app. split; [done|].
    destruct Hn as [-> | ->]; repeat constructor. done. }
  split; try done.
  - intros k l Hl. unfold wall_positive. by rewrite (proj1 (He k l)).
  - by intros k [] s l.
  - intros k a i l l' Hl Hi Hc. unfold sample_wall in Hc. cbn in Hc.
    eapply collect_spec in Hc as (_ & _ & Ha); [|apply lookup_insert_eq].
    eapply Hadd; [exact Ha| |exact Hl]. cbn. intros _. unfold ComputeWallTime. repeat case_match; lia.
  - intros k a i l l' b Hl Hi Hc. unfold sample_cpu in Hc. destruct (t_running (turns k)) as [[run cur] f].
    destruct (run && _); [|by simplify_eq].
    destruct (CollectOneThreadStackSample _ _ _ _ _ _ _) as [l1|] eqn:Ec; [|done]. cbn in Hc. simplify_eq.
    eapply collect_spec in Ec as (_ & _ & Ha); [|apply lookup_insert_eq]. by eapply Hadd.
Qed.

(** ** The samples of a thread do not overlap *)

Section overlap.
Context (cfg : Config) (sender : bool) (turns : nat -> Turn).

(** The time a sample stands for ends at its timestamp; it starts after the sample before. *)
Definition apart (s1 s2 : RawSample) : Prop :=
  s_thread s1 = s_thread s2 -> s_type s1 = s_type s2 -> Timestamp s1 <= Timestamp s2 - Duration s2.

Definition last_of (ty : PROFILING_TYPE) (t : Timing) : Z :=
  match ty with WallTime => _lastSampleHighPrecisionTimestamp t | CpuTime => _timestamp t end.

Record good (now : Z) (l : Loop) : Prop := {
  g_apart : ForallOrdPairs apart (_samples l);
  g_sample : Forall (fun s => 0 <= Duration s /\ 0 < Timestamp s) (_samples l);
  g_last : forall a i s, infos (lwatch l) !! a = Some i -> s ∈ _samples l -> s_thread s = a ->
             Timestamp s <= last_of (s_type s) (timing i);
  g_now : forall a i ty, infos (lwatch l) !! a = Some i -> 0 <= last_of ty (timing i) <= now
}.

Context (Hclock : forall k, 0 < t_now (turns k) <= t_now (turns (S k))) (Henv : forall k, respectful (turns k)).
Context (Hperiod : 0 <= _samplingPeriod cfg).

Notation clock k := (t_now (turns k)).

Lemma clock_le k k' : (k <= k')%nat -> clock k <= clock k'.
Proof. induction 1 as [|k' _ IH]; [lia|]. pose proof (Hclock k'). lia. Qed.

Lemma good_weaken now now' l : good now l -> now <= now' -> good now' l.
Proof. intros [H1 H2 H3 H4] Hn. split; try done. intros a i ty Ha. pose proof (H4 a i ty Ha). lia. Qed.

Lemma good_env now k l : 0 <= now -> good now l -> good now (t_env (turns k) l).
Proof.
  intros H0 [H1 H2 H3 H4]. destruct (Henv k l) as [Es Hi]. split; rewrite ?Es; try done.
  - intros a i s Ha Hs <-. destruct (Hi _ i Ha) as [(j & Hj & ->)|[_ Hf]]; [by eapply H3|].
    rewrite Forall_forall in Hf. by destruct (Hf s Hs).
  - intros a i ty Ha. destruct (Hi _ i Ha) as [(j & Hj & ->)|[-> _]]; [by eapply H4|]. by destruct ty.
Qed.

Lemma good_list now b s l : good now l -> good now (set_list b s l).
Proof. intros [H1 H2 H3 H4]. by destruct b. Qed.

Lemma apart_snoc l s : ForallOrdPairs apart l -> Forall (fun s0 => apart s0 s) l -> ForallOrdPairs apart (l ++ [s]).
Proof.
  induction 1 as [|x l Hx Hl IH]; intros Hf; cbn; [repeat constructor|]. inversion Hf; subst.
  constructor; [|by apply IH]. rewrite List.Forall_app. split; [done|by repeat constructor].
Qed.

(** A sample whose interval starts after the time recorded for its kind, with the record
    brought up to the timestamp of the sample. *)
Lemma good_collect now t a i tm ts d ty l l' :
  good now l -> infos (lwatch l) !! a = Some i -> now <= ts -> 0 < ts ->
  last_of ty tm = ts -> (forall ty', ty' <> ty -> last_of ty' tm = last_of ty' (timing i)) ->
  0 <= d -> (last_of ty (timing i) = 0 \/ last_of ty (timing i) <= ts - d) ->
  CollectOneThreadStackSample sender t a ts d ty (set_info a (with_timing tm i) l) = Some l' -> good ts l'.
Proof.
  intros [H1 H2 H3 H4] Hi Hn Hts Htm Hother Hd Hlast Hc.
  destruct (collect_spec sender t a ts d ty (set_info a (with_timing tm i) l) l' (with_timing tm i)) as (_ & (i' & Ei & Hs & _) & new & Es & Hnew).
  { apply lookup_insert_eq. }
  { exact Hc. }
  cbn in Ei, Es, Hs. rewrite insert_insert_eq in Ei.
  assert (Hold : forall s, s ∈ _samples l -> s_thread s = a -> Timestamp s <= last_of (s_type s) (timing i))
    by (intros s Hs' Ha; by eapply H3).
  assert (Hle : forall ty', last_of ty' (timing i) <= last_of ty' tm).
  { intros ty'. destruct (decide (ty' = ty)) as [->|Hne]; [|by rewrite Hother].
    rewrite Htm. pose proof (H4 a i ty Hi). lia. }
  split; rewrite ?Es.
  - destruct Hnew as [-> | ->]; [by rewrite app_nil_r|]. apply apart_snoc; [done|].
    rewrite Forall_forall in H2 |- *. intros s Hs'. unfold apart. cbn. intros Ea Et.
    pose proof (Hold s Hs' Ea) as Ho. rewrite Et in Ho. pose proof (H2 s Hs'). lia.
  - destruct Hnew as [-> | ->]; [by rewrite app_nil_r|]. rewrite Forall_app. split; [done|].
    constructor; [done|constructor].
  - rewrite Ei. intros b j s [[<- <-]|[Hne Hj]]%lookup_insert_Some Hs' Ha.
    + rewrite Hs. destruct Hnew as [-> | ->].
      * rewrite app_nil_r in Hs'. pose proof (Hold s Hs' Ha). pose proof (Hle (s_type s)). lia.
      * apply elem_of_app in Hs' as [Hs' | ->%list_elem_of_singleton]; [|cbn; lia].
        pose proof (Hold s Hs' Ha). pose proof (Hle (s_type s)). lia.
    + destruct Hnew as [-> | ->]; [rewrite app_nil_r in Hs'; by eapply H3|].
      apply elem_of_app in Hs' as [Hs' | ->%list_elem_of_singleton]; [by eapply H3|]. cbn in Ha. congruence.
  - rewrite Ei. intros b j ty' [[<- <-]|[Hne Hj]]%lookup_insert_Some.
    + rewrite Hs. destruct (decide (ty' = ty)) as [->|Hty]; [lia|]. rewrite Hother by done.
      pose proof (H4 a i ty' Hi). lia.
    + pose proof (H4 b j ty' Hj). lia.
Qed.

Lemma good_sample_wall now t a i l l' :
  good now l -> infos (lwatch l) !! a = Some i -> now <= t_now t -> 0 < t_now t ->
  sample_wall cfg sender t a i l = Some l' -> good (t_now t) l'.
Proof.
  intros Hg Hi Hn Ht. unfold sample_wall. cbn. pose proof (g_now _ _ Hg a i WallTime Hi) as Hb. cbn in Hb.
  intros Hc. refine (good_collect _ _ _ _ _ _ _ _ _ _ Hg Hi Hn Ht _ _ _ _ Hc); unfold ComputeWallTime.
  - done.
  - by intros [].
  - repeat case_match; lia.
  - cbn. repeat case_match; lia.
Qed.

Lemma cpu_for_sample_fits now last c : 0 <= last <= now -> 0 < c ->
  0 <= cpu_for_sample now last c * ms /\ last <= now - cpu_for_sample now last c * ms.
Proof.
  intros Hl Hc. unfold cpu_for_sample, ms. case_match; [|lia].
  destruct (Z_le_gt_dec 0 (now - last - 1000)).
  - rewrite Z.quot_div_nonneg by lia. pose proof (Z.mul_div_le (now - last - 1000) 1000000). 
    pose proof (Z.div_pos (now - last - 1000) 1000000). lia.
  - rewrite (proj2 (Z.quot_small_iff (now - last - 1000) 1000000 ltac:(lia))) by lia. lia.
Qed.

Lemma good_sample_cpu now t a i l l' b :
  good now l -> infos (lwatch l) !! a = Some i -> now <= t_now t -> 0 < t_now t ->
  sample_cpu sender t a i l = Some (l', b) -> good (t_now t) l'.
Proof.
  intros Hg Hi Hn Ht. unfold sample_cpu. destruct (t_running t) as [[run cur] f].
  destruct (run && _) eqn:Eb; cbn; [|intros [= <- <-]; by eapply good_weaken].
  pose proof (g_now _ _ Hg a i CpuTime Hi) as Hb. cbn in Hb.
  destruct (cpu_for_sample_fits (t_now t) (_timestamp (timing i)) (cur - _cpuConsumption (timing i))) as [H1 H2]; [lia|lia|].
  destruct (CollectOneThreadStackSample _ _ _ _ _ _ _) as [l1|] eqn:Ec; [|done]. cbn. intros [= <- <-].
  refine (good_collect _ _ _ _ _ _ _ _ _ _ Hg Hi Hn Ht _ _ H1 _ Ec); [done|by intros []|by right].
Qed.

Lemma good_stable : stable cfg sender turns (fun k => good (clock k)).
Proof.
  split.
  - intros k l Hg. eapply good_weaken; [done|]. pose proof (Hclock k). lia.
  - intros k l Hg. pose proof (Hclock k). apply good_env; [lia|done].
  - intros k b s l. apply good_list.
  - intros k a i l l' Hg Hi. pose proof (Hclock k). eapply good_sample_wall; try done; lia.
  - intros k a i l l' b Hg Hi. pose proof (Hclock k). eapply good_sample_cpu; try done; lia.
Qed.

(** The start: [t1] is the time of the first turn. *)
Lemma good_reset t1 a i c l : good t1 l -> infos (lwatch l) !! a = Some i ->
  good t1 (set_info a (with_timing (SetCpuConsumption c t1 (timing i)).1 i) l).
Proof.
  intros [H1 H2 H3 H4] Hi. split; try done; cbn.
  - intros b j s [[<- <-]|[_ Hj]]%lookup_insert_Some Hs Ha; [|by eapply H3].
    pose proof (H3 a i s Hi Hs Ha) as Hs'. pose proof (H4 a i (s_type s) Hi). destruct (s_type s); cbn in *; lia.
  - intros b j ty [[<- <-]|[_ Hj]]%lookup_insert_Some; [|by eapply H4].
    pose proof (H4 a i ty Hi). destruct ty; cbn in *; lia.
Qed.

Lemma good_MainLoop n fuel k l : good (clock k) l ->
  let r := MainLoop cfg sender n fuel k turns l in good (clock r.1.2) r.1.1.
Proof.
  intros Hg. apply (kept_MainLoop _ _ _ _ good_stable). pose proof (Hclock k) as Hk.
  destruct (reset_keeps turns (good (clock k)) (clock k) (Z.to_nat (i32 (count (_pManagedThreadList l)))) k l)
    as [H1 H2]; [| | |done|].
  - intros j l1. apply good_env. lia.
  - intros b s l1. apply good_list.
  - intros a i c l1. apply good_reset.
  - eapply good_weaken; [exact H1|]. by apply clock_le.
Qed.
End overlap.

(** ** The iterations end *)

Section termination.
Context (cfg : Config) (sender : bool) (turns : nat -> Turn) (hotspot : bool).

(** The threads of the list have records whose lock nobody holds. *)
Definition free_records (l : Loop) : Prop :=
  forall a, a ∈ _threads (the_list hotspot l) ->
    exists i, infos (lwatch l) !! a = Some i /\ _objLock i = false.

(** Others leave the list as it is between two turns, and no lock taken. *)
Definition quiet (t : Turn) : Prop :=
  forall l, the_list hotspot (t_env t l) = the_list hotspot l /\ _samples (t_env t l) = _samples l /\
    (free_records l -> free_records (t_env t l)).

(** One turn with the thread [a], that is not the first one. *)
Definition turn (t : Turn) (a : addr) (info : ManagedThreadInfo) (i : Z) (l : Loop) : option (Loop * Z) :=
  if mustSkip hotspot info then Some (l, i) else l ← sample_wall cfg sender t a info l; Some (l, i + 1).

(** The samples of a turn with [a], and the count after it. *)
Definition turn_adds (a : addr) (i j : Z) (new : list RawSample) : Prop :=
  j = i /\ new = [] \/ j = i + 1 /\ (new = [] \/ exists s, new = [s] /\ s_thread s = a).

Lemma turn_adds_facts a i j new : turn_adds a i j new ->
  Forall (fun s => s_thread s = a) new /\ NoDup (s_thread <$> new) /\ i + zlen new <= j <= i + 1.
Proof. intros [[-> ->]|[-> [-> |(x & -> & <-)]]]; cbn; repeat split; try lia; repeat constructor; set_solver. Qed.

Lemma turn_ok t a info i l :
  free_records l -> a ∈ _threads (the_list hotspot l) -> infos (lwatch l) !! a = Some info ->
  exists l' j new, turn t a info i l = Some (l', j) /\ the_list hotspot l' = the_list hotspot l /\ free_records l' /\
    _samples l' = _samples l ++ new /\ turn_adds a i j new.
Proof.
  intros Hf Ha Hi. unfold turn_adds, turn, sample_wall. cbn. destruct (mustSkip hotspot info).
  { eexists _, _, []. split; [done|]. split; [done|]. split; [done|]. rewrite app_nil_r. auto. }
  set (tm := mkTiming _ _ _ _ _). set (l0 := set_info a (with_timing tm info) l).
  assert (H0 : infos (lwatch l0) !! a = Some (with_timing tm info)) by apply lookup_insert_eq.
  destruct (Hf a Ha) as (info' & Hi' & Hl). rewrite Hi in Hi'. injection Hi' as <-.
  destruct (collect_returns sender t a (t_now t) (ComputeWallTime cfg (t_now t)
    (_lastSampleHighPrecisionTimestamp (timing info))) WallTime l0 _ H0 Hl) as [l' E].
  rewrite E. destruct (collect_spec sender t a _ _ _ l0 l' _ H0 E) as ([El El'] & (i' & Ei & Hs) & new & Es & Hn).
  cbn [mbind option_bind]. eexists _, _, new. split; [done|].
  split; [unfold the_list; rewrite El, El'; by destruct hotspot|].
  split; [|split; [exact Es|right; split; [done|destruct Hn as [-> | ->]; [auto|right; by eexists]]]].
  intros b Hb. rewrite Ei. cbn [lwatch l0 set_info infos]. destruct (decide (b = a)) as [->|Hne].
  - exists i'. rewrite lookup_insert_eq. split; [done|]. by apply Hs.
  - rewrite !lookup_insert_ne by done. apply Hf. unfold the_list in *. destruct hotspot; [by rewrite El' in Hb|by rewrite El in Hb].
Qed.

Lemma wall_loop_S fuel k i n f l :
  wall_loop cfg sender hotspot (S fuel) k turns i n f l =
    (let l := t_env (turns k) l in
     '(s, r) ← LoopNext (the_list hotspot l) (Z.of_nat 0);
     let l := set_list hotspot s l in
     match r with
     | None => Some (l, S k)
     | Some a =>
       if bool_decide (f = Some a) then Some (l, S k)
       else
         info ← infos (lwatch l) !! a;
         '(l, j) ← turn (turns k) a info i l;
         if (j <? n) && negb (t_shutdown (turns k)) then wall_loop cfg sender hotspot fuel (S k) turns j n (Some (default a f)) l
         else Some (l, S k)
     end).
Proof.
  unfold wall_loop at 1. cbn [wall_run].
  replace (if hotspot then _iteratorCodeHotspot else _iteratorWallTime) with (Z.of_nat 0) by (by case_match).
  cbv zeta. destruct (LoopNext _ _) as [[s [a|]]|]; [|done..]. cbn [mbind option_bind]. case_bool_decide; [done|].
  destruct (infos _ !! a) as [info|]; [|done]. cbn [mbind option_bind]. unfold turn.
  destruct (if mustSkip hotspot info then _ else _) as [[l2 j]|]; [|done]. cbn [mbind option_bind]. by case_match.
Qed.

Context (Hquiet : forall k, quiet (turns k)).

(** The state of the walk: where the iterator is, and the first thread. *)
Record walking (l : Loop) (p : Z) : Prop := {
  w_wf : wf (the_list hotspot l);
  w_len : 0 < zlen (_threads (the_list hotspot l)) < 2 ^ 32;
  w_it : _iterators (the_list hotspot l) !! 0%nat = Some p;
  w_free : free_records l
}.

Lemma walking_env k l p : walking l p -> walking (t_env (turns k) l) p.
Proof. intros [H1 H2 H3 H4]. destruct (Hquiet k l) as (E & _ & Hf). split; rewrite ?E; auto. Qed.

Lemma the_set_list s l : the_list hotspot (set_list hotspot s l) = s.
Proof. unfold the_list, set_list. by case_match. Qed.

Lemma set_list_rest s l :
  lwatch (set_list hotspot s l) = lwatch l /\ _samples (set_list hotspot s l) = _samples l.
Proof. unfold set_list. by case_match. Qed.

(** The candidate [LoopNext] returns, and the state it leaves. *)
Lemma walking_next l p : walking l p ->
  let ths := _threads (the_list hotspot l) in let n := zlen ths in
  exists s r, LoopNext (the_list hotspot l) (Z.of_nat 0) = Some (s, r) /\ 0 <= p < n /\
    match r with
    | None => True
    | Some a => exists k, 0 <= k < n - 1 /\ zget ths ((p + k) mod n) = Some a /\
        valid_at (the_list hotspot l) ((p + k) mod n) = true /\
        (forall i, 0 <= i < k -> valid_at (the_list hotspot l) ((p + i) mod n) = false) /\
        walking (set_list hotspot s l) ((p + k + 1) mod n) /\ _threads s = ths /\
        (forall x, valid_at s x = valid_at (the_list hotspot l) x)
    end.
Proof.
  intros [H1 H2 H3 H4] ths n.
  assert (Hne : _threads (the_list hotspot l) <> []) by (intros E; rewrite E in H2; cbn in H2; lia).
  destruct (LoopNext_ok _ 0%nat p H1 ltac:(lia) Hne H3) as (s & r & p' & E & Es & Hp' & Hr).
  pose proof (proj1 (Forall_lookup _ _) (wf_its _ H1) _ _ H3) as Hp. cbn in Hp.
  exists s, r. split; [exact E|]. split; [subst n ths; lia|]. destruct r as [a|]; [|done].
  destruct Hr as (j & Hj & Hz & Hv & -> & Hi). exists j. split; [exact Hj|]. split; [exact Hz|]. split; [exact Hv|].
  split; [exact Hi|]. split; [|by subst s]. pose proof (lookup_lt_Some _ _ _ H3).
  split; rewrite ?the_set_list; subst s; try done.
  - apply set_iterators_wf; [done|]. apply Forall_insert; [apply H1|lia].
  - by apply list_lookup_insert_eq.
  - intros b. rewrite the_set_list. cbn. destruct (set_list_rest (set_iterators (the_list hotspot l)
      (<[0%nat:=(p + j + 1) mod zlen (_threads (the_list hotspot l))]> (_iterators (the_list hotspot l)))) l) as [-> _].
    apply H4.
Qed.

(** The threads at the offsets from [o] on, counted from the position [q]. *)
Definition after (ths : list addr) (q o : Z) (s : RawSample) : Prop :=
  exists o', o <= o' < zlen ths /\ zget ths ((q + o') mod zlen ths) = Some (s_thread s).

Definition ends_with (k fuel : nat) (i n : Z) (ths : list addr) (q o : Z) (l : Loop) (r : option (Loop * nat)) : Prop :=
  exists l' k' new, r = Some (l', k') /\ (k < k' <= k + fuel)%nat /\ _samples l' = _samples l ++ new /\
    NoDup (s_thread <$> new) /\ Forall (after ths q o) new /\ i + zlen new <= Z.max (i + 1) n.

Lemma ends_now k fuel i n ths q o l l' : _samples l' = _samples l -> 
  ends_with k (S fuel) i n ths q o l (Some (l', S k)).
Proof.
  intros E. exists l', (S k), []. split; [done|]. split; [lia|]. rewrite app_nil_r. split; [done|].
  split; [constructor|]. split; [constructor|]. cbn. lia.
Qed.

Lemma after_inj ths q o o' a s : NoDup ths -> 0 <= q < zlen ths -> 0 <= o < o' -> after ths q o' s ->
  zget ths ((q + o) mod zlen ths) = Some a -> s_thread s <> a.
Proof.
  intros Hnd Hq Ho (o2 & Ho2 & E2) E Ea. rewrite Ea in E2. apply zget_Some in E as [Hr E], E2 as [Hr2 E2].
  pose proof (NoDup_lookup _ _ _ _ Hnd E E2) as He. apply Z2Nat.inj in He; [|lia..].
  pose proof (Z.div_mod (q + o) (zlen ths) ltac:(lia)). pose proof (Z.div_mod (q + o2) (zlen ths) ltac:(lia)).
  set (d := (q + o2) / zlen ths - (q + o) / zlen ths).
  assert (Ed : o2 - o = zlen ths * d) by (subst d; lia). destruct (Z_le_gt_dec d 0); nia.
Qed.

(** A turn that is the last one, and one that is not. *)
Lemma ends_last k fuel i i2 n ths q o j a l l2 new :
  o <= j < zlen ths -> zget ths ((q + j) mod zlen ths) = Some a -> turn_adds a i i2 new ->
  _samples l2 = _samples l ++ new -> ends_with k (S fuel) i n ths q o l (Some (l2, S k)).
Proof.
  intros Hj Ha Hnew Es. apply turn_adds_facts in Hnew as (Hall & Hnd & Hi2).
  exists l2, (S k), new. split; [done|]. split; [lia|]. split; [done|]. split; [done|]. split; [|lia].
  eapply Forall_impl; [exact Hall|]. intros x Ex. exists j. by rewrite Ex.
Qed.

Lemma ends_cons k fuel i i2 n ths q o j a l l2 new r :
  NoDup ths -> 0 <= q < zlen ths -> 0 <= o <= j -> j < zlen ths -> zget ths ((q + j) mod zlen ths) = Some a ->
  turn_adds a i i2 new -> _samples l2 = _samples l ++ new -> i2 < n ->
  ends_with (S k) fuel i2 n ths q (j + 1) l2 r -> ends_with k (S fuel) i n ths q o l r.
Proof.
  intros Hths Hq Ho Hj Ha Hnew Es Hn (l' & k' & new' & -> & Hk & Es' & Hnd' & Haf & Hn').
  apply turn_adds_facts in Hnew as (Hall & Hnd & Hi2).
  exists l', k', (new ++ new'). split; [done|]. split; [lia|]. rewrite Es', Es, app_assoc. split; [done|].
  rewrite fmap_app, NoDup_app, Forall_app, length_app. split; [|split; [split|lia]].
  - split; [done|]. split; [|done]. intros x Hx Hx'.
    apply list_elem_of_fmap in Hx as (y & -> & Hy), Hx' as (y' & E & Hy').
    rewrite Forall_forall in Hall, Haf. rewrite (Hall y Hy) in E.
    eapply (after_inj ths q j (j + 1) a y'); [done|done|lia|by apply Haf|done|done].
  - eapply Forall_impl; [exact Hall|]. intros x Ex. exists j. rewrite Ex. split; [lia|done].
  - eapply Forall_impl; [exact Haf|]. intros x (o' & ? & ?). exists o'. split; [lia|done].
Qed.

(** The turn itself, with what [LoopNext] gave. *)
Lemma turn_after k i l s p a :
  _threads s = _threads (the_list hotspot l) -> walking (set_list hotspot s l) p -> a ∈ _threads s ->
  exists info l2 i2 new, infos (lwatch (set_list hotspot s l)) !! a = Some info /\
    turn (turns k) a info i (set_list hotspot s l) = Some (l2, i2) /\ the_list hotspot l2 = s /\ walking l2 p /\
    _samples l2 = _samples l ++ new /\ turn_adds a i i2 new.
Proof.
  intros Eths W Ha. pose proof (the_set_list s l) as E1. destruct (set_list_rest s l) as [_ Es].
  rewrite <- E1 in Ha. destruct (w_free _ _ W a Ha) as (info & Hi & _).
  destruct (turn_ok (turns k) a info i _ (w_free _ _ W) Ha Hi) as (l2 & i2 & new & E & El2 & Hf2 & Es2 & Hnew).
  exists info, l2, i2, new. rewrite El2, Es2, Es. repeat (split; [done|]). split; [|done].
  destruct W as [W1 W2 W3 W4]. split; rewrite ?El2; done.
Qed.

Lemma zget_elem {A} (l : list A) i x : zget l i = Some x -> x ∈ l.
Proof. intros [_ H]%zget_Some. by eapply list_elem_of_lookup_2. Qed.

Lemma wall_loop_ends fuel : forall k i n l p q o a0,
  walking l p -> let ths := _threads (the_list hotspot l) in
  zget ths q = Some a0 -> valid_at (the_list hotspot l) q = true -> 1 <= o <= zlen ths ->
  p = (q + o) mod zlen ths -> zlen ths - o < Z.of_nat fuel ->
  ends_with k fuel i n ths q o l (wall_loop cfg sender hotspot fuel k turns i n (Some a0) l).
Proof.
  induction fuel as [|fuel IH]; intros k i n l p q o a0 W ths Hq Hv Ho -> Hfuel; [lia|].
  rewrite wall_loop_S. cbv zeta. destruct (Hquiet k l) as (Ee & Es & _).
  apply (walking_env k) in W. set (l0 := t_env (turns k) l) in *. pose proof (zget_range _ _ _ Hq) as Hqr.
  pose proof (wf_nodup _ (w_wf _ _ W)) as Hths.
  destruct (walking_next l0 _ W) as (s & r & -> & Hp & Hr). rewrite Ee in *. fold ths in Hp, Hr, Hths.
  cbn [mbind option_bind]. destruct (set_list_rest s l0) as [_ Es']. destruct r as [a|]; [|apply ends_now; congruence].
  destruct Hr as (j & Hj & Ha & _ & Hskip & W' & Eths & Hvs). rewrite Zplus_mod_idemp_l in Ha.
  assert (Hoj : o + j <= zlen ths).
  { destruct (Z_le_gt_dec (o + j) (zlen ths)); [done|]. specialize (Hskip (zlen ths - o) ltac:(lia)).
    rewrite Zplus_mod_idemp_l in Hskip. replace (q + o + (zlen ths - o)) with (q + 1 * zlen ths) in Hskip by lia.
    rewrite Z.mod_add, Z.mod_small in Hskip by lia. congruence. }
  case_bool_decide as Hne; [apply ends_now; congruence|].
  assert (Hlt : o + j < zlen ths).
  { destruct (decide (o + j = zlen ths)) as [E|]; [|lia]. destruct Hne.
    replace (q + o + j) with (q + 1 * zlen ths) in Ha by lia. rewrite Z.mod_add, Z.mod_small in Ha by lia. congruence. }
  destruct (turn_after k i l0 s _ a ltac:(by rewrite Eths, Ee) W' ltac:(rewrite Eths; by eapply zget_elem))
    as (info & l2 & i2 & new & -> & E2 & El2 & W2 & Es2 & Hnew).
  cbn [mbind option_bind]. rewrite E2. cbn [mbind option_bind]. rewrite Es in Es2. rewrite <- Z.add_assoc in Ha.
  destruct ((i2 <? n) && _) eqn:Eb; [|eapply (ends_last _ _ _ _ _ _ _ _ (o + j)); try done; lia].
  eapply (ends_cons _ _ _ _ _ _ _ _ (o + j) a _ l2 new); try done; [lia|lia|].
  change (default a (Some a0)) with a0.
  pose proof (IH (S k) i2 n l2 ((q + (o + j + 1)) mod zlen ths) q (o + j + 1) a0) as Hend. cbv zeta in Hend.
  rewrite El2, Eths in Hend. apply Hend; try done; try lia; [|by rewrite Hvs].
  replace ((q + (o + j + 1)) mod zlen ths) with (((q + o) mod zlen ths + j + 1) mod zlen ths); [done|].
  rewrite <- Z.add_assoc, Zplus_mod_idemp_l. f_equal. lia.
Qed.

(** The first turn of the loop sets the first thread. *)
Lemma first_turn_ends k n l p :
  walking l p -> let ths := _threads (the_list hotspot l) in
  exists q o, ends_with k (S (length ths)) 0 n ths q o l (wall_loop cfg sender hotspot (S (length ths)) k turns 0 n None l).
Proof.
  intros W ths. rewrite wall_loop_S. cbv zeta. destruct (Hquiet k l) as (Ee & Es & _).
  apply (walking_env k) in W. set (l0 := t_env (turns k) l) in *. pose proof (wf_nodup _ (w_wf _ _ W)) as Hths.
  destruct (walking_next l0 _ W) as (s & r & -> & Hp & Hr). rewrite Ee in *. fold ths in Hp, Hr, Hths.
  cbn [mbind option_bind]. destruct (set_list_rest s l0) as [_ Es'].
  destruct r as [a|]; [|exists 0, 0; apply ends_now; congruence].
  destruct Hr as (j & Hj & Ha & Hv & _ & W' & Eths & Hvs). set (q := (p + j) mod zlen ths) in *.
  exists q, 0. rewrite bool_decide_eq_false_2 by done. pose proof (zget_range _ _ _ Ha) as Hq.
  destruct (turn_after k 0 l0 s _ a ltac:(by rewrite Eths, Ee) W' ltac:(rewrite Eths; by eapply zget_elem))
    as (info & l2 & i2 & new & -> & E2 & El2 & W2 & Es2 & Hnew).
  cbn [mbind option_bind]. rewrite E2. cbn [mbind option_bind]. rewrite Es in Es2.
  assert (Ha' : zget ths ((q + 0) mod zlen ths) = Some a) by (by rewrite Z.add_0_r, Z.mod_small).
  destruct ((i2 <? n) && _) eqn:Eb; [|eapply (ends_last _ _ _ _ _ _ _ _ 0); try done; lia].
  eapply (ends_cons _ _ _ _ _ _ _ _ 0 a _ l2 new); try done; [lia|lia|].
  change (default a None) with a. pose proof (wall_loop_ends (length ths) (S k) i2 n l2 ((q + 1) mod zlen ths) q 1 a) as Hend.
  cbv zeta in Hend. rewrite El2, Eths in Hend. apply Hend; try done; try lia; [|by rewrite Hvs].
  unfold q. by rewrite Zplus_mod_idemp_l.
Qed.
End termination.

(** ** Properties *)

(** No sample yet, and no thread was sampled. *)
Definition fresh (l : Loop) : Prop :=
  _samples l = [] /\ forall a i, infos (lwatch l) !! a = Some i -> timing i = mkTiming 0 0 0 0 ContentionUnknown.

Lemma fresh_good now l : 0 <= now -> fresh l -> good now l.
Proof.
  intros Hn [Es Ht]. split; rewrite ?Es; try constructor.
  - by intros a i s _ Hs%elem_of_nil.
  - by rewrite (Ht _ _ H); destruct ty.
  - rewrite (Ht _ _ H); destruct ty; cbn; lia.
Qed.

(** C26: At any moment of the life of the sampling thread, whether or not the loops it is in ever
    end and whatever threads come and go meanwhile, no wall time sample has a negative
    duration.  As long as the clock does not go back, two wall time samples of a thread, and
    two CPU samples of a thread, never account for the same time: the interval of each sample
    begins after the timestamp of the one before; and no CPU time is negative either. *)
Theorem samples_do_not_overlap cfg sender turns n fuel l :
  0 <= _samplingPeriod cfg -> (forall k, respectful (turns k)) -> fresh l ->
  let samples := _samples (MainLoop cfg sender n fuel 0 turns l).1.1 in
  Forall (fun s => s_type s = WallTime -> 0 <= Duration s) samples /\
  ((forall k, 0 < t_now (turns k) <= t_now (turns (S k))) ->
   ForallOrdPairs apart samples /\ Forall (fun s => 0 <= Duration s) samples).
Proof.
  intros Hp He Hf. split.
  - pose proof (wall_positive_stable cfg sender turns Hp He) as HS. apply (kept_MainLoop _ _ _ _ HS).
    apply (reset_keeps turns wall_positive); [by intros; apply (st_env _ _ _ _ HS)|by intros [] s0 l1|done|].
    unfold wall_positive. by rewrite (proj1 Hf).
  - intros Hc. pose proof (Hc 0%nat).
    destruct (good_MainLoop cfg sender turns Hc He Hp n fuel 0 l) as [H1 H2 _ _]; [apply fresh_good; [lia|done]|].
    split; [done|]. eapply Forall_impl; [exact H2|]. by intros s [? _].
Qed.

(** C32: When the list does not change meanwhile and no lock is held, an iteration ends after at
    most one turn more than there are threads, whatever threads it has to skip; it takes
    samples of distinct threads of its list, as many as the threshold at most (but one at
    least may be taken when the threshold is 0). *)
Theorem wall_iteration_returns cfg sender turns (hotspot : bool) k l p :
  (forall k, quiet hotspot (turns k)) -> wf (the_list hotspot l) -> zlen (_threads (the_list hotspot l)) < 2 ^ 31 ->
  _iterators (the_list hotspot l) !! 0%nat = Some p -> free_records hotspot l ->
  let ths := _threads (the_list hotspot l) in
  let iteration := if hotspot then CodeHotspotIteration else WalltimeProfilingIteration in
  let threshold := if hotspot then _codeHotspotsThreadsThreshold cfg else _walltimeThreadsThreshold cfg in
  exists l' k' new, iteration cfg sender (S (length ths)) k turns l = Some (l', k') /\
    (k < k' <= k + S (length ths))%nat /\ _samples l' = _samples l ++ new /\
    NoDup (s_thread <$> new) /\ Forall (fun s => s_thread s ∈ ths) new /\ zlen new <= Z.max 1 threshold.
Proof.
  intros Hq W Hlen Hit Hf ths iteration threshold. destruct (decide (ths = [])) as [E|Hne].
  { exists (t_env (turns k) l), (S k), []. rewrite E. destruct (Hq k l) as (El & -> & _). rewrite app_nil_r.
    split; [|split; [cbn; lia|repeat split; try constructor; cbn; lia]].
    subst iteration. destruct hotspot; unfold CodeHotspotIteration, WalltimeProfilingIteration, wall_iteration.
    all: cbn [the_list] in El; cbn [length wall_run]; unfold LoopNext, the_list; rewrite El.
    all: replace (zlen _ =? 0) with true by (subst ths; cbn [the_list] in E; by rewrite E).
    all: cbn; rewrite <- El; by destruct (t_env (turns k) l). }
  assert (Hw : walking hotspot l p) by (split; try done; destruct ths as [|x ths'] eqn:E; subst ths; rewrite ?E in *; [done|cbn in *; lia]).
  set (n := Z.min (i32 (count (_pManagedThreadList l))) threshold).
  destruct (first_turn_ends cfg sender turns hotspot Hq k n l p Hw) as (q & o & l' & k' & new & E & Hk & Es & Hnd & Haf & Hn).
  exists l', k', new. split; [subst iteration n threshold; by destruct hotspot|].
  split; [done|]. split; [done|]. split; [done|]. split; [|lia].
  eapply Forall_impl; [exact Haf|]. intros s (o' & _ & Ho'). by eapply zget_elem.
Qed.

(** ** Examples *)

Module Example_loop.
Definition size_of (t : ManagedThreadList.ManagedThreadInfo) : Z := 0.

(** Three threads with handles, and an iterator for each loop. *)
Definition list3 : ManagedThreadList :=
  default new_list (ManagedThreadList.run size_of new_list
    [OpGetOrCreate 1; OpSetOsInfo 1 11 21; OpGetOrCreate 2; OpSetOsInfo 2 12 22; OpGetOrCreate 3; OpSetOsInfo 3 13 23;
     OpCreateIterator; OpCreateIterator]).

Definition config (threshold : Z) : Config := mkConfig threshold 64 10 9000000 2 true true.
Definition quiet_turn (k : nat) : Turn :=
  mkTurn id (1000000000 + 5000000 * Z.of_nat k) (true, false) 4 (true, 2 * Z.of_nat k, false) false.

(** A thread that may be interrupted, and one in a region where it may not. *)
Definition worker (id os handle : Z) : ThreadInfo.ManagedThreadInfo := new_ManagedThreadInfo id id os handle [].
Definition busy (id os handle : Z) : ThreadInfo.ManagedThreadInfo :=
  let i := worker id os handle in
  mkThreadInfo (_profilerThreadInfoId i) (ThreadInfo._clrThreadId i) (names i) (timing i) (deadlocks i) false
    (_traceContext i) (mkLinux (Some 0) (-1) 0 0) (_blockingThread i) false.

Definition loop3 (mk : Z -> Z -> Z -> ThreadInfo.ManagedThreadInfo) : Loop :=
  mkLoop list3 new_list
    (mkWatch (new_Manager 0 0) (<[0%nat := mk 1 11 21]> (<[1%nat := mk 2 12 22]> (<[2%nat := mk 3 13 23]> ∅))) 0) [].

(** Two rounds: the threads in turn, the time of each since its last sample; the second CPU
    sample of a thread is cut to the time that has passed. *)
Example two_rounds :
  match MainLoop (config 2) true 2 4 0 quiet_turn (loop3 worker) with
  | (l, _, ends) => ends = true /\
    (fun s => (s_type s, s_thread s, Duration s)) <$> _samples l =
    [(WallTime, 0%nat, 9000000); (WallTime, 1%nat, 9000000); (CpuTime, 0%nat, 12000000); (CpuTime, 1%nat, 12000000);
     (WallTime, 2%nat, 9000000); (WallTime, 0%nat, 30000000); (CpuTime, 2%nat, 18000000); (CpuTime, 0%nat, 12000000)]
  end.
Proof. vm_compute. done. Qed.

(** The clock of the system is set back by 35 milliseconds before the second round. *)
Definition set_back (k : nat) : Turn :=
  mkTurn id (2000000000 + 5000000 * Z.of_nat k - if (8 <? k)%nat then 35000000 else 0) (true, false) 4
    (true, 2 * Z.of_nat k, false) false.

(** The third wall time sample of a thread then covers the five milliseconds before the
    timestamp of the first again, and a CPU sample has a negative duration. *)
Example clock_set_back :
  let samples := _samples (MainLoop (config 2) true 4 4 0 set_back (loop3 worker)).1.1 in
  (fun s => (Timestamp s, Duration s)) <$> filter (fun s => s_thread s = 0%nat /\ s_type s = WallTime) samples =
    [(2020000000, 9000000); (2015000000, 0); (2060000000, 45000000)] /\
  (fun s => (Timestamp s, Duration s)) <$> filter (fun s => s_thread s = 0%nat /\ s_type s = CpuTime) samples =
    [(2030000000, 12000000); (2025000000, -5000000); (2070000000, 18000000)].
Proof. vm_compute. done. Qed.

(** A threshold of 0 does not stop the first sample. *)
Example one_at_least :
  match WalltimeProfilingIteration (config 0) true 4 0 quiet_turn (loop3 worker) with
  | Some (l, _) => zlen (_samples l) = 1
  | None => False
  end.
Proof. vm_compute. done. Qed.

(** The first thread of the iteration ends while the others have to be skipped: the loop
    has nothing to stop at. *)
Definition leave (l : Loop) : Loop := set_list false (UnregisterThread size_of (_pManagedThreadList l) 1).1 l.
Definition leaving (k : nat) : Turn :=
  match k with
  | 1%nat => mkTurn leave 1000000000 (true, false) 4 (false, 0, false) false
  | _ => quiet_turn k
  end.

Definition rest (its : list Z) : ManagedThreadList := set_iterators (_pManagedThreadList (leave (loop3 busy))) its.

(** One turn over the two threads that are left. *)
Lemma spin_turn fuel k its its' a info :
  LoopNext (rest its) 0 = Some (rest its', Some a) -> Some 0%nat <> Some a ->
  infos (lwatch (loop3 busy)) !! a = Some info -> mustSkip false info = true ->
  wall_loop (config 2) true false (S fuel) (S (S k)) leaving 0 2 (Some 0%nat) (set_list false (rest its) (loop3 busy)) =
  wall_loop (config 2) true false fuel (S (S (S k))) leaving 0 2 (Some 0%nat) (set_list false (rest its') (loop3 busy)).
Proof.
  intros E Ha Hi Hs. rewrite wall_loop_S. cbv zeta.
  replace (LoopNext _ (Z.of_nat 0)) with (Some (rest its', Some a)) by (symmetry; exact E). cbn [mbind option_bind]. rewrite bool_decide_eq_false_2 by done.
  replace (_ !! a) with (Some info) by (symmetry; exact Hi). cbn [mbind option_bind]. unfold turn. rewrite Hs. done.
Qed.

Lemma spins fuel : forall k its, its = [0; 0] \/ its = [1; 0] ->
  wall_loop (config 2) true false fuel (S (S k)) leaving 0 2 (Some 0%nat) (set_list false (rest its) (loop3 busy)) = None.
Proof.
  induction fuel as [|fuel IH]; intros k its H; [done|]. destruct H as [-> | ->].
  - rewrite (spin_turn fuel k [0; 0] [1; 0] 1%nat (busy 2 12 22)); [apply IH; auto|vm_compute; reflexivity|discriminate|vm_compute; reflexivity|reflexivity].
  - rewrite (spin_turn fuel k [1; 0] [0; 0] 2%nat (busy 3 13 23)); [apply IH; auto|vm_compute; reflexivity|discriminate|vm_compute; reflexivity|reflexivity].
Qed.

Example iteration_never_ends fuel : WalltimeProfilingIteration (config 2) true fuel 0 leaving (loop3 busy) = None.
Proof.
  destruct fuel as [|[|fuel]]; [done..|]. unfold WalltimeProfilingIteration.
  change (wall_loop (config 2) true false fuel 2 leaving 0 2 (Some 0%nat) (set_list false (rest [1; 0]) (loop3 busy)) = None).
  apply spins. auto.
Qed.
End Example_loop.

Lemma quiet_turn_respectful k : respectful (Example_loop.quiet_turn k).
Proof. intros l. split; [done|]. intros a i Ha. left. by exists i. Qed.

Lemma loop3_fresh : fresh (Example_loop.loop3 Example_loop.worker).
Proof.
  split; [done|]. intros a i Hi. cbn in Hi. repeat (apply lookup_insert_Some in Hi as [[_ <-]|[_ Hi]]; [done|]). done.
Qed.

Lemma list3_wf : wf Example_loop.list3.
Proof.
  set (ops := [OpGetOrCreate 1; OpSetOsInfo 1 11 21; OpGetOrCreate 2; OpSetOsInfo 2 12 22; OpGetOrCreate 3;
    OpSetOsInfo 3 13 23; OpCreateIterator; OpCreateIterator]).
  destruct (run_ok Example_loop.size_of ops new_list new_list_wf ltac:(cbn; lia)) as (s & E & W & _).
  unfold Example_loop.list3. fold ops. by rewrite E.
Qed.

Lemma list3_free : free_records false (Example_loop.loop3 Example_loop.busy).
Proof.
  intros a Ha. change (_threads _) with [0%nat; 1%nat; 2%nat] in Ha.
  repeat (apply elem_of_cons in Ha as [-> | Ha]; [eexists; split; reflexivity|]). by apply elem_of_nil in Ha.
Qed.

Lemma samples_do_not_overlap_witness :
  let r := MainLoop (Example_loop.config 2) true 2 4 0 Example_loop.quiet_turn (Example_loop.loop3 Example_loop.worker) in
  length (_samples r.1.1) = 8%nat /\ ForallOrdPairs apart (_samples r.1.1).
Proof.
  intros r. split; [vm_compute; reflexivity|].
  destruct (samples_do_not_overlap (Example_loop.config 2) true Example_loop.quiet_turn 2 4
    (Example_loop.loop3 Example_loop.worker)) as [_ H]; [vm_compute; discriminate|exact quiet_turn_respectful|exact loop3_fresh|].
  apply H. intros j. unfold Example_loop.quiet_turn. cbn [t_now]. lia.
Defined.

Lemma wall_iteration_returns_witness :
  exists l' k', WalltimeProfilingIteration (Example_loop.config 2) true 4 0 Example_loop.quiet_turn
    (Example_loop.loop3 Example_loop.busy) = Some (l', k') /\ (k' <= 4)%nat.
Proof.
  destruct (wall_iteration_returns (Example_loop.config 2) true Example_loop.quiet_turn false 0%nat
    (Example_loop.loop3 Example_loop.busy) 0) as (l' & k' & new & E & Hk & _).
  - done.
  - exact list3_wf.
  - reflexivity.
  - reflexivity.
  - exact list3_free.
  - exists l', k'. split; [exact E|]. apply Hk.
Defined.
