(* ===== verification/NetworkActivity.v ===== *)
(** * Identifiers of network activities

    Model of [NetworkActivity.cpp]: the events of a request carry a GUID whose first twelve
    bytes encode a path of numbers (request 1/2 has the phases 1/2/1, 1/2/2, ...).  A path is
    a sequence of nibbles: 1 to 10 stand for themselves, 12 to 15 announce a number of one
    to four bytes.  The provider decodes the path, drops the last element for the events of
    a phase, and encodes the rest as the key of the request.

    A buffer is the list of its twelve bytes; [None] is a read or a write outside of it. *)
From stdpp Require Import base list.
From S2P Require Import Prelude EventPayloads.

(** ** Codes *)

Definition NL_End : Z := 0x0.
Definition LastImmediateValue : Z := 0xA.
Definition PrefixCode : Z := 0xB.
Definition MultiByte1 : Z := 0xC.
Definition MAX_NIBBLE_ELEMENTS : Z := 24.
Definition GUID_BYTES : Z := 12.

(** [NetworkActivity::NetworkActivity]: three words of zeroes. *)
Definition new_NetworkActivity : bytes := replicate 12 0.

(** ** Hash *)

Definition mix32 (x : Z) : Z :=
  let x := Z.lxor x (Z.shiftr x 16) in
  let x := u32 (x * 0x21f0aaad) in
  let x := Z.lxor x (Z.shiftr x 15) in
  let x := u32 (x * 0x735a2d97) in
  Z.lxor x (Z.shiftr x 15).

Definition hash_combine (seed v : Z) : Z := Z.lxor seed (mix32 (u32 (u32 seed + 0x9e3779b9 + v))).

(** [High], [Middle] and [Low] are the words of the buffer. *)
Definition word (a : bytes) (k : nat) : Z := le (take 4 (drop (4 * k) a)).

Definition get_hash_code (a : bytes) : Z :=
  hash_combine (hash_combine (hash_combine 0 (word a 0)) (word a 1)) (word a 2).

(** ** Encoding *)

Definition WriteNibble (buf : bytes) (ptr value : Z) : option (bytes * Z) :=
  b ← zget buf ptr;
  if negb (b =? 0) then buf ← zset buf ptr (Z.lor b (u8 value)); Some (buf, ptr + 1)
  else buf ← zset buf ptr (u8 (Z.shiftl value 4)); Some (buf, ptr).

Definition id_length (id : Z) : nat :=
  if id <=? 0xFF then 1 else if id <=? 0xFFFF then 2 else if id <=? 0xFFFFFF then 3 else 4.

(** The bytes of the number, as long as the buffer has room. *)
Fixpoint write_bytes (len : nat) (buf : bytes) (ptr id : Z) : option (bytes * Z) :=
  match len with
  | O => Some (buf, ptr)
  | S len =>
    if GUID_BYTES <=? ptr then Some (buf, ptr + 1)
    else buf ← zset buf ptr (u8 id); write_bytes len buf (ptr + 1) (Z.shiftr id 8)
  end.

(** The nibble that was written alone is used, or given up. *)
Definition odd_nibble (buf : bytes) (ptr : Z) (len : nat) (id : Z) : option (bytes * Z * nat * Z) :=
  if ptr <? GUID_BYTES then
    b ← zget buf ptr;
    if b =? 0 then Some (buf, ptr, len, id)
    else if id <? 4096
    then buf ← zset buf ptr (u8 (u32 (Z.shiftl MultiByte1 4 + Z.shiftr id 8))); Some (buf, ptr + 1, 1%nat, Z.land id 0xFF)
    else Some (buf, ptr + 1, len, id)
  else Some (buf, ptr, len, id).

Definition AddIdToGuid (buf : bytes) (whereToAddId id : Z) (overflow : bool) : option (bytes * Z) :=
  let ptr := whereToAddId in
  if GUID_BYTES <=? ptr then Some (buf, 13)
  else if (0 <? id) && (id <=? LastImmediateValue) && negb overflow then WriteNibble buf ptr id
  else
    let len := id_length id in
    if overflow && (GUID_BYTES <=? ptr + 2) then Some (buf, 13)
    else
      '(buf, ptr) ← (if overflow then WriteNibble buf ptr PrefixCode else Some (buf, ptr));
      '(buf, ptr) ← WriteNibble buf ptr (MultiByte1 + (Z.of_nat len - 1));
      '(buf, ptr, len, id) ← odd_nibble buf ptr len id;
      write_bytes len buf ptr id.

(** ** Decoding *)

Inductive decoded := Path (elements : list Z) | Refused | Outside | NoFuel.

Fixpoint read_value (n : nat) (guid : bytes) (p value : Z) : option Z :=
  match n with
  | O => Some value
  | S n => b ← zget guid (p + Z.of_nat n); read_value n guid p (u32 (Z.shiftl value 8 + b))
  end.

(** A zero byte left by the encoder of the runtime behind a number of twelve bits. *)
Definition skip_zero (guid : bytes) (p value : Z) : option Z :=
  if (0xFF <? value) && (value <=? 0xFFF) && (p + 1 <? GUID_BYTES) then
    b0 ← zget guid p; b1 ← zget guid (p + 1);
    Some (if (b0 =? 0) && negb (b1 =? 0) then p + 1 else p)
  else Some p.

(** A number of several bytes, announced by [nibble]: the position behind it and its value,
    or nothing when it does not fit. *)
Definition multi_byte (guid : bytes) (bytePtr nibble : Z) (secondNibble : bool) : option (option (Z * Z)) :=
  b ← zget guid bytePtr;
  let value := if secondNibble then 0 else Z.land b 0xF in
  let p := bytePtr + 1 in
  let numBytes := u32 (nibble - MultiByte1) + 1 in
  if GUID_BYTES <? p + numBytes then Some None
  else value ← read_value (Z.to_nat numBytes) guid p value; Some (Some (p + numBytes, value)).

(** The loop: [secondNibble] is the jump back to the second nibble of a byte. *)
Fixpoint decode (fuel : nat) (guid : bytes) (bytePtr : Z) (secondNibble : bool) (elements : list Z) : decoded :=
  match fuel with
  | O => NoFuel
  | S fuel =>
    if negb secondNibble && (GUID_BYTES <=? bytePtr) then Path elements
    else
      match zget guid bytePtr with
      | None => Outside
      | Some b =>
        let nibble := if secondNibble then Z.land b 0xF else Z.shiftr b 4 in
        let several bytePtr nibble :=
          match multi_byte guid bytePtr nibble secondNibble with
          | None => Outside
          | Some None => Path elements
          | Some (Some (p, value)) =>
            if MAX_NIBBLE_ELEMENTS <=? zlen elements then Path elements
            else match skip_zero guid p value with
                 | None => Outside
                 | Some p => decode fuel guid p false (elements ++ [value])
                 end
          end in
        if nibble =? NL_End then Path elements
        else if nibble <=? LastImmediateValue then
          if MAX_NIBBLE_ELEMENTS <=? zlen elements then Path elements
          else if secondNibble then decode fuel guid (bytePtr + 1) false (elements ++ [nibble])
          else decode fuel guid bytePtr true (elements ++ [nibble])
        else if nibble =? PrefixCode then
          if secondNibble then
            if GUID_BYTES <=? bytePtr + 1 then Path elements
            else match zget guid (bytePtr + 1) with
                 | None => Outside
                 | Some b =>
                   let nibble := Z.shiftr b 4 in
                   if nibble <? MultiByte1 then Refused else several (bytePtr + 1) nibble
                 end
          else
            let nibble := Z.land b 0xF in
            if nibble <? MultiByte1 then Refused else several bytePtr nibble
        else several bytePtr nibble
      end
  end.

(** Every turn consumes a nibble. *)
Definition decode_fuel : nat := 25.

(** ** The root of an activity *)

(** [elements]: the array of 24 numbers; [None] is a read behind it. *)
Fixpoint encode_elements (n : nat) (i : Z) (elements : list Z) (buf : bytes) (offset : Z) : option bytes :=
  match n with
  | O => Some buf
  | S n =>
    id ← zget elements i;
    '(buf, offset) ← AddIdToGuid buf offset id false;
    encode_elements n (i + 1) elements buf offset
  end.

Definition elements_array (es : list Z) : list Z := es ++ replicate (Z.to_nat MAX_NIBBLE_ELEMENTS - length es) 0.

(** [Some None]: the activity is refused. *)
Definition GetRootActivity (guid : bytes) (isRoot : bool) : option (option bytes) :=
  match decode decode_fuel guid 0 false [] with
  | Path es =>
    let currentElement := if isRoot then zlen es else u8 (zlen es - 1) in
    buf ← encode_elements (Z.to_nat currentElement) 0 (elements_array es) new_NetworkActivity 0;
    Some (Some buf)
  | Refused => Some None
  | Outside | NoFuel => None
  end.

(** ** The encoding of a path *)

Definition immediate (id : Z) : bool := (0 <? id) && (id <=? LastImmediateValue).

(** The byte 00 that a runtime with the encoder's mistake ([stray]) leaves behind a number of
    twelve bits that does not fit eight. *)
Definition stray_byte (stray : bool) (id : Z) : bytes := if stray && (0xFF <? id) then [0] else [].

(** The bytes of a path, from the byte whose first nibble is [half]. *)
Fixpoint path_bytes (stray : bool) (half : option Z) (ids : list Z) : bytes :=
  match ids, half with
  | [], None => []
  | [], Some h => [16 * h]
  | id :: ids, None =>
    if immediate id then path_bytes stray (Some id) ids
    else if id <? 4096 then 16 * 0xC + id / 256 :: id mod 256 :: stray_byte stray id ++ path_bytes stray None ids
    else 16 * (0xB + Z.of_nat (id_length id)) :: le_bytes (id_length id) id ++ path_bytes stray None ids
  | id :: ids, Some h =>
    if immediate id then 16 * h + id :: path_bytes stray None ids
    else 16 * h + (0xB + Z.of_nat (id_length id)) :: le_bytes (id_length id) id ++ path_bytes stray None ids
  end.

(** A buffer with [pre] before the current byte. *)
Definition half_byte (half : option Z) : bytes := match half with None => [] | Some h => [16 * h] end.
Definition padded (bs : bytes) : bytes := bs ++ replicate (12 - length bs) 0.

Definition valid_id (id : Z) : Prop := 0 < id < 2 ^ 32.
Definition valid_half (half : option Z) : Prop := match half with None => True | Some h => 1 <= h <= 10 end.

Lemma padded_length bs : (length bs <= 12)%nat -> length (padded bs) = 12%nat.
Proof. intros. unfold padded. rewrite length_app, length_replicate. lia. Qed.

Lemma zget_app_here (pre post : bytes) b : zget (pre ++ b :: post) (zlen pre) = Some b.
Proof. apply zget_Some. split; [lia|]. rewrite Nat2Z.id. by rewrite list_lookup_middle. Qed.

Lemma zset_app_here (pre post : bytes) b x : zset (pre ++ b :: post) (zlen pre) x = Some (pre ++ x :: post).
Proof.
  rewrite zset_in_range by (rewrite length_app; cbn; lia). f_equal. rewrite Nat2Z.id.
  rewrite insert_app_r_alt by lia. by rewrite Nat.sub_diag.
Qed.

Lemma padded_cons bs : (length bs < 12)%nat -> exists z, padded bs = bs ++ 0 :: z /\ length z = (11 - length bs)%nat /\
  forall b, padded (bs ++ [b]) = bs ++ b :: z.
Proof.
  intros H. exists (replicate (11 - length bs) 0). unfold padded. rewrite length_replicate.
  replace (12 - length bs)%nat with (S (11 - length bs)) by lia. split; [done|]. split; [done|].
  intros b. rewrite length_app, <- app_assoc. cbn [length app].
  by replace (12 - (length bs + 1))%nat with (11 - length bs)%nat by lia.
Qed.

(** Bit operations on nibbles. *)
Lemma lor_nibble h v : 0 <= h -> 0 <= v < 16 -> Z.lor (16 * h) v = 16 * h + v.
Proof.
  intros Hh Hv. symmetry. apply Z.add_nocarry_lor. apply Z.bits_inj'. intros n Hn.
  rewrite Z.land_spec, Z.bits_0. replace (16 * h) with (Z.shiftl h 4) by (rewrite Z.shiftl_mul_pow2 by lia; lia).
  rewrite Z.shiftl_spec by done. destruct (Z_lt_ge_dec n 4); [by rewrite Z.testbit_neg_r by lia|].
  assert (Hb : Z.testbit v n = false).
  { apply (proj1 (Z.bounded_iff_bits_nonneg 4 v ltac:(lia) ltac:(lia))); [change (2 ^ 4) with 16|]; lia. }
  by rewrite Hb, andb_false_r.
Qed.

Lemma high_nibble b : Z.shiftr b 4 = b / 16.
Proof. by rewrite Z.shiftr_div_pow2. Qed.

Lemma low_nibble b : Z.land b 0xF = b mod 16.
Proof. exact (land_mask 4 b ltac:(lia)). Qed.

Lemma WriteNibble_fresh pre v : (length pre < 12)%nat -> 0 <= v < 16 ->
  WriteNibble (padded pre) (zlen pre) v = Some (padded (pre ++ [16 * v]), zlen pre).
Proof.
  intros Hp Hv. destruct (padded_cons pre Hp) as (z & E & _ & E'). unfold WriteNibble. rewrite E, zget_app_here.
  cbn [mbind option_bind]. change (negb (0 =? 0)) with false. cbn iota. rewrite zset_app_here. cbn [mbind option_bind].
  rewrite E', Z.shiftl_mul_pow2, wrap_small by (unfold in_u; lia).
  by replace (v * 2 ^ 4) with (16 * v) by lia.
Qed.

Lemma WriteNibble_half pre h v : (length pre < 12)%nat -> 1 <= h < 16 -> 0 <= v < 16 ->
  WriteNibble (padded (pre ++ [16 * h])) (zlen pre) v = Some (padded (pre ++ [16 * h + v]), zlen pre + 1).
Proof.
  intros Hp Hh Hv. destruct (padded_cons pre Hp) as (z & _ & _ & E'). unfold WriteNibble. rewrite !E', zget_app_here.
  cbn [mbind option_bind]. rewrite (proj2 (Z.eqb_neq (16 * h) 0)) by lia. cbn [negb]. rewrite zset_app_here.
  cbn [mbind option_bind]. rewrite (wrap_small 8 v), lor_nibble by (unfold in_u; lia). done.
Qed.

Lemma write_bytes_ok len : forall pre id, (length pre + len <= 12)%nat ->
  write_bytes len (padded pre) (zlen pre) id = Some (padded (pre ++ le_bytes len id), zlen pre + Z.of_nat len).
Proof.
  induction len as [|len IH]; intros pre id Hp; cbn [write_bytes le_bytes].
  { rewrite app_nil_r, Z.add_0_r. done. }
  rewrite (proj2 (Z.leb_gt GUID_BYTES (zlen pre))) by (unfold GUID_BYTES; lia).
  destruct (padded_cons pre ltac:(lia)) as (z & E & _ & E'). rewrite E, zset_app_here. cbn [mbind option_bind].
  rewrite <- E'. replace (zlen pre + 1) with (zlen (pre ++ [u8 id])) by (rewrite length_app; cbn; lia).
  rewrite IH by (rewrite length_app; cbn; lia). rewrite <- app_assoc, Z.shiftr_div_pow2 by lia. cbn [app].
  do 2 f_equal. rewrite length_app. cbn. lia.
Qed.

(** One number added behind [pre] and the nibble [half]. *)
Definition add_id (stray : bool) (pre : bytes) (half : option Z) (id : Z) : bytes * option Z :=
  match half with
  | None =>
    if immediate id then (pre, Some id)
    else if id <? 4096 then (pre ++ [16 * 0xC + id / 256; id mod 256] ++ stray_byte stray id, None)
    else (pre ++ 16 * (0xB + Z.of_nat (id_length id)) :: le_bytes (id_length id) id, None)
  | Some h =>
    if immediate id then (pre ++ [16 * h + id], None)
    else (pre ++ 16 * h + (0xB + Z.of_nat (id_length id)) :: le_bytes (id_length id) id, None)
  end.

Lemma add_id_path z pre half id ids :
  pre ++ path_bytes z half (id :: ids) = (add_id z pre half id).1 ++ path_bytes z (add_id z pre half id).2 ids.
Proof.
  cbn [path_bytes]. unfold add_id. destruct half; repeat case_if; cbn [fst snd]; rewrite <- ?app_assoc; done.
Qed.

Lemma path_bytes_half z half ids : (length (half_byte half) <= length (path_bytes z half ids))%nat.
Proof. destruct half, ids; cbn [half_byte path_bytes length]; repeat case_if; cbn; lia. Qed.

Lemma id_length_cases id : 0 < id < 2 ^ 32 -> (1 <= id_length id <= 4)%nat /\ in_u (8 * Z.of_nat (id_length id)) id /\
  (4096 <= id -> (2 <= id_length id)%nat).
Proof. intros H. unfold id_length, in_u. repeat case_if; bool_facts; cbn; lia. Qed.

Lemma odd_nibble_none pre len id : (length pre <= 12)%nat ->
  odd_nibble (padded pre) (zlen pre) len id = Some (padded pre, zlen pre, len, id).
Proof.
  intros Hp. unfold odd_nibble, GUID_BYTES. case_if; bool_facts; [|done].
  destruct (padded_cons pre ltac:(lia)) as (z & -> & _ & _). rewrite zget_app_here. done.
Qed.

Lemma odd_nibble_half pre h len id : (length pre < 12)%nat -> 1 <= h < 16 -> 0 <= id < 2 ^ 32 ->
  odd_nibble (padded (pre ++ [16 * h])) (zlen pre) len id =
  Some (if id <? 4096 then (padded (pre ++ [16 * 0xC + id / 256]), zlen pre + 1, 1%nat, id mod 256)
        else (padded (pre ++ [16 * h]), zlen pre + 1, len, id)).
Proof.
  intros Hp Hh Hid. unfold odd_nibble, GUID_BYTES, MultiByte1. rewrite (proj2 (Z.ltb_lt (zlen pre) 12)) by lia.
  destruct (padded_cons pre Hp) as (z & _ & _ & E'). rewrite !E', zget_app_here. cbn [mbind option_bind].
  rewrite (proj2 (Z.eqb_neq (16 * h) 0)) by lia. destruct (Z.ltb_spec id 4096); [|done].
  rewrite zset_app_here. cbn [mbind option_bind]. change (Z.land id 0xFF) with (Z.land id (2 ^ 8 - 1)).
  rewrite land_mask by lia. change (2 ^ 8) with 256.
  rewrite Z.shiftr_div_pow2 by lia. change (2 ^ 8) with 256. change (Z.shiftl 12 4) with 192.
  assert (0 <= id / 256 < 16) by (split; [apply Z.div_pos|apply Z.div_lt_upper_bound]; lia).
  rewrite (wrap_small 32), wrap_small by (unfold in_u; lia). done.
Qed.

Lemma zlen_snoc (pre : bytes) b : zlen (pre ++ [b]) = zlen pre + 1.
Proof. rewrite length_app. cbn [length]. lia. Qed.

Lemma AddIdToGuid_ok pre half id :
  valid_half half -> valid_id id ->
  let pre' := (add_id false pre half id).1 in let half' := (add_id false pre half id).2 in
  (length (pre ++ half_byte half) <= 12)%nat -> (length pre < 12)%nat -> (length (pre' ++ half_byte half') <= 12)%nat ->
  AddIdToGuid (padded (pre ++ half_byte half)) (zlen pre) id false = Some (padded (pre' ++ half_byte half'), zlen pre').
Proof.
  intros Hh Hid pre' half' H12 Hp Hp'. unfold valid_id in Hid. unfold AddIdToGuid.
  rewrite (proj2 (Z.leb_gt GUID_BYTES (zlen pre))) by (unfold GUID_BYTES; lia). rewrite andb_true_r.
  fold (immediate id). cbn [andb]. subst pre' half'. destruct (id_length_cases id Hid) as (Hl & Hu & _).
  destruct half as [h|]; cbn [half_byte valid_half] in *; unfold add_id in *; destruct (immediate id) eqn:Ei; cbn [fst snd] in *.
  - unfold immediate, LastImmediateValue in Ei. bool_facts. rewrite WriteNibble_half by lia. cbn [half_byte].
    by rewrite app_nil_r, zlen_snoc.
  - cbn [mbind option_bind]. unfold MultiByte1. rewrite WriteNibble_half by lia. cbn [mbind option_bind].
    replace (zlen pre + 1) with (zlen (pre ++ [16 * h + (12 + (Z.of_nat (id_length id) - 1))])) by apply zlen_snoc.
    rewrite odd_nibble_none by (rewrite length_app; cbn; lia). cbn [mbind option_bind].
    rewrite app_nil_r in Hp'. rewrite length_app in Hp'. cbn [length] in Hp'. rewrite le_bytes_length in Hp'.
    rewrite write_bytes_ok by (rewrite length_app; cbn [length]; lia). rewrite app_nil_r, <- app_assoc. cbn [app].
    replace (12 + (Z.of_nat (id_length id) - 1)) with (11 + Z.of_nat (id_length id)) by lia.
    do 2 f_equal. rewrite !length_app. cbn [length]. rewrite le_bytes_length. lia.
  - unfold immediate, LastImmediateValue in Ei. bool_facts. rewrite app_nil_r. rewrite WriteNibble_fresh by lia. done.
  - cbn [mbind option_bind]. unfold MultiByte1. rewrite app_nil_r, WriteNibble_fresh by lia. cbn [mbind option_bind].
    rewrite odd_nibble_half by lia. replace (12 + (Z.of_nat (id_length id) - 1)) with (11 + Z.of_nat (id_length id)) by lia.
    assert (Hm : 0 <= id mod 256 < 256) by (apply Z.mod_pos_bound; lia).
    destruct (Z.ltb_spec id 4096); cbn [mbind option_bind fst snd app stray_byte andb] in *; cbn [half_byte] in *; rewrite app_nil_r in *.
    + rewrite <- (zlen_snoc pre (16 * 0xC + id / 256)). rewrite length_app in Hp'. cbn [length] in Hp'. rewrite write_bytes_ok by (rewrite length_app; cbn [length]; lia).
      rewrite <- app_assoc. cbn [app le_bytes]. rewrite Z.mod_mod by lia. do 2 f_equal. rewrite !length_app. cbn [length]. lia.
    + rewrite length_app in Hp'. cbn [length] in Hp'. rewrite le_bytes_length in Hp'.
      rewrite <- (zlen_snoc pre (16 * (11 + Z.of_nat (id_length id)))).
      rewrite write_bytes_ok by (rewrite length_app; cbn [length]; lia). rewrite <- app_assoc. cbn [app].
      do 2 f_equal. rewrite !length_app. cbn [length]. rewrite le_bytes_length. lia.
Qed.

Lemma add_id_valid z pre half id : valid_half half -> valid_id id -> valid_half (add_id z pre half id).2.
Proof.
  intros Hh Hid. unfold add_id, immediate, LastImmediateValue. destruct half; repeat case_if; cbn; bool_facts; try done; lia.
Qed.

Lemma path_bytes_cons z half id ids : (1 <= length (path_bytes z half (id :: ids)))%nat.
Proof.
  destruct half; cbn [path_bytes]; repeat case_if; cbn [length]; try lia.
  pose proof (path_bytes_half z (Some id) ids). cbn in *. lia.
Qed.

Lemma encode_elements_ok ids : forall before after pre half,
  valid_half half -> Forall valid_id ids -> (length (pre ++ path_bytes false half ids) <= 12)%nat ->
  encode_elements (length ids) (zlen before) (before ++ ids ++ after) (padded (pre ++ half_byte half)) (zlen pre) =
  Some (padded (pre ++ path_bytes false half ids)).
Proof.
  induction ids as [|id ids IH]; intros before after pre half Hh Hids Hl; cbn [encode_elements length].
  { by destruct half. }
  inversion Hids as [|? ? Hid Hids']; subst. cbn [app]. unfold zget.
  rewrite (proj2 (Z.ltb_ge (zlen before) 0)), Nat2Z.id, list_lookup_middle by (done || lia). cbn [mbind option_bind].
  pose proof (path_bytes_cons false half id ids) as Hc. pose proof (path_bytes_half false half (id :: ids)) as Hb.
  pose proof (add_id_path false pre half id ids) as Ep. pose proof (add_id_valid false pre half id Hh Hid) as Hh'.
  pose proof (path_bytes_half false (add_id false pre half id).2 ids) as Hb'.
  assert (Hp : (length pre < 12)%nat /\ (length (pre ++ half_byte half) <= 12)%nat).
  { rewrite !length_app in *. split; [|lia]. destruct half; lia. }
  rewrite Ep in Hl |- *. rewrite length_app in Hl.
  rewrite AddIdToGuid_ok by (try done; try apply Hp; rewrite length_app; lia). cbn [mbind option_bind].
  specialize (IH (before ++ [id]) after (add_id false pre half id).1 _ Hh' Hids' ltac:(rewrite length_app; lia)).
  rewrite zlen_snoc, <- app_assoc in IH. exact IH.
Qed.

(** ** Decoding gives the path back *)

Lemma le_snoc bs b : le (bs ++ [b]) = le bs + 256 ^ zlen bs * b.
Proof.
  induction bs as [|c bs IH]; cbn [app le length]; [cbn; lia|]. rewrite IH, Nat2Z.inj_succ, Z.pow_succ_r by lia. lia.
Qed.

Lemma le_nonneg bs : Forall (in_u 8) bs -> 0 <= le bs.
Proof. induction 1 as [|b bs Hb _ IH]; cbn [le]; [lia|]. unfold in_u in Hb. lia. Qed.

Lemma read_value_ok bs : forall pre post acc,
  Forall (in_u 8) bs -> 0 <= acc -> acc * 256 ^ zlen bs + le bs < 2 ^ 32 ->
  read_value (length bs) (pre ++ bs ++ post) (zlen pre) acc = Some (acc * 256 ^ zlen bs + le bs).
Proof.
  induction bs as [|b bs IH] using rev_ind; intros pre post acc Hbs Ha Hlt; [cbn; f_equal; lia|].
  apply Forall_app in Hbs as [Hbs Hb]. apply Forall_cons in Hb as [Hb _]. rewrite length_app in Hlt |- *. cbn [length] in Hlt |- *.
  rewrite Nat.add_1_r in Hlt |- *. cbn [read_value]. rewrite le_snoc in Hlt |- *.
  rewrite Nat2Z.inj_succ, Z.pow_succ_r in Hlt |- * by lia. unfold in_u in Hb. change (2 ^ 8) with 256 in Hb.
  assert (Hz : zget (pre ++ (bs ++ [b]) ++ post) (zlen pre + zlen bs) = Some b).
  { replace (zlen pre + zlen bs) with (zlen (pre ++ bs)) by (rewrite length_app; lia).
    rewrite <- app_assoc, app_assoc. apply zget_app_here. }
  rewrite Hz. cbn [mbind option_bind]. rewrite Z.shiftl_mul_pow2 by lia. change (2 ^ 8) with 256.
  assert (0 < 256 ^ zlen bs) by (apply Z.pow_pos_nonneg; lia). pose proof (le_nonneg bs Hbs).
  pose proof (Z.mul_le_mono_nonneg_l 1 (256 ^ zlen bs) (acc * 256 + b) ltac:(lia) ltac:(lia)).
  rewrite wrap_small by (unfold in_u; lia). rewrite <- app_assoc, IH by (done || lia). f_equal. lia.
Qed.

Lemma le_bytes_range w v : Forall (in_u 8) (le_bytes w v).
Proof.
  revert v. induction w as [|w IH]; intros v; cbn [le_bytes]; constructor; [|apply IH].
  unfold in_u. change (2 ^ 8) with 256. apply Z.mod_pos_bound. lia.
Qed.

(** The first byte of a path that is not empty. *)
Lemma path_bytes_first z half id ids : valid_half half -> Forall valid_id (id :: ids) ->
  exists b bs, path_bytes z half (id :: ids) = b :: bs /\ 0 < b < 256 /\ b / 16 = (match half with Some h => h | None =>
    if immediate id then id else if id <? 4096 then 0xC else 0xB + Z.of_nat (id_length id) end).
Proof.
  intros Hh [Hid Hids]%Forall_cons. destruct (id_length_cases id Hid) as (Hl & _ & _). unfold valid_id in Hid.
  destruct half as [h|]; cbn [path_bytes valid_half] in *; destruct (immediate id) eqn:Ei.
  all: unfold immediate, LastImmediateValue in Ei; bool_facts.
  - eexists _, _. split; [done|]. split; [lia|]. symmetry. apply (Z.div_unique _ _ _ id); lia.
  - eexists _, _. split; [done|]. split; [lia|]. symmetry. apply (Z.div_unique _ _ _ (11 + Z.of_nat (id_length id))); lia.
  - eexists _, _. split; [done|]. split; [lia|]. symmetry. apply (Z.div_unique _ _ _ (11 + Z.of_nat (id_length id))); lia.
  - destruct ids as [|id' ids]; cbn [path_bytes].
    { eexists _, _. split; [done|]. split; [lia|]. symmetry. apply (Z.div_unique _ _ _ 0); lia. }
    apply Forall_cons in Hids as [Hid' _]. destruct (id_length_cases id' Hid') as (Hl' & _ & _).
    destruct (immediate id') eqn:Ei'; unfold immediate, LastImmediateValue in Ei'; bool_facts; unfold valid_id in Hid'.
    all: eexists _, _; split; [done|]; split; [lia|]; symmetry.
    + apply (Z.div_unique _ _ _ id'); lia.
    + apply (Z.div_unique _ _ _ (11 + Z.of_nat (id_length id'))); lia.
    + apply (Z.div_unique _ _ _ (11 + Z.of_nat (id_length id'))); lia.
  - lia.
  - destruct (Z.ltb_spec id 4096).
    + assert (0 <= id / 256 < 16) by (split; [apply Z.div_pos|apply Z.div_lt_upper_bound]; lia).
      eexists _, _. split; [done|]. split; [lia|]. symmetry. apply (Z.div_unique _ _ _ (id / 256)); lia.
    + eexists _, _. split; [done|]. split; [lia|]. symmetry. apply (Z.div_unique _ _ _ 0); lia.
Qed.

Lemma skip_zero_none z pre ids v :
  Forall valid_id ids -> skip_zero (padded (pre ++ path_bytes z None ids)) (zlen pre) v = Some (zlen pre).
Proof.
  intros Hids. unfold skip_zero, GUID_BYTES, padded. destruct (_ && _ && _) eqn:Ec; [|done]. bool_facts.
  destruct ids as [|id ids].
  - cbn [path_bytes]. rewrite app_nil_r. replace (12 - length pre)%nat with (S (S (10 - length pre))) by lia.
    cbn [replicate]. rewrite zget_app_here. cbn [mbind option_bind]. rewrite <- zlen_snoc with (b := 0).
    change (pre ++ 0 :: 0 :: ?r) with (pre ++ [0] ++ 0 :: r). rewrite app_assoc, zget_app_here. done.
  - destruct (path_bytes_first z None id ids I Hids) as (b & bs & -> & Hb & _). rewrite <- app_assoc. cbn [app].
    rewrite zget_app_here. cbn [mbind option_bind]. rewrite (proj2 (Z.eqb_neq b 0)) by lia. cbn [andb].
    destruct (zget_in_range (pre ++ b :: bs ++ replicate (12 - length (pre ++ b :: bs)) 0) (zlen pre + 1)) as [b1 ->]; [|done].
    rewrite length_app. cbn [length]. rewrite length_app, length_replicate, length_app. cbn [length]. lia.
Qed.

Lemma multi_byte_ok pre b bs post second nibble :
  Forall (in_u 8) bs -> (1 <= length bs <= 4)%nat -> zlen pre + 1 + zlen bs <= 12 -> nibble = 11 + zlen bs ->
  let value := if second : bool then 0 else b mod 16 in
  value * 256 ^ zlen bs + le bs < 2 ^ 32 ->
  multi_byte (pre ++ b :: bs ++ post) (zlen pre) nibble second =
  Some (Some (zlen pre + 1 + zlen bs, value * 256 ^ zlen bs + le bs)).
Proof.
  intros Hbs Hl H12 -> value Hv. unfold multi_byte, MultiByte1, GUID_BYTES. rewrite zget_app_here. cbn [mbind option_bind].
  rewrite low_nibble. fold value. rewrite wrap_small by (unfold in_u; lia). replace (11 + zlen bs - 12 + 1) with (zlen bs) by lia.
  rewrite (proj2 (Z.ltb_ge 12 _)) by lia. rewrite Nat2Z.id.
  change (pre ++ b :: bs ++ post) with (pre ++ [b] ++ bs ++ post). rewrite app_assoc, <- (zlen_snoc pre b).
  assert (0 <= value) by (subst value; destruct second; [lia|]; apply Z.mod_pos_bound; lia).
  rewrite read_value_ok by done. done.
Qed.

(** One turn on a nibble that is the number itself. *)
Lemma decode_immediate fuel guid pre b post (second : bool) es :
  guid = pre ++ b :: post -> zlen pre < 12 -> zlen es < 24 -> let nibble := if second then b mod 16 else b / 16 in
  1 <= nibble <= 10 ->
  decode (S fuel) guid (zlen pre) second es =
  decode fuel guid (zlen (if second then pre ++ [b] else pre)) (negb second) (es ++ [nibble]).
Proof.
  intros -> Hp He nibble Hn. cbn [decode].
  replace (negb second && (GUID_BYTES <=? zlen pre)) with false by (unfold GUID_BYTES; destruct second; cbn; [done|];
    symmetry; apply Z.leb_gt; lia).
  rewrite zget_app_here, high_nibble, low_nibble. fold nibble. unfold NL_End, LastImmediateValue, MAX_NIBBLE_ELEMENTS.
  rewrite (proj2 (Z.eqb_neq nibble 0)), (proj2 (Z.leb_le nibble 10)), (proj2 (Z.leb_gt 24 (zlen es))) by lia.
  destruct second; [by rewrite zlen_snoc|done].
Qed.

Lemma decode_end fuel guid pre post (second : bool) es b :
  guid = pre ++ b :: post -> (if second then b mod 16 else b / 16) = 0 ->
  decode (S fuel) guid (zlen pre) second es = Path es.
Proof.
  intros -> E. cbn [decode]. destruct (negb second && _); [done|].
  rewrite zget_app_here, high_nibble, low_nibble, E. done.
Qed.

(** The stray byte behind a number is skipped, or it is where the path ends. *)
Lemma skip_stray z pre ids v :
  let guid := padded (pre ++ 0 :: path_bytes z None ids) in
  Forall valid_id ids -> zlen (pre ++ 0 :: path_bytes z None ids) <= 12 -> 0xFF < v <= 0xFFF ->
  exists p, skip_zero guid (zlen pre) v = Some p /\
    forall fuel es, decode (S fuel) guid p false es = decode (S fuel) guid (zlen (pre ++ [0])) false es.
Proof.
  intros guid Hids Hl Hv. rewrite length_app in Hl. cbn [length] in Hl. subst guid. destruct ids as [|id ids].
  - cbn [path_bytes length] in *. destruct (padded_cons pre ltac:(lia)) as (w & E & Ew & E').
    exists (zlen pre). rewrite E'. split; [rewrite <- E; rewrite <- (app_nil_r pre) at 1; exact (skip_zero_none z pre [] v ltac:(constructor))|].
    intros fuel es. erewrite decode_end by done. symmetry.
    destruct (decide (length pre = 11%nat)) as [E11|].
    { cbn [decode negb]. rewrite zlen_snoc, E11. done. }
    destruct w as [|w0 w]; [cbn in Ew; lia|].
    assert (w0 = 0) as -> .
    { pose proof (f_equal (fun l => l !! S (length pre)) E) as Hw0. cbn in Hw0. unfold padded in Hw0.
      rewrite !lookup_app_r in Hw0 by lia. replace (S (length pre) - length pre)%nat with 1%nat in Hw0 by lia.
      rewrite lookup_replicate_2 in Hw0 by lia. cbn in Hw0. congruence. }
    change (pre ++ 0 :: 0 :: w) with (pre ++ [0] ++ 0 :: w). rewrite app_assoc. by eapply decode_end.
  - destruct (path_bytes_first z None id ids I Hids) as (b & bs & Eb & Hb & _). rewrite Eb in *. cbn [length] in Hl.
    exists (zlen pre + 1). rewrite zlen_snoc. split; [|done]. unfold skip_zero, GUID_BYTES, padded.
    rewrite (proj2 (Z.ltb_lt 0xFF v)), (proj2 (Z.leb_le v 0xFFF)), (proj2 (Z.ltb_lt (zlen pre + 1) 12)) by lia.
    cbn [andb]. rewrite <- app_assoc. cbn [app]. rewrite zget_app_here. cbn [mbind option_bind].
    rewrite <- (zlen_snoc pre 0). change (pre ++ 0 :: b :: ?r) with (pre ++ [0] ++ b :: r). rewrite app_assoc, zget_app_here.
    cbn [mbind option_bind]. rewrite (proj2 (Z.eqb_neq b 0)) by lia. done.
Qed.

(** One turn of the loop on a number of several bytes. *)
Lemma decode_multi fuel z pre b bs gap ids (second : bool) nibble value es :
  let guid := padded (pre ++ b :: bs ++ gap ++ path_bytes z None ids) in
  nibble = (if second then b mod 16 else b / 16) -> Forall valid_id ids -> Forall (in_u 8) bs ->
  (1 <= length bs <= 4)%nat -> (length (pre ++ b :: bs ++ gap ++ path_bytes z None ids) <= 12)%nat ->
  nibble = 11 + zlen bs -> zlen es < 24 ->
  (if second then 0 else b mod 16) * 256 ^ zlen bs + le bs = value -> value < 2 ^ 32 ->
  gap = [] \/ gap = [0] /\ 0xFF < value <= 0xFFF ->
  decode (S (S fuel)) guid (zlen pre) second es =
  decode (S fuel) guid (zlen (pre ++ b :: bs ++ gap)) false (es ++ [value]).
Proof.
  intros guid En Hids Hbs Hl Hlen Hn He Ev Hv Hgap.
  assert (zlen pre + 1 + zlen bs <= 12) as H12 by (rewrite length_app in Hlen; cbn [length] in Hlen; rewrite length_app in Hlen; lia).
  assert (Hskip : exists p, skip_zero guid (zlen (pre ++ b :: bs)) value = Some p /\
    forall fuel es, decode (S fuel) guid p false es = decode (S fuel) guid (zlen (pre ++ b :: bs ++ gap)) false es).
  { unfold guid. replace (pre ++ b :: bs ++ gap ++ path_bytes z None ids) with ((pre ++ b :: bs) ++ gap ++ path_bytes z None ids)
      in Hlen |- * by (by rewrite <- app_assoc).
    replace (pre ++ b :: bs ++ gap) with ((pre ++ b :: bs) ++ gap) by (by rewrite <- app_assoc).
    destruct Hgap as [->|[-> Hrange]]; cbn [app] in Hlen |- *; [|apply skip_stray; [done|lia|done]].
    rewrite app_nil_r. exists (zlen (pre ++ b :: bs)). split; [by apply skip_zero_none|done]. }
  destruct Hskip as (p & Hskip & Hdec). rewrite <- Hdec. clear Hdec. remember (S fuel) as fuel' eqn:Ef. cbn [decode].
  replace (negb second && (GUID_BYTES <=? zlen pre)) with false by (unfold GUID_BYTES; destruct second; cbn; [done|];
    symmetry; apply Z.leb_gt; lia).
  assert (Eg : guid = pre ++ b :: bs ++ (gap ++ path_bytes z None ids ++ replicate (12 - length (pre ++ b :: bs ++ gap ++ path_bytes z None ids)) 0)).
  { unfold guid, padded. rewrite <- app_assoc. cbn [app]. by rewrite <- !app_assoc. }
  rewrite Eg at 1. rewrite zget_app_here. rewrite high_nibble, low_nibble, <- En, Hn.
  unfold NL_End, LastImmediateValue, PrefixCode, MAX_NIBBLE_ELEMENTS.
  rewrite (proj2 (Z.eqb_neq (11 + zlen bs) 0)), (proj2 (Z.leb_gt (11 + zlen bs) 10)), (proj2 (Z.eqb_neq (11 + zlen bs) 11)) by lia.
  rewrite Eg at 1. rewrite multi_byte_ok by (done || lia || (rewrite Ev; lia)). rewrite Ev.
  rewrite (proj2 (Z.leb_gt 24 (zlen es))) by lia.
  replace (zlen pre + 1 + zlen bs) with (zlen (pre ++ b :: bs)) by (rewrite length_app; cbn [length]; lia).
  by rewrite Hskip.
Qed.

Lemma path_bytes_nibble z h ids : 1 <= h <= 10 -> Forall valid_id ids ->
  exists b bs, path_bytes z (Some h) ids = b :: bs /\ b / 16 = h.
Proof.
  intros Hh Hids. destruct ids as [|id ids].
  - eexists _, []. split; [done|]. rewrite Z.mul_comm. by apply Z.div_mul.
  - destruct (path_bytes_first z (Some h) id ids Hh Hids) as (b & bs & E & _ & Eb). eauto.
Qed.

Lemma stray_byte_cases z id : id < 4096 -> stray_byte z id = [] \/ stray_byte z id = [0] /\ 0xFF < id <= 0xFFF.
Proof. intros H. unfold stray_byte. destruct z; cbn; [|auto]. destruct (Z.ltb_spec 0xFF id); [right|left]; auto with lia. Qed.

Lemma decode_path z ids : forall fuel pre half es,
  valid_half half -> Forall valid_id ids -> (length (pre ++ path_bytes z half ids) <= 12)%nat ->
  zlen es + zlen ids <= 24 -> (length ids < fuel)%nat ->
  decode fuel (padded (pre ++ path_bytes z half ids)) (zlen pre) (bool_decide (is_Some half)) es = Path (es ++ ids).
Proof.
  induction ids as [|id ids IH]; intros [|fuel] pre half es Hh Hids Hl He Hf; cbn [length] in *; try lia.
  - rewrite app_nil_r. destruct half as [h|]; cbn [path_bytes] in *.
    + rewrite bool_decide_eq_true_2 by (by eexists). unfold padded. rewrite <- app_assoc. cbn [app].
      eapply decode_end; [done|]. rewrite Z.mul_comm. by apply Z.mod_mul.
    + rewrite bool_decide_eq_false_2 by (by intros []). rewrite app_nil_r in *.
      destruct (decide (length pre = 12%nat)) as [E|].
      { cbn [decode negb]. rewrite E. done. }
      destruct (padded_cons pre ltac:(lia)) as (w & -> & _). by eapply decode_end.
  - apply Forall_cons in Hids as [Hid Hids]. destruct (id_length_cases id Hid) as (Hlen & Hu & H2).
    unfold valid_id in Hid. pose proof (add_id_path z pre half id ids) as Ep. pose proof (add_id_valid z pre half id Hh Hid) as Hh'.
    rewrite Ep in Hl |- *. specialize (IH fuel (add_id z pre half id).1 (add_id z pre half id).2 (es ++ [id]) Hh' Hids Hl).
    rewrite zlen_snoc, <- app_assoc in IH. cbn [app] in IH. rewrite <- IH by lia. clear IH. destruct fuel as [|fuel]; [lia|].
    pose proof (le_bytes_range (id_length id) id) as Hr. pose proof (le_bytes_length (id_length id) id) as Hlb.
    assert (Hval : le (le_bytes (id_length id) id) = id) by (by apply le_le_bytes).
    destruct half as [h|]; unfold add_id in *; destruct (immediate id) eqn:Ei; cbn [fst snd valid_half] in *.
    + rewrite bool_decide_eq_true_2, bool_decide_eq_false_2 by (by intros [] || by eexists).
      unfold immediate, LastImmediateValue in Ei. bool_facts. rewrite length_app, length_app in Hl. cbn [length] in Hl.
      assert (Em : (16 * h + id) mod 16 = id) by (symmetry; apply (Z.mod_unique _ _ h); lia).
      unfold padded. rewrite <- !app_assoc. cbn [app]. erewrite decode_immediate; [|done|lia|lia|rewrite Em; lia]. by rewrite Em.
    + rewrite bool_decide_eq_true_2, bool_decide_eq_false_2 by (by intros [] || by eexists).
      rewrite <- app_assoc in Hl |- *. cbn [app] in Hl |- *.
      pose proof (decode_multi fuel z pre (16 * h + (11 + Z.of_nat (id_length id))) (le_bytes (id_length id) id) [] ids true
        (11 + Z.of_nat (id_length id)) id es) as Hm. cbn [app] in Hm. rewrite app_nil_r in Hm.
      apply Hm; try done; rewrite ?Hlb; try lia; [|auto]. apply (Z.mod_unique _ _ h); lia.
    + rewrite bool_decide_eq_false_2, bool_decide_eq_true_2 by (by intros [] || by eexists).
      unfold immediate, LastImmediateValue in Ei. bool_facts. rewrite length_app in Hl.
      destruct (path_bytes_nibble z id ids ltac:(lia) Hids) as (b & bs & Eb & En). rewrite Eb in *. cbn [length] in Hl.
      unfold padded. rewrite <- app_assoc. cbn [app]. erewrite decode_immediate; [|done|lia|lia|rewrite En; lia]. by rewrite En.
    + rewrite !bool_decide_eq_false_2 by (by intros []). destruct (Z.ltb_spec id 4096) as [H4|H4]; cbn [fst snd] in *.
      * assert (0 <= id / 256 < 16) by (split; [apply Z.div_pos|apply Z.div_lt_upper_bound]; lia).
        rewrite <- app_assoc in Hl |- *. cbn [app] in Hl |- *.
        assert (Em : (16 * 12 + id / 256) mod 16 = id / 256) by (symmetry; apply (Z.mod_unique _ _ 12); lia).
        pose proof (Z.div_mod id 256 ltac:(lia)). pose proof (Z.mod_pos_bound id 256 ltac:(lia)).
        eapply (decode_multi fuel z pre _ [id mod 256] (stray_byte z id) ids false); try done; cbn [length le]; try lia.
        -- repeat constructor; unfold in_u; lia.
        -- symmetry. apply (Z.div_unique _ _ _ (id / 256)); lia.
        -- by apply stray_byte_cases.
      * rewrite <- app_assoc in Hl |- *. cbn [app] in Hl |- *.
        assert (Em : (16 * (11 + Z.of_nat (id_length id))) mod 16 = 0) by (rewrite Z.mul_comm; by apply Z.mod_mul).
        pose proof (decode_multi fuel z pre (16 * (11 + Z.of_nat (id_length id))) (le_bytes (id_length id) id) [] ids false
          (11 + Z.of_nat (id_length id)) id es) as Hm. cbn [app] in Hm. rewrite app_nil_r in Hm.
        apply Hm; try done; rewrite ?Hlb; try lia; [|auto]. rewrite (Z.mul_comm 16). by rewrite Z.div_mul.
Qed.

(** ** Roots *)

(** The identifier of an event with a path, as a runtime with or without the mistake writes
    it, and whether the path has room in it. *)
Definition event_id (stray : bool) (path : list Z) : bytes := padded (path_bytes stray None path).
Definition has_room (stray : bool) (path : list Z) : Prop := (length (path_bytes stray None path) <= 12)%nat.

(** The numbers of a path written one after the other by the profiler. *)
Definition encode (ids : list Z) : option bytes := encode_elements (length ids) 0 ids new_NetworkActivity 0.

Lemma path_bytes_count z ids : forall half,
  (length ids + length (half_byte half) <= 2 * length (path_bytes z half ids))%nat.
Proof.
  induction ids as [|id ids IH]; intros half; [destruct half; cbn; lia|].
  pose proof (IH None) as H0. pose proof (IH (Some id)) as H1. cbn [half_byte length] in H0, H1.
  destruct half; cbn [path_bytes half_byte]; repeat case_if; cbn [length]; rewrite ?length_app; lia.
Qed.

Lemma path_bytes_grows z ids x : forall half, (length (path_bytes z half ids) <= length (path_bytes z half (ids ++ [x])))%nat.
Proof.
  induction ids as [|id ids IH]; intros half.
  - pose proof (path_bytes_half z half [x]). by destruct half.
  - pose proof (IH None). pose proof (IH (Some id)). cbn [app].
    destruct half; cbn [path_bytes]; repeat case_if; cbn [length]; rewrite ?length_app; lia.
Qed.

(** The profiler's own encoding is the shorter one. *)
Lemma has_room_shorter z ids : has_room z ids -> has_room false ids.
Proof.
  unfold has_room. intros H. etransitivity; [|exact H]. clear H. generalize (@None Z).
  induction ids as [|id ids IH]; intros half; [done|]. pose proof (IH None). pose proof (IH (Some id)).
  destruct half; cbn [path_bytes]; repeat case_if; cbn [length]; rewrite ?length_app; cbn; lia.
Qed.

Lemma encode_spec ids : Forall valid_id ids -> has_room false ids -> encode ids = Some (event_id false ids).
Proof.
  intros Hids Hr. pose proof (encode_elements_ok ids [] [] [] None I Hids Hr) as E. cbn [app] in E.
  by rewrite app_nil_r in E.
Qed.

Lemma decode_spec z ids : Forall valid_id ids -> has_room z ids ->
  decode decode_fuel (event_id z ids) 0 false [] = Path ids.
Proof.
  intros Hids Hr. pose proof (path_bytes_count z ids None) as Hc. unfold has_room in Hr. cbn in Hc.
  apply (decode_path z ids decode_fuel [] None []); try done; unfold decode_fuel; cbn [length]; lia.
Qed.

Lemma GetRootActivity_path z ids x : Forall valid_id ids -> has_room z ids ->
  GetRootActivity (event_id z ids) true = Some (Some (event_id false ids)) /\
  (valid_id x -> has_room z (ids ++ [x]) ->
   GetRootActivity (event_id z (ids ++ [x])) false = Some (Some (event_id false ids))).
Proof.
  intros Hids Hr. pose proof (has_room_shorter z ids Hr) as Hr0. unfold GetRootActivity. split.
  - rewrite decode_spec, Nat2Z.id by done. unfold elements_array.
    pose proof (encode_elements_ok ids [] (replicate (Z.to_nat MAX_NIBBLE_ELEMENTS - length ids) 0) [] None I Hids Hr0) as E.
    cbn [app half_byte length] in E. change (Z.of_nat 0) with 0 in E. change (padded []) with new_NetworkActivity in E. by rewrite E.
  - intros Hx Hr'. assert (Forall valid_id (ids ++ [x])) by (rewrite Forall_app; split; [done|constructor; [done|constructor]]).
    rewrite decode_spec by done.
    pose proof (path_bytes_count z (ids ++ [x]) None) as Hc. unfold has_room in Hr'. cbn [half_byte length] in Hc.
    rewrite zlen_snoc. replace (zlen ids + 1 - 1) with (zlen ids) by lia. rewrite length_app in Hc. cbn [length] in Hc.
    rewrite wrap_small, Nat2Z.id by (unfold in_u; lia). unfold elements_array. rewrite <- app_assoc.
    pose proof (encode_elements_ok ids [] ([x] ++ replicate (Z.to_nat MAX_NIBBLE_ELEMENTS - length (ids ++ [x])) 0) [] None I Hids Hr0) as E.
    cbn [app half_byte length] in E |- *. change (Z.of_nat 0) with 0 in E. change (padded []) with new_NetworkActivity in E. by rewrite E.
Qed.

(** ** Within the buffers *)

(** A buffer of twelve bytes. *)
Definition guid_bytes (buf : bytes) : Prop := length buf = 12%nat /\ Forall (in_u 8) buf.

Lemma guid_bytes_insert buf p v : guid_bytes buf -> in_u 8 v -> guid_bytes (<[p := v]> buf).
Proof. intros [Hl Hb] Hv. split; [by rewrite length_insert|by apply Forall_insert]. Qed.

Lemma guid_bytes_byte buf p b : guid_bytes buf -> zget buf p = Some b -> in_u 8 b.
Proof. intros [_ Hb] [_ E]%zget_Some. by eapply (proj1 (Forall_lookup _ _) Hb). Qed.

Lemma guid_bytes_get buf p : guid_bytes buf -> 0 <= p < 12 -> exists b, zget buf p = Some b /\ in_u 8 b.
Proof.
  intros Hb Hp. destruct (zget_in_range buf p) as [b E]; [destruct Hb; lia|]. exists b. split; [done|by eapply guid_bytes_byte].
Qed.

Lemma guid_bytes_set buf p v : guid_bytes buf -> 0 <= p < 12 -> in_u 8 v ->
  exists buf', zset buf p v = Some buf' /\ guid_bytes buf'.
Proof.
  intros Hb Hp Hv. eexists. split; [apply zset_in_range; destruct Hb; lia|by apply guid_bytes_insert].
Qed.

Lemma lor_byte a b : in_u 8 a -> in_u 8 b -> in_u 8 (Z.lor a b).
Proof.
  unfold in_u. intros Ha Hb. assert (0 <= Z.lor a b) by (apply Z.lor_nonneg; lia). split; [done|].
  apply Z.bounded_iff_bits_nonneg; [lia|done|]. intros l Hl. rewrite Z.lor_spec.
  by rewrite (proj1 (Z.bounded_iff_bits_nonneg 8 a ltac:(lia) ltac:(lia)) ltac:(lia) l Hl),
    (proj1 (Z.bounded_iff_bits_nonneg 8 b ltac:(lia) ltac:(lia)) ltac:(lia) l Hl).
Qed.

Lemma u8_range v : in_u 8 (u8 v).
Proof. apply wrap_range. lia. Qed.

Lemma WriteNibble_safe buf p v : guid_bytes buf -> 0 <= p < 12 ->
  exists buf' p', WriteNibble buf p v = Some (buf', p') /\ guid_bytes buf' /\ p <= p' <= p + 1.
Proof.
  intros Hl Hp. unfold WriteNibble. destruct (guid_bytes_get buf p Hl Hp) as (b & -> & Hb). cbn [mbind option_bind].
  destruct (negb (b =? 0)).
  - destruct (guid_bytes_set buf p (Z.lor b (u8 v)) Hl Hp (lor_byte _ _ Hb (u8_range v))) as (buf' & -> & Hl').
    eexists _, _. split; [done|]. split; [done|lia].
  - destruct (guid_bytes_set buf p (u8 (Z.shiftl v 4)) Hl Hp (u8_range _)) as (buf' & -> & Hl').
    eexists _, _. split; [done|]. split; [done|lia].
Qed.

Lemma write_bytes_safe len : forall buf p id, guid_bytes buf -> 0 <= p ->
  exists buf' p', write_bytes len buf p id = Some (buf', p') /\ guid_bytes buf' /\ 0 <= p'.
Proof.
  induction len as [|len IH]; intros buf p id Hl Hp; cbn [write_bytes]; [eauto|]. unfold GUID_BYTES.
  destruct (Z.leb_spec 12 p); [eexists _, _; split; [done|split; [done|lia]]|].
  destruct (guid_bytes_set buf p (u8 id) Hl ltac:(lia) (u8_range _)) as (buf' & -> & Hl'). cbn [mbind option_bind].
  apply IH; [done|lia].
Qed.

Lemma odd_nibble_safe buf p len id : guid_bytes buf -> 0 <= p ->
  exists buf' p' len' id', odd_nibble buf p len id = Some (buf', p', len', id') /\ guid_bytes buf' /\ 0 <= p'.
Proof.
  intros Hl Hp. unfold odd_nibble, GUID_BYTES. destruct (Z.ltb_spec p 12); [|by eexists _, _, _, _].
  destruct (guid_bytes_get buf p Hl ltac:(lia)) as (b & -> & Hb). cbn [mbind option_bind].
  destruct (b =? 0); [by eexists _, _, _, _|]. destruct (id <? 4096); [|eexists _, _, _, _; split; [done|split; [done|lia]]].
  destruct (guid_bytes_set buf p (u8 (u32 (Z.shiftl MultiByte1 4 + Z.shiftr id 8))) Hl ltac:(lia) (u8_range _)) as (buf' & -> & Hl').
  eexists _, _, _, _. split; [done|]. split; [done|lia].
Qed.

Lemma AddIdToGuid_safe buf p id overflow : guid_bytes buf -> 0 <= p ->
  exists buf' p', AddIdToGuid buf p id overflow = Some (buf', p') /\ guid_bytes buf' /\ 0 <= p'.
Proof.
  intros Hl Hp. unfold AddIdToGuid. destruct (Z.leb_spec GUID_BYTES p) as [|H12]; [by eexists _, _|].
  unfold GUID_BYTES in H12. destruct (_ && _ && _).
  { destruct (WriteNibble_safe buf p id Hl ltac:(lia)) as (b & q & -> & ? & ?). eexists _, _. split; [done|split; [done|lia]]. }
  destruct (overflow && (GUID_BYTES <=? p + 2)) eqn:Eo; [by eexists _, _|].
  assert (H1 : exists b1 p1, (if overflow then WriteNibble buf p PrefixCode else Some (buf, p)) = Some (b1, p1) /\
    guid_bytes b1 /\ 0 <= p1 < 12).
  { destruct overflow; [|eexists _, _; split; [done|split; [done|lia]]]. unfold GUID_BYTES in Eo. bool_facts; [done|].
    destruct (WriteNibble_safe buf p PrefixCode Hl ltac:(lia)) as (b & q & -> & ? & ?). eexists _, _. split; [done|split; [done|lia]]. }
  destruct H1 as (b1 & p1 & -> & Hl1 & Hp1). cbn [mbind option_bind].
  destruct (WriteNibble_safe b1 p1 (MultiByte1 + (Z.of_nat (id_length id) - 1)) Hl1 Hp1) as (b2 & p2 & -> & Hl2 & Hp2).
  cbn [mbind option_bind].
  destruct (odd_nibble_safe b2 p2 (id_length id) id Hl2 ltac:(lia)) as (b3 & p3 & len3 & id3 & -> & Hl3 & Hp3).
  cbn [mbind option_bind]. by apply write_bytes_safe.
Qed.

Lemma encode_elements_safe n : forall i elements buf p, guid_bytes buf -> 0 <= p -> 0 <= i ->
  i + Z.of_nat n <= zlen elements -> exists buf', encode_elements n i elements buf p = Some buf' /\ guid_bytes buf'.
Proof.
  induction n as [|n IH]; intros i elements buf p Hl Hp Hi Hn; cbn [encode_elements]; [eauto|].
  destruct (zget_in_range elements i ltac:(lia)) as [id ->]. cbn [mbind option_bind].
  destruct (AddIdToGuid_safe buf p id false Hl Hp) as (b & q & -> & Hl' & Hq). cbn [mbind option_bind].
  apply IH; [done|done|lia|lia].
Qed.

Lemma read_value_safe n : forall guid p v, 0 <= p -> p + Z.of_nat n <= zlen guid -> is_Some (read_value n guid p v).
Proof.
  induction n as [|n IH]; intros guid p v Hp Hn; cbn [read_value]; [by eexists|].
  destruct (zget_in_range guid (p + Z.of_nat n) ltac:(lia)) as [b ->]. cbn [mbind option_bind]. apply IH; lia.
Qed.

Lemma multi_byte_safe guid p nibble second : length guid = 12%nat -> 0 <= p < 12 -> 12 <= nibble < 16 ->
  match multi_byte guid p nibble second with
  | None => False
  | Some None => True
  | Some (Some (p', _)) => p + 2 <= p' <= 12
  end.
Proof.
  intros Hl Hp Hn. unfold multi_byte, MultiByte1, GUID_BYTES. destruct (zget_in_range guid p ltac:(lia)) as [b ->].
  cbn [mbind option_bind]. rewrite wrap_small by (unfold in_u; lia). case_if; [done|]. bool_facts.
  destruct (read_value_safe (Z.to_nat (nibble - 12 + 1)) guid (p + 1) (if second then 0 else Z.land b 15)) as [v ->]; [lia|lia|].
  cbn [mbind option_bind]. lia.
Qed.

Lemma skip_zero_safe guid p v : length guid = 12%nat -> 0 <= p <= 12 ->
  exists p', skip_zero guid p v = Some p' /\ p <= p' <= 12.
Proof.
  intros Hl Hp. unfold skip_zero, GUID_BYTES. destruct (_ && _ && _) eqn:E; [|eauto with lia]. bool_facts.
  destruct (zget_in_range guid p ltac:(lia)) as [b ->], (zget_in_range guid (p + 1) ltac:(lia)) as [b' ->].
  cbn [mbind option_bind]. case_if; eexists; (split; [done|lia]).
Qed.

(** The path decoded has room in the array. *)
Definition decodes (d : decoded) : Prop :=
  match d with Path es => zlen es <= MAX_NIBBLE_ELEMENTS | Refused => True | Outside | NoFuel => False end.

Lemma decode_safe guid : length guid = 12%nat -> Forall (in_u 8) guid -> forall fuel p (second : bool) es,
  0 <= p <= 12 -> (second = true -> p < 12) -> zlen es <= MAX_NIBBLE_ELEMENTS ->
  2 * (12 - p) - (if second then 1 else 0) < Z.of_nat fuel -> decodes (decode fuel guid p second es).
Proof.
  intros Hl Hg. induction fuel as [|fuel IH]; intros p second es Hp Hs He Hf.
  { destruct second; [specialize (Hs eq_refl)|]; lia. }
  cbn [decode]. unfold GUID_BYTES, MAX_NIBBLE_ELEMENTS in *. destruct (negb second && (12 <=? p)) eqn:E0; [done|].
  assert (Hp' : p < 12) by (destruct second; [by apply Hs|]; cbn in E0; bool_facts; lia). clear E0.
  destruct (zget_in_range guid p ltac:(lia)) as [b Eb]. rewrite Eb.
  assert (Hrange : forall q c, zget guid q = Some c -> 0 <= Z.shiftr c 4 < 16 /\ 0 <= Z.land c 15 < 16).
  { intros q c [_ Hc]%zget_Some. rewrite Forall_lookup in Hg. specialize (Hg _ _ Hc). unfold in_u in Hg.
    change (2 ^ 8) with 256 in Hg. rewrite high_nibble, low_nibble. split; [|apply Z.mod_pos_bound; lia].
    split; [apply Z.div_pos; lia|apply Z.div_lt_upper_bound; lia]. }
  assert (Hsev : forall q n, p <= q < 12 -> 12 <= n < 16 -> decodes
    match multi_byte guid q n second with
    | None => Outside
    | Some None => Path es
    | Some (Some (p, value)) => if 24 <=? zlen es then Path es
        else match skip_zero guid p value with None => Outside | Some p => decode fuel guid p false (es ++ [value]) end
    end).
  { intros q n Hq Hn. pose proof (multi_byte_safe guid q n second Hl ltac:(lia) Hn) as Hm.
    destruct (multi_byte guid q n second) as [[[p1 v]|]|]; [|done|done]. destruct (Z.leb_spec 24 (zlen es)); [done|].
    destruct (skip_zero_safe guid p1 v Hl ltac:(lia)) as (p2 & -> & Hp2).
    apply IH; [lia|done|rewrite zlen_snoc; lia|destruct second; lia]. }
  destruct (Hrange p b Eb) as [Hh Hlo]. unfold NL_End, LastImmediateValue, PrefixCode, MultiByte1 in *.
  destruct (_ =? 0) eqn:E0; [done|]. destruct (_ <=? 10) eqn:E10; bool_facts.
  { destruct (Z.leb_spec 24 (zlen es)); [done|].
    destruct second; apply IH; rewrite ?zlen_snoc; try done; lia. }
  destruct (_ =? 11) eqn:E11; bool_facts; [|apply Hsev; [lia|destruct second; lia]].
  destruct second.
  - destruct (Z.leb_spec 12 (p + 1)); [done|]. destruct (zget_in_range guid (p + 1) ltac:(lia)) as [b' Eb'].
    rewrite Eb'. destruct (Hrange _ _ Eb') as [Hh' _]. destruct (Z.ltb_spec (Z.shiftr b' 4) 12); [done|]. apply Hsev; lia.
  - destruct (Z.ltb_spec (Z.land b 0xF) 12); [done|]. apply Hsev; lia.
Qed.

Lemma GetRootActivity_returns guid isRoot :
  guid_bytes guid -> (isRoot = false -> decode decode_fuel guid 0 false [] <> Path []) ->
  exists r, GetRootActivity guid isRoot = Some r /\ match r with Some key => guid_bytes key | None => True end.
Proof.
  intros [Hl Hg] Hr. pose proof (decode_safe guid Hl Hg decode_fuel 0 false [] ltac:(lia) ltac:(done) ltac:(done) ltac:(done)) as Hd.
  unfold GetRootActivity. destruct (decode decode_fuel guid 0 false []) as [es| | |] eqn:E; try done; [|by exists None].
  cbn in Hd. unfold MAX_NIBBLE_ELEMENTS in Hd.
  assert (Hn : 0 <= (if isRoot then zlen es else u8 (zlen es - 1)) <= zlen es).
  { destruct isRoot; [lia|]. specialize (Hr eq_refl). destruct es as [|e es]; [done|]. cbn [length] in *.
    rewrite wrap_small by (unfold in_u; lia). lia. }
  destruct (encode_elements_safe (Z.to_nat (if isRoot then zlen es else u8 (zlen es - 1))) 0 (elements_array es) new_NetworkActivity 0)
    as (buf & -> & Hb); [split; [done|by repeat constructor]|done|done| |eexists; split; [done|exact Hb]].
  unfold elements_array. rewrite length_app, length_replicate. unfold MAX_NIBBLE_ELEMENTS. lia.
Qed.

(** ** Properties *)

(** C23: Whatever path of numbers a request has (as far as it fits the twelve bytes), and whether
    or not the runtime that wrote the identifiers leaves the stray 00 byte behind its numbers of
    twelve bits, the events of the request itself and those of its phases, whose path has one
    number more, lead to the same key, the path in the profiler's own encoding; and no other
    path leads to this key, whichever runtime wrote it. *)
Theorem phases_find_their_request stray path x :
  Forall valid_id path -> valid_id x -> has_room stray (path ++ [x]) ->
  exists key, encode path = Some key /\
    GetRootActivity (event_id stray path) true = Some (Some key) /\
    GetRootActivity (event_id stray (path ++ [x])) false = Some (Some key) /\
    forall stray' other, Forall valid_id other -> has_room stray' other ->
      GetRootActivity (event_id stray' other) true = Some (Some key) -> other = path.
Proof.
  intros Hp Hx Hr. assert (Hr' : has_room stray path) by (unfold has_room in *; pose proof (path_bytes_grows stray path x None); lia).
  pose proof (has_room_shorter _ _ Hr') as Hr0. exists (event_id false path).
  destruct (GetRootActivity_path stray path x Hp Hr') as [H1 H2].
  split; [by apply encode_spec|]. split; [done|]. split; [by apply H2|]. intros stray' other Ho Hro.
  rewrite (proj1 (GetRootActivity_path stray' other 1 Ho Hro)). intros [= E].
  pose proof (decode_spec false other Ho (has_room_shorter _ _ Hro)) as Hd.
  rewrite E, decode_spec in Hd by done. by injection Hd.
Qed.

(** C39: Whatever the twelve bytes of an identifier, decoding ends and stays within them and within
    the array of elements, and the key is made of twelve bytes too; a phase needs a path that
    is not empty for that. *)
Theorem activity_well_typed guid isRoot :
  guid_bytes guid -> (isRoot = false -> decode decode_fuel guid 0 false [] <> Path []) ->
  exists r, GetRootActivity guid isRoot = Some r /\ match r with Some key => guid_bytes key | None => True end.
Proof. apply GetRootActivity_returns. Qed.

(** ** Examples *)

Module Example_activity.
(** The request 1/1 and its phases 1/1/1 and 1/1/10 in the comment of [NetworkRequestInfo.h]. *)
Example documented :
  encode [1; 1] = Some [0x11; 0; 0; 0; 0; 0; 0; 0; 0; 0; 0; 0] /\
  encode [1; 1; 10] = Some [0x11; 0xa0; 0; 0; 0; 0; 0; 0; 0; 0; 0; 0].
Proof. done. Qed.

(** An identifier without a path: the count of its elements wraps around, and the array is
    read behind its end. *)
Example empty_phase : GetRootActivity (replicate 12 0) false = None.
Proof. done. Qed.

(** A number allocated differently ($) is not told from another path. *)
Example overflow_forgotten :
  let shared := [0xBC; 0x05; 0; 0; 0; 0; 0; 0; 0; 0; 0; 0] in
  GetRootActivity shared true = Some (encode [0xC05]).
Proof. done. Qed.
End Example_activity.

(** The request 300 and its phase 7, whose identifier has a 00 byte in its middle. *)
Lemma phases_find_their_request_witness :
  event_id true [300; 7] = [0xC1; 0x2C; 0; 0x70; 0; 0; 0; 0; 0; 0; 0; 0] /\
  exists key, encode [300] = Some key /\ GetRootActivity (event_id true [300; 7]) false = Some (Some key).
Proof.
  split; [reflexivity|]. destruct (phases_find_their_request true [300] 7) as (key & H1 & _ & H3 & _).
  - repeat (apply Forall_cons; split; [split; reflexivity|]). constructor.
  - split; reflexivity.
  - unfold has_room. apply Nat.leb_le. reflexivity.
  - exists key. split; [exact H1|exact H3].
Defined.

Lemma activity_well_typed_witness :
  exists r, GetRootActivity (0xBC :: replicate 11 0xFF) true = Some r.
Proof.
  destruct (activity_well_typed (0xBC :: replicate 11 0xFF) true) as (r & H & _).
  - split; [reflexivity|]. cbn [replicate]. repeat (apply Forall_cons; split; [split; [discriminate|reflexivity]|]). constructor.
  - discriminate.
  - exists r. exact H.
Defined.
