(* ===== verification/NetworkRequests.v ===== *)
(** * Network requests

    Model of [BclEventsParser.cpp], [NetworkProvider.cpp], [NetworkRequestInfo.cpp] and
    [RawNetworkSample.h]: the events of the runtime's HTTP stack are decoded, attributed to
    a request by the identifier of their activity, and summed up in one sample when the
    request stops.

    The bytes of an event are read as in [EventPayloads], its identifier as in
    [NetworkActivity].  What the calling thread is, and its callstack, are inputs of an event
    ([Caller]).  [None] as the result of a handler is a read outside of an array or the
    dereference of a null pointer.  A handler works on the request it found after the lock
    is released; here it is one step. *)
From stdpp Require Import base gmap list strings.
From S2P Require Import Prelude EventPayloads EventDecoding TypeReferenceTree TypeTreeJson ThreadInfo NetworkActivity.

(** ** Events *)

Inductive DotnetEventsProvider := Unknown | Clr | Http | Sockets | NameResolution | NetSecurity.

(** The calls of [INetworkListener]. *)
Inductive NetworkEvent :=
| RequestStart (url : text) | RequestStop (statusCode : Z) | RequestFailed (message : text) | Redirected (url : text)
| DnsResolutionStart | DnsResolutionStop (success : bool)
| ConnectStart | ConnectStop | ConnectFailed (message : text)
| RequestHeaderStart | ResponseHeaderStop (statusCode : Z) | ResponseContentStart | ResponseContentStop
| HandshakeStart (targetHost : text) | HandshakeStop | HandshakeFailed (message : text).

(** ** Decoding *)

Section parser.
(** [shared::ToString]: UTF-16 to UTF-8. *)
Context (ToString : text -> text).
Context (pEventData : bytes) (cbEventData : Z).

Definition to_string (v : Z) : text := if v <? 0 then chars "-" ++ digits 20 (- v) else digits 20 v.

Definition request_url (scheme host : text) (port : Z) (path : text) : text :=
  let url := ToString scheme ++ chars "://" ++ ToString host in
  let url := if negb (port =? 0) then url ++ chars ":" ++ to_string port else url in
  url ++ ToString path.

Definition ParseRequestStart : outcome NetworkEvent :=
  '(scheme, offset) ← ReadWideString pEventData cbEventData 0;
  '(host, offset) ← ReadWideString pEventData cbEventData offset;
  '(port, offset) ← Read (uint 4) pEventData cbEventData offset;
  '(path, _) ← ReadWideString pEventData cbEventData offset;
  Ok (RequestStart (request_url scheme host (swrap 32 port) path)).

Definition ParseRequestStop : outcome NetworkEvent :=
  '(statusCode, _) ← Read (uint 4) pEventData cbEventData 0; Ok (RequestStop statusCode).

Definition ParseRequestFailed : outcome NetworkEvent :=
  '(message, _) ← ReadWideString pEventData cbEventData 0; Ok (RequestFailed (ToString message)).

Definition ParseResponseHeadersStop : outcome NetworkEvent :=
  '(statusCode, _) ← Read (uint 4) pEventData cbEventData 0; Ok (ResponseHeaderStop statusCode).

Definition ParseRedirect : outcome NetworkEvent :=
  '(redirectUrl, _) ← ReadWideString pEventData cbEventData 0; Ok (Redirected (ToString redirectUrl)).

Definition ParseConnectFailed : outcome NetworkEvent :=
  '(message, _) ← ReadWideString pEventData cbEventData 0; Ok (ConnectFailed (ToString message)).

Definition ParseHandshakeStart : outcome NetworkEvent :=
  '(isServer, offset) ← Read (uint 4) pEventData cbEventData 0;
  '(targetHost, _) ← ReadWideString pEventData cbEventData offset;
  Ok (HandshakeStart (ToString targetHost)).

Definition ParseHandshakeFailed : outcome NetworkEvent :=
  '(isServer, offset) ← Read (uint 4) pEventData cbEventData 0;
  '(elapsedMilliseconds, offset) ← Read (uint 8) pEventData cbEventData offset;
  '(message, _) ← ReadWideString pEventData cbEventData offset;
  Ok (HandshakeFailed (ToString message)).

(** [Malformed] when the listener is not called. *)
Definition ParseHttpEvent (id : Z) : outcome NetworkEvent :=
  if id =? 1 then ParseRequestStart
  else if id =? 2 then ParseRequestStop
  else if id =? 3 then ParseRequestFailed
  else if id =? 7 then Ok RequestHeaderStart
  else if id =? 12 then ParseResponseHeadersStop
  else if id =? 13 then Ok ResponseContentStart
  else if id =? 14 then Ok ResponseContentStop
  else if id =? 16 then ParseRedirect
  else Malformed.

Definition ParseSocketsEvent (id : Z) : outcome NetworkEvent :=
  if id =? 1 then Ok ConnectStart
  else if id =? 2 then Ok ConnectStop
  else if id =? 3 then ParseConnectFailed
  else Malformed.

Definition ParseNameResolutionEvent (id : Z) : outcome NetworkEvent :=
  if id =? 1 then Ok DnsResolutionStart
  else if id =? 2 then Ok (DnsResolutionStop true)
  else if id =? 3 then Ok (DnsResolutionStop false)
  else Malformed.

Definition ParseNetSecurityEvent (id : Z) : outcome NetworkEvent :=
  if id =? 1 then ParseHandshakeStart
  else if id =? 2 then Ok HandshakeStop
  else if id =? 3 then ParseHandshakeFailed
  else Malformed.

Definition ParseNetworkEvent (listener : bool) (dotnetProvider : DotnetEventsProvider) (id : Z) : outcome NetworkEvent :=
  if negb listener then Malformed
  else match dotnetProvider with
  | Http => ParseHttpEvent id
  | Sockets => ParseSocketsEvent id
  | NameResolution => ParseNameResolutionEvent id
  | NetSecurity => ParseNetSecurityEvent id
  | _ => Malformed
  end.
End parser.

(** ** Requests *)

Record NetworkRequestCommon := mkCommon {
  Url : text; StartTimestamp : Z;
  DnsWait : Z; DnsStartTime : Z; DnsDuration : Z;
  HandshakeWait : Z; HandshakeStartTime : Z; HandshakeDuration : Z;
  SocketConnectStartTime : Z; SocketDuration : Z;
  RequestHeadersStartTimestamp : Z; RequestDuration : Z;
  ResponseContentStartTimestamp : Z; ResponseDuration : Z
}.

Definition new_NetworkRequestCommon (url : text) (timestamp : Z) : NetworkRequestCommon :=
  mkCommon url timestamp 0 0 0 0 0 0 0 0 0 0 0 0.

(** What the provider reads of the thread an event comes from; [uninitialised] is what the
    memory of a new sample holds. *)
Record Thread := mkThread {
  th_id : Z; th_HasTraceContext : bool; th_AppDomainId : Z; th_ProfileThreadId : text; th_ProfileThreadName : text
}.
Record Caller := mkCaller {
  CurrentThreadInfo : option Thread; walked_context : TraceContext; walked_frames : list Z; uninitialised : bool
}.

Record NetworkRequestInfo := mkRequest {
  common : NetworkRequestCommon;
  r_TraceContext : TraceContext;
  r_AppDomainId : Z;
  StartCallStack : list Z;
  StartThreadInfo : option Thread;
  DnsResolutionSuccess : bool;
  HandshakeError : text;
  Error : text;
  Redirect : option NetworkRequestCommon
}.

Definition new_NetworkRequestInfo (url : text) (timestamp : Z) : NetworkRequestInfo :=
  mkRequest (new_NetworkRequestCommon url timestamp) zero_context 0 [] None false [] [] None.

Record RawNetworkSample := mkNetworkSample {
  n_Timestamp : Z; n_AppDomainId : Z; n_TraceContext : TraceContext; n_ThreadInfo : option Thread; n_Stack : list Z;
  n_Url : text; n_StartTimestamp : Z; n_StatusCode : Z; n_Error : text; n_EndThreadId : text; n_EndThreadName : text;
  n_RedirectUrl : text; n_HasBeenRedirected : bool;
  n_DnsWait : Z; n_DnsDuration : Z; n_DnsSuccess : bool; n_SocketConnectDuration : Z;
  n_HandshakeWait : Z; n_HandshakeDuration : Z; n_HandshakeError : text;
  n_RequestDuration : Z; n_ResponseDuration : Z
}.

Record NetworkConfig := mkNetworkConfig { ForceHttpSampling : bool; _requestDurationThreshold : Z }.

Record NetworkProvider := mkProvider {
  _requests : gmap bytes NetworkRequestInfo;
  failureCount : Z;                  (* static of CaptureThreadInfo *)
  _requestsCountMetric : Z; _failedRequestsCountMetric : Z; _redirectionRequestsCountMetric : Z;
  _totalDurationMetric : list Z; _waitDurationMetric : list Z; _dnsDurationMetric : list Z;
  _handshakeDurationMetric : list Z; _requestResponseDurationMetric : list Z
}.

Definition new_NetworkProvider : NetworkProvider := mkProvider ∅ 0 0 0 0 [] [] [] [] [].

(** The labels of the sample of the profile, and its value. *)
Inductive network_label :=
| RequestUrl (v : text) | RequestStatusCode (v : Z) | RequestError (v : text) | RequestRedirectUrl (v : text)
| RequestDnsWait (v : Z) | RequestDnsDuration (v : Z) | RequestDnsSuccess (v : text)
| RequestHandshakeWait (v : Z) | RequestHandshakeDuration (v : Z) | RequestHandshakeError (v : text)
| RequestSocketDuration (v : Z) | RequestDurationLabel (v : Z) | ResponseContentDuration (v : Z)
| RequestResponseThreadId (v : text) | RequestResponseThreadName (v : text).

Definition OnTransform (x : RawNetworkSample) : Z * list network_label :=
  let unless_zero (v : Z) (ls : list network_label) := if negb (v =? 0) then ls else [] in
  let unless_empty (v : text) (ls : list network_label) := match v with [] => [] | _ => ls end in
  (n_Timestamp x - n_StartTimestamp x,
   [RequestUrl (n_Url x); RequestStatusCode (n_StatusCode x)] ++
   unless_empty (n_Error x) [RequestError (n_Error x)] ++
   (if n_HasBeenRedirected x then [RequestRedirectUrl (n_RedirectUrl x)] else []) ++
   unless_zero (n_DnsDuration x)
     [RequestDnsWait (n_DnsWait x); RequestDnsDuration (n_DnsDuration x);
      RequestDnsSuccess (chars (if n_DnsSuccess x then "true" else "false"))] ++
   unless_zero (n_HandshakeDuration x)
     [RequestHandshakeWait (n_HandshakeWait x); RequestHandshakeDuration (n_HandshakeDuration x)] ++
   unless_empty (n_HandshakeError x) [RequestHandshakeError (n_HandshakeError x)] ++
   unless_zero (n_SocketConnectDuration x) [RequestSocketDuration (n_SocketConnectDuration x)] ++
   unless_zero (n_RequestDuration x) [RequestDurationLabel (n_RequestDuration x)] ++
   unless_zero (n_ResponseDuration x) [ResponseContentDuration (n_ResponseDuration x)] ++
   [RequestResponseThreadId (n_EndThreadId x); RequestResponseThreadName (n_EndThreadName x)]).

Definition set_requests (m : gmap bytes NetworkRequestInfo) (s : NetworkProvider) : NetworkProvider :=
  mkProvider m (failureCount s) (_requestsCountMetric s) (_failedRequestsCountMetric s) (_redirectionRequestsCountMetric s)
    (_totalDurationMetric s) (_waitDurationMetric s) (_dnsDurationMetric s) (_handshakeDurationMetric s)
    (_requestResponseDurationMetric s).

Definition count_failure (s : NetworkProvider) : NetworkProvider :=
  mkProvider (_requests s) (u64 (failureCount s + 1)) (_requestsCountMetric s) (_failedRequestsCountMetric s)
    (_redirectionRequestsCountMetric s) (_totalDurationMetric s) (_waitDurationMetric s) (_dnsDurationMetric s)
    (_handshakeDurationMetric s) (_requestResponseDurationMetric s).

Definition with_common (c : NetworkRequestCommon) (i : NetworkRequestInfo) : NetworkRequestInfo :=
  mkRequest c (r_TraceContext i) (r_AppDomainId i) (StartCallStack i) (StartThreadInfo i) (DnsResolutionSuccess i)
    (HandshakeError i) (Error i) (Redirect i).
Definition with_redirect (r : option NetworkRequestCommon) (i : NetworkRequestInfo) : NetworkRequestInfo :=
  mkRequest (common i) (r_TraceContext i) (r_AppDomainId i) (StartCallStack i) (StartThreadInfo i) (DnsResolutionSuccess i)
    (HandshakeError i) (Error i) r.
Definition with_error (message : text) (i : NetworkRequestInfo) : NetworkRequestInfo :=
  mkRequest (common i) (r_TraceContext i) (r_AppDomainId i) (StartCallStack i) (StartThreadInfo i) (DnsResolutionSuccess i)
    (HandshakeError i) message (Redirect i).
Definition with_handshake_error (message : text) (i : NetworkRequestInfo) : NetworkRequestInfo :=
  mkRequest (common i) (r_TraceContext i) (r_AppDomainId i) (StartCallStack i) (StartThreadInfo i) (DnsResolutionSuccess i)
    message (Error i) (Redirect i).
Definition with_dns_success (ok : bool) (i : NetworkRequestInfo) : NetworkRequestInfo :=
  mkRequest (common i) (r_TraceContext i) (r_AppDomainId i) (StartCallStack i) (StartThreadInfo i) ok
    (HandshakeError i) (Error i) (Redirect i).

(** The part of the request a phase belongs to: the redirected one when there is one. *)
Definition on_part (f : NetworkRequestCommon -> NetworkRequestCommon) (i : NetworkRequestInfo) : NetworkRequestInfo :=
  match Redirect i with
  | None => with_common (f (common i)) i
  | Some r => with_redirect (Some (f r)) i
  end.

Definition set_dns (wait start duration : Z) (c : NetworkRequestCommon) : NetworkRequestCommon :=
  mkCommon (Url c) (StartTimestamp c) wait start duration (HandshakeWait c) (HandshakeStartTime c) (HandshakeDuration c)
    (SocketConnectStartTime c) (SocketDuration c) (RequestHeadersStartTimestamp c) (RequestDuration c)
    (ResponseContentStartTimestamp c) (ResponseDuration c).
Definition set_handshake (wait start duration : Z) (c : NetworkRequestCommon) : NetworkRequestCommon :=
  mkCommon (Url c) (StartTimestamp c) (DnsWait c) (DnsStartTime c) (DnsDuration c) wait start duration
    (SocketConnectStartTime c) (SocketDuration c) (RequestHeadersStartTimestamp c) (RequestDuration c)
    (ResponseContentStartTimestamp c) (ResponseDuration c).
Definition set_socket (start duration : Z) (c : NetworkRequestCommon) : NetworkRequestCommon :=
  mkCommon (Url c) (StartTimestamp c) (DnsWait c) (DnsStartTime c) (DnsDuration c) (HandshakeWait c) (HandshakeStartTime c)
    (HandshakeDuration c) start duration (RequestHeadersStartTimestamp c) (RequestDuration c)
    (ResponseContentStartTimestamp c) (ResponseDuration c).
Definition set_request (start duration : Z) (c : NetworkRequestCommon) : NetworkRequestCommon :=
  mkCommon (Url c) (StartTimestamp c) (DnsWait c) (DnsStartTime c) (DnsDuration c) (HandshakeWait c) (HandshakeStartTime c)
    (HandshakeDuration c) (SocketConnectStartTime c) (SocketDuration c) start duration
    (ResponseContentStartTimestamp c) (ResponseDuration c).
Definition set_response (start duration : Z) (c : NetworkRequestCommon) : NetworkRequestCommon :=
  mkCommon (Url c) (StartTimestamp c) (DnsWait c) (DnsStartTime c) (DnsDuration c) (HandshakeWait c) (HandshakeStartTime c)
    (HandshakeDuration c) (SocketConnectStartTime c) (SocketDuration c) (RequestHeadersStartTimestamp c) (RequestDuration c)
    start duration.
Definition set_url (url : text) (c : NetworkRequestCommon) : NetworkRequestCommon :=
  mkCommon url (StartTimestamp c) (DnsWait c) (DnsStartTime c) (DnsDuration c) (HandshakeWait c) (HandshakeStartTime c)
    (HandshakeDuration c) (SocketConnectStartTime c) (SocketDuration c) (RequestHeadersStartTimestamp c) (RequestDuration c)
    (ResponseContentStartTimestamp c) (ResponseDuration c).

Section provider.
Context (cfg : NetworkConfig).

(** ** Start and stop *)

(** The updated request when it is kept. *)
Definition CaptureThreadInfo (c : Caller) (info : NetworkRequestInfo) (s : NetworkProvider) :
    NetworkProvider * option NetworkRequestInfo :=
  match CurrentThreadInfo c with
  | None => (s, None)
  | Some threadInfo =>
    if negb (ForceHttpSampling cfg) && negb (th_HasTraceContext threadInfo) then (s, None)
    else if (zlen (walked_frames c) =? 0) && (failureCount s mod 100 =? 0) then (count_failure s, None)
    else (s, Some (mkRequest (common info) (walked_context c) (th_AppDomainId threadInfo) (walked_frames c) (Some threadInfo)
                     (DnsResolutionSuccess info) (HandshakeError info) (Error info) (Redirect info)))
  end.

Definition OnRequestStart (timestamp : Z) (guid : bytes) (url : text) (c : Caller) (s : NetworkProvider) :
    option NetworkProvider :=
  r ← GetRootActivity guid true;
  match r with
  | None => Some s
  | Some activity =>
    let s := set_requests (delete activity (_requests s)) s in
    let '(s, info) := CaptureThreadInfo c (new_NetworkRequestInfo url timestamp) s in
    match info with
    | Some info => Some (set_requests (<[activity := info]> (_requests s)) s)
    | None => Some s
    end
  end.

(** The sample, and the durations that are added to the metrics. *)
Definition FillRawSample (info : NetworkRequestInfo) (timestamp : Z) (end_thread : Thread) (redirected : bool) : RawNetworkSample :=
  let plus (f : NetworkRequestCommon -> Z) : Z := f (common info) + match Redirect info with Some r => f r | None => 0 end in
  mkNetworkSample timestamp (r_AppDomainId info) (r_TraceContext info) (StartThreadInfo info) (StartCallStack info)
    (Url (common info)) (StartTimestamp (common info)) 0 [] (th_ProfileThreadId end_thread) (th_ProfileThreadName end_thread)
    [] redirected
    (plus DnsWait) (plus DnsDuration) (DnsResolutionSuccess info) (plus SocketDuration)
    (plus HandshakeWait) (plus HandshakeDuration) [] (plus RequestDuration) (plus ResponseDuration).

Definition add_metrics (x : RawNetworkSample) (s : NetworkProvider) : NetworkProvider :=
  mkProvider (_requests s) (failureCount s) (_requestsCountMetric s) (_failedRequestsCountMetric s) (_redirectionRequestsCountMetric s)
    (_totalDurationMetric s ++ [n_Timestamp x - n_StartTimestamp x]) (_waitDurationMetric s ++ [n_DnsWait x + n_HandshakeWait x])
    (_dnsDurationMetric s ++ [n_DnsDuration x]) (_handshakeDurationMetric s ++ [n_HandshakeDuration x])
    (_requestResponseDurationMetric s ++ [n_RequestDuration x + n_ResponseDuration x]).

Definition count_request (failed redirected : bool) (s : NetworkProvider) : NetworkProvider :=
  mkProvider (_requests s) (failureCount s) (_requestsCountMetric s + 1)
    (_failedRequestsCountMetric s + if failed then 1 else 0) (_redirectionRequestsCountMetric s + if redirected then 1 else 0)
    (_totalDurationMetric s) (_waitDurationMetric s) (_dnsDurationMetric s) (_handshakeDurationMetric s)
    (_requestResponseDurationMetric s).

(** The rest of the sample. *)
Definition complete_sample (statusCode : Z) (info : NetworkRequestInfo) (x : RawNetworkSample) : RawNetworkSample :=
  mkNetworkSample (n_Timestamp x) (n_AppDomainId x) (n_TraceContext x) (n_ThreadInfo x) (n_Stack x)
    (n_Url x) (n_StartTimestamp x) (swrap 32 statusCode) (Error info) (n_EndThreadId x) (n_EndThreadName x)
    (match Redirect info with Some r => Url r | None => n_RedirectUrl x end)
    (match Redirect info with Some _ => true | None => n_HasBeenRedirected x end)
    (n_DnsWait x) (n_DnsDuration x) (n_DnsSuccess x) (n_SocketConnectDuration x)
    (n_HandshakeWait x) (n_HandshakeDuration x) (HandshakeError info) (n_RequestDuration x) (n_ResponseDuration x).

Definition OnRequestStop (timestamp : Z) (guid : bytes) (statusCode : Z) (c : Caller) (s : NetworkProvider) :
    option (NetworkProvider * option RawNetworkSample) :=
  r ← GetRootActivity guid true;
  match r with
  | None => Some (s, None)
  | Some activity =>
    match _requests s !! activity with
    | None => Some (s, None)
    | Some info =>
      let s' := set_requests (delete activity (_requests s)) s in
      if negb (ForceHttpSampling cfg) && (timestamp - StartTimestamp (common info) <? _requestDurationThreshold cfg)
      then Some (s', None)
      else
        currentThreadInfo ← CurrentThreadInfo c;
        let rawSample := FillRawSample info timestamp currentThreadInfo (uninitialised c) in
        let failed := (statusCode <? 200) || (299 <? statusCode) in
        let redirected := match Redirect info with Some _ => true | None => false end in
        Some (count_request failed redirected (add_metrics rawSample s'), Some (complete_sample statusCode info rawSample))
    end
  end.

(** ** Phases *)

Definition MonitorRequest (guid : bytes) (isRoot : bool) (s : NetworkProvider) : option (option (bytes * NetworkRequestInfo)) :=
  r ← GetRootActivity guid isRoot;
  match r with
  | None => Some None
  | Some activity => Some ((fun info => (activity, info)) <$> _requests s !! activity)
  end.

Definition on_request (guid : bytes) (isRoot : bool) (f : NetworkRequestInfo -> NetworkRequestInfo) (s : NetworkProvider) :
    option NetworkProvider :=
  m ← MonitorRequest guid isRoot s;
  match m with
  | None => Some s
  | Some (activity, info) => Some (set_requests (<[activity := f info]> (_requests s)) s)
  end.

Definition onRequestFailed (message : text) : NetworkRequestInfo -> NetworkRequestInfo :=
  with_error message.

Definition OnRequestFailed (guid : bytes) (message : text) : NetworkProvider -> option NetworkProvider := on_request guid true (onRequestFailed message).

Definition onRedirect (redirectUrl : text) : NetworkRequestInfo -> NetworkRequestInfo :=
  fun info =>
    match Redirect info with
    | None => info
    | Some r =>
      let url := match Url r with [] => redirectUrl | u => u ++ chars " | " ++ redirectUrl end in
      with_redirect (Some (set_url url r)) info
    end.

Definition OnRedirect (guid : bytes) (redirectUrl : text) : NetworkProvider -> option NetworkProvider := on_request guid true (onRedirect redirectUrl).

Definition onDnsResolutionStart (timestamp : Z) : NetworkRequestInfo -> NetworkRequestInfo :=
  on_part (fun c => set_dns (DnsWait c) timestamp (DnsDuration c) c).

Definition OnDnsResolutionStart (timestamp : Z) (guid : bytes) : NetworkProvider -> option NetworkProvider := on_request guid false (onDnsResolutionStart timestamp).

Definition onDnsResolutionStop (timestamp : Z) (success : bool) : NetworkRequestInfo -> NetworkRequestInfo :=
  fun info => with_dns_success success
    (on_part (fun c => set_dns (DnsStartTime c - StartTimestamp c) (DnsStartTime c) (timestamp - DnsStartTime c) c) info).

Definition OnDnsResolutionStop (timestamp : Z) (guid : bytes) (success : bool) : NetworkProvider -> option NetworkProvider := on_request guid false (onDnsResolutionStop timestamp success).

Definition onConnectStart (timestamp : Z) : NetworkRequestInfo -> NetworkRequestInfo :=
  on_part (fun c => set_socket timestamp (SocketDuration c) c).

Definition OnConnectStart (timestamp : Z) (guid : bytes) : NetworkProvider -> option NetworkProvider := on_request guid false (onConnectStart timestamp).

Definition onConnectStop (timestamp : Z) : NetworkRequestInfo -> NetworkRequestInfo :=
  on_part (fun c => set_socket (SocketConnectStartTime c) (timestamp - SocketConnectStartTime c) c).

Definition OnConnectStop (timestamp : Z) (guid : bytes) : NetworkProvider -> option NetworkProvider := on_request guid false (onConnectStop timestamp).

Definition onConnectFailed (timestamp : Z) (message : text) : NetworkRequestInfo -> NetworkRequestInfo :=
  fun info => with_error message
    (on_part (fun c => set_socket (SocketConnectStartTime c) (timestamp - SocketConnectStartTime c) c) info).

Definition OnConnectFailed (timestamp : Z) (guid : bytes) (message : text) : NetworkProvider -> option NetworkProvider := on_request guid false (onConnectFailed timestamp message).

Definition onRequestHeaderStart (timestamp : Z) : NetworkRequestInfo -> NetworkRequestInfo :=
  on_part (fun c => set_request timestamp (RequestDuration c) c).

Definition OnRequestHeaderStart (timestamp : Z) (guid : bytes) : NetworkProvider -> option NetworkProvider := on_request guid false (onRequestHeaderStart timestamp).

Definition IsRedirect (statusCode : Z) : bool := (300 <=? statusCode) && (statusCode <=? 308).

Definition onResponseHeaderStop (timestamp : Z) (statusCode : Z) : NetworkRequestInfo -> NetworkRequestInfo :=
  fun info =>
    match Redirect info with
    | None =>
      let c := common info in
      let info := with_common (set_request (RequestHeadersStartTimestamp c) (timestamp - RequestHeadersStartTimestamp c) c) info in
      if IsRedirect statusCode then with_redirect (Some (new_NetworkRequestCommon [] timestamp)) info else info
    | Some r =>
      with_redirect (Some (set_request (RequestHeadersStartTimestamp r)
        (RequestDuration r + (timestamp - RequestHeadersStartTimestamp r)) r)) info
    end.

Definition OnResponseHeaderStop (timestamp : Z) (guid : bytes) (statusCode : Z) : NetworkProvider -> option NetworkProvider := on_request guid false (onResponseHeaderStop timestamp statusCode).

Definition onResponseContentStart (timestamp : Z) : NetworkRequestInfo -> NetworkRequestInfo :=
  on_part (fun c => set_response timestamp (ResponseDuration c) c).

Definition OnResponseContentStart (timestamp : Z) (guid : bytes) : NetworkProvider -> option NetworkProvider := on_request guid false (onResponseContentStart timestamp).

Definition onResponseContentStop (timestamp : Z) : NetworkRequestInfo -> NetworkRequestInfo :=
  on_part (fun c => set_response (ResponseContentStartTimestamp c) (timestamp - ResponseContentStartTimestamp c) c).

Definition OnResponseContentStop (timestamp : Z) (guid : bytes) : NetworkProvider -> option NetworkProvider := on_request guid false (onResponseContentStop timestamp).

Definition onHandshakeStart (timestamp : Z) (targetHost : text) : NetworkRequestInfo -> NetworkRequestInfo :=
  on_part (fun c => set_handshake (HandshakeWait c) timestamp (HandshakeDuration c) c).

Definition OnHandshakeStart (timestamp : Z) (guid : bytes) (targetHost : text) : NetworkProvider -> option NetworkProvider := on_request guid false (onHandshakeStart timestamp targetHost).

(** The duration is that of the request itself, also when a redirected one is measured. *)
Definition UpdateHandshakeDuration (timestamp : Z) (info : NetworkRequestInfo) : NetworkRequestInfo :=
  let start := match Redirect info with None => HandshakeStartTime (common info) | Some r => HandshakeStartTime r end in
  let c := common info in
  with_common (set_handshake (HandshakeWait c) (HandshakeStartTime c) (timestamp - start) c) info.

(** From the end of the connection, of the resolution, or from the start. *)
Definition UpdateHandshakeWait : NetworkRequestInfo -> NetworkRequestInfo :=
  on_part (fun c =>
    let from := if negb (SocketConnectStartTime c =? 0) then SocketConnectStartTime c + SocketDuration c
                else if negb (DnsStartTime c =? 0) then DnsStartTime c + DnsDuration c
                else StartTimestamp c in
    set_handshake (HandshakeStartTime c - from) (HandshakeStartTime c) (HandshakeDuration c) c).

Definition onHandshakeStop (timestamp : Z) : NetworkRequestInfo -> NetworkRequestInfo :=
  fun info => UpdateHandshakeWait (UpdateHandshakeDuration timestamp info).

Definition OnHandshakeStop (timestamp : Z) (guid : bytes) : NetworkProvider -> option NetworkProvider := on_request guid false (onHandshakeStop timestamp).

Definition onHandshakeFailed (timestamp : Z) (message : text) : NetworkRequestInfo -> NetworkRequestInfo :=
  fun info => with_handshake_error message (UpdateHandshakeWait (UpdateHandshakeDuration timestamp info)).

Definition OnHandshakeFailed (timestamp : Z) (guid : bytes) (message : text) : NetworkProvider -> option NetworkProvider := on_request guid false (onHandshakeFailed timestamp message).

(** ** The listener *)

Record Event := mkEvent { e_time : Z; e_guid : bytes; e_event : NetworkEvent; e_caller : Caller }.

Definition handle (e : Event) (s : NetworkProvider) : option (NetworkProvider * option RawNetworkSample) :=
  let t := e_time e in let g := e_guid e in
  let quiet (r : option NetworkProvider) := s ← r; Some (s, None) in
  match e_event e with
  | RequestStart url => quiet (OnRequestStart t g url (e_caller e) s)
  | RequestStop statusCode => OnRequestStop t g statusCode (e_caller e) s
  | RequestFailed message => quiet (OnRequestFailed g message s)
  | Redirected url => quiet (OnRedirect g url s)
  | DnsResolutionStart => quiet (OnDnsResolutionStart t g s)
  | DnsResolutionStop ok => quiet (OnDnsResolutionStop t g ok s)
  | ConnectStart => quiet (OnConnectStart t g s)
  | ConnectStop => quiet (OnConnectStop t g s)
  | ConnectFailed message => quiet (OnConnectFailed t g message s)
  | RequestHeaderStart => quiet (OnRequestHeaderStart t g s)
  | ResponseHeaderStop statusCode => quiet (OnResponseHeaderStop t g statusCode s)
  | ResponseContentStart => quiet (OnResponseContentStart t g s)
  | ResponseContentStop => quiet (OnResponseContentStop t g s)
  | HandshakeStart host => quiet (OnHandshakeStart t g host s)
  | HandshakeStop => quiet (OnHandshakeStop t g s)
  | HandshakeFailed message => quiet (OnHandshakeFailed t g message s)
  end.

(** The key of an event: [RequestStart], [RequestStop], [RequestFailed] and [Redirect] carry the
    identifier of the request, the others that of a phase of it. *)
Definition is_root (e : NetworkEvent) : bool :=
  match e with RequestStart _ | RequestStop _ | RequestFailed _ | Redirected _ => true | _ => false end.
Definition key_of (e : Event) : option (option bytes) := GetRootActivity (e_guid e) (is_root (e_event e)).

(** The samples of a sequence of events, each with the key of the event that made it. *)
Fixpoint listen (es : list Event) (s : NetworkProvider) : option (NetworkProvider * list (option bytes * RawNetworkSample)) :=
  match es with
  | [] => Some (s, [])
  | e :: es =>
    k ← key_of e;
    '(s, x) ← handle e s;
    '(s, xs) ← listen es s;
    Some (s, match x with Some x => (k, x) :: xs | None => xs end)
  end.
End provider.

(** ** A request at a time *)

(** The identifiers are used through the theorems of [NetworkActivity]. *)
#[local] Opaque GetRootActivity.

Section requests.
Context (cfg : NetworkConfig).

(** What an event other than the first and the last does to its request. *)
Definition effect (t : Z) (e : NetworkEvent) : option (NetworkRequestInfo -> NetworkRequestInfo) :=
  match e with
  | RequestStart _ | RequestStop _ => None
  | RequestFailed message => Some (onRequestFailed message)
  | Redirected url => Some (onRedirect url)
  | DnsResolutionStart => Some (onDnsResolutionStart t)
  | DnsResolutionStop ok => Some (onDnsResolutionStop t ok)
  | ConnectStart => Some (onConnectStart t)
  | ConnectStop => Some (onConnectStop t)
  | ConnectFailed message => Some (onConnectFailed t message)
  | RequestHeaderStart => Some (onRequestHeaderStart t)
  | ResponseHeaderStop statusCode => Some (onResponseHeaderStop t statusCode)
  | ResponseContentStart => Some (onResponseContentStart t)
  | ResponseContentStop => Some (onResponseContentStop t)
  | HandshakeStart host => Some (onHandshakeStart t host)
  | HandshakeStop => Some (onHandshakeStop t)
  | HandshakeFailed message => Some (onHandshakeFailed t message)
  end.

Lemma insert_as_alter (m : gmap bytes NetworkRequestInfo) K i f : m !! K = Some i -> <[K := f i]> m = alter f K m.
Proof.
  intros Ei. apply map_eq. intros J. destruct (decide (J = K)) as [->|].
  - by rewrite lookup_insert_eq, lookup_alter_eq, Ei.
  - by rewrite lookup_insert_ne, lookup_alter_ne by done.
Qed.

Lemma alter_none (m : gmap bytes NetworkRequestInfo) K f : m !! K = None -> alter f K m = m.
Proof.
  intros Ei. apply map_eq. intros J. destruct (decide (J = K)) as [->|].
  - by rewrite lookup_alter_eq, Ei.
  - by rewrite lookup_alter_ne by done.
Qed.

Lemma handle_on_request e s f : effect (e_time e) (e_event e) = Some f ->
  handle cfg e s = (s' ← on_request (e_guid e) (is_root (e_event e)) f s; Some (s', None)).
Proof. intros Hf. unfold handle. destruct (e_event e); try discriminate Hf; injection Hf as <-; reflexivity. Qed.

Lemma on_request_spec guid b f s k : GetRootActivity guid b = Some k ->
  exists s', on_request guid b f s = Some s' /\
    _requests s' = match k with Some K => alter f K (_requests s) | None => _requests s end.
Proof.
  intros Hk. unfold on_request, MonitorRequest. rewrite Hk. cbn [mbind option_bind].
  destruct k as [K|]; [|exists s; split; reflexivity].
  destruct (_requests s !! K) as [i|] eqn:Ei; cbn [fmap option_fmap option_map mbind option_bind].
  - exists (set_requests (<[K := f i]> (_requests s)) s). split; [reflexivity|]. cbn [set_requests _requests].
    by apply insert_as_alter.
  - exists s. split; [reflexivity|]. symmetry. by apply alter_none.
Qed.

Lemma handle_effect e s k f : key_of e = Some k -> effect (e_time e) (e_event e) = Some f ->
  exists s', handle cfg e s = Some (s', None) /\
    _requests s' = match k with Some K => alter f K (_requests s) | None => _requests s end.
Proof.
  intros Hk Hf. rewrite (handle_on_request e s f Hf).
  destruct (on_request_spec (e_guid e) (is_root (e_event e)) f s k Hk) as (s' & -> & E). exists s'. split; [reflexivity|exact E].
Qed.

(** An event leaves the other requests alone. *)
Lemma handle_frame e s s' x k K : key_of e = Some k -> k <> Some K -> handle cfg e s = Some (s', x) ->
  _requests s' !! K = _requests s !! K.
Proof.
  intros Hk Hne. destruct (effect (e_time e) (e_event e)) as [f|] eqn:Hf.
  { destruct (handle_effect e s k f Hk Hf) as (s1 & -> & E). intros [= <- _]. rewrite E. destruct k; [|done].
    apply lookup_alter_ne. congruence. }
  unfold key_of in Hk. unfold handle. destruct (e_event e); try done; cbn [is_root] in Hk.
  - unfold OnRequestStart. rewrite Hk. cbn [mbind option_bind]. destruct k as [J|]; [|by intros [= <- _]].
    assert (J <> K) by congruence.
    unfold CaptureThreadInfo. destruct (CurrentThreadInfo _) as [th|]; [destruct (negb _ && _); [|destruct (_ && _)]|].
    all: cbn; intros [= <- _]; cbn; rewrite ?lookup_insert_ne, ?lookup_delete_ne by done; done.
  - unfold OnRequestStop. rewrite Hk. cbn [mbind option_bind]. destruct k as [J|]; [|by intros [= <- _]].
    assert (J <> K) by congruence. destruct (_requests s !! J) as [i|]; [|by intros [= <- _]].
    destruct (negb _ && _); [intros [= <- _]; cbn; by rewrite lookup_delete_ne|].
    destruct (CurrentThreadInfo _); [|done]. cbn. intros [= <- _]. cbn. by rewrite lookup_delete_ne.
Qed.

(** A request starts on a thread whose stack could be walked. *)
Definition walked_start (e : Event) : Prop :=
  match e_event e with RequestStart _ => walked_frames (e_caller e) <> [] | _ => True end.

(** An event depends on its own request only, when that stack could be walked. *)
Lemma handle_agree e s1 s2 K s1' x : key_of e = Some (Some K) -> walked_start e ->
  _requests s1 !! K = _requests s2 !! K -> handle cfg e s1 = Some (s1', x) ->
  exists s2', handle cfg e s2 = Some (s2', x) /\ _requests s1' !! K = _requests s2' !! K.
Proof.
  intros Hk Hw Heq. destruct (effect (e_time e) (e_event e)) as [f|] eqn:Hf.
  { destruct (handle_effect e s1 _ f Hk Hf) as (t1 & -> & E1), (handle_effect e s2 _ f Hk Hf) as (t2 & -> & E2).
    intros [= <- <-]. exists t2. split; [done|]. by rewrite E1, E2, !lookup_alter_eq, Heq. }
  unfold key_of in Hk. unfold handle. unfold walked_start in Hw. destruct (e_event e); try done; cbn [is_root] in Hk.
  - unfold OnRequestStart. rewrite Hk. cbn [mbind option_bind]. unfold CaptureThreadInfo.
    replace (zlen (walked_frames (e_caller e)) =? 0) with false by (destruct (walked_frames _); [done|symmetry; apply Z.eqb_neq; cbn; lia]).
    destruct (CurrentThreadInfo _) as [th|]; [destruct (negb _ && _)|].
    all: cbn; intros [= <- <-]; eexists; (split; [done|]); cbn; by rewrite ?lookup_insert_eq, ?lookup_delete_eq.
  - unfold OnRequestStop. rewrite Hk. cbn [mbind option_bind]. rewrite <- Heq.
    destruct (_requests s1 !! K) as [i|] eqn:Ei; [|intros [= <- <-]; exists s2; split; [done|congruence]].
    destruct (negb _ && _); [intros [= <- <-]; eexists; (split; [done|]); cbn; by rewrite !lookup_delete_eq|].
    destruct (CurrentThreadInfo _); [|done]. cbn. intros [= <- <-]. eexists. split; [done|]. cbn. by rewrite !lookup_delete_eq.
Qed.

(** The events and the samples of one request. *)
Definition own (K : bytes) (e : Event) : Prop := key_of e = Some (Some K).
#[export] Instance own_dec K e : Decision (own K e) := decide (key_of e = Some (Some K)).
Definition samples_of (K : bytes) (xs : list (option bytes * RawNetworkSample)) : list RawNetworkSample :=
  snd <$> filter (fun kx => kx.1 = Some K) xs.

Lemma listen_own K es : forall s1 s2 s1' xs, Forall walked_start (filter (own K) es) ->
  _requests s1 !! K = _requests s2 !! K -> listen cfg es s1 = Some (s1', xs) ->
  exists s2' ys, listen cfg (filter (own K) es) s2 = Some (s2', ys) /\ samples_of K xs = samples_of K ys /\
    _requests s1' !! K = _requests s2' !! K.
Proof.
  induction es as [|e es IH]; intros s1 s2 s1' xs Hw Heq; cbn [listen].
  { intros [= <- <-]. exists s2, []. done. }
  destruct (key_of e) as [k|] eqn:Hk; [|done]. cbn [mbind option_bind].
  destruct (handle cfg e s1) as [[t1 x]|] eqn:Eh; [|done]. cbn [mbind option_bind].
  destruct (listen cfg es t1) as [[u1 xs1]|] eqn:El; [|done]. cbn [mbind option_bind]. intros [= <- <-].
  rewrite filter_cons in Hw |- *. destruct (decide (own K e)) as [Ho|Ho].
  - apply Forall_cons in Hw as [Hw Hws]. destruct (handle_agree e s1 s2 K t1 x Ho Hw Heq Eh) as (t2 & Eh2 & Ht).
    destruct (IH t1 t2 u1 xs1 Hws Ht El) as (u2 & ys & El2 & Hx & Hu).
    unfold own in Ho. rewrite Hk in Ho. injection Ho as ->. cbn [listen]. rewrite Hk. cbn [mbind option_bind].
    rewrite Eh2. cbn [mbind option_bind]. rewrite El2. cbn [mbind option_bind]. eexists _, _. split; [done|]. split; [|done].
    destruct x; [|done]. unfold samples_of in *. rewrite !filter_cons, !decide_True by done. cbn. by rewrite Hx.
  - assert (Hne : k <> Some K) by (intros ->; done). pose proof (handle_frame e s1 t1 x k K Hk Hne Eh) as Ht.
    destruct (IH t1 s2 u1 xs1 Hw ltac:(congruence) El) as (u2 & ys & El2 & Hx & Hu).
    exists u2, ys. split; [done|]. split; [|done]. destruct x; [|done]. unfold samples_of in *.
    by rewrite filter_cons, decide_False by done.
Qed.







End requests.

(** ** An exchange without redirection *)

















(** ** In the order of time *)





(** ** Properties *)

(** What the provider reports of a request depends on the events of this request alone: the
    samples it makes for one key out of any stream of events of many requests, in any
    interleaving, are those it makes out of the events with this key. *)
Theorem requests_independent cfg K es s s' xs :
  Forall walked_start (filter (own K) es) -> listen cfg es s = Some (s', xs) ->
  exists s'' ys, listen cfg (filter (own K) es) s = Some (s'', ys) /\ samples_of K xs = samples_of K ys /\
    _requests s' !! K = _requests s'' !! K.
Proof. intros Hw Hl. by eapply listen_own. Qed.



(** ** Payloads *)

Section payloads.
Context (ToString : text -> text).

(** Reading a string or a number behind an offset within the payload ends there or refuses. *)
Definition within {A} (cb : Z) (r : outcome (A * Z)) : Prop :=
  match r with Ok (_, o) => 0 <= o <= cb | Malformed => True | OutOfBounds => False end.

Lemma string_within d cb o : delivered d cb -> 0 <= o <= cb -> within cb (ReadWideString d cb o).
Proof. intros Hd Ho. destruct (ReadWideString_safe d cb o Hd Ho) as [-> | (cs & -> & H)]; [done|]. cbn. lia. Qed.

Lemma number_within w d cb o : delivered d cb -> 0 <= o <= cb -> (w <= 8)%nat -> within cb (Read (uint w) d cb o).
Proof.
  intros Hd Ho Hw. assert (Hs : sizeof (uint w) = w) by (apply Nat.add_0_r).
  destruct (Read_safe (uint w) d cb o Hd Ho) as [[-> _]|(x & -> & H)]; rewrite ?Hs in *; [lia|done|]. cbn. lia.
Qed.

Lemma bind_within {A B} cb (r : outcome (A * Z)) (f : A * Z -> outcome B) :
  within cb r -> (forall x o, 0 <= o <= cb -> f (x, o) <> OutOfBounds) -> (r ≫= f) <> OutOfBounds.
Proof. intros Hr Hf. destruct r as [[x o]| |]; [by apply Hf|done|done]. Qed.

(** Whatever the bytes of an event, they are not left. *)
Lemma network_payload_in_bounds d cb listener p id : delivered d cb -> 
  ParseNetworkEvent ToString d cb listener p id <> OutOfBounds.
Proof.
  intros Hd. assert (0 <= cb) by (destruct Hd; lia). unfold ParseNetworkEvent. destruct listener; cbn [negb]; [|done].
  destruct p; try done; unfold ParseHttpEvent, ParseSocketsEvent, ParseNameResolutionEvent, ParseNetSecurityEvent; repeat case_if; try done.
  all: unfold ParseRequestStart, ParseRequestStop, ParseRequestFailed, ParseResponseHeadersStop, ParseRedirect, ParseConnectFailed,
    ParseHandshakeStart, ParseHandshakeFailed.
  all: repeat (eapply bind_within; [first [apply string_within|apply number_within]; (done || lia)|intros ? ? ?]); done.
Qed.

(** The payload of [RequestStart]. *)
Definition request_start_payload (scheme host : text) (port : Z) (path : text) : bytes :=
  wide_bytes scheme ++ wide_bytes host ++ le_bytes 4 (u32 port) ++ wide_bytes path.

Lemma request_start_decoded scheme host port path d cb :
  Forall wide_char scheme -> Forall wide_char host -> Forall wide_char path -> in_s 32 port ->
  d = request_start_payload scheme host port path -> delivered d cb ->
  ParseNetworkEvent ToString d cb true Http 1 = Ok (RequestStart (request_url ToString scheme host port path)).
Proof.
  intros Hs Hh Hp Hport -> Hd. cbn. unfold ParseRequestStart, request_start_payload in *.
  pose proof (ReadWideString_app [] scheme (wide_bytes host ++ le_bytes 4 (u32 port) ++ wide_bytes path) cb Hs Hd) as E1.
  cbn [app length] in E1. change (Z.of_nat 0) with 0 in E1. rewrite E1. cbn [mbind outcome_bind].
  rewrite ReadWideString_app by done. cbn [mbind outcome_bind].
  assert (Hu : in_u (8 * Z.of_nat 4) (u32 port)) by (apply wrap_range; lia).
  rewrite !app_assoc in Hd |- *. rewrite <- !(app_assoc (wide_bytes scheme ++ wide_bytes host)) in Hd |- *.
  rewrite Read_uint_app by done. cbn [mbind outcome_bind].
  pose proof (ReadWideString_app ((wide_bytes scheme ++ wide_bytes host) ++ le_bytes 4 (u32 port)) path [] cb Hp) as E4.
  rewrite app_nil_r, <- !app_assoc in E4. rewrite <- !app_assoc in Hd |- *.
  rewrite <- (app_assoc (wide_bytes scheme) (wide_bytes host) (le_bytes 4 (u32 port))), E4 by done. cbn [mbind outcome_bind].
  do 3 f_equal. rewrite <- (swrap_small 32 port) at 2 by (done || lia). unfold swrap, wrap. by rewrite Z.mod_mod.
Qed.
End payloads.

(** ** Examples *)

Module Example_network.
Definition worker : Thread := mkThread 1 true 7 [49] [].
Definition here (frames : list Z) : Caller := mkCaller (Some worker) zero_context frames false.
Definition config : NetworkConfig := mkNetworkConfig false 50.

(** The identifiers of the request 1/1 and of its phases 1/1/n, and of the request 1/2. *)
Definition guid (path : list Z) : bytes := default [] (encode path).
Definition at_ (t : Z) (path : list Z) (e : NetworkEvent) : Event := mkEvent t (guid path) e (here [100; 200]).


(** The events of the exchange, with those of another request in between. *)
Definition stream : list Event :=
  [at_ 1000 [1; 1] (RequestStart [104]); at_ 1005 [1; 2] (RequestStart [105]);
   at_ 1010 [1; 1; 1] DnsResolutionStart; at_ 1020 [1; 1; 1] (DnsResolutionStop true); at_ 1021 [1; 2; 1] DnsResolutionStart;
   at_ 1022 [1; 1; 2] ConnectStart; at_ 1030 [1; 1; 2] ConnectStop;
   at_ 1035 [1; 1; 3] (HandshakeStart []); at_ 1050 [1; 1; 3] HandshakeStop;
   at_ 1055 [1; 1; 4] RequestHeaderStart; at_ 1080 [1; 1; 5] (ResponseHeaderStop 200);
   at_ 1081 [1; 1; 6] ResponseContentStart; at_ 1090 [1; 1; 6] ResponseContentStop;
   at_ 1095 [1; 2] (RequestStop 500); at_ 1100 [1; 1] (RequestStop 200)].

Example two_samples :
  match listen config stream new_NetworkProvider with
  | Some (s, xs) => zlen xs = 2 /\ _failedRequestsCountMetric s = 1 /\ _totalDurationMetric s = [90; 100]
  | None => False
  end.
Proof. vm_compute. done. Qed.

(** The handshake of a redirected request replaces that of the request. *)
Definition redirected : list Event :=
  [at_ 1000 [1; 1] (RequestStart [104]); at_ 1010 [1; 1; 1] (HandshakeStart []); at_ 1040 [1; 1; 1] HandshakeStop;
   at_ 1045 [1; 1; 2] RequestHeaderStart; at_ 1050 [1; 1; 3] (ResponseHeaderStop 301); at_ 1051 [1; 1] (Redirected [105]);
   at_ 1060 [1; 1; 4] (HandshakeStart []); at_ 1067 [1; 1; 4] HandshakeStop;
   at_ 1070 [1; 1; 5] RequestHeaderStart; at_ 1080 [1; 1; 6] (ResponseHeaderStop 200); at_ 1100 [1; 1] (RequestStop 200)].

Example handshake_lost :
  match listen config redirected new_NetworkProvider with
  | Some (_, [(_, x)]) => n_HandshakeDuration x = 7 /\ n_RequestDuration x = 15 /\ n_RedirectUrl x = [105]
  | _ => False
  end.
Proof. vm_compute. done. Qed.

(** After the first stack that cannot be walked, requests are kept without any frame. *)
Definition unwalked (t : Z) (path : list Z) (e : NetworkEvent) : Event := mkEvent t (guid path) e (here []).
Example empty_stack_kept :
  match listen config [unwalked 1 [1; 1] (RequestStart []); unwalked 2 [1; 2] (RequestStart []);
                       unwalked 100 [1; 1] (RequestStop 200); unwalked 101 [1; 2] (RequestStop 200)] new_NetworkProvider with
  | Some (_, [(_, x)]) => n_StartTimestamp x = 2 /\ n_Stack x = []
  | _ => False
  end.
Proof. vm_compute. done. Qed.

(** A request that was not redirected has the label if the memory of the sample says so. *)
Example redirection_uninitialised :
  match listen config [at_ 1 [1; 1] (RequestStart []);
                       mkEvent 100 (guid [1; 1]) (RequestStop 200) (mkCaller (Some worker) zero_context [1] true)] new_NetworkProvider with
  | Some (_, [(_, x)]) => RequestRedirectUrl [] ∈ (OnTransform x).2
  | _ => False
  end.
Proof. vm_compute. repeat constructor. Qed.
End Example_network.





