(* ===== verification/PprofBuilder.v ===== *)
(** * Building pprof profiles

    Model of [PprofBuilder.cpp], and of the data of [Sample.h] it reads: samples are added
    to a profile whose strings, functions and locations are interned, and the profile is
    serialized and started again at every export.

    The messages of the pprof format ([google::v1]) are generated code: their fields are
    the records below, and [SerializeAsString] is a parameter.  The reader of the second
    part follows the published format: identifiers are looked up, an index of a string is a
    position of the string table.

    [None] is the dereference of a null pointer.  The scratch buffer is local to the calls
    that fill it. *)
From stdpp Require Import base gmap list strings.
From S2P Require Import Prelude ThreadInfo.

(** ** Samples *)

Inductive ProfileType :=
| ProcessCpu | CpuSample | GcThreadsCpu | WallTime | Alloc | AllocFramework | Lock | Exception
| Network | Heap | GcCpu | GcStw | ThreadLifetime.

#[export] Instance ProfileType_eq_dec : EqDecision ProfileType.
Proof. solve_decision. Defined.

Record SampleValueType := mkValueType {
  Name : string; Unit : string; Type_ : ProfileType; Index : Z }.

Record FrameInfoView := mkFrame { ModuleName : string; Frame : string; Filename : string; StartLine : Z }.

(** A string label is a counted string, which is null when there is no table of strings. *)
Inductive Label :=
| StringLabel (first : string) (second : option string)
| NumericLabel (first : string) (second : Z).

Record Sample := mkSample {
  _timestamp : Z; _callstack : list FrameInfoView; _values : list Z; _allLabels : list Label;
  _traceContext : TraceContext; _runtimeId : string; _leafFrame : string }.

(** ** Messages *)

Record ValueType := mkVT { vt_type : Z; vt_unit : Z }.
Record PLabel := mkPLabel { key : Z; str : Z }.
Record PSample := mkPSample { location_id : list Z; value : list Z; label : list PLabel }.
Record Function_ := mkFunction { fn_id : Z; fn_name : Z; fn_filename : Z }.
Record Location := mkLocation { loc_id : Z; line : list Z }.       (* the functions of the lines *)

Record Profile := mkProfile {
  sample_type : list ValueType; sample : list PSample; location : list Location;
  function : list Function_; string_table : list string; time_nanos : Z; duration_nanos : Z;
  period_type : ValueType; period : Z }.

#[export] Instance ValueType_eq_dec : EqDecision ValueType.
Proof. solve_decision. Defined.
#[export] Instance PLabel_eq_dec : EqDecision PLabel.
Proof. solve_decision. Defined.
#[export] Instance PSample_eq_dec : EqDecision PSample.
Proof. solve_decision. Defined.
#[export] Instance Function__eq_dec : EqDecision Function_.
Proof. solve_decision. Defined.
#[export] Instance Location_eq_dec : EqDecision Location.
Proof. solve_decision. Defined.
#[export] Instance Profile_eq_dec : EqDecision Profile.
Proof. solve_decision. Defined.

Definition empty_profile : Profile := mkProfile [] [] [] [] [] 0 0 (mkVT 0 0) 0.

(** ** The builder *)

Record PprofBuilder := mkBuilder {
  _samplesCount : Z; _profile : Profile; _strings : gmap string Z; _locations : gmap (Z * Z) Z;
  _sampleTypeDefinitions : list SampleValueType;
  _span_id_str_index : Z; _trace_id_str_index : Z }.

Definition ClassLeafPrefix : string := "cls:".
Definition spanIDLabelName : string := "span_id".
Definition traceIDLabelName : string := "trace_id".

Definition with_profile (f : Profile -> Profile) (b : PprofBuilder) : PprofBuilder :=
  mkBuilder (_samplesCount b) (f (_profile b)) (_strings b) (_locations b) (_sampleTypeDefinitions b)
    (_span_id_str_index b) (_trace_id_str_index b).

Definition add_string_table (s : string) (p : Profile) : Profile :=
  mkProfile (sample_type p) (sample p) (location p) (function p) (string_table p ++ [s])
    (time_nanos p) (duration_nanos p) (period_type p) (period p).

Definition add_location_function (l : Location) (f : Function_) (p : Profile) : Profile :=
  mkProfile (sample_type p) (sample p) (location p ++ [l]) (function p ++ [f]) (string_table p)
    (time_nanos p) (duration_nanos p) (period_type p) (period p).

Definition set_samples (f : list PSample -> list PSample) (p : Profile) : Profile :=
  mkProfile (sample_type p) (f (sample p)) (location p) (function p) (string_table p)
    (time_nanos p) (duration_nanos p) (period_type p) (period p).

Definition add_sample_type (t : ValueType) (p : Profile) : Profile :=
  mkProfile (sample_type p ++ [t]) (sample p) (location p) (function p) (string_table p)
    (time_nanos p) (duration_nanos p) (period_type p) (period p).

Definition set_period (t : ValueType) (v : Z) (p : Profile) : Profile :=
  mkProfile (sample_type p) (sample p) (location p) (function p) (string_table p)
    (time_nanos p) (duration_nanos p) t v.

Definition set_times (start duration : Z) (p : Profile) : Profile :=
  mkProfile (sample_type p) (sample p) (location p) (function p) (string_table p)
    start duration (period_type p) (period p).

(** [pSample] is the last sample of the profile. *)
Definition on_pSample (f : PSample -> PSample) (b : PprofBuilder) : PprofBuilder :=
  with_profile (set_samples (fun l => alter f (pred (length l)) l)) b.

Definition add_location_id (id : Z) (s : PSample) : PSample :=
  mkPSample (location_id s ++ [id]) (value s) (label s).
Definition add_value (v : Z) (s : PSample) : PSample :=
  mkPSample (location_id s) (value s ++ [v]) (label s).
Definition add_label (k v : Z) (s : PSample) : PSample :=
  mkPSample (location_id s) (value s) (label s ++ [mkPLabel k v]).

Definition AddString (keyNotOwned : string) (b : PprofBuilder) : Z * PprofBuilder :=
  match _strings b !! keyNotOwned with
  | Some id => (id, b)
  | None =>
      let id := zlen (string_table (_profile b)) in
      let b := with_profile (add_string_table keyNotOwned) b in
      (id, mkBuilder (_samplesCount b) (_profile b) (<[keyNotOwned := id]> (_strings b)) (_locations b)
             (_sampleTypeDefinitions b) (_span_id_str_index b) (_trace_id_str_index b))
  end.

Definition AddLocation (functionName moduleName : Z) (b : PprofBuilder) : Z * PprofBuilder :=
  let loc := (moduleName, functionName) in
  match _locations b !! loc with
  | Some id => (id, b)
  | None =>
      let id := zlen (location (_profile b)) + 1 in
      let pFunction := mkFunction id functionName moduleName in
      let pLocation := mkLocation id [id] in
      let b := with_profile (add_location_function pLocation pFunction) b in
      (id, mkBuilder (_samplesCount b) (_profile b) (_strings b) (<[loc := id]> (_locations b))
             (_sampleTypeDefinitions b) (_span_id_str_index b) (_trace_id_str_index b))
  end.

(** *** Identifiers of spans and traces *)

Definition lut : string := "0123456789abcdef".
Definition lut_get (i : Z) : Ascii.ascii := default Ascii.zero (String.get (Z.to_nat i) lut).

Fixpoint hex_string (src : list Z) : string :=
  match src with
  | [] => ""
  | v :: src => String (lut_get (Z.shiftr v 4)) (String (lut_get (Z.land v 15)) (hex_string src))
  end.

Definition AddHexString (src : list Z) (b : PprofBuilder) : Z * PprofBuilder :=
  AddString (hex_string src) b.

(** The bytes of a [uint64_t] in the memory of a little-endian machine. *)
Definition as_bytes (v : Z) : list Z :=
  (fun i => Z.land (Z.shiftr v (8 * Z.of_nat i)) 255) <$> seq 0 8.

Definition AddTraceContext (s : Sample) (b : PprofBuilder) : PprofBuilder :=
  let ctx := _traceContext s in
  if _currentLocalRootSpanId ctx =? 0 then b
  else
    let '(spanIdStr, b) := AddHexString (as_bytes (_currentLocalRootSpanId ctx)) b in
    let '(traceIdStr, b) :=
      AddHexString (as_bytes (_currentTraceIdHi ctx) ++ as_bytes (_currentTraceIdLo ctx)) b in
    let b := on_pSample (add_label (_span_id_str_index b) spanIdStr) b in
    on_pSample (add_label (_trace_id_str_index b) traceIdStr) b.

(** *** Samples *)

(** The lambdas [addLocation] and [addFrame]. *)
Definition addLocation (frame module : string) (b : PprofBuilder) : PprofBuilder :=
  let '(moduleNameStringId, b) := AddString module b in
  let '(functionNameStringId, b) := AddString frame b in
  let '(locId, b) := AddLocation functionNameStringId moduleNameStringId b in
  on_pSample (add_location_id locId) b.

Definition addFrame (frame : FrameInfoView) (b : PprofBuilder) : PprofBuilder :=
  addLocation (Frame frame) (ModuleName frame) b.

Definition addLeaf (frame : string) (b : PprofBuilder) : PprofBuilder :=
  if decide (frame = "") then b else addLocation (ClassLeafPrefix +:+ frame) "" b.

Definition addLabel (l : Label) (b : PprofBuilder) : option PprofBuilder :=
  match l with
  | StringLabel first second =>
      let '(k, b) := AddString first b in
      second ← second;
      let '(v, b) := AddString second b in
      Some (on_pSample (add_label k v) b)
  | NumericLabel _ _ => Some b
  end.

Fixpoint addLabels (ls : list Label) (b : PprofBuilder) : option PprofBuilder :=
  match ls with
  | [] => Some b
  | l :: ls => b ← addLabel l b; addLabels ls b
  end.

Definition AddSample (s : Sample) (values : list Z) (b : PprofBuilder) : option PprofBuilder :=
  let b := with_profile (set_samples (fun l => l ++ [mkPSample [] [] []])) b in
  let b := AddTraceContext s b in
  let b := addLeaf (_leafFrame s) b in
  let b := foldl (fun b frame => addFrame frame b) b (_callstack s) in
  let b := foldl (fun b v => on_pSample (add_value v) b) b values in
  b ← addLabels (_allLabels s) b;
  Some (mkBuilder (_samplesCount b + 1) (_profile b) (_strings b) (_locations b) (_sampleTypeDefinitions b)
          (_span_id_str_index b) (_trace_id_str_index b)).

(** *** Reset and export *)

Definition isMemoryProfile (types : list SampleValueType) : bool :=
  match types with
  | [] => false
  | t :: _ => match Type_ t with Alloc | AllocFramework | Heap => true | _ => false end
  end.

Definition addSampleType (b : PprofBuilder) (t : SampleValueType) : PprofBuilder :=
  let '(unit, b) := AddString (Unit t) b in
  let '(name, b) := AddString (Name t) b in
  with_profile (add_sample_type (mkVT name unit)) b.

Definition addPeriodType (b : PprofBuilder) : PprofBuilder :=
  let '(t, u) := if isMemoryProfile (_sampleTypeDefinitions b) then ("space", "bytes") else ("cpu", "nanoseconds") in
  let '(t, b) := AddString t b in
  let '(u, b) := AddString u b in
  with_profile (set_period (mkVT t u) 1) b.

Definition Reset (b : PprofBuilder) : PprofBuilder :=
  let b := mkBuilder 0 empty_profile ∅ ∅ (_sampleTypeDefinitions b) (_span_id_str_index b) (_trace_id_str_index b) in
  let '(_, b) := AddString "" b in
  let '(span, b) := AddString spanIDLabelName b in
  let '(trace, b) := AddString traceIDLabelName b in
  let b := mkBuilder (_samplesCount b) (_profile b) (_strings b) (_locations b) (_sampleTypeDefinitions b) span trace in
  addPeriodType (foldl addSampleType b (_sampleTypeDefinitions b)).

Definition new_PprofBuilder (types : list SampleValueType) : PprofBuilder :=
  Reset (mkBuilder 0 empty_profile ∅ ∅ types 0 0).

Section build.
(** Serialized messages, and the serializer of the message library. *)
Context {bytes : Type} (no_bytes : bytes) (SerializeAsString : Profile -> bytes).

(** Times are in milliseconds. *)
Definition Build (startTime endTime : Z) (b : PprofBuilder) : bytes * PprofBuilder :=
  if _samplesCount b =? 0 then (no_bytes, b)
  else
    let startNanos := startTime * 1000000 in
    let durationNanos := (endTime - startTime) * 1000000 in
    let b := with_profile (set_times startNanos durationNanos) b in
    (SerializeAsString (_profile b), Reset b).
End build.

(** ** Reading a profile *)

Definition read_string (p : Profile) (i : Z) : option string := zget (string_table p) i.

Definition read_location (p : Profile) (id : Z) : option (string * string) :=
  '(_, l) ← list_find (fun l => loc_id l = id) (location p);
  match line l with
  | [fid] =>
      '(_, f) ← list_find (fun f => fn_id f = fid) (function p);
      name ← read_string p (fn_name f);
      file ← read_string p (fn_filename f);
      Some (name, file)
  | _ => None
  end.

Definition read_label (p : Profile) (l : PLabel) : option (string * string) :=
  k ← read_string p (key l); v ← read_string p (str l); Some (k, v).

Record SampleData := mkData {
  d_stack : list (string * string); d_values : list Z; d_labels : list (string * string) }.

Definition read_sample (p : Profile) (s : PSample) : option SampleData :=
  stack ← mapM (read_location p) (location_id s);
  labels ← mapM (read_label p) (label s);
  Some (mkData stack (value s) labels).

Definition read_type (p : Profile) (t : ValueType) : option (string * string) :=
  n ← read_string p (vt_type t); u ← read_string p (vt_unit t); Some (n, u).

Record ProfileData := mkProfileData {
  d_types : list (string * string); d_samples : list SampleData; d_period : (string * string) * Z;
  d_start : Z; d_duration : Z }.

Definition read_profile (p : Profile) : option ProfileData :=
  guard (zget (string_table p) 0 = Some "");;
  types ← mapM (read_type p) (sample_type p);
  samples ← mapM (read_sample p) (sample p);
  t ← read_type p (period_type p);
  Some (mkProfileData types samples (t, period p) (time_nanos p) (duration_nanos p)).

(** What a sample says, without the tables. *)
Definition trace_labels (c : TraceContext) : list (string * string) :=
  if _currentLocalRootSpanId c =? 0 then []
  else [(spanIDLabelName, hex_string (as_bytes (_currentLocalRootSpanId c)));
        (traceIDLabelName, hex_string (as_bytes (_currentTraceIdHi c) ++ as_bytes (_currentTraceIdLo c)))].

Definition string_label (l : Label) : list (string * string) :=
  match l with StringLabel k (Some v) => [(k, v)] | _ => [] end.

Definition leaf_frames (leaf : string) : list (string * string) :=
  if decide (leaf = "") then [] else [(ClassLeafPrefix +:+ leaf, "")].

Definition sample_data (s : Sample) (values : list Z) : SampleData :=
  mkData (leaf_frames (_leafFrame s) ++ ((fun f => (Frame f, ModuleName f)) <$> _callstack s)) values
    (trace_labels (_traceContext s) ++ (_allLabels s ≫= string_label)).

(** ** Interning *)

Section interning.
Context `{Countable K}.

(** The map gives every entry of the table its position, counted from [base]. *)
Definition interned (m : gmap K Z) (l : list K) (base : Z) : Prop :=
  forall k i, m !! k = Some i <-> zget l (i - base) = Some k.

Lemma interned_empty base : interned ∅ [] base.
Proof.
  intros k i. rewrite lookup_empty. split; [done|].
  unfold zget. case_if; [done|]. by rewrite lookup_nil.
Qed.

Lemma zget_snoc {A} (l : list A) x i y :
  zget (l ++ [x]) i = Some y <-> zget l i = Some y \/ (i = zlen l /\ y = x).
Proof.
  unfold zget. destruct (Z.ltb_spec i 0).
  - split; [done|]. intros [|[-> _]]; [done|lia].
  - rewrite lookup_app. destruct (l !! Z.to_nat i) as [z|] eqn:E.
    + pose proof (lookup_lt_Some _ _ _ E). split; [by left|]. intros [|[-> _]]; [done|lia].
    + apply lookup_ge_None in E. rewrite list_lookup_singleton_Some. split.
      * intros [? <-]. right. split; [lia|done].
      * intros [|[-> ->]]; [done|]. split; [lia|done].
Qed.

Lemma interned_snoc m l base k :
  interned m l base -> m !! k = None -> interned (<[k := zlen l + base]> m) (l ++ [k]) base.
Proof.
  intros Hm Hk k' i. rewrite zget_snoc, lookup_insert_Some. specialize (Hm k' i). rewrite <- Hm. split.
  - intros [[<- <-]|[? ?]]; [right; split; [lia|done]|by left].
  - intros [Hi|[Hi ->]].
    + right. split; [|done]. intros ->. congruence.
    + left. split; [done|lia].
Qed.
End interning.

(** ** Invariant of the tables *)

Definition fn_key (f : Function_) : Z * Z := (fn_filename f, fn_name f).

Definition function_ok (p : Profile) (i : nat) (f : Function_) : Prop :=
  fn_id f = Z.of_nat i + 1 /\ is_Some (read_string p (fn_name f)) /\ is_Some (read_string p (fn_filename f)).

Record tables_ok (b : PprofBuilder) : Prop := {
  strings_interned : interned (_strings b) (string_table (_profile b)) 0;
  locations_interned : interned (_locations b) (fn_key <$> function (_profile b)) 1;
  functions_ok : forall i f, function (_profile b) !! i = Some f -> function_ok (_profile b) i f;
  locations_aligned : location (_profile b) = (fun f => mkLocation (fn_id f) [fn_id f]) <$> function (_profile b) }.

(** The tables of a profile only grow. *)
Record extends (p p' : Profile) : Prop := {
  ext_strings : string_table p `prefix_of` string_table p';
  ext_locations : location p `prefix_of` location p';
  ext_functions : function p `prefix_of` function p' }.

#[export] Instance extends_preorder : PreOrder extends.
Proof.
  split; [by split|]. intros p q r [] []. by split; etrans.
Qed.

(** Every field but the tables. *)
Record same_header (p p' : Profile) : Prop := {
  same_types : sample_type p' = sample_type p;
  same_period_type : period_type p' = period_type p;
  same_period : period p' = period p }.

#[export] Instance same_header_preorder : PreOrder same_header.
Proof. split; [by split|]. intros p q r [] []. split; congruence. Qed.

Record same_rest (b b' : PprofBuilder) : Prop := {
  same_header_rest : same_header (_profile b) (_profile b');
  same_count : _samplesCount b' = _samplesCount b;
  same_definitions : _sampleTypeDefinitions b' = _sampleTypeDefinitions b;
  same_span : _span_id_str_index b' = _span_id_str_index b;
  same_trace : _trace_id_str_index b' = _trace_id_str_index b }.

#[export] Instance same_rest_preorder : PreOrder same_rest.
Proof.
  split; [by split|]. intros p q r [] []. split; [by etrans|congruence..].
Qed.

(** [b'] is [b] with more interned entries. *)
Record grows (b b' : PprofBuilder) : Prop := {
  grows_ok : tables_ok b';
  grows_extends : extends (_profile b) (_profile b');
  grows_rest : same_rest b b' }.

Lemma grows_refl b : tables_ok b -> grows b b.
Proof. by split. Qed.

Lemma grows_trans b1 b2 b3 : grows b1 b2 -> grows b2 b3 -> grows b1 b3.
Proof. intros [] []. split; [done|by etrans..]. Qed.

(** *** Reading is monotone *)

Lemma zget_prefix {A} (l l' : list A) i x : l `prefix_of` l' -> zget l i = Some x -> zget l' i = Some x.
Proof.
  intros [k ->]. unfold zget. case_if; [done|]. intros Hx. by apply lookup_app_l_Some.
Qed.

Lemma list_find_prefix {A} (P : A -> Prop) `{!forall x, Decision (P x)} (l l' : list A) r :
  l `prefix_of` l' -> list_find P l = Some r -> list_find P l' = Some r.
Proof. intros [k ->] E. destruct r. by apply list_find_app_l. Qed.

Section mono.
Context (p p' : Profile) (Hext : extends p p').

Lemma read_string_mono i s : read_string p i = Some s -> read_string p' i = Some s.
Proof. apply zget_prefix, Hext. Qed.

Lemma read_location_mono i l : read_location p i = Some l -> read_location p' i = Some l.
Proof.
  unfold read_location. destruct Hext as [_ Hl Hf].
  intros ([j loc] & Hj & E)%bind_Some. rewrite (list_find_prefix _ _ _ _ Hl Hj). simpl in *.
  destruct (line loc) as [|fid [|??]]; [done| |done].
  apply bind_Some in E as ([j' f] & Hj' & E). rewrite (list_find_prefix _ _ _ _ Hf Hj'). simpl in *.
  apply bind_Some in E as (n & Hn & E). rewrite (read_string_mono _ _ Hn). simpl in *.
  apply bind_Some in E as (m & Hm & E). by rewrite (read_string_mono _ _ Hm).
Qed.

Lemma read_label_mono l r : read_label p l = Some r -> read_label p' l = Some r.
Proof.
  unfold read_label. intros (k & Hk & (v & Hv & E)%bind_Some)%bind_Some.
  by rewrite (read_string_mono _ _ Hk), (read_string_mono _ _ Hv).
Qed.

Lemma read_type_mono t r : read_type p t = Some r -> read_type p' t = Some r.
Proof.
  unfold read_type. intros (k & Hk & (v & Hv & E)%bind_Some)%bind_Some.
  by rewrite (read_string_mono _ _ Hk), (read_string_mono _ _ Hv).
Qed.

Lemma mapM_mono {A B} (f g : A -> option B) l r :
  (forall x y, f x = Some y -> g x = Some y) -> mapM f l = Some r -> mapM g l = Some r.
Proof. rewrite !mapM_Some. intros Hfg Hl. eapply Forall2_impl; eauto. Qed.

Lemma read_sample_mono s d : read_sample p s = Some d -> read_sample p' s = Some d.
Proof.
  unfold read_sample. intros (st & Hst & (la & Hla & E)%bind_Some)%bind_Some.
  rewrite (mapM_mono _ _ _ _ read_location_mono Hst). simpl.
  by rewrite (mapM_mono _ _ _ _ read_label_mono Hla).
Qed.
End mono.

(** ** Steps *)

Lemma AddString_spec s b : tables_ok b ->
  let '(id, b') := AddString s b in
  grows b b' /\ sample (_profile b') = sample (_profile b) /\ read_string (_profile b') id = Some s.
Proof.
  intros Hok. unfold AddString. destruct (_strings b !! s) as [id|] eqn:E.
  - split_and!; [by apply grows_refl|done|].
    apply (strings_interned _ Hok) in E. by rewrite Z.sub_0_r in E.
  - set (p' := add_string_table s (_profile b)).
    assert (extends (_profile b) p') as Hext by (split; [by apply prefix_app_r|done..]).
    split_and!; [split|done|].
    + destruct Hok as [Hs Hl Hf Ha]. split; cbn [_strings _profile with_profile _locations]; [| |intros i f Hi|done].
      * rewrite <- (Z.add_0_r (zlen _)). by apply interned_snoc.
      * done.
      * destruct (Hf i f Hi) as (? & [? Hn] & [? Hm]).
        split_and!; [done|eexists; by apply (read_string_mono _ _ Hext)..].
    + done.
    + by repeat split.
    + cbn. apply zget_snoc. by right.
Qed.

Lemma read_location_hit b i f n m :
  tables_ok b -> function (_profile b) !! i = Some f ->
  read_string (_profile b) (fn_name f) = Some n -> read_string (_profile b) (fn_filename f) = Some m ->
  read_location (_profile b) (Z.of_nat i + 1) = Some (n, m).
Proof.
  intros Hok Hi Hn Hm. destruct (functions_ok _ Hok _ _ Hi) as [Hid _].
  assert (list_find (fun g => fn_id g = Z.of_nat i + 1) (function (_profile b)) = Some (i, f)) as Hf.
  { apply list_find_Some. split_and!; [done|done|]. intros j g Hj ? Hg.
    destruct (functions_ok _ Hok _ _ Hj) as [Hid' _]. lia. }
  unfold read_location. rewrite (locations_aligned _ Hok), list_find_fmap.
  rewrite (list_find_ext _ (fun g => fn_id g = Z.of_nat i + 1)) by done.
  rewrite Hf. cbn -[list_find]. rewrite Hid, Hf. cbn. by rewrite Hn, Hm.
Qed.

Lemma AddLocation_spec fi mi n m b : tables_ok b ->
  read_string (_profile b) fi = Some n -> read_string (_profile b) mi = Some m ->
  let '(id, b') := AddLocation fi mi b in
  grows b b' /\ sample (_profile b') = sample (_profile b) /\ read_location (_profile b') id = Some (n, m).
Proof.
  intros Hok Hn Hm. unfold AddLocation. destruct (_locations b !! (mi, fi)) as [id|] eqn:E.
  - split_and!; [by apply grows_refl|done|].
    apply (locations_interned _ Hok) in E. apply zget_Some in E as [? E].
    apply list_lookup_fmap_Some in E as (f & [= ? ?] & Hf). subst.
    replace id with (Z.of_nat (Z.to_nat (id - 1)) + 1) by lia. by eapply read_location_hit.
  - assert (length (location (_profile b)) = length (function (_profile b))) as Hlen.
    { rewrite (locations_aligned _ Hok). by rewrite length_fmap. }
    rewrite Hlen. set (id := zlen (function (_profile b)) + 1). set (f := mkFunction id fi mi).
    set (b' := mkBuilder _ _ _ _ _ _ _). assert (tables_ok b') as Hok'.
    { destruct Hok as [Hs Hl Hf Ha]. split; [done| | |].
      - cbn. rewrite fmap_app. unfold id. rewrite <- (length_fmap fn_key). by apply interned_snoc.
      - intros i g Hi. cbn in Hi. apply lookup_app_Some in Hi as [Hi|[Hge Hi]]; [by apply Hf|].
        apply list_lookup_singleton_Some in Hi as [Hi <-].
        split_and!; [cbn; lia|by exists n|by exists m].
      - cbn. by rewrite fmap_app, Ha. }
    split_and!; [split; [done| |by repeat split]|done|].
    + split; [done|by apply prefix_app_r..].
    + apply (read_location_hit b' (length (function (_profile b))) f); [done| |done|done].
      cbn. by rewrite lookup_app_r, Nat.sub_diag.
Qed.

(** *** The sample under construction *)

(** The last sample reads as [d], after the samples [old]. *)
Record building (old : list PSample) (b0 : PprofBuilder) (d : SampleData) (b : PprofBuilder) : Prop := {
  building_grows : grows b0 b;
  building_sample : exists s, sample (_profile b) = old ++ [s] /\ read_sample (_profile b) s = Some d }.

Lemma building_tables old b0 d b : building old b0 d b -> tables_ok b.
Proof. intros [[] _]. done. Qed.

Lemma building_grow old b0 d b b' :
  building old b0 d b -> grows b b' -> sample (_profile b') = sample (_profile b) -> building old b0 d b'.
Proof.
  intros [Hg (s & Hs & Hd)] Hg' E. split; [by eapply grows_trans|].
  exists s. split; [congruence|]. by eapply read_sample_mono; [apply Hg'|].
Qed.

Lemma alter_last {A} (f : A -> A) (l : list A) x :
  alter f (pred (length (l ++ [x]))) (l ++ [x]) = l ++ [f x].
Proof.
  rewrite length_app, Nat.add_1_r, Nat.pred_succ.
  rewrite alter_app_r_alt by done. by rewrite Nat.sub_diag.
Qed.

Lemma on_pSample_grows f b : tables_ok b -> grows b (on_pSample f b).
Proof. intros [????]. split; [by split|by split|by repeat split]. Qed.

Lemma building_update old b0 d d' b f :
  building old b0 d b ->
  (forall s, read_sample (_profile b) s = Some d -> read_sample (_profile b) (f s) = Some d') ->
  building old b0 d' (on_pSample f b).
Proof.
  intros [Hg (s & Hs & Hd)] Hf. split.
  - eapply grows_trans; [done|]. apply on_pSample_grows, Hg.
  - exists (f s). split; [|by apply Hf]. cbn. by rewrite Hs, alter_last.
Qed.

Lemma read_sample_add_location p s d id r : read_sample p s = Some d -> read_location p id = Some r ->
  read_sample p (add_location_id id s) = Some (mkData (d_stack d ++ [r]) (d_values d) (d_labels d)).
Proof.
  unfold read_sample. intros (st & Hst & (la & Hla & [= <-])%bind_Some)%bind_Some Hr. cbn.
  assert (mapM (read_location p) (location_id s ++ [id]) = Some (st ++ [r])) as ->.
  { apply mapM_Some. apply mapM_Some in Hst. apply Forall2_app; [done|by repeat constructor]. }
  cbn. by rewrite Hla.
Qed.

Lemma read_sample_add_label p s d k v r : read_sample p s = Some d -> read_label p (mkPLabel k v) = Some r ->
  read_sample p (add_label k v s) = Some (mkData (d_stack d) (d_values d) (d_labels d ++ [r])).
Proof.
  unfold read_sample. intros (st & Hst & (la & Hla & [= <-])%bind_Some)%bind_Some Hr. cbn.
  rewrite Hst. cbn.
  assert (mapM (read_label p) (label s ++ [mkPLabel k v]) = Some (la ++ [r])) as ->; [|done].
  apply mapM_Some. apply mapM_Some in Hla. apply Forall2_app; [done|by repeat constructor].
Qed.

Lemma read_sample_add_value p s d v : read_sample p s = Some d ->
  read_sample p (add_value v s) = Some (mkData (d_stack d) (d_values d ++ [v]) (d_labels d)).
Proof.
  unfold read_sample. intros (st & Hst & (la & Hla & [= <-])%bind_Some)%bind_Some. cbn.
  rewrite Hst. cbn. by rewrite Hla.
Qed.

Definition push_frame (r : string * string) (d : SampleData) : SampleData :=
  mkData (d_stack d ++ [r]) (d_values d) (d_labels d).
Definition push_label (r : string * string) (d : SampleData) : SampleData :=
  mkData (d_stack d) (d_values d) (d_labels d ++ [r]).

(** Interning in the middle of a sample. *)
Lemma AddString_building s old b0 d b : building old b0 d b ->
  let '(id, b') := AddString s b in
  building old b0 d b' /\ grows b b' /\ read_string (_profile b') id = Some s.
Proof.
  intros Hb. pose proof (AddString_spec s b (building_tables _ _ _ _ Hb)) as H.
  destruct (AddString s b) as [id b']. destruct H as (Hg & Hs & Hr).
  split_and!; [by eapply building_grow|done|done].
Qed.

Lemma addLocation_building frame module old b0 d b : building old b0 d b ->
  building old b0 (push_frame (frame, module) d) (addLocation frame module b).
Proof.
  intros Hb. unfold addLocation. pose proof (AddString_building module _ _ _ _ Hb) as H1.
  destruct (AddString module b) as [mi b1]. destruct H1 as (Hb1 & Hg1 & Hm).
  pose proof (AddString_building frame _ _ _ _ Hb1) as H2.
  destruct (AddString frame b1) as [fi b2]. destruct H2 as (Hb2 & Hg2 & Hf).
  pose proof (AddLocation_spec fi mi frame module b2 (building_tables _ _ _ _ Hb2) Hf) as H3.
  destruct (AddLocation fi mi b2) as [id b3].
  destruct H3 as (Hg3 & Hs3 & Hl); [by eapply read_string_mono; [apply Hg2|]|].
  apply building_update with d; [by eapply building_grow|].
  intros s Hs. by apply read_sample_add_location.
Qed.

Lemma add_label_building k v ks vs old b0 d b : building old b0 d b ->
  read_string (_profile b) k = Some ks -> read_string (_profile b) v = Some vs ->
  building old b0 (push_label (ks, vs) d) (on_pSample (add_label k v) b).
Proof.
  intros Hb Hk Hv. apply building_update with d; [done|]. intros s Hs.
  apply read_sample_add_label; [done|]. unfold read_label. cbn. by rewrite Hk, Hv.
Qed.

Lemma addLeaf_building leaf old b0 d b : building old b0 d b ->
  building old b0 (mkData (d_stack d ++ leaf_frames leaf) (d_values d) (d_labels d)) (addLeaf leaf b).
Proof.
  intros Hb. unfold addLeaf, leaf_frames. destruct (decide (leaf = "")).
  - rewrite app_nil_r. by destruct d.
  - by apply addLocation_building.
Qed.

Lemma addFrames_building fs old b0 : forall d b, building old b0 d b ->
  building old b0 (mkData (d_stack d ++ ((fun f => (Frame f, ModuleName f)) <$> fs)) (d_values d) (d_labels d))
    (foldl (fun b frame => addFrame frame b) b fs).
Proof.
  induction fs as [|f fs IH]; intros d b Hb; cbn.
  - rewrite app_nil_r. by destruct d.
  - specialize (IH _ _ (addLocation_building (Frame f) (ModuleName f) _ _ _ _ Hb)).
    cbn in IH. by rewrite <- app_assoc in IH.
Qed.

Lemma addValues_building vs old b0 : forall d b, building old b0 d b ->
  building old b0 (mkData (d_stack d) (d_values d ++ vs) (d_labels d))
    (foldl (fun b v => on_pSample (add_value v) b) b vs).
Proof.
  induction vs as [|v vs IH]; intros d b Hb; cbn.
  - rewrite app_nil_r. by destruct d.
  - assert (building old b0 (mkData (d_stack d) (d_values d ++ [v]) (d_labels d)) (on_pSample (add_value v) b)) as Hb'.
    { apply building_update with d; [done|]. intros s. apply read_sample_add_value. }
    specialize (IH _ _ Hb'). cbn in IH. by rewrite <- app_assoc in IH.
Qed.

(** A label that can be dereferenced. *)
Definition label_ok (l : Label) : Prop :=
  match l with StringLabel _ v => is_Some v | NumericLabel _ _ => True end.

Lemma addLabel_building l old b0 d b : label_ok l -> building old b0 d b ->
  exists b', addLabel l b = Some b' /\
    building old b0 (mkData (d_stack d) (d_values d) (d_labels d ++ string_label l)) b'.
Proof.
  intros Hl Hb. destruct l as [k v|k v]; cbn in *.
  - destruct Hl as [v' ->]. pose proof (AddString_building k _ _ _ _ Hb) as H1.
    destruct (AddString k b) as [ki b1]. destruct H1 as (Hb1 & _ & Hk). cbn.
    pose proof (AddString_building v' _ _ _ _ Hb1) as H2.
    destruct (AddString v' b1) as [vi b2]. destruct H2 as (Hb2 & Hg2 & Hv).
    eexists. split; [done|]. apply (add_label_building _ _ k v' _ _ _ _ Hb2); [|done].
    by eapply read_string_mono; [apply Hg2|].
  - exists b. split; [done|]. rewrite app_nil_r. by destruct d.
Qed.

Lemma addLabels_building ls old b0 : Forall label_ok ls -> forall d b, building old b0 d b ->
  exists b', addLabels ls b = Some b' /\
    building old b0 (mkData (d_stack d) (d_values d) (d_labels d ++ (ls ≫= string_label))) b'.
Proof.
  induction 1 as [|l ls Hl _ IH]; intros d b Hb; cbn.
  - exists b. split; [done|]. rewrite app_nil_r. by destruct d.
  - destruct (addLabel_building l _ _ _ _ Hl Hb) as (b1 & -> & Hb1). cbn.
    destruct (IH _ _ Hb1) as (b2 & -> & Hb2). exists b2. split; [done|].
    cbn in Hb2. by rewrite <- app_assoc in Hb2.
Qed.

(** The indexes that [Reset] keeps. *)
Record indexes_ok (b : PprofBuilder) : Prop := {
  span_index : read_string (_profile b) (_span_id_str_index b) = Some spanIDLabelName;
  trace_index : read_string (_profile b) (_trace_id_str_index b) = Some traceIDLabelName;
  empty_index : read_string (_profile b) 0 = Some "" }.

Lemma indexes_grow b b' : grows b b' -> indexes_ok b -> indexes_ok b'.
Proof.
  intros [_ Hext []] []. split; [rewrite same_span0|rewrite same_trace0|]; by eapply read_string_mono.
Qed.

Lemma AddTraceContext_building s old b0 d b : indexes_ok b -> building old b0 d b ->
  building old b0 (mkData (d_stack d) (d_values d) (d_labels d ++ trace_labels (_traceContext s)))
    (AddTraceContext s b).
Proof.
  intros Hi Hb. unfold AddTraceContext, trace_labels, AddHexString.
  destruct (_currentLocalRootSpanId (_traceContext s) =? 0); [rewrite app_nil_r; by destruct d|].
  set (span := hex_string _). set (trace := hex_string _).
  pose proof (AddString_building span _ _ _ _ Hb) as H1.
  destruct (AddString span b) as [si b1]. destruct H1 as (Hb1 & Hg1 & Hs).
  pose proof (AddString_building trace _ _ _ _ Hb1) as H2.
  destruct (AddString trace b1) as [ti b2]. destruct H2 as (Hb2 & Hg2 & Ht).
  destruct (indexes_grow _ _ Hg2 (indexes_grow _ _ Hg1 Hi)) as [Hsi Hti _].
  assert (read_string (_profile b2) si = Some span) as Hs2 by (by eapply read_string_mono; [apply Hg2|]).
  pose proof (add_label_building _ _ _ _ _ _ _ _ Hb2 Hsi Hs2) as Hb3.
  pose proof (add_label_building (_trace_id_str_index b2) ti traceIDLabelName trace _ _ _ _ Hb3 Hti Ht) as Hb4.
  unfold push_label in Hb4. cbn in Hb4. by rewrite <- app_assoc in Hb4.
Qed.

(** ** The profile under construction *)

Definition type_names (types : list SampleValueType) : list (string * string) :=
  (fun t => (Name t, Unit t)) <$> types.

Definition period_names (types : list SampleValueType) : string * string :=
  if isMemoryProfile types then ("space", "bytes") else ("cpu", "nanoseconds").

(** The builder holds the samples [data]. *)
Record represents (types : list SampleValueType) (data : list SampleData) (b : PprofBuilder) : Prop := {
  rep_tables : tables_ok b;
  rep_indexes : indexes_ok b;
  rep_definitions : _sampleTypeDefinitions b = types;
  rep_count : _samplesCount b = zlen data;
  rep_types : mapM (read_type (_profile b)) (sample_type (_profile b)) = Some (type_names types);
  rep_samples : mapM (read_sample (_profile b)) (sample (_profile b)) = Some data;
  rep_period_type : read_type (_profile b) (period_type (_profile b)) = Some (period_names types);
  rep_period : period (_profile b) = 1 }.

Lemma AddSample_represents types data s values b :
  represents types data b -> Forall label_ok (_allLabels s) ->
  exists b', AddSample s values b = Some b' /\ represents types (data ++ [sample_data s values]) b'.
Proof.
  intros Hrep Hls. unfold AddSample.
  set (old := sample (_profile b)).
  set (b0 := with_profile (set_samples (fun l => l ++ [mkPSample [] [] []])) b).
  assert (tables_ok b0) as Hok0 by (destruct Hrep as [[]]; by split).
  assert (building old b0 (mkData [] [] []) b0) as Hb0.
  { split; [by apply grows_refl|]. exists (mkPSample [] [] []). done. }
  assert (indexes_ok b0) as Hi0 by (destruct Hrep as [_ []]; by split).
  pose proof (addValues_building values _ _ _ _ (addFrames_building (_callstack s) _ _ _ _
    (addLeaf_building (_leafFrame s) _ _ _ _ (AddTraceContext_building s _ _ _ _ Hi0 Hb0)))) as Hb1.
  destruct (addLabels_building _ _ _ Hls _ _ Hb1) as (b2 & -> & [Hg (ps & Hps & Hd)]).
  eexists. split; [done|]. pose proof (indexes_grow _ _ Hg Hi0) as Hi2.
  destruct Hrep as [? ? Hdef Hc Ht Hs Hp Hper]. destruct Hg as [Hok2 Hext [[Hty Hpt Hpe] Hcnt Hdf _ _]].
  split; cbn [_profile _samplesCount _sampleTypeDefinitions].
  - by destruct Hok2.
  - by destruct Hi2.
  - by rewrite Hdf.
  - rewrite Hcnt, length_app. cbn. rewrite Hc. lia.
  - rewrite Hty. eapply mapM_mono; [|exact Ht]. intros ??. by apply (read_type_mono _ _ Hext).
  - rewrite Hps. apply mapM_Some. apply Forall2_app.
    + apply mapM_Some. eapply mapM_mono; [|exact Hs]. intros ??. by apply (read_sample_mono _ _ Hext).
    + by repeat constructor.
  - rewrite Hpt. by apply (read_type_mono _ _ Hext).
  - by rewrite Hpe.
Qed.

(** *** A fresh profile *)

Lemma Reset_definitions b b' : _sampleTypeDefinitions b = _sampleTypeDefinitions b' -> Reset b = Reset b'.
Proof. destruct b, b'. cbn. intros ->. done. Qed.

(** The state while the types are added: [done_] were. *)
Record typing (types done_ : list SampleValueType) (b : PprofBuilder) : Prop := {
  typ_tables : tables_ok b; typ_indexes : indexes_ok b; typ_definitions : _sampleTypeDefinitions b = types;
  typ_count : _samplesCount b = 0; typ_samples : sample (_profile b) = [];
  typ_types : mapM (read_type (_profile b)) (sample_type (_profile b)) = Some (type_names done_) }.

Lemma AddString_typing types done_ s b : typing types done_ b ->
  let '(id, b') := AddString s b in
  typing types done_ b' /\ grows b b' /\ read_string (_profile b') id = Some s.
Proof.
  intros [Hok Hi Hd Hc Hs Ht]. pose proof (AddString_spec s b Hok) as H.
  destruct (AddString s b) as [id b']. destruct H as (Hg & Hs' & Hr). split_and!; [|done|done].
  pose proof (indexes_grow _ _ Hg Hi). destruct Hg as [? Hext [[Hty _ _] ? ? _ _]].
  split; [done|done|congruence|congruence|congruence|].
  rewrite Hty. eapply mapM_mono; [|exact Ht]. intros ??. by apply (read_type_mono _ _ Hext).
Qed.

Lemma addSampleType_typing types done_ t b : typing types done_ b -> typing types (done_ ++ [t]) (addSampleType b t).
Proof.
  intros Hb. unfold addSampleType. pose proof (AddString_typing _ _ (Unit t) _ Hb) as H1.
  destruct (AddString (Unit t) b) as [u b1]. destruct H1 as (Hb1 & _ & Hu).
  pose proof (AddString_typing _ _ (Name t) _ Hb1) as H2.
  destruct (AddString (Name t) b1) as [n b2]. destruct H2 as ([Hok Hi Hd Hc Hs Ht] & Hg & Hn).
  split; [by destruct Hok; split|by destruct Hi; split|done|done|done|].
  cbn. unfold type_names. rewrite fmap_app. apply mapM_Some, Forall2_app; [by apply mapM_Some|].
  repeat constructor. unfold read_type. cbn. change (read_string _ n) with (read_string (_profile b2) n).
  change (read_string _ u) with (read_string (_profile b2) u).
  rewrite Hn. cbn. by rewrite (read_string_mono _ _ (grows_extends _ _ Hg) _ _ Hu).
Qed.

Lemma addSampleTypes_typing types : forall todo done_ b, typing types done_ b ->
  typing types (done_ ++ todo) (foldl addSampleType b todo).
Proof.
  induction todo as [|t todo IH]; intros done_ b Hb; cbn; [by rewrite app_nil_r|].
  rewrite (assoc (++) done_ [t] todo). by apply IH, addSampleType_typing.
Qed.

Lemma addPeriodType_represents types b : typing types types b -> represents types [] (addPeriodType b).
Proof.
  intros Hb. unfold addPeriodType. rewrite (typ_definitions _ _ _ Hb).
  assert ((if isMemoryProfile types then ("space", "bytes") else ("cpu", "nanoseconds")) = period_names types) as -> by done.
  destruct (period_names types) as [t u] eqn:E.
  pose proof (AddString_typing _ _ t _ Hb) as H1. destruct (AddString t b) as [ti b1]. destruct H1 as (Hb1 & _ & Hti).
  pose proof (AddString_typing _ _ u _ Hb1) as H2. destruct (AddString u b1) as [ui b2].
  destruct H2 as ([Hok Hi Hd Hc Hs Ht] & Hg & Hui).
  split; [by destruct Hok; split|by destruct Hi; split|done|done|done|cbn; by rewrite Hs| |done].
  cbn [period_type _profile with_profile set_period]. rewrite E. unfold read_type. cbn.
  change (read_string _ ti) with (read_string (_profile b2) ti).
  change (read_string _ ui) with (read_string (_profile b2) ui).
  rewrite (read_string_mono _ _ (grows_extends _ _ Hg) _ _ Hti). cbn. by rewrite Hui.
Qed.

Lemma Reset_represents b : represents (_sampleTypeDefinitions b) [] (Reset b).
Proof.
  unfold Reset. set (b0 := mkBuilder 0 empty_profile ∅ ∅ _ _ _).
  assert (tables_ok b0) as H0 by (split; [apply interned_empty|apply interned_empty|done|done]).
  pose proof (AddString_spec "" b0 H0) as H1. destruct (AddString "" b0) as [e b1] eqn:E1.
  destruct H1 as (Hg1 & Hs1 & Hr1).
  pose proof (AddString_spec spanIDLabelName b1 (grows_ok _ _ Hg1)) as H2.
  destruct (AddString spanIDLabelName b1) as [si b2] eqn:E2. destruct H2 as (Hg2 & Hs2 & Hr2).
  pose proof (AddString_spec traceIDLabelName b2 (grows_ok _ _ Hg2)) as H3.
  destruct (AddString traceIDLabelName b2) as [ti b3] eqn:E3. destruct H3 as (Hg3 & Hs3 & Hr3).
  set (b4 := mkBuilder _ _ _ _ _ si ti).
  assert (_sampleTypeDefinitions b4 = _sampleTypeDefinitions b) as Hd.
  { cbn. by rewrite (same_definitions _ _ (grows_rest _ _ (grows_trans _ _ _ Hg1 (grows_trans _ _ _ Hg2 Hg3)))). }
  rewrite Hd. apply addPeriodType_represents.
  apply (addSampleTypes_typing _ _ []).
  pose proof (grows_rest _ _ (grows_trans _ _ _ Hg1 (grows_trans _ _ _ Hg2 Hg3))) as [[Hty _ _] Hc _ _ _].
  split; [|split|done|done| |].
  - destruct (grows_ok _ _ Hg3). by split.
  - by eapply read_string_mono; [apply Hg3|].
  - done.
  - cbn in E1. inversion E1. subst. eapply read_string_mono; [apply Hg3|]. by eapply read_string_mono; [apply Hg2|].
  - cbn. by rewrite Hs3, Hs2, Hs1.
  - cbn. by rewrite Hty.
Qed.

(** Interned tables have no duplicates. *)
Lemma interned_NoDup `{Countable K} (m : gmap K Z) l base : interned m l base -> NoDup l.
Proof.
  intros Hm. apply NoDup_alt. intros i j k Hi Hj.
  assert (forall n, l !! n = Some k -> m !! k = Some (Z.of_nat n + base)) as Hl.
  { intros n Hn. apply Hm. rewrite Z.add_simpl_r. unfold zget.
    rewrite (proj2 (Z.ltb_ge _ _)) by lia. by rewrite Nat2Z.id. }
  pose proof (Hl _ Hi) as Ei. rewrite (Hl _ Hj) in Ei. injection Ei. lia.
Qed.

(** ** A builder in use *)

Inductive BuilderCall :=
| CallAddSample (s : Sample) (values : list Z)
| CallBuild (startTime endTime : Z).

Section use.
Context {bytes : Type} (no_bytes : bytes) (SerializeAsString : Profile -> bytes).

(** The calls in order, and the bytes that the calls of [Build] return. *)
Fixpoint run_builder (calls : list BuilderCall) (b : PprofBuilder) : option (list bytes * PprofBuilder) :=
  match calls with
  | [] => Some ([], b)
  | CallAddSample s values :: calls => b ← AddSample s values b; run_builder calls b
  | CallBuild startTime endTime :: calls =>
      let '(out, b) := Build no_bytes SerializeAsString startTime endTime b in
      '(outs, b) ← run_builder calls b; Some (out :: outs, b)
  end.
End use.

(** The specification: a list of the samples since the last profile. *)
Definition profile_of (types : list SampleValueType) (data : list SampleData) (startTime endTime : Z) : ProfileData :=
  mkProfileData (type_names types) data (period_names types, 1)
    (startTime * 1000000) ((endTime - startTime) * 1000000).

Fixpoint profiles_of (types : list SampleValueType) (calls : list BuilderCall) (data : list SampleData)
    : list (option ProfileData) :=
  match calls with
  | [] => []
  | CallAddSample s values :: calls => profiles_of types calls (data ++ [sample_data s values])
  | CallBuild startTime endTime :: calls =>
      match data with
      | [] => None :: profiles_of types calls []
      | _ => Some (profile_of types data startTime endTime) :: profiles_of types calls []
      end
  end.

Definition call_ok (c : BuilderCall) : Prop :=
  match c with CallAddSample s _ => Forall label_ok (_allLabels s) | CallBuild _ _ => True end.

Section theorem.
Context {bytes : Type} (no_bytes : bytes) (SerializeAsString : Profile -> bytes) (ParseFromString : bytes -> option Profile).

(** What a reader gets out of the bytes of a profile, whose tables hold everything once. *)
Definition delivers (out : bytes) (d : option ProfileData) : Prop :=
  match d with
  | None => out = no_bytes
  | Some d => out <> no_bytes /\ exists p, ParseFromString out = Some p /\ read_profile p = Some d /\
      NoDup (string_table p) /\ NoDup (fn_key <$> function p)
  end.

Hypothesis parse_serialize : forall p, ParseFromString (SerializeAsString p) = Some p.
Hypothesis serialize_nonempty : forall p, period p <> 0 -> SerializeAsString p <> no_bytes.

Lemma Build_delivers types data t0 t1 b : represents types data b ->
  let '(out, b') := Build no_bytes SerializeAsString t0 t1 b in
  represents types [] b' /\
  delivers out (match data with [] => None | _ => Some (profile_of types data t0 t1) end).
Proof.
  intros Hrep. unfold Build. rewrite (rep_count _ _ _ Hrep). destruct data as [|d data]; [done|].
  rewrite (proj2 (Z.eqb_neq _ _)) by (cbn; lia). set (b' := with_profile _ b).
  split; [rewrite <- (rep_definitions _ _ _ Hrep); apply (Reset_represents b')|].
  destruct Hrep as [[Hst Hlo _ _] [_ _ He] _ _ Ht Hs Hp Hper]. split; [apply serialize_nonempty; cbn; lia|].
  exists (_profile b'). split_and!; [apply parse_serialize| |by eapply interned_NoDup..].
  unfold read_profile. rewrite option_guard_True by done.
  change (mapM (read_type (_profile b')) _) with (mapM (read_type (_profile b)) (sample_type (_profile b))).
  change (mapM (read_sample (_profile b')) _) with (mapM (read_sample (_profile b)) (sample (_profile b))).
  change (read_type (_profile b') _) with (read_type (_profile b) (period_type (_profile b))).
  rewrite Ht, Hs, Hp. cbn. by rewrite Hper.
Qed.

Lemma run_builder_represents types : forall calls data b, represents types data b -> Forall call_ok calls ->
  exists outs b', run_builder no_bytes SerializeAsString calls b = Some (outs, b') /\
    Forall2 delivers outs (profiles_of types calls data).
Proof.
  induction calls as [|[s values|t0 t1] calls IH]; intros data b Hrep Hok; cbn.
  - by exists [], b.
  - apply Forall_cons in Hok as [Hs Hok].
    destruct (AddSample_represents _ _ s values _ Hrep Hs) as (b1 & -> & Hrep1). by apply IH.
  - apply Forall_cons in Hok as [_ Hok]. pose proof (Build_delivers _ _ t0 t1 _ Hrep) as H.
    destruct (Build _ _ t0 t1 b) as [out b1]. destruct H as [Hrep1 Hout].
    destruct (IH _ _ Hrep1 Hok) as (outs & b2 & -> & Houts). cbn.
    eexists _, b2. split; [done|]. by destruct data; constructor.
Qed.

(** C21: the profiles of a builder are read back.  For every sequence of samples and
    exports, with labels that can be dereferenced, no call fails; a profile is written by
    exactly the exports that follow at least one new sample, and reading it, by looking up
    its identifiers in its tables, gives the samples added since the last profile in their
    order: the class of the allocation as the first frame, every frame with its module, the
    values, the trace context in hexadecimal and the string labels.  Its types and period
    are the configured ones, and no string and no pair of function and module is stored
    twice. *)
Theorem profiles_read_back types calls : Forall call_ok calls ->
  exists outs b', run_builder no_bytes SerializeAsString calls (new_PprofBuilder types) = Some (outs, b') /\
    Forall2 delivers outs (profiles_of types calls []).
Proof. apply run_builder_represents, (Reset_represents (mkBuilder 0 empty_profile ∅ ∅ types 0 0)). Qed.
End theorem.

Module Example_profile.
Definition types : list SampleValueType :=
  [mkValueType "alloc_samples" "count" Alloc 0; mkValueType "alloc_size" "bytes" Alloc 0].
Definition frame (f : string) : FrameInfoView := mkFrame "mod" f "" 0.
Definition s1 : Sample :=
  mkSample 5 [frame "Main"; frame "Run"] [1; 24] [StringLabel "tag" (Some "Main"); NumericLabel "pid" 7]
    (mkContext 0x1122 0 1) "" "String".
Definition s2 : Sample := mkSample 6 [frame "Run"] [1; 8] [] zero_context "" "".
Definition calls : list BuilderCall :=
  [CallAddSample s1 [1; 24]; CallAddSample s2 [1; 8]; CallBuild 10 20; CallBuild 20 30].

(** What the two exports hold: the second one is empty. *)
Example exported :
  profiles_of types calls [] =
  [Some (mkProfileData [("alloc_samples", "count"); ("alloc_size", "bytes")]
     [mkData [("cls:String", ""); ("Main", "mod"); ("Run", "mod")] [1; 24]
        [("span_id", "2211000000000000"); ("trace_id", "00000000000000000100000000000000"); ("tag", "Main")];
      mkData [("Run", "mod")] [1; 8] []]
     (("space", "bytes"), 1) 10000000 10000000);
   None].
Proof. vm_compute. reflexivity. Qed.
End Example_profile.

Lemma profiles_read_back_witness :
  exists outs b', run_builder None Some Example_profile.calls (new_PprofBuilder Example_profile.types) = Some (outs, b') /\
    Forall2 (delivers None id) outs (profiles_of Example_profile.types Example_profile.calls []).
Proof.
  apply (profiles_read_back None Some id).
  - reflexivity.
  - intros p _. discriminate.
  - repeat constructor. by exists "Main".
Defined.
