(* ===== verification/SampleExport.v ===== *)
(** * From raw samples to profiles

    Model of [SampleValueTypeProvider.cpp], of the operations of [Sample.h] and [Sample.cpp],
    of [RawSampleTransformer.cpp] with the [OnTransform] of the raw samples, and of
    [PprofExporter.cpp]: providers register the types of their values and get offsets into
    the values of a sample; a raw sample is turned into a sample; the exporter cuts the
    values of a sample into one profile per type.

    What the stores of frames and runtimes answer are parameters.  Weights of the upscaling
    are floating-point numbers, of which only the comparison with one and the scaling of a
    value are used: they are parameters too.  The table of counted strings is initialised,
    so that a label built from a string is not null. *)
From stdpp Require Import base gmap list strings pretty.
From S2P Require Import Prelude ThreadInfo PprofBuilder.

(** A call returns, throws an exception, or does something undefined. *)
Inductive result (A : Type) := Returned (a : A) | Threw | Undefined.
Arguments Returned {A} a.
Arguments Threw {A}.
Arguments Undefined {A}.

#[export] Instance result_bind : MBind result := fun A B f r =>
  match r with Returned a => f a | Threw => Threw | Undefined => Undefined end.

(** ** Types of values *)

Record SampleValueTypeProvider := mkTypes { _definitions : list SampleValueType; _nextIndex : Z }.

Definition new_SampleValueTypeProvider : SampleValueTypeProvider := mkTypes [] 0.

Fixpoint register_types (valueTypes : list SampleValueType) (index : Z) (defs : list SampleValueType)
    : list Z * list SampleValueType :=
  match valueTypes with
  | [] => ([], defs)
  | t :: valueTypes =>
      let idx := zlen defs in
      let '(offsets, defs) :=
        register_types valueTypes index (defs ++ [mkValueType (Name t) (Unit t) (Type_ t) index]) in
      (idx :: offsets, defs)
  end.

(** The next index is a [uint32_t], and is stored in an [int32_t]. *)
Definition RegisterPyroscopeSampleType (valueTypes : list SampleValueType) (p : SampleValueTypeProvider)
    : list Z * SampleValueTypeProvider :=
  let '(offsets, defs) := register_types valueTypes (i32 (_nextIndex p)) (_definitions p) in
  (offsets, mkTypes defs (u32 (_nextIndex p + 1))).

(** The providers, in the order of their construction. *)
Fixpoint register_all (groups : list (list SampleValueType)) (p : SampleValueTypeProvider)
    : list (list Z) * SampleValueTypeProvider :=
  match groups with
  | [] => ([], p)
  | g :: groups =>
      let '(offsets, p) := RegisterPyroscopeSampleType g p in
      let '(all, p) := register_all groups p in (offsets :: all, p)
  end.

Definition CpuTimeDefinitions := [mkValueType "cpu" "nanoseconds" ProcessCpu (-1); mkValueType "cpu_samples" "count" ProcessCpu (-1)].
Definition CpuSampleDefinitions := [mkValueType "cpu" "nanoseconds" CpuSample (-1); mkValueType "cpu_samples" "count" CpuSample (-1)].
Definition GcThreadsCpuDefinitions := [mkValueType "cpu" "nanoseconds" GcThreadsCpu (-1); mkValueType "cpu_samples" "count" GcThreadsCpu (-1)].
Definition WallTimeDefinitions := [mkValueType "wall" "nanoseconds" WallTime (-1)].
Definition AllocDefinitions := [mkValueType "alloc_samples" "count" Alloc (-1); mkValueType "alloc_size" "bytes" Alloc (-1)].
Definition AllocFrameworkDefinitions := [mkValueType "alloc_samples" "count" AllocFramework (-1)].
Definition ContentionDefinitions := [mkValueType "lock_count" "count" Lock (-1); mkValueType "lock_time" "nanoseconds" Lock (-1)].
Definition ExceptionDefinitions := [mkValueType "exception" "count" Exception (-1)].
Definition NetworkDefinitions := [mkValueType "request_time" "nanoseconds" Network (-1)].
Definition LiveObjectsDefinitions := [mkValueType "inuse_objects" "count" Heap (-1); mkValueType "inuse_space" "bytes" Heap (-1)].
Definition GarbageCollectionDefinitions := [mkValueType "gc_cpu_timeline" "nanoseconds" GcCpu (-1)].
Definition StopTheWorldDefinitions := [mkValueType "gc_stw_timeline" "nanoseconds" GcStw (-1)].
Definition ThreadLifetimeDefinitions := [mkValueType "thread_lifetime_timeline" "nanoseconds" ThreadLifetime (-1)].

(** ** Raw samples *)

Inductive ThreadEventKind := ThreadStart | ThreadStop.

(** The members of the derived classes. *)
Inductive RawData :=
| RawWallTime (Duration : Z)
| RawCpu (Duration : Z)
| RawAllocation (AllocationClass : string) (AllocationSize : Z)
| RawContention (ContentionDuration : Z)
| RawException
| RawGarbageCollection (Number Generation : Z) (Reason GcType : Z) (IsCompacting : bool) (TotalDuration : Z)
| RawStopTheWorld (Number Generation Duration : Z)
| RawThreadLifetime (Kind : ThreadEventKind).

Record RawSample := mkRaw {
  Timestamp : Z; AppDomainId : Z; RawContext : TraceContext;
  Tags : list (string * string);         (* the tags of [GetAll], whose values are not null *)
  Stack : list Z; Data : RawData }.

Section samples.
(** [Sample::ValuesCount], set once the types are registered. *)
Context (ValuesCount : Z).

Definition new_Sample (timestamp : Z) (runtimeId : string) : Sample :=
  mkSample timestamp [] (replicate (Z.to_nat ValuesCount) 0) [] zero_context runtimeId "".

Definition SampleReset (s : Sample) : Sample :=
  mkSample 0 [] (replicate (length (_values s)) 0) [] (_traceContext s) "" "".

(** The vector of the values is indexed without a check. *)
Definition AddValue (value index : Z) (s : Sample) : result Sample :=
  if ValuesCount <=? index then Threw
  else match zset (_values s) index value with
  | Some vs => Returned (mkSample (_timestamp s) (_callstack s) vs (_allLabels s) (_traceContext s) (_runtimeId s) (_leafFrame s))
  | None => Undefined
  end.

Definition AddFrame (f : FrameInfoView) (s : Sample) : Sample :=
  mkSample (_timestamp s) (_callstack s ++ [f]) (_values s) (_allLabels s) (_traceContext s) (_runtimeId s) (_leafFrame s).

Definition SetLeafFrame (f : string) (s : Sample) : Sample :=
  mkSample (_timestamp s) (_callstack s) (_values s) (_allLabels s) (_traceContext s) (_runtimeId s) f.

Definition AddLabel (l : Label) (s : Sample) : Sample :=
  mkSample (_timestamp s) (_callstack s) (_values s) (_allLabels s ++ [l]) (_traceContext s) (_runtimeId s) (_leafFrame s).

(** [SetRuntimeId], [SetTimestamp], [SetTraceContext]. *)
Definition SetOrigin (runtimeId : string) (timestamp : Z) (c : TraceContext) (s : Sample) : Sample :=
  mkSample timestamp (_callstack s) (_values s) (_allLabels s) c runtimeId (_leafFrame s).

Definition string_of (k v : string) : Label := StringLabel k (Some v).

Definition offset (offsets : list Z) (i : Z) : result Z :=
  match zget offsets i with Some o => Returned o | None => Undefined end.

(** *** Values and labels of the raw samples *)

Definition GarbageCollectionNumberLabel := "gc number".
Definition GarbageCollectionGenerationLabel := "gc generation".
Definition GarbageCollectionReasonLabel := "gc reason".
Definition GarbageCollectionTypeLabel := "gc type".
Definition GarbageCollectionCompactingLabel := "gc compacting".
Definition TimelineEventTypeLabel := "event".

Definition _reasons : list string :=
  ["AllocSmall"; "Induced"; "LowMemory"; "Empty"; "AllocLarge"; "OutOfSpaceSOH"; "OutOfSpaceLOH"; "InducedNotForced";
   "Internal"; "InducedLowMemory"; "InducedCompacting"; "LowMemoryHost"; "PMFullGC"; "LowMemoryHostBlocking"].
Definition _types : list string := ["NonConcurrent"; "Background"; "Foreground"].

Definition GetReasonText (reason : Z) : string := default (pretty reason) (zget _reasons reason).
Definition GetTypeText (type : Z) : string := default (pretty type) (zget _types type).

Definition AddGenerationLabel (generation : Z) (s : Sample) : Sample :=
  AddLabel (string_of GarbageCollectionGenerationLabel
    (if generation =? 0 then "0" else if generation =? 1 then "1" else if generation =? 2 then "2"
     else pretty generation)) s.

Definition BuildCallStack (generation : Z) (s : Sample) : Sample :=
  let s := AddFrame (mkFrame "CLR" "Garbage Collector" "" 0) s in
  AddFrame (mkFrame "CLR"
    (if generation =? 0 then "gen0" else if generation =? 1 then "gen1" else if generation =? 2 then "gen2"
     else "unknown") "" 0) s.

(** [GCBaseRawSample::OnTransform] up to the part of the derived class. *)
Definition OnTransformGC (offsets : list Z) (value number generation : Z) (s : Sample) : result Sample :=
  o ← offset offsets 0;
  s ← AddValue value o s;
  let s := AddLabel (NumericLabel GarbageCollectionNumberLabel number) s in
  Returned (BuildCallStack generation (AddGenerationLabel generation s)).

Definition AdditionalGC (reason type : Z) (compacting : bool) (s : Sample) : Sample :=
  let s := AddLabel (string_of GarbageCollectionReasonLabel (GetReasonText reason)) s in
  let s := AddLabel (string_of GarbageCollectionTypeLabel (GetTypeText type)) s in
  let s := AddLabel (string_of GarbageCollectionCompactingLabel (if compacting then "true" else "false")) s in
  AddLabel (string_of TimelineEventTypeLabel "gc") s.

Definition OnTransformAllocation (offsets : list Z) (cls : string) (size : Z) (s : Sample) : result Sample :=
  o ← offset offsets 0;
  s ← AddValue 1 o s;
  s ← (if zlen offsets =? 2 then o ← offset offsets 1; AddValue size o s else Returned s);
  Returned (SetLeafFrame cls s).

Definition OnTransformThread (offsets : list Z) (k : ThreadEventKind) (s : Sample) : result Sample :=
  let s := match k with
    | ThreadStart => AddLabel (string_of TimelineEventTypeLabel "thread start") (AddFrame (mkFrame "CLR" "Thread Start" "" 0) s)
    | ThreadStop => AddLabel (string_of TimelineEventTypeLabel "thread stop") (AddFrame (mkFrame "CLR" "Thread Stop" "" 0) s)
    end in
  o ← offset offsets 0; AddValue 1 o s.

(** One value, or two. *)
Definition set_one (offsets : list Z) (v : Z) (s : Sample) : result Sample :=
  o ← offset offsets 0; AddValue v o s.
Definition set_two (offsets : list Z) (v w : Z) (s : Sample) : result Sample :=
  o ← offset offsets 0; s ← AddValue v o s; o ← offset offsets 1; AddValue w o s.

Definition OnTransform (d : RawData) (offsets : list Z) (s : Sample) : result Sample :=
  match d with
  | RawWallTime duration => set_one offsets duration s
  | RawCpu duration => set_two offsets duration 1 s
  | RawAllocation cls size => OnTransformAllocation offsets cls size s
  | RawContention duration => set_two offsets 1 duration s
  | RawException => set_one offsets 1 s
  | RawGarbageCollection number generation reason type compacting total =>
      s ← OnTransformGC offsets total number generation s;
      Returned (AdditionalGC reason type compacting s)
  | RawStopTheWorld number generation duration =>
      s ← OnTransformGC offsets duration number generation s;
      Returned (AddLabel (string_of TimelineEventTypeLabel "stw") s)
  | RawThreadLifetime k => OnTransformThread offsets k s
  end.

(** *** [RawSampleTransformer] *)

Context (GetFrame : Z -> bool * FrameInfoView) (GetId : Z -> option string).

Fixpoint SetStack (stack : list Z) (s : Sample) : Sample :=
  match stack with
  | [] => s
  | ip :: stack =>
      let '(isResolved, frame) := GetFrame ip in
      SetStack stack (if isResolved then AddFrame frame s else s)
  end.

Definition Transform (raw : RawSample) (offsets : list Z) (s : Sample) : result Sample :=
  let s := SampleReset s in
  let s := SetOrigin (default "" (GetId (AppDomainId raw))) (Timestamp raw) (RawContext raw) s in
  let s := foldl (fun s tag => AddLabel (string_of tag.1 tag.2) s) s (Tags raw) in
  let s := SetStack (Stack raw) s in
  OnTransform (Data raw) offsets s.
End samples.

(** ** The exporter *)

Record ProfileTypeEntry := mkEntry {
  startIndex : Z; count : Z; profileType : ProfileType; builder : PprofBuilder }.

Record UpscalingPoissonInfo := mkPoisson { Offsets : list Z; SamplingDistance : Z; SumOffset : Z }.

Record PprofExporter := mkExporter {
  _entries : list ProfileTypeEntry; _poissonUpscaleProviders : list UpscalingPoissonInfo }.

(** The inner loop of the constructor. *)
Fixpoint take_group (t : ProfileType) (defs : list SampleValueType) : list SampleValueType * list SampleValueType :=
  match defs with
  | d :: rest =>
      if decide (Type_ d = t) then let '(g, rest) := take_group t rest in (d :: g, rest) else ([], defs)
  | [] => ([], [])
  end.

Fixpoint make_entries (fuel : nat) (i : Z) (defs : list SampleValueType) : list ProfileTypeEntry :=
  match fuel, defs with
  | S fuel, d :: _ =>
      let '(groupTypes, rest) := take_group (Type_ d) defs in
      mkEntry i (zlen groupTypes) (Type_ d) (new_PprofBuilder groupTypes)
        :: make_entries fuel (i + zlen groupTypes) rest
  | _, _ => []
  end.

Definition new_PprofExporter (defs : list SampleValueType) : PprofExporter :=
  mkExporter (make_entries (length defs) 0 defs) [].

Definition RegisterUpscalePoissonProvider (info : UpscalingPoissonInfo) (e : PprofExporter) : PprofExporter :=
  mkExporter (_entries e) (_poissonUpscaleProviders e ++ [info]).

Definition AllZero (values : list Z) : bool := forallb (fun v => v =? 0) values.

(** A span of the values; what is behind the vector must not be read. *)
Definition span (values : list Z) (start count : Z) : option (list Z) :=
  if (0 <=? start) && (start + count <=? zlen values)
  then Some (take (Z.to_nat count) (drop (Z.to_nat start) values)) else None.

Definition add_to_entry (s : Sample) (e : ProfileTypeEntry) : option ProfileTypeEntry :=
  slice ← span (_values s) (startIndex e) (count e);
  if AllZero slice then Some e
  else b ← AddSample s slice (builder e); Some (mkEntry (startIndex e) (count e) (profileType e) b).

Definition AddSampleToEntries (s : Sample) (e : PprofExporter) : option PprofExporter :=
  entries ← mapM (add_to_entry s) (_entries e); Some (mkExporter entries (_poissonUpscaleProviders e)).

Section exporter.
Context (ValuesCount : Z).
Context {weight : Type} (ComputeUpscaleWeight : Z -> Z -> weight) (above_one : weight -> bool) (scale : Z -> weight -> Z).

Fixpoint upscale_offsets (offsets : list Z) (w : weight) (s : Sample) : result Sample :=
  match offsets with
  | [] => Returned s
  | idx :: offsets =>
      match zget (_values s) idx with
      | None => Undefined
      | Some v => s ← AddValue ValuesCount (scale v w) idx s; upscale_offsets offsets w s
      end
  end.

Definition upscale (info : UpscalingPoissonInfo) (s : Sample) : result Sample :=
  match zget (_values s) (SumOffset info) with
  | None => Returned s
  | Some size =>
      if size <=? 0 then Returned s
      else let w := ComputeUpscaleWeight size (SamplingDistance info) in
        if negb (above_one w) then Returned s else upscale_offsets (Offsets info) w s
  end.

Fixpoint upscale_all (infos : list UpscalingPoissonInfo) (s : Sample) : result Sample :=
  match infos with
  | [] => Returned s
  | info :: infos => s ← upscale info s; upscale_all infos s
  end.

(** The sample is shared with the caller, and left scaled. *)
Definition ExporterAdd (s : Sample) (e : PprofExporter) : result (Sample * PprofExporter) :=
  s ← upscale_all (_poissonUpscaleProviders e) s;
  match AddSampleToEntries s e with Some e => Returned (s, e) | None => Undefined end.

Context {bytes : Type} `{!EqDecision bytes} (no_bytes : bytes) (SerializeAsString : Profile -> bytes).

Fixpoint build_entries (t0 t1 : Z) (entries : list ProfileTypeEntry) : list (bytes * ProfileType) * list ProfileTypeEntry :=
  match entries with
  | [] => ([], [])
  | e :: entries =>
      let '(out, b) := Build no_bytes SerializeAsString t0 t1 (builder e) in
      let '(pprofs, rest) := build_entries t0 t1 entries in
      (if decide (out = no_bytes) then pprofs else (out, profileType e) :: pprofs,
       mkEntry (startIndex e) (count e) (profileType e) b :: rest)
  end.

Fixpoint add_process_samples (samples : list Sample) (e : PprofExporter) : option PprofExporter :=
  match samples with
  | [] => Some e
  | s :: samples => e ← AddSampleToEntries s e; add_process_samples samples e
  end.

(** [samples]: those of the providers of process samples.  The sink is called with the
    profiles unless there are none. *)
Definition ExporterExport (t0 t1 : Z) (samples : list Sample) (e : PprofExporter)
    : option (list (bytes * ProfileType) * PprofExporter) :=
  e ← add_process_samples samples e;
  let '(pprofs, entries) := build_entries t0 t1 (_entries e) in
  Some (pprofs, mkExporter entries (_poissonUpscaleProviders e)).
End exporter.

(** ** Layout of the values *)

Lemma register_types_spec vts index : forall defs,
  register_types vts index defs =
  (seqZ (zlen defs) (zlen vts), defs ++ ((fun t => mkValueType (Name t) (Unit t) (Type_ t) index) <$> vts)).
Proof.
  induction vts as [|t vts IH]; intros defs; cbn [register_types fmap list_fmap].
  - rewrite app_nil_r. by rewrite seqZ_nil by done.
  - rewrite IH, <- app_assoc, length_app. cbn [length app].
    rewrite (seqZ_cons (zlen defs) (Z.of_nat (S (length vts)))) by lia.
    repeat f_equal; lia.
Qed.

Definition with_index (index : Z) (t : SampleValueType) : SampleValueType :=
  mkValueType (Name t) (Unit t) (Type_ t) index.

(** The types as they are stored, and the offsets of the providers. *)
Fixpoint indexed (index : Z) (groups : list (list SampleValueType)) : list (list SampleValueType) :=
  match groups with
  | [] => []
  | g :: groups => (with_index (i32 index) <$> g) :: indexed (u32 (index + 1)) groups
  end.

Fixpoint offsets_of (i : Z) (groups : list (list SampleValueType)) : list (list Z) :=
  match groups with
  | [] => []
  | g :: groups => seqZ i (zlen g) :: offsets_of (i + zlen g) groups
  end.

Lemma register_all_spec groups : forall defs index,
  exists index', register_all groups (mkTypes defs index) =
    (offsets_of (zlen defs) groups, mkTypes (defs ++ concat (indexed index groups)) index').
Proof.
  induction groups as [|g groups IH]; intros defs index; cbn [register_all indexed offsets_of concat].
  - exists index. by rewrite app_nil_r.
  - unfold RegisterPyroscopeSampleType. rewrite register_types_spec. cbn [_definitions _nextIndex].
    destruct (IH (defs ++ (with_index (i32 index) <$> g)) (u32 (index + 1))) as [index' E].
    unfold with_index in E at 1. rewrite E. exists index'.
    rewrite length_app, length_fmap, Nat2Z.inj_add, <- app_assoc. done.
Qed.

(** A provider has values of one type, and no two providers the same. *)
Definition group_type (g : list SampleValueType) : ProfileType :=
  match g with t :: _ => Type_ t | [] => ProcessCpu end.
Definition group_ok (g : list SampleValueType) : Prop := g <> [] /\ Forall (fun t => Type_ t = group_type g) g.
Definition groups_ok (groups : list (list SampleValueType)) : Prop :=
  Forall group_ok groups /\ NoDup (group_type <$> groups).

Fixpoint entries_of (i : Z) (groups : list (list SampleValueType)) : list ProfileTypeEntry :=
  match groups with
  | [] => []
  | g :: groups => mkEntry i (zlen g) (group_type g) (new_PprofBuilder g) :: entries_of (i + zlen g) groups
  end.

Lemma take_group_app t g rest : Forall (fun d => Type_ d = t) g ->
  match rest with [] => True | d :: _ => Type_ d <> t end -> take_group t (g ++ rest) = (g, rest).
Proof.
  intros Hg Hr. induction Hg as [|d g Hd Hg IH]; cbn.
  - destruct rest as [|d rest]; [done|]. cbn. by rewrite decide_False.
  - rewrite decide_True by done. by rewrite IH.
Qed.

Lemma make_entries_groups groups : groups_ok groups -> forall fuel i, (length groups <= fuel)%nat ->
  make_entries fuel i (concat groups) = entries_of i groups.
Proof.
  intros [Hok Hnd]. induction groups as [|g groups IH]; intros fuel i Hf.
  - by destruct fuel.
  - apply Forall_cons in Hok as [[Hne Hg] Hok]. apply NoDup_cons in Hnd as [Hni Hnd].
    destruct fuel as [|fuel]; [cbn in Hf; lia|]. destruct g as [|d g]; [done|].
    cbn [concat entries_of make_entries app].
    change (d :: g ++ concat groups) with ((d :: g) ++ concat groups).
    rewrite (take_group_app (Type_ d) (d :: g) (concat groups) Hg).
    + rewrite IH; [done|done|done|cbn in Hf; lia].
    + destruct groups as [|h groups]; [done|]. apply Forall_cons in Hok as [[Hh _] _].
      destruct h as [|d' h]; [done|]. cbn. intros E. apply Hni. cbn. rewrite E. left.
Qed.

Lemma indexed_ok groups : groups_ok groups -> forall index, groups_ok (indexed index groups).
Proof.
  intros [Hok Hnd] index.
  assert (group_type <$> indexed index groups = group_type <$> groups) as Ht.
  { clear. revert index. induction groups as [|g groups IH]; intros index; [done|].
    cbn. rewrite IH. f_equal. by destruct g. }
  split; [|by rewrite Ht]. clear Ht Hnd. revert index.
  induction Hok as [|g groups [Hne Hg] _ IH]; intros index; constructor; [|apply IH].
  destruct g as [|d g]; [done|]. split; [done|]. apply Forall_fmap. eapply Forall_impl; [exact Hg|]. done.
Qed.

Lemma length_concat_groups (groups : list (list SampleValueType)) : Forall group_ok groups ->
  (length groups <= length (concat groups))%nat.
Proof.
  induction 1 as [|g groups [Hg _] _ IH]; cbn; [lia|]. rewrite length_app. destruct g; [done|cbn; lia].
Qed.

(** The entries of the exporter follow the registrations. *)
Lemma exporter_entries groups : groups_ok groups ->
  exists p, register_all groups new_SampleValueTypeProvider = (offsets_of 0 groups, p) /\
    _entries (new_PprofExporter (_definitions p)) = entries_of 0 (indexed 0 groups) /\
    zlen (_definitions p) = zlen (concat groups).
Proof.
  intros Hok. destruct (register_all_spec groups [] 0) as [index' E].
  exists (mkTypes (concat (indexed 0 groups)) index'). split_and!; [done| |].
  - pose proof (indexed_ok _ Hok 0) as Hok'. unfold new_PprofExporter. cbn.
    apply make_entries_groups; [done|]. by apply length_concat_groups, Hok'.
  - cbn. f_equal. clear. generalize 0. induction groups as [|g groups IH]; intros i; [done|].
    cbn. by rewrite !length_app, length_fmap, IH.
Qed.

(** Every value belongs to exactly one provider. *)
Lemma offsets_partition groups : forall i, concat (offsets_of i groups) = seqZ i (zlen (concat groups)).
Proof.
  induction groups as [|g groups IH]; intros i; cbn [offsets_of concat].
  - by rewrite seqZ_nil by done.
  - rewrite IH, length_app, Nat2Z.inj_add, seqZ_app by lia. done.
Qed.

(** ** What the exporter holds *)

Definition holds (e : ProfileTypeEntry) (d : list SampleData) : Prop :=
  represents (_sampleTypeDefinitions (builder e)) d (builder e).

(** The part of an entry that does not change. *)
Definition slot (e : ProfileTypeEntry) : Z * Z * ProfileType * list SampleValueType :=
  (startIndex e, count e, profileType e, _sampleTypeDefinitions (builder e)).

(** A sample that can be added: its labels are not null, and it has [vc] values. *)
Definition sample_ok (vc : Z) (s : Sample) : Prop :=
  Forall label_ok (_allLabels s) /\ zlen (_values s) = vc.

Definition in_range (vc : Z) (e : ProfileTypeEntry) : Prop :=
  0 <= startIndex e /\ 0 <= count e /\ startIndex e + count e <= vc.

(** What a sample adds to a profile. *)
Definition slice (values : list Z) (start count : Z) : list Z :=
  take (Z.to_nat count) (drop (Z.to_nat start) values).

Definition contribution (e : ProfileTypeEntry) (s : Sample) : list SampleData :=
  let values := slice (_values s) (startIndex e) (count e) in
  if AllZero values then [] else [sample_data s values].

Lemma contribution_slot e e' s : slot e = slot e' -> contribution e s = contribution e' s.
Proof. intros [= E1 E2 _ _]. unfold contribution. by rewrite E1, E2. Qed.

Lemma add_to_entry_holds vc s e d : sample_ok vc s -> in_range vc e -> holds e d ->
  exists e', add_to_entry s e = Some e' /\ slot e' = slot e /\ holds e' (d ++ contribution e s).
Proof.
  intros [Hl Hv] (Hs & Hc & Hr) He. unfold add_to_entry, span, contribution, slice.
  rewrite (proj2 (Z.leb_le 0 _)) by lia. rewrite (proj2 (Z.leb_le _ _)) by lia. cbn.
  set (vs := take _ _). destruct (AllZero vs).
  - exists e. by rewrite app_nil_r.
  - destruct (AddSample_represents _ _ s vs _ He Hl) as (b & Hb & Hrep). rewrite Hb. cbn. eexists. split; [done|].
    pose proof (rep_definitions _ _ _ Hrep) as Hd. split.
    + unfold slot. cbn. by rewrite Hd.
    + unfold holds. cbn. by rewrite Hd.
Qed.

(** A list of entries: the slots, and the data. *)
Definition all_hold (es : list ProfileTypeEntry) (ds : list (list SampleData)) : Prop := Forall2 holds es ds.

Lemma mapM_add_holds vc s es ds : sample_ok vc s -> Forall (in_range vc) es -> all_hold es ds ->
  exists es', mapM (add_to_entry s) es = Some es' /\ slot <$> es' = slot <$> es /\
    all_hold es' (zip_with (fun e d => d ++ contribution e s) es ds).
Proof.
  intros Hs Hr He. induction He as [|e d es ds He _ IH]; cbn; [exists []; split_and!; [done|done|constructor]|].
  apply Forall_cons in Hr as [Hr Hrs].
  destruct (add_to_entry_holds _ _ _ _ Hs Hr He) as (e' & -> & Hsl & He'). cbn.
  destruct (IH Hrs) as (es' & -> & Hsls & Hes'). cbn.
  exists (e' :: es'). split_and!; [done|cbn; by rewrite Hsl, Hsls|by constructor].
Qed.

Lemma in_range_slot vc es es' : slot <$> es' = slot <$> es -> Forall (in_range vc) es -> Forall (in_range vc) es'.
Proof.
  revert es'. induction es as [|e es IH]; intros [|e' es'] E Hr; [done|done|done|].
  apply Forall_cons in Hr as [Hr Hrs]. injection E as E1 E2 E3 E4 Es. constructor; [|by apply IH].
  unfold in_range. by rewrite E1, E2.
Qed.

(** The data after the samples [ss], in the order of the entries. *)
Definition add_data (es : list ProfileTypeEntry) (ss : list Sample) (ds : list (list SampleData)) : list (list SampleData) :=
  zip_with (fun e d => d ++ (ss ≫= contribution e)) es ds.

Lemma add_data_slot es es' ss : forall ds, slot <$> es' = slot <$> es -> add_data es' ss ds = add_data es ss ds.
Proof.
  revert es'. unfold add_data. induction es as [|e es IH]; intros [|e' es'] ds E; [done|done|done|].
  destruct ds as [|d ds]; [done|]. cbn [fmap list_fmap] in E.
  assert (slot e' = slot e /\ slot <$> es' = slot <$> es) as [E' Es] by (split; congruence). clear E. rename E' into E.
  cbn. rewrite IH by done. do 2 f_equal. clear -E. induction ss as [|s ss IH]; [done|].
  cbn. by rewrite IH, (contribution_slot e' e s E).
Qed.

Lemma add_data_one es s ds : add_data es [s] ds = zip_with (fun e d => d ++ contribution e s) es ds.
Proof. unfold add_data. cbn. revert ds. induction es as [|e es IH]; intros [|d ds]; [done..|]. cbn. by rewrite IH, app_nil_r. Qed.

Lemma add_data_app es ss ss' : forall ds, add_data es (ss ++ ss') ds = add_data es ss' (add_data es ss ds).
Proof.
  unfold add_data. induction es as [|e es IH]; intros [|d ds]; [done..|].
  cbn. rewrite IH, bind_app. by rewrite app_assoc.
Qed.

Lemma add_data_nil es ds : length es = length ds -> add_data es [] ds = ds.
Proof.
  unfold add_data. revert ds. induction es as [|e es IH]; intros [|d ds] E; [done..|].
  cbn. rewrite IH by (cbn in E; lia). by rewrite app_nil_r.
Qed.

(** [xs] are the samples added to an exporter that held [ds]. *)
Record exporting (vc : Z) (e0 : PprofExporter) (ds : list (list SampleData)) (e : PprofExporter) : Prop := {
  exp_slots : slot <$> _entries e = slot <$> _entries e0;
  exp_range : Forall (in_range vc) (_entries e0);
  exp_poisson : _poissonUpscaleProviders e = _poissonUpscaleProviders e0;
  exp_holds : all_hold (_entries e) ds }.

Lemma AddSampleToEntries_exporting vc e0 ds e s : exporting vc e0 ds e -> sample_ok vc s ->
  exists e', AddSampleToEntries s e = Some e' /\ exporting vc e0 (add_data (_entries e0) [s] ds) e'.
Proof.
  intros [Hsl Hr Hp Hh] Hs. unfold AddSampleToEntries.
  destruct (mapM_add_holds vc s _ _ Hs (in_range_slot _ _ _ Hsl Hr) Hh) as (es & -> & Hsl' & Hh').
  cbn. eexists. split; [done|]. split; cbn; [by rewrite Hsl'|done|done|].
  by rewrite <- (add_data_slot _ _ _ _ Hsl), add_data_one.
Qed.

Lemma add_process_samples_exporting vc e0 ss : forall ds e, exporting vc e0 ds e -> Forall (sample_ok vc) ss ->
  exists e', add_process_samples ss e = Some e' /\ exporting vc e0 (add_data (_entries e0) ss ds) e'.
Proof.
  induction ss as [|s ss IH]; intros ds e He Hs; cbn.
  - exists e. split; [done|]. rewrite add_data_nil; [done|].
    pose proof (Forall2_length _ _ _ (exp_holds _ _ _ _ He)) as Hl.
    rewrite <- Hl, <- (length_fmap slot), <- (length_fmap slot (_entries e)). by rewrite (exp_slots _ _ _ _ He).
  - apply Forall_cons in Hs as [Hs Hss].
    destruct (AddSampleToEntries_exporting _ _ _ _ _ He Hs) as (e1 & -> & He1). cbn.
    destruct (IH _ _ He1 Hss) as (e2 & -> & He2). exists e2. split; [done|].
    by rewrite <- add_data_app in He2.
Qed.

(** *** Export *)

Section export.
Context {bytes : Type} `{!EqDecision bytes} (no_bytes : bytes) (SerializeAsString : Profile -> bytes)
  (ParseFromString : bytes -> option Profile).
Hypothesis parse_serialize : forall p, ParseFromString (SerializeAsString p) = Some p.
Hypothesis serialize_nonempty : forall p, period p <> 0 -> SerializeAsString p <> no_bytes.

Abbreviation delivers := (delivers no_bytes ParseFromString).

(** The profiles that the data of the entries make. *)
Fixpoint expected_profiles (es : list ProfileTypeEntry) (ds : list (list SampleData)) (t0 t1 : Z)
    : list (ProfileData * ProfileType) :=
  match es, ds with
  | e :: es, d :: ds =>
      match d with
      | [] => expected_profiles es ds t0 t1
      | _ => (profile_of (_sampleTypeDefinitions (builder e)) d t0 t1, profileType e) :: expected_profiles es ds t0 t1
      end
  | _, _ => []
  end.

Definition delivered (out : bytes * ProfileType) (d : ProfileData * ProfileType) : Prop :=
  delivers out.1 (Some d.1) /\ out.2 = d.2.

Lemma build_entries_holds t0 t1 es : forall ds, all_hold es ds ->
  let '(pprofs, es') := build_entries no_bytes SerializeAsString t0 t1 es in
  slot <$> es' = slot <$> es /\ all_hold es' ((fun _ => []) <$> ds) /\
  Forall2 delivered pprofs (expected_profiles es ds t0 t1).
Proof.
  induction es as [|e es IH]; intros ds Hh; inversion Hh as [|? d ? ds' He Hes]; subst; cbn; [by split_and!|].
  pose proof (Build_delivers no_bytes SerializeAsString ParseFromString parse_serialize serialize_nonempty
    _ _ t0 t1 _ He) as Hb.
  destruct (Build _ _ t0 t1 (builder e)) as [out b]. destruct Hb as [Hrep Hout].
  specialize (IH _ Hes). destruct (build_entries _ _ t0 t1 es) as [pprofs es']. destruct IH as (Hsl & Hh' & Hd).
  pose proof (rep_definitions _ _ _ Hrep) as Hdef. split_and!.
  - cbn. rewrite Hsl. unfold slot at 1. cbn. by rewrite Hdef.
  - constructor; [|done]. unfold holds. cbn. by rewrite Hdef.
  - destruct d as [|d ds0]; cbn in Hout.
    + subst. by rewrite decide_True.
    + rewrite decide_False by apply Hout. by constructor.
Qed.

Lemma expected_profiles_slot es es' ds t0 t1 : slot <$> es' = slot <$> es ->
  expected_profiles es' ds t0 t1 = expected_profiles es ds t0 t1.
Proof.
  revert es' ds. induction es as [|e es IH]; intros [|e' es'] ds E; [done|done|done|].
  injection E as _ _ E3 E4 Es. destruct ds as [|d ds]; [done|]. cbn. rewrite (IH _ _ Es), E3, E4. done.
Qed.

Lemma ExporterExport_exporting vc e0 ds e t0 t1 ss : exporting vc e0 ds e -> Forall (sample_ok vc) ss ->
  exists pprofs e', ExporterExport no_bytes SerializeAsString t0 t1 ss e = Some (pprofs, e') /\
    exporting vc e0 ((fun _ => []) <$> ds) e' /\
    Forall2 delivered pprofs (expected_profiles (_entries e0) (add_data (_entries e0) ss ds) t0 t1).
Proof.
  intros He Hs. unfold ExporterExport.
  destruct (add_process_samples_exporting _ _ _ _ _ He Hs) as (e1 & -> & [Hsl Hr Hp Hh]). cbn.
  pose proof (build_entries_holds t0 t1 _ _ Hh) as Hb.
  destruct (build_entries _ _ t0 t1 (_entries e1)) as [pprofs es]. destruct Hb as (Hsl' & Hh' & Hd).
  eexists _, _. split; [done|]. split.
  - split; cbn; [by rewrite Hsl'|done|done|]. replace ((fun _ => []) <$> ds) with
      ((fun _ : list SampleData => [] : list SampleData) <$> add_data (_entries e0) ss ds); [done|].
    unfold add_data. assert (length (_entries e0) = length ds) as Hlen.
    { rewrite <- (Forall2_length _ _ _ (exp_holds _ _ _ _ He)), <- (length_fmap slot), <- (length_fmap slot (_entries e)).
      by rewrite (exp_slots _ _ _ _ He). }
    clear -Hlen. revert ds Hlen. induction (_entries e0) as [|x es IH]; intros [|d ds] E; [done..|].
    cbn. by rewrite IH by (cbn in E; lia).
  - by rewrite <- (expected_profiles_slot _ _ _ _ _ Hsl).
Qed.
End export.

(** ** Samples of a provider *)

(** The call returns, with a result that satisfies [Q]. *)
Definition returns {A} (r : result A) (Q : A -> Prop) : Prop :=
  match r with Returned a => Q a | _ => False end.

Lemma returns_bind {A B} (r : result A) (f : A -> result B) (P : A -> Prop) (Q : B -> Prop) :
  returns r P -> (forall a, P a -> returns (f a) Q) -> returns (r ≫= f) Q.
Proof. destruct r; cbn; [|done..]. intros Ha Hf. by apply Hf. Qed.

Lemma returns_inv {A} (r : result A) Q : returns r Q -> exists a, r = Returned a /\ Q a.
Proof. destruct r; cbn; [|done..]. eauto. Qed.

Section confined.
Context (vc : Z) (offsets : list Z).

(** The values outside of the offsets are zero. *)
Definition confined (s : Sample) : Prop :=
  sample_ok vc s /\ forall i v, zget (_values s) i = Some v -> v <> 0 -> i ∈ offsets.

(** The members that [confined] does not depend on. *)
Definition same_values (s s' : Sample) : Prop :=
  _values s' = _values s /\ (Forall label_ok (_allLabels s) -> Forall label_ok (_allLabels s')).

Lemma confined_same s s' : same_values s s' -> confined s -> confined s'.
Proof. intros [Hv Hl] [[? ?] Hc]. split; [split; [auto|by rewrite Hv]|by rewrite Hv]. Qed.

Lemma same_AddLabel l s : label_ok l -> same_values s (AddLabel l s).
Proof. intros Hl. split; [done|]. intros. apply Forall_app. split; [done|]. by constructor. Qed.

Lemma same_AddFrame f s : same_values s (AddFrame f s).
Proof. by split. Qed.

Lemma same_trans s1 s2 s3 : same_values s1 s2 -> same_values s2 s3 -> same_values s1 s3.
Proof. intros [H1 L1] [H2 L2]. split; [congruence|auto]. Qed.

Lemma string_of_ok k v : label_ok (string_of k v).
Proof. by exists v. Qed.
#[local] Hint Resolve same_AddLabel same_AddFrame string_of_ok : core.

Context (Hoff : Forall (fun i => 0 <= i < vc) offsets).

Lemma AddValue_confined v i s : i ∈ offsets -> confined s -> returns (AddValue vc v i s) confined.
Proof.
  intros Hi [[Hl Hv] Hc]. pose proof (proj1 (Forall_forall _ _) Hoff i Hi) as Hr. cbn in Hr. unfold AddValue.
  rewrite (proj2 (Z.leb_gt _ _)) by lia.
  rewrite zset_in_range by lia. cbn. split; [split; [done|cbn; by rewrite zlen_insert]|].
  intros j w Hj Hw. cbn in Hj. destruct (decide (i = j)) as [<-|Hne]; [done|].
  rewrite zget_insert_ne in Hj by lia. by apply (Hc j w).
Qed.

Lemma offset_returns i : 0 <= i < zlen offsets -> returns (offset offsets i) (fun o => o ∈ offsets).
Proof.
  intros Hi. unfold offset. destruct (zget_in_range offsets i Hi) as [o Ho]. rewrite Ho. cbn.
  apply zget_Some in Ho as [_ Ho]. by apply list_elem_of_lookup_2 in Ho.
Qed.

Lemma set_one_confined v s : 1 <= zlen offsets -> confined s -> returns (set_one vc offsets v s) confined.
Proof.
  intros Hn Hs. eapply returns_bind; [apply offset_returns; lia|]. intros o Ho. by apply AddValue_confined.
Qed.

Lemma set_two_confined v w s : 2 <= zlen offsets -> confined s -> returns (set_two vc offsets v w s) confined.
Proof.
  intros Hn Hs. eapply returns_bind; [apply offset_returns; lia|]. intros o Ho.
  eapply returns_bind; [by apply AddValue_confined|]. intros s' Hs'.
  eapply returns_bind; [apply offset_returns; lia|]. intros o' Ho'. by apply AddValue_confined.
Qed.

Lemma same_BuildCallStack g s : same_values s (BuildCallStack g s).
Proof. eapply same_trans; apply same_AddFrame. Qed.

Lemma OnTransformGC_confined v n g s : 1 <= zlen offsets -> confined s ->
  returns (OnTransformGC vc offsets v n g s) confined.
Proof.
  intros Hn Hs. eapply returns_bind; [apply offset_returns; lia|]. intros o Ho.
  eapply returns_bind; [by apply AddValue_confined|]. intros s' Hs'. cbn.
  eapply confined_same; [|exact Hs']. eapply same_trans; [|apply same_BuildCallStack].
  eapply same_trans; [by apply (same_AddLabel (NumericLabel GarbageCollectionNumberLabel n))|]. unfold AddGenerationLabel. auto.
Qed.

(** The number of values a raw sample sets. *)
Definition raw_fits (d : RawData) (n : Z) : Prop :=
  match d with RawCpu _ | RawContention _ => 2 <= n | _ => 1 <= n end.

Lemma OnTransform_confined d s : raw_fits d (zlen offsets) -> confined s ->
  returns (OnTransform vc d offsets s) confined.
Proof.
  intros Hf Hs. destruct d; cbn [OnTransform]; cbn in Hf.
  - by apply set_one_confined.
  - by apply set_two_confined.
  - eapply returns_bind; [apply offset_returns; lia|]. intros o Ho.
    eapply returns_bind; [by apply AddValue_confined|]. intros s' Hs'.
    eapply returns_bind; [|intros s'' Hs''; cbn; eapply confined_same; [|exact Hs'']; by split].
    destruct (Z.eqb_spec (zlen offsets) 2); [|done].
    eapply returns_bind; [apply offset_returns; lia|]. intros o' Ho'. by apply AddValue_confined.
  - by apply set_two_confined.
  - by apply set_one_confined.
  - eapply returns_bind; [by apply OnTransformGC_confined|]. intros s' Hs'. cbn.
    eapply confined_same; [|exact Hs']. unfold AdditionalGC.
    do 3 (eapply same_trans; [|apply same_AddLabel, string_of_ok]). auto.
  - eapply returns_bind; [by apply OnTransformGC_confined|]. intros s' Hs'. cbn.
    eapply confined_same; [|exact Hs']. auto.
  - unfold OnTransformThread. eapply returns_bind; [apply offset_returns; lia|]. intros o Ho.
    apply AddValue_confined; [done|]. destruct Kind; (eapply confined_same; [|exact Hs]; eapply same_trans; [apply same_AddFrame|auto]).
Qed.

Context (GetFrame : Z -> bool * FrameInfoView) (GetId : Z -> option string).

Lemma same_SetStack stack : forall s, same_values s (SetStack GetFrame stack s).
Proof.
  induction stack as [|ip stack IH]; intros s; cbn; [by split|].
  destruct (GetFrame ip) as [[] f]; [|apply IH]. eapply same_trans; [|apply IH]. auto.
Qed.

Lemma same_tags (tags : list (string * string)) : forall s,
  same_values s (foldl (fun s tag => AddLabel (string_of tag.1 tag.2) s) s tags).
Proof.
  induction tags as [|t tags IH]; intros s; cbn; [by split|]. eapply same_trans; [|apply IH]. auto.
Qed.

Lemma Transform_confined raw s : raw_fits (Data raw) (zlen offsets) -> zlen (_values s) = vc ->
  returns (Transform vc GetFrame GetId raw offsets s) confined.
Proof.
  intros Hf Hv. unfold Transform. apply OnTransform_confined; [done|].
  eapply confined_same; [apply same_SetStack|]. eapply confined_same; [apply same_tags|].
  split; [split; [done|cbn; by rewrite length_replicate]|].
  intros i v Hi Hne. apply zget_Some in Hi as [_ Hi]. cbn in Hi. apply lookup_replicate in Hi as [-> _]. done.
Qed.

(** The cached sample leaves nothing behind. *)
Lemma Transform_fresh raw s s' : length (_values s) = length (_values s') ->
  Transform vc GetFrame GetId raw offsets s = Transform vc GetFrame GetId raw offsets s'.
Proof. intros E. unfold Transform, SampleReset, SetOrigin. cbn. by rewrite E. Qed.

Context {weight : Type} (ComputeUpscaleWeight : Z -> Z -> weight) (above_one : weight -> bool) (scale : Z -> weight -> Z).

Lemma upscale_offsets_confined w os : Forall (fun o => o ∈ offsets) os -> forall s, confined s ->
  returns (upscale_offsets vc scale os w s) confined.
Proof.
  induction 1 as [|o os Ho _ IH]; intros s Hs; cbn [upscale_offsets]; [done|].
  pose proof (proj1 (Forall_forall _ _) Hoff o Ho) as Hr. cbn in Hr. destruct (zget_in_range (_values s) o) as [v ->].
  { destruct Hs as [[_ ->] _]. done. }
  eapply returns_bind; [by apply AddValue_confined|]. done.
Qed.

(** An upscaling stays within the values of the provider that asks for it. *)
Definition info_ok (info : UpscalingPoissonInfo) : Prop :=
  SumOffset info ∈ offsets -> Forall (fun o => o ∈ offsets) (Offsets info).

Lemma upscale_confined info s : info_ok info -> confined s ->
  returns (upscale vc ComputeUpscaleWeight above_one scale info s) confined.
Proof.
  intros Hi Hs. unfold upscale. destruct (zget (_values s) (SumOffset info)) as [size|] eqn:E; [|done].
  destruct (Z.leb_spec size 0); [done|]. destruct (above_one _); [|done].
  apply upscale_offsets_confined; [|done]. apply Hi. apply (proj2 Hs _ _ E). lia.
Qed.

Lemma upscale_all_confined infos : Forall info_ok infos -> forall s, confined s ->
  returns (upscale_all vc ComputeUpscaleWeight above_one scale infos s) confined.
Proof.
  induction 1 as [|info infos Hi _ IH]; intros s Hs; [done|]. cbn.
  eapply returns_bind; [by apply upscale_confined|]. done.
Qed.
End confined.

(** A sample that is confined elsewhere adds nothing to a profile. *)
Lemma contribution_elsewhere vc offsets e s : in_range vc e -> confined vc offsets s ->
  (forall i, startIndex e <= i < startIndex e + count e -> i ∉ offsets) -> contribution e s = [].
Proof.
  intros (Hs & Hc & Hr) [[_ Hv] Hconf] Hd. unfold contribution.
  assert (AllZero (slice (_values s) (startIndex e) (count e)) = true) as ->; [|done].
  apply forallb_forall. intros v Hin. apply Z.eqb_eq. destruct (decide (v = 0)) as [|Hne]; [done|].
  apply list_elem_of_In, list_elem_of_lookup in Hin as [j Hj]. unfold slice in Hj.
  apply lookup_take_Some in Hj as [Hj Hlt]. rewrite lookup_drop in Hj.
  destruct (Hd (startIndex e + Z.of_nat j)); [lia|]. apply (Hconf _ v); [|done].
  unfold zget. rewrite (proj2 (Z.ltb_ge _ _)) by lia. by rewrite Z2Nat.inj_add, Nat2Z.id by lia.
Qed.
