(* ===== verification/LiveObjects.v ===== *)
(** * Live objects

    Model of [LiveObjectsProvider.cpp] and [LiveObjectInfo.cpp]: sampled allocations are
    followed through weak handles, which are closed when a garbage collection shows that the
    object is gone.

    A [Sample] is shared between the provider and its readers: it lives in a heap, a list of
    samples, and an object holds its index.  The decision of the sampler and the answers of
    the profiling API are inputs of the calls; the calls of the API that open and close
    handles are logged.  [None] is undefined behaviour, an exception in the transformation
    included: it is not caught. *)
From stdpp Require Import base gmap list strings.
From S2P Require Import Prelude ThreadInfo PprofBuilder SampleExport.

Record LiveObjectInfo := mkInfo {
  _sample : nat; _address : Z; _weakHandle : Z; _objectTimestamp : Z; _gcCount : Z }.

Record LiveObjectsProvider := mkLive {
  _heapHandleLimit : Z; _liveOffsets : list Z; _monitoredObjects : list LiveObjectInfo }.

(** Calls of the profiling API. *)
Inductive HandleCall := CreateHandle (handle : Z) | DestroyHandle (handle : Z).

Record LiveState := mkLiveState { provider : LiveObjectsProvider; heap : list Sample; calls : list HandleCall }.

Definition SetHandle (handle : Z) (i : LiveObjectInfo) : LiveObjectInfo :=
  mkInfo (_sample i) (_address i) handle (_objectTimestamp i) (_gcCount i).

Definition IncrementGC (i : LiveObjectInfo) : LiveObjectInfo :=
  mkInfo (_sample i) (_address i) (_weakHandle i) (_objectTimestamp i) (u64 (_gcCount i + 1)).

Definition IsGen2 (i : LiveObjectInfo) : bool := 2 <=? _gcCount i.

(** [object]: what [GetObjectIDFromHandle] answers, [None] when it fails. *)
Definition IsAlive (GetObjectIDFromHandle : Z -> option Z) (handle : Z) : bool :=
  if handle =? 0 then false
  else match GetObjectIDFromHandle handle with Some object => negb (object =? 0) | None => false end.

Definition CloseWeakHandle (handle : Z) : list HandleCall :=
  if handle =? 0 then [] else [DestroyHandle handle].

(** [result]: the answer of [CreateHandle], [None] when it fails. *)
Definition CreateWeakHandle (result : option Z) (address : Z) : Z * list HandleCall :=
  if address =? 0 then (0, [])
  else match result with Some handle => (handle, [CreateHandle handle]) | None => (0, []) end.

(** The loop of [remove_if]. *)
Fixpoint remove_collected (GetObjectIDFromHandle : Z -> option Z) (l : list LiveObjectInfo)
    : list LiveObjectInfo * list HandleCall :=
  match l with
  | [] => ([], [])
  | info :: l =>
      let hasBeenCollected := negb (IsAlive GetObjectIDFromHandle (_weakHandle info)) in
      let here := if hasBeenCollected then CloseWeakHandle (_weakHandle info) else [] in
      let '(rest, log) := remove_collected GetObjectIDFromHandle l in
      (if hasBeenCollected then rest else IncrementGC info :: rest, here ++ log)
  end.

Definition OnGarbageCollectionEnd (GetObjectIDFromHandle : Z -> option Z) (s : LiveState) : LiveState :=
  let p := provider s in
  let '(objects, log) := remove_collected GetObjectIDFromHandle (_monitoredObjects p) in
  mkLiveState (mkLive (_heapHandleLimit p) (_liveOffsets p) objects) (heap s) (calls s ++ log).

(** The enumerator: the samples themselves. *)
Definition GetLiveSamples (p : LiveObjectsProvider) : list nat := _sample <$> _monitoredObjects p.

Section allocation.
Context (ValuesCount : Z) (GetFrame : Z -> bool * FrameInfoView) (GetId : Z -> option string).
Context {weight : Type} (ObjectWeight : Z -> weight) (above_one : weight -> bool) (scale : Z -> weight -> Z).

(** The two offsets are scaled one after the other. *)
Definition scale_value (offsets : list Z) (i : Z) (w : weight) (s : Sample) : result Sample :=
  o ← offset offsets i;
  match zget (_values s) o with None => Undefined | Some v => AddValue ValuesCount (scale v w) o s end.

(** [w]: the product of the two weights. *)
Definition live_sample (raw : RawSample) (cls : string) (size : Z) (offsets : list Z) : result Sample :=
  s ← Transform ValuesCount GetFrame GetId raw offsets (new_Sample ValuesCount (Timestamp raw) "");
  let objectSize := if size >? 0 then size else 1 in
  let w := ObjectWeight objectSize in
  s ← (if above_one w then s ← scale_value offsets 0 w s; scale_value offsets 1 w s else Returned s);
  Returned (SetLeafFrame cls s).

(** [sampled]: the decision of the sampler. *)
Definition OnLiveAllocation (sampled : bool) (handleResult : option Z) (address : Z) (raw : RawSample)
    (cls : string) (size : Z) (s : LiveState) : option LiveState :=
  if negb sampled then Some s
  else
    let p := provider s in
    if _heapHandleLimit p <=? zlen (_monitoredObjects p) then Some s
    else if address =? 0 then None                     (* the method table is written there *)
    else
      let '(handle, log) := CreateWeakHandle handleResult address in
      if handle =? 0 then Some (mkLiveState p (heap s) (calls s ++ log))
      else match live_sample raw cls size (_liveOffsets p) with
      | Returned sample =>
          let info := SetHandle handle (mkInfo (length (heap s)) address 0 (Timestamp raw) 0) in
          Some (mkLiveState (mkLive (_heapHandleLimit p) (_liveOffsets p) (_monitoredObjects p ++ [info]))
                  (heap s ++ [sample]) (calls s ++ log))
      | _ => None
      end.
End allocation.

(** ** Handles are balanced *)

Inductive LiveEvent :=
| Allocation (sampled : bool) (handleResult : option Z) (address : Z) (raw : RawSample) (cls : string) (size : Z)
| CollectionEnd (GetObjectIDFromHandle : Z -> option Z).

(** The handles that are open after a log; [None] when one is closed that is not open, or
    opened twice, or null. *)
Fixpoint open_handles (log : list HandleCall) (o : gset Z) : option (gset Z) :=
  match log with
  | [] => Some o
  | CreateHandle h :: log => if decide (h ∈ o \/ h = 0) then None else open_handles log ({[h]} ∪ o)
  | DestroyHandle h :: log => if decide (h ∈ o) then open_handles log (o ∖ {[h]}) else None
  end.

Lemma open_handles_app l1 l2 o : open_handles (l1 ++ l2) o = (o' ← open_handles l1 o; open_handles l2 o').
Proof.
  revert o. induction l1 as [|[h|h] l1 IH]; intros o; cbn; [done|..]; destruct (decide _); cbn; done || apply IH.
Qed.

Definition handles (l : list LiveObjectInfo) : list Z := _weakHandle <$> l.

Definition handles_ok (l : list LiveObjectInfo) : Prop := NoDup (handles l) /\ 0 ∉ handles l.

Lemma remove_collected_spec G l : 0 ∉ handles l ->
  let '(rest, log) := remove_collected G l in
  handles rest = filter (fun h => IsAlive G h) (handles l) /\
  log = DestroyHandle <$> filter (fun h => IsAlive G h = false) (handles l).
Proof.
  induction l as [|i l IH]; intros H0; cbn [remove_collected]; [done|]. cbn in H0.
  apply not_elem_of_cons in H0 as [Hi H0]. specialize (IH H0). destruct (remove_collected G l) as [rest log].
  destruct IH as [Hr Hl]. change (handles (i :: l)) with (_weakHandle i :: handles l). unfold CloseWeakHandle.
  rewrite (proj2 (Z.eqb_neq (_weakHandle i) 0)) by congruence.
  destruct (IsAlive G (_weakHandle i)) eqn:E; cbn [negb app].
  - rewrite !filter_cons, !E, (decide_True (P := Is_true true)), (decide_False (P := true = false)) by done. split; [|done].
    change (handles (IncrementGC i :: rest)) with (_weakHandle i :: handles rest). by rewrite Hr.
  - rewrite !filter_cons, !E, (decide_False (P := Is_true false)), (decide_True (P := false = false)) by (done || by intros []). by rewrite Hr, Hl.
Qed.

Lemma remove_collected_objects G l :
  (length (remove_collected G l).1 <= length l)%nat /\
  forall n, Forall (fun i => (_sample i < n)%nat) l -> Forall (fun i => (_sample i < n)%nat) (remove_collected G l).1.
Proof.
  induction l as [|i l [IHl IHf]]; cbn [remove_collected]; [done|]. destruct (remove_collected G l) as [rest log]. cbn in *.
  destruct (IsAlive G (_weakHandle i)); cbn; (split; [lia|]); intros n [Hi Hl]%Forall_cons; [constructor|]; auto.
Qed.

(** Closing a list of open handles. *)
Lemma open_destroy hs : NoDup hs -> forall o, list_to_set hs ⊆ o ->
  open_handles (DestroyHandle <$> hs) o = Some (o ∖ list_to_set hs).
Proof.
  induction 1 as [|h hs Hh _ IH]; intros o Ho; cbn.
  - f_equal. set_solver.
  - rewrite decide_True by set_solver. rewrite IH by set_solver. f_equal. set_solver.
Qed.

Section balance.
Context (ValuesCount : Z) (GetFrame : Z -> bool * FrameInfoView) (GetId : Z -> option string).
Context {weight : Type} (ObjectWeight : Z -> weight) (above_one : weight -> bool) (scale : Z -> weight -> Z).

Definition live_event (e : LiveEvent) (s : LiveState) : option LiveState :=
  match e with
  | Allocation sampled r address raw cls size =>
      OnLiveAllocation ValuesCount GetFrame GetId ObjectWeight above_one scale sampled r address raw cls size s
  | CollectionEnd G => Some (OnGarbageCollectionEnd G s)
  end.

(** The API gives a handle that is not null and not in use, and allocations have an address. *)
Definition event_ok (e : LiveEvent) (s : LiveState) : Prop :=
  match e with
  | Allocation sampled r address raw cls size =>
      address <> 0 /\ 2 <= zlen (_liveOffsets (provider s)) /\
      match r with Some h => h <> 0 /\ h ∉ handles (_monitoredObjects (provider s)) | None => True end /\
      raw_fits (Data raw) (zlen (_liveOffsets (provider s)))
  | CollectionEnd _ => True
  end.

Record live_inv (s : LiveState) : Prop := {
  live_handles : handles_ok (_monitoredObjects (provider s));
  live_open : open_handles (calls s) ∅ = Some (list_to_set (handles (_monitoredObjects (provider s))));
  live_limit : zlen (_monitoredObjects (provider s)) <= Z.max 0 (_heapHandleLimit (provider s));
  live_samples : Forall (fun i => (_sample i < length (heap s))%nat) (_monitoredObjects (provider s));
  live_offsets : Forall (fun i => 0 <= i < ValuesCount) (_liveOffsets (provider s)) }.

Lemma scale_value_confined offsets i w s : Forall (fun i => 0 <= i < ValuesCount) offsets -> 0 <= i < zlen offsets ->
  confined ValuesCount offsets s -> returns (scale_value ValuesCount scale offsets i w s) (confined ValuesCount offsets).
Proof.
  intros Ho Hi Hs. eapply returns_bind; [by apply offset_returns|]. intros o Hin.
  pose proof (proj1 (Forall_forall _ _) Ho o Hin) as Hr. cbn in Hr.
  destruct (zget_in_range (_values s) o) as [v ->]; [destruct Hs as [[_ ->] _]; done|]. by apply AddValue_confined.
Qed.

Lemma live_sample_returns raw cls size offsets : Forall (fun i => 0 <= i < ValuesCount) offsets -> 2 <= zlen offsets ->
  0 <= ValuesCount -> raw_fits (Data raw) (zlen offsets) ->
  returns (live_sample ValuesCount GetFrame GetId ObjectWeight above_one scale raw cls size offsets) (confined ValuesCount offsets).
Proof.
  intros Ho Hl Hv Hf. eapply returns_bind; [apply Transform_confined; [done|done|cbn; rewrite length_replicate; lia]|].
  intros s Hs. eapply returns_bind.
  - destruct (above_one _); [|exact Hs]. eapply returns_bind; [apply scale_value_confined; [done|lia|done]|].
    intros s1 Hs1. apply scale_value_confined; [done|lia|done].
  - intros s1 Hs1. eapply confined_same; [|exact Hs1]. by split.
Qed.

Lemma live_event_inv e s : 0 <= ValuesCount -> live_inv s -> event_ok e s ->
  exists s', live_event e s = Some s' /\ live_inv s'.
Proof.
  intros Hvc [[Hnd H0] Hopen Hlim Hsam Hoff] Hok. destruct e as [sampled r address raw cls size|G]; cbn.
  - unfold OnLiveAllocation. destruct Hok as (Ha & H2 & Hr & Hf).
    destruct sampled; [|by exists s]. cbn [negb].
    destruct (Z.leb_spec (_heapHandleLimit (provider s)) (zlen (_monitoredObjects (provider s)))); [by exists s|].
    rewrite (proj2 (Z.eqb_neq address 0)) by done. unfold CreateWeakHandle. rewrite (proj2 (Z.eqb_neq address 0)) by done.
    destruct r as [h|]; [|eexists; split; [done|]; split; cbn; rewrite ?app_nil_r; done].
    destruct Hr as [Hh Hni]. rewrite (proj2 (Z.eqb_neq h 0)) by done.
    destruct (returns_inv _ _ (live_sample_returns raw cls size _ Hoff H2 Hvc Hf)) as (sm & -> & _).
    eexists. split; [done|]. split; cbn [provider _monitoredObjects calls heap _heapHandleLimit _liveOffsets]; [split| | | |done].
    + unfold handles. rewrite fmap_app. apply NoDup_app. split_and!; [done| |apply NoDup_singleton].
      intros x Hx ->%list_elem_of_singleton. done.
    + unfold handles. rewrite fmap_app, elem_of_app. cbn. intros [?|?%list_elem_of_singleton]; [done|congruence].
    + rewrite open_handles_app, Hopen. cbn. rewrite decide_False.
      * f_equal. unfold handles. rewrite fmap_app, list_to_set_app_L. cbn. set_solver.
      * intros [Hin|?]; [|done]. apply Hni. by apply elem_of_list_to_set in Hin.
    + rewrite length_app. cbn. lia.
    + apply Forall_app. split; [|constructor; [cbn; rewrite length_app; cbn; lia|done]].
      eapply Forall_impl; [exact Hsam|]. intros i Hi. cbn in *. rewrite length_app. lia.
  - eexists. split; [done|]. unfold OnGarbageCollectionEnd. pose proof (remove_collected_spec G _ H0) as Hspec.
    pose proof (remove_collected_objects G (_monitoredObjects (provider s))) as (Hlen & Hobj).
    destruct (remove_collected G (_monitoredObjects (provider s))) as [rest log]. destruct Hspec as [Hh ->].
    split; cbn [provider _monitoredObjects calls heap _heapHandleLimit _liveOffsets]; [split| | | |done].
    + rewrite Hh. by apply NoDup_filter.
    + rewrite Hh. intros [_ ?]%list_elem_of_filter. done.
    + rewrite open_handles_app, Hopen. cbn. rewrite open_destroy.
      * f_equal. rewrite Hh. apply set_eq. intros x. rewrite elem_of_difference, !elem_of_list_to_set, !list_elem_of_filter.
        destruct (IsAlive G x); naive_solver.
      * by apply NoDup_filter.
      * intros x. rewrite !elem_of_list_to_set, list_elem_of_filter. tauto.
    + cbn in *. lia.
    + by apply Hobj.
Qed.

Fixpoint live_run (events : list LiveEvent) (s : LiveState) : option LiveState :=
  match events with
  | [] => Some s
  | e :: events => s ← live_event e s; live_run events s
  end.

Fixpoint events_ok (events : list LiveEvent) (s : LiveState) : Prop :=
  match events with
  | [] => True
  | e :: events => event_ok e s /\ match live_event e s with Some s' => events_ok events s' | None => True end
  end.

Lemma live_run_inv events : 0 <= ValuesCount -> forall s, live_inv s -> events_ok events s ->
  exists s', live_run events s = Some s' /\ live_inv s'.
Proof.
  intros Hv. induction events as [|e events IH]; intros s Hs Hok; cbn; [by exists s|].
  destruct Hok as [He Hok]. destruct (live_event_inv e s Hv Hs He) as (s1 & E & Hs1). rewrite E in *. by apply IH.
Qed.

(** C31: the weak handles are balanced.  For every sequence of allocations and collections,
    as long as the runtime gives handles that are not in use, no handle is closed that is
    not open or closed twice, the open handles are exactly those of the monitored objects,
    one each, there are never more than the configured limit, and every monitored object
    has its sample. *)
Theorem weak_handles_balanced limit offsets events samples :
  let s0 := mkLiveState (mkLive limit offsets []) samples [] in
  0 <= ValuesCount -> Forall (fun i => 0 <= i < ValuesCount) offsets -> events_ok events s0 ->
  exists s, live_run events s0 = Some s /\
    open_handles (calls s) ∅ = Some (list_to_set (handles (_monitoredObjects (provider s)))) /\
    NoDup (handles (_monitoredObjects (provider s))) /\
    zlen (_monitoredObjects (provider s)) <= Z.max 0 (_heapHandleLimit (provider s)) /\
    Forall (fun r => is_Some (heap s !! r)) (GetLiveSamples (provider s)).
Proof.
  intros s0 Hv Ho Hok. assert (live_inv s0) as H0.
  { split; [split; [constructor|apply not_elem_of_nil]|done|cbn; lia|constructor|done]. }
  destruct (live_run_inv events Hv s0 H0 Hok) as (s & -> & [[Hnd _] Hopen Hlim Hsam _]).
  exists s. split_and!; [done..|]. unfold GetLiveSamples. apply Forall_fmap. eapply Forall_impl; [exact Hsam|].
  intros i Hi. by apply lookup_lt_is_Some.
Qed.
End balance.

(** The premises of an event, on a concrete state. *)
Ltac check_event :=
  first [exact I|
    cbn [event_ok provider _monitoredObjects _liveOffsets handles fmap list_fmap _weakHandle Data raw_fits length];
    split; [lia|]; split; [cbn; lia|]; split; [|cbn; lia];
    first [exact I|split; [lia|let H := fresh in intros H; apply list_elem_of_In in H; cbn in H; lia]]].

Module Example_live.
Definition raw : RawSample := mkRaw 0 0 zero_context [] [7] (RawAllocation "String" 24).
Definition GetFrame (ip : Z) : bool * FrameInfoView := (true, mkFrame "mod" "f" "" 0).
Definition events : list LiveEvent :=
  [Allocation true (Some 1) 100 raw "String" 24; Allocation false (Some 2) 200 raw "String" 24;
   Allocation true None 200 raw "String" 24; Allocation true (Some 2) 200 raw "String" 24;
   CollectionEnd (fun h => if h =? 1 then Some 0 else Some 500); Allocation true (Some 1) 300 raw "String" 24;
   Allocation true (Some 3) 400 raw "String" 24].
Definition start : LiveState := mkLiveState (mkLive 2 [0; 1] []) [] [].

(** The handle of the dead object is closed and given again; the last allocation is over
    the limit. *)
Example handles_of_events :
  (fun s => (calls s, handles (_monitoredObjects (provider s)))) <$>
    live_run 2 GetFrame (fun _ => None) (fun _ => tt) (fun _ => true) (fun v _ => 3 * v) events start =
  Some ([CreateHandle 1; CreateHandle 2; DestroyHandle 1; CreateHandle 1], [2; 1]).
Proof. vm_compute. reflexivity. Qed.
End Example_live.

Lemma weak_handles_balanced_witness :
  exists s, live_run 2 Example_live.GetFrame (fun _ => None) (fun _ => tt) (fun _ => true) (fun v _ => 3 * v)
      Example_live.events Example_live.start = Some s /\
    open_handles (calls s) ∅ = Some (list_to_set (handles (_monitoredObjects (provider s)))) /\
    NoDup (handles (_monitoredObjects (provider s))) /\
    zlen (_monitoredObjects (provider s)) <= Z.max 0 (_heapHandleLimit (provider s)) /\
    Forall (fun r => is_Some (heap s !! r)) (GetLiveSamples (provider s)).
Proof.
  apply (weak_handles_balanced 2 Example_live.GetFrame (fun _ => None) (fun _ => tt) (fun _ => true) (fun v _ => 3 * v)).
  - lia.
  - repeat constructor; lia.
  - unfold Example_live.events. cbn [events_ok].
    repeat (split; [check_event|match goal with |- match ?x with _ => _ end =>
      let r := eval vm_compute in x in change x with r end; cbv beta iota; cbn [events_ok]]).
    exact I.
Defined.
