(* ===== verification/SamplesCollector.v ===== *)
(** * Collecting and exporting samples

    Model of [CollectorBase.h] and [SamplesCollector.cpp]: the providers store raw samples, a
    worker thread moves them through one cached sample into the exporter, and an exporter
    thread closes the profiles, after it has added the live objects.

    The calls on the collector are under one lock: they are the steps below.  Samples are
    shared: they live in a heap, of which the cached sample and the live objects are
    indexes, and the enumerator of the live objects replaces the cached index by theirs.
    [None] is undefined behaviour.  What an exception leaves in the cached sample is dropped:
    the next transformation resets it.  The metric of an export is the list of its values. *)
From stdpp Require Import base gmap list strings.
From S2P Require Import Prelude ThreadInfo PprofBuilder SampleExport LiveObjects.

(** ** Providers *)

Record Provider := mkProvider { _valueOffsets : list Z; _collectedSamples : list RawSample }.

Definition ProviderAdd (raw : RawSample) (p : Provider) : Provider :=
  mkProvider (_valueOffsets p) (_collectedSamples p ++ [raw]).

Definition GetSamples (p : Provider) : list RawSample * Provider :=
  (_collectedSamples p, mkProvider (_valueOffsets p) []).

(** ** The collector *)

Record SamplesCollector := mkCollector {
  _samplesProviders : list (Provider * Z); _batchedSamplesProviders : list (LiveObjectsProvider * Z);
  _cachedSample : nat; _exporter : PprofExporter }.

Definition Register (p : Provider) (c : SamplesCollector) : SamplesCollector :=
  mkCollector ((p, 0) :: _samplesProviders c) (_batchedSamplesProviders c) (_cachedSample c) (_exporter c).

Definition RegisterBatchedProvider (p : LiveObjectsProvider) (c : SamplesCollector) : SamplesCollector :=
  mkCollector (_samplesProviders c) ((p, 0) :: _batchedSamplesProviders c) (_cachedSample c) (_exporter c).

Section collector.
Context (vc : Z) (GetFrame : Z -> bool * FrameInfoView) (GetId : Z -> option string).
Context {weight : Type} (ComputeUpscaleWeight : Z -> Z -> weight) (above_one : weight -> bool) (scale : Z -> weight -> Z).
Context {bytes : Type} `{!EqDecision bytes} (no_bytes : bytes) (SerializeAsString : Profile -> bytes)
  (ParseFromString : bytes -> option Profile).

Abbreviation Transform := (Transform vc GetFrame GetId).
Abbreviation ExporterAdd := (ExporterAdd vc ComputeUpscaleWeight above_one scale).

(** The cached sample is allocated by the constructor. *)
Definition new_SamplesCollector (e : PprofExporter) (h : list Sample) : SamplesCollector * list Sample :=
  (mkCollector [] [] (length h) e, h ++ [new_Sample vc 0 ""]).

(** The loop over the enumerator of a provider; an exception ends it. *)
Fixpoint move_samples (raws : list RawSample) (offsets : list Z) (cached : nat) (h : list Sample) (e : PprofExporter)
    : option (list Sample * PprofExporter) :=
  match raws with
  | [] => Some (h, e)
  | raw :: raws =>
      s ← h !! cached;
      match Transform raw offsets s with
      | Undefined => None
      | Threw => Some (h, e)
      | Returned s =>
          let h := <[cached := s]> h in
          match _callstack s with
          | [] => move_samples raws offsets cached h e
          | _ =>
              match ExporterAdd s e with
              | Undefined => None
              | Threw => Some (h, e)
              | Returned (s, e) => move_samples raws offsets cached (<[cached := s]> h) e
              end
          end
      end
  end.

Fixpoint CollectSamples (providers : list (Provider * Z)) (cached : nat) (h : list Sample) (e : PprofExporter)
    : option (list (Provider * Z) * list Sample * PprofExporter) :=
  match providers with
  | [] => Some ([], h, e)
  | (p, count) :: providers =>
      let '(samples, p) := GetSamples p in
      let count := u64 (count + zlen samples) in
      '(h, e) ← move_samples samples (_valueOffsets p) cached h e;
      '(providers, h, e) ← CollectSamples providers cached h e;
      Some ((p, count) :: providers, h, e)
  end.

(** The same loop over the live objects: the cached sample becomes theirs. *)
Fixpoint move_live (refs : list nat) (cached : nat) (h : list Sample) (e : PprofExporter)
    : option (nat * list Sample * PprofExporter) :=
  match refs with
  | [] => Some (cached, h, e)
  | cached :: refs =>
      s ← h !! cached;
      match _callstack s with
      | [] => move_live refs cached h e
      | _ =>
          match ExporterAdd s e with
          | Undefined => None
          | Threw => Some (cached, h, e)
          | Returned (s, e) => move_live refs cached (<[cached := s]> h) e
          end
      end
  end.

Fixpoint CollectLive (providers : list (LiveObjectsProvider * Z)) (cached : nat) (h : list Sample) (e : PprofExporter)
    : option (list (LiveObjectsProvider * Z) * nat * list Sample * PprofExporter) :=
  match providers with
  | [] => Some ([], cached, h, e)
  | (p, count) :: providers =>
      let samples := GetLiveSamples p in
      let count := u64 (count + zlen samples) in
      '(cached, h, e) ← move_live samples cached h e;
      '(providers, cached, h, e) ← CollectLive providers cached h e;
      Some ((p, count) :: providers, cached, h, e)
  end.

(** The heap, what the sink got, the metric, and the handles of the live objects. *)
Record World := mkWorld {
  collector : SamplesCollector; samples : list Sample; sent : list (list (bytes * ProfileType)); heartbeats : list bool;
  handleCalls : list HandleCall }.

Definition with_collector (c : SamplesCollector) (h : list Sample) (w : World) : World :=
  mkWorld c h (sent w) (heartbeats w) (handleCalls w).

(** An iteration of [SamplesWork]. *)
Definition CollectTick (w : World) : option World :=
  let c := collector w in
  '(ps, h, e) ← CollectSamples (_samplesProviders c) (_cachedSample c) (samples w) (_exporter c);
  Some (with_collector (mkCollector ps (_batchedSamplesProviders c) (_cachedSample c) e) h w).

Definition reset_counts {P} (ps : list (P * Z)) : list (P * Z) := (fun p => (p.1, 0)) <$> ps.

(** [process]: the samples of the providers of process samples, and whether one threw. *)
Definition CollectorExport (startTime endTime : Z) (process : list Sample * bool) (w : World) : option World :=
  let c := collector w in
  '(bs, cached, h, e) ← CollectLive (_batchedSamplesProviders c) (_cachedSample c) (samples w) (_exporter c);
  let ps := reset_counts (_samplesProviders c) in
  let bs := reset_counts bs in
  if process.2 then
    e ← add_process_samples process.1 e;
    Some (mkWorld (mkCollector ps bs cached e) h (sent w) (heartbeats w ++ [false; false]) (handleCalls w))
  else
    '(pprofs, e) ← ExporterExport no_bytes SerializeAsString startTime endTime process.1 e;
    Some (mkWorld (mkCollector ps bs cached e) h
            (match pprofs with [] => sent w | _ => sent w ++ [pprofs] end) (heartbeats w ++ [true]) (handleCalls w)).

(** [StopImpl], once the two threads have ended. *)
Definition StopImpl (startTime endTime : Z) (process : list Sample * bool) (w : World) : option World :=
  w ← CollectTick w; CollectorExport startTime endTime process w.

(** ** Runs *)

Inductive CollectorStep :=
| Emit (k : nat) (raw : RawSample)
| Live (k : nat) (ev : LiveEvent)
| Collect
| ExportAt (startTime endTime : Z) (process : list Sample * bool).

Definition emit (k : nat) (raw : RawSample) (c : SamplesCollector) : SamplesCollector :=
  mkCollector (alter (fun p : Provider * Z => (ProviderAdd raw p.1, p.2)) k (_samplesProviders c))
    (_batchedSamplesProviders c) (_cachedSample c) (_exporter c).

(** An allocation or a collection, for a provider of live objects. *)
Definition live (ObjectWeight : Z -> weight) (k : nat) (ev : LiveEvent) (w : World) : option World :=
  let c := collector w in
  match _batchedSamplesProviders c !! k with
  | None => Some w
  | Some (p, count) =>
      s ← live_event vc GetFrame GetId ObjectWeight above_one scale ev (mkLiveState p (samples w) (handleCalls w));
      let bs := <[k := (provider s, count)]> (_batchedSamplesProviders c) in
      Some (mkWorld (mkCollector (_samplesProviders c) bs (_cachedSample c) (_exporter c)) (heap s) (sent w)
              (heartbeats w) (calls s))
  end.

Context (ObjectWeight : Z -> weight).

Definition collector_step (s : CollectorStep) (w : World) : option World :=
  match s with
  | Emit k raw => Some (with_collector (emit k raw (collector w)) (samples w) w)
  | Live k ev => live ObjectWeight k ev w
  | Collect => CollectTick w
  | ExportAt startTime endTime process => CollectorExport startTime endTime process w
  end.

Fixpoint run_collector (steps : list CollectorStep) (w : World) : option World :=
  match steps with
  | [] => Some w
  | s :: steps => w ← collector_step s w; run_collector steps w
  end.

(** ** Specification *)

(** The values of a sample at the offsets of its provider. *)
Definition own_values (offsets : list Z) (s : Sample) : list Z :=
  (fun i => default 0 (zget (_values s) i)) <$> offsets.

(** What a raw sample is in the profile of its provider: nothing without a callstack or
    when all its values are zero. *)
Definition exported (infos : list UpscalingPoissonInfo) (offsets : list Z) (raw : RawSample) : list SampleData :=
  match Transform raw offsets (new_Sample vc 0 "") with
  | Returned s =>
      match _callstack s, upscale_all vc ComputeUpscaleWeight above_one scale infos s with
      | _ :: _, Returned s =>
          if AllZero (own_values offsets s) then [] else [sample_data s (own_values offsets s)]
      | _, _ => []
      end
  | _ => []
  end.

(** The raw samples of the provider with these offsets. *)
Definition emitted (ps : list (list Z)) (offsets : list Z) (steps : list CollectorStep) : list RawSample :=
  steps ≫= fun s => match s with
    | Emit k raw => if decide (ps !! k = Some offsets) then [raw] else []
    | _ => []
    end.

(** The samples of the profiles of one type, in the order they were sent. *)
Definition read_samples (t : ProfileType) (pprofs : list (bytes * ProfileType)) : list SampleData :=
  pprofs ≫= fun p =>
    if decide (p.2 = t) then
      match ParseFromString p.1 ≫= read_profile with Some d => d_samples d | None => [] end
    else [].
End collector.

(** ** Layout *)

Lemma offsets_entries groups : Forall group_ok groups -> forall i j m os, offsets_of i groups !! m = Some os -> 0 <= i ->
  exists e g, entries_of i (indexed j groups) !! m = Some e /\ groups !! m = Some g /\
    os = seqZ (startIndex e) (count e) /\ count e = zlen g /\ 0 <= startIndex e /\
    startIndex e + count e <= i + zlen (concat groups) /\ profileType e = group_type g /\ os <> [].
Proof.
  induction 1 as [|g groups [Hne Hg] _ IH]; intros i j [|m] os Hm Hi; cbn in Hm |- *; [done|done| |].
  - injection Hm as <-. eexists _, g. split_and!; [done|done|cbn; by rewrite length_fmap|cbn; by rewrite length_fmap|done| | |].
    + cbn. rewrite length_fmap, length_app. lia.
    + destruct g; done.
    + destruct g as [|t g]; [done|]. rewrite seqZ_cons by (cbn; lia). done.
  - rewrite length_fmap. destruct (IH (i + zlen g) (u32 (j + 1)) m os Hm) as (e & h & He & Hh & Hos & Hc & Hs & Hr & Ht & Hn); [lia|].
    exists e, h. split_and!; try done. rewrite length_app. lia.
Qed.

Lemma concat_disjoint {A} (ls : list (list A)) : NoDup (concat ls) -> forall m m' a b x,
  ls !! m = Some a -> ls !! m' = Some b -> x ∈ a -> x ∈ b -> m = m'.
Proof.
  assert (forall (ls : list (list A)) m b x, ls !! m = Some b -> x ∈ b -> x ∈ concat ls) as Hin.
  { clear. induction ls as [|l ls IH]; intros [|m] b x Hm Hx; cbn in *; [done|done| |].
    - injection Hm as ->. apply elem_of_app. by left.
    - apply elem_of_app. right. by eapply IH. }
  induction ls as [|l ls IH]; intros Hnd [|m] [|m'] a b x Ha Hb Hxa Hxb; cbn in *; try done.
  - apply NoDup_app in Hnd as (_ & Hd & _). injection Ha as ->. exfalso. by eapply Hd, Hin.
  - apply NoDup_app in Hnd as (_ & Hd & _). injection Hb as ->. exfalso. by eapply Hd, Hin.
  - apply NoDup_app in Hnd as (_ & _ & Hnd). f_equal. by eapply IH.
Qed.

(** The values of the offsets are the slice of the entry. *)
Lemma slice_seqZ values start count : 0 <= start -> 0 <= count -> start + count <= zlen values ->
  slice values start count = (fun i => default 0 (zget values i)) <$> seqZ start count.
Proof.
  intros Hs Hc Hr. apply list_eq. intros j. rewrite list_lookup_fmap. unfold slice.
  destruct (decide (Z.of_nat j < count)) as [Hj|Hj].
  - rewrite lookup_seqZ_lt by done. cbn. rewrite lookup_take_lt, lookup_drop by lia.
    unfold zget. rewrite (proj2 (Z.ltb_ge _ _)) by lia. rewrite Z2Nat.inj_add, Nat2Z.id by lia.
    destruct (lookup_lt_is_Some_2 values (Z.to_nat start + j)) as [v Hv]; [lia|]. by rewrite Hv.
  - rewrite lookup_seqZ_ge by lia. rewrite lookup_take_ge by lia. done.
Qed.

(** Reading the profiles of one type gives the data of its entry. *)
Section reading.
Context {bytes : Type} (no_bytes : bytes) (ParseFromString : bytes -> option Profile).

Lemma delivered_samples out d : delivered no_bytes ParseFromString out d ->
  match ParseFromString out.1 ≫= read_profile with Some d => d_samples d | None => [] end = d_samples d.1.
Proof. intros [(_ & p & Hp & Hr & _) _]. by rewrite Hp; cbn; rewrite Hr. Qed.

Lemma read_samples_skip t es : forall ds t0 t1 pprofs,
  Forall2 (delivered no_bytes ParseFromString) pprofs (expected_profiles es ds t0 t1) ->
  t ∉ profileType <$> es -> read_samples ParseFromString t pprofs = [].
Proof.
  induction es as [|e es IH]; intros ds t0 t1 pprofs Hp Ht; cbn in Hp.
  - by apply Forall2_nil_inv_r in Hp as ->.
  - cbn in Ht. apply not_elem_of_cons in Ht as [Hne Ht]. destruct ds as [|d ds]; [by apply Forall2_nil_inv_r in Hp as ->|].
    destruct d as [|x d]; [by eapply IH|].
    apply Forall2_cons_inv_r in Hp as (out & outs & [_ Ho] & Hp & ->). cbn in *.
    rewrite decide_False by congruence. by eapply IH.
Qed.

Lemma read_samples_entry es : NoDup (profileType <$> es) -> forall ds t0 t1 pprofs m e d,
  Forall2 (delivered no_bytes ParseFromString) pprofs (expected_profiles es ds t0 t1) ->
  es !! m = Some e -> ds !! m = Some d -> read_samples ParseFromString (profileType e) pprofs = d.
Proof.
  induction es as [|e0 es IH]; intros Hnd ds t0 t1 pprofs m e d Hp Hm Hd; [done|].
  cbn in Hnd. apply NoDup_cons in Hnd as [Hni Hnd]. destruct ds as [|d0 ds]; [done|]. cbn in Hp.
  destruct m as [|m]; cbn in Hm, Hd.
  - injection Hm as ->. injection Hd as ->. destruct d as [|x d]; [by eapply read_samples_skip|].
    apply Forall2_cons_inv_r in Hp as (out & outs & Ho & Hp & ->).
    pose proof (delivered_samples _ _ Ho) as Hr. destruct Ho as [_ Ho]. unfold read_samples in *. cbn in *.
    rewrite decide_True by done. rewrite Hr. cbn.
    pose proof (read_samples_skip _ _ _ _ _ _ Hp Hni) as Hs. unfold read_samples in Hs. rewrite Hs. by rewrite app_nil_r.
  - assert (profileType e ∈ profileType <$> es) as Hin.
    { apply list_elem_of_fmap. exists e. split; [done|]. by eapply list_elem_of_lookup_2. }
    destruct d0 as [|x d0]; [by eapply IH|].
    apply Forall2_cons_inv_r in Hp as (out & outs & [_ Ho] & Hp & ->). cbn in *.
    rewrite decide_False; [by eapply IH|]. intros E. apply Hni. by rewrite <- Ho, E.
Qed.

Lemma read_samples_app t l l' :
  read_samples ParseFromString t (l ++ l') = read_samples ParseFromString t l ++ read_samples ParseFromString t l'.
Proof. apply bind_app. Qed.
End reading.

(** ** Every raw sample is exported once *)

Section delivery.
Context (GetFrame : Z -> bool * FrameInfoView) (GetId : Z -> option string).
Context {weight : Type} (ComputeUpscaleWeight : Z -> Z -> weight) (above_one : weight -> bool) (scale : Z -> weight -> Z).
Context {bytes : Type} `{!EqDecision bytes} (no_bytes : bytes) (SerializeAsString : Profile -> bytes)
  (ParseFromString : bytes -> option Profile).
Hypothesis parse_serialize : forall p, ParseFromString (SerializeAsString p) = Some p.
Hypothesis serialize_nonempty : forall p, period p <> 0 -> SerializeAsString p <> no_bytes.

(** The types that the providers register, and the offsets of the providers of the collector,
    which has no provider of live objects. *)
Context (groups : list (list SampleValueType)) (Hgroups : groups_ok groups).
Context (ps : list (list Z)) (infos : list UpscalingPoissonInfo).

Abbreviation vc := (zlen (concat groups)).
Abbreviation offsets := (offsets_of 0 groups).
Abbreviation entries := (entries_of 0 (indexed 0 groups)).
Abbreviation exported := (exported vc GetFrame GetId ComputeUpscaleWeight above_one scale infos).
Abbreviation moves := (move_samples vc GetFrame GetId ComputeUpscaleWeight above_one scale).
Abbreviation collects := (CollectSamples vc GetFrame GetId ComputeUpscaleWeight above_one scale).

Definition e0 : PprofExporter := mkExporter entries infos.

Context (Hinfos : forall os, os ∈ offsets -> Forall (info_ok os) infos).

Lemma slot_of m os : offsets !! m = Some os ->
  exists e, entries !! m = Some e /\ os = seqZ (startIndex e) (count e) /\ in_range vc e /\
    Forall (fun i => 0 <= i < vc) os /\ os <> [] /\ exists g, groups !! m = Some g /\ profileType e = group_type g.
Proof.
  intros Hm. destruct (offsets_entries groups (proj1 Hgroups) 0 0 m os Hm ltac:(lia))
    as (e & g & He & Hg & Hos & Hc & Hs & Hr & Ht & Hne).
  exists e. split_and!; [done|done|split; lia| |done|by exists g].
  apply Forall_forall. intros i Hi. rewrite Hos in Hi. apply elem_of_seqZ in Hi. lia.
Qed.

(** Offsets of two providers have nothing in common. *)
Lemma offsets_disjoint m m' os os' i :
  offsets !! m = Some os -> offsets !! m' = Some os' -> i ∈ os -> i ∈ os' -> m = m'.
Proof. apply concat_disjoint. rewrite offsets_partition. apply NoDup_seqZ. Qed.

Lemma offsets_inj m m' os : offsets !! m = Some os -> offsets !! m' = Some os -> m = m'.
Proof.
  intros Hm Hm'. destruct (slot_of _ _ Hm) as (_ & _ & _ & _ & _ & Hne & _).
  destruct os as [|i os]; [done|]. by eapply (offsets_disjoint m m' _ _ i); [done..|left|left].
Qed.

(** A sample of the provider at [m] only adds to the entry at [m]. *)
Lemma contribution_own m os e s : offsets !! m = Some os -> entries !! m = Some e -> confined vc os s ->
  contribution e s = (if AllZero (own_values os s) then [] else [sample_data s (own_values os s)]).
Proof.
  intros Hm He [[_ Hv] _]. destruct (slot_of _ _ Hm) as (e' & He' & Hos & (Hs & Hc & Hr) & _).
  rewrite He in He'. injection He' as <-. unfold contribution, own_values.
  by rewrite slice_seqZ, <- Hos by lia.
Qed.

Lemma contribution_other m m' os e s : offsets !! m = Some os -> entries !! m' = Some e -> m <> m' ->
  (exists os', offsets !! m' = Some os') -> confined vc os s -> contribution e s = [].
Proof.
  intros Hm He Hne [os' Hm'] Hs. destruct (slot_of _ _ Hm') as (e' & He' & Hos & Hr & _).
  rewrite He in He'. injection He' as <-. eapply contribution_elsewhere; [done|done|].
  intros i Hi Hin. apply Hne. eapply offsets_disjoint; [done|done|done|]. rewrite Hos. apply elem_of_seqZ. lia.
Qed.

Lemma lookup_add_data (ds : list (list SampleData)) m e d ss : entries !! m = Some e -> ds !! m = Some d ->
  add_data entries ss ds !! m = Some (d ++ (ss ≫= contribution e)).
Proof. intros He Hd. unfold add_data. by rewrite lookup_zip_with, He, Hd. Qed.

Abbreviation exporting := (exporting vc e0).

Lemma exporting_length ds e : exporting ds e -> length ds = length entries.
Proof.
  intros [Hsl _ _ Hh]. rewrite <- (Forall2_length _ _ _ Hh), <- (length_fmap slot), Hsl. by rewrite length_fmap.
Qed.

(** The entry at [m] after the raw samples of the provider with offsets [os]. *)
Definition received (os : list Z) (raws : list RawSample) (ds ds' : list (list SampleData)) : Prop :=
  forall m os' d, offsets !! m = Some os' -> ds !! m = Some d ->
    ds' !! m = Some (d ++ (if decide (os' = os) then raws ≫= exported os else [])).

Lemma ExporterAdd_received m os raw s e ds :
  offsets !! m = Some os -> exporting ds e -> confined vc os s -> _callstack s <> [] ->
  Transform vc GetFrame GetId raw os (new_Sample vc 0 "") = Returned s ->
  exists s' e' ds', ExporterAdd vc ComputeUpscaleWeight above_one scale s e = Returned (s', e') /\
    exporting ds' e' /\ zlen (_values s') = vc /\ received os [raw] ds ds'.
Proof.
  intros Hm He Hs Hcs Ht. destruct (slot_of _ _ Hm) as (en & Hen & Hos & Hr & Hoff & _).
  unfold ExporterAdd. rewrite (exp_poisson _ _ _ _ He). cbn [_poissonUpscaleProviders e0].
  destruct (returns_inv _ _ (upscale_all_confined vc os Hoff ComputeUpscaleWeight above_one scale infos
    (Hinfos os ltac:(by eapply list_elem_of_lookup_2)) s Hs)) as (s' & Hup & Hs').
  rewrite Hup. cbn. destruct (AddSampleToEntries_exporting _ _ _ _ s' He (proj1 Hs')) as (e' & -> & He').
  eexists s', e', _. split_and!; [done|exact He'|apply Hs'|].
  intros m' os' d Hm' Hd. destruct (slot_of _ _ Hm') as (en' & Hen' & _). cbn [_entries e0].
  rewrite (lookup_add_data _ _ _ _ _ Hen' Hd). do 2 f_equal. cbn. rewrite !app_nil_r.
  destruct (decide (os' = os)) as [->|Hne].
  - rewrite (contribution_own _ _ _ _ Hm' Hen' Hs'). unfold exported. rewrite Ht, Hup.
    by destruct (_callstack s).
  - eapply (contribution_other m m'); [done|done| |by exists os'|done].
    intros ->. congruence.
Qed.

Lemma received_nil os ds : received os [] ds ds.
Proof. intros m os' d _ Hd. rewrite Hd. f_equal. destruct (decide _); by rewrite app_nil_r. Qed.

Lemma received_skip os raw ds : exported os raw = [] -> received os [raw] ds ds.
Proof. intros E m os' d _ Hd. rewrite Hd. cbn. rewrite E. f_equal. destruct (decide _); by rewrite app_nil_r. Qed.

Lemma received_app os r1 r2 d1 d2 d3 : received os r1 d1 d2 -> received os r2 d2 d3 -> received os (r1 ++ r2) d1 d3.
Proof.
  intros H1 H2 m os' d Hm Hd. rewrite (H2 m os' _ Hm (H1 m os' d Hm Hd)), bind_app.
  f_equal. rewrite <- app_assoc. by destruct (decide _).
Qed.

Definition fits (os : list Z) (raw : RawSample) : Prop := raw_fits (Data raw) (zlen os).

(** The cached sample has all the values. *)
Definition cached_ok (cached : nat) (h : list Sample) : Prop :=
  exists s, h !! cached = Some s /\ zlen (_values s) = vc.

Lemma cached_ok_insert cached h s : cached_ok cached h -> zlen (_values s) = vc -> cached_ok cached (<[cached := s]> h).
Proof.
  intros (s0 & Hs & _) Hv. exists s. split; [|done]. apply list_lookup_insert_eq. by eapply lookup_lt_Some.
Qed.

Lemma move_samples_received m os raws cached : offsets !! m = Some os -> Forall (fits os) raws -> forall h e ds,
  exporting ds e -> cached_ok cached h ->
  exists h' e' ds', moves raws os cached h e = Some (h', e') /\ exporting ds' e' /\ cached_ok cached h' /\
    received os raws ds ds'.
Proof.
  intros Hm. destruct (slot_of _ _ Hm) as (_ & _ & _ & _ & Hoff & _ & _).
  induction 1 as [|raw raws Hf _ IH]; intros h e ds He Hc; cbn [move_samples].
  - exists h, e, ds. by split_and!; [..|apply received_nil].
  - destruct Hc as (s & Hs & Hv) eqn:Hc0; clear Hc0. rewrite Hs. cbn [mbind option_bind].
    destruct (returns_inv _ _ (Transform_confined vc os Hoff GetFrame GetId raw s Hf Hv)) as (s1 & Ht & Hs1).
    rewrite Ht. assert (Transform vc GetFrame GetId raw os (new_Sample vc 0 "") = Returned s1) as Hfresh.
    { rewrite <- Ht. apply Transform_fresh. cbn. rewrite length_replicate. lia. }
    pose proof (cached_ok_insert _ _ s1 Hc (proj2 (proj1 Hs1))) as Hc1.
    destruct (_callstack s1) as [|f fs] eqn:Hcs.
    + destruct (IH _ e ds He Hc1) as (h2 & e2 & ds2 & -> & He2 & Hc2 & Hr2).
      exists h2, e2, ds2. split_and!; [done..|]. apply (received_app os [raw] raws _ ds); [|done].
      apply received_skip. unfold exported. by rewrite Hfresh, Hcs.
    + destruct (ExporterAdd_received m os raw s1 e ds Hm He Hs1 ltac:(congruence) Hfresh)
        as (s2 & e2 & ds2 & -> & He2 & Hv2 & Hr2).
      destruct (IH _ e2 ds2 He2 (cached_ok_insert _ _ s2 Hc1 Hv2)) as (h3 & e3 & ds3 & -> & He3 & Hc3 & Hr3).
      exists h3, e3, ds3. split_and!; [done..|]. by apply (received_app os [raw] raws _ ds2).
Qed.

(** *** All the providers *)

Definition offs (p : Provider * Z) : list Z := _valueOffsets p.1.

Definition pending (l : list (Provider * Z)) (os : list Z) : list RawSample :=
  l ≫= fun p => if decide (offs p = os) then _collectedSamples p.1 else [].

Definition provider_ok (p : Provider * Z) : Prop := offs p ∈ offsets /\ Forall (fits (offs p)) (_collectedSamples p.1).

Lemma CollectSamples_received cached l : Forall provider_ok l -> forall h e ds, exporting ds e -> cached_ok cached h ->
  exists l' h' e' ds', collects l cached h e = Some (l', h', e') /\ exporting ds' e' /\ cached_ok cached h' /\
    offs <$> l' = offs <$> l /\ Forall (fun p => _collectedSamples p.1 = []) l' /\
    forall m os d, offsets !! m = Some os -> ds !! m = Some d -> ds' !! m = Some (d ++ (pending l os ≫= exported os)).
Proof.
  induction 1 as [|[p n] l [Hp Hf] _ IH]; intros h e ds He Hc; cbn [CollectSamples].
  - exists [], h, e, ds. split_and!; [done..|]. intros m os d _ Hd. cbn. by rewrite app_nil_r.
  - apply list_elem_of_lookup in Hp as [m Hm]. cbn [GetSamples _valueOffsets].
    destruct (move_samples_received m _ _ cached Hm Hf h e ds He Hc) as (h1 & e1 & ds1 & E1 & He1 & Hc1 & Hr1).
    unfold offs in E1. cbn in E1. rewrite E1. cbn.
    destruct (IH h1 e1 ds1 He1 Hc1) as (l2 & h2 & e2 & ds2 & -> & He2 & Hc2 & Ho2 & Hz2 & Hr2). cbn.
    eexists (_ :: l2), h2, e2, ds2. split_and!; [done|done|done|cbn; by rewrite Ho2|by constructor|].
    intros m' os d Hm' Hd. rewrite (Hr2 m' os _ Hm' (Hr1 m' os d Hm' Hd)). f_equal.
    rewrite <- app_assoc. change (pending ((p, n) :: l) os) with ((if decide (offs (p, n) = os) then _collectedSamples p else []) ++ pending l os).
    rewrite bind_app. f_equal. f_equal.
    destruct (decide (os = offs (p, n))) as [->|Hne]; [by rewrite decide_True|by rewrite decide_False by done].
Qed.

(** A provider gets a raw sample. *)
Definition add_raw (raw : RawSample) (k : nat) (l : list (Provider * Z)) : list (Provider * Z) :=
  alter (fun p : Provider * Z => (ProviderAdd raw p.1, p.2)) k l.

Lemma offs_add_raw raw k : forall l, offs <$> add_raw raw k l = offs <$> l.
Proof. unfold add_raw. induction k as [|k IH]; intros [|p l]; [done..|]. cbn. f_equal. apply IH. Qed.

Lemma pending_none l os : os ∉ offs <$> l -> pending l os = [].
Proof.
  unfold pending. induction l as [|p l IH]; intros Hni; [done|]. cbn in *. apply not_elem_of_cons in Hni as [? ?].
  rewrite decide_False by done. by apply IH.
Qed.

Lemma pending_add_raw raw os : forall k l, NoDup (offs <$> l) ->
  pending (add_raw raw k l) os = pending l os ++ (if decide ((offs <$> l) !! k = Some os) then [raw] else []).
Proof.
  unfold add_raw, pending. induction k as [|k IH]; intros [|p l] Hnd; cbn; [done| |done|].
  - apply NoDup_cons in Hnd as [Hni Hnd]. pose proof (pending_none l (offs p) Hni) as Hp. unfold pending in Hp.
    change (offs (ProviderAdd raw p.1, p.2)) with (offs p).
    destruct (decide (Some (offs p) = Some os)) as [[= <-]|Hne].
    + rewrite !(decide_True (P := offs p = offs p)) by done. rewrite Hp. by rewrite !app_nil_r.
    + rewrite !(decide_False (P := offs p = os)) by congruence. by rewrite !app_nil_r.
  - apply NoDup_cons in Hnd as [_ Hnd]. rewrite <- app_assoc. f_equal. by apply IH.
Qed.

Lemma provider_ok_add_raw raw k : forall l, Forall provider_ok l ->
  (forall os, (offs <$> l) !! k = Some os -> fits os raw) -> Forall provider_ok (add_raw raw k l).
Proof.
  unfold add_raw. induction k as [|k IH]; intros [|p l] Hl Hf; [done|..|done|];
    apply Forall_cons in Hl as [[Hin Hp] Hl]; cbn in *; constructor.
  - split; [done|]. cbn. apply Forall_app. split; [done|]. constructor; [|done]. by apply Hf.
  - done.
  - done.
  - by apply IH.
Qed.

Lemma empty_provider_ok l : Forall (fun p => _collectedSamples p.1 = []) l -> Forall (fun os => os ∈ offsets) (offs <$> l) ->
  Forall provider_ok l.
Proof.
  induction 1 as [|p l Hp _ IH]; cbn; [done|]. intros [Ho Hl]%Forall_cons. constructor; [|by apply IH].
  split; [done|]. by rewrite Hp.
Qed.

Lemma empty_pending l os : Forall (fun p => _collectedSamples p.1 = []) l -> pending l os = [].
Proof.
  unfold pending. induction 1 as [|p l Hp _ IH]; [done|]. cbn. rewrite IH, Hp. by destruct (decide _).
Qed.

Lemma reset_counts_offs (l : list (Provider * Z)) : offs <$> reset_counts l = offs <$> l.
Proof. unfold reset_counts. rewrite <- list_fmap_compose. done. Qed.

Lemma reset_counts_pending l os : pending (reset_counts l) os = pending l os.
Proof. unfold pending, reset_counts. induction l as [|p l IH]; [done|]. cbn. by rewrite IH. Qed.

Lemma reset_counts_ok l : Forall provider_ok l -> Forall provider_ok (reset_counts l).
Proof. intros Hl. apply Forall_fmap. eapply Forall_impl; [exact Hl|]. done. Qed.

(** *** Invariant *)

Context (Hps : Forall (fun os => os ∈ offsets) ps) (Hnodup : NoDup ps).

(** A process sample belongs to a provider that is not collected. *)
Definition process_ok (s : Sample) : Prop := exists os, os ∈ offsets /\ os ∉ ps /\ confined vc os s.

Definition step_ok (s : CollectorStep) : Prop :=
  match s with
  | Emit k raw => forall os, ps !! k = Some os -> fits os raw
  | Live _ _ | Collect => True
  | ExportAt _ _ process => Forall process_ok process.1
  end.

Abbreviation World := (World (bytes := bytes)).

Definition accounted (hist : list CollectorStep) (w : World) (ds : list (list SampleData)) : Prop :=
  forall m os e d, offsets !! m = Some os -> os ∈ ps -> entries !! m = Some e -> ds !! m = Some d ->
    read_samples ParseFromString (profileType e) (concat (sent w)) ++ d ++
      (pending (_samplesProviders (collector w)) os ≫= exported os) =
    (emitted ps os hist ≫= exported os).

Record invariant (hist : list CollectorStep) (w : World) (ds : list (list SampleData)) : Prop := {
  inv_exporting : exporting ds (_exporter (collector w));
  inv_cached : cached_ok (_cachedSample (collector w)) (samples w);
  inv_ps : offs <$> _samplesProviders (collector w) = ps;
  inv_live : _batchedSamplesProviders (collector w) = [];
  inv_ps_ok : Forall provider_ok (_samplesProviders (collector w));
  inv_accounted : accounted hist w ds }.

Lemma emitted_snoc os hist s : emitted ps os (hist ++ [s]) = emitted ps os hist ++ emitted ps os [s].
Proof. apply bind_app. Qed.

Lemma emitted_one os k raw : emitted ps os [Emit k raw] = if decide (ps !! k = Some os) then [raw] else [].
Proof. cbn. apply app_nil_r. Qed.

Lemma ds_lookup ds e m os : exporting ds e -> offsets !! m = Some os -> is_Some (ds !! m).
Proof.
  intros He Hm. apply lookup_lt_is_Some. rewrite (exporting_length _ _ He).
  destruct (slot_of _ _ Hm) as (en & Hen & _). by eapply lookup_lt_Some.
Qed.

Lemma step_emit hist w ds k raw : invariant hist w ds -> step_ok (Emit k raw) ->
  invariant (hist ++ [Emit k raw]) (with_collector (emit k raw (collector w)) (samples w) w) ds.
Proof.
  intros [He Hc Hp Hb Hpo Ha] Hs. cbn in Hs. split; cbn; try done.
  - etrans; [apply offs_add_raw|done].
  - apply provider_ok_add_raw; [done|]. by rewrite Hp.
  - intros m os e d Hm Hin Hen Hds. specialize (Ha m os e d Hm Hin Hen Hds).
    cbn [collector with_collector emit _samplesProviders sent].
    change (alter _ k (_samplesProviders (collector w))) with (add_raw raw k (_samplesProviders (collector w))).
    rewrite pending_add_raw by (by rewrite Hp).
    rewrite emitted_snoc, (bind_app (exported os) (emitted ps os hist)), <- Ha, Hp, emitted_one.
    rewrite (bind_app (exported os) (pending _ os)). by rewrite <- !(assoc (++)).
Qed.

Lemma step_live hist w ds k ev : invariant hist w ds ->
  (forall ObjectWeight, live vc GetFrame GetId above_one scale ObjectWeight k ev w = Some w) /\ invariant (hist ++ [Live k ev]) w ds.
Proof.
  intros [He Hc Hp Hb Hpo Ha]. split; [intros ow; unfold live; by rewrite Hb|]. split; try done.
  intros m os e d Hm Hin Hen Hds. rewrite emitted_snoc. cbn. rewrite app_nil_r. by apply (Ha m os e d).
Qed.

Lemma step_collect hist w ds : invariant hist w ds ->
  exists w' ds', CollectTick vc GetFrame GetId ComputeUpscaleWeight above_one scale w = Some w' /\
    invariant (hist ++ [Collect]) w' ds' /\
    Forall (fun p => _collectedSamples p.1 = []) (_samplesProviders (collector w')).
Proof.
  intros [He Hc Hp Hb Hpo Ha]. unfold CollectTick.
  destruct (CollectSamples_received _ _ Hpo _ _ _ He Hc) as (l & h & e & ds' & -> & He' & Hc' & Ho & Hz & Hr). cbn.
  eexists _, ds'. split; [done|]. split; [|done]. split; cbn; try done.
  - by rewrite Ho.
  - apply empty_provider_ok; [done|]. by rewrite Ho, Hp.
  - intros m os en d' Hm Hin Hen Hd'. destruct (ds_lookup _ _ _ _ He Hm) as [d Hd].
    specialize (Ha m os en d Hm Hin Hen Hd). rewrite (Hr m os d Hm Hd) in Hd'. injection Hd' as <-.
    cbn [collector with_collector _samplesProviders sent].
    rewrite (empty_pending l) by done. rewrite emitted_snoc. cbn. rewrite !app_nil_r. exact Ha.
Qed.

(** Process samples add nothing to the profiles of the providers. *)
Lemma process_contribution ss m os e : Forall process_ok ss -> offsets !! m = Some os -> os ∈ ps ->
  entries !! m = Some e -> (ss ≫= contribution e) = [].
Proof.
  intros Hss Hm Hin He. induction Hss as [|s ss (os' & Hos' & Hni & Hc) _ IH]; [done|]. cbn. rewrite IH, app_nil_r.
  apply list_elem_of_lookup in Hos' as [m' Hm'].
  eapply (contribution_other m' m); [done|done| |by exists os|done]. intros ->. congruence.
Qed.

Lemma process_sample_ok ss : Forall process_ok ss -> Forall (sample_ok vc) ss.
Proof. intros Hss. eapply Forall_impl; [exact Hss|]. by intros s (os & _ & _ & Hc & _). Qed.

Lemma entries_types : NoDup (profileType <$> entries).
Proof.
  assert (forall gs i, profileType <$> entries_of i gs = group_type <$> gs) as E.
  { clear. induction gs as [|g gs IH]; intros i; [done|]. cbn. by rewrite IH. }
  rewrite E. apply (indexed_ok _ Hgroups 0).
Qed.

(** What the entries hold once the process samples are added. *)
Lemma process_data ss ds e m os en : exporting ds e -> Forall process_ok ss -> offsets !! m = Some os -> os ∈ ps ->
  entries !! m = Some en -> exists d, ds !! m = Some d /\ add_data entries ss ds !! m = Some d.
Proof.
  intros He Hss Hm Hin Hen. destruct (ds_lookup _ _ _ _ He Hm) as [d Hd]. exists d. split; [done|].
  by rewrite (lookup_add_data _ _ _ _ _ Hen Hd), (process_contribution ss m os), app_nil_r.
Qed.

Lemma step_export hist w ds t0 t1 process : invariant hist w ds -> Forall process_ok process.1 ->
  exists w' ds', CollectorExport vc ComputeUpscaleWeight above_one scale no_bytes SerializeAsString t0 t1 process w = Some w' /\
    invariant (hist ++ [ExportAt t0 t1 process]) w' ds' /\
    _samplesProviders (collector w') = reset_counts (_samplesProviders (collector w)) /\
    (process.2 = false -> Forall (fun d => d = []) ds').
Proof.
  intros [He Hc Hp Hb Hpo Ha] Hproc. unfold CollectorExport. rewrite Hb. cbn [CollectLive mbind option_bind].
  assert (forall m os en d, offsets !! m = Some os -> os ∈ ps -> entries !! m = Some en -> ds !! m = Some d ->
    read_samples ParseFromString (profileType en) (concat (sent w)) ++ d ++
      (pending (reset_counts (_samplesProviders (collector w))) os ≫= exported os) =
    (emitted ps os (hist ++ [ExportAt t0 t1 process]) ≫= exported os)) as Ha1.
  { intros m os en d Hm Hin Hen Hd. rewrite reset_counts_pending, emitted_snoc. cbn. rewrite app_nil_r. by apply (Ha m). }
  destruct process as [ss threw]. cbn [fst snd] in *. pose proof (process_sample_ok _ Hproc) as Hss. destruct threw.
  - destruct (add_process_samples_exporting _ _ _ _ _ He Hss) as (e2 & -> & He2). cbn [mbind option_bind].
    eexists _, (add_data entries ss ds). split; [done|]. split_and!; [|done|done].
    split; [exact He2|done|by cbn; rewrite reset_counts_offs|done|by apply reset_counts_ok|].
    intros m os en d2 Hm Hin Hen Hd2. destruct (process_data _ _ _ _ _ _ He Hproc Hm Hin Hen) as (d1 & Hd1 & E).
    rewrite E in Hd2. injection Hd2 as <-. by apply (Ha1 m os en d1).
  - destruct (ExporterExport_exporting no_bytes SerializeAsString ParseFromString parse_serialize serialize_nonempty
      vc e0 ds _ t0 t1 ss He Hss) as (pprofs & e2 & -> & He2 & Hdel). cbn [mbind option_bind].
    eexists _, ((fun _ => []) <$> ds). split; [done|].
    split_and!; [|done|intros _; apply Forall_fmap, Forall_true; done].
    split; [exact He2|done|by cbn; rewrite reset_counts_offs|done|by apply reset_counts_ok|].
    intros m os en d2 Hm Hin Hen Hd2. destruct (process_data _ _ _ _ _ _ He Hproc Hm Hin Hen) as (d1 & Hd1 & E).
    rewrite list_lookup_fmap, Hd1 in Hd2. injection Hd2 as <-. rewrite <- (Ha1 m os en d1) by done.
    cbn [collector sent _samplesProviders app].
    pose proof (read_samples_entry no_bytes _ entries entries_types _ _ _ _ _ _ _ Hdel Hen E) as Hread.
    destruct pprofs as [|x pprofs]; [by rewrite <- Hread|].
    rewrite concat_app, read_samples_app. cbn [concat]. by rewrite app_nil_r, Hread, <- (assoc (++)).
Qed.

Context (ObjectWeight : Z -> weight).
Abbreviation step := (collector_step vc GetFrame GetId ComputeUpscaleWeight above_one scale no_bytes SerializeAsString ObjectWeight).
Abbreviation run := (run_collector vc GetFrame GetId ComputeUpscaleWeight above_one scale no_bytes SerializeAsString ObjectWeight).
Abbreviation stop := (StopImpl vc GetFrame GetId ComputeUpscaleWeight above_one scale no_bytes SerializeAsString).

Lemma step_invariant hist w ds s : invariant hist w ds -> step_ok s ->
  exists w' ds', step s w = Some w' /\ invariant (hist ++ [s]) w' ds'.
Proof.
  intros Hinv Hs. destruct s as [k raw|k ev| |t0 t1 process].
  - eexists _, ds. split; [done|]. by apply step_emit.
  - destruct (step_live _ _ _ k ev Hinv) as [? ?]. exists w, ds. by split; [cbn|].
  - destruct (step_collect _ _ _ Hinv) as (w' & ds' & ? & ? & _). by exists w', ds'.
  - destruct (step_export _ _ _ t0 t1 process Hinv Hs) as (w' & ds' & ? & ? & _). by exists w', ds'.
Qed.

Lemma run_invariant steps : Forall step_ok steps -> forall hist w ds, invariant hist w ds ->
  exists w' ds', run steps w = Some w' /\ invariant (hist ++ steps) w' ds'.
Proof.
  induction 1 as [|s steps Hs _ IH]; intros hist w ds Hinv; cbn [run_collector].
  - exists w, ds. by rewrite app_nil_r.
  - destruct (step_invariant _ _ _ _ Hinv Hs) as (w1 & ds1 & -> & Hinv1).
    destruct (IH _ _ _ Hinv1) as (w2 & ds2 & ? & Hinv2). exists w2, ds2. by rewrite (assoc (++) hist [s] steps).
Qed.

(** The collector that the callback builds: types, exporter, providers. *)
Definition build_exporter (types : SampleValueTypeProvider) : PprofExporter :=
  foldl (fun e info => RegisterUpscalePoissonProvider info e) (new_PprofExporter (_definitions types)) infos.

Definition build_world (types : SampleValueTypeProvider) : World :=
  let '(c, h) := new_SamplesCollector (zlen (_definitions types)) (build_exporter types) [] in
  mkWorld (foldr (fun os => Register (mkProvider os [])) c ps) h [] [] [].

Lemma foldl_infos l : forall e, foldl (fun e info => RegisterUpscalePoissonProvider info e) e l =
  mkExporter (_entries e) (_poissonUpscaleProviders e ++ l).
Proof.
  induction l as [|i l IH]; intros [en l0]; cbn; [by rewrite app_nil_r|]. rewrite IH. cbn. by rewrite <- (assoc (++)).
Qed.

Definition fresh_providers (l : list (list Z)) : list (Provider * Z) := (fun os => (mkProvider os [], 0)) <$> l.

Lemma build_world_eq types : build_world types =
  mkWorld (mkCollector (fresh_providers ps) [] 0 (build_exporter types)) [new_Sample (zlen (_definitions types)) 0 ""] [] [] [].
Proof.
  unfold build_world, fresh_providers. cbn. f_equal. generalize (build_exporter types) as e. intros e. clear.
  induction ps as [|os l IH]; cbn; [done|by rewrite IH].
Qed.

Lemma fresh_ok l : Forall (fun os => os ∈ offsets) l ->
  offs <$> fresh_providers l = l /\ Forall provider_ok (fresh_providers l) /\ forall os, pending (fresh_providers l) os = [].
Proof.
  intros Hl. assert (Forall (fun p => _collectedSamples p.1 = []) (fresh_providers l)) as Hz
    by (apply Forall_fmap, Forall_true; done).
  assert (offs <$> fresh_providers l = l) as Ho.
  { unfold fresh_providers. rewrite <- list_fmap_compose. apply list_fmap_id. }
  split_and!; [done| |intros; by apply empty_pending]. apply empty_provider_ok; [done|]. by rewrite Ho.
Qed.

Lemma length_offsets_of gs : forall i, length (offsets_of i gs) = length gs.
Proof. induction gs as [|g gs IH]; intros i; cbn; [done|by rewrite IH]. Qed.

Lemma length_entries_of gs : forall i, length (entries_of i gs) = length gs.
Proof. induction gs as [|g gs IH]; intros i; cbn; [done|by rewrite IH]. Qed.

Lemma length_indexed gs : forall i, length (indexed i gs) = length gs.
Proof. induction gs as [|g gs IH]; intros i; cbn; [done|by rewrite IH]. Qed.

Lemma fresh_entries_hold gs : forall i, all_hold (entries_of i gs) (replicate (length (entries_of i gs)) []).
Proof.
  induction gs as [|g gs IH]; intros i; cbn; constructor; [|apply IH].
  pose proof (Reset_represents (mkBuilder 0 empty_profile ∅ ∅ g 0 0)) as Hrep.
  unfold holds. cbn [builder]. unfold new_PprofBuilder. by rewrite (rep_definitions _ _ _ Hrep).
Qed.

Lemma start_invariant types : register_all groups new_SampleValueTypeProvider = (offsets, types) ->
  invariant [] (build_world types) (replicate (length entries) []).
Proof.
  intros Ht. destruct (exporter_entries _ Hgroups) as (types' & Ht' & Hen & Hlen).
  rewrite Ht in Ht'. injection Ht' as <-. rewrite build_world_eq. destruct (fresh_ok _ Hps) as (Hp1 & Hp2 & Hp3).
  split; cbn [collector samples _samplesProviders _batchedSamplesProviders _cachedSample _exporter]; [|..|].
  - unfold build_exporter. rewrite foldl_infos. cbn [_poissonUpscaleProviders new_PprofExporter app]. rewrite Hen.
    split; [done| |done|].
    + apply Forall_lookup. intros m e Hm. destruct (lookup_lt_is_Some_2 offsets m) as [os Hos].
      { apply lookup_lt_Some in Hm. cbn in Hm. by rewrite length_entries_of, length_indexed in Hm; rewrite length_offsets_of. }
      destruct (slot_of _ _ Hos) as (e' & He' & _ & Hr & _). cbn in Hm. congruence.
    + apply fresh_entries_hold.
  - eexists. split; [done|]. cbn. rewrite length_replicate. lia.
  - done.
  - done.
  - done.
  - intros m os e d Hm Hin He Hd. apply lookup_replicate in Hd as [-> _].
    cbn [collector _samplesProviders sent]. by rewrite Hp3.
Qed.

(** C3: every raw sample is exported once.  Let the providers register their types and be
    collected as [ps], without a provider of live objects.  Whatever the order in which raw
    samples are emitted, moved and exported, and even when exports fail with an exception,
    no call has undefined behaviour; and after the final export, the samples of all the
    profiles of a provider's type, read back from the bytes that the sink got, are the raw
    samples of this provider, in the order it emitted them, each once: with its frames,
    labels and upscaled values, and without those that have no frame or only zero values. *)
Theorem raw_samples_exported steps startTime endTime ss : Forall step_ok steps -> Forall process_ok ss ->
  let '(registered, types) := register_all groups new_SampleValueTypeProvider in
  exists w1 w, run steps (build_world types) = Some w1 /\
    stop startTime endTime (ss, false) w1 = Some w /\
    forall m os g, registered !! m = Some os -> groups !! m = Some g -> os ∈ ps ->
      read_samples ParseFromString (group_type g) (concat (sent w)) = (emitted ps os steps ≫= exported os).
Proof.
  intros Hsteps Hss. destruct (exporter_entries _ Hgroups) as (types & Ht & _). rewrite Ht.
  destruct (run_invariant _ Hsteps _ _ _ (start_invariant _ Ht)) as (w1 & ds1 & E1 & H1).
  destruct (step_collect _ _ _ H1) as (w2 & ds2 & E2 & H2 & Hz2).
  destruct (step_export _ _ _ startTime endTime (ss, false) H2 Hss) as (w & ds & E3 & H3 & Hs3 & Hd3).
  exists w1, w. split_and!; [done|unfold StopImpl; by rewrite E2|].
  intros m os g Hm Hg Hin. destruct (slot_of _ _ Hm) as (en & Hen & _ & _ & _ & _ & g' & Hg' & Htype).
  rewrite Hg in Hg'. injection Hg' as <-. destruct (ds_lookup _ _ _ _ (inv_exporting _ _ _ H3) Hm) as [d Hd].
  pose proof (inv_accounted _ _ _ H3 m os en d Hm Hin Hen Hd) as Ha.
  rewrite (proj1 (Forall_lookup _ _) (Hd3 eq_refl) m d Hd) in Ha. rewrite Htype in Ha.
  rewrite Hs3, reset_counts_pending, (empty_pending _ _ Hz2) in Ha.
  rewrite !emitted_snoc in Ha. cbn in Ha. rewrite !app_nil_r in Ha. exact Ha.
Qed.
End delivery.

Module Example_collector.
(** Wall time, CPU time, allocations and the threads of the garbage collector: the last one
    is exported with the process samples, the allocations are upscaled. *)
Definition groups := [WallTimeDefinitions; CpuTimeDefinitions; AllocDefinitions; GcThreadsCpuDefinitions].
Definition ps : list (list Z) := [[1; 2]; [0]; [3; 4]].
Definition infos : list UpscalingPoissonInfo := [mkPoisson [3; 4] 100 4].
Definition GetFrame (ip : Z) : bool * FrameInfoView := (negb (ip =? 0), mkFrame "mod" (pretty.pretty ip) "" 0).
Definition raw (d : RawData) (stack : list Z) : RawSample := mkRaw 0 0 zero_context [("tag", "x")] stack d.
Definition gc : Sample := mkSample 0 [mkFrame "" "Garbage Collector" "" 0] [0; 0; 0; 0; 0; 9; 1] [] zero_context "" "".

Definition steps : list CollectorStep :=
  [Emit 1 (raw (RawWallTime 10) [7; 0; 8]); Emit 0 (raw (RawCpu 5) [7]); Collect;
   Emit 2 (raw (RawAllocation "String" 24) [8]); Emit 1 (raw (RawWallTime 0) [7]);
   ExportAt 0 10 ([gc], true); Emit 1 (raw (RawWallTime 11) []); Emit 1 (raw (RawWallTime 12) [8]);
   Collect; ExportAt 10 20 ([gc], false); Emit 0 (raw (RawCpu 6) [8])].

Definition run (vc : Z) (steps : list CollectorStep) : World (bytes := option Profile) -> option World :=
  run_collector vc GetFrame (fun _ => None) (fun _ _ => tt) (fun _ => true) (fun v _ => 2 * v) None Some (fun _ => tt) steps.

Definition stopped : option (World (bytes := option Profile)) :=
  w ← run 7 steps (build_world ps infos (register_all groups new_SampleValueTypeProvider).2);
  StopImpl 7 GetFrame (fun _ => None) (fun _ _ => tt) (fun _ => true) (fun v _ => 2 * v) None Some 20 30 ([], false) w.

(** The wall-time samples without frames or duration are dropped, the allocation is scaled,
    and an export that throws counts twice. *)
Example delivered_samples_of_types :
  match stopped with
  | Some w =>
      read_samples id WallTime (concat (sent w)) =
        [mkData [("7", "mod"); ("8", "mod")] [10] [("tag", "x")]; mkData [("8", "mod")] [12] [("tag", "x")]] /\
      read_samples id ProcessCpu (concat (sent w)) =
        [mkData [("7", "mod")] [5; 1] [("tag", "x")]; mkData [("8", "mod")] [6; 1] [("tag", "x")]] /\
      read_samples id Alloc (concat (sent w)) = [mkData [("cls:String", ""); ("8", "mod")] [2; 48] [("tag", "x")]] /\
      heartbeats w = [false; false; true; true]
  | None => False
  end.
Proof. vm_compute. repeat split. Qed.

(** With live objects: the cached sample becomes the sample of the last object, and the
    next raw sample is written into it.  The object disappears from the second heap profile,
    although it is alive, and the raw sample is exported again with the live objects. *)
Definition live_groups := [WallTimeDefinitions; LiveObjectsDefinitions].
Definition live_world : World (bytes := option Profile) :=
  let types := (register_all live_groups new_SampleValueTypeProvider).2 in
  let w : World (bytes := option Profile) := build_world [[0]] [] types in
  mkWorld (RegisterBatchedProvider (mkLive 10 [1; 2] []) (collector w)) (samples w) [] [] [].

Definition live_steps : list CollectorStep :=
  [Live 0 (Allocation true (Some 1) 100 (raw (RawAllocation "String" 24) [9]) "String" 24); ExportAt 0 10 ([], false);
   Emit 0 (raw (RawWallTime 10) [7]); Collect; ExportAt 10 20 ([], false); ExportAt 20 30 ([], false)].

Example live_object_overwritten :
  (fun w => (fun out => (read_samples id Heap out, read_samples id WallTime out)) <$> sent w) <$> run 3 live_steps live_world =
  Some [([mkData [("cls:String", ""); ("9", "mod")] [2; 48] [("tag", "x")]], []);
        ([], [mkData [("7", "mod")] [10] [("tag", "x")]; mkData [("7", "mod")] [10] [("tag", "x")]]);
        ([], [mkData [("7", "mod")] [10] [("tag", "x")]])].
Proof. vm_compute. reflexivity. Qed.
End Example_collector.

Lemma raw_samples_exported_witness :
  let '(registered, types) := register_all Example_collector.groups new_SampleValueTypeProvider in
  exists w1 w,
    Example_collector.run 7 Example_collector.steps (build_world Example_collector.ps Example_collector.infos types) = Some w1 /\
    StopImpl 7 Example_collector.GetFrame (fun _ => None) (fun _ _ => tt) (fun _ => true) (fun v _ => 2 * v) None Some
      20 30 ([], false) w1 = Some w /\
    forall m os g, registered !! m = Some os -> Example_collector.groups !! m = Some g -> os ∈ Example_collector.ps ->
      read_samples id (group_type g) (concat (sent w)) =
      (emitted Example_collector.ps os Example_collector.steps ≫=
        exported 7 Example_collector.GetFrame (fun _ => None) (fun _ _ => tt) (fun _ => true) (fun v _ => 2 * v)
          Example_collector.infos os).
Proof.
  apply (raw_samples_exported Example_collector.GetFrame (fun _ => None) (fun _ _ => tt) (fun _ => true) (fun v _ => 2 * v)
    None Some id).
  - reflexivity.
  - intros p _. discriminate.
  - split; [repeat constructor; done|]. repeat constructor; set_solver.
  - intros os Hos. constructor; [|constructor]. intros Hin. change (os ∈ [[0]; [1; 2]; [3; 4]; [5; 6]]) in Hos.
    assert (os = [0] \/ os = [1; 2] \/ os = [3; 4] \/ os = [5; 6]) as Hor by set_solver.
    apply list_elem_of_In in Hin. cbn in Hin |- *.
    destruct Hor as [->|[->|[->| ->]]]; cbn in Hin; first [exfalso; lia|repeat constructor].
  - repeat constructor; set_solver.
  - repeat constructor; set_solver.
  - repeat constructor; cbn; try done; try (intros os [= <-]; cbn; lia);
      (exists [5; 6]; split; [set_solver|]; split; [set_solver|]; split; [by repeat constructor|]);
      intros i v Hi Hv; apply zget_Some in Hi as [? Hi]; cbn in Hi;
      destruct (Z.to_nat i) as [|[|[|[|[|[|[|?]]]]]]] eqn:E; cbn in Hi; simplify_eq; set_solver by lia.
  - constructor.
Defined.
