(* ===== verification/ExportSink.v ===== *)
(** * When profiles are exported, and their way to the server

    Model of the exporter thread of [SamplesCollector.cpp] ([ExportWork]), and of the queue
    and the worker of [PyroscopePprofSink.cpp] with [LockingQueue.h].

    Times are milliseconds since the epoch.  The clock is read from a list, the waits last
    as long as the clock says.  The worker of the sink takes a step at a time; what the
    server answers has no effect. *)
From stdpp Require Import base list.
From S2P Require Import Prelude.

(** ** Windows *)

Section windows.
(** [_uploadInterval], in seconds. *)
Context (uploadInterval : Z).

Abbreviation period := (uploadInterval * 1000).

(** The remainder by zero is undefined. *)
Definition truncate (t : Z) : option Z :=
  if uploadInterval =? 0 then None else Some (t - Z.rem t period).

Record Window := mkWindow { startTime : Z; endTime : Z; sleepTime : Z }.

Definition first_window (now : Z) : option Window :=
  startTime ← truncate now;
  let endTime := startTime + period in
  Some (mkWindow startTime endTime (endTime - now)).

(** The end of the loop of [ExportWork]. *)
Definition next_window (now : Z) : option Window :=
  startTime ← truncate now;
  let endTime := startTime + period in
  let '(startTime, endTime) :=
    if now - startTime >? endTime - now then (endTime, endTime + period) else (startTime, endTime) in
  Some (mkWindow startTime endTime (endTime - now)).

(** [nows]: the clock after each export. *)
Fixpoint export_loop (nows : list Z) (w : Window) : option (list Window) :=
  match nows with
  | [] => Some []
  | now :: nows => w' ← next_window now; ws ← export_loop nows w'; Some (w :: ws)
  end.

(** The windows that are exported until the collector stops. *)
Definition ExportWork (now : Z) (nows : list Z) : option (list Window) :=
  w ← first_window now; export_loop nows w.
End windows.

(** ** The sink *)

Section sink.
Context {Pprof : Type}.

(** Where the worker is: before the test of [_running], in [waitAndPop], uploading. *)
Inductive Worker := AtLoop | Waiting | Uploading (pprofs : list Pprof) | Exited.

Record Sink := mkSink {
  _queue : list (list Pprof); _running : bool; _uploadDisabled : bool; worker : Worker;
  uploaded : list Pprof }.

Definition new_Sink (uploadDisabled : bool) : Sink := mkSink [] true uploadDisabled AtLoop [].

Definition push (r : list Pprof) (s : Sink) : Sink :=
  mkSink (_queue s ++ [r]) (_running s) (_uploadDisabled s) (worker s) (uploaded s).

Definition SinkExport (pprofs : list Pprof) (s : Sink) : Sink :=
  if _uploadDisabled s then s
  else if 3 <=? zlen (_queue s) then s
  else push pprofs s.

(** The destructor, up to the join. *)
Definition Destroy (s : Sink) : Sink :=
  push [] (mkSink (_queue s) false (_uploadDisabled s) (worker s) (uploaded s)).

Definition set_worker (w : Worker) (s : Sink) : Sink :=
  mkSink (_queue s) (_running s) (_uploadDisabled s) w (uploaded s).

(** A step of [work]; [None] while it waits for a request or once it has ended. *)
Definition work (s : Sink) : option Sink :=
  match worker s with
  | AtLoop => Some (set_worker (if _running s then Waiting else Exited) s)
  | Waiting =>
      match _queue s with
      | [] => None
      | r :: q => Some (mkSink q (_running s) (_uploadDisabled s) (Uploading r) (uploaded s))
      end
  | Uploading [] => Some (set_worker AtLoop s)
  | Uploading (p :: r) =>
      Some (mkSink (_queue s) (_running s) (_uploadDisabled s) (Uploading r) (uploaded s ++ [p]))
  | Exited => None
  end.

Inductive SinkStep := Exporting (pprofs : list Pprof) | Working.

Fixpoint run_sink (steps : list SinkStep) (s : Sink) : Sink :=
  match steps with
  | [] => s
  | Exporting r :: steps => run_sink steps (SinkExport r s)
  | Working :: steps => run_sink steps (default s (work s))
  end.

(** The worker alone, after the destructor. *)
Fixpoint finish (fuel : nat) (s : Sink) : Sink :=
  match fuel with
  | O => s
  | S fuel => match work s with Some s => finish fuel s | None => s end
  end.
End sink.
Arguments Sink Pprof : clear implicits.
Arguments SinkStep Pprof : clear implicits.
Arguments Worker Pprof : clear implicits.

(** ** Windows tile the time *)

(** Aligned, and of the length of the interval. *)
Definition window_ok (uploadInterval : Z) (w : Window) : Prop :=
  startTime w mod (uploadInterval * 1000) = 0 /\ endTime w = startTime w + uploadInterval * 1000.

(** Every export, and the adjustments of the clock, take less than half of an interval. *)
Fixpoint timely (uploadInterval : Z) (nows : list Z) (expected : Z) : Prop :=
  match nows with
  | [] => True
  | now :: nows =>
      2 * Z.abs (now - expected) < uploadInterval * 1000 /\ timely uploadInterval nows (expected + uploadInterval * 1000)
  end.

Section tiles.
Context (U : Z) (HU : 0 < U).

Lemma truncate_spec t : 0 <= t -> truncate U t = Some (t - t mod (U * 1000)).
Proof. intros Ht. unfold truncate. rewrite (proj2 (Z.eqb_neq _ _)) by lia. by rewrite Z.rem_mod_nonneg by lia. Qed.

Lemma aligned_sub t : (t - t mod (U * 1000)) mod (U * 1000) = 0.
Proof. rewrite Zminus_mod_idemp_r. by rewrite Z.sub_diag. Qed.

Lemma next_window_ok now : 0 <= now -> exists w, next_window U now = Some w /\ window_ok U w /\
  U * 1000 <= 2 * sleepTime w < 3 * (U * 1000) /\ 2 * Z.abs (startTime w - now) <= U * 1000.
Proof.
  intros Hn. unfold next_window. rewrite truncate_spec by done. cbn.
  pose proof (Z.mod_pos_bound now (U * 1000) ltac:(lia)) as Hb. pose proof (aligned_sub now) as Ha.
  set (r := now mod (U * 1000)) in *. rewrite Z.gtb_ltb. destruct (Z.ltb_spec (now - r + U * 1000 - now) (now - (now - r))).
  - eexists. split; [done|]. split; [split; cbn; [|done]|cbn; lia].
    rewrite <- Zplus_mod_idemp_l, Ha. cbn. apply Z.mod_same. lia.
  - eexists. split; [done|]. split; [by split|cbn; lia].
Qed.

(** A window that is close to [e] starts there. *)
Lemma next_window_at now e : 0 <= now -> e mod (U * 1000) = 0 -> 2 * Z.abs (now - e) < U * 1000 ->
  exists w, next_window U now = Some w /\ startTime w = e /\ window_ok U w.
Proof.
  intros Hn He Hd. destruct (next_window_ok now Hn) as (w & -> & [Ha Hlen] & _ & Hs).
  exists w. split_and!; [done| |done]. apply Z.mod_divide in He as [a ->]; [|lia].
  apply Z.mod_divide in Ha as [b Hb]; [|lia]. rewrite Hb in *. assert (a = b) as -> by nia. done.
Qed.

Lemma export_loop_tiles nows : forall w, window_ok U w -> Forall (fun t => 0 <= t) nows -> timely U nows (endTime w) ->
  exists ws, export_loop U nows w = Some ws /\ length ws = length nows /\
    forall i w', ws !! i = Some w' -> window_ok U w' /\ startTime w' = startTime w + Z.of_nat i * (U * 1000).
Proof.
  induction nows as [|now nows IH]; intros w Hw Hn Ht; cbn [export_loop].
  - exists []. split_and!; [done..|]. intros i w' Hi. by rewrite lookup_nil in Hi.
  - apply Forall_cons in Hn as [Hn Hns]. destruct Ht as [Hd Ht]. destruct Hw as [Ha Hl] eqn:E; clear E.
    assert (endTime w mod (U * 1000) = 0) as He.
    { rewrite Hl, <- Zplus_mod_idemp_l, Ha. cbn. apply Z.mod_same. lia. }
    destruct (next_window_at now _ Hn He Hd) as (w1 & -> & Hs1 & Hw1). cbn.
    destruct (IH w1 Hw1 Hns) as (ws & -> & Hlen & Hws). { destruct Hw1 as [_ ->]. by rewrite Hs1. }
    cbn. exists (w :: ws). split_and!; [done|cbn; by rewrite Hlen|].
    intros [|i] w' Hi; cbn in Hi; [injection Hi as <-; split; [by split|lia]|].
    destruct (Hws _ _ Hi) as [? ->]. split; [done|]. rewrite Hs1, Hl. lia.
Qed.

(** C36: the profiles tile the time.  As long as each export and the adjustments of the clock
    take less than half of the upload interval, the windows exported by the loop of
    [ExportWork] are aligned to the interval, as long as it is, and each one starts where
    the one before ended; the first one holds the time of the start.  The first wait goes
    up to the end of the first window: it is positive and one interval at most, but may be
    arbitrarily short.  Every later wait, whatever the clock says after the export, is at
    least half of the interval and less than one and a half. *)
Theorem export_windows_tile now nows : 0 <= now -> Forall (fun t => 0 <= t) nows ->
  (exists first, first_window U now = Some first /\ startTime first <= now < endTime first /\
     sleepTime first = endTime first - now /\ 0 < sleepTime first <= U * 1000 /\
     (timely U nows (endTime first) ->
      exists ws, ExportWork U now nows = Some ws /\ length ws = length nows /\
        forall i w, ws !! i = Some w ->
          window_ok U w /\ startTime w = startTime first + Z.of_nat i * (U * 1000))) /\
  Forall (fun t => exists w, next_window U t = Some w /\ U * 1000 <= 2 * sleepTime w < 3 * (U * 1000)) nows.
Proof.
  intros Hn Hns. split.
  - pose proof (Z.mod_pos_bound now (U * 1000) ltac:(lia)) as Hb.
    unfold ExportWork, first_window. rewrite truncate_spec by done. cbn. eexists. split; [done|]. split_and!; [cbn; lia..|].
    intros Ht. apply export_loop_tiles; [|done|done]. split; [apply aligned_sub|done].
  - eapply Forall_impl; [exact Hns|]. intros t Ht. destruct (next_window_ok t Ht) as (w & ? & _ & ? & _). by exists w.
Qed.
End tiles.

Lemma export_windows_tile_witness :
  (exists first, first_window 10 12345 = Some first /\ startTime first <= 12345 < endTime first /\
     sleepTime first = endTime first - 12345 /\ 0 < sleepTime first <= 10 * 1000 /\
     (timely 10 [20003; 29998; 41000] (endTime first) ->
      exists ws, ExportWork 10 12345 [20003; 29998; 41000] = Some ws /\ length ws = 3%nat /\
        forall i w, ws !! i = Some w ->
          window_ok 10 w /\ startTime w = startTime first + Z.of_nat i * (10 * 1000))) /\
  Forall (fun t => exists w, next_window 10 t = Some w /\ 10 * 1000 <= 2 * sleepTime w < 3 * (10 * 1000)) [20003; 29998; 41000].
Proof. apply (export_windows_tile 10); [lia|lia|]. repeat constructor; lia. Defined.

Module Example_windows.
(** The exporter woke up late once and early once. *)
Example tiles : ExportWork 10 12345 [20003; 29998; 41000] =
  Some [mkWindow 10000 20000 7655; mkWindow 20000 30000 9997; mkWindow 30000 40000 10002].
Proof. reflexivity. Qed.

Example tiles_timely : timely 10 [20003; 29998; 41000] 20000.
Proof. cbn. lia. Qed.

(** A collector that starts just before the end of an interval waits for a millisecond. *)
Example short_first_wait : first_window 10 19999 = Some (mkWindow 10000 20000 1).
Proof. reflexivity. Qed.

(** An interval of zero, which the configuration accepts, divides by zero. *)
Example no_interval now : ExportWork 0 now [] = None.
Proof. reflexivity. Qed.
End Example_windows.

(** ** Uploads *)

Section uploads.
Context {Pprof : Type}.
Implicit Types (s : Sink Pprof) (w : Worker Pprof).

(** The requests that are not dropped. *)
Fixpoint accepted (steps : list (SinkStep Pprof)) (s : Sink Pprof) : list (list Pprof) :=
  match steps with
  | [] => []
  | Exporting r :: steps =>
      (if _uploadDisabled s || (3 <=? zlen (_queue s)) then [] else [r]) ++ accepted steps (SinkExport r s)
  | Working :: steps => accepted steps (default s (work s))
  end.

Definition requests (steps : list (SinkStep Pprof)) : list (list Pprof) :=
  steps ≫= fun st => match st with Exporting r => [r] | Working => [] end.

Definition in_flight w : list Pprof := match w with Uploading r => r | _ => [] end.

(** Everything that was accepted, in order. *)
Definition contents s : list Pprof := uploaded s ++ in_flight (worker s) ++ concat (_queue s).

Lemma work_contents s s' : work s = Some s' -> contents s' = contents s.
Proof.
  unfold work, contents. destruct (worker s) as [| |[|p r]|]; intros E; [..|done].
  - injection E as <-. cbn. by destruct (_running s).
  - destruct (_queue s); [done|]. injection E as <-. done.
  - injection E as <-. done.
  - injection E as <-. cbn. by rewrite <- app_assoc.
Qed.

Lemma work_default_contents s : contents (default s (work s)) = contents s.
Proof. destruct (work s) as [s'|] eqn:E; [by apply work_contents|done]. Qed.

Lemma export_contents r s :
  contents (SinkExport r s) = contents s ++ concat (if _uploadDisabled s || (3 <=? zlen (_queue s)) then [] else [r]).
Proof.
  unfold SinkExport. destruct (_uploadDisabled s), (3 <=? zlen (_queue s)); cbn; try by rewrite app_nil_r.
  unfold contents, push. cbn. rewrite concat_app. cbn. by rewrite <- !app_assoc.
Qed.

Lemma run_sink_contents steps : forall s, contents (run_sink steps s) = contents s ++ concat (accepted steps s).
Proof.
  induction steps as [|[r|] steps IH]; intros s; cbn [run_sink accepted concat]; [by rewrite app_nil_r| |].
  - by rewrite IH, export_contents, concat_app, app_assoc.
  - by rewrite IH, work_default_contents.
Qed.

Lemma work_queue s s' : work s = Some s' -> (length (_queue s') <= length (_queue s))%nat.
Proof.
  unfold work. destruct (worker s) as [| |[|p r]|]; intros E; [..|done]; try (injection E as <-; done).
  destruct (_queue s); [done|]. injection E as <-. cbn. lia.
Qed.

Lemma run_sink_queue steps : forall s, (length (_queue s) <= 3)%nat -> (length (_queue (run_sink steps s)) <= 3)%nat.
Proof.
  induction steps as [|[r|] steps IH]; intros s Hs; cbn [run_sink]; [done|..]; apply IH.
  - unfold SinkExport. destruct (_uploadDisabled s); [done|]. destruct (Z.leb_spec 3 (zlen (_queue s))); [done|].
    cbn. rewrite length_app. cbn. lia.
  - destruct (work s) as [s'|] eqn:E; [|done]. apply work_queue in E. cbn. lia.
Qed.

Lemma accepted_requests steps : forall s, accepted steps s `sublist_of` requests steps.
Proof.
  induction steps as [|[r|] steps IH]; intros s; cbn; [done| |apply IH].
  destruct (_uploadDisabled s || (3 <=? zlen (_queue s))); cbn; [by apply sublist_cons|by apply sublist_skip].
Qed.

(** The worker only ends once the sink is destroyed. *)
Lemma run_sink_alive steps : forall s, _running s = true -> worker s <> Exited ->
  _running (run_sink steps s) = true /\ worker (run_sink steps s) <> Exited.
Proof.
  induction steps as [|[r|] steps IH]; intros s Hr Hw; cbn [run_sink]; [done|..]; apply IH.
  1, 2: unfold SinkExport; by destruct (_uploadDisabled s), (3 <=? zlen (_queue s)).
  all: unfold work; destruct (worker s) as [| |[|p r]|] eqn:E; cbn; rewrite ?Hr; try done.
  all: destruct (_queue s); cbn; congruence.
Qed.

Lemma finish_step n s s' : work s = Some s' -> finish (S n) s = finish n s'.
Proof. intros E. cbn. by rewrite E. Qed.

(** Once stopped, the worker leaves at the test. *)
Lemma finish_loop n s : worker s = AtLoop -> _running s = false ->
  worker (finish (S n) s) = Exited /\ uploaded (finish (S n) s) = uploaded s.
Proof.
  intros Hw Hr. rewrite (finish_step n s (set_worker Exited s)).
  - by destruct n.
  - unfold work. by rewrite Hw, Hr.
Qed.

(** Uploading a request takes as many steps as it has profiles. *)
Lemma finish_upload r : forall s, worker s = Uploading r -> _running s = false ->
  worker (finish (length r + 2) s) = Exited /\ uploaded (finish (length r + 2) s) = uploaded s ++ r.
Proof.
  induction r as [|p r IH]; intros s Hw Hr; cbn [length Nat.add].
  - rewrite (finish_step 1 s (set_worker AtLoop s)) by (unfold work; by rewrite Hw).
    rewrite app_nil_r. exact (finish_loop 0 (set_worker AtLoop s) eq_refl Hr).
  - rewrite (finish_step _ s (mkSink (_queue s) (_running s) (_uploadDisabled s) (Uploading r) (uploaded s ++ [p])))
      by (unfold work; by rewrite Hw).
    match goal with |- context [finish _ ?x] => destruct (IH x eq_refl Hr) as [-> ->] end.
    cbn. by rewrite <- app_assoc.
Qed.

(** Taking a request. *)
Lemma finish_pop s r q : worker s = Waiting -> _queue s = r :: q -> _running s = false ->
  worker (finish (S (length r + 2)) s) = Exited /\ uploaded (finish (S (length r + 2)) s) = uploaded s ++ r.
Proof.
  intros Hw Hq Hr. rewrite (finish_step _ s (mkSink q (_running s) (_uploadDisabled s) (Uploading r) (uploaded s)))
    by (unfold work; by rewrite Hw, Hq).
  by match goal with |- context [finish _ ?x] => destruct (finish_upload r x eq_refl Hr) as [-> ->] end.
Qed.

(** Uploads are in order, and the sink can be destroyed.  At every moment, the profiles
    uploaded, the ones being uploaded and the queue are together the profiles of the
    requests that were accepted, in their order; a request is refused when three are queued,
    so that no more than three wait.  Once the destructor has stopped the worker and pushed
    the empty request, the worker ends after at most one more request, whatever it was
    doing: the join returns. *)
Theorem uploads_ordered disabled steps :
  let s := run_sink steps (new_Sink disabled) in
  contents s = concat (accepted steps (new_Sink disabled)) /\
  accepted steps (new_Sink disabled) `sublist_of` requests steps /\
  (length (_queue s) <= 3)%nat /\
  exists n, worker (finish n (Destroy s)) = Exited /\
    (uploaded (finish n (Destroy s)) = uploaded s ++ in_flight (worker s) \/
     exists r q, worker s = Waiting /\ _queue s = r :: q /\ uploaded (finish n (Destroy s)) = uploaded s ++ r).
Proof.
  intros s. split_and!.
  - apply run_sink_contents.
  - apply accepted_requests.
  - apply run_sink_queue. cbn. lia.
  - destruct (run_sink_alive steps (new_Sink disabled)) as [_ Hw]; [done|done|]. fold s in Hw.
    destruct (worker s) as [| |r|] eqn:E; [| | |done].
    + exists 1%nat. destruct (finish_loop 0 (Destroy s)) as [-> ->]; [done..|]. split; [done|]. left. by rewrite app_nil_r.
    + destruct (_queue s) as [|r q] eqn:Eq.
      * exists (S (length (@nil Pprof) + 2)). destruct (finish_pop (Destroy s) [] []) as [-> ->]; [done|by cbn; rewrite Eq|done|]. split; [done|]. by left.
      * exists (S (length r + 2)). destruct (finish_pop (Destroy s) r (q ++ [[]])) as [-> ->]; [done|by cbn; rewrite Eq|done|].
        split; [done|]. right. by exists r, q.
    + exists (length r + 2)%nat. destruct (finish_upload r (Destroy s)) as [-> ->]; [done..|]. split; [done|]. by left.
Qed.
End uploads.

Module Example_sink.
(** The profile of the last export, which [StopImpl] hands over, is lost when the worker
    is still busy with the one before. *)
Definition steps : list (SinkStep Z) := [Working; Exporting [1; 2]; Working; Working; Exporting [3]].

Example leftover_lost :
  uploaded (finish 100 (Destroy (run_sink steps (new_Sink false)))) = [1; 2] /\
  worker (finish 100 (Destroy (run_sink steps (new_Sink false)))) = Exited.
Proof. split; reflexivity. Qed.
End Example_sink.
