(* ===== verification/CountedStrings.v ===== *)
(** * Counted strings and tags

    Model of [async_ref_counted_string.cpp] and [JavaProfilerTags.cpp]: strings are interned
    in a table under a mutex, their references are counted with atomic operations that
    signal handlers may use too, and the tags of a thread are an array of such strings,
    indexed by a global table of keys.

    Threads are interleaved at their atomic operations: the locks of the mutex, the loads,
    increments, exchanges and compare-and-exchanges of the counters and of [ptr_].  A handler
    is one more thread.  A counter is an [int32_t]; there are fewer than 2^31 references.
    [Freed] is the use of an entry that was erased, [Aborted] a failed [CHECK]. *)
From stdpp Require Import base gmap list strings.
From S2P Require Import Prelude.

(** ** The table *)

(** A [StringRefCount]: the string and its counter. *)
Abbreviation Entry := (string * Z)%type.

(** [open] is [string_table != nullptr]; [holder] has the mutex; [next] is the next address. *)
Record Table := mkTable { open : bool; entries : gmap nat Entry; next : nat; holder : option nat }.

(** Where a thread is: [i] is the instance that is assigned to; [safe] is for the functions
    that are safe in a handler. *)
Inductive Point :=
| Idle
| WantAcquire (i : nat) (str : string)          (* AcquireByString, before the mutex *)
| Emplaced (i p : nat)                          (* with the mutex, before the increment *)
| Checking (i j : nat)                          (* AsyncSafeCopy, before its CHECK *)
| CopyFrom (safe : bool) (i j : nat)            (* before the load of [other] *)
| Copying (safe : bool) (i j p : nat)           (* AcquireByCopy, before the increment *)
| Storing (i : nat) (q : option nat)            (* AsyncSafeCopy, before the exchange *)
| Exchanging (safe : bool) (i : nat) (q : option nat) (* before the exchange of [ptr_] *)
| Releasing (safe : bool) (p : nat)             (* AsyncSafeRelease, before the load *)
| Decrementing (safe : bool) (p : nat) (c : Z)  (* before the compare-and-exchange *)
| WantRelease (p : nat)                         (* Release, before the mutex *)
| Subtracting (p : nat)                         (* with the mutex, before the decrement *)
| Erasing (p : nat)                             (* the counter is zero *)
| WantInit
| WantDestroy.

(** [ptrs]: the [ptr_] of the instances of [AsyncRefCountedString]. *)
Record State := mkState { table : Table; ptrs : list (option nat); points : list Point }.

(** The calls of a thread. *)
Inductive Call :=
| AssignString (i : nat) (str : string)         (* constructor, operator= *)
| AssignCopy (i j : nat)                        (* constructor, operator= *)
| AsyncSafeCopy (i j : nat)
| Reset (i : nat)                               (* destructor, Reset *)
| AsyncSafeReset (i : nat)
| CallInit
| CallDestroy.

Inductive Action :=
| Start (t : nat) (c : Call)
| Run (t : nat) (spurious : bool).              (* the weak exchange may fail for no reason *)

Inductive outcome := Next (s : State) | Blocked | Freed | Aborted.

Definition first_point (c : Call) : Point :=
  match c with
  | AssignString i str => WantAcquire i str
  | AssignCopy i j => CopyFrom false i j
  | AsyncSafeCopy i j => Checking i j
  | Reset i => Exchanging false i None
  | AsyncSafeReset i => Exchanging true i None
  | CallInit => WantInit
  | CallDestroy => WantDestroy
  end.

Definition find_string (str : string) (m : gmap nat Entry) : option nat :=
  fst <$> find (fun e : nat * Entry => bool_decide (e.2.1 = str)) (map_to_list m).

Definition set_point (t : nat) (pt : Point) (s : State) : State := mkState (table s) (ptrs s) (<[t := pt]> (points s)).

Definition set_table (tb : Table) (s : State) : State := mkState tb (ptrs s) (points s).

Definition with_entries (m : gmap nat Entry) (tb : Table) : Table := mkTable (open tb) m (next tb) (holder tb).
Definition with_holder (h : option nat) (tb : Table) : Table := mkTable (open tb) (entries tb) (next tb) h.
Definition with_open (b : bool) (tb : Table) : Table := mkTable b (entries tb) (next tb) (holder tb).

(** [AcquireByString] with the mutex: the entry, new or not. *)
Definition emplace (str : string) (tb : Table) : nat * Table :=
  match find_string str (entries tb) with
  | Some p => (p, tb)
  | None => (next tb, mkTable (open tb) (<[next tb := (str, 0)]> (entries tb)) (S (next tb)) (holder tb))
  end.

Definition add_count (d : Z) (p : nat) (tb : Table) : Table :=
  with_entries (alter (fun e : Entry => (e.1, e.2 + d)) p (entries tb)) tb.

Definition Init (tb : Table) : Table * bool := if open tb then (tb, false) else (with_open true tb, true).

Definition Destroy (tb : Table) : Table * bool :=
  if negb (open tb) || negb (bool_decide (entries tb = ∅)) then (tb, false) else (with_open false tb, true).

(** What follows the load of a counter in [AsyncSafeRelease]; [None] is the failed [CHECK]
    of [AsyncSafeReset]. *)
Definition after_load (safe : bool) (p : nat) (c : Z) : option Point :=
  if c >? 1 then Some (Decrementing safe p c) else if safe then None else Some (WantRelease p).

Definition goto (t : nat) (o : option Point) (s : State) : outcome :=
  match o with Some pt => Next (set_point t pt s) | None => Aborted end.

(** The old pointer is released after the exchange. *)
Definition left_over (safe : bool) (old : option nat) : Point :=
  match old with Some p => Releasing safe p | None => Idle end.

(** An exchange of [ptr_]; [AsyncSafeCopy] drops the old pointer. *)
Definition exchange (t i : nat) (q : option nat) (pt : Point) (s : State) : State :=
  mkState (table s) (<[i := q]> (ptrs s)) (<[t := pt]> (points s)).

(** The pointer that is acquired is exchanged. *)
Definition acquired (safe : bool) (i : nat) (q : option nat) : Point :=
  if safe then Storing i q else Exchanging false i q.

Definition load (s : State) (i : nat) : option nat := ptrs s !! i ≫= id.

Definition step (t : nat) (spurious : bool) (s : State) : outcome :=
  let tb := table s in
  match points s !! t with
  | None | Some Idle => Blocked
  | Some (WantAcquire i str) =>
      match holder tb with
      | Some _ => Blocked
      | None =>
          if open tb then
            let '(p, tb) := emplace str tb in
            Next (set_point t (Emplaced i p) (set_table (with_holder (Some t) tb) s))
          else Next (set_point t (Exchanging false i None) s)
      end
  | Some (Emplaced i p) =>
      match entries tb !! p with
      | None => Freed
      | Some _ => Next (set_point t (Exchanging false i (Some p)) (set_table (with_holder None (add_count 1 p tb)) s))
      end
  | Some (Checking i j) =>
      match load s i with Some _ => Aborted | None => Next (set_point t (CopyFrom true i j) s) end
  | Some (CopyFrom safe i j) =>
      Next (set_point t (match load s j with Some p => Copying safe i j p | None => acquired safe i None end) s)
  | Some (Copying safe i j p) =>
      match entries tb !! p with
      | None => Freed
      | Some _ => Next (set_point t (acquired safe i (Some p)) (set_table (add_count 1 p tb) s))
      end
  | Some (Storing i q) => Next (exchange t i q Idle s)
  | Some (Exchanging safe i q) => Next (exchange t i q (left_over safe (load s i)) s)
  | Some (Releasing safe p) =>
      match entries tb !! p with
      | None => Freed
      | Some (_, c) => goto t (after_load safe p c) s
      end
  | Some (Decrementing safe p c) =>
      match entries tb !! p with
      | None => Freed
      | Some (_, c') =>
          if negb spurious && (c' =? c) then Next (set_point t Idle (set_table (add_count (-1) p tb) s))
          else goto t (after_load safe p c') s
      end
  | Some (WantRelease p) =>
      match holder tb with
      | Some _ => Blocked
      | None => Next (set_point t (Subtracting p) (set_table (with_holder (Some t) tb) s))
      end
  | Some (Subtracting p) =>
      match entries tb !! p with
      | None => Freed
      | Some (_, c) =>
          let tb := add_count (-1) p tb in
          if c =? 1 then Next (set_point t (Erasing p) (set_table tb s))
          else Next (set_point t Idle (set_table (with_holder None tb) s))
      end
  | Some (Erasing p) =>
      match entries tb !! p with
      | Some _ =>
          if open tb then
            Next (set_point t Idle (set_table (with_holder None (with_entries (delete p (entries tb)) tb)) s))
          else Freed
      | None => Freed
      end
  | Some WantInit =>
      match holder tb with Some _ => Blocked | None => Next (set_point t Idle (set_table (Init tb).1 s)) end
  | Some WantDestroy =>
      match holder tb with Some _ => Blocked | None => Next (set_point t Idle (set_table (Destroy tb).1 s)) end
  end.

Definition act (a : Action) (s : State) : outcome :=
  match a with
  | Start t c =>
      match points s !! t with Some Idle => Next (set_point t (first_point c) s) | _ => Blocked end
  | Run t spurious => step t spurious s
  end.

(** ** Counting references *)

Definition here (p : nat) (x : option nat) : nat := if decide (x = Some p) then 1 else 0.

(** The reference that a thread owns between two operations. *)
Definition held (p : nat) (pt : Point) : nat :=
  match pt with
  | Exchanging _ _ q | Storing _ q => here p q
  | Releasing _ q | Decrementing _ q _ | WantRelease q | Subtracting q => here p (Some q)
  | _ => 0
  end.

Definition refs (p : nat) (s : State) : nat :=
  sum_list_with (here p) (ptrs s) + sum_list_with (held p) (points s).

Lemma sum_insert {A} (f : A -> nat) (l : list A) i x y : l !! i = Some x ->
  (sum_list_with f (<[i := y]> l) + f x = sum_list_with f l + f y)%nat.
Proof.
  revert i. induction l as [|a l IH]; intros [|i] Hi; [done|done|injection Hi as ->; cbn; lia|].
  specialize (IH i Hi). change (<[S i := y]> (a :: l)) with (a :: <[i := y]> l). cbn [sum_list_with]. lia.
Qed.

Lemma sum_elem {A} (f : A -> nat) (l : list A) i x : l !! i = Some x -> (f x <= sum_list_with f l)%nat.
Proof.
  revert i. induction l as [|a l IH]; intros [|i] Hi; [done|done|injection Hi as ->; cbn; lia|].
  specialize (IH i Hi). cbn [sum_list_with]. lia.
Qed.

Lemma sum_pos {A} (f : A -> nat) (l : list A) : sum_list_with f l <> 0%nat -> exists i x, l !! i = Some x /\ f x <> 0%nat.
Proof.
  induction l as [|a l IH]; cbn; [done|]. intros Hs. destruct (decide (f a = 0%nat)) as [Ha|Ha].
  - destruct IH as (i & x & Hi & Hx); [lia|]. by exists (S i), x.
  - by exists 0%nat, a.
Qed.

(** The instance is there and, for [AsyncSafeCopy], empty. *)
Definition target_ok (safe : bool) (i : nat) (ps : list (option nat)) : Prop :=
  if safe then ps !! i = Some None else (i < length ps)%nat.

(** What holds at a point of a thread. *)
Definition point_ok (tb : Table) (ps : list (option nat)) (t : nat) (pt : Point) : Prop :=
  match pt with
  | Idle | Releasing _ _ | WantRelease _ | WantInit | WantDestroy => holder tb <> Some t
  | WantAcquire i _ | Exchanging _ i _ | Checking i _ => (i < length ps)%nat /\ holder tb <> Some t
  | CopyFrom safe i _ => target_ok safe i ps /\ holder tb <> Some t
  | Copying safe i j p => target_ok safe i ps /\ ps !! j = Some (Some p) /\ holder tb <> Some t
  | Storing i _ => target_ok true i ps /\ holder tb <> Some t
  | Decrementing _ _ c => 1 < c /\ holder tb <> Some t
  | Emplaced i p => (i < length ps)%nat /\ holder tb = Some t /\ is_Some (entries tb !! p)
  | Subtracting _ => holder tb = Some t
  | Erasing p => holder tb = Some t /\ exists str, entries tb !! p = Some (str, 0)
  end.

(** A thread is about to count or to erase the entry. *)
Definition busy (p : nat) (pt : Point) : Prop :=
  match pt with Emplaced _ q | Erasing q => q = p | _ => False end.

Record inv (s : State) : Prop := {
  inv_points : forall t pt, points s !! t = Some pt -> point_ok (table s) (ptrs s) t pt;
  inv_holder : forall t, holder (table s) = Some t -> is_Some (points s !! t);
  inv_counts : forall p str c, entries (table s) !! p = Some (str, c) -> c = Z.of_nat (refs p s);
  inv_zero : forall p str, entries (table s) !! p = Some (str, 0) -> exists t pt, points s !! t = Some pt /\ busy p pt;
  inv_alive : forall p, refs p s <> 0%nat -> is_Some (entries (table s) !! p);
  inv_unique : forall p q str c d, entries (table s) !! p = Some (str, c) -> entries (table s) !! q = Some (str, d) -> p = q;
  inv_fresh : forall p, is_Some (entries (table s) !! p) -> (p < next (table s))%nat }.

(** The thread relies on the value of the instance: it copies it, or found it empty. *)
Definition relies (i : nat) (pt : Point) : bool :=
  match pt with
  | Copying safe k j _ => bool_decide (j = i) || (safe && bool_decide (k = i))
  | CopyFrom true k _ | Storing k _ => bool_decide (k = i)
  | _ => false
  end.

(** The synchronization that the class asks of its users: an instance is not changed while
    another thread copies it or copies into it. *)
Definition quiet (t i : nat) (s : State) : Prop :=
  forall t' pt, t' <> t -> points s !! t' = Some pt -> relies i pt = false.

Definition allowed (a : Action) (s : State) : Prop :=
  match a with
  | Start t c =>
      match c with
      | AssignString i _ | AssignCopy i _ | AsyncSafeCopy i _ | Reset i | AsyncSafeReset i => (i < length (ptrs s))%nat
      | CallInit | CallDestroy => True
      end
  | Run t _ => match points s !! t with Some (Exchanging _ i _ | Storing i _) => quiet t i s | _ => True end
  end.

Lemma find_string_Some str m p : find_string str m = Some p -> exists c, m !! p = Some (str, c).
Proof.
  unfold find_string. intros ([q [str' c]] & Hf & [= <-])%fmap_Some_1.
  apply find_some in Hf as [Hin He]. cbn in He. apply bool_decide_eq_true in He. subst.
  apply list_elem_of_In, elem_of_map_to_list in Hin. by exists c.
Qed.

Lemma find_string_None str m p c : find_string str m = None -> m !! p <> Some (str, c).
Proof.
  unfold find_string. intros Hf Hp. destruct (find _ (map_to_list m)) as [e|] eqn:E; [done|].
  apply elem_of_map_to_list, list_elem_of_In in Hp. apply (find_none _ _ E) in Hp. cbn in Hp.
  by apply bool_decide_eq_false in Hp.
Qed.

Lemma refs_point p t pt pt' s : points s !! t = Some pt ->
  (refs p (set_point t pt' s) + held p pt = refs p s + held p pt')%nat.
Proof. intros Ht. unfold refs. cbn. pose proof (sum_insert (held p) _ _ _ pt' Ht). lia. Qed.

Lemma held_refs p t pt s : points s !! t = Some pt -> (held p pt <= refs p s)%nat.
Proof. intros Ht. pose proof (sum_elem (held p) _ _ _ Ht). unfold refs. lia. Qed.

Lemma here_self p : here p (Some p) = 1%nat.
Proof. unfold here. by rewrite decide_True. Qed.

(** The entry of a reference that a thread owns. *)
Lemma held_entry s t pt p : inv s -> points s !! t = Some pt -> held p pt = 1%nat ->
  exists str c, entries (table s) !! p = Some (str, c) /\ c = Z.of_nat (refs p s) /\ 1 <= c.
Proof.
  intros Hi Ht Hh. pose proof (held_refs p _ _ _ Ht) as Hr. destruct (inv_alive _ Hi p) as [[str c] He]; [lia|].
  pose proof (inv_counts _ Hi _ _ _ He) as Hc. exists str, c. split_and!; [done|done|lia].
Qed.

Lemma refs_table p tb s : refs p (set_table tb s) = refs p s.
Proof. done. Qed.

Lemma lookup_set_point t pt s t' pt' : points (set_point t pt s) !! t' = Some pt' ->
  (t' = t /\ pt' = pt) \/ (t' <> t /\ points s !! t' = Some pt').
Proof.
  cbn. intros H. destruct (decide (t' = t)) as [->|Hne].
  - destruct (decide (t < length (points s))%nat).
    + rewrite list_lookup_insert_eq in H by done. left. naive_solver.
    + rewrite list_insert_ge in H by lia. apply lookup_lt_Some in H. lia.
  - right. by rewrite list_lookup_insert_ne in H by done.
Qed.

(** *** Other threads *)

(** A thread that does not rely on an instance does not see its change. *)
Lemma target_ok_insert safe i k q ps : target_ok safe k ps -> (safe = true -> k <> i) -> target_ok safe k (<[i := q]> ps).
Proof.
  destruct safe; cbn; [|by rewrite length_insert]. intros H Hne. rewrite list_lookup_insert_ne; [done|].
  intros ->. by apply Hne.
Qed.

Lemma point_ok_insert tb ps t pt i q : relies i pt = false -> point_ok tb ps t pt -> point_ok tb (<[i := q]> ps) t pt.
Proof.
  destruct pt as [| | | |safe k j|safe k j p| | | | | | | | |]; cbn; rewrite ?length_insert; try done; intros Hr Hok.
  - destruct Hok as [Hk Hh]. split; [|done]. apply target_ok_insert; [done|].
    intros ->. by apply bool_decide_eq_false in Hr.
  - apply orb_false_iff in Hr as [Hj Hk]. apply bool_decide_eq_false in Hj. destruct Hok as (Ht & Hp & Hh). split_and!; [| |done].
    + apply target_ok_insert; [done|]. intros ->. by apply bool_decide_eq_false in Hk.
    + by rewrite list_lookup_insert_ne.
  - destruct Hok as [Hk Hh]. split; [|done]. apply (target_ok_insert true); [done|].
    intros _. by apply bool_decide_eq_false in Hr.
Qed.


(** A thread without the mutex does not look at the table. *)
Lemma point_ok_outside tb tb' ps t pt : holder tb <> Some t -> holder tb' <> Some t ->
  point_ok tb ps t pt -> point_ok tb' ps t pt.
Proof. destruct pt; cbn; naive_solver. Qed.

(** A change of a counter that is not zero, with the same mutex. *)
Lemma point_ok_count tb ps t pt p d str c : entries tb !! p = Some (str, c) -> c <> 0 ->
  point_ok tb ps t pt -> point_ok (add_count d p tb) ps t pt.
Proof.
  intros Hp Hc. destruct pt; cbn; try done.
  - intros (? & ? & Hs). split_and!; [done|done|]. destruct (decide (p0 = p)) as [->|Hne].
    + rewrite lookup_alter_eq, Hp. by eexists.
    + by rewrite lookup_alter_ne by done.
  - intros (? & str' & Hs). split; [done|]. exists str'. rewrite lookup_alter_ne; [done|]. intros ->. congruence.
Qed.

Lemma add_count_Some d p tb q str c : entries (add_count d p tb) !! q = Some (str, c) ->
  exists c0, entries tb !! q = Some (str, c0) /\ c = if decide (q = p) then c0 + d else c0.
Proof.
  cbn. destruct (decide (q = p)) as [->|Hne].
  - rewrite lookup_alter_eq. intros ([str' c0] & H & E)%fmap_Some_1. injection E as -> ->. exists c0. by split; [|].
  - rewrite lookup_alter_ne by done. by exists c.
Qed.

Lemma add_count_alive d p tb q : is_Some (entries tb !! q) -> is_Some (entries (add_count d p tb) !! q).
Proof.
  intros [e He]. cbn. destruct (decide (q = p)) as [->|Hne].
  - rewrite lookup_alter_eq, He. by eexists.
  - rewrite lookup_alter_ne by done. by exists e.
Qed.

Lemma add_count_alive_inv d p tb q : is_Some (entries (add_count d p tb) !! q) -> is_Some (entries tb !! q).
Proof. intros [[str c] H]. apply add_count_Some in H as (c0 & H & _). by eexists. Qed.

Section steps.
Context (s : State) (Hinv : inv s) (t : nat).

(** The thread moves on with the same references and the same table. *)
Lemma inv_move pt pt' : points s !! t = Some pt -> (forall p, held p pt = held p pt') ->
  (forall p, ~ busy p pt) -> point_ok (table s) (ptrs s) t pt' -> inv (set_point t pt' s).
Proof.
  intros Ht Hh Hb Hok. destruct Hinv as [Hp Hho Hc Hz Ha Hu Hf].
  assert (forall p, refs p (set_point t pt' s) = refs p s) as Hr.
  { intros p. pose proof (refs_point p t pt pt' s Ht). specialize (Hh p). lia. }
  split; cbn [table ptrs set_point].
  - intros t' pt2 [[-> ->]|[Hne H]]%lookup_set_point; [done|by apply Hp].
  - intros t' H. specialize (Hho t' H). cbn. apply lookup_lt_is_Some. rewrite length_insert. by apply lookup_lt_is_Some.
  - intros p str c H. rewrite Hr. by eapply Hc.
  - intros p str H. destruct (Hz p str H) as (t' & pt2 & H2 & Hb2). exists t', pt2. split; [|done]. cbn.
    rewrite list_lookup_insert_ne; [done|]. intros ->. rewrite Ht in H2. injection H2 as <-. by eapply Hb.
  - intros p. rewrite Hr. apply Ha.
  - exact Hu.
  - exact Hf.
Qed.

(** A new table, when the thread has or takes the mutex, or the table changes a counter. *)
Lemma inv_table pt pt' tb : points s !! t = Some pt ->
  point_ok tb (ptrs s) t pt' ->
  (forall t' pt2, t' <> t -> points s !! t' = Some pt2 -> point_ok tb (ptrs s) t' pt2) ->
  (forall t', holder tb = Some t' -> t' = t \/ holder (table s) = Some t') ->
  (forall p str c, entries tb !! p = Some (str, c) -> c + Z.of_nat (held p pt) = Z.of_nat (refs p s) + Z.of_nat (held p pt')) ->
  (forall p str, entries tb !! p = Some (str, 0) ->
     busy p pt' \/ exists t' pt2, t' <> t /\ points s !! t' = Some pt2 /\ busy p pt2) ->
  (forall p, (refs p s + held p pt' <> held p pt)%nat -> is_Some (entries tb !! p)) ->
  (forall p q str c d, entries tb !! p = Some (str, c) -> entries tb !! q = Some (str, d) -> p = q) ->
  (forall p, is_Some (entries tb !! p) -> (p < next tb)%nat) ->
  inv (set_point t pt' (set_table tb s)).
Proof.
  intros Ht Hok Hother Hholder Hcount Hzero Halive Hunique Hfresh.
  assert (t < length (points s))%nat as Hlt by (by eapply lookup_lt_Some).
  assert (forall p, (refs p (set_point t pt' (set_table tb s)) + held p pt = refs p s + held p pt')%nat) as Hr.
  { intros p. by apply (refs_point p t pt pt' (set_table tb s)). }
  split; cbn [table ptrs set_point set_table].
  - intros t' pt2 [[-> ->]|[Hne H]]%lookup_set_point; [done|by apply Hother].
  - intros t' H. cbn. apply lookup_lt_is_Some. rewrite length_insert. destruct (Hholder t' H) as [->|Hh]; [done|].
    apply lookup_lt_is_Some. by apply (inv_holder _ Hinv).
  - intros p str c H. specialize (Hcount p str c H). specialize (Hr p). lia.
  - intros p str H. destruct (Hzero p str H) as [Hb|(t' & pt2 & Hne & H2 & Hb)].
    + exists t, pt'. split; [|done]. cbn. by rewrite list_lookup_insert_eq.
    + exists t', pt2. split; [|done]. cbn. by rewrite list_lookup_insert_ne.
  - intros p H. apply Halive. specialize (Hr p). lia.
  - exact Hunique.
  - exact Hfresh.
Qed.

(** A busy thread has the mutex. *)
Lemma busy_holder t' pt' p : points s !! t' = Some pt' -> busy p pt' -> holder (table s) = Some t'.
Proof. intros H Hb. pose proof (inv_points _ Hinv _ _ H) as Hok. destruct pt'; cbn in *; naive_solver. Qed.

(** Others are outside when this thread has the mutex, or nobody. *)
Lemma others_outside tb : holder (table s) = Some t \/ holder (table s) = None -> holder tb = Some t \/ holder tb = None ->
  forall t' pt2, t' <> t -> points s !! t' = Some pt2 -> point_ok tb (ptrs s) t' pt2.
Proof.
  intros Hs Htb t' pt2 Hne H. eapply point_ok_outside; [| |by apply (inv_points _ Hinv)]; naive_solver.
Qed.

(** No entry is at zero when nobody has the mutex. *)
Lemma no_zero p str : holder (table s) = None -> entries (table s) !! p <> Some (str, 0).
Proof.
  intros Hn H. destruct (inv_zero _ Hinv _ _ H) as (t' & pt' & H' & Hb). by rewrite (busy_holder _ _ _ H' Hb) in Hn.
Qed.
End steps.

(** *** The operations *)

Section operations.
Context (s : State) (Hinv : inv s) (t : nat).

Lemma no_held_zero q pt : points s !! t = Some pt -> held q pt <> 0%nat -> is_Some (entries (table s) !! q).
Proof. intros Ht Hh. apply (inv_alive _ Hinv). pose proof (held_refs q _ _ _ Ht). lia. Qed.

(** Taking the mutex to release. *)
Lemma inv_lock p : points s !! t = Some (WantRelease p) -> holder (table s) = None ->
  inv (set_point t (Subtracting p) (set_table (with_holder (Some t) (table s)) s)).
Proof.
  intros Ht Hn. apply (inv_table s Hinv t (WantRelease p)); [done|done| | | | | | |].
  - apply (others_outside s Hinv t); auto.
  - intros t' [= <-]. by left.
  - intros q str c H. cbn in H. apply (inv_counts _ Hinv) in H. cbn [held]. lia.
  - intros q str H. exfalso. by eapply (no_zero _ Hinv).
  - intros q H. apply (inv_alive _ Hinv). cbn [held] in H. lia.
  - apply (inv_unique _ Hinv).
  - apply (inv_fresh _ Hinv).
Qed.

(** Taking the mutex to find or add the string. *)
Lemma inv_emplace i str : points s !! t = Some (WantAcquire i str) -> holder (table s) = None ->
  let '(p, tb) := emplace str (table s) in
  inv (set_point t (Emplaced i p) (set_table (with_holder (Some t) tb) s)).
Proof.
  intros Ht Hn. pose proof (inv_points _ Hinv _ _ Ht) as [Hi _]. unfold emplace.
  destruct (find_string str (entries (table s))) as [p|] eqn:E.
  - apply find_string_Some in E as [c Hc].
    apply (inv_table s Hinv t (WantAcquire i str)); [done|split_and!; [done|done|by eexists]| | | | | | |].
    + apply (others_outside s Hinv t); auto.
    + intros t' [= <-]. by left.
    + intros q str' c' H. apply (inv_counts _ Hinv) in H. cbn [held]. lia.
    + intros q str' H. exfalso. by eapply (no_zero _ Hinv).
    + intros q H. apply (inv_alive _ Hinv). cbn [held] in H. lia.
    + apply (inv_unique _ Hinv).
    + apply (inv_fresh _ Hinv).
  - set (p := next (table s)). assert (entries (table s) !! p = None) as Hp.
    { apply eq_None_not_Some. intros H%(inv_fresh _ Hinv). unfold p in H. lia. }
    assert (refs p s = 0%nat) as Hr.
    { destruct (decide (refs p s = 0%nat)) as [|Hne]; [done|]. apply (inv_alive _ Hinv) in Hne as [? He]. congruence. }
    apply (inv_table s Hinv t (WantAcquire i str)); [done| | | | | | | |]; cbn.
    + split_and!; [done|done|]. rewrite lookup_insert_eq. by eexists.
    + apply (others_outside s Hinv t); auto.
    + intros t' [= <-]. by left.
    + intros q str' c' [[<- [= <- <-]]|[Hne H]]%lookup_insert_Some; [lia|]. apply (inv_counts _ Hinv) in H. lia.
    + intros q str' [[<- _]|[Hne H]]%lookup_insert_Some; [by left|]. exfalso. by eapply (no_zero _ Hinv).
    + intros q H. apply lookup_insert_is_Some'. right. apply (inv_alive _ Hinv). lia.
    + intros q1 q2 str' c1 c2 [[<- E1]|[_ H1]]%lookup_insert_Some [[<- E2]|[_ H2]]%lookup_insert_Some; [done| | |].
      * injection E1 as <- <-. exfalso. by eapply find_string_None.
      * injection E2 as <- <-. exfalso. by eapply find_string_None.
      * by eapply (inv_unique _ Hinv).
    + intros q [<-|H]%lookup_insert_is_Some'; [lia|]. apply (inv_fresh _ Hinv) in H. unfold p. lia.
Qed.

Lemma add_count_unique d p : forall q1 q2 str c1 c2, entries (add_count d p (table s)) !! q1 = Some (str, c1) ->
  entries (add_count d p (table s)) !! q2 = Some (str, c2) -> q1 = q2.
Proof. intros q1 q2 str c1 c2 (? & H1 & _)%add_count_Some (? & H2 & _)%add_count_Some. by eapply (inv_unique _ Hinv). Qed.

(** Incrementing, with the mutex or not. *)
Lemma inv_increment pt pt' p h : points s !! t = Some pt -> (forall q, held q pt = 0%nat) ->
  (forall q, held q pt' = here q (Some p)) -> is_Some (entries (table s) !! p) ->
  (forall tb, holder tb <> Some t -> point_ok tb (ptrs s) t pt') ->
  (holder (table s) = Some t /\ h = None /\ exists k, pt = Emplaced k p) \/
  (holder (table s) <> Some t /\ h = holder (table s) /\ refs p s <> 0%nat) ->
  inv (set_point t pt' (set_table (with_holder h (add_count 1 p (table s))) s)).
Proof.
  intros Ht Hh Hh' [[str c] Hp] Hok Hcase. pose proof (inv_counts _ Hinv _ _ _ Hp) as Hc.
  apply (inv_table s Hinv t pt); [done| | | | | | | |]; cbn [holder with_holder entries next].
  - apply Hok. cbn. naive_solver.
  - intros t' pt2 Hne H. destruct Hcase as [(Hm & -> & _)|(Hm & -> & Hr)].
    + eapply (others_outside _ Hinv t); [by left|by right|done|done].
    + pose proof (inv_points _ Hinv _ _ H) as Hok2. apply (point_ok_count _ _ _ _ p 1 str c) in Hok2; [|done|lia].
      by destruct pt2.
  - intros t' Ht'. destruct Hcase as [(Hm & -> & _)|(Hm & -> & Hr)]; [done|by right].
  - intros q str' c' (c0 & H & ->)%add_count_Some. apply (inv_counts _ Hinv) in H. rewrite Hh, Hh'. unfold here.
    destruct (decide (q = p)) as [->|Hne]; [rewrite decide_True by done; lia|rewrite decide_False by congruence; lia].
  - intros q str' (c0 & H & E)%add_count_Some. right. pose proof (inv_counts _ Hinv _ _ _ H) as Hc0.
    destruct (decide (q = p)) as [->|Hne]; [lia|]. subst c0.
    destruct (inv_zero _ Hinv _ _ H) as (t' & pt2 & H2 & Hb). exists t', pt2. split_and!; [|done|done].
    intros ->. pose proof (busy_holder _ Hinv _ _ _ H2 Hb). rewrite Ht in H2. injection H2 as <-.
    destruct Hcase as [(_ & _ & k & ->)|(Hm & _)]; cbn in Hb; congruence.
  - intros q H. apply add_count_alive. rewrite Hh, Hh' in H. destruct (decide (q = p)) as [->|Hne]; [by eexists|].
    apply (inv_alive _ Hinv). unfold here in H. rewrite decide_False in H by congruence. lia.
  - exact (add_count_unique 1 p).
  - intros q H%add_count_alive_inv. by apply (inv_fresh _ Hinv).
Qed.

(** Decrementing: [h] is who has the mutex afterwards. *)
Lemma inv_decrement pt pt' p h str c : points s !! t = Some pt -> (forall q, held q pt = here q (Some p)) ->
  entries (table s) !! p = Some (str, c) ->
  (holder (table s) = Some t /\ h = None /\ c <> 1 /\ pt' = Idle) \/
  (holder (table s) = Some t /\ h = Some t /\ c = 1 /\ pt' = Erasing p) \/
  (holder (table s) <> Some t /\ h = holder (table s) /\ c <> 1 /\ pt' = Idle) ->
  inv (set_point t pt' (set_table (with_holder h (add_count (-1) p (table s))) s)).
Proof.
  intros Ht Hh Hp Hcase. pose proof (inv_counts _ Hinv _ _ _ Hp) as Hc.
  assert (held p pt = 1%nat) as Hh1 by (rewrite Hh; apply here_self).
  assert (1 <= c) as Hc1 by (pose proof (held_refs p _ _ _ Ht); lia).
  assert (forall q, held q pt' = 0%nat) as Hh'.
  { intros q. by destruct Hcase as [(_ & _ & _ & ->)|[(_ & _ & _ & ->)|(_ & _ & _ & ->)]]. }
  apply (inv_table s Hinv t pt); [done| | | | | | | |]; cbn [holder with_holder entries next].
  - destruct Hcase as [(_ & -> & _ & ->)|[(_ & -> & -> & ->)|(Hn & -> & _ & ->)]]; cbn; [done| |done].
    split; [done|]. exists str. by rewrite lookup_alter_eq, Hp.
  - intros t' pt2 Hne H. destruct Hcase as [(Hm & -> & _)|[(Hm & -> & _)|(Hm & -> & _)]];
      [eapply (others_outside _ Hinv t); auto..|].
    pose proof (inv_points _ Hinv _ _ H) as Hok. apply (point_ok_count _ _ _ _ p (-1) str c) in Hok; [|done|lia].
    by destruct pt2.
  - intros t'. destruct Hcase as [(_ & -> & _)|[(_ & -> & _)|(_ & -> & _)]]; intros H; [done|left; congruence|by right].
  - intros q str' c' (c0 & H & ->)%add_count_Some. apply (inv_counts _ Hinv) in H. rewrite Hh'.
    destruct (decide (q = p)) as [->|Hne]; [lia|]. rewrite Hh. unfold here. rewrite decide_False by congruence. lia.
  - intros q str' (c0 & H & E)%add_count_Some. destruct (decide (q = p)) as [->|Hne].
    + assert (c = 1) as -> by (rewrite Hp in H; injection H; lia). left.
      by destruct Hcase as [(_ & _ & Hn & _)|[(_ & _ & _ & ->)|(_ & _ & Hn & _)]].
    + right. subst c0. destruct (inv_zero _ Hinv _ _ H) as (t' & pt2 & H2 & Hb). exists t', pt2. split_and!; [|done|done].
      intros ->. rewrite Ht in H2. injection H2 as <-. by destruct pt.
  - intros q H. apply add_count_alive, (inv_alive _ Hinv). pose proof (held_refs q _ _ _ Ht). rewrite Hh' in H. lia.
  - exact (add_count_unique (-1) p).
  - intros q H%add_count_alive_inv. by apply (inv_fresh _ Hinv).
Qed.

(** Erasing an entry that nobody counts. *)
Lemma inv_erase p : points s !! t = Some (Erasing p) ->
  inv (set_point t Idle (set_table (with_holder None (with_entries (delete p (entries (table s))) (table s))) s)).
Proof.
  intros Ht. pose proof (inv_points _ Hinv _ _ Ht) as [Hm [str0 Hp]]. pose proof (inv_counts _ Hinv _ _ _ Hp) as Hc.
  apply (inv_table s Hinv t (Erasing p)); [done|done| | | | | | |]; cbn [holder with_holder with_entries entries next held].
  - eapply (others_outside _ Hinv t); auto.
  - done.
  - intros q str c [_ H]%lookup_delete_Some. apply (inv_counts _ Hinv) in H. lia.
  - intros q str [Hne H]%lookup_delete_Some. right. destruct (inv_zero _ Hinv _ _ H) as (t' & pt & H2 & Hb).
    exists t', pt. split_and!; [|done|done]. intros ->. rewrite Ht in H2. injection H2 as <-. by cbn in Hb.
  - intros q H. rewrite lookup_delete_is_Some. split; [|apply (inv_alive _ Hinv); lia]. intros ->. lia.
  - intros q1 q2 str c1 c2 [_ H1]%lookup_delete_Some [_ H2]%lookup_delete_Some. by eapply (inv_unique _ Hinv).
  - intros q [_ H]%lookup_delete_is_Some. by apply (inv_fresh _ Hinv).
Qed.

(** The table is created or destroyed when it has no entry: the entries stay. *)
Lemma inv_open pt b : points s !! t = Some pt -> (forall q, held q pt = 0%nat) -> holder (table s) = None ->
  inv (set_point t Idle (set_table (with_open b (table s)) s)).
Proof.
  intros Ht Hh Hn. apply (inv_table s Hinv t pt); [done| | | | | | | |].
  - cbn. by rewrite Hn.
  - apply (others_outside s Hinv t); auto.
  - intros t' H. by right.
  - intros q str c H. apply (inv_counts _ Hinv) in H. rewrite Hh. cbn [held]. lia.
  - intros q str H. exfalso. by eapply (no_zero _ Hinv).
  - intros q H. apply (inv_alive _ Hinv). rewrite Hh in H. cbn [held] in H. lia.
  - apply (inv_unique _ Hinv).
  - apply (inv_fresh _ Hinv).
Qed.

Lemma held_left_over safe q old : held q (left_over safe old) = here q old.
Proof. by destruct old. Qed.

Lemma held_acquired safe i q p : held p (acquired safe i q) = here p q.
Proof. by destruct safe. Qed.

(** The exchange moves references between the thread and the instance. *)
Lemma inv_exchange i q pt pt' old : points s !! t = Some pt -> (forall p, held p pt = here p q) -> ptrs s !! i = Some old ->
  (forall p, held p pt' = here p old) -> (forall tb ps, holder tb <> Some t -> point_ok tb ps t pt') ->
  holder (table s) <> Some t -> quiet t i s -> inv (exchange t i q pt' s).
Proof.
  intros Ht Hh Hi Hh' Hok Hm Hq.
  assert (forall p, refs p (exchange t i q pt' s) = refs p s) as Hr.
  { intros p. unfold refs, exchange. cbn [ptrs points]. pose proof (sum_insert (here p) _ _ _ q Hi).
    pose proof (sum_insert (held p) _ _ _ pt' Ht). specialize (Hh p). specialize (Hh' p). lia. }
  pose proof (lookup_lt_Some _ _ _ Hi) as Hlt.
  split; cbn [table ptrs exchange].
  - intros t' pt2 H. change (points (set_point t pt' s) !! t' = Some pt2) in H.
    apply lookup_set_point in H as [[-> ->]|[Hne H]]; [by apply Hok|].
    pose proof (inv_points _ Hinv _ _ H) as Hok2. specialize (Hq _ _ Hne H).
    by apply point_ok_insert.
  - intros t' H. apply lookup_lt_is_Some. cbn. rewrite length_insert. by apply lookup_lt_is_Some, (inv_holder _ Hinv).
  - intros p str c H. rewrite Hr. by eapply (inv_counts _ Hinv).
  - intros p str H. destruct (inv_zero _ Hinv _ _ H) as (t' & pt2 & H2 & Hb). exists t', pt2. split; [|done]. cbn.
    rewrite list_lookup_insert_ne; [done|]. intros ->. by pose proof (busy_holder _ Hinv _ _ _ H2 Hb).
  - intros p. rewrite Hr. apply (inv_alive _ Hinv).
  - exact (inv_unique _ Hinv).
  - exact (inv_fresh _ Hinv).
Qed.
End operations.

(** *** Every step *)

(** Without a table there are no entries. *)
Definition closed_empty (tb : Table) : Prop := open tb = false -> entries tb = ∅.

Definition good (s : State) : Prop := inv s /\ closed_empty (table s).

Lemma closed_alter tb h d p : closed_empty tb -> closed_empty (with_holder h (add_count d p tb)).
Proof. intros H Ho. cbn in *. rewrite H by done. apply map_eq. intros q. by rewrite lookup_alter, lookup_empty; destruct (decide _). Qed.

Lemma closed_delete tb h p : closed_empty tb -> closed_empty (with_holder h (with_entries (delete p (entries tb)) tb)).
Proof. intros H Ho. cbn in *. rewrite H by done. apply delete_empty. Qed.

(** What a step may come to: [Aborted] is a [CHECK] of the functions for handlers. *)
Definition safe_outcome (o : outcome) : Prop :=
  match o with Next s => good s | Blocked | Aborted => True | Freed => False end.

(** After the load of a counter. *)
Lemma goto_good s t pt safe p str c : good s -> points s !! t = Some pt -> (forall q, held q pt = here q (Some p)) ->
  entries (table s) !! p = Some (str, c) -> holder (table s) <> Some t -> safe_outcome (goto t (after_load safe p c) s).
Proof.
  intros [Hi Hc] Ht Hh Hp Hm. unfold after_load, goto.
  assert (forall q, ~ busy q pt) as Hb.
  { intros q Hb. pose proof (busy_holder _ Hi _ _ _ Ht Hb). done. }
  destruct (Z.gtb_spec c 1); [|destruct safe; [done|]]; (split; [|done]);
    (eapply inv_move; [done|done|intros q; by rewrite Hh|done|done]).
Qed.

Lemma load_Some s j p : load s j = Some p -> ptrs s !! j = Some (Some p).
Proof. unfold load. destruct (ptrs s !! j) as [[q|]|]; cbn; congruence. Qed.

Lemma load_None s i : (i < length (ptrs s))%nat -> load s i = None -> ptrs s !! i = Some None.
Proof. unfold load. intros [[q|] H]%lookup_lt_is_Some; rewrite H; done. Qed.

Lemma copied_refs s j p : ptrs s !! j = Some (Some p) -> refs p s <> 0%nat.
Proof. intros H. pose proof (sum_elem (here p) _ _ _ H) as Hs. rewrite here_self in Hs. unfold refs. lia. Qed.

Lemma with_open_same tb : with_open (open tb) tb = tb.
Proof. by destruct tb. Qed.

Section every_step.
Context (s : State) (Hgood : good s) (t : nat).

Local Abbreviation Hinv := (proj1 Hgood).
Local Abbreviation Hclosed := (proj2 Hgood).

Lemma acquire_good spurious i str : points s !! t = Some (WantAcquire i str) -> safe_outcome (step t spurious s).
Proof.
  intros Ht. unfold step. rewrite Ht. destruct (holder (table s)) eqn:Hn; [done|]. destruct (open (table s)) eqn:Ho.
  - pose proof (inv_emplace s Hinv t i str Ht Hn) as He. destruct (emplace str (table s)) as [p tb] eqn:E. split; [done|].
    intros Ho'. exfalso. revert E Ho'. unfold emplace. destruct (find_string _ _); intros [= <- <-]; cbn; congruence.
  - split; [|exact Hclosed]. pose proof (inv_points _ Hinv _ _ Ht) as [Hi Hh]. eapply inv_move; [exact Hinv|exact Ht|done|by intros p []|done].
Qed.

Lemma counted_good spurious i p : points s !! t = Some (Emplaced i p) -> safe_outcome (step t spurious s).
Proof.
  intros Ht. unfold step. rewrite Ht. pose proof (inv_points _ Hinv _ _ Ht) as (Hi & Hm & Hp).
  destruct (entries (table s) !! p) as [e|] eqn:E; [|by destruct Hp]. split; [|by apply closed_alter, Hclosed].
  eapply (inv_increment s Hinv t); [exact Ht|done|done|by eexists|done|left; eauto].
Qed.

Lemma copy_good spurious safe i j : points s !! t = Some (CopyFrom safe i j) -> safe_outcome (step t spurious s).
Proof.
  intros Ht. unfold step. rewrite Ht. pose proof (inv_points _ Hinv _ _ Ht) as (Hi & Hm). split; [|exact Hclosed].
  eapply inv_move; [exact Hinv|exact Ht| |by intros p []|].
  - intros p. destruct (load s j); [done|]. by rewrite held_acquired.
  - destruct (load s j) as [p|] eqn:E; [split_and!; [done|by apply load_Some|done]|]. by destruct safe.
Qed.

Lemma copied_good spurious safe i j p : points s !! t = Some (Copying safe i j p) -> safe_outcome (step t spurious s).
Proof.
  intros Ht. unfold step. rewrite Ht. pose proof (inv_points _ Hinv _ _ Ht) as (Hi & Hj & Hm).
  pose proof (copied_refs _ _ _ Hj) as Hr. destruct (inv_alive _ Hinv p Hr) as [e He]. rewrite He.
  split; [|by apply (closed_alter _ (holder (table s))), Hclosed].
  eapply (inv_increment s Hinv t _ _ p (holder (table s))); [exact Ht|done|intros q; by rewrite held_acquired|by eexists| |by right].
  intros tb Htb. by destruct safe.
Qed.

Lemma exchange_good spurious safe i q : points s !! t = Some (Exchanging safe i q) -> quiet t i s ->
  safe_outcome (step t spurious s).
Proof.
  intros Ht Hq. unfold step. rewrite Ht. pose proof (inv_points _ Hinv _ _ Ht) as (Hi & Hm). split; [|exact Hclosed].
  apply lookup_lt_is_Some in Hi as [old Hi]. unfold load. rewrite Hi. cbn [mbind option_bind id].
  eapply (inv_exchange s Hinv t); [exact Ht|done|exact Hi|intros p; apply held_left_over| |done|done].
  intros tb ps Htb. by destruct old.
Qed.

Lemma store_good spurious i q : points s !! t = Some (Storing i q) -> quiet t i s -> safe_outcome (step t spurious s).
Proof.
  intros Ht Hq. unfold step. rewrite Ht. pose proof (inv_points _ Hinv _ _ Ht) as (Hi & Hm). split; [|exact Hclosed].
  by eapply (inv_exchange s Hinv t); [exact Ht|done|exact Hi|..].
Qed.

Lemma release_good spurious pt p : points s !! t = Some pt ->
  (exists safe, pt = Releasing safe p) \/ (exists safe c, pt = Decrementing safe p c) \/ pt = WantRelease p \/ pt = Subtracting p ->
  safe_outcome (step t spurious s).
Proof.
  intros Ht Hpt. assert (forall q, held q pt = here q (Some p)) as Hh by (intros q; by destruct Hpt as [[? ->]|[(? & ? & ->)|[->| ->]]]).
  assert (held p pt = 1%nat) as H1 by (rewrite Hh; apply here_self).
  destruct (held_entry s t pt p Hinv Ht H1) as (str & c & Hp & Hc & Hc1). pose proof (inv_points _ Hinv _ _ Ht) as Hok.
  unfold step. rewrite Ht. destruct Hpt as [[safe ->]|[(safe & c' & ->)|[->| ->]]]; cbn in Hok; rewrite ?Hp.
  - by eapply goto_good.
  - destruct Hok as [Hc' Hm]. destruct (negb spurious && (c =? c')) eqn:E; [|by eapply goto_good].
    apply andb_true_iff in E as [_ E]. apply Z.eqb_eq in E. subst c'. split; [|by apply (closed_alter _ (holder (table s))), Hclosed].
    eapply (inv_decrement s Hinv t _ _ p (holder (table s))); [exact Ht|done|exact Hp|]. right; right. split_and!; [done|done|lia|done].
  - destruct (holder (table s)) eqn:Hn; [done|]. split; [by apply inv_lock; [exact Hinv|..]|exact Hclosed].
  - destruct (Z.eqb_spec c 1) as [->|Hne].
    + split; [|by apply (closed_alter _ (holder (table s))), Hclosed].
      eapply (inv_decrement s Hinv t _ _ p (holder (table s))); [exact Ht|done|exact Hp|]. right; left. by rewrite Hok.
    + split; [|by apply closed_alter, Hclosed].
      eapply (inv_decrement s Hinv t _ _ p); [exact Ht|done|exact Hp|]. left. done.
Qed.

Lemma table_good spurious pt : points s !! t = Some pt -> (exists p, pt = Erasing p) \/ pt = WantInit \/ pt = WantDestroy ->
  safe_outcome (step t spurious s).
Proof.
  intros Ht Hpt. pose proof (inv_points _ Hinv _ _ Ht) as Hok. unfold step. rewrite Ht.
  destruct Hpt as [[p ->]|[->| ->]].
  - destruct Hok as [Hm [str Hp]]. rewrite Hp. destruct (open (table s)) eqn:Ho.
    + split; [by apply inv_erase; [exact Hinv|]|by apply closed_delete, Hclosed].
    + rewrite (Hclosed Ho), lookup_empty in Hp. done.
  - destruct (holder (table s)) eqn:Hn; [done|]. unfold Init.
    destruct (open (table s)) eqn:Ho; cbn [fst]; [rewrite <- (with_open_same (table s))|];
      (split; [by eapply inv_open; [exact Hinv|exact Ht|..]|]); intros Ho'; cbn in Ho'; congruence.
  - destruct (holder (table s)) eqn:Hn; [done|]. unfold Destroy.
    destruct (negb (open (table s)) || negb (bool_decide (entries (table s) = ∅))) eqn:E; cbn [fst].
    + rewrite <- (with_open_same (table s)). split; [by eapply inv_open; [exact Hinv|exact Ht|..]|].
      rewrite with_open_same. exact Hclosed.
    + apply orb_false_iff in E as [_ E]. apply negb_false_iff, bool_decide_eq_true in E.
      split; [by eapply inv_open; [exact Hinv|exact Ht|..]|]. by intros _.
Qed.

Lemma checked_good spurious i j : points s !! t = Some (Checking i j) -> safe_outcome (step t spurious s).
Proof.
  intros Ht. unfold step. rewrite Ht. pose proof (inv_points _ Hinv _ _ Ht) as (Hi & Hm).
  destruct (load s i) as [p|] eqn:E; [done|]. split; [|exact Hclosed].
  eapply inv_move; [exact Hinv|exact Ht|done|by intros p []|]. split; [by apply load_None|done].
Qed.

Lemma start_good c : allowed (Start t c) s -> safe_outcome (act (Start t c) s).
Proof.
  cbn [allowed act]. intros Hc. destruct (points s !! t) as [pt|] eqn:Ht; [|done]. destruct pt; try done.
  pose proof (inv_points _ Hinv _ _ Ht) as Hok. cbn in Hok. split; [|exact Hclosed].
  eapply inv_move; [exact Hinv|exact Ht|by destruct c|by intros p []|]. by destruct c.
Qed.
End every_step.

Lemma act_good a s : good s -> allowed a s -> safe_outcome (act a s).
Proof.
  intros Hg Ha. destruct a as [t c|t spurious]; [by apply start_good|]. cbn [act allowed] in *.
  destruct (points s !! t) as [pt|] eqn:Ht; [|unfold step; by rewrite Ht].
  destruct pt; eauto using acquire_good, counted_good, checked_good, copy_good, copied_good, store_good, exchange_good.
  all: try (by eapply release_good; eauto 10). all: try (by eapply table_good; eauto).
  unfold step. by rewrite Ht.
Qed.

(** ** What the instances hold *)

Definition string_at (tb : Table) (p : nat) : option string := fst <$> entries tb !! p.

(** [Get] of a pointer. *)
Definition value (tb : Table) (q : option nat) : option string := q ≫= string_at tb.

Definition view (s : State) : list (option string) := value (table s) <$> ptrs s.

(** What the instances hold when the call has ended, if only this thread moves. *)
Definition effect (s : State) (pt : Point) : list (option string) :=
  match pt with
  | WantAcquire i str => <[i := if open (table s) then Some str else None]> (view s)
  | Emplaced i p | Copying _ i _ p => <[i := string_at (table s) p]> (view s)
  | Checking i j | CopyFrom _ i j => <[i := value (table s) (load s j)]> (view s)
  | Storing i q | Exchanging _ i q => <[i := value (table s) q]> (view s)
  | _ => view s
  end.

(** Strings do not change while their entry lives. *)
Definition strings_kept (tb tb' : Table) : Prop :=
  forall p e e', entries tb !! p = Some e -> entries tb' !! p = Some e' -> e.1 = e'.1.

Lemma kept_same m tb tb' : entries tb = m -> entries tb' = m -> strings_kept tb tb'.
Proof. intros <- E p e e'. rewrite E. congruence. Qed.

Lemma kept_count tb h d p : strings_kept tb (with_holder h (add_count d p tb)).
Proof.
  intros q e [str c] H (c0 & H' & _)%add_count_Some. rewrite H in H'. by injection H' as ->.
Qed.

Lemma kept_delete tb h p : strings_kept tb (with_holder h (with_entries (delete p (entries tb)) tb)).
Proof. intros q e e' H. cbn. intros [_ H']%lookup_delete_Some. congruence. Qed.

Lemma kept_emplace str s h : inv s -> strings_kept (table s) (with_holder h (emplace str (table s)).2).
Proof.
  intros Hi q e e' H. unfold emplace. destruct (find_string str _); cbn; [congruence|].
  intros [[<- _]|[_ H']]%lookup_insert_Some; [|congruence].
  assert (next (table s) < next (table s))%nat; [|lia]. apply (inv_fresh _ Hi). by eexists.
Qed.

Lemma string_kept tb tb' p : strings_kept tb tb' -> is_Some (entries tb !! p) -> is_Some (entries tb' !! p) ->
  string_at tb' p = string_at tb p.
Proof. intros Hk [e He] [e' He']. unfold string_at. rewrite He, He'. cbn. by rewrite (Hk _ _ _ He He'). Qed.

Lemma ptr_alive s i p : inv s -> ptrs s !! i = Some (Some p) -> is_Some (entries (table s) !! p).
Proof. intros Hi H. apply (inv_alive _ Hi). by eapply copied_refs. Qed.

Lemma view_kept s s' : inv s -> inv s' -> ptrs s' = ptrs s -> strings_kept (table s) (table s') -> view s' = view s.
Proof.
  intros Hi Hi' Hp Hk. unfold view. rewrite Hp. apply list_fmap_ext. intros i [p|] H; [|done]. cbn.
  apply string_kept; [done|by eapply ptr_alive|]. eapply ptr_alive; [done|]. by rewrite Hp.
Qed.

Lemma view_lookup s j : value (table s) (load s j) = view s !! j ≫= id.
Proof. unfold view, load. rewrite list_lookup_fmap. by destruct (ptrs s !! j) as [[p|]|]. Qed.

Lemma step_keeps t spurious s s' : inv s -> step t spurious s = Next s' -> strings_kept (table s) (table s').
Proof.
  intros Hi. unfold step, goto. destruct (points s !! t) as [pt|] eqn:Ht; [|done].
  destruct pt; repeat case_match; intros E; try done; injection E as <-; cbn [table set_point set_table exchange];
    eauto using kept_same, kept_count, kept_delete.
  - pose proof (kept_emplace str s (Some t) Hi) as Hk. by rewrite H1 in Hk.
  - apply (kept_count _ (holder (table s))).
  - apply (kept_count _ (holder (table s))).
  - apply (kept_count _ (holder (table s))).
  - unfold Init. destruct (open (table s)); by eapply kept_same.
  - unfold Destroy. destruct (_ || _); by eapply kept_same.
Qed.

(** The points where a call is done with its instance. *)
Definition done_with (pt : Point) : bool :=
  match pt with
  | Idle | Releasing _ _ | Decrementing _ _ _ | WantRelease _ | Subtracting _ | Erasing _ | WantInit | WantDestroy => true
  | _ => false
  end.

Lemma done_effect s pt : done_with pt = true -> effect s pt = view s.
Proof. by destruct pt. Qed.

Lemma view_exchange t i q pt s : view (exchange t i q pt s) = <[i := value (table s) q]> (view s).
Proof. unfold view, exchange. cbn [table ptrs]. by rewrite list_fmap_insert. Qed.

Lemma goto_Next t o s s' : goto t o s = Next s' -> exists pt, o = Some pt /\ s' = set_point t pt s.
Proof. destruct o as [pt|]; cbn; [|done]. intros [= <-]. by exists pt. Qed.

Lemma after_load_done safe p c pt : after_load safe p c = Some pt -> done_with pt = true.
Proof. unfold after_load. destruct (c >? 1), safe; intros [= <-]; done. Qed.

Lemma lookup_self_point t pt pt0 s : points s !! t = Some pt0 -> points (set_point t pt s) !! t = Some pt.
Proof. intros H%lookup_lt_Some. cbn. by apply list_lookup_insert_eq. Qed.

(** A call that is done with its instance changes nothing that is held. *)
Lemma done_step t spurious s s' pt : points s !! t = Some pt -> done_with pt = true -> step t spurious s = Next s' ->
  ptrs s' = ptrs s /\ exists pt', points s' !! t = Some pt' /\ done_with pt' = true.
Proof.
  intros Ht Hd. unfold step. rewrite Ht.
  destruct pt; try done; repeat case_match; intros E; try done;
    first [apply goto_Next in E as (pt' & Ho & ->); split; [done|]; exists pt';
             split; [by eapply lookup_self_point|by eapply after_load_done]
          |injection E as <-; split; [done|]; eexists; split; [by eapply (lookup_self_point _ _ _ (set_table _ s))|done]
          |injection E as <-; split; [done|]; eexists; split; [by eapply lookup_self_point|done]].
Qed.

Lemma emplace_string str tb p tb' : emplace str tb = (p, tb') -> string_at tb' p = Some str.
Proof.
  unfold emplace, string_at. destruct (find_string str (entries tb)) as [q|] eqn:E; intros [= <- <-].
  - apply find_string_Some in E as [c ->]. done.
  - cbn. by rewrite lookup_insert_eq.
Qed.

(** A step of the thread leaves its effect. *)
Lemma step_effect t spurious s s' pt : good s -> allowed (Run t spurious) s -> points s !! t = Some pt ->
  step t spurious s = Next s' -> exists pt', points s' !! t = Some pt' /\ effect s' pt' = effect s pt.
Proof.
  intros Hg Ha Ht E. pose proof (act_good _ _ Hg Ha) as Hg'. cbn [act] in Hg'. rewrite E in Hg'. cbn in Hg'.
  pose proof (step_keeps _ _ _ _ (proj1 Hg) E) as Hk.
  pose proof (fun H => view_kept s s' (proj1 Hg) (proj1 Hg') H Hk) as Hv.
  destruct (done_with pt) eqn:Hd.
  { destruct (done_step _ _ _ _ _ Ht Hd E) as (Hp & pt' & Ht' & Hd'). exists pt'. rewrite !done_effect by done. auto. }
  unfold step in E. rewrite Ht in E. pose proof (inv_points _ (proj1 Hg) _ _ Ht) as Hok.
  destruct pt as [|i str|i p|i j|safe i j|safe i j p|i q|safe i q| | | | | | |]; try done.
  - destruct (holder (table s)); [done|]. destruct (open (table s)) eqn:Ho.
    + destruct (emplace str (table s)) as [p tb] eqn:Ee. injection E as <-. eexists. split; [by eapply (lookup_self_point _ _ _ (set_table _ s))|].
      cbn [effect]. rewrite Hv, Ho by done. f_equal. by apply emplace_string in Ee.
    + injection E as <-. eexists. split; [by eapply lookup_self_point|]. cbn [effect]. by rewrite Ho.
  - destruct Hok as (_ & _ & [e He]). rewrite He in E. injection E as <-.
    eexists. split; [by eapply (lookup_self_point _ _ _ (set_table _ s))|]. cbn [effect]. rewrite Hv by done. f_equal.
    apply string_kept; [done|by eexists|]. cbn [table set_table set_point with_holder entries]. apply add_count_alive. by eexists.
  - destruct (load s i); [done|]. injection E as <-. eexists. by split; [eapply lookup_self_point|].
  - injection E as <-. eexists. split; [by eapply lookup_self_point|]. cbn [effect]. by destruct (load s j), safe.
  - destruct Hok as (_ & Hj & _). destruct (ptr_alive _ _ _ (proj1 Hg) Hj) as [e He]. rewrite He in E. injection E as <-.
    eexists. split; [by eapply (lookup_self_point _ _ _ (set_table _ s))|].
    assert (string_at (add_count 1 p (table s)) p = string_at (table s) p) as Hs.
    { apply string_kept; [apply (kept_count _ (holder (table s)))|by eexists|]. apply add_count_alive. by eexists. }
    destruct safe; cbn [acquired] in *; cbn [effect]; rewrite Hv by done; f_equal; exact Hs.
  - injection E as <-. exists Idle. split; [cbn; by eapply (lookup_self_point _ _ _ s)|]. apply view_exchange.
  - injection E as <-. eexists. split; [cbn; by eapply (lookup_self_point _ _ _ s)|].
    rewrite done_effect by (by destruct (load s i)). apply view_exchange.
Qed.

(** ** A call, alone *)

(** The steps that remain. *)
Definition rank (pt : Point) : nat :=
  match pt with
  | Idle => 0
  | WantInit | WantDestroy | Erasing _ | Decrementing _ _ _ => 1
  | Subtracting _ => 2
  | WantRelease _ => 3
  | Releasing _ _ => 4
  | Storing _ _ | Exchanging _ _ _ => 5
  | Emplaced _ _ | Copying _ _ _ _ => 6
  | WantAcquire _ _ | CopyFrom _ _ _ => 7
  | Checking _ _ => 8
  end.

(** A [CHECK] may fail: in [AsyncSafeCopy] when the instance holds a string, and in
    [AsyncSafeReset]. *)
Definition may_abort (s : State) (pt : Point) : bool :=
  match pt with
  | Checking i _ => bool_decide (is_Some (load s i))
  | Exchanging safe _ _ | Releasing safe _ | Decrementing safe _ _ => safe
  | _ => false
  end.

(** The other threads are outside, and this one has a fresh value of the counter. *)
Record alone (t : nat) (s : State) : Prop := {
  alone_others : forall t' pt, t' <> t -> points s !! t' = Some pt -> pt = Idle;
  alone_fresh : forall safe p c, points s !! t = Some (Decrementing safe p c) -> exists str, entries (table s) !! p = Some (str, c) }.

Lemma alone_allowed t spurious s : alone t s -> allowed (Run t spurious) s.
Proof.
  intros Ha. cbn. destruct (points s !! t) as [[]|] eqn:Ht; try done;
    intros t' pt Hne H; by rewrite (alone_others _ _ Ha _ _ Hne H).
Qed.

Lemma alone_mutex t pt s : inv s -> alone t s -> points s !! t = Some pt -> holder (table s) = None \/ holder (table s) = Some t.
Proof.
  intros Hi Ha Ht. destruct (holder (table s)) as [t'|] eqn:Hh; [|by left]. right.
  destruct (decide (t' = t)) as [->|Hne]; [done|]. destruct (inv_holder _ Hi _ Hh) as [pt' H].
  pose proof (inv_points _ Hi _ _ H) as Hok. by rewrite (alone_others _ _ Ha _ _ Hne H) in Hok.
Qed.

Lemma alone_point t pt s tb : alone t s -> (forall safe p c, pt = Decrementing safe p c -> exists str, entries tb !! p = Some (str, c)) ->
  alone t (set_point t pt (set_table tb s)).
Proof.
  intros Ha Hf. split.
  - intros t' pt' Hne [[-> _]|[_ H]]%lookup_set_point; [done|]. by eapply (alone_others _ _ Ha).
  - intros safe p c [[_ <-]|[Hne _]]%lookup_set_point; [by eapply Hf|done].
Qed.

(** What a step alone comes to. *)
Definition progress (t : nat) (pt : Point) (s : State) (o : outcome) : Prop :=
  match o with
  | Next s' => alone t s' /\ exists pt', points s' !! t = Some pt' /\ (rank pt' < rank pt)%nat /\ (may_abort s' pt' = true -> may_abort s pt = true)
  | Aborted => may_abort s pt = true
  | Blocked | Freed => False
  end.

Lemma progress_point t pt pt' tb s : alone t s -> points s !! t = Some pt -> (rank pt' < rank pt)%nat ->
  (may_abort (set_point t pt' (set_table tb s)) pt' = true -> may_abort s pt = true) ->
  (forall safe p c, pt' = Decrementing safe p c -> exists str, entries tb !! p = Some (str, c)) ->
  progress t pt s (Next (set_point t pt' (set_table tb s))).
Proof.
  intros Ha Ht Hr Hf Hd. split; [by apply alone_point|]. exists pt'. split_and!; [|done|done].
  by eapply (lookup_self_point _ _ _ (set_table _ s)).
Qed.

Lemma progress_exchange t pt pt' i q s : alone t s -> points s !! t = Some pt -> (rank pt' < rank pt)%nat ->
  (may_abort (exchange t i q pt' s) pt' = true -> may_abort s pt = true) ->
  (forall safe p c, pt' <> Decrementing safe p c) -> progress t pt s (Next (exchange t i q pt' s)).
Proof.
  intros Ha Ht Hr Hf Hd. split; [|exists pt'; split_and!; [by eapply (lookup_self_point _ _ _ s)|done|done]].
  destruct (alone_point t pt' s (table s) Ha) as [Ho Hfr]; [|by split].
  intros safe p c ->. by destruct (Hd safe p c).
Qed.

Lemma progress_load t pt safe p str c s : alone t s -> points s !! t = Some pt -> (3 < rank pt)%nat -> may_abort s pt = safe ->
  entries (table s) !! p = Some (str, c) -> progress t pt s (goto t (after_load safe p c) s).
Proof.
  intros Ha Ht Hr Hf Hp. unfold after_load. destruct (c >? 1); [|destruct safe; [done|]]; cbn [goto];
    (eapply (progress_point t pt _ (table s) s); [done|done|cbn; lia|by rewrite Hf|]); [|done].
  intros safe' p' c' [= <- <- <-]. by exists str.
Qed.

Ltac solo := (eapply progress_point; [eassumption|eassumption|cbn; lia|done|done]).

Lemma solo_step t pt s : good s -> alone t s -> points s !! t = Some pt -> pt <> Idle -> progress t pt s (step t false s).
Proof.
  intros Hg Ha Ht Hne. pose proof (act_good (Run t false) s Hg (alone_allowed _ _ _ Ha)) as Hs. cbn [act] in Hs.
  pose proof (inv_points _ (proj1 Hg) _ _ Ht) as Hok. pose proof (alone_mutex _ _ _ (proj1 Hg) Ha Ht) as Hm.
  unfold step in *. rewrite Ht in *.
  destruct pt as [|i str|i p|i j|safe i j|safe i j p|i q|safe i q|safe p|safe p c|p|p|p| |]; [done|..]; cbn in Hok.
  - destruct Hm as [->|Hm]; [|naive_solver]. destruct (open (table s)).
    + destruct (emplace str (table s)). solo.
    + eapply (progress_point t _ _ (table s) s); [done|done|cbn; lia|done|done].
  - destruct (entries (table s) !! p); [solo|done].
  - destruct (load s i) eqn:E; [cbn; by rewrite E|]. eapply (progress_point t _ _ (table s) s); [done|done|cbn; lia|done|done].
  - eapply (progress_point t _ _ (table s) s); [done|done| | |]; destruct (load s j), safe; cbn; done || lia.
  - destruct (entries (table s) !! p); [|done]. destruct safe; solo.
  - apply progress_exchange; [done|done|cbn; lia|done|done].
  - apply progress_exchange; [done|done| | |]; destruct (load s i); cbn; done || lia.
  - destruct (entries (table s) !! p) as [[str c]|] eqn:Hp; [|done]. eapply progress_load; [done|done|cbn; lia|done|done].
  - destruct (alone_fresh _ _ Ha _ _ _ Ht) as [str Hp]. rewrite Hp, Z.eqb_refl. cbn [negb andb]. solo.
  - destruct Hm as [->|Hm]; [solo|done].
  - destruct (entries (table s) !! p) as [[str c]|]; [|done]. destruct (c =? 1); solo.
  - destruct (entries (table s) !! p); [|done]. destruct (open (table s)); [solo|done].
  - destruct Hm as [->|Hm]; [solo|done].
  - destruct Hm as [->|Hm]; [solo|done].
Qed.

(** The call runs to its end, or to a failed [CHECK]. *)
Fixpoint finish (fuel : nat) (t : nat) (s : State) : outcome :=
  match fuel with
  | 0%nat => Next s
  | S fuel =>
      match points s !! t with
      | Some Idle => Next s
      | _ => match step t false s with Next s' => finish fuel t s' | o => o end
      end
  end.

Definition call (t : nat) (c : Call) (s : State) : outcome :=
  match act (Start t c) s with Next s' => finish 8 t s' | o => o end.

(** Plain strings: what a call does to them. *)
Definition assign (available : bool) (c : Call) (v : list (option string)) : list (option string) :=
  match c with
  | AssignString i str => <[i := if available then Some str else None]> v
  | AssignCopy i j | AsyncSafeCopy i j => <[i := v !! j ≫= id]> v
  | Reset i | AsyncSafeReset i => <[i := None]> v
  | CallInit | CallDestroy => v
  end.

Definition all_idle (s : State) : Prop := forall t pt, points s !! t = Some pt -> pt = Idle.

Lemma finish_effect fuel t s pt : good s -> alone t s -> points s !! t = Some pt -> (rank pt <= fuel)%nat ->
  match finish fuel t s with
  | Next s' => good s' /\ all_idle s' /\ view s' = effect s pt
  | Aborted => may_abort s pt = true
  | Blocked | Freed => False
  end.
Proof.
  revert s pt. induction fuel as [|fuel IH]; intros s pt Hg Ha Ht Hr.
  - assert (pt = Idle) as -> by (destruct pt; cbn in Hr; [done|lia..]). cbn. split_and!; [done| |done].
    intros t' pt' H. destruct (decide (t' = t)) as [->|Hne]; [congruence|by eapply (alone_others _ _ Ha)].
  - cbn [finish]. rewrite Ht. assert (pt = Idle \/ pt <> Idle) as [->|Hne] by (destruct pt; auto).
    { split_and!; [done| |done]. intros t' pt' H.
      destruct (decide (t' = t)) as [->|Hne]; [congruence|by eapply (alone_others _ _ Ha)]. }
    replace (match pt with Idle => Next s | _ => match step t false s with Next s' => finish fuel t s' | o => o end end)
      with (match step t false s with Next s' => finish fuel t s' | o => o end) by (by destruct pt).
    pose proof (solo_step t pt s Hg Ha Ht Hne) as Hp.
    pose proof (act_good (Run t false) s Hg (alone_allowed _ _ _ Ha)) as Hs. cbn [act] in Hs.
    destruct (step t false s) as [s'| | |] eqn:E; [|done..]. destruct Hp as (Ha' & pt' & Ht' & Hr' & Hf).
    destruct (step_effect t false s s' pt Hg (alone_allowed _ _ _ Ha) Ht E) as (pt2 & Ht2 & He).
    rewrite Ht' in Ht2. injection Ht2 as <-. specialize (IH s' pt' Hs Ha' Ht' ltac:(lia)).
    destruct (finish fuel t s') as [s2| | |]; [by rewrite <- He|done|done|auto].
Qed.

Lemma effect_assign s c : effect s (first_point c) = assign (open (table s)) c (view s).
Proof. destruct c; cbn [first_point effect assign]; rewrite ?view_lookup; done. Qed.

Lemma call_assign t c s : good s -> all_idle s -> (t < length (points s))%nat -> allowed (Start t c) s ->
  match call t c s with
  | Next s' => good s' /\ all_idle s' /\ view s' = assign (open (table s)) c (view s)
  | Aborted => may_abort s (first_point c) = true
  | Blocked | Freed => False
  end.
Proof.
  intros Hg Hi [pt Ht]%lookup_lt_is_Some Hc. rewrite (Hi _ _ Ht) in Ht. unfold call.
  pose proof (start_good s Hg t c Hc) as Hs. cbn [act] in *. rewrite Ht in *. rewrite <- effect_assign.
  change (effect s (first_point c)) with (effect (set_point t (first_point c) s) (first_point c)).
  change (may_abort s (first_point c)) with (may_abort (set_point t (first_point c) s) (first_point c)).
  apply finish_effect; [exact Hs| |by eapply lookup_self_point|destruct c; cbn; lia].
  apply (alone_point t (first_point c) s (table s)); [|by destruct c]. split; [by eauto|].
  intros safe p c' H. congruence.
Qed.

(** The threads stay. *)
Lemma step_length t spurious s s' : step t spurious s = Next s' -> length (points s') = length (points s).
Proof.
  unfold step, goto. destruct (points s !! t) as [pt|]; [|done]. destruct pt; repeat case_match; intros E; try done;
    injection E as <-; cbn; by rewrite length_insert.
Qed.

Lemma call_length t c s s' : call t c s = Next s' -> length (points s') = length (points s).
Proof.
  assert (forall fuel s s', finish fuel t s = Next s' -> length (points s') = length (points s)) as Hf.
  { intros fuel. induction fuel as [|fuel IH]; intros s0 s1; cbn [finish]; [congruence|].
    repeat case_match; intros E; try done; try congruence; apply IH in E; rewrite E; by eapply step_length. }
  unfold call, act. repeat case_match; intros E; try done. apply Hf in E. rewrite E. cbn. simplify_eq/=. by rewrite length_insert.
Qed.

(** ** Schedules *)

(** [n] empty instances and [m] threads, before [Init]. *)
Definition initial (n m : nat) : State :=
  mkState (mkTable false ∅ 0 None) (replicate n None) (replicate m Idle).

(** A thread that waits for the mutex is scheduled again later. *)
Fixpoint run (l : list Action) (s : State) : outcome :=
  match l with
  | [] => Next s
  | a :: l => match act a s with Next s' => run l s' | Blocked => run l s | o => o end
  end.

Fixpoint synchronized (l : list Action) (s : State) : Prop :=
  match l with
  | [] => True
  | a :: l => allowed a s /\ match act a s with Next s' => synchronized l s' | Blocked => synchronized l s | _ => True end
  end.

Lemma sum_replicate_0 {A} (f : A -> nat) n x : f x = 0%nat -> sum_list_with f (replicate n x) = 0%nat.
Proof. intros H. induction n as [|n IH]; cbn; lia. Qed.

Lemma initial_good n m : good (initial n m).
Proof.
  assert (forall p, refs p (initial n m) = 0%nat) as Hr.
  { intros p. unfold refs. cbn [ptrs points initial]. by rewrite !sum_replicate_0. }
  split; [|by intros _]. split; cbn [table initial entries holder next]; try done.
  - intros t pt [-> _]%lookup_replicate_1. done.
  - intros p H. by rewrite Hr in H.
  - intros p [e He]. done.
Qed.

Lemma run_good l : forall s, good s -> synchronized l s -> safe_outcome (run l s).
Proof.
  induction l as [|a l IH]; intros s Hg Hs; [done|]. cbn [run]. destruct Hs as [Ha Hs].
  pose proof (act_good _ _ Hg Ha) as Hg'. destruct (act a s) as [s'| | |]; cbn in Hg'; auto.
Qed.

(** The thread that has the mutex, or any thread when nobody has it, can go on. *)
Lemma no_deadlock s t pt : inv s -> points s !! t = Some pt -> pt <> Idle -> exists t', step t' false s <> Blocked.
Proof.
  intros Hi Ht Hne. destruct (holder (table s)) as [t'|] eqn:Hh.
  - exists t'. destruct (inv_holder _ Hi _ Hh) as [pt' H]. pose proof (inv_points _ Hi _ _ H) as Hok.
    unfold step. rewrite H. destruct pt'; cbn in Hok; try naive_solver; repeat case_match; done.
  - exists t. unfold step. rewrite Ht, Hh. destruct pt; unfold goto; repeat case_match; done.
Qed.

(** An instance holds the string of its entry, and two that hold equal strings have equal
    pointers. *)
Definition interned (s : State) : Prop :=
  forall i p, ptrs s !! i = Some (Some p) ->
    is_Some (view s !! i ≫= id) /\
    forall j q, ptrs s !! j = Some (Some q) -> (p = q <-> view s !! i = view s !! j).

Lemma good_interned s : inv s -> interned s.
Proof.
  intros Hi i p Hp. destruct (ptr_alive _ _ _ Hi Hp) as [[str c] He].
  assert (view s !! i = Some (Some str)) as Hv by (unfold view; rewrite list_lookup_fmap, Hp; cbn; unfold string_at; by rewrite He).
  split; [rewrite Hv; by eexists|]. intros j q Hq. destruct (ptr_alive _ _ _ Hi Hq) as [[str' c'] He'].
  assert (view s !! j = Some (Some str')) as Hv' by (unfold view; rewrite list_lookup_fmap, Hq; cbn; unfold string_at; by rewrite He').
  rewrite Hv, Hv'. split; [intros ->; congruence|]. intros [= ->]. by eapply (inv_unique _ Hi).
Qed.

(** When no call is under way, the counters are the numbers of the instances. *)
Definition exact (s : State) : Prop :=
  forall p str c, entries (table s) !! p = Some (str, c) -> 0 < c /\ c = Z.of_nat (sum_list_with (here p) (ptrs s)).

Lemma idle_held p s : all_idle s -> sum_list_with (held p) (points s) = 0%nat.
Proof.
  intros Hi. destruct (decide (sum_list_with (held p) (points s) = 0%nat)) as [|Hne]; [done|].
  apply sum_pos in Hne as (t & pt & H & Hh). by rewrite (Hi _ _ H) in Hh.
Qed.

Lemma good_exact s : inv s -> all_idle s -> exact s.
Proof.
  intros Hi Hid p str c H. pose proof (inv_counts _ Hi _ _ _ H) as Hc. unfold refs in Hc.
  rewrite idle_held in Hc by done. split; [|lia]. destruct (decide (c = 0)) as [->|]; [|lia].
  destruct (inv_zero _ Hi _ _ H) as (t & pt & Ht & Hb). by rewrite (Hid _ _ Ht) in Hb.
Qed.

(** C15: In every interleaving of assignments, copies, resets, [Init] and [Destroy] in which no
    instance is changed while another thread copies it or copies into it, no thread uses an
    entry of the string table after it was erased; an instance always holds a string, two
    instances have equal pointers exactly when they hold equal strings, some thread can
    always go on, and when all calls have ended every counter is the number of the instances
    that hold its string, so that no entry is left without one. *)
Theorem counted_strings_safe l n m : synchronized l (initial n m) ->
  match run l (initial n m) with
  | Next s =>
      interned s /\ (forall t pt, points s !! t = Some pt -> pt <> Idle -> exists t', step t' false s <> Blocked) /\
      (all_idle s -> exact s)
  | Freed => False
  | Blocked | Aborted => True
  end.
Proof.
  intros Hs. pose proof (run_good l _ (initial_good n m) Hs) as Hg.
  destruct (run l (initial n m)) as [s| | |]; [|done..]. destruct Hg as [Hi _].
  split_and!; [by apply good_interned|intros t pt; by apply no_deadlock|by apply good_exact].
Qed.

(** *** Concrete schedules *)

Definition quietb (t i : nat) (s : State) : bool :=
  forallb (fun t' => (t' =? t)%nat || match points s !! t' with Some pt => negb (relies i pt) | None => true end)
    (seq 0 (length (points s))).

Definition allowedb (a : Action) (s : State) : bool :=
  match a with
  | Start t c =>
      match c with
      | AssignString i _ | AssignCopy i _ | AsyncSafeCopy i _ | Reset i | AsyncSafeReset i => (i <? length (ptrs s))%nat
      | CallInit | CallDestroy => true
      end
  | Run t _ => match points s !! t with Some (Exchanging _ i _ | Storing i _) => quietb t i s | _ => true end
  end.

Fixpoint synchronizedb (l : list Action) (s : State) : bool :=
  match l with
  | [] => true
  | a :: l => allowedb a s && match act a s with Next s' => synchronizedb l s' | Blocked => synchronizedb l s | _ => true end
  end.

Lemma quietb_ok t i s : quietb t i s = true -> quiet t i s.
Proof.
  intros Hq t' pt Hne H. unfold quietb in Hq. rewrite forallb_forall in Hq.
  specialize (Hq t'). rewrite in_seq, H in Hq. apply lookup_lt_Some in H as Hlt. specialize (Hq ltac:(lia)).
  apply orb_true_iff in Hq as [E%Nat.eqb_eq|E%negb_true_iff]; done.
Qed.

Lemma allowedb_ok a s : allowedb a s = true -> allowed a s.
Proof.
  destruct a as [t c|t spurious]; cbn.
  - destruct c; try done; apply Nat.ltb_lt.
  - destruct (points s !! t) as [[]|]; try done; apply quietb_ok.
Qed.

Lemma synchronizedb_ok l : forall s, synchronizedb l s = true -> synchronized l s.
Proof.
  induction l as [|a l IH]; intros s; cbn; [done|]. intros [Ha Hl]%andb_true_iff. split; [by apply allowedb_ok|].
  destruct (act a s); auto.
Qed.

(** Thread 0 holds a string; thread 1 copies it in a handler and, after thread 0 has given
    it up, interns another. *)
Definition schedule : list Action :=
  [Start 0 CallInit; Run 0 false; Start 0 (AssignString 0 "GET"); Run 0 false; Start 1 (AsyncSafeCopy 1 0); Run 0 false; Run 0 false;
   Run 1 false; Run 1 false; Run 1 false; Run 1 false; Start 0 (Reset 0); Start 1 (AssignString 2 "PUT"); Run 0 false; Run 0 false;
   Run 1 false; Run 0 true; Run 0 false; Run 1 false; Run 1 false].

Lemma counted_strings_safe_witness :
  match run schedule (initial 3 2) with
  | Next s => view s = [None; Some "GET"; Some "PUT"] /\ exact s
  | _ => False
  end.
Proof.
  pose proof (counted_strings_safe schedule 3 2 (synchronizedb_ok schedule (initial 3 2) ltac:(vm_compute; reflexivity))) as H.
  destruct (run schedule (initial 3 2)) as [s| | |] eqn:E; [|vm_compute in E; discriminate..].
  destruct H as (_ & _ & Hx). vm_compute in E. injection E as <-. split; [vm_compute; reflexivity|].
  apply Hx. intros [|[|[|t]]] pt H; cbn in H; congruence.
Defined.

(** The synchronization is needed: an instance that is reset while another thread copies it. *)
Example copy_of_changed_instance :
  run [Start 0 CallInit; Run 0 false; Start 0 (AssignString 0 "GET"); Run 0 false; Run 0 false; Run 0 false;
       Start 1 (AssignCopy 1 0); Run 1 false;
       Start 0 (Reset 0); Run 0 false; Run 0 false; Run 0 false; Run 0 false; Run 0 false; Run 1 false] (initial 2 2) = Freed.
Proof. vm_compute. reflexivity. Qed.
