(* ===== verification/ProfilerTags.v ===== *)
(** * The tags of threads

    Model of [JavaProfilerTags.cpp] and of its callers [SetDynamicTag] and [ClearDynamicTags]
    of [PInvoke.cpp], on the machine of [CountedStrings]: the keys are in a global table of
    at most [kMaxNumTags], and a [Tags] object is an array of as many counted strings, which
    are consecutive instances of the machine.  The calls here run one after the other; their
    interleavings are the subject of [CountedStrings]. *)
From stdpp Require Import base gmap list strings.
From S2P Require Import Prelude CountedStrings.

Definition kMaxNumTags : nat := 16.

(** ** The keys *)

Record Keys := mkKeys { keys : list string; key_to_id : gmap string Z }.

Definition RegisterKey (key : string) (k : Keys) : Z * Keys :=
  match key_to_id k !! key with
  | Some id => (id, k)
  | None =>
      if (kMaxNumTags <=? length (keys k))%nat then (-1, k)
      else
        let l := keys k ++ [key] in
        let id := Z.of_nat (length l) - 1 in
        (id, mkKeys l (<[key := id]> (key_to_id k)))
  end.

Definition GetIdByKey (key : string) (k : Keys) : Z := default (-1) (key_to_id k !! key).

(** The global variables: [None] is [nullptr]. *)
Definition TagsInit (g : option Keys) : option Keys * bool :=
  match g with Some _ => (g, false) | None => (Some (mkKeys [] ∅), true) end.

Definition TagsDestroy (g : option Keys) : option Keys * bool :=
  match g with Some _ => (None, true) | None => (None, false) end.

(** ** The tags *)

(** The instance [values_[i]] of the object [o]. *)
Definition slot (o i : nat) : nat := (kMaxNumTags * o + i)%nat.

(** The calls of a thread, one after the other. *)
Fixpoint calls (t : nat) (l : list Call) (s : State) : outcome :=
  match l with
  | [] => Next s
  | c :: l => match call t c s with Next s' => calls t l s' | o => o end
  end.

(** [Set] assigns the instance [value]. *)
Definition TagsSet (t o : nat) (key : string) (value : nat) (k : Keys) (s : State) : Keys * outcome * bool :=
  let '(key_id, k) := RegisterKey key k in
  if key_id <? 0 then (k, Next s, false)
  else (k, call t (AssignCopy (slot o (Z.to_nat key_id)) value) s, true).

Definition ClearAll (t o : nat) (s : State) : outcome :=
  calls t ((fun i => Reset (slot o i)) <$> seq 0 kMaxNumTags) s.

Definition AsyncSafeClearAll (t o : nat) (s : State) : outcome :=
  calls t ((fun i => AsyncSafeReset (slot o i)) <$> seq 0 kMaxNumTags) s.

Definition TagsAsyncSafeCopy (t o from : nat) (s : State) : outcome :=
  calls t ((fun i => AsyncSafeCopy (slot o i) (slot from i)) <$> seq 0 kMaxNumTags) s.

Definition TagsEqual (o o' : nat) (s : State) : bool :=
  forallb (fun i => bool_decide (load s (slot o i) = load s (slot o' i))) (seq 0 kMaxNumTags).

(** [address] is where the string of an entry is. *)
Definition TagsHash (address : nat -> Z) (o : nat) (s : State) : Z :=
  foldl (fun h i =>
    let h := u64 (h + match load s (slot o i) with Some p => address p | None => 0 end) in
    let h := u64 (h + u64 (Z.shiftl h 10)) in
    Z.lxor h (Z.shiftr h 6)) 0 (seq 0 kMaxNumTags).

(** [Get]: the pointer of the instance, or of the empty string. *)
Definition TagsGet (o : nat) (key : string) (k : Keys) (s : State) : option nat :=
  let key_id := GetIdByKey key k in
  if key_id >=? 0 then load s (slot o (Z.to_nat key_id)) else None.

Definition GetAll (o : nat) (k : Keys) (s : State) : list (string * string) :=
  omap (fun '(i, key) => pair key <$> value (table s) (load s (slot o i))) (imap pair (keys k)).

(** ** The callers *)

(** The string of the value is a temporary, the instance [temp]. *)
Definition SetDynamicTag (t o temp : nat) (key str : string) (k : Keys) (s : State) : Keys * outcome :=
  match call t (AssignString temp str) s with
  | Next s =>
      let '(k, r, _) := TagsSet t o key temp k s in
      (k, match r with Next s => call t (Reset temp) s | r => r end)
  | r => (k, r)
  end.

Definition ClearDynamicTags (t o : nat) (s : State) : outcome := ClearAll t o s.

(** ** Sequences of calls *)

(** The call changes an instance that is there, and no [CHECK] fails. *)
Definition fine (c : Call) (v : list (option string)) : Prop :=
  match c with
  | AssignCopy i _ | Reset i => (i < length v)%nat
  | AsyncSafeCopy i _ => v !! i = Some None
  | _ => False
  end.

Fixpoint all_fine (l : list Call) (v : list (option string)) : Prop :=
  match l with [] => True | c :: l => fine c v /\ all_fine l (assign false c v) end.

(** No call is under way. *)
Record ready (t : nat) (s : State) : Prop := {
  ready_good : good s;
  ready_idle : all_idle s;
  ready_thread : (t < length (points s))%nat }.

Lemma length_view s : length (view s) = length (ptrs s).
Proof. apply length_fmap. Qed.

Lemma load_view_None s i : inv s -> view s !! i = Some None -> load s i = None.
Proof.
  intros Hi. unfold view, load. rewrite list_lookup_fmap. destruct (ptrs s !! i) as [[p|]|] eqn:E; [|done..]. cbn.
  destruct (ptr_alive _ _ _ Hi E) as [e He]. unfold string_at. by rewrite He.
Qed.

Lemma call_ready t c s : ready t s -> allowed (Start t c) s -> may_abort s (first_point c) = false ->
  exists s', call t c s = Next s' /\ ready t s' /\ view s' = assign (open (table s)) c (view s).
Proof.
  intros [Hg Hi Ht] Ha Hm. pose proof (call_assign t c s Hg Hi Ht Ha) as Hc.
  destruct (call t c s) as [s'| | |] eqn:E; [|done|done|congruence]. destruct Hc as (Hg' & Hi' & Hv).
  exists s'. split_and!; [done| |done]. split; [done|done|]. by rewrite (call_length _ _ _ _ E).
Qed.

Lemma fine_call t c s : ready t s -> fine c (view s) ->
  exists s', call t c s = Next s' /\ ready t s' /\ view s' = assign false c (view s).
Proof.
  intros Hr Hf. destruct (call_ready t c s Hr) as (s' & E & Hr' & Hv).
  - destruct c; cbn in *; try done; rewrite length_view in Hf || apply lookup_lt_Some in Hf; rewrite ?length_view in Hf; done.
  - destruct c; cbn in *; try done. apply bool_decide_eq_false. intros [p Hp].
    rewrite (load_view_None s i) in Hp; [done|apply Hr|done].
  - exists s'. split_and!; [done|done|]. rewrite Hv. by destruct c.
Qed.

Lemma calls_view t l : forall s, ready t s -> all_fine l (view s) ->
  exists s', calls t l s = Next s' /\ ready t s' /\ view s' = foldl (fun v c => assign false c v) (view s) l.
Proof.
  induction l as [|c l IH]; intros s Hr Hf; cbn [calls foldl]; [by exists s|]. destruct Hf as [Hf Hl].
  destruct (fine_call t c s Hr Hf) as (s1 & E & Hr1 & Hv1). rewrite E. rewrite <- Hv1 in *. by apply IH.
Qed.

Lemma length_assign b c v : length (assign b c v) = length v.
Proof. destruct c; cbn; by rewrite ?length_insert. Qed.

Lemma length_assigns l : forall v, length (foldl (fun v c => assign false c v) v l) = length v.
Proof. induction l as [|c l IH]; intros v; cbn; [done|]. by rewrite IH, length_assign. Qed.

(** *** Slots *)

Lemma slot_inj o o' i i' : (i < kMaxNumTags)%nat -> (i' < kMaxNumTags)%nat -> slot o i = slot o' i' -> o = o' /\ i = i'.
Proof. unfold slot, kMaxNumTags. lia. Qed.

Lemma slot_lt o n i : (o < n)%nat -> (i < kMaxNumTags)%nat -> (slot o i < kMaxNumTags * n)%nat.
Proof. unfold slot, kMaxNumTags. lia. Qed.

(** Resetting distinct instances. *)
Lemma resets_view l : forall v, Forall (fun i => (i < length v)%nat) l ->
  all_fine (Reset <$> l) v /\
  forall j, foldl (fun v c => assign false c v) v (Reset <$> l) !! j ≫= id = if decide (j ∈ l) then None else v !! j ≫= id.
Proof.
  induction l as [|i l IH]; intros v Hl; [by split|]. apply Forall_cons in Hl as [Hi Hl].
  destruct (IH (<[i := None]> v)) as [Hf Hv]; [by rewrite length_insert|]. split; [by split|].
  intros j. cbn [fmap list_fmap foldl assign]. etransitivity; [exact (Hv j)|].
  destruct (decide (j = i)) as [->|Hne].
  - rewrite list_lookup_insert_eq by done. rewrite (decide_True (P := i ∈ i :: l)) by (by left). by destruct (decide _).
  - rewrite list_lookup_insert_ne by done. destruct (decide (j ∈ l)), (decide (j ∈ i :: l)); try done; set_solver.
Qed.

(** Copying distinct instances onto distinct empty ones. *)
Lemma copies_view (f g : nat -> nat) l : forall v, NoDup l ->
  (forall a b, a ∈ l -> b ∈ l -> f a = f b -> a = b) -> (forall a b, a ∈ l -> b ∈ l -> f a <> g b) ->
  (forall a, a ∈ l -> v !! f a = Some None) ->
  all_fine ((fun a => AsyncSafeCopy (f a) (g a)) <$> l) v /\
  (forall a, a ∈ l -> foldl (fun v c => assign false c v) v ((fun a => AsyncSafeCopy (f a) (g a)) <$> l) !! f a ≫= id = v !! g a ≫= id) /\
  (forall j, (forall a, a ∈ l -> j <> f a) ->
     foldl (fun v c => assign false c v) v ((fun a => AsyncSafeCopy (f a) (g a)) <$> l) !! j = v !! j).
Proof.
  induction l as [|x l IH]; intros v Hnd Hinj Hfg Hv; [by split_and!; [|intros a ?%not_elem_of_nil|]|].
  apply NoDup_cons in Hnd as [Hx Hnd]. set (v1 := <[f x := v !! g x ≫= id]> v).
  destruct (IH v1) as (Hf & Hc & Ho).
  - done.
  - intros a b Ha Hb. apply Hinj; by right.
  - intros a b Ha Hb. apply Hfg; by right.
  - intros a Ha. unfold v1. rewrite list_lookup_insert_ne; [apply Hv; by right|].
    intros E. apply Hinj in E; [|by left|by right]. by subst.
  - assert (v !! f x = Some None) as Hvx by (apply Hv; by left). split_and!.
    + split; [exact Hvx|exact Hf].
    + intros a Ha. cbn [fmap list_fmap foldl assign]. apply elem_of_cons in Ha as [->|Ha].
      * rewrite Ho.
        -- unfold v1. rewrite list_lookup_insert_eq by (by eapply lookup_lt_Some). done.
        -- intros b Hb E. apply Hinj in E; [|by left|by right]. by subst.
      * rewrite Hc by done. unfold v1. rewrite list_lookup_insert_ne; [done|]. apply Hfg; [by left|by right].
    + intros j Hj. cbn [fmap list_fmap foldl assign]. rewrite Ho by (intros a Ha; apply Hj; by right).
      unfold v1. rewrite list_lookup_insert_ne; [done|]. intros E. by apply (Hj x); [left|].
Qed.

(** *** Keys *)

Record keys_ok (k : Keys) : Prop := {
  keys_few : (length (keys k) <= kMaxNumTags)%nat;
  keys_ids : forall key z, key_to_id k !! key = Some z <-> 0 <= z /\ keys k !! Z.to_nat z = Some key }.

Definition accepts (key : string) (k : Keys) : bool :=
  bool_decide (key ∈ keys k) || (length (keys k) <? kMaxNumTags)%nat.

Lemma registered key k : keys_ok k -> is_Some (key_to_id k !! key) <-> key ∈ keys k.
Proof.
  intros Hk. split.
  - intros [z [_ Hz]%(keys_ids _ Hk)]. by eapply list_elem_of_lookup_2.
  - intros [i Hi]%list_elem_of_lookup_1. exists (Z.of_nat i). apply (keys_ids _ Hk). rewrite Nat2Z.id. split; [lia|done].
Qed.

(** A key gets its identifier; the others keep theirs. *)
Lemma RegisterKey_ok key k : keys_ok k ->
  let '(id, k') := RegisterKey key k in
  keys_ok k' /\ (length (keys k) <= length (keys k'))%nat /\
  (if accepts key k then key_to_id k' !! key = Some id else id = -1 /\ k' = k) /\
  match key_to_id k !! key with Some z => id = z | None => accepts key k = true -> (length (keys k) <= Z.to_nat id)%nat end /\
  forall key', key' <> key -> key_to_id k' !! key' = key_to_id k !! key'.
Proof.
  intros Hk. unfold RegisterKey, accepts. destruct (key_to_id k !! key) as [id|] eqn:E.
  { rewrite bool_decide_true by (apply registered; [done|by eexists]). cbn. by split_and!. }
  assert (key ∉ keys k) as Hn by (intros H%(registered _ _ Hk); rewrite E in H; by destruct H).
  rewrite bool_decide_false by done. cbn [orb]. destruct (Nat.leb_spec kMaxNumTags (length (keys k))) as [Hl|Hl].
  { destruct (Nat.ltb_spec (length (keys k)) kMaxNumTags); [lia|]. by split_and!. }
  destruct (Nat.ltb_spec (length (keys k)) kMaxNumTags); [|lia].
  rewrite length_app. cbn [length keys key_to_id]. split_and!; [|rewrite length_app; lia|by rewrite lookup_insert_eq|intros _; lia|].
  - split; cbn [keys key_to_id].
    + rewrite length_app. cbn. lia.
    + intros key' z. rewrite lookup_insert_Some, lookup_app_Some, (keys_ids _ Hk). split.
      * intros [[<- <-]|[Hne [Hz H']]]; (split; [lia|]); [right|by left].
        replace (Z.to_nat _ - _)%nat with 0%nat by lia. split; [lia|done].
      * intros [Hz [H'|[Hge H']]]; [right|left].
        -- split; [|done]. intros <-. by apply Hn, (list_elem_of_lookup_2 _ _ _ H').
        -- apply list_lookup_singleton_Some in H' as [H0 ->]. split; [done|lia].
  - intros key' Hne. by rewrite lookup_insert_ne by done.
Qed.

(** ** Tags are maps *)

(** The string of a key. *)
Definition tag (k : Keys) (s : State) (o : nat) (key : string) : option string := value (table s) (TagsGet o key k s).

(** The operations of the program: the first [n] objects, and the temporary after them. *)
Inductive TagsOp :=
| OpSet (o : nat) (key str : string)
| OpClear (o : nat)
| OpCopy (o from : nat).

Definition exec (n t : nat) (op : TagsOp) (k : Keys) (s : State) : Keys * outcome :=
  match op with
  | OpSet o key str => SetDynamicTag t o (kMaxNumTags * n) key str k s
  | OpClear o => (k, ClearDynamicTags t o s)
  | OpCopy o from => (k, TagsAsyncSafeCopy t o from s)
  end.

(** What the operation does to maps from keys to strings. *)
Definition tags_after (available : bool) (op : TagsOp) (k : Keys) (m : nat -> string -> option string)
    (o : nat) (key : string) : option string :=
  match op with
  | OpSet o' key' str =>
      if bool_decide (o = o' /\ key = key') && accepts key' k then if available then Some str else None else m o key
  | OpClear o' => if decide (o = o') then None else m o key
  | OpCopy o' from => m (if decide (o = o') then from else o) key
  end.

(** The objects have no string at the keys that are not registered. *)
Record tags_ok (n t : nat) (k : Keys) (s : State) : Prop := {
  tags_ready : ready t s;
  tags_keys : keys_ok k;
  tags_temp : (kMaxNumTags * n < length (view s))%nat;
  tags_unused : forall o i, (o < n)%nat -> (length (keys k) <= i < kMaxNumTags)%nat -> view s !! slot o i ≫= id = None }.

(** The copies are made into an empty object. *)
Definition op_ok (n : nat) (op : TagsOp) (s : State) : Prop :=
  match op with
  | OpSet o _ _ | OpClear o => (o < n)%nat
  | OpCopy o from => (o < n)%nat /\ (from < n)%nat /\ o <> from /\ forall i, (i < kMaxNumTags)%nat -> view s !! slot o i ≫= id = None
  end.

Section operations.
Context (n t : nat) (k : Keys) (s : State) (Hok : tags_ok n t k s).

Lemma temp_lt : (kMaxNumTags * n < length (view s))%nat.
Proof. apply (tags_temp _ _ _ _ Hok). Qed.

Lemma slot_view o i : (o < n)%nat -> (i < kMaxNumTags)%nat -> (slot o i < length (view s))%nat.
Proof. intros Ho Hi. pose proof temp_lt. pose proof (slot_lt _ _ _ Ho Hi). lia. Qed.

Lemma slot_temp o i : (o < n)%nat -> (i < kMaxNumTags)%nat -> slot o i <> (kMaxNumTags * n)%nat.
Proof. intros Ho Hi. pose proof (slot_lt _ _ _ Ho Hi). lia. Qed.

Lemma tag_id o key : tag k s o key = match key_to_id k !! key with Some z => view s !! slot o (Z.to_nat z) ≫= id | None => None end.
Proof.
  unfold tag, TagsGet, GetIdByKey. destruct (key_to_id k !! key) as [z|] eqn:E; [|done]. cbn [default from_option id].
  apply (keys_ids _ (tags_keys _ _ _ _ Hok)) in E as [Hz _]. destruct (Z.geb_spec z 0); [|lia]. apply view_lookup.
Qed.

Lemma id_lt key z : key_to_id k !! key = Some z -> 0 <= z /\ (Z.to_nat z < length (keys k))%nat /\ (Z.to_nat z < kMaxNumTags)%nat.
Proof.
  intros [Hz H]%(keys_ids _ (tags_keys _ _ _ _ Hok)). apply lookup_lt_Some in H.
  pose proof (keys_few _ (tags_keys _ _ _ _ Hok)). split_and!; [done|done|lia].
Qed.
End operations.

(** What an operation does to the instances, with the keys that it leaves. *)
Definition changes (n t : nat) (op : TagsOp) (k : Keys) (s : State) (r : Keys * outcome) : Prop :=
  match r with
  | (k', Next s') =>
      tags_ok n t k' s' /\
      forall o key, (o < n)%nat -> tag k' s' o key = tags_after (open (table s)) op k (tag k s) o key
  | _ => False
  end.

Lemma clear_changes n t k s o : tags_ok n t k s -> op_ok n (OpClear o) s -> changes n t (OpClear o) k s (exec n t (OpClear o) k s).
Proof.
  intros Hok Ho. cbn in Ho. unfold exec, ClearDynamicTags, ClearAll.
  change (calls t _ s) with (calls t (Reset ∘ slot o <$> seq 0 kMaxNumTags) s). rewrite list_fmap_compose.
  destruct (resets_view (slot o <$> seq 0 kMaxNumTags) (view s)) as [Hf Hv].
  { apply Forall_fmap, Forall_forall. intros i Hi%elem_of_seq. apply (slot_view n t k s); [done|done|cbn; lia]. }
  destruct (calls_view t _ s (tags_ready _ _ _ _ Hok) Hf) as (s' & -> & Hr & E). rewrite <- E in Hv.
  assert (forall o' i, (o' < n)%nat -> (i < kMaxNumTags)%nat ->
    view s' !! slot o' i ≫= id = if decide (o' = o) then None else view s !! slot o' i ≫= id) as Hv'.
  { intros o' i Ho' Hi. rewrite Hv. destruct (decide (o' = o)) as [->|Hne].
    - rewrite decide_True; [done|]. apply list_elem_of_fmap. exists i. split; [done|]. apply elem_of_seq. lia.
    - rewrite decide_False; [done|]. intros (j & Ej & Hj%elem_of_seq)%list_elem_of_fmap. apply slot_inj in Ej as [Ej _]; [done|done|cbn; lia]. }
  assert (tags_ok n t k s') as Hok'.
  { split; [done|apply Hok|rewrite E, length_assigns; apply Hok|]. intros o' i Ho' Hi. rewrite Hv' by (done || lia).
    destruct (decide (o' = o)); [done|by apply (tags_unused _ _ _ _ Hok)]. }
  split; [done|]. intros o' key Ho'. cbn [tags_after]. rewrite (tag_id n t k s' Hok'), (tag_id n t k s Hok).
  destruct (key_to_id k !! key) as [z|] eqn:Ez; [|by destruct (decide (o' = o))].
  apply (id_lt n t k s Hok) in Ez as (_ & _ & Hz). by apply Hv'.
Qed.

Lemma copy_changes n t k s o from : tags_ok n t k s -> op_ok n (OpCopy o from) s ->
  changes n t (OpCopy o from) k s (exec n t (OpCopy o from) k s).
Proof.
  intros Hok (Ho & Hfrom & Hne & Hempty). unfold exec, TagsAsyncSafeCopy.
  assert (forall i, i ∈ seq 0 kMaxNumTags -> (i < kMaxNumTags)%nat) as Hseq by (intros i Hi%elem_of_seq; lia).
  destruct (copies_view (slot o) (slot from) (seq 0 kMaxNumTags) (view s)) as (Hf & Hc & Hother).
  { apply NoDup_seq. }
  { intros a b Ha Hb E. by apply slot_inj in E as [_ E]; auto. }
  { intros a b Ha Hb E. apply slot_inj in E as [E _]; auto. }
  { intros a Ha. specialize (Hempty a (Hseq _ Ha)). pose proof (slot_view n t k s Hok o a Ho (Hseq _ Ha)) as [x Hx]%lookup_lt_is_Some.
    rewrite Hx in *. cbn in Hempty. by subst. }
  destruct (calls_view t _ s (tags_ready _ _ _ _ Hok) Hf) as (s' & -> & Hr & E). rewrite <- E in Hc, Hother.
  assert (forall o' i, (o' < n)%nat -> (i < kMaxNumTags)%nat ->
    view s' !! slot o' i ≫= id = view s !! slot (if decide (o' = o) then from else o') i ≫= id) as Hv'.
  { intros o' i Ho' Hi. destruct (decide (o' = o)) as [->|Hne']; [apply Hc, elem_of_seq; lia|]. rewrite Hother; [done|].
    intros j Hj Ej. apply slot_inj in Ej as [Ej _]; auto. }
  assert (tags_ok n t k s') as Hok'.
  { split; [done|apply Hok|rewrite E, length_assigns; apply Hok|]. intros o' i Ho' Hi. rewrite Hv' by (done || lia).
    destruct (decide (o' = o)); by apply (tags_unused _ _ _ _ Hok). }
  split; [done|]. intros o' key Ho'. cbn [tags_after]. rewrite (tag_id n t k s' Hok'), (tag_id n t k s Hok).
  destruct (key_to_id k !! key) as [z|] eqn:Ez; [|done].
  apply (id_lt n t k s Hok) in Ez as (_ & _ & Hz). by apply Hv'.
Qed.

(** The string is stored at the identifier of the key. *)
Lemma set_tags n t k k' s s' o key id' x : tags_ok n t k s -> (o < n)%nat -> RegisterKey key k = (id', k') ->
  accepts key k = true -> ready t s' -> length (view s') = length (view s) ->
  (forall o' i, (o' < n)%nat -> (i < kMaxNumTags)%nat ->
     view s' !! slot o' i ≫= id = if decide (o' = o /\ i = Z.to_nat id') then x else view s !! slot o' i ≫= id) ->
  tags_ok n t k' s' /\
  forall o' key', (o' < n)%nat -> tag k' s' o' key' = if decide (o' = o /\ key' = key) then x else tag k s o' key'.
Proof.
  intros Hok Ho ER Hacc Hr Hl Hv. pose proof (RegisterKey_ok key k (tags_keys _ _ _ _ Hok)) as HR.
  rewrite ER, Hacc in HR. destruct HR as (Hk' & Hlen & Hid & Hnew & Hother).
  pose proof (proj1 (keys_ids _ Hk' _ _) Hid) as [Hpos Hat]. pose proof (lookup_lt_Some _ _ _ Hat) as Hlt.
  assert (tags_ok n t k' s') as Hok'.
  { split; [done|done|rewrite Hl; apply Hok|]. intros o' i Ho' Hi. rewrite Hv by (done || lia).
    rewrite decide_False by lia. apply (tags_unused _ _ _ _ Hok); [done|lia]. }
  split; [done|]. intros o' key' Ho'. rewrite (tag_id n t k' s' Hok'), (tag_id n t k s Hok).
  destruct (decide (key' = key)) as [->|Hne].
  - rewrite Hid. pose proof (keys_few _ Hk'). rewrite Hv by (done || lia). destruct (decide (o' = o)) as [->|Hno].
    { by rewrite !decide_True by done. }
    rewrite !decide_False by naive_solver. destruct (key_to_id k !! key) as [z|]; [by subst|].
    apply (tags_unused _ _ _ _ Hok); [done|]. specialize (Hnew eq_refl). lia.
  - rewrite (decide_False (P := o' = o /\ key' = key)) by naive_solver. rewrite Hother by done.
    destruct (key_to_id k !! key') as [z|] eqn:Ez; [|done]. pose proof (id_lt n t k s Hok _ _ Ez) as (Hz & _ & Hz16).
    rewrite Hv by done. rewrite decide_False; [done|]. intros [_ Ei]. rewrite <- Hother in Ez by done.
    apply (keys_ids _ Hk') in Ez as [_ Ez]. rewrite Ei in Ez. congruence.
Qed.

Lemma set_changes n t k s o key str : tags_ok n t k s -> op_ok n (OpSet o key str) s ->
  changes n t (OpSet o key str) k s (exec n t (OpSet o key str) k s).
Proof.
  intros Hok Ho. cbn in Ho. unfold exec, SetDynamicTag. set (temp := (kMaxNumTags * n)%nat).
  pose proof (temp_lt n t k s Hok) as Htemp. fold temp in Htemp.
  destruct (call_ready t (AssignString temp str) s) as (s1 & -> & Hr1 & Hv1); [apply Hok|by rewrite length_view in Htemp|done|].
  cbn [assign] in Hv1. unfold TagsSet. pose proof (RegisterKey_ok key k (tags_keys _ _ _ _ Hok)) as HR.
  destruct (RegisterKey key k) as [id' k'] eqn:ER. destruct HR as (Hk' & Hlen & Hid & _ & Hother).
  assert (length (view s1) = length (view s)) as Hl1 by (rewrite Hv1; apply length_insert).
  pose proof (fun o' i H H' => slot_temp n o' i H H') as Hst. destruct (accepts key k) eqn:Hacc.
  - pose proof (proj1 (keys_ids _ Hk' _ _) Hid) as [Hpos Hat]. destruct (Z.ltb_spec id' 0) as [|_]; [lia|].
    pose proof (lookup_lt_Some _ _ _ Hat) as Hlt. pose proof (keys_few _ Hk') as Hfew.
    pose proof (slot_view n t k s Hok o (Z.to_nat id') Ho ltac:(lia)) as Hslot.
    destruct (fine_call t (AssignCopy (slot o (Z.to_nat id')) temp) s1 Hr1) as (s2 & -> & Hr2 & Hv2); [cbn [fine]; lia|].
    assert (length (view s2) = length (view s)) as Hl2 by (rewrite Hv2, length_assign; done).
    destruct (fine_call t (Reset temp) s2 Hr2) as (s3 & -> & Hr3 & Hv3); [cbn [fine]; lia|].
    destruct (set_tags n t k k' s s3 o key id' (if open (table s) then Some str else None) Hok Ho ER Hacc Hr3) as [Hok' Htag].
    + by rewrite Hv3, length_assign.
    + intros o' i Ho' Hi. rewrite Hv3. cbn [assign]. rewrite list_lookup_insert_ne by (apply not_eq_sym, Hst; done).
      rewrite Hv2. cbn [assign]. destruct (decide (o' = o /\ i = Z.to_nat id')) as [[-> ->]|Hne].
      * rewrite list_lookup_insert_eq by lia. rewrite Hv1, list_lookup_insert_eq by done. done.
      * rewrite list_lookup_insert_ne by (intros E; apply Hne; by apply slot_inj in E as [-> ->]; [|lia|]).
        rewrite Hv1, list_lookup_insert_ne by (apply not_eq_sym, Hst; done). done.
    + split; [done|]. intros o' key' Ho'. rewrite Htag by done. cbn [tags_after]. rewrite Hacc, andb_true_r.
      destruct (decide (o' = o /\ key' = key)); [rewrite bool_decide_true by done|rewrite bool_decide_false by done]; done.
  - destruct Hid as [-> ->]. 
        destruct (fine_call t (Reset temp) s1 Hr1) as (s3 & E3 & Hr3 & Hv3); [cbn [fine]; lia|]. change (-1 <? 0) with true. cbv match. rewrite E3.
    assert (forall o' i, (o' < n)%nat -> (i < kMaxNumTags)%nat -> view s3 !! slot o' i ≫= id = view s !! slot o' i ≫= id) as Hv.
    { intros o' i Ho' Hi. rewrite Hv3, Hv1. cbn [assign]. by rewrite !list_lookup_insert_ne by (apply not_eq_sym, Hst; done). }
    assert (tags_ok n t k s3) as Hok3.
    { split; [done|done|rewrite Hv3, length_assign, Hl1; apply Hok|]. intros o' i Ho' Hi.
      rewrite Hv by (done || lia). by apply (tags_unused _ _ _ _ Hok). }
    split; [done|]. intros o' key' Ho'. cbn [tags_after]. rewrite Hacc, andb_false_r, (tag_id n t k s3 Hok3), (tag_id n t k s Hok).
    destruct (key_to_id k !! key') as [z|] eqn:Ez; [|done]. apply (id_lt n t k s Hok) in Ez as (_ & _ & Hz). by apply Hv.
Qed.

(** [GetAll] lists the map. *)
Lemma GetAll_tags n t k s o key str : tags_ok n t k s -> (key, str) ∈ GetAll o k s <-> tag k s o key = Some str.
Proof.
  intros Hok. rewrite (tag_id n t k s Hok). unfold GetAll. rewrite list_elem_of_omap. split.
  - intros ([i key'] & (i' & key2 & [= <- <-] & Hi)%elem_of_lookup_imap_1 & H). rewrite view_lookup in H.
    apply fmap_Some_1 in H as (str' & Hs & [= <- <-]).
    rewrite (proj2 (keys_ids _ (tags_keys _ _ _ _ Hok) key (Z.of_nat i))); rewrite Nat2Z.id; [done|by split; [lia|]].
  - destruct (key_to_id k !! key) as [z|] eqn:Ez; [|done]. intros Hs.
    apply (keys_ids _ (tags_keys _ _ _ _ Hok)) in Ez as [Hz Hk]. exists (Z.to_nat z, key). split.
    + apply elem_of_lookup_imap. by exists (Z.to_nat z), key.
    + by rewrite view_lookup, Hs.
Qed.

(** C16: [Tags] objects are maps from keys to strings.  [SetDynamicTag] sets one key of one
    object, unless there are sixteen other keys, when it changes nothing;
    [ClearDynamicTags] empties one object, and [AsyncSafeCopy] into an empty object copies;
    [GetAll] lists exactly the keys that have a string.  No call stops the process, and
    nothing else changes, though a new key gives every object one more slot. *)
Theorem tags_are_maps n t op k s : tags_ok n t k s -> op_ok n op s ->
  match exec n t op k s with
  | (k', Next s') =>
      tags_ok n t k' s' /\
      (forall o key, (o < n)%nat -> tag k' s' o key = tags_after (open (table s)) op k (tag k s) o key) /\
      (forall o key str, (o < n)%nat -> (key, str) ∈ GetAll o k' s' <-> tag k' s' o key = Some str)
  | _ => False
  end.
Proof.
  intros Hok Hop. assert (changes n t op k s (exec n t op k s)) as Hc.
  { destruct op; [by apply set_changes|by apply clear_changes|by apply copy_changes]. }
  unfold changes in Hc. destruct (exec n t op k s) as [k' [s'| | |]]; [|done..]. destruct Hc as [Hok' Ht].
  split_and!; [done|done|]. intros o key str _. by eapply GetAll_tags.
Qed.

(** Two objects, when the tables have been made. *)
Definition start : State :=
  mkState (mkTable true ∅ 0 None) (replicate 33 None) [Idle].

Lemma start_tags_ok : tags_ok 2 0 (mkKeys [] ∅) start.
Proof.
  assert (forall i, (i < 33)%nat -> view start !! i = Some None) as Hv.
  { intros i Hi. unfold view. rewrite list_lookup_fmap. cbn [ptrs start]. rewrite lookup_replicate_2 by done. done. }
  assert (forall p, refs p start = 0%nat) as Hr.
  { intros p. unfold refs. cbn [ptrs points start]. by rewrite sum_replicate_0. }
  split.
  - split; [split; [|by intros _]|by intros [|t] pt H; [injection H as <-|]|cbn; lia].
    split; cbn [table start entries holder next]; try done.
    + intros [|t] pt H; [by injection H as <-|done].
    + intros p [e He]. done.
  - split; cbn; [unfold kMaxNumTags; lia|]. intros key z. rewrite lookup_nil. split; [done|by intros [_ ?]].
  - cbn. unfold kMaxNumTags. lia.
  - intros o i Ho Hi. rewrite Hv; [done|]. unfold slot, kMaxNumTags in *. lia.
Qed.

Lemma tags_are_maps_witness :
  match exec 2 0 (OpSet 1 "vehicle" "bike") (mkKeys [] ∅) start with
  | (k, Next s) => tag k s 1 "vehicle" = Some "bike" /\ tag k s 0 "vehicle" = None /\ GetAll 1 k s = [("vehicle", "bike")]
  | _ => False
  end.
Proof.
  pose proof (tags_are_maps 2 0 (OpSet 1 "vehicle" "bike") (mkKeys [] ∅) start start_tags_ok ltac:(cbn; lia)) as H.
  destruct (exec 2 0 (OpSet 1 "vehicle" "bike") (mkKeys [] ∅) start) as [k [s| | |]] eqn:E; [|done..].
  destruct H as (_ & Ht & _). rewrite !Ht by lia. vm_compute in E. injection E as <- <-.
  split_and!; vm_compute; reflexivity.
Defined.

(** The seventeenth key is dropped, and the caller is not told. *)
Example seventeenth_key :
  let k := mkKeys (replicate 16 "k") ∅ in
  match SetDynamicTag 0 0 32 "new" "value" k start with
  | (k', Next s) => keys k' = keys k /\ GetAll 0 k' s = []
  | _ => False
  end.
Proof. vm_compute. done. Qed.
