(* ===== verification/LibrariesCache.v ===== *)
(** * The functions of the loaded libraries

    Model of the symbol cache of [LibrariesInfoCache.cpp]: for every loaded library,
    [BuildSymbolCache] reads the symbol tables of its file and keeps the sorted functions of
    its executable segment; [FindFunctionStart], which libunwind calls in signal handlers
    through [GetProcName], searches them twice with [std::upper_bound].

    A file is the sequence of its bytes, and a read outside of its mapping is [OutOfBounds].
    [Malformed] is a file that is skipped.  Addresses are 64-bit words. *)
From stdpp Require Import base list sorting sets.
From S2P Require Import Prelude EventPayloads CodeCache.

(** ** Data *)

Record Phdr := mkPhdr { p_type : Z; p_flags : Z; p_vaddr : Z; p_memsz : Z }.

(** [struct dl_phdr_info]; [None] is a null name. *)
Record dl_phdr_info := mkInfo {
  dlpi_addr : Z;
  dlpi_name : option (list Z);
  dlpi_phdr : list Phdr;
  dlpi_tls_modid : Z;
  dlpi_tls_data : option Z
}.

Record Ehdr := mkEhdr { e_ident : Z; e_shoff : Z; e_shentsize : Z; e_shnum : Z }.

(** The magic number is the first four bytes of [e_ident]. *)
#[export, refine] Instance Ehdr_pod : Pod Ehdr := {
  layout := [4; 4; 8; 2; 2; 4; 8; 8; 8; 4; 2; 2; 2; 2; 2; 2]%nat;
  of_fields l :=
    match l with
    | [magic; _; _; _; _; _; _; _; shoff; _; _; _; _; shentsize; shnum; _] => mkEhdr magic shoff shentsize shnum
    | _ => mkEhdr 0 0 0 0
    end;
  to_fields x := [e_ident x; 0; 0; 0; 0; 0; 0; 0; e_shoff x; 0; 0; 0; 0; e_shentsize x; e_shnum x; 0]
}.
Proof. all: by intros []. Defined.

Record Shdr := mkShdr { sh_type : Z; sh_offset : Z; sh_size : Z; sh_entsize : Z }.

#[export, refine] Instance Shdr_pod : Pod Shdr := {
  layout := [4; 4; 8; 8; 8; 8; 4; 4; 8; 8]%nat;
  of_fields l :=
    match l with
    | [_; type; _; _; offset; size; _; _; _; entsize] => mkShdr type offset size entsize
    | _ => mkShdr 0 0 0 0
    end;
  to_fields x := [0; sh_type x; 0; 0; sh_offset x; sh_size x; 0; 0; 0; sh_entsize x]
}.
Proof. all: by intros []. Defined.

Record Sym := mkSym { st_info : Z; st_shndx : Z; st_value : Z; st_size : Z }.

#[export, refine] Instance Sym_pod : Pod Sym := {
  layout := [4; 1; 1; 2; 8; 8]%nat;
  of_fields l :=
    match l with
    | [_; info; _; shndx; value; size] => mkSym info shndx value size
    | _ => mkSym 0 0 0 0
    end;
  to_fields x := [0; st_info x; 0; st_shndx x; st_value x; st_size x]
}.
Proof. all: by intros []. Defined.

Record FuncEntry := mkFunc { offset : Z; size : Z }.

Record ModuleRegion := mkRegion { addr_low : Z; addr_high : Z; sym_offset : Z; sym_count : Z }.

Definition PT_LOAD : Z := 1.
Definition PF_X : Z := 1.
Definition ELFMAG : Z := 0x464c457f.
Definition SHT_SYMTAB : Z := 2.
Definition SHT_DYNSYM : Z := 11.
Definition STT_FUNC : Z := 2.
Definition SHN_UNDEF : Z := 0.
Definition UINT32_MAX : Z := 2 ^ 32 - 1.
Definition ELF64_ST_TYPE (info : Z) : Z := Z.land info 15.

(** ** DlPhdrInfoWrapper *)

(** The pointers to thread-local data are not kept. *)
Definition DeepCopy (source : dl_phdr_info) : dl_phdr_info :=
  mkInfo (dlpi_addr source) (dlpi_name source) (dlpi_phdr source) 0 None.

Definition IsSame (info other : dl_phdr_info) : bool :=
  bool_decide (dlpi_name info = dlpi_name other) && (dlpi_addr info =? dlpi_addr other).

(** ** BuildSymbolCache *)

Definition IsFileRangeValid (off sz fileSize : Z) : bool :=
  (off <=? fileSize) && (sz <=? u64 (fileSize - off)).

(** [(found, segLow, segHigh)] after one program header. *)
Definition exec_segment_step (addr : Z) (acc : bool * Z * Z) (phdr : Phdr) : bool * Z * Z :=
  let '(foundExecSeg, segLow, segHigh) := acc in
  if (p_type phdr =? PT_LOAD) && negb (Z.land (p_flags phdr) PF_X =? 0) then
    let low := u64 (addr + p_vaddr phdr) in
    let high := u64 (low + p_memsz phdr) in
    (true,
     if negb foundExecSeg || (low <? segLow) then low else segLow,
     if negb foundExecSeg || (segHigh <? high) then high else segHigh)
  else acc.

Definition exec_segment (info : dl_phdr_info) : bool * Z * Z :=
  foldl (exec_segment_step (dlpi_addr info)) (false, 0, 0) (dlpi_phdr info).

(** An object at an offset of the mapping. *)
Definition read_at (T : Type) `{Pod T} (file : bytes) (off : Z) : outcome T :=
  bs ← EventPayloads.load file off (sizeof T); Ok (of_bytes bs).

(** The [n] objects of an array, from the index [i]. *)
Fixpoint read_array (T : Type) `{Pod T} (file : bytes) (base : Z) (i n : nat) : outcome (list T) :=
  match n with
  | O => Ok []
  | S n =>
    x ← read_at T file (base + Z.of_nat (i * sizeof T));
    l ← read_array T file base (S i) n;
    Ok (x :: l)
  end.

(** The functions of a table of symbols: start and end. *)
Definition function_of (loadOffset : Z) (s : Sym) : option (Z * Z) :=
  if negb (ELF64_ST_TYPE (st_info s) =? STT_FUNC) then None
  else if st_shndx s =? SHN_UNDEF then None
  else if st_size s =? 0 then None
  else
    let startIp := u64 (st_value s + loadOffset) in
    Some (startIp, u64 (startIp + st_size s)).

Definition section_functions (file : bytes) (loadOffset : Z) (sh : Shdr) : outcome (list (Z * Z)) :=
  if negb (sh_type sh =? SHT_SYMTAB) && negb (sh_type sh =? SHT_DYNSYM) then Ok []
  else if negb (sh_entsize sh =? Z.of_nat (sizeof Sym)) then Ok []
  else if negb (IsFileRangeValid (sh_offset sh) (sh_size sh) (zlen file)) then Ok []
  else
    let symCount := sh_size sh / Z.of_nat (sizeof Sym) in
    syms ← read_array Sym file (sh_offset sh) 0 (Z.to_nat symCount);
    Ok (omap (M := list) (function_of loadOffset) syms).

Fixpoint sections_functions (file : bytes) (loadOffset : Z) (shdrs : list Shdr) : outcome (list (Z * Z)) :=
  match shdrs with
  | [] => Ok []
  | sh :: shdrs =>
    l ← section_functions file loadOffset sh;
    l' ← sections_functions file loadOffset shdrs;
    Ok (l ++ l')
  end.

(** The symbols of a file, in the order of its tables. *)
Definition module_functions (file : bytes) (loadOffset : Z) : outcome (list (Z * Z)) :=
  if zlen file <? Z.of_nat (sizeof Ehdr) then Malformed
  else
    ehdr ← read_at Ehdr file 0;
    if negb (e_ident ehdr =? ELFMAG) then Malformed
    else if (e_shoff ehdr =? 0) || (e_shnum ehdr =? 0) || negb (e_shentsize ehdr =? Z.of_nat (sizeof Shdr))
            || negb (IsFileRangeValid (e_shoff ehdr) (e_shnum ehdr * Z.of_nat (sizeof Shdr)) (zlen file)) then Malformed
    else
      shdrs ← read_array Shdr file (e_shoff ehdr) 0 (Z.to_nat (e_shnum ehdr));
      sections_functions file loadOffset shdrs.

(** The order of [std::sort]: by start, then by end. *)
Definition before (a b : Z * Z) : Prop := a.1 < b.1 \/ (a.1 = b.1 /\ a.2 <= b.2).

#[export] Instance before_dec : RelDecision before.
Proof. intros a b. unfold before. solve_decision. Defined.

(** [std::unique] and [erase]. *)
Fixpoint unique (l : list (Z * Z)) : list (Z * Z) :=
  match l with
  | [] => []
  | a :: l =>
    match l with
    | b :: _ => if decide (a = b) then unique l else a :: unique l
    | [] => [a]
    end
  end.

(** The entry of a function, unless it does not fit 32 bits. *)
Definition entry_of (segLow : Z) (f : Z * Z) : option FuncEntry :=
  let off := u64 (f.1 - segLow) in
  let funcSize := u64 (f.2 - f.1) in
  if (UINT32_MAX <? off) || (UINT32_MAX <? funcSize) then None else Some (mkFunc (u32 off) (u32 funcSize)).

(** The regions and symbols so far. *)
Abbreviation Tables := (list ModuleRegion * list FuncEntry)%type.

(** [open] gives the bytes of a file, if it can be opened and mapped. *)
Section build.
Context (open : list Z -> option bytes) (proc_self_exe : list Z).

Definition module_path (info : dl_phdr_info) : list Z :=
  match dlpi_name info with Some (c :: name) => c :: name | _ => proc_self_exe end.

Definition add_module (info : dl_phdr_info) (out : Tables) : outcome Tables :=
  let '(foundExecSeg, segLow, segHigh) := exec_segment info in
  if negb foundExecSeg || (segLow =? segHigh) then Ok out
  else
    match open (module_path info) with
    | None => Ok out
    | Some file =>
      match module_functions file (dlpi_addr info) with
      | OutOfBounds => OutOfBounds
      | Malformed | Ok [] => Ok out
      | Ok functions =>
        let moduleSymbols := unique (merge_sort before functions) in
        let entries := omap (entry_of segLow) moduleSymbols in
        Ok (out.1 ++ [mkRegion segLow segHigh (u32 (zlen out.2)) (u32 (zlen entries))], out.2 ++ entries)
      end
    end.

Fixpoint add_modules (infos : list dl_phdr_info) (out : Tables) : outcome Tables :=
  match infos with
  | [] => Ok out
  | info :: infos => out ← add_module info out; add_modules infos out
  end.

Definition below (a b : ModuleRegion) : Prop := addr_low a <= addr_low b.

#[export] Instance below_dec : RelDecision below.
Proof. intros a b. unfold below. solve_decision. Defined.

Definition BuildSymbolCache (phdrCache : list dl_phdr_info) : outcome Tables :=
  out ← add_modules phdrCache ([], []);
  Ok (merge_sort below out.1, out.2).
End build.

(** ** FindFunctionStart *)

(** The search of the symbols of a module; [Malformed] is [-UNW_ENOINFO]. *)
Definition search_symbols (baseLow ip : Z) (syms : list FuncEntry) : outcome Z :=
  match bound (fun e => u64 (baseLow + offset e) <=? ip) syms with
  | O => Malformed
  | S j =>
    match syms !! j with
    | None => OutOfBounds
    | Some e =>
      let startIp := u64 (baseLow + offset e) in
      if u64 (startIp + size e) <=? ip then Malformed else Ok startIp
    end
  end.

Definition FindFunctionStart (t : Tables) (ip : Z) : outcome Z :=
  match bound (fun r => addr_low r <=? ip) t.1 with
  | O => Malformed
  | S i =>
    match t.1 !! i with
    | None => OutOfBounds
    | Some region =>
      if addr_high region <=? ip then Malformed
      else if zlen t.2 <? sym_offset region + sym_count region then OutOfBounds
      else
        let syms := take (Z.to_nat (sym_count region)) (drop (Z.to_nat (sym_offset region)) t.2) in
        search_symbols (addr_low region) ip syms
    end
  end.

(** [GetProcNameImpl]: the offset in the function; the name is empty. *)
Definition GetProcNameImpl (t : Tables) (ip : Z) : outcome Z :=
  func_start ← FindFunctionStart t ip; Ok (u64 (ip - func_start)).

(** ** The reference

    The functions of the library whose segment holds the address, as its file lists them;
    among those that start at or below the address the one with the greatest start, and the
    greatest end for equal starts. *)

(** A library that is not skipped: its segment and its functions. *)
Record Module := mkModule { seg_low : Z; seg_high : Z; functions : list (Z * Z) }.

Section modules.
Context (open : list Z -> option bytes) (proc_self_exe : list Z).

Definition module_of (info : dl_phdr_info) : option Module :=
  let '(foundExecSeg, segLow, segHigh) := exec_segment info in
  if negb foundExecSeg || (segLow =? segHigh) then None
  else
    match open (module_path proc_self_exe info) with
    | None => None
    | Some file =>
      match module_functions file (dlpi_addr info) with
      | Ok (f :: fs) => Some (mkModule segLow segHigh (f :: fs))
      | _ => None
      end
    end.

Definition modules (infos : list dl_phdr_info) : list Module := omap module_of infos.
End modules.

Definition holds (ip : Z) (m : Module) : bool := (seg_low m <=? ip) && (ip <? seg_high m).

Definition fits32 (low : Z) (f : Z * Z) : bool := bool_decide (is_Some (entry_of low f)).

Definition later (ip : Z) (best : option (Z * Z)) (f : Z * Z) : option (Z * Z) :=
  if f.1 <=? ip then
    match best with Some b => if decide (before b f) then Some f else best | None => Some f end
  else best.

Definition nearest (ip : Z) (l : list (Z * Z)) : option (Z * Z) := foldl (later ip) None l.

Definition find_function (ms : list Module) (ip : Z) : outcome Z :=
  match find (holds ip) ms with
  | None => Malformed
  | Some m =>
    match nearest ip (filter (fun f => fits32 (seg_low m) f = true) (functions m)) with
    | None => Malformed
    | Some f => if f.2 <=? ip then Malformed else Ok f.1
    end
  end.

(** ** Reads *)

Definition byte_file (file : bytes) : Prop := Forall (in_u 8) file.

Lemma le_range bs : Forall (in_u 8) bs -> 0 <= le bs.
Proof. induction 1 as [|b bs [Hb _] _ IH]; cbn [le]; lia. Qed.

Lemma split_fields_range ws bs : Forall (in_u 8) bs -> Forall (fun v => 0 <= v) (split_fields ws bs).
Proof.
  revert bs. induction ws as [|w ws IH]; intros bs Hb; cbn [split_fields]; constructor.
  - by apply le_range, Forall_take.
  - by apply IH, Forall_drop.
Qed.

Lemma split_fields_length ws bs : length (split_fields ws bs) = length ws.
Proof. revert bs. induction ws as [|w ws IH]; intros bs; cbn; [done|]. by rewrite IH. Qed.

(** An object that is read inside of the file has fields that are not negative. *)
Lemma read_at_ok T `{Pod T} file off : byte_file file -> 0 <= off -> off + Z.of_nat (sizeof T) <= zlen file ->
  exists vs, read_at T file off = Ok (of_fields vs) /\ length vs = length (layout T) /\ Forall (fun v => 0 <= v) vs.
Proof.
  intros Hf Ho Hl. unfold read_at, EventPayloads.load. rewrite (proj2 (Z.leb_le _ _)), (proj2 (Z.leb_le _ _)) by lia.
  cbn [andb]. eexists. split; [done|]. split; [apply split_fields_length|]. by apply split_fields_range, Forall_take, Forall_drop.
Qed.

Lemma read_array_ok T `{Pod T} file base n : forall i, byte_file file -> 0 <= base ->
  base + Z.of_nat ((i + n) * sizeof T) <= zlen file ->
  exists l, read_array T file base i n = Ok l /\
    Forall (fun x => exists vs, x = of_fields vs /\ length vs = length (layout T) /\ Forall (fun v => 0 <= v) vs) l.
Proof.
  induction n as [|n IH]; intros i Hf Hb Hl; cbn [read_array]; [by exists []|].
  destruct (read_at_ok T file (base + Z.of_nat (i * sizeof T))) as (vs & -> & Hvs); [done|lia|nia|].
  destruct (IH (S i)) as (l & El & Hl'); [done..|nia|].
  exists (of_fields vs :: l). split; [|constructor; [by exists vs|done]]. cbn. by rewrite El.
Qed.

Lemma range_valid off sz (file : bytes) : 0 <= off -> 0 <= sz -> IsFileRangeValid off sz (zlen file) = true -> off + sz <= zlen file.
Proof.
  intros Ho Hs [H1 H2]%andb_true_iff. bool_facts. pose proof (wrap_le 64 (zlen file - off)). lia.
Qed.

Lemma Shdr_fields vs : length vs = length (layout Shdr) -> Forall (fun v => 0 <= v) vs ->
  0 <= sh_offset (of_fields vs) /\ 0 <= sh_size (of_fields vs).
Proof.
  intros Hl Hv. do 10 (destruct vs as [|? vs]; [done|]). destruct vs; [|done].
  rewrite !Forall_cons in Hv. cbn. tauto.
Qed.

Lemma section_functions_ok file lo sh : byte_file file -> 0 <= sh_offset sh -> 0 <= sh_size sh ->
  exists l, section_functions file lo sh = Ok l.
Proof.
  intros Hf Ho Hs. unfold section_functions. repeat case_if; [by eexists..|].
  apply negb_false_iff, range_valid in Heqb1; [|done..]. set (n := sh_size sh / Z.of_nat (sizeof Sym)).
  assert (0 <= n /\ n * 24 <= sh_size sh) as [Hn Hn'].
  { unfold n. change (Z.of_nat (sizeof Sym)) with 24. pose proof (Z.div_pos (sh_size sh) 24). pose proof (Z.mul_div_le (sh_size sh) 24). lia. }
  destruct (read_array_ok Sym file (sh_offset sh) (Z.to_nat n) 0) as (l & -> & _); [done..| |by eexists].
  change (sizeof Sym) with 24%nat. lia.
Qed.

Lemma sections_functions_ok file lo shdrs : byte_file file ->
  Forall (fun sh => 0 <= sh_offset sh /\ 0 <= sh_size sh) shdrs -> exists l, sections_functions file lo shdrs = Ok l.
Proof.
  intros Hf. induction 1 as [|sh shdrs [Ho Hs] _ (l' & IH)]; cbn [sections_functions]; [by eexists|].
  destruct (section_functions_ok file lo sh Hf Ho Hs) as [l ->]. cbn. rewrite IH. by eexists.
Qed.

(** No read of a file, whatever its bytes, leaves it. *)
Lemma module_functions_safe file lo : byte_file file -> module_functions file lo <> OutOfBounds.
Proof.
  intros Hf. unfold module_functions. case_if; [done|]. bool_facts.
  destruct (read_at_ok Ehdr file 0 Hf) as (vs & -> & Hl & Hv); [lia|lia|]. cbn [mbind outcome_bind].
  set (eh := of_fields vs : Ehdr). case_if; [done|]. case_if; [done|]. bool_facts.
  assert (0 <= e_shoff eh /\ 0 <= e_shnum eh) as [Ho Hn].
  { unfold eh. do 16 (destruct vs as [|? vs]; [done|]). destruct vs; [|done]. rewrite !Forall_cons in Hv. cbn. tauto. }
  match goal with H : IsFileRangeValid _ _ _ = true |- _ => apply range_valid in H end; [|done|lia].
  change (Z.of_nat (sizeof Shdr)) with 64 in *.
  destruct (read_array_ok Shdr file (e_shoff eh) (Z.to_nat (e_shnum eh)) 0) as (l & -> & Hsh); [done..| |].
  { change (sizeof Shdr) with 64%nat. lia. }
  cbn [mbind outcome_bind]. destruct (sections_functions_ok file lo l Hf) as [r ->]; [|done].
  eapply Forall_impl; [exact Hsh|]. intros sh (ws & -> & Hw & Hp). by apply Shdr_fields.
Qed.

(** ** What is built *)

Definition entries (m : Module) : list FuncEntry :=
  omap (entry_of (seg_low m)) (unique (merge_sort before (functions m))).

Definition push_module (out : Tables) (m : Module) : Tables :=
  (out.1 ++ [mkRegion (seg_low m) (seg_high m) (u32 (zlen out.2)) (u32 (zlen (entries m)))], out.2 ++ entries m).

Section built.
Context (open : list Z -> option bytes) (proc_self_exe : list Z).
Hypothesis Hbytes : forall name file, open name = Some file -> byte_file file.

Lemma add_module_push info out :
  add_module open proc_self_exe info out =
  Ok (match module_of open proc_self_exe info with Some m => push_module out m | None => out end).
Proof.
  unfold add_module, module_of. destruct (exec_segment info) as [[found low] high]. case_if; [done|].
  destruct (open _) as [file|] eqn:Eo; [|done]. pose proof (module_functions_safe file (dlpi_addr info) (Hbytes _ _ Eo)).
  by destruct (module_functions file (dlpi_addr info)) as [[|f fs]| |].
Qed.

Lemma add_modules_push infos : forall out,
  add_modules open proc_self_exe infos out = Ok (foldl push_module out (modules open proc_self_exe infos)).
Proof.
  unfold modules. induction infos as [|info infos IH]; intros out; cbn [add_modules]; [done|].
  rewrite add_module_push. cbn [mbind outcome_bind]. rewrite IH. cbn [omap list_omap]. by destruct (module_of _ _ info).
Qed.
End built.

(** The symbols of a region. *)
Definition slice (syms : list FuncEntry) (r : ModuleRegion) : list FuncEntry :=
  take (Z.to_nat (sym_count r)) (drop (Z.to_nat (sym_offset r)) syms).

Definition region_for (syms : list FuncEntry) (r : ModuleRegion) (m : Module) : Prop :=
  addr_low r = seg_low m /\ addr_high r = seg_high m /\ 0 <= sym_offset r /\ 0 <= sym_count r /\
  sym_offset r + sym_count r <= zlen syms /\ slice syms r = entries m.

Lemma region_for_app syms syms' r m : region_for syms r m -> region_for (syms ++ syms') r m.
Proof.
  intros (Hl & Hh & Ho & Hc & Hb & Hs). split_and!; try done.
  - rewrite length_app. lia.
  - rewrite <- Hs. unfold slice. rewrite drop_app_le by lia. rewrite take_app_le; [done|]. rewrite length_drop. lia.
Qed.

Lemma push_modules ms : forall out done, Forall2 (region_for out.2) out.1 done ->
  zlen (foldl push_module out ms).2 < 2 ^ 32 ->
  Forall2 (region_for (foldl push_module out ms).2) (foldl push_module out ms).1 (done ++ ms).
Proof.
  induction ms as [|m ms IH]; intros out dn Hout Hlen; cbn [foldl] in *; [by rewrite app_nil_r|].
  assert (forall ms out, zlen out.2 <= zlen (foldl push_module out ms).2) as Hmono.
  { clear. induction ms as [|m ms IH]; intros out; cbn [foldl]; [lia|]. specialize (IH (push_module out m)).
    cbn [push_module snd] in IH. rewrite length_app in IH. lia. }
  replace (dn ++ m :: ms) with ((dn ++ [m]) ++ ms) by (by rewrite <- app_assoc).
  apply IH; [|done]. specialize (Hmono ms (push_module out m)). cbn [push_module fst snd] in *.
  rewrite length_app in Hmono. apply Forall2_app.
  - eapply Forall2_impl; [exact Hout|]. intros r m' Hr. by apply region_for_app.
  - constructor; [|constructor]. unfold region_for, slice. cbn [addr_low addr_high sym_offset sym_count].
    rewrite !wrap_small by (unfold in_u; lia). rewrite length_app.
    split_and!; [done|done|lia|lia|lia|]. rewrite !Nat2Z.id, drop_app_length. by rewrite take_ge.
Qed.

(** *** Regions *)

Definition disjoint_segments (ms : list Module) : Prop :=
  forall i j a b, i <> j -> ms !! i = Some a -> ms !! j = Some b -> seg_high a <= seg_low b \/ seg_high b <= seg_low a.

#[export] Instance below_total : Total below.
Proof. intros a b. unfold below. lia. Qed.

#[export] Instance below_trans : Transitive below.
Proof. intros a b c. unfold below. lia. Qed.

(** The last region that starts at or below the address. *)
Lemma last_below (l : list ModuleRegion) ip : StronglySorted below l ->
  match bound (fun r => addr_low r <=? ip) l with
  | O => forall r, r ∈ l -> ip < addr_low r
  | S i => exists r, l !! i = Some r /\ addr_low r <= ip /\ forall r', r' ∈ l -> addr_low r' <= ip -> addr_low r' <= addr_low r
  end.
Proof.
  induction 1 as [|r l Hs IH Hr]; cbn [bound]; [intros r; set_solver|]. rewrite Forall_forall in Hr.
  destruct (Z.leb_spec (addr_low r) ip) as [Hle|Hgt].
  - destruct (bound _ l) as [|i].
    + exists r. split_and!; [done|done|]. intros r' [->|Hr']%elem_of_cons Hle'; [lia|]. specialize (IH _ Hr'). lia.
    + destruct IH as (r0 & Hi & Hle0 & Hmax). exists r0. split_and!; [done|done|].
      intros r' [->|Hr']%elem_of_cons Hle'; [|by apply Hmax]. apply (Hr r0). by eapply list_elem_of_lookup_2.
  - intros r' [->|Hr']%elem_of_cons; [done|]. specialize (Hr _ Hr'). unfold below in Hr. lia.
Qed.

(** *** Functions *)

#[export] Instance before_total : Total before.
Proof. intros a b. unfold before. lia. Qed.

#[export] Instance before_trans : Transitive before.
Proof. intros a b c. unfold before. lia. Qed.

Lemma before_antisym a b : before a b -> before b a -> a = b.
Proof. destruct a, b. unfold before. cbn. intros. f_equal; lia. Qed.

(** The greatest function at or below the address, in the order [before]. *)
Definition is_nearest (ip : Z) (l : list (Z * Z)) (o : option (Z * Z)) : Prop :=
  match o with
  | Some f => f ∈ l /\ f.1 <= ip /\ forall g, g ∈ l -> g.1 <= ip -> before g f
  | None => forall g, g ∈ l -> ip < g.1
  end.

Lemma is_nearest_unique ip l l' o o' : (forall f, f ∈ l <-> f ∈ l') -> is_nearest ip l o -> is_nearest ip l' o' -> o = o'.
Proof.
  intros He Ho Ho'. destruct o as [f|], o' as [g|]; cbn in Ho, Ho'.
  - destruct Ho as (Hf & Hfi & Hm), Ho' as (Hg & Hgi & Hm'). f_equal.
    apply before_antisym; [apply Hm'|apply Hm]; naive_solver.
  - destruct Ho as (Hf & Hfi & _). apply He in Hf. specialize (Ho' _ Hf). lia.
  - destruct Ho' as (Hf & Hfi & _). apply He in Hf. specialize (Ho _ Hf). lia.
  - done.
Qed.

Lemma nearest_spec ip l : is_nearest ip l (nearest ip l).
Proof.
  unfold nearest. induction l as [|f l IH] using rev_ind; [intros g; set_solver|]. rewrite foldl_app. cbn [foldl]. unfold later at 1.
  destruct (foldl (later ip) None l) as [b|]; cbn in IH; destruct (Z.leb_spec f.1 ip).
  - destruct IH as (Hb & Hbi & Hm). destruct (decide (before b f)) as [Hbf|Hbf].
    + split_and!; [set_solver|done|]. intros g [Hg| ->%list_elem_of_singleton]%elem_of_app Hgi; [|unfold before; lia].
      etransitivity; [by apply Hm|done].
    + split_and!; [set_solver|done|]. intros g [Hg| ->%list_elem_of_singleton]%elem_of_app Hgi; [by apply Hm|].
      destruct (total before b f); [done|done].
  - destruct IH as (Hb & Hbi & Hm). split_and!; [set_solver|done|].
    intros g [Hg| ->%list_elem_of_singleton]%elem_of_app Hgi; [by apply Hm|lia].
  - split_and!; [set_solver|done|]. intros g [Hg| ->%list_elem_of_singleton]%elem_of_app Hgi; [|unfold before; lia].
    specialize (IH _ Hg). lia.
  - intros g [Hg| ->%list_elem_of_singleton]%elem_of_app; [by apply IH|done].
Qed.

(** The last of a sorted list. *)
Lemma bound_nearest ip (l : list (Z * Z)) : StronglySorted before l ->
  is_nearest ip l (match bound (fun f => f.1 <=? ip) l with O => None | S j => l !! j end).
Proof.
  induction 1 as [|f l Hs IH Hf]; cbn [bound]; [intros g; set_solver|]. rewrite Forall_forall in Hf.
  destruct (Z.leb_spec f.1 ip) as [Hle|Hgt].
  - destruct (bound _ l) as [|j] eqn:Eb.
    + split_and!; [set_solver|done|]. intros g [->|Hg]%elem_of_cons Hgi; [unfold before; lia|]. specialize (IH _ Hg). lia.
    + cbn [lookup list_lookup]. destruct (l !! j) as [b|] eqn:Ej.
      * destruct IH as (Hb & Hbi & Hm). split_and!; [set_solver|done|].
        intros g [->|Hg]%elem_of_cons Hgi; [|by apply Hm]. apply Hf. by eapply list_elem_of_lookup_2.
      * exfalso. apply lookup_ge_None in Ej. destruct (bound_split (fun f : Z * Z => f.1 <=? ip) l) as (l1 & l2 & -> & Hb & _).
        rewrite Eb in Hb. rewrite length_app in Ej. lia.
  - intros g [->|Hg]%elem_of_cons; [done|]. specialize (Hf _ Hg). unfold before in Hf. lia.
Qed.

Lemma elem_of_unique f l : f ∈ unique l <-> f ∈ l.
Proof.
  induction l as [|a l IH]; [done|]. destruct l as [|b l]; [done|].
  change (unique (a :: b :: l)) with (if decide (a = b) then unique (b :: l) else a :: unique (b :: l)).
  destruct (decide (a = b)) as [->|Hne]; [rewrite IH; set_solver|]. rewrite !(elem_of_cons _ f a), IH. done.
Qed.

Lemma unique_sorted l : StronglySorted before l -> StronglySorted before (unique l).
Proof.
  induction 1 as [|a l Hs IH Ha]; [constructor|]. destruct l as [|b l]; [by constructor|].
  change (unique (a :: b :: l)) with (if decide (a = b) then unique (b :: l) else a :: unique (b :: l)).
  destruct (decide (a = b)); [done|]. constructor; [done|]. apply Forall_forall. intros g Hg%(proj1 (elem_of_unique _ _)).
  rewrite Forall_forall in Ha. by apply Ha.
Qed.

Lemma filter_sorted (P : Z * Z -> Prop) `{!forall x, Decision (P x)} l : StronglySorted before l -> StronglySorted before (filter P l).
Proof.
  induction 1 as [|a l Hs IH Ha]; [constructor|]. rewrite filter_cons. destruct (decide (P a)); [|done].
  constructor; [done|]. apply Forall_forall. intros g [_ Hg]%list_elem_of_filter. rewrite Forall_forall in Ha. by apply Ha.
Qed.

(** The function of an entry. *)
Definition of_entry (low : Z) (e : FuncEntry) : Z * Z := (low + offset e, low + offset e + size e).

Definition word (f : Z * Z) : Prop := in_u 64 f.1 /\ in_u 64 f.2.

Lemma entry_roundtrip low f e : 0 <= low -> low + 2 ^ 33 <= 2 ^ 64 -> word f -> entry_of low f = Some e ->
  of_entry low e = f /\ 0 <= offset e < 2 ^ 32 /\ 0 <= size e < 2 ^ 32.
Proof.
  intros Hl Hh [Hf1 Hf2]. unfold entry_of, of_entry, UINT32_MAX. destruct f as [s t]. cbn [fst snd] in *.
  case_if; [done|]. bool_facts. intros [= <-]. cbn [offset size]. unfold in_u in *.
  assert (in_u 64 (u64 (s - low))) as Ho by (by apply wrap_range). assert (in_u 64 (u64 (t - s))) as Hs by (by apply wrap_range).
  unfold in_u in Ho, Hs. rewrite !(wrap_small 32) by (unfold in_u; lia).
  assert (u64 (s - low) = s - low) as Eo.
  { unfold wrap in *. destruct (decide (low <= s)); [apply Z.mod_small; lia|].
    assert ((s - low) mod 2 ^ 64 = s - low + 2 ^ 64) by (symmetry; apply Z.mod_unique with (-1); lia). lia. }
  assert (u64 (t - s) = t - s) as Es.
  { unfold wrap in *. destruct (decide (s <= t)); [apply Z.mod_small; lia|].
    assert ((t - s) mod 2 ^ 64 = t - s + 2 ^ 64) by (symmetry; apply Z.mod_unique with (-1); lia). lia. }
  rewrite Eo, Es in *. split_and!; [f_equal; lia|lia..].
Qed.

Lemma sections_words file lo shdrs : forall l, sections_functions file lo shdrs = Ok l -> Forall word l.
Proof.
  induction shdrs as [|sh shdrs IH]; intros l; cbn [sections_functions]; [by intros [= <-]|].
  destruct (section_functions file lo sh) as [l1| |] eqn:E1; [|done..]. cbn [mbind outcome_bind].
  destruct (sections_functions file lo shdrs) as [l2| |]; [|done..]. intros [= <-]. apply Forall_app. split; [|by apply IH].
  revert E1. unfold section_functions. repeat case_if; [by intros [= <-]..|].
  destruct (read_array Sym file _ 0 _) as [syms| |]; [|done..]. intros [= <-].
  apply Forall_forall. intros f (s & _ & Hs)%list_elem_of_omap. revert Hs. unfold function_of.
  repeat case_if; [done..|]. intros [= <-]. split; by apply wrap_range.
Qed.

Lemma module_words file lo l : module_functions file lo = Ok l -> Forall word l.
Proof.
  unfold module_functions. case_if; [done|]. destruct (read_at Ehdr file 0) as [eh| |]; [|done..]. cbn [mbind outcome_bind].
  case_if; [done|]. case_if; [done|]. destruct (read_array Shdr file _ 0 _) as [shdrs| |]; [|done..]. apply sections_words.
Qed.

Lemma modules_words open exe infos m : m ∈ modules open exe infos -> Forall word (functions m).
Proof.
  intros (info & _ & Hm)%list_elem_of_omap. revert Hm. unfold module_of. destruct (exec_segment info) as [[? ?] ?].
  case_if; [done|]. destruct (open _) as [file|]; [|done].
  destruct (module_functions file _) as [[|f fs]| |] eqn:E; [done| |done..]. intros [= <-]. by apply module_words in E.
Qed.

Lemma bound_fmap {A B} (g : A -> B) p l : bound p (g <$> l) = bound (fun x => p (g x)) l.
Proof. induction l as [|x l IH]; cbn; [done|]. by rewrite IH. Qed.

Lemma bound_pointwise {A} (p q : A -> bool) l : Forall (fun x => p x = q x) l -> bound p l = bound q l.
Proof. induction 1 as [|x l Hx _ IH]; cbn; [done|]. by rewrite Hx, IH. Qed.

Lemma bound_le {A} (p : A -> bool) l : (bound p l <= length l)%nat.
Proof. induction l as [|x l IH]; cbn; [lia|]. destruct (p x); lia. Qed.

(** The entries of a module, read back. *)
Lemma entries_filter low U : 0 <= low -> low + 2 ^ 33 <= 2 ^ 64 -> Forall word U ->
  of_entry low <$> omap (entry_of low) U = filter (fun f => fits32 low f = true) U /\
  Forall (fun e => 0 <= offset e < 2 ^ 32 /\ 0 <= size e < 2 ^ 32) (omap (entry_of low) U).
Proof.
  intros Hl Hh. induction 1 as [|f U Hf _ [IH1 IH2]]; [done|]. cbn [omap list_omap]. rewrite filter_cons.
  destruct (entry_of low f) as [e|] eqn:E.
  - rewrite decide_True by (unfold fits32; rewrite E; done). pose proof (entry_roundtrip low f e Hl Hh Hf E) as (Ef & Ho & Hs).
    cbn [fmap list_fmap]. rewrite Ef. split; [by f_equal|by constructor].
  - rewrite decide_False; [done|]. unfold fits32. rewrite E. done.
Qed.

Lemma search_symbols_nearest m ip : 0 <= seg_low m -> seg_low m + 2 ^ 33 < 2 ^ 64 -> Forall word (functions m) ->
  search_symbols (seg_low m) ip (entries m) =
  match nearest ip (filter (fun f => fits32 (seg_low m) f = true) (functions m)) with
  | None => Malformed
  | Some f => if f.2 <=? ip then Malformed else Ok f.1
  end.
Proof.
  intros Hl Hh Hw. set (low := seg_low m) in *. set (U := unique (merge_sort before (functions m))).
  assert (StronglySorted before U) as HU by (apply unique_sorted, StronglySorted_merge_sort; apply _).
  assert (forall f, f ∈ U <-> f ∈ functions m) as Hin by (intros f; unfold U; by rewrite elem_of_unique, merge_sort_Permutation).
  assert (Forall word U) as HwU by (rewrite Forall_forall in *; intros f Hf; apply Hw; by apply Hin).
  destruct (entries_filter low U Hl ltac:(lia) HwU) as [HK Hsmall].
  set (K := filter (fun f => fits32 low f = true) U) in *. change (entries m) with (omap (entry_of low) U).
  pose proof (bound_nearest ip K (filter_sorted _ U HU)) as Hn.
  rewrite (is_nearest_unique ip (filter (fun f => fits32 low f = true) (functions m)) K _ _) with (3 := Hn);
    [|intros f; unfold K; rewrite !list_elem_of_filter; naive_solver|apply nearest_spec].
  rewrite <- HK, bound_fmap. unfold search_symbols. rewrite Forall_forall in Hsmall.
  rewrite (bound_pointwise (fun e => u64 (low + offset e) <=? ip) (fun e => (of_entry low e).1 <=? ip)).
  2:{ apply Forall_forall. intros e He. specialize (Hsmall e He). cbn. rewrite wrap_small; [done|unfold in_u; lia]. }
  pose proof (bound_le (fun e => (of_entry low e).1 <=? ip) (omap (entry_of low) U)) as Hle.
  destruct (bound _ (omap (entry_of low) U)) as [|j]; [done|]. rewrite list_lookup_fmap.
  destruct (omap (entry_of low) U !! j) as [e|] eqn:Ej; [|apply lookup_ge_None in Ej; lia].
  pose proof (Hsmall e (list_elem_of_lookup_2 _ _ _ Ej)) as [Ho Hs]. cbn [fmap option_fmap option_map of_entry fst snd].
  rewrite (wrap_small 64 (low + offset e)), (wrap_small 64 (low + offset e + size e)) by (unfold in_u; lia). done.
Qed.

(** *** The library of an address *)

Lemma find_holds ip ms m i : disjoint_segments ms -> ms !! i = Some m -> holds ip m = true -> find (holds ip) ms = Some m.
Proof.
  intros Hd Hi Hm. destruct (find (holds ip) ms) as [m'|] eqn:E.
  - apply find_some in E as [Hin Hm']. apply list_elem_of_In, list_elem_of_lookup_1 in Hin as [j Hj].
    destruct (decide (i = j)) as [->|Hne]; [congruence|]. destruct (Hd _ _ _ _ Hne Hi Hj); unfold holds in *; bool_facts; lia.
  - rewrite (find_none _ _ E m) in Hm; [done|]. apply list_elem_of_In. by eapply list_elem_of_lookup_2.
Qed.

Lemma find_holds_None ip ms : (forall i m, ms !! i = Some m -> holds ip m = false) -> find (holds ip) ms = None.
Proof.
  intros Hn. destruct (find (holds ip) ms) as [m|] eqn:E; [|done]. apply find_some in E as [Hin Hm].
  apply list_elem_of_In, list_elem_of_lookup_1 in Hin as [i Hi]. rewrite (Hn _ _ Hi) in Hm. done.
Qed.

Lemma find_region regions syms ms ip : Forall2 (region_for syms) regions ms -> disjoint_segments ms ->
  (forall i m, ms !! i = Some m -> seg_low m < seg_high m) ->
  match find (holds ip) ms with
  | Some m => exists r, region_for syms r m /\
      FindFunctionStart (merge_sort below regions, syms) ip = search_symbols (seg_low m) ip (entries m)
  | None => FindFunctionStart (merge_sort below regions, syms) ip = Malformed
  end.
Proof.
  intros Hf Hd Hne. unfold FindFunctionStart. cbn [fst snd].
  assert (StronglySorted below (merge_sort below regions)) as Hs by (apply StronglySorted_merge_sort; apply _).
  assert (forall r, r ∈ merge_sort below regions <-> r ∈ regions) as Hin by (intros r; by rewrite merge_sort_Permutation).
  pose proof (last_below _ ip Hs) as Hl. destruct (bound _ (merge_sort below regions)) as [|i].
  - rewrite find_holds_None; [done|]. intros k m Hk. destruct (Forall2_lookup_r _ _ _ _ _ Hf Hk) as (r & Hr & Er & _).
    specialize (Hl r ltac:(apply Hin; by eapply list_elem_of_lookup_2)). unfold holds. apply andb_false_iff. left. apply Z.leb_gt. lia.
  - destruct Hl as (r & Hi & Hle & Hmax). rewrite Hi.
    assert (r ∈ regions) as [k Hk]%list_elem_of_lookup_1 by (apply Hin; by eapply list_elem_of_lookup_2).
    destruct (Forall2_lookup_l _ _ _ _ _ Hf Hk) as (m & Hm & Hrm). pose proof Hrm as (El & Eh & Ho & Hc & Hb & Esl).
    specialize (Hne _ _ Hm) as Hmne. destruct (Z.leb_spec (addr_high r) ip) as [Hhi|Hlo].
    + rewrite find_holds_None; [done|]. intros k' m' Hk'. destruct (Forall2_lookup_r _ _ _ _ _ Hf Hk') as (r' & Hr' & Er' & _).
      destruct (holds ip m') eqn:Hh; [|done]. unfold holds in Hh. bool_facts.
      specialize (Hmax r' ltac:(apply Hin; by eapply list_elem_of_lookup_2) ltac:(lia)).
      destruct (decide (k' = k)) as [->|Hkk]; [assert (m' = m) as -> by congruence; lia|].
      destruct (Hd _ _ _ _ Hkk Hk' Hm); lia.
    + rewrite (find_holds ip ms m k Hd Hm); [|unfold holds; apply andb_true_iff; split; [apply Z.leb_le|apply Z.ltb_lt]; lia].
      exists r. split; [done|]. rewrite (proj2 (Z.ltb_ge _ _)) by lia. fold (slice syms r). by rewrite El, Esl.
Qed.

(** C12: Whatever the bytes of the files that the loader names, the tables of functions are
    built without a read outside of a file; and as long as the executable segments of the
    libraries do not overlap and lie below the end of the address space, the two binary
    searches over the compressed, sorted tables answer for every address as the search of
    the functions that the files list: the one that starts nearest below it in the library
    that holds it, if it reaches the address. *)
Theorem function_starts_found open exe infos :
  (forall name file, open name = Some file -> byte_file file) ->
  exists t, BuildSymbolCache open exe infos = Ok t /\
    (zlen t.2 < 2 ^ 32 -> disjoint_segments (modules open exe infos) ->
     (forall i m, modules open exe infos !! i = Some m -> 0 <= seg_low m < seg_high m /\ seg_low m + 2 ^ 33 < 2 ^ 64) ->
     forall ip, FindFunctionStart t ip = find_function (modules open exe infos) ip).
Proof.
  intros Hb. unfold BuildSymbolCache. rewrite add_modules_push by done. cbn [mbind outcome_bind].
  set (ms := modules open exe infos). set (out := foldl push_module ([], []) ms). eexists. split; [done|]. cbn [snd].
  intros Hlen Hd Hseg ip. pose proof (push_modules ms ([], []) [] (Forall2_nil_2 _ _ _) Hlen) as Hf. fold out in Hf.
  pose proof (find_region _ _ _ ip Hf Hd (fun i m H => proj2 (proj1 (Hseg i m H)))) as Hfind. unfold find_function.
  cbn [app] in Hfind. destruct (find (holds ip) ms) as [m|] eqn:E; [|exact Hfind]. destruct Hfind as (r & _ & ->).
  apply find_some in E as [Hm _]. apply list_elem_of_In in Hm. pose proof (list_elem_of_lookup_1 _ _ Hm) as [i Hi].
  destruct (Hseg _ _ Hi) as [Hl Hh]. apply search_symbols_nearest; [lia|lia|]. by eapply modules_words.
Qed.

(** A library with two functions and a variable, which other code precedes in its file. *)
Module Example_library.
Definition syms : list Sym :=
  [mkSym 0 0 0 0; mkSym 18 7 0x1100 0x40; mkSym 17 9 0x3000 8; mkSym 18 7 0x1000 0x80; mkSym 18 0 0x1200 16].

Definition file : bytes :=
  to_bytes (mkEhdr ELFMAG 64 64 2) ++ to_bytes (mkShdr 1 0 0 0) ++ to_bytes (mkShdr SHT_SYMTAB 192 120 24) ++ concat (to_bytes <$> syms).

Definition info : dl_phdr_info := mkInfo 0x7f0000000000 None [mkPhdr 1 4 0 0x800; mkPhdr 1 5 0x1000 0x300] 1 None.

Definition open_file (name : list Z) : option bytes := match name with [] => Some file | _ => None end.

Definition tables : Tables :=
  ([mkRegion 0x7f0000001000 0x7f0000001300 0 2], [mkFunc 0 0x80; mkFunc 0x100 0x40]).
End Example_library.

Lemma function_starts_found_witness :
  BuildSymbolCache Example_library.open_file [] [Example_library.info] = Ok Example_library.tables /\
  FindFunctionStart Example_library.tables 0x7f0000001110 = find_function (modules Example_library.open_file [] [Example_library.info]) 0x7f0000001110 /\
  FindFunctionStart Example_library.tables 0x7f0000001110 = Ok 0x7f0000001100.
Proof.
  destruct (function_starts_found Example_library.open_file [] [Example_library.info]) as (t & E & H).
  { intros [|c name] f [= <-]. apply Forall_forall. intros b Hb.
    assert (forallb (fun b => (0 <=? b) && (b <? 256)) Example_library.file = true) as Hall by (vm_compute; reflexivity).
    rewrite forallb_forall in Hall. apply list_elem_of_In in Hb. specialize (Hall b Hb). unfold in_u. bool_facts. lia. }
  assert (t = Example_library.tables) as -> by (vm_compute in E; by injection E as <-).
  split; [done|]. rewrite <- H; [split; vm_compute; reflexivity|vm_compute; reflexivity| |].
  - intros [|i] [|j] a b Hij Ha Hb'; [done|vm_compute in Hb'; done|vm_compute in Ha; done|vm_compute in Ha; done].
  - intros [|i] m Hm; vm_compute in Hm; [|done]. injection Hm as <-. cbn. lia.
Defined.

(** A function inside of another hides the rest of it. *)
Example nested_function :
  find_function [mkModule 0x1000 0x2000 [(0x1000, 0x1100); (0x1010, 0x1020)]] 0x1050 = Malformed.
Proof. reflexivity. Qed.
