(* ===== verification/LibrariesService.v ===== *)
(** * The service that caches the loaded libraries

    Model of the life of [LibrariesInfoCache.cpp]: the worker thread that copies the list of
    the loader when it is notified, the service thread in [StartImpl] and [StopImpl], and the
    signal handlers in which libunwind iterates over the copy ([DlIteratePhdr]).

    The threads are interleaved at the operations they share: the events, the flag, the lock,
    the pointer [s_instance], the function registered with libunwind and the vectors.
    [Broken] is a handler whose vector changes while it iterates over it.  A library is a
    value of a type [L]. *)
From stdpp Require Import base list.
From S2P Require Import Prelude.

Section service.
Context {L : Type}.

(** ** States *)

Inductive WorkerPoint :=
| NoWorker
| Looping                        (* before the test of [_stopRequested] *)
| Waiting                        (* in [_event.Wait] *)
| Woken                          (* before the second test *)
| Building                       (* before [dl_iterate_phdr] *)
| WantLock                       (* before the unique lock *)
| Swapping                       (* with the lock *)
| Unlocking
| Clearing                       (* [_newCache.clear()] *)
| Signalling                     (* [startEvent->Set()] *)
| Ended.

Inductive ServicePoint :=
| Fresh
| Starting                       (* in [startEvent->Wait] *)
| Publishing                     (* before [s_instance.store(this)] *)
| Registering                    (* before [unw_set_iterate_phdr_function] *)
| TimedOut                       (* before [_stopRequested = true] of a failed start *)
| TimedOutSet                    (* before [_event.Set()] *)
| TimedOutJoin
| Running
| Retracting                     (* [StopImpl], before [s_instance.store(nullptr)] *)
| Unregistering
| Requesting                     (* before [_stopRequested = true] *)
| Notifying                      (* before [_event.Set()] *)
| Joining
| Discarding                     (* before [_librariesInfo.clear()] *)
| Stopped (ok : bool).

Inductive HandlerPoint :=
| Outside
| Loading                        (* before the load of [s_instance] *)
| WantShared                     (* before the shared lock *)
| Iterating (v : list L) (ver k : nat) (* over this version, [k] libraries were shown *)
| Unlocked (v : list L) (k : nat).   (* has returned *)

Record State := mkState {
  s_instance : bool;
  registered : bool;
  librariesInfo : list L;
  version : nat;                 (* how often this vector was replaced *)
  newCache : list L;
  writer : bool;
  stopRequested : bool;
  event : bool;
  startEvent : bool;
  first : bool;                  (* [startEvent != nullptr] in the worker *)
  worker : WorkerPoint;
  service : ServicePoint;
  handlers : list HandlerPoint;
  snapshots : list (list L)      (* what the loader has answered so far *)
}.

Definition initial (n : nat) : State :=
  mkState false false [] 0 [] false false true false true NoWorker Fresh (replicate n Outside) [].

(** The environment: what is loaded now, a timeout, a handler that stops early. *)
Inductive Action :=
| Worker (loaded : list L)
| Timeout                        (* of [_event.Wait], without the wrapper library *)
| Service
| StartTimeout                   (* of [startEvent->Wait] *)
| Stop                           (* [StopImpl] is called *)
| NotifyCacheUpdate
| Handler (h : nat) (rc : bool). (* [rc]: the callback returned other than zero *)

Inductive outcome := Next (s : State) | Blocked | Broken.

Definition set_worker (w : WorkerPoint) (s : State) : State :=
  mkState (s_instance s) (registered s) (librariesInfo s) (version s) (newCache s) (writer s) (stopRequested s) (event s) (startEvent s)
    (first s) w (service s) (handlers s) (snapshots s).

Definition set_service (p : ServicePoint) (s : State) : State :=
  mkState (s_instance s) (registered s) (librariesInfo s) (version s) (newCache s) (writer s) (stopRequested s) (event s) (startEvent s)
    (first s) (worker s) p (handlers s) (snapshots s).

Definition set_handlers (l : list HandlerPoint) (s : State) : State :=
  mkState (s_instance s) (registered s) (librariesInfo s) (version s) (newCache s) (writer s) (stopRequested s) (event s) (startEvent s)
    (first s) (worker s) (service s) l (snapshots s).

Definition set_event (b : bool) (s : State) : State :=
  mkState (s_instance s) (registered s) (librariesInfo s) (version s) (newCache s) (writer s) (stopRequested s) b (startEvent s)
    (first s) (worker s) (service s) (handlers s) (snapshots s).

Definition set_writer (b : bool) (s : State) : State :=
  mkState (s_instance s) (registered s) (librariesInfo s) (version s) (newCache s) b (stopRequested s) (event s) (startEvent s)
    (first s) (worker s) (service s) (handlers s) (snapshots s).

Definition replace_cache (c n : list L) (s : State) : State :=
  mkState (s_instance s) (registered s) c (S (version s)) n (writer s) (stopRequested s) (event s) (startEvent s)
    (first s) (worker s) (service s) (handlers s) (snapshots s).

Definition clear_new (s : State) : State :=
  mkState (s_instance s) (registered s) (librariesInfo s) (version s) [] (writer s) (stopRequested s) (event s) (startEvent s)
    (first s) (worker s) (service s) (handlers s) (snapshots s).

Definition set_stop (b : bool) (s : State) : State :=
  mkState (s_instance s) (registered s) (librariesInfo s) (version s) (newCache s) (writer s) b (event s) (startEvent s)
    (first s) (worker s) (service s) (handlers s) (snapshots s).

Definition set_start (e f : bool) (s : State) : State :=
  mkState (s_instance s) (registered s) (librariesInfo s) (version s) (newCache s) (writer s) (stopRequested s) (event s) e
    f (worker s) (service s) (handlers s) (snapshots s).

Definition set_hooks (i r : bool) (s : State) : State :=
  mkState i r (librariesInfo s) (version s) (newCache s) (writer s) (stopRequested s) (event s) (startEvent s)
    (first s) (worker s) (service s) (handlers s) (snapshots s).

Definition add_snapshot (l : list L) (s : State) : State :=
  mkState (s_instance s) (registered s) (librariesInfo s) (version s) l (writer s) (stopRequested s) (event s) (startEvent s)
    (first s) (worker s) (service s) (handlers s) (snapshots s ++ [l]).

(** The handlers with the shared lock. *)
Definition reads (h : HandlerPoint) : bool := match h with Iterating _ _ _ => true | _ => false end.

(** ** Work and UpdateCache *)

Definition worker_step (loaded : list L) (s : State) : outcome :=
  match worker s with
  | NoWorker | Ended => Blocked
  | Looping => Next (set_worker (if stopRequested s then Ended else Waiting) s)
  | Waiting => if event s then Next (set_worker Woken (set_event false s)) else Blocked
  | Woken => Next (set_worker (if stopRequested s then Ended else Building) s)
  | Building => Next (set_worker WantLock (add_snapshot loaded s))
  | WantLock =>
      if existsb reads (handlers s) then Blocked else Next (set_worker Swapping (set_writer true s))
  | Swapping => Next (set_worker Unlocking (replace_cache (newCache s) (librariesInfo s) s))
  | Unlocking => Next (set_worker Clearing (set_writer false s))
  | Clearing => Next (set_worker Signalling (clear_new s))
  | Signalling => Next (set_worker Looping (set_start (startEvent s || first s) false s))
  end.

(** ** StartImpl and StopImpl *)

Definition service_step (s : State) : outcome :=
  match service s with
  | Fresh => Next (set_service Starting (set_worker Looping s))
  | Starting => if startEvent s then Next (set_service Publishing (set_start false (first s) s)) else Blocked
  | Publishing => Next (set_service Registering (set_hooks true (registered s) s))
  | Registering => Next (set_service Running (set_hooks (s_instance s) true s))
  | TimedOut => Next (set_service TimedOutSet (set_stop true s))
  | TimedOutSet => Next (set_service TimedOutJoin (set_event true s))
  | TimedOutJoin => match worker s with Ended => Next (set_service (Stopped false) s) | _ => Blocked end
  | Running => Blocked
  | Retracting => Next (set_service Unregistering (set_hooks false (registered s) s))
  | Unregistering => Next (set_service Requesting (set_hooks (s_instance s) false s))
  | Requesting => Next (set_service Notifying (set_stop true s))
  | Notifying => Next (set_service Joining (set_event true s))
  | Joining => match worker s with Ended => Next (set_service Discarding s) | _ => Blocked end
  | Discarding => Next (set_service (Stopped true) (replace_cache [] (newCache s) s))
  | Stopped _ => Blocked
  end.

(** ** DlIteratePhdr *)

Definition handler_step (h : nat) (rc : bool) (s : State) : outcome :=
  match handlers s !! h with
  | None => Blocked
  | Some Outside => if registered s then Next (set_handlers (<[h := Loading]> (handlers s)) s) else Blocked
  | Some Loading => Next (set_handlers (<[h := if s_instance s then WantShared else Outside]> (handlers s)) s)
  | Some WantShared =>
      if writer s then Blocked
      else Next (set_handlers (<[h := Iterating (librariesInfo s) (version s) 0]> (handlers s)) s)
  | Some (Iterating v ver k) =>
      if (ver =? version s)%nat then
        match v !! k with
        | None => Next (set_handlers (<[h := Unlocked v k]> (handlers s)) s)
        | Some _ =>
            Next (set_handlers (<[h := if rc then Unlocked v (S k) else Iterating v ver (S k)]> (handlers s)) s)
        end
      else Broken
  | Some (Unlocked _ _) => Next (set_handlers (<[h := Outside]> (handlers s)) s)
  end.

Definition act (a : Action) (s : State) : outcome :=
  match a with
  | Worker loaded => worker_step loaded s
  | Timeout => match worker s with Waiting => Next (set_worker Woken s) | _ => Blocked end
  | Service => service_step s
  | StartTimeout => match service s with Starting => Next (set_service TimedOut s) | _ => Blocked end
  | Stop => match service s with Running => Next (set_service Retracting s) | _ => Blocked end
  | NotifyCacheUpdate => if s_instance s then Next (set_event true s) else Blocked
  | Handler h rc => handler_step h rc s
  end.

Fixpoint run (l : list Action) (s : State) : outcome :=
  match l with
  | [] => Next s
  | a :: l => match act a s with Next s' => run l s' | Blocked => run l s | Broken => Broken end
  end.

(** ** The invariant *)

(** A handler that has found the instance. *)
Definition inside (h : HandlerPoint) : bool := match h with WantShared | Iterating _ _ _ => true | _ => false end.

(** The first copy has been published. *)
Definition published (s : State) : Prop :=
  first s = false \/ worker s = Unlocking \/ worker s = Clearing \/ worker s = Signalling.

Definition handler_ok (s : State) (h : HandlerPoint) : Prop :=
  match h with
  | Outside | Loading => True
  | WantShared => first s = false
  | Iterating v ver k => first s = false /\ v = librariesInfo s /\ ver = version s /\ (k <= length v)%nat /\ writer s = false
  | Unlocked v k => v ∈ snapshots s /\ (k <= length v)%nat
  end.

(** What the service thread relies on. *)
Definition service_ok (s : State) : Prop :=
  match service s with
  | Fresh => worker s = NoWorker /\ s_instance s = false
  | Starting | TimedOut => worker s <> NoWorker /\ s_instance s = false
  | TimedOutSet => worker s <> NoWorker /\ s_instance s = false /\ stopRequested s = true
  | Publishing | Unregistering | Requesting => worker s <> NoWorker /\ s_instance s = false /\ first s = false
  | Notifying => worker s <> NoWorker /\ s_instance s = false /\ first s = false /\ stopRequested s = true
  | Registering | Running | Retracting => worker s <> NoWorker /\ first s = false
  | TimedOutJoin => worker s <> NoWorker /\ s_instance s = false /\ stopRequested s = true /\ (worker s = Waiting -> event s = true)
  | Joining => worker s <> NoWorker /\ s_instance s = false /\ first s = false /\ stopRequested s = true /\ (worker s = Waiting -> event s = true)
  | Discarding => worker s = Ended /\ s_instance s = false /\ first s = false
  | Stopped _ => worker s = Ended /\ s_instance s = false
  end.

Definition worker_ok (s : State) : Prop :=
  match worker s with
  | WantLock => newCache s ∈ snapshots s /\ writer s = false
  | Swapping => newCache s ∈ snapshots s /\ writer s = true
  | Unlocking => writer s = true
  | Ended => writer s = false
  | _ => writer s = false
  end.

Record inv (s : State) : Prop := {
  inv_handlers : forall i h, handlers s !! i = Some h -> handler_ok s h;
  inv_worker : worker_ok s;
  inv_service : service_ok s;
  inv_started : startEvent s = true -> first s = false;
  inv_published : published s -> service s <> Stopped true -> librariesInfo s ∈ snapshots s;
  inv_stopped : service s = Stopped true -> forall i h, handlers s !! i = Some h -> inside h = false
}.

(** When [StopImpl] discards the vector, no handler has it. *)
Definition allowed (a : Action) (s : State) : Prop :=
  match a, service s with
  | Service, Discarding => forall i h, handlers s !! i = Some h -> inside h = false
  | _, _ => True
  end.

Fixpoint orderly (l : list Action) (s : State) : Prop :=
  match l with
  | [] => True
  | a :: l => allowed a s /\ match act a s with Next s' => orderly l s' | Blocked => orderly l s | Broken => True end
  end.

Definition safe (o : outcome) : Prop := match o with Next s => inv s | Blocked => True | Broken => False end.

Lemma no_readers l i v ver k : existsb reads l = false -> l !! i <> Some (Iterating v ver k).
Proof.
  intros He Hi. assert (existsb reads l = true) as H; [|congruence]. apply existsb_exists. exists (Iterating v ver k). split; [|done].
  apply list_elem_of_In. by eapply list_elem_of_lookup_2.
Qed.

(** The invariant of the state with other handlers, and of the handlers. *)
Ltac old_handlers H :=
  let i := fresh "i" in let h := fresh "h" in let Hi := fresh "Hi" in
  intros i h Hi; specialize (H i h Hi); destruct h; cbn in *; rewrite ?elem_of_app; intuition auto.

(** The parts of the invariant that a step of the worker or of the service touches. *)
Ltac facts s Ew :=
  unfold worker_ok, service_ok, published in *; cbn in *; rewrite ?Ew in *;
  try (destruct (stopRequested s) eqn:?); try (destruct (service s) eqn:?); cbn in *; rewrite ?elem_of_app; naive_solver.

Lemma worker_step_safe loaded s : inv s -> safe (worker_step loaded s).
Proof.
  intros [Hh Hw Hs Hst Hp Hd]. unfold worker_step.
  destruct (worker s) eqn:Ew; try done; cbn [safe].
  - split; [old_handlers Hh|facts s Ew..].
  - destruct (event s) eqn:Ee; [|done]. split; [old_handlers Hh|facts s Ew..].
  - split; [old_handlers Hh|facts s Ew..].
  - split; [old_handlers Hh| |facts s Ew..].
    split; cbn; [|unfold worker_ok in Hw; by rewrite Ew in Hw]. apply elem_of_app. right. by apply list_elem_of_singleton.
  - destruct (existsb reads (handlers s)) eqn:Er; [done|]. split; [|facts s Ew..].
    intros i h Hi. specialize (Hh i h Hi). destruct h; cbn in *; try done. by apply (no_readers _ i v ver k) in Er.
  - split; [|facts s Ew..]. intros i h Hi. specialize (Hh i h Hi). unfold worker_ok in Hw. rewrite Ew in Hw.
    destruct h; cbn in *; try done. naive_solver congruence.
  - split; [|facts s Ew..]. intros i h Hi. specialize (Hh i h Hi). destruct h; cbn in *; naive_solver.
  - split; [old_handlers Hh|facts s Ew..].
  - split; [old_handlers Hh|facts s Ew..].
Qed.

(** A step of the service thread that leaves the worker and the copy. *)
Ltac service_facts Hh Hw Hs Hst Hp Es :=
  split; [old_handlers Hh|exact Hw|unfold service_ok in *; rewrite ?Es in Hs; cbn; clear Hh Hw Hp; intuition (auto; congruence)
         |cbn; first [exact Hst|done]|intros H _; apply Hp; [exact H|congruence]|by intros].

Lemma service_step_safe s : inv s -> allowed Service s -> safe (service_step s).
Proof.
  intros [Hh Hw Hs Hst Hp Hd] Ha. unfold service_step. unfold allowed in Ha.
  destruct (service s) eqn:Es; try done; cbn [safe].
  - unfold service_ok in Hs. rewrite Es in Hs. destruct Hs as [Ew Hi]. unfold worker_ok, published in *. rewrite Ew in *.
    split; [old_handlers Hh|exact Hw|done|exact Hst| |done]. unfold published. cbn. naive_solver.
  - destruct (startEvent s) eqn:Ee; [|done]. service_facts Hh Hw Hs Hst Hp Es.
  - service_facts Hh Hw Hs Hst Hp Es.
  - service_facts Hh Hw Hs Hst Hp Es.
  - service_facts Hh Hw Hs Hst Hp Es.
  - service_facts Hh Hw Hs Hst Hp Es.
  - destruct (worker s) eqn:Ew; try done. service_facts Hh Hw Hs Hst Hp Es.
  - service_facts Hh Hw Hs Hst Hp Es.
  - service_facts Hh Hw Hs Hst Hp Es.
  - service_facts Hh Hw Hs Hst Hp Es.
  - service_facts Hh Hw Hs Hst Hp Es.
  - destruct (worker s) eqn:Ew; try done. service_facts Hh Hw Hs Hst Hp Es.
  - unfold service_ok in Hs. rewrite Es in Hs. destruct Hs as (Ew & Hi & Hf).
    split; [|exact Hw|done|exact Hst|done|intros _; exact Ha].
    intros i h Hi'. specialize (Hh i h Hi'). specialize (Ha i h Hi'). by destruct h.
Qed.

Lemma handlers_insert (P : HandlerPoint -> Prop) (l : list HandlerPoint) i h : (forall j g, l !! j = Some g -> P g) -> P h ->
  forall j g, <[i := h]> l !! j = Some g -> P g.
Proof. intros Hl Hh j g [(<- & <- & _)|[_ Hj]]%list_lookup_insert_Some; [done|by eapply Hl]. Qed.

Lemma with_handler s i h : inv s -> handler_ok s h -> (inside h = true -> service s <> Stopped true) ->
  inv (set_handlers (<[i := h]> (handlers s)) s).
Proof.
  intros [Hh Hw Hs Hst Hp Hd] Hok Hin. split; [|done..|].
  - apply (handlers_insert (handler_ok s)); [exact Hh|exact Hok].
  - intros Es. apply (handlers_insert (fun h => inside h = false)); [by apply Hd|].
    destruct (inside h) eqn:Ei; [|done]. by destruct (Hin eq_refl).
Qed.

Lemma instance_published s : service_ok s -> s_instance s = true -> first s = false /\ service s <> Stopped true.
Proof. unfold service_ok. destruct (service s); intuition congruence. Qed.

Lemma handler_step_safe i rc s : inv s -> safe (handler_step i rc s).
Proof.
  intros Hinv. pose proof Hinv as [Hh Hw Hs Hst Hp Hd]. unfold handler_step. destruct (handlers s !! i) as [h|] eqn:Hi; [|done].
  pose proof (Hh _ _ Hi) as Hok. assert (inside h = true -> service s <> Stopped true) as Hin.
  { intros Ei Es. rewrite (Hd Es _ _ Hi) in Ei. done. }
  destruct h as [| | |v ver k|v k]; cbn in Hok, Hin.
  - destruct (registered s); [|done]. by apply with_handler.
  - apply with_handler; [done| |]; destruct (s_instance s) eqn:E; cbn; try done; apply (instance_published s Hs) in E; naive_solver.
  - destruct (writer s) eqn:E; [done|]. apply with_handler; [done| |auto]. cbn. split_and!; [done..|lia|done].
  - destruct Hok as (Hf & -> & -> & Hk & Hwr). rewrite Nat.eqb_refl.
    assert (librariesInfo s ∈ snapshots s) as Hsn by (apply Hp; [by left|auto]).
    destruct (librariesInfo s !! k) as [x|] eqn:Ek; [|by apply with_handler].
    apply lookup_lt_Some in Ek. destruct rc; apply with_handler; try done; cbn; split_and!; done || lia.
  - by apply with_handler.
Qed.

Lemma act_safe a s : inv s -> allowed a s -> safe (act a s).
Proof.
  intros Hinv Ha. destruct a; cbn [act].
  - by apply worker_step_safe.
  - destruct (worker s) eqn:Ew; try done. destruct Hinv as [Hh Hw Hs Hst Hp Hd].
    split; [old_handlers Hh|facts s Ew..].
  - by apply service_step_safe.
  - destruct (service s) eqn:Es; try done. destruct Hinv as [Hh Hw Hs Hst Hp Hd].
    service_facts Hh Hw Hs Hst Hp Es.
  - destruct (service s) eqn:Es; try done. destruct Hinv as [Hh Hw Hs Hst Hp Hd].
    service_facts Hh Hw Hs Hst Hp Es.
  - destruct (s_instance s) eqn:Ei; [|done]. destruct Hinv as [Hh Hw Hs Hst Hp Hd].
    split; [old_handlers Hh|done| |done..]. unfold service_ok in *. cbn. destruct (service s); intuition congruence.
  - by apply handler_step_safe.
Qed.

Lemma service_initial_inv n : inv (initial n).
Proof.
  split; cbn; try done.
  - intros i h [-> _]%lookup_replicate_1. done.
  - intros [?|[?|[?|?]]]; done.
Qed.

Lemma service_run_safe l : forall s, inv s -> orderly l s -> safe (run l s).
Proof.
  induction l as [|a l IH]; intros s Hi Ho; [done|]. destruct Ho as [Ha Ho]. cbn [run].
  pose proof (act_safe a s Hi Ha) as Hs. destruct (act a s); cbn in Hs; auto.
Qed.

(** The steps that remain to a worker that has been asked to stop. *)
Definition rank (w : WorkerPoint) : nat :=
  match w with
  | NoWorker | Ended => 0
  | Looping | Woken => 1
  | Waiting | Signalling => 2
  | Clearing => 3
  | Unlocking => 4
  | Swapping => 5
  | WantLock => 6
  | Building => 7
  end.

(** C17: In every interleaving of the worker, the service thread, the handlers and the
    notifications, in which [StopImpl] discards the copy after the handlers that use it have
    returned, no handler iterates over a vector that changes; once the instance is visible
    to handlers, the copy is complete: it is what the loader answered to some call of
    [dl_iterate_phdr]; what a handler was shown is such an answer, from its beginning; and
    a service thread that waits for the worker does not wait forever: the worker has ended,
    or waits for a handler to leave the lock, or goes on and gets nearer to its end. *)
Theorem handlers_see_snapshots n l : orderly l (initial n) ->
  match run l (initial n) with
  | Next s =>
      (s_instance s = true -> librariesInfo s ∈ snapshots s) /\
      (forall h v k, handlers s !! h = Some (Unlocked v k) -> v ∈ snapshots s /\ (k <= length v)%nat) /\
      (service s = Joining \/ service s = TimedOutJoin ->
         worker s = Ended \/ (worker s = WantLock /\ existsb reads (handlers s) = true) \/
         forall loaded, exists s', worker_step loaded s = Next s' /\ (rank (worker s') < rank (worker s))%nat)
  | Blocked => True
  | Broken => False
  end.
Proof.
  intros Ho. pose proof (service_run_safe l _ (service_initial_inv n) Ho) as Hs. destruct (run l (initial n)) as [s| |]; [|done..].
  destruct Hs as [Hh Hw Hs Hst Hp Hd]. split_and!.
  - intros Hi. apply (instance_published s Hs) in Hi as [Hf Hn]. apply Hp; [by left|done].
  - intros h v k Hi. exact (Hh _ _ Hi).
  - intros Hj. assert (worker s <> NoWorker /\ stopRequested s = true /\ (worker s = Waiting -> event s = true)) as (Hn & Hr & He).
    { unfold service_ok in Hs. destruct Hj as [Ej|Ej]; rewrite Ej in Hs; intuition auto. }
    unfold worker_step. rewrite Hr. destruct (worker s) eqn:Ew; try done; try (right; right; intros loaded; eexists; split; [done|cbn; lia]).
    + right; right. intros loaded. rewrite He by done. eexists. split; [done|cbn; lia].
    + destruct (existsb reads (handlers s)) eqn:Er; [by right; left|]. right; right. intros loaded. eexists. split; [done|cbn; lia].
    + by left.
Qed.
End service.
Arguments State L : clear implicits.

(** ** Schedules *)
Module Example_service.
Definition worker_steps (n : nat) : list (@Action Z) := replicate n (Worker [1; 2]).

(** The service starts, and a handler begins to iterate. *)
Definition start : list (@Action Z) :=
  Service :: worker_steps 9 ++ [Service; Service; Service; Handler 0 false; Handler 0 false; Handler 0 false; Handler 0 false].

(** The copy is discarded without its lock: the iteration of the handler that found the
    instance before [StopImpl] retracted it goes on over a vector that is gone. *)
Example stop_during_iteration :
  run (start ++ Stop :: [Service; Service; Service; Service] ++ worker_steps 1 ++ [Service; Service; Handler 0 false]) (initial 1) = Broken.
Proof. vm_compute. reflexivity. Qed.
End Example_service.

Lemma handlers_see_snapshots_witness :
  match run (Example_service.start ++ [Handler 0 false; Handler 0 false]) (initial 1) with
  | Next s => s_instance s = true /\ librariesInfo s = [1; 2] /\ librariesInfo s ∈ snapshots s /\ handlers s = [Unlocked [1; 2] 2]
  | _ => False
  end.
Proof.
  pose proof (handlers_see_snapshots 1 (Example_service.start ++ [Handler 0 false; Handler 0 false])) as H.
  assert (orderly (Example_service.start ++ [Handler 0 false; Handler 0 false]) (initial 1)) as Ho by (vm_compute; tauto).
  specialize (H Ho). destruct (run _ (initial 1)) as [s| |] eqn:E; [|vm_compute in E; discriminate..].
  destruct H as (Hs & _). vm_compute in E. injection E as <-. split_and!; [done|done|by apply Hs|done].
Defined.
