(* ===== verification/LinkedLists.v ===== *)
(** * Lists of raw samples

    Model of [LinkedList.hpp] and [RawSamples.hpp]: singly linked lists whose [_tail] is the
    address of the pointer that the next node goes to, that is of [_head] of a list or of
    [Next] of a node.  Lists are objects in a store, for [Swap] and the moves exchange
    heads and tails between them, and nodes remember the allocator they came from.

    [None] is undefined behaviour: a pointer to an object or node that is gone, or memory
    given back to another allocator. *)
From stdpp Require Import base gmap functions list.
From S2P Require Import Prelude.

Section lists.
Context {T : Type}.

(** ** Data *)

Record Node := mkNode { Value : T; NextNode : option nat; allocated_by : nat }.

(** A [Node**]. *)
Inductive Tail := HeadOf (o : nat) | NextOf (n : nat).

Record LinkedList := mkList { _head : option nat; _tail : Tail; _nbElements : Z; _allocator : nat }.

Record Store := mkStore { nodes : gmap nat Node; lists : gmap nat LinkedList; next_address : nat }.

Definition set_list (o : nat) (l : LinkedList) (s : Store) : Store := mkStore (nodes s) (<[o := l]> (lists s)) (next_address s).

Definition set_nodes (m : gmap nat Node) (s : Store) : Store := mkStore m (lists s) (next_address s).

(** ** Operations *)

Definition new_LinkedList (o allocator : nat) (s : Store) : Store := set_list o (mkList None (HeadOf o) 0 allocator) s.

(** The loop of the destructor: the node is destroyed and given back. *)
Fixpoint free_nodes (fuel : nat) (current : option nat) (allocator : nat) (m : gmap nat Node) : option (gmap nat Node) :=
  match current, fuel with
  | None, _ => Some m
  | Some _, O => None
  | Some n, S fuel =>
    node ← m !! n;
    if (allocated_by node =? allocator)%nat then free_nodes fuel (NextNode node) allocator (delete n m) else None
  end.

Definition destroy_LinkedList (o : nat) (s : Store) : option Store :=
  l ← lists s !! o;
  m ← free_nodes (size (nodes s)) (_head l) (_allocator l) (nodes s);
  Some (mkStore m (delete o (lists s)) (next_address s)).

Definition Swap (o o' : nat) (s : Store) : option Store :=
  if (o =? o')%nat then Some s
  else
    l ← lists s !! o;
    l' ← lists s !! o';
    let tail := match _head l' with None => HeadOf o | Some _ => _tail l' end in
    let tail' := match _head l with None => HeadOf o' | Some _ => _tail l end in
    Some (set_list o' (mkList (_head l) tail' (_nbElements l) (_allocator l))
           (set_list o (mkList (_head l') tail (_nbElements l') (_allocator l')) s)).

(** Moves: [DefaultResource] is [shared::pmr::get_default_resource()]. *)
Definition DefaultResource : nat := 0.

Definition move_assign (o other : nat) (s : Store) : option Store := Swap o other s.

Definition move_construct (o other : nat) (s : Store) : option Store :=
  move_assign o other (new_LinkedList o DefaultResource s).

(** [*_tail = p] and [*_tail]. *)
Definition write_tail (t : Tail) (p : option nat) (s : Store) : option Store :=
  match t with
  | HeadOf o => l ← lists s !! o; Some (set_list o (mkList p (_tail l) (_nbElements l) (_allocator l)) s)
  | NextOf n => node ← nodes s !! n; Some (set_nodes (<[n := mkNode (Value node) p (allocated_by node)]> (nodes s)) s)
  end.

Definition read_tail (t : Tail) (s : Store) : option (option nat) :=
  match t with
  | HeadOf o => _head <$> lists s !! o
  | NextOf n => NextNode <$> nodes s !! n
  end.

(** What the allocator and the constructor of the value do. *)
Inductive Allocation := NoMemory | Throws | Constructed.

(** The result is [None] when an exception leaves [Append]; the guard has given the node
    back. *)
Definition Append (o : nat) (v : T) (a : Allocation) (s : Store) : option (option bool * Store) :=
  l ← lists s !! o;
  match a with
  | NoMemory => Some (Some false, s)
  | Throws => Some (None, mkStore (nodes s) (lists s) (S (next_address s)))
  | Constructed =>
    let n := next_address s in
    let s := mkStore (<[n := mkNode v None (_allocator l)]> (nodes s)) (lists s) (S n) in
    s ← write_tail (_tail l) (Some n) s;
    p ← read_tail (_tail l) s;
    n ← p;
    l ← lists s !! o;
    Some (Some true, set_list o (mkList (_head l) (NextOf n) (u64 (_nbElements l + 1)) (_allocator l)) s)
  end.

Definition Size (o : nat) (s : Store) : option Z := _nbElements <$> lists s !! o.

(** From [begin()] to [end()]. *)
Fixpoint iterate (fuel : nat) (p : option nat) (m : gmap nat Node) : option (list T) :=
  match p, fuel with
  | None, _ => Some []
  | Some _, O => None
  | Some n, S fuel => node ← m !! n; l ← iterate fuel (NextNode node) m; Some (Value node :: l)
  end.

Definition Elements (o : nat) (s : Store) : option (list T) :=
  l ← lists s !! o; iterate (size (nodes s)) (_head l) (nodes s).

(** ** RawSamples *)

(** [Move]: [local] is its variable, [param] the parameter of the private constructor and
    [result] the list of the returned object. *)
Definition RawSamples_Move (o memoryResource local param result : nat) (s : Store) : option Store :=
  s ← Swap o local (new_LinkedList local memoryResource s);
  s ← move_construct param local s;
  s ← move_construct result param s;
  s ← destroy_LinkedList param s;
  destroy_LinkedList local s.

Definition RawSamples_Add (o : nat) (v : T) (a : Allocation) (s : Store) : option Store := snd <$> Append o v a s.

(** ** What a list holds *)

(** The nodes [ns] hold the values [xs], from the pointer [p]. *)
Inductive chain (m : gmap nat Node) (allocator : nat) : option nat -> list nat -> list T -> Prop :=
| chain_nil : chain m allocator None [] []
| chain_cons n v p ns xs : m !! n = Some (mkNode v p allocator) -> chain m allocator p ns xs ->
    chain m allocator (Some n) (n :: ns) (v :: xs).

Definition tail_of (o : nat) (ns : list nat) : Tail := match last ns with Some n => NextOf n | None => HeadOf o end.

Record holds (m : gmap nat Node) (o : nat) (l : LinkedList) (ns : list nat) (xs : list T) : Prop := {
  holds_chain : chain m (_allocator l) (_head l) ns xs;
  holds_tail : _tail l = tail_of o ns;
  holds_size : _nbElements l = u64 (zlen xs)
}.

(** The lists [abs] are in the store; [own] are their nodes, and there are no others. *)
Record refines (s : Store) (own : nat -> list nat) (abs : gmap nat (list T)) : Prop := {
  r_lists : forall o l, lists s !! o = Some l -> exists xs, abs !! o = Some xs /\ holds (nodes s) o l (own o) xs;
  r_abs : forall o, is_Some (abs !! o) -> is_Some (lists s !! o);
  r_none : forall o, lists s !! o = None -> own o = [];
  r_nodup : forall o, NoDup (own o);
  r_apart : forall o o' n, n ∈ own o -> n ∈ own o' -> o = o';
  r_owned : forall n, is_Some (nodes s !! n) -> exists o, n ∈ own o;
  r_fresh : forall n, is_Some (nodes s !! n) -> (n < next_address s)%nat
}.

(** ** Chains *)

Lemma chain_ext m m' a p ns xs : chain m a p ns xs -> (forall n, n ∈ ns -> m' !! n = m !! n) -> chain m' a p ns xs.
Proof.
  induction 1 as [|n v p ns xs Hn _ IH]; intros He; [constructor|]. econstructor; [rewrite He; [exact Hn|by left]|].
  apply IH. intros k Hk. apply He. by right.
Qed.

Lemma chain_alive m a p ns xs n : chain m a p ns xs -> n ∈ ns -> is_Some (m !! n).
Proof.
  induction 1 as [|k v p ns xs Hk _ IH]; [by intros ?%not_elem_of_nil|].
  intros [->|Hn]%elem_of_cons; [by eexists|by apply IH].
Qed.

Lemma chain_length m a p ns xs : chain m a p ns xs -> length ns = length xs.
Proof. induction 1; cbn; congruence. Qed.

Lemma chain_size m a p ns xs : chain m a p ns xs -> NoDup ns -> (length ns <= size m)%nat.
Proof.
  intros Hc Hnd. rewrite <- (size_dom m), <- (size_list_to_set (C := gset nat) ns) by done. apply subseteq_size.
  intros n Hn%elem_of_list_to_set. apply elem_of_dom. by eapply chain_alive.
Qed.

Lemma iterate_chain m a p ns xs : chain m a p ns xs -> forall fuel, (length ns <= fuel)%nat -> iterate fuel p m = Some xs.
Proof.
  induction 1 as [|n v p ns xs Hn _ IH]; intros fuel Hf; [by destruct fuel|]. destruct fuel as [|fuel]; cbn in Hf; [lia|].
  cbn [iterate]. rewrite Hn. cbn. by rewrite (IH fuel) by lia.
Qed.

Lemma free_chain a p ns xs : forall m fuel, chain m a p ns xs -> NoDup ns -> (length ns <= fuel)%nat ->
  exists m', free_nodes fuel p a m = Some m' /\ forall n, m' !! n = if decide (n ∈ ns) then None else m !! n.
Proof.
  revert p xs. induction ns as [|k ns IH]; intros p xs m fuel Hc Hnd Hf; inversion Hc as [|? v q ? xs' Hk Hc']; subst.
  - exists m. split; [by destruct fuel|]. done.
  - apply NoDup_cons in Hnd as [Hni Hnd]. destruct fuel as [|fuel]; cbn in Hf; [lia|]. cbn [free_nodes]. rewrite Hk.
    cbn [mbind option_bind allocated_by NextNode]. rewrite Nat.eqb_refl.
    destruct (IH q xs' (delete k m) fuel) as (m' & -> & Hm').
    + eapply chain_ext; [exact Hc'|]. intros n Hn. rewrite lookup_delete_ne; [done|]. by intros ->.
    + done.
    + lia.
    + exists m'. split; [done|]. intros n. rewrite Hm'. destruct (decide (n = k)) as [->|Hne].
      * rewrite (decide_True (P := k ∈ k :: ns)) by (by left). rewrite lookup_delete_eq. by destruct (decide _).
      * rewrite lookup_delete_ne by done. destruct (decide (n ∈ ns)), (decide (n ∈ k :: ns)); try done; set_solver.
Qed.

(** A node behind the last one. *)
Lemma chain_snoc m a p ns xs k n v : chain m a p ns xs -> NoDup ns -> last ns = Some k -> n ∉ ns ->
  exists w, m !! k = Some (mkNode w None a) /\
    forall m', (forall i, i ∈ ns -> i <> k -> m' !! i = m !! i) -> m' !! k = Some (mkNode w (Some n) a) ->
      m' !! n = Some (mkNode v None a) -> chain m' a p (ns ++ [n]) (xs ++ [v]).
Proof.
  induction 1 as [|i w p ns xs Hi Hc IH]; intros Hnd Hl Hn; [done|]. apply NoDup_cons in Hnd as [Hni Hnd].
  destruct ns as [|j ns].
  - injection Hl as ->. inversion Hc; subst. exists w. split; [done|]. intros m' _ Hk Hn'.
    repeat (econstructor; [done|]). constructor.
  - change (last (i :: j :: ns)) with (last (j :: ns)) in Hl.
    assert (k ∈ j :: ns) as Hkin by (by apply last_Some_elem_of).
    destruct IH as (w' & Hk & IH); [done|done|set_solver|]. exists w'. split; [done|]. intros m' He Hk' Hn'.
    change ((i :: j :: ns) ++ [n]) with (i :: ((j :: ns) ++ [n])). change ((w :: xs) ++ [v]) with (w :: (xs ++ [v])).
    econstructor; [rewrite He; [exact Hi|by left|]|].
    + intros ->. done.
    + apply IH; [|done|done]. intros l Hl' Hlk. apply He; [by right|done].
Qed.

(** ** Operations on the lists *)

Section operations.
Context (s : Store) (own : nat -> list nat) (abs : gmap nat (list T)) (Href : refines s own abs).

Lemma abs_list o xs : abs !! o = Some xs -> exists l, lists s !! o = Some l /\ holds (nodes s) o l (own o) xs.
Proof.
  intros Ho. destruct (r_abs _ _ _ Href o) as [l Hl]; [by eexists|]. exists l. split; [done|].
  destruct (r_lists _ _ _ Href _ _ Hl) as (xs' & E & H). congruence.
Qed.

Lemma list_alive o n : n ∈ own o -> is_Some (nodes s !! n).
Proof.
  intros Hn. destruct (lists s !! o) as [l|] eqn:E.
  - destruct (r_lists _ _ _ Href _ _ E) as (xs & _ & H). eapply chain_alive; [apply H|done].
  - rewrite (r_none _ _ _ Href _ E) in Hn. by apply not_elem_of_nil in Hn.
Qed.

Lemma new_refines o a : lists s !! o = None -> refines (new_LinkedList o a s) own (<[o := []]> abs).
Proof.
  intros Ho. pose proof (r_none _ _ _ Href _ Ho) as Hown. destruct Href as [Hl Ha Hn Hnd Hap Hw Hf].
  split; cbn; [| | |exact Hnd|exact Hap|exact Hw|exact Hf].
  - intros o' l [[<- <-]|[Hne E]]%lookup_insert_Some.
    + exists []. rewrite lookup_insert_eq, Hown. split; [done|]. split; cbn; [constructor|done|done].
    + destruct (Hl _ _ E) as (xs & Ex & H). exists xs. by rewrite lookup_insert_ne by done.
  - intros o' H. apply lookup_insert_is_Some'. apply lookup_insert_is_Some' in H as [->|H]; [by left|right; auto].
  - intros o' [E _]%lookup_insert_None. by apply Hn.
Qed.

Lemma destroy_refines o xs : abs !! o = Some xs ->
  exists s', destroy_LinkedList o s = Some s' /\ refines s' (<[o := []]> own) (delete o abs).
Proof.
  intros Ho. destruct (abs_list _ _ Ho) as (l & El & [Hc _ _]). unfold destroy_LinkedList. rewrite El.
  destruct (free_chain _ _ _ _ _ (size (nodes s)) Hc (r_nodup _ _ _ Href o)) as (m' & Em & Hm).
  { eapply chain_size; [exact Hc|apply Href]. }
  cbn. rewrite Em. cbn. eexists. split; [done|]. destruct Href as [Hl Ha Hn Hnd Hap Hw Hf].
  split; cbn.
  - intros o' l' [Hne E]%lookup_delete_Some. destruct (Hl _ _ E) as (xs' & Ex & [Hc' Ht' Hs']). exists xs'.
    rewrite lookup_delete_ne, fn_lookup_insert_ne by done. split; [done|]. split; [|done|done].
    eapply chain_ext; [exact Hc'|]. intros n Hin. rewrite Hm, decide_False; [done|]. intros Hin'. by apply Hne, (Hap _ _ n).
  - intros o' [Hne H]%lookup_delete_is_Some. rewrite lookup_delete_ne by done. by apply Ha.
  - intros o' [->|E]%lookup_delete_None; [apply fn_lookup_insert|]. destruct (decide (o = o')) as [->|Hne]; [apply fn_lookup_insert|].
    rewrite fn_lookup_insert_ne by done. by apply Hn.
  - intros o'. destruct (decide (o = o')) as [->|Hne]; [rewrite fn_lookup_insert; constructor|by rewrite fn_lookup_insert_ne].
  - intros o1 o2 n. destruct (decide (o = o1)) as [->|H1]; [rewrite fn_lookup_insert; by intros ?%not_elem_of_nil|].
    destruct (decide (o = o2)) as [->|H2]; [rewrite fn_lookup_insert; by intros _ ?%not_elem_of_nil|].
    rewrite !fn_lookup_insert_ne by done. apply Hap.
  - intros n H. rewrite Hm in H. destruct (decide (n ∈ own o)) as [|Hni]; [by destruct H|].
    destruct (Hw n H) as [o' Hin]. exists o'. rewrite fn_lookup_insert_ne; [done|]. by intros ->.
  - intros n H. apply Hf. rewrite Hm in H. destruct (decide (n ∈ own o)); [by destruct H|done].
Qed.

Lemma swapped_holds o o' l xs : holds (nodes s) o l (own o) xs ->
  holds (nodes s) o' (mkList (_head l) (match _head l with None => HeadOf o' | Some _ => _tail l end) (_nbElements l) (_allocator l)) (own o) xs.
Proof.
  intros [Hc Ht Hs]. split; cbn; [done| |done]. rewrite Ht. inversion Hc as [|n v p ns xs' Hn Hc' E]; subst; [done|].
  unfold tail_of. destruct (last (n :: ns)) eqn:El; [done|]. by apply last_None in El.
Qed.

Lemma Swap_refines o o' xs xs' : abs !! o = Some xs -> abs !! o' = Some xs' ->
  exists s' own', Swap o o' s = Some s' /\ refines s' own' (<[o' := xs]> (<[o := xs']> abs)).
Proof.
  intros Ho Ho'. unfold Swap. destruct (Nat.eqb_spec o o') as [->|Hne].
  { exists s, own. split; [done|]. assert (xs' = xs) as -> by congruence. by rewrite !insert_id by (rewrite ?insert_id; done). }
  destruct (abs_list _ _ Ho) as (l & El & Hl). destruct (abs_list _ _ Ho') as (l' & El' & Hl'). rewrite El, El'. cbn.
  exists (set_list o' (mkList (_head l) (match _head l with None => HeadOf o' | Some _ => _tail l end) (_nbElements l) (_allocator l))
           (set_list o (mkList (_head l') (match _head l' with None => HeadOf o | Some _ => _tail l' end) (_nbElements l') (_allocator l')) s)),
    (<[o' := own o]> (<[o := own o']> own)). split; [done|]. pose proof (swapped_holds o o' _ _ Hl) as Hs. pose proof (swapped_holds o' o _ _ Hl') as Hs'.
  assert (forall x, exists y, (<[o' := own o]> (<[o := own o']> own)) x = own y /\ ((x = o' /\ y = o) \/ (x = o /\ y = o') \/ (x <> o /\ x <> o' /\ y = x))) as Hp.
  { intros x. destruct (decide (o' = x)) as [->|H1]; [exists o; rewrite fn_lookup_insert; auto|]. rewrite fn_lookup_insert_ne by done.
    destruct (decide (o = x)) as [->|H2]; [exists o'; rewrite fn_lookup_insert; auto|]. rewrite fn_lookup_insert_ne by done. exists x. auto 10. }
  destruct Href as [Hls Ha Hn Hnd Hap Hw Hf]. split; cbn [nodes lists set_list next_address].
  - intros x lx [[<- <-]|[H1 [[<- <-]|[H2 E]]%lookup_insert_Some]]%lookup_insert_Some.
    + exists xs. rewrite lookup_insert_eq, fn_lookup_insert. done.
    + exists xs'. rewrite lookup_insert_ne, lookup_insert_eq by done. rewrite fn_lookup_insert_ne, fn_lookup_insert by done. done.
    + destruct (Hls _ _ E) as (ys & Ey & Hy). exists ys. rewrite !lookup_insert_ne by done. by rewrite !fn_lookup_insert_ne.
  - intros x H. rewrite !lookup_insert_is_Some' in *. naive_solver.
  - intros x [[E H2]%lookup_insert_None H1]%lookup_insert_None. rewrite !fn_lookup_insert_ne by done. by apply Hn.
  - intros x. destruct (Hp x) as (y & -> & _). apply Hnd.
  - intros x y n. destruct (Hp x) as (x' & -> & Hx). destruct (Hp y) as (y' & -> & Hy). intros H1 H2.
    pose proof (Hap _ _ _ H1 H2). subst. naive_solver.
  - intros n H. destruct (Hw n H) as [x Hx]. destruct (decide (x = o)) as [->|H1]; [exists o'; by rewrite fn_lookup_insert|].
    destruct (decide (x = o')) as [->|H2]; [exists o; by rewrite fn_lookup_insert_ne, fn_lookup_insert|].
    exists x. by rewrite !fn_lookup_insert_ne.
  - exact Hf.
Qed.

Lemma fresh_not_owned o : next_address s ∉ own o.
Proof. intros H%list_alive. apply (r_fresh _ _ _ Href) in H. lia. Qed.

(** One list gets one more node. *)
Lemma grown_refines o xs v l' m' : abs !! o = Some xs ->
  holds m' o l' (own o ++ [next_address s]) (xs ++ [v]) ->
  (forall i, i <> next_address s -> i ∉ own o -> m' !! i = nodes s !! i) ->
  (forall i, is_Some (m' !! i) -> is_Some (nodes s !! i) \/ i = next_address s) ->
  refines (mkStore m' (<[o := l']> (lists s)) (S (next_address s))) (<[o := own o ++ [next_address s]]> own) (<[o := xs ++ [v]]> abs).
Proof.
  intros Ho Hh Hm Hdom. set (n := next_address s) in *. pose proof (fresh_not_owned) as Hfr. fold n in Hfr.
  destruct (abs_list _ _ Ho) as (l & El & _). destruct Href as [Hl Ha Hn Hnd Hap Hw Hf]. split; cbn.
  - intros x lx [[<- <-]|[Hne E]]%lookup_insert_Some.
    + exists (xs ++ [v]). by rewrite lookup_insert_eq, fn_lookup_insert.
    + destruct (Hl _ _ E) as (ys & Ey & [Hc Ht Hs]). exists ys. rewrite lookup_insert_ne, fn_lookup_insert_ne by done.
      split; [done|]. split; [|done|done]. eapply chain_ext; [exact Hc|]. intros i Hi. apply Hm.
      * intros ->. by apply (Hfr x).
      * intros Hi'. by apply Hne, (Hap _ _ i).
  - intros x [->|H]%lookup_insert_is_Some'; apply lookup_insert_is_Some'; [by left|right; by apply Ha].
  - intros x [E Hne]%lookup_insert_None. rewrite fn_lookup_insert_ne by done. by apply Hn.
  - intros x. destruct (decide (o = x)) as [->|Hne]; [rewrite fn_lookup_insert|by rewrite fn_lookup_insert_ne].
    apply NoDup_app. split_and!; [apply Hnd| |apply NoDup_singleton]. intros i Hi ->%list_elem_of_singleton. by apply (Hfr x).
  - intros x y i. destruct (decide (x = o)) as [->|Hx], (decide (y = o)) as [->|Hy]; rewrite ?fn_lookup_insert, ?fn_lookup_insert_ne by congruence.
    + done.
    + intros [Hi| ->%list_elem_of_singleton]%elem_of_app Hi'; [by apply (Hap _ _ i)|by apply Hfr in Hi'].
    + intros Hi [Hi'| ->%list_elem_of_singleton]%elem_of_app; [by apply (Hap _ _ i)|by apply Hfr in Hi].
    + apply Hap.
  - intros i H. destruct (Hdom i H) as [H'| ->].
    + destruct (Hw i H') as [x Hx]. exists x. destruct (decide (o = x)) as [->|Hne]; [rewrite fn_lookup_insert; apply elem_of_app; by left|by rewrite fn_lookup_insert_ne].
    + exists o. rewrite fn_lookup_insert. apply elem_of_app. right. by apply list_elem_of_singleton.
  - intros i H. destruct (Hdom i H) as [H'| ->]; [apply Hf in H'; unfold n; lia|unfold n; lia].
Qed.

Lemma Append_refines o v a xs : abs !! o = Some xs ->
  exists r s' own', Append o v a s = Some (r, s') /\
    match a with
    | NoMemory => r = Some false /\ refines s' own' abs
    | Throws => r = None /\ refines s' own' abs
    | Constructed => r = Some true /\ refines s' own' (<[o := xs ++ [v]]> abs)
    end.
Proof.
  intros Ho. destruct (abs_list _ _ Ho) as (l & El & [Hc Ht Hsz]). unfold Append. rewrite El. cbn [mbind option_bind]. destruct a.
  { exists (Some false), s, own. done. }
  { exists None, (mkStore (nodes s) (lists s) (S (next_address s))), own. split; [done|]. split; [done|].
    destruct Href as [Hl Ha Hn Hnd Hap Hw Hf]. split; [done..|]. intros n H%Hf. cbn. lia. }
  set (n := next_address s). pose proof (fresh_not_owned o) as Hfr. fold n in Hfr. rewrite Ht. unfold tail_of.
  assert (u64 (_nbElements l + 1) = u64 (zlen (xs ++ [v]))) as Hsz'.
  { rewrite Hsz, u64_add, length_app. f_equal. cbn. lia. }
  destruct (last (own o)) as [k|] eqn:Ek.
  - pose proof (last_Some_elem_of _ _ Ek) as Hk. assert (k <> n) as Hkn by (by intros ->).
    destruct (chain_snoc _ _ _ _ _ _ n v Hc (r_nodup _ _ _ Href o) Ek Hfr) as (w & Ew & Hsn).
    cbn [write_tail read_tail nodes lists set_nodes]. rewrite lookup_insert_ne, Ew by done. cbn. rewrite lookup_insert_eq. cbn. rewrite El.
    eexists _, _, _. split; [done|]. split; [done|]. apply (grown_refines o xs v _ _ Ho).
    + split; cbn; [apply Hsn|unfold tail_of; by rewrite last_snoc|done].
      * intros i Hi Hik. rewrite !lookup_insert_ne; [done| |done]. by intros <-.
      * by rewrite lookup_insert_eq.
      * rewrite lookup_insert_ne, lookup_insert_eq by done. done.
    + intros i Hin Hio. cbn. rewrite !lookup_insert_ne; [done|done|]. by intros ->.
    + intros i. cbn. rewrite !lookup_insert_is_Some'. intros [E|[E|H]]; [left; rewrite <- E; eexists; exact Ew|right; by rewrite <- E|by left].
  - apply last_None in Ek. cbn [write_tail read_tail nodes lists]. rewrite El. cbn. rewrite lookup_insert_eq. cbn.
    assert (xs = []) as ->.
    { apply chain_length in Hc. rewrite Ek in Hc. by destruct xs. }
    eexists _, _, _. split; [done|]. split; [done|]. unfold set_list. cbn. rewrite insert_insert_eq.
    apply (grown_refines o [] v _ _ Ho).
    + rewrite Ek. split; cbn; [|done|done]. econstructor; [apply lookup_insert_eq|constructor].
    + intros i Hin _. by rewrite lookup_insert_ne by done.
    + intros i. rewrite lookup_insert_is_Some'. intros [E|H]; [right; by rewrite <- E|by left].
Qed.
End operations.

Lemma move_construct_refines s own abs o other xs : refines s own abs -> abs !! o = None -> abs !! other = Some xs ->
  exists s' own', move_construct o other s = Some s' /\ refines s' own' (<[other := []]> (<[o := xs]> abs)).
Proof.
  intros Hr Ho Hx. assert (lists s !! o = None) as Hl.
  { destruct (lists s !! o) as [l|] eqn:E; [|done]. destruct (r_lists _ _ _ Hr _ _ E) as (? & ? & _). congruence. }
  pose proof (new_refines _ _ _ Hr o DefaultResource Hl) as Hr1. assert (o <> other) as Hne by congruence.
  destruct (Swap_refines _ _ _ Hr1 o other [] xs) as (s' & own' & E & Hr'); [by simplify_map_eq..|].
  exists s', own'. split; [exact E|]. by rewrite insert_insert_eq in Hr'.
Qed.

Lemma RawSamples_Move_refines s own abs o mr local param result xs : refines s own abs -> abs !! o = Some xs ->
  abs !! local = None -> abs !! param = None -> abs !! result = None -> NoDup [local; param; result] ->
  exists s' own', RawSamples_Move o mr local param result s = Some s' /\ refines s' own' (<[result := xs]> (<[o := []]> abs)).
Proof.
  intros Hr Ho Hl Hp Hres Hnd. assert (local <> param /\ local <> result /\ param <> result /\ o <> local /\ o <> param /\ o <> result) as (H1 & H2 & H3 & H4 & H5 & H6).
  { rewrite !NoDup_cons in Hnd. split_and!; try congruence; set_solver. }
  assert (lists s !! local = None) as Hll.
  { destruct (lists s !! local) as [l|] eqn:E; [|done]. destruct (r_lists _ _ _ Hr _ _ E) as (? & ? & _). congruence. }
  unfold RawSamples_Move. pose proof (new_refines _ _ _ Hr local mr Hll) as Hr1.
  destruct (Swap_refines _ _ _ Hr1 o local xs []) as (s2 & own2 & -> & Hr2); [by simplify_map_eq..|]. cbn [mbind option_bind].
  destruct (move_construct_refines _ _ _ param local xs Hr2) as (s3 & own3 & -> & Hr3); [by simplify_map_eq..|]. cbn [mbind option_bind].
  destruct (move_construct_refines _ _ _ result param xs Hr3) as (s4 & own4 & -> & Hr4); [by simplify_map_eq..|]. cbn [mbind option_bind].
  destruct (destroy_refines _ _ _ Hr4 param []) as (s5 & -> & Hr5); [by simplify_map_eq|]. cbn [mbind option_bind].
  destruct (destroy_refines _ _ _ Hr5 local []) as (s6 & -> & Hr6); [by simplify_map_eq|].
  eexists _, _. split; [done|].
  match type of Hr6 with refines _ _ ?m => replace m with (<[result := xs]> (<[o := []]> abs)) in Hr6; [exact Hr6|] end.
  apply map_eq. intros i. destruct (decide (i = result)), (decide (i = o)), (decide (i = local)), (decide (i = param)); subst; simplify_map_eq; done.
Qed.

(** ** Sequences of operations *)

Inductive Op :=
| OpNew (o allocator : nat)
| OpDestroy (o : nat)
| OpSwap (o o' : nat)
| OpMoveConstruct (o other : nat)
| OpAppend (o : nat) (v : T) (a : Allocation)
| OpMove (o memoryResource local param result : nat).

Definition exec (op : Op) (s : Store) : option Store :=
  match op with
  | OpNew o a => Some (new_LinkedList o a s)
  | OpDestroy o => destroy_LinkedList o s
  | OpSwap o o' => Swap o o' s
  | OpMoveConstruct o other => move_construct o other s
  | OpAppend o v a => RawSamples_Add o v a s
  | OpMove o mr local param result => RawSamples_Move o mr local param result s
  end.

(** Lists of values; [None] is a call on objects that are not there, or that are there
    already. *)
Definition spec (op : Op) (abs : gmap nat (list T)) : option (gmap nat (list T)) :=
  match op with
  | OpNew o _ => if decide (abs !! o = None) then Some (<[o := []]> abs) else None
  | OpDestroy o => xs ← abs !! o; Some (delete o abs)
  | OpSwap o o' => xs ← abs !! o; xs' ← abs !! o'; Some (<[o' := xs]> (<[o := xs']> abs))
  | OpMoveConstruct o other =>
      xs ← abs !! other; if decide (abs !! o = None) then Some (<[other := []]> (<[o := xs]> abs)) else None
  | OpAppend o v a => xs ← abs !! o; Some (match a with Constructed => <[o := xs ++ [v]]> abs | _ => abs end)
  | OpMove o _ local param result =>
      xs ← abs !! o;
      if decide (abs !! local = None /\ abs !! param = None /\ abs !! result = None /\ NoDup [local; param; result])
      then Some (<[result := xs]> (<[o := []]> abs)) else None
  end.

Fixpoint exec_all (ops : list Op) (s : Store) : option Store :=
  match ops with [] => Some s | op :: ops => s ← exec op s; exec_all ops s end.

Fixpoint spec_all (ops : list Op) (abs : gmap nat (list T)) : option (gmap nat (list T)) :=
  match ops with [] => Some abs | op :: ops => abs ← spec op abs; spec_all ops abs end.

Lemma exec_refines op s own abs abs' : refines s own abs -> spec op abs = Some abs' ->
  exists s' own', exec op s = Some s' /\ refines s' own' abs'.
Proof.
  intros Hr. destruct op; cbn [spec exec]; intros E; simplify_option; repeat case_decide; simplify_eq.
  - eexists _, own. split; [done|]. apply new_refines; [done|]. destruct (lists s !! o) as [l|] eqn:El; [|done].
    destruct (r_lists _ _ _ Hr _ _ El) as (? & ? & _). congruence.
  - edestruct (destroy_refines _ _ _ Hr o) as (s' & -> & Hr'); [done|]. by eexists _, _.
  - by eapply Swap_refines.
  - by eapply move_construct_refines.
  - unfold RawSamples_Add. edestruct (Append_refines _ _ _ Hr o v a) as (r & s' & own' & -> & Hr'); [done|].
    eexists _, own'. split; [done|]. by destruct a, Hr'.
  - destruct_and?. by eapply RawSamples_Move_refines.
Qed.

Lemma exec_all_refines ops : forall s own abs abs', refines s own abs -> spec_all ops abs = Some abs' ->
  exists s' own', exec_all ops s = Some s' /\ refines s' own' abs'.
Proof.
  induction ops as [|op ops IH]; intros s own abs abs' Hr; cbn [spec_all exec_all]; [intros [= <-]; by exists s, own|].
  intros (abs1 & E1 & E)%bind_Some. destruct (exec_refines op s own abs abs1 Hr E1) as (s1 & own1 & -> & Hr1). cbn. by eapply IH.
Qed.

Definition empty_store : Store := mkStore ∅ ∅ 0.

Lemma empty_refines : refines empty_store (fun _ => []) ∅.
Proof.
  split; cbn.
  - intros o l H. by rewrite lookup_empty in H.
  - intros o H. by rewrite lookup_empty in H; destruct H.
  - done.
  - intros _. constructor.
  - intros o o' n Hn. by apply not_elem_of_nil in Hn.
  - intros n H. by rewrite lookup_empty in H; destruct H.
  - intros n H. by rewrite lookup_empty in H; destruct H.
Qed.

(** C20: Lists of raw samples behave as lists of values: for every sequence of constructions,
    appends, some of which fail or throw, swaps, moves, destructions and
    [RawSamples::Move]s on objects that are there, no pointer to a list or node that is
    gone is followed and memory goes back to its own allocator; iterating gives the values
    in the order in which they were appended, wherever they have been moved since; and when
    all lists are destroyed no node is left. *)
Theorem lists_hold_values ops abs : spec_all ops ∅ = Some abs ->
  exists s, exec_all ops empty_store = Some s /\
    (forall o xs, abs !! o = Some xs -> Elements o s = Some xs /\ Size o s = Some (u64 (zlen xs))) /\
    (abs = ∅ -> nodes s = ∅).
Proof.
  intros E. destruct (exec_all_refines ops _ _ _ _ empty_refines E) as (s & own & Es & Hr). exists s. split_and!; [done| |].
  - intros o xs Ho. destruct (abs_list _ _ _ Hr _ _ Ho) as (l & El & [Hc _ Hs]). unfold Elements, Size. rewrite El. cbn. rewrite Hs.
    split; [|done]. eapply iterate_chain; [exact Hc|]. eapply chain_size; [exact Hc|apply Hr].
  - intros ->. apply map_empty. intros n. apply eq_None_not_Some. intros (o & Hn)%(r_owned _ _ _ Hr).
    destruct (lists s !! o) as [l|] eqn:El; [destruct (r_lists _ _ _ Hr _ _ El) as (xs & Hx & _); by rewrite lookup_empty in Hx|].
    rewrite (r_none _ _ _ Hr _ El) in Hn. by apply not_elem_of_nil in Hn.
Qed.
End lists.
Arguments Store T : clear implicits.
Arguments Node T : clear implicits.

(** Samples are collected while others are added. *)
Module Example_lists.
Definition ops : list (@Op Z) :=
  [OpNew 0 7; OpAppend 0 10 Constructed; OpAppend 0 11 Constructed; OpAppend 0 12 NoMemory; OpMove 0 7 1 2 3;
   OpAppend 0 13 Constructed; OpAppend 3 14 Constructed; OpSwap 0 3; OpAppend 0 15 Throws; OpAppend 0 16 Constructed].
End Example_lists.

Lemma lists_hold_values_witness :
  exists s, exec_all Example_lists.ops empty_store = Some s /\
    Elements 0 s = Some [10; 11; 14; 16] /\ Elements 3 s = Some [13] /\ Size 0 s = Some 4.
Proof.
  destruct (lists_hold_values Example_lists.ops {[0%nat := [10; 11; 14; 16]; 3%nat := [13]]}) as (s & Es & H & _); [vm_compute; reflexivity|].
  exists s. split; [exact Es|]. destruct (H 0%nat [10; 11; 14; 16]) as [E1 E2]; [vm_compute; reflexivity|].
  destruct (H 3%nat [13]) as [E3 _]; [vm_compute; reflexivity|]. split_and!; [exact E1|exact E3|exact E2].
Defined.
