(* ===== verification/DelayedStart.v ===== *)
(** * The delayed start of the profiler

    Model of [SsiManager.cpp] and of [CorProfilerCallback::SetConfiguration]: the profiler is
    enabled by its environment or by the configuration that managed code sends; in the mode
    "auto" it is started when the process has lived long enough and has created a span.
    Three kinds of threads find this out: the one that sends the configuration, the timer,
    and those that create spans.

    They are interleaved at every read and write of the fields they share. *)
From stdpp Require Import base list.
From S2P Require Import Prelude.

(** ** Data *)

Inductive EnablementStatus := NotSet | ManuallyEnabled | ManuallyDisabled | Auto | Standby.

#[export] Instance EnablementStatus_eq_dec : EqDecision EnablementStatus.
Proof. solve_decision. Defined.

(** [config.profilingEnabled]; [Other] is an invalid value. *)
Inductive ProfilingEnabled := ProfilingDisabled | ProfilingEnabledTrue | ProfilingAuto | ProfilingOther.

#[export] Instance ProfilingEnabled_eq_dec : EqDecision ProfilingEnabled.
Proof. solve_decision. Defined.

Inductive Point :=
| Returned
| Configuring (c : ProfilingEnabled)     (* SetConfiguration, before the test *)
| Claiming (c : ProfilingEnabled)        (* before the flag is set *)
| SettingStatus (c : ProfilingEnabled)   (* before SetEnablementStatus *)
| Propagating (c : ProfilingEnabled)     (* before the call of OnStableConfiguration *)
| StableTest                             (* OnStableConfiguration, before the test *)
| StableMark
| StableStatus
| StableLongLived
| StableSpan
| TimerSet                               (* OnShortLivedEnds *)
| TimerStatus
| TimerSpan
| SpanTest                               (* OnSpanCreated *)
| SpanSet
| SpanStatus
| SpanLongLived
| Starting.                              (* StartProfiling *)

Record State := mkState {
  managedActivation : bool;              (* IsManagedActivationEnabled *)
  managedConfigurationSet : bool;
  status : EnablementStatus;
  stableConfigurationSet : bool;
  hasSpan : bool;
  longLived : bool;
  starts : nat;                          (* calls of OnStartDelayedProfiling *)
  points : list Point
}.

Definition ExtractEnablementStatus (managed : bool) (env : EnablementStatus) : EnablementStatus :=
  if managed then Standby else env.

Definition initial (managed : bool) (env : EnablementStatus) (n : nat) : State :=
  mkState managed false (ExtractEnablementStatus managed env) false false false 0 (replicate n Returned).

(** ** Steps *)

Definition goto (t : nat) (p : Point) (s : State) : State :=
  mkState (managedActivation s) (managedConfigurationSet s) (status s) (stableConfigurationSet s) (hasSpan s) (longLived s) (starts s)
    (<[t := p]> (points s)).

Definition set_configured (s : State) : State :=
  mkState (managedActivation s) true (status s) (stableConfigurationSet s) (hasSpan s) (longLived s) (starts s) (points s).
Definition set_status (e : EnablementStatus) (s : State) : State :=
  mkState (managedActivation s) (managedConfigurationSet s) e (stableConfigurationSet s) (hasSpan s) (longLived s) (starts s) (points s).
Definition set_stable (s : State) : State :=
  mkState (managedActivation s) (managedConfigurationSet s) (status s) true (hasSpan s) (longLived s) (starts s) (points s).
Definition set_span (s : State) : State :=
  mkState (managedActivation s) (managedConfigurationSet s) (status s) (stableConfigurationSet s) true (longLived s) (starts s) (points s).
Definition set_long (s : State) : State :=
  mkState (managedActivation s) (managedConfigurationSet s) (status s) (stableConfigurationSet s) (hasSpan s) true (starts s) (points s).

(** [std::call_once]. *)
Definition start_once (s : State) : State :=
  mkState (managedActivation s) (managedConfigurationSet s) (status s) (stableConfigurationSet s) (hasSpan s) (longLived s)
    (match starts s with O => 1 | n => n end) (points s).

Definition status_of (c : ProfilingEnabled) : EnablementStatus :=
  match c with ProfilingAuto => Auto | ProfilingEnabledTrue => ManuallyEnabled | _ => ManuallyDisabled end.

Definition step (t : nat) (s : State) : State :=
  match points s !! t with
  | None | Some Returned => s
  | Some (Configuring c) =>
      if managedConfigurationSet s then goto t Returned s else goto t (Claiming c) s
  | Some (Claiming c) =>
      if managedActivation s then goto t (SettingStatus c) (set_configured s) else goto t Returned (set_configured s)
  | Some (SettingStatus c) => goto t (Propagating c) (set_status (status_of c) s)
  | Some (Propagating c) =>
      match c with ProfilingAuto | ProfilingEnabledTrue => goto t StableTest s | _ => goto t Returned s end
  | Some StableTest => if stableConfigurationSet s then goto t Returned s else goto t StableMark s
  | Some StableMark => goto t StableStatus (set_stable s)
  | Some StableStatus =>
      match status s with ManuallyEnabled => goto t Starting s | Auto => goto t StableLongLived s | _ => goto t Returned s end
  | Some StableLongLived => if longLived s then goto t StableSpan s else goto t Returned s
  | Some StableSpan => if hasSpan s then goto t Starting s else goto t Returned s
  | Some TimerSet => goto t TimerStatus (set_long s)
  | Some TimerStatus => match status s with Auto => goto t TimerSpan s | _ => goto t Returned s end
  | Some TimerSpan => if hasSpan s then goto t Starting s else goto t Returned s
  | Some SpanTest => if hasSpan s then goto t Returned s else goto t SpanSet s
  | Some SpanSet => goto t SpanStatus (set_span s)
  | Some SpanStatus => match status s with Auto => goto t SpanLongLived s | _ => goto t Returned s end
  | Some SpanLongLived => if longLived s then goto t Starting s else goto t Returned s
  | Some Starting => goto t Returned (start_once s)
  end.

Inductive Action :=
| SetConfiguration (t : nat) (c : ProfilingEnabled)
| OnShortLivedEnds (t : nat)
| OnSpanCreated (t : nat)
| Run (t : nat).

Definition begin (t : nat) (p : Point) (s : State) : State :=
  match points s !! t with Some Returned => goto t p s | _ => s end.

Definition act (s : State) (a : Action) : State :=
  match a with
  | SetConfiguration t c => begin t (Configuring c) s
  | OnShortLivedEnds t => begin t TimerSet s
  | OnSpanCreated t => begin t SpanTest s
  | Run t => step t s
  end.

(** ** Queries *)

Definition IsProfilerEnabled (s : State) : bool :=
  match status s with ManuallyEnabled | Auto => true | _ => false end.

Definition IsProfilerStarted (s : State) : bool :=
  match status s with ManuallyEnabled => true | Auto => longLived s && hasSpan s | _ => false end.

Definition ShortLived : Z := 1.
Definition NoSpan : Z := 2.

Definition GetSkipProfileHeuristic (s : State) : Z :=
  Z.lor (if longLived s then 0 else ShortLived) (if hasSpan s then 0 else NoSpan).

(** ** Calls of [SetConfiguration] that overlap *)

Definition claiming (p : Point) : bool := match p with Claiming _ => true | _ => false end.

(** At most one call is between its test of the flag and setting it; without managed
    activation the configurations are ignored. *)
Definition one_claims (s : State) : bool :=
  negb (managedActivation s) || (length (filter (fun p => claiming p = true) (points s)) <=? 1)%nat.

Fixpoint serialised (s : State) (l : list Action) : bool :=
  one_claims s && match l with [] => true | a :: l => serialised (act s a) l end.

Lemma two_claims ps : forall t t' p p',
  ps !! t = Some p -> ps !! t' = Some p' -> claiming p = true -> claiming p' = true -> t <> t' ->
  (2 <= length (filter (fun p => claiming p = true) ps))%nat.
Proof.
  assert (forall ps t p, ps !! t = Some p -> claiming p = true ->
    (1 <= length (filter (fun p => claiming p = true) ps))%nat) as H1.
  { intros ps' t p Ht Hp. apply list_elem_of_lookup_2 in Ht.
    assert (p ∈ filter (fun p => claiming p = true) ps') as Hin by (by apply list_elem_of_filter).
    destruct (filter _ ps'); [by apply elem_of_nil in Hin|cbn; lia]. }
  induction ps as [|q ps IH]; intros [|t] [|t'] p p' Ht Ht' Hp Hp' Hne; cbn in Ht, Ht'; try done; rewrite filter_cons.
  - simplify_eq. rewrite decide_True by done. cbn. specialize (H1 ps t' p' Ht' Hp'). lia.
  - simplify_eq. rewrite decide_True by done. cbn. specialize (H1 ps t p Ht Hp). lia.
  - specialize (IH t t' p p' Ht Ht' Hp Hp' ltac:(congruence)). case_decide; cbn; lia.
Qed.

Lemma one_claims_spec s t t' p p' :
  one_claims s = true -> managedActivation s = true -> points s !! t = Some p -> points s !! t' = Some p' ->
  claiming p = true -> claiming p' = true -> t = t'.
Proof.
  unfold one_claims. intros H Hm Ht Ht' Hp Hp'. rewrite Hm in H. apply Nat.leb_le in H.
  destruct (decide (t = t')) as [|Hne]; [done|]. pose proof (two_claims _ _ _ _ _ Ht Ht' Hp Hp' Hne). lia.
Qed.

(** ** The invariant *)

(** The profiler is to be started by the manager, not when the process is created. *)
Definition due (s : State) : bool := IsProfilerStarted s && (managedActivation s || bool_decide (status s = Auto)).

(** The thread will find out that the profiler is due. *)
Definition will_start (s : State) (p : Point) : bool :=
  match p with
  | Propagating c => bool_decide (c = ProfilingAuto \/ c = ProfilingEnabledTrue)
  | StableTest => true
  | StableMark | StableStatus | Starting => true
  | StableLongLived | StableSpan | TimerStatus | TimerSpan | SpanStatus | SpanLongLived => bool_decide (status s = Auto)
  | _ => false
  end.

(** The call of [SetConfiguration] that is taken into account. *)
Definition configuring (p : Point) : bool :=
  match p with
  | SettingStatus _ | Propagating _ | StableTest | StableMark | StableStatus | StableLongLived | StableSpan => true
  | _ => false
  end.

(** What holds at a point of a thread. *)
Definition point_ok (s : State) (p : Point) : Prop :=
  match p with
  | Claiming _ => managedActivation s = true -> managedConfigurationSet s = false
  | SettingStatus _ => status s = Standby /\ stableConfigurationSet s = false
  | Propagating c => status s = status_of c /\ stableConfigurationSet s = false
  | StableTest | StableMark => (status s = Auto \/ status s = ManuallyEnabled) /\ stableConfigurationSet s = false
  | StableStatus => status s = Auto \/ status s = ManuallyEnabled
  | StableLongLived => status s = Auto
  | StableSpan | TimerSpan => status s = Auto /\ longLived s = true
  | TimerStatus => longLived s = true
  | SpanStatus => hasSpan s = true
  | SpanLongLived => status s = Auto /\ hasSpan s = true
  | Starting => due s = true
  | _ => True
  end.

Record inv (s : State) : Prop := {
  inv_points : forall t p, points s !! t = Some p -> point_ok s p;
  inv_conf : forall t p, points s !! t = Some p -> configuring p = true -> managedActivation s = true /\ managedConfigurationSet s = true;
  inv_one : forall t t' p p', points s !! t = Some p -> points s !! t' = Some p' -> configuring p = true -> configuring p' = true -> t = t';
  inv_standby : managedActivation s = true -> managedConfigurationSet s = false -> status s = Standby /\ stableConfigurationSet s = false;
  inv_once : (starts s <= 1)%nat;
  inv_sound : starts s <> 0%nat -> due s = true;
  inv_live : due s = true -> starts s <> 0%nat \/ exists t p, points s !! t = Some p /\ will_start s p = true
}.

Lemma due_cases s : due s = true -> (status s = ManuallyEnabled /\ managedActivation s = true) \/ (status s = Auto /\ longLived s = true /\ hasSpan s = true).
Proof.
  unfold due, IsProfilerStarted. intros [H1 H2]%andb_true_iff. destruct (status s); try done.
  - left. apply orb_true_iff in H2 as [H2|H2%bool_decide_eq_true]; done.
  - right. apply andb_true_iff in H1 as [? ?]. done.
Qed.

Lemma due_manual s : status s = ManuallyEnabled -> managedActivation s = true -> due s = true.
Proof. unfold due, IsProfilerStarted. by intros -> ->. Qed.

Lemma due_auto s : status s = Auto -> longLived s = true -> hasSpan s = true -> due s = true.
Proof. unfold due, IsProfilerStarted. intros -> -> ->. by rewrite bool_decide_true, orb_true_r. Qed.

Lemma lookup_goto t p s t' p' : points (goto t p s) !! t' = Some p' -> (t' = t /\ p' = p) \/ (t' <> t /\ points s !! t' = Some p').
Proof.
  cbn. destruct (decide (t' = t)) as [->|Hne]; [|rewrite list_lookup_insert_ne by done; auto].
  intros H. left. split; [done|]. apply list_lookup_insert_Some in H as [(_ & <- & _)|[? _]]; done.
Qed.

Section moves.
Context (s : State) (Hinv : inv s) (t : nat) (p : Point) (Ht : points s !! t = Some p).

(** The thread goes on and the fields stay. *)
Lemma inv_goto p' : point_ok s p' -> (configuring p' = true -> configuring p = true) ->
  (due s = true -> will_start s p = true -> starts s <> 0%nat \/ will_start s p' = true) -> inv (goto t p' s).
Proof.
  intros Hok Hc Hw. destruct Hinv as [Hp Hconf Hone Hst Honce Hsound Hlive].
  pose proof (lookup_lt_Some _ _ _ Ht) as Hlt. split; [| | |exact Hst|exact Honce|exact Hsound|].
  - intros t' q [[-> ->]|[_ H]]%lookup_goto; [exact Hok|exact (Hp _ _ H)].
  - intros t' q [[-> ->]|[_ H]]%lookup_goto Hq; [by eapply (Hconf t p), Hc|by eapply Hconf].
  - intros t1 t2 q1 q2 [[-> ->]|[N1 H1]]%lookup_goto [[-> ->]|[N2 H2]]%lookup_goto C1 C2; [done| | |by eapply Hone].
    + eapply Hone; [exact Ht|exact H2|auto|done].
    + eapply Hone; [exact H1|exact Ht|done|auto].
  - intros Hd. destruct (Hlive Hd) as [?|(t' & q & Hq & Hwq)]; [by left|].
    destruct (decide (t' = t)) as [->|Hne].
    + rewrite Ht in Hq. injection Hq as <-. destruct (Hw Hd Hwq) as [?|Hw']; [by left|]. right. exists t, p'.
      split; [cbn; by apply list_lookup_insert_eq|done].
    + right. exists t', q. split; [cbn; by rewrite list_lookup_insert_ne|done].
Qed.

(** The thread goes on with other fields; [s'] is the state before the thread moves. *)
Lemma inv_change s' p' : points s' = points s -> managedActivation s' = managedActivation s ->
  (managedConfigurationSet s = true -> managedConfigurationSet s' = true) ->
  point_ok s' p' -> (forall t' q, t' <> t -> points s !! t' = Some q -> point_ok s' q) ->
  (configuring p' = true -> managedActivation s = true /\ managedConfigurationSet s' = true /\
     forall t' q, t' <> t -> points s !! t' = Some q -> configuring q = false) ->
  (managedActivation s = true -> managedConfigurationSet s' = false -> status s' = Standby /\ stableConfigurationSet s' = false) ->
  (starts s' <= 1)%nat -> (starts s' <> 0%nat -> due s' = true) ->
  (due s' = true -> starts s' <> 0%nat \/ will_start s' p' = true \/
     exists t' q, t' <> t /\ points s !! t' = Some q /\ will_start s' q = true) ->
  inv (goto t p' s').
Proof.
  intros Ep Em Ec Hok Hothers Hc Hst Honce Hsound Hlive. destruct Hinv as [Hp Hconf Hone _ _ _ _].
  pose proof (lookup_lt_Some _ _ _ Ht) as Hlt.
  assert (forall t' q, points (goto t p' s') !! t' = Some q -> (t' = t /\ q = p') \/ (t' <> t /\ points s !! t' = Some q)) as Hl.
  { intros t' q H. apply lookup_goto in H. by rewrite Ep in H. }
  split.
  - intros t' q [[-> ->]|[Hne H]]%Hl; [exact Hok|]. exact (Hothers _ _ Hne H).
  - intros t' q [[-> ->]|[_ H]]%Hl Hq; cbn; rewrite Em.
    + destruct (Hc Hq) as (? & ? & _). done.
    + destruct (Hconf _ _ H Hq). auto.
  - intros t1 t2 q1 q2 [[-> ->]|[N1 H1]]%Hl [[-> ->]|[N2 H2]]%Hl C1 C2; [done| | |by eapply Hone].
    + destruct (Hc C1) as (_ & _ & Hn). rewrite (Hn _ _ N2 H2) in C2. done.
    + destruct (Hc C2) as (_ & _ & Hn). rewrite (Hn _ _ N1 H1) in C1. done.
  - cbn. rewrite Em. exact Hst.
  - exact Honce.
  - exact Hsound.
  - intros Hd. destruct (Hlive Hd) as [?|[Hw|(t' & q & Hne & Hq & Hw)]]; [by left| |]; right.
    + exists t, p'. split; [cbn; rewrite Ep; by apply list_lookup_insert_eq|done].
    + exists t', q. split; [cbn; rewrite Ep; by rewrite list_lookup_insert_ne|done].
Qed.

(** The other threads when this one is configuring. *)
Lemma others_idle t' q : configuring p = true -> t' <> t -> points s !! t' = Some q -> configuring q = false.
Proof.
  intros Hp Hne Hq. destruct (configuring q) eqn:E; [|done]. destruct Hne. by eapply (inv_one _ Hinv).
Qed.

(** A thread that will start, other than this one. *)
Lemma live_others : due s = true -> will_start s p = false ->
  starts s <> 0%nat \/ exists t' q, t' <> t /\ points s !! t' = Some q /\ will_start s q = true.
Proof.
  intros Hd Hw. destruct (inv_live _ Hinv Hd) as [?|(t' & q & Hq & Hwq)]; [by left|]. right. exists t', q.
  split_and!; [|done|done]. intros ->. congruence.
Qed.
End moves.

Lemma no_one_configuring s t p : inv s -> managedConfigurationSet s = false -> points s !! t = Some p -> configuring p = false.
Proof. intros Hi Hf Hp. destruct (configuring p) eqn:E; [|done]. destruct (inv_conf _ Hi _ _ Hp E). congruence. Qed.

Lemma claiming_step s t c :
  inv s -> one_claims s = true -> points s !! t = Some (Claiming c) -> inv (step t s).
Proof.
  intros Hi H1 Ht. unfold step. rewrite Ht. pose proof (inv_points _ Hi _ _ Ht) as Hok. cbn in Hok.
  assert (forall p', (p' = Returned \/ (p' = SettingStatus c /\ managedActivation s = true)) -> inv (goto t p' (set_configured s))) as H.
  { intros p' Hp'. eapply (inv_change s Hi t); [exact Ht|done|done|done| | | |done|apply Hi|exact (inv_sound _ Hi)|].
    - destruct Hp' as [->|[-> Hm]]; [done|]. exact (inv_standby _ Hi Hm (Hok Hm)).
    - intros t' q Hne Hq. pose proof (inv_points _ Hi _ _ Hq) as Hq'. destruct q; try exact Hq'. cbn. intros Hm.
      destruct Hne. by eapply (one_claims_spec s t' t).
    - intros Hc'. destruct Hp' as [->|[-> Hm]]; [done|]. split_and!; [done|done|]. intros t' q _ Hq.
      eapply no_one_configuring; eauto.
    - intros Hd. destruct (live_others s Hi t _ Ht Hd) as [?|?]; [done|by left|by right; right]. }
  destruct (managedActivation s) eqn:Em; apply H; auto.
Qed.

Lemma status_set_step s t c : inv s -> points s !! t = Some (SettingStatus c) -> inv (step t s).
Proof.
  intros Hi Ht. unfold step. rewrite Ht. pose proof (inv_points _ Hi _ _ Ht) as [Es Est].
  destruct (inv_conf _ Hi _ _ Ht eq_refl) as [Hm Hcf].
  assert (due s = false) as Hd.
  { destruct (due s) eqn:E; [|done]. apply due_cases in E. rewrite Es in E. naive_solver. }
  assert (starts s = 0%nat) as H0.
  { destruct (decide (starts s = 0%nat)) as [|Hn]; [done|]. apply (inv_sound _ Hi) in Hn. congruence. }
  eapply (inv_change s Hi t); [exact Ht|done|done|done|done| | | |apply Hi|done|].
  - intros t' q Hne Hq. pose proof (inv_points _ Hi _ _ Hq) as Hq'. pose proof (others_idle s Hi t _ Ht _ _ eq_refl Hne Hq) as Hcq.
    destruct q; cbn in *; try done; try congruence; destruct Hq' as [? ?]; congruence.
  - intros _. split_and!; [done|done|]. intros t' q Hne Hq. by eapply (others_idle s Hi t).
  - cbn. congruence.
  - intros Hd'. right. left. apply due_cases in Hd'. cbn in Hd'. unfold will_start.
    apply bool_decide_eq_true. destruct c; cbn in Hd'; naive_solver.
Qed.

Lemma mark_step s t : inv s -> points s !! t = Some StableMark -> inv (step t s).
Proof.
  intros Hi Ht. unfold step. rewrite Ht. pose proof (inv_points _ Hi _ _ Ht) as [Es Est].
  destruct (inv_conf _ Hi _ _ Ht eq_refl) as [Hm Hcf].
  eapply (inv_change s Hi t); [exact Ht|done|done|done|done| | | |apply Hi|exact (inv_sound _ Hi)|by right; left].
  - intros t' q Hne Hq. pose proof (inv_points _ Hi _ _ Hq) as Hq'. pose proof (others_idle s Hi t _ Ht _ _ eq_refl Hne Hq) as Hcq. by destruct q.
  - intros _. split_and!; [done|done|]. intros t' q Hne Hq. by eapply (others_idle s Hi t).
  - cbn. congruence.
Qed.

(** A flag that is set. *)
Lemma flag_step s s' t p p' : inv s -> points s !! t = Some p -> will_start s p = false -> configuring p' = false ->
  (s' = set_long s /\ p' = TimerStatus) \/ (s' = set_span s /\ p' = SpanStatus) -> inv (goto t p' s').
Proof.
  intros Hi Ht Hw Hc Hs'.
  assert (due s = true -> due s' = true) as Hmono.
  { intros [[Hs Hm]|(Hs & Hl & Hh)]%due_cases; [apply due_manual|apply due_auto]; destruct Hs' as [[-> _]|[-> _]]; done. }
  assert (status s' = status s /\ points s' = points s /\ starts s' = starts s /\ managedActivation s' = managedActivation s) as (E1 & E2 & E3 & E4)
    by (destruct Hs' as [[-> _]|[-> _]]; done).
  assert (forall q, will_start s' q = will_start s q) as Ew by (intros q; unfold will_start; by rewrite E1).
  eapply (inv_change s Hi t); [exact Ht|done|done| | | | | |rewrite E3; apply Hi| |].
  - by destruct Hs' as [[-> _]|[-> _]].
  - by destruct Hs' as [[-> ->]|[-> ->]].
  - intros t' q Hne Hq. pose proof (inv_points _ Hi _ _ Hq) as Hq'. destruct Hs' as [[-> _]|[-> _]]; destruct q; cbn in *; try done; naive_solver.
  - intros Hc'. congruence.
  - intros Hm Hcf. destruct Hs' as [[-> _]|[-> _]]; exact (inv_standby _ Hi Hm Hcf).
  - rewrite E3. intros Hn. by apply Hmono, (inv_sound _ Hi).
  - intros Hd. destruct (due s) eqn:Ed.
    + rewrite E3. destruct (live_others s Hi t _ Ht Ed Hw) as [?|(t' & q & Hne & Hq & Hwq)]; [by left|]. right; right.
      exists t', q. rewrite Ew. done.
    + right; left. destruct (due_cases _ Hd) as [[Hs Hm]|(Hs & _)].
      * rewrite E1 in Hs. rewrite E4 in Hm. rewrite (due_manual s Hs Hm) in Ed. done.
      * rewrite Ew. rewrite E1 in Hs. destruct Hs' as [[_ ->]|[_ ->]]; cbn; by apply bool_decide_eq_true.
Qed.

Lemma starting_step s t : inv s -> points s !! t = Some Starting -> inv (step t s).
Proof.
  intros Hi Ht. unfold step. rewrite Ht. pose proof (inv_points _ Hi _ _ Ht) as Hd.
  assert (starts (start_once s) = 1%nat) as E1 by (cbn; pose proof (inv_once _ Hi); destruct (starts s) as [|[|]]; lia).
  eapply (inv_change s Hi t); [exact Ht|done|done|done|done| |done| |lia|done|by left; rewrite E1].
  - intros t' q Hne Hq. exact (inv_points _ Hi _ _ Hq).
  - intros Hm Hcf. exact (inv_standby _ Hi Hm Hcf).
Qed.

Lemma start_step_inv s t : inv s -> one_claims s = true -> inv (step t s).
Proof.
  intros Hi H1. destruct (points s !! t) as [p|] eqn:Ht; [|unfold step; by rewrite Ht].
  pose proof (inv_points _ Hi _ _ Ht) as Hok. pose proof (inv_conf _ Hi _ _ Ht) as Hconf.
  destruct p as [|c|c|c|c| | | | | | | | | | | | |]; eauto using claiming_step, status_set_step, mark_step, starting_step;
    unfold step; rewrite Ht; cbn in Hok, Hconf.
  - done.
  - destruct (managedConfigurationSet s) eqn:Ec; (eapply (inv_goto s Hi); [exact Ht|by cbn|done|done]).
  - destruct Hok as [Es Est]. destruct c; (eapply (inv_goto s Hi); [exact Ht|cbn in *; auto|done|]); intros Hd Hw; try done; by right.
  - destruct Hok as [Es Est]. rewrite Est. eapply (inv_goto s Hi); [exact Ht|done|done|by right].
  - destruct (Hconf eq_refl) as [Hm _]. destruct Hok as [Es|Es]; rewrite Es.
    + eapply (inv_goto s Hi); [exact Ht|done|done|]. right. cbn. by apply bool_decide_eq_true.
    + eapply (inv_goto s Hi); [exact Ht|by apply due_manual|done|by right].
  - destruct (longLived s) eqn:El; (eapply (inv_goto s Hi); [exact Ht|done|done|]); intros Hd _.
    + right. cbn. by apply bool_decide_eq_true.
    + apply due_cases in Hd. naive_solver congruence.
  - destruct Hok as [Es El]. destruct (hasSpan s) eqn:Eh; (eapply (inv_goto s Hi); [exact Ht| |done|]); try done.
    + by apply due_auto.
    + by right.
    + intros Hd _. apply due_cases in Hd. naive_solver congruence.
  - by eapply flag_step; [done|exact Ht|done|done|left].
  - destruct (status s) eqn:Es; (eapply (inv_goto s Hi); [exact Ht|done|done|]); intros Hd Hw; cbn in Hw; try (by apply bool_decide_eq_true in Hw; congruence).
    right. cbn. by apply bool_decide_eq_true.
  - destruct Hok as [Es El]. destruct (hasSpan s) eqn:Eh; (eapply (inv_goto s Hi); [exact Ht| |done|]); try done.
    + by apply due_auto.
    + by right.
    + intros Hd _. apply due_cases in Hd. naive_solver congruence.
  - destruct (hasSpan s) eqn:Eh; eapply (inv_goto s Hi); done.
  - by eapply flag_step; [done|exact Ht|done|done|right].
  - destruct (status s) eqn:Es; (eapply (inv_goto s Hi); [exact Ht|done|done|]); intros Hd Hw; cbn in Hw; try (by apply bool_decide_eq_true in Hw; congruence).
    right. cbn. by apply bool_decide_eq_true.
  - destruct Hok as [Es Eh]. destruct (longLived s) eqn:El; (eapply (inv_goto s Hi); [exact Ht| |done|]); try done.
    + by apply due_auto.
    + by right.
    + intros Hd _. apply due_cases in Hd. naive_solver congruence.
Qed.

Lemma begin_inv s t p : inv s -> point_ok s p -> configuring p = false -> inv (begin t p s).
Proof.
  intros Hi Hok Hc. unfold begin. destruct (points s !! t) as [q|] eqn:Ht; [|done]. destruct q; try done.
  eapply (inv_goto s Hi); [exact Ht|done|congruence|done].
Qed.

Lemma act_inv s a : inv s -> one_claims s = true -> inv (act s a).
Proof. intros Hi H1. destruct a; cbn; [by apply begin_inv..|by apply start_step_inv]. Qed.

Lemma run_keeps_inv l : forall s, inv s -> serialised s l = true -> inv (foldl act s l).
Proof.
  induction l as [|a l IH]; intros s Hi Hs; [done|]. cbn [serialised foldl] in *.
  apply andb_true_iff in Hs as [H1 Hs]. apply IH; [by apply act_inv|done].
Qed.

(** Whatever the calls do, the profiler is started at most once. *)
Lemma act_once s a : (starts s <= 1)%nat -> (starts (act s a) <= 1)%nat /\ managedActivation (act s a) = managedActivation s.
Proof.
  intros H. destruct a; cbn; unfold begin, step; repeat case_match; cbn; try done. 
  all: split; [|done]; destruct (starts s); lia.
Qed.

Lemma run_once l : forall s, (starts s <= 1)%nat ->
  (starts (foldl act s l) <= 1)%nat /\ managedActivation (foldl act s l) = managedActivation s.
Proof.
  induction l as [|a l IH]; intros s H; [done|]. cbn. destruct (act_once s a H) as [H1 E1].
  destruct (IH _ H1) as [H2 E2]. split; [done|congruence].
Qed.

Lemma start_initial_inv managed env n : env <> Standby -> inv (initial managed env n).
Proof.
  intros He. assert (forall t p, points (initial managed env n) !! t = Some p -> p = Returned) as Hp.
  { intros t p H. cbn in H. by apply lookup_replicate_1 in H as [-> _]. }
  assert (due (initial managed env n) = false) as Hd.
  { destruct (due _) eqn:E; [|done]. apply due_cases in E. cbn in E. destruct managed; cbn in E; naive_solver. }
  split; [| | | |cbn; lia|by intros []|by rewrite Hd].
  - intros t p ->%Hp. done.
  - intros t p ->%Hp. done.
  - intros t t' p p' ->%Hp ->%Hp. done.
  - cbn. intros -> _. done.
Qed.

(** C18: In every interleaving of the threads that send configurations, end the short life of
    the process or create spans, the profiler is started at most once.  If no two calls of
    [SetConfiguration] are between the test of [_IsManagedConfigurationSet] and setting it at
    the same time (or configurations are ignored), it is never started when it is disabled
    or, in the mode "auto", before the process has lived long enough and created a span; and
    when all calls have returned, it has been started exactly when [IsProfilerStarted] says
    so, unless the environment enabled it from the beginning. *)
Theorem delayed_start_exact managed env n l : env <> Standby ->
  let s := foldl act (initial managed env n) l in
  (starts s <= 1)%nat /\
  (serialised (initial managed env n) l = true ->
   (starts s <> 0%nat -> IsProfilerStarted s = true) /\
   ((forall t p, points s !! t = Some p -> p = Returned) ->
     starts s = if IsProfilerStarted s && (managed || bool_decide (status s = Auto)) then 1%nat else 0%nat)).
Proof.
  intros He s. destruct (run_once l (initial managed env n) ltac:(cbn; lia)) as [Honce Hm].
  split; [exact Honce|]. intros Hser. pose proof (run_keeps_inv l _ (start_initial_inv managed env n He) Hser) as Hi.
  fold s in Hm, Hi. cbn in Hm. split.
  - intros H%(inv_sound _ Hi). unfold due in H. by apply andb_true_iff in H as [? _].
  - intros Hr. change (IsProfilerStarted s && _) with (IsProfilerStarted s && (managed || bool_decide (status s = Auto))). rewrite <- Hm.
    fold (due s). destruct (due s) eqn:Ed.
    + destruct (inv_live _ Hi Ed) as [Hn|(t & p & Hp & Hw)]; [pose proof (inv_once _ Hi); lia|].
      rewrite (Hr _ _ Hp) in Hw. done.
    + destruct (decide (starts s = 0%nat)) as [|Hn]; [done|]. apply (inv_sound _ Hi) in Hn. congruence.
Qed.

(** The span comes while the configuration is being sent, the timer ends first, and a second
    configuration comes too late. *)
Lemma delayed_start_exact_witness :
  let l := [OnShortLivedEnds 0; Run 0; Run 0; SetConfiguration 1 ProfilingAuto; Run 1; Run 1; OnSpanCreated 2; Run 2; Run 1; Run 1; Run 2;
            SetConfiguration 0 ProfilingDisabled; Run 0; Run 1; Run 2; Run 1; Run 1; Run 1; Run 2; Run 2; Run 1; Run 1] in
  let s := foldl act (initial true NotSet 3) l in
  (forall t p, points s !! t = Some p -> p = Returned) /\ IsProfilerStarted s = true /\ starts s = 1%nat.
Proof.
  intros l s. assert (forall t p, points s !! t = Some p -> p = Returned) as Hr.
  { intros [|[|[|t]]] p H; vm_compute in H; congruence. }
  destruct (delayed_start_exact true NotSet 3 l ltac:(done)) as (_ & H).
  destruct (H ltac:(vm_compute; reflexivity)) as [_ H']. specialize (H' Hr).
  split_and!; [exact Hr|vm_compute; reflexivity|]. fold s in H'. rewrite H'. vm_compute. reflexivity.
Defined.

(** Two configurations at once, both past the test: the profiler is started by the first and
    disabled by the second. *)
Example concurrent_configurations :
  let l := [SetConfiguration 0 ProfilingEnabledTrue; SetConfiguration 1 ProfilingDisabled; Run 0; Run 1;
            Run 0; Run 0; Run 0; Run 0; Run 0; Run 0; Run 0; Run 1; Run 1; Run 1] in
  let s := foldl act (initial true NotSet 2) l in
  points s = [Returned; Returned] /\ starts s = 1%nat /\ IsProfilerStarted s = false /\
  serialised (initial true NotSet 2) l = false.
Proof. vm_compute. done. Qed.
