(* ===== verification/ContentionSamples.v ===== *)
(** * Contentions and waits

    Model of [ContentionProvider.cpp]: the runtime tells when a thread was blocked by a lock,
    who held it, and when a thread begins and ends a wait; the provider measures the waits
    over the record of the thread ([ThreadInfo]), asks its group sampler ([Sampling]) whether
    to keep the contention, and adds a raw sample ([SampleExport]).

    What the stack collector, the list of threads and the profiling API answer are arguments
    of the calls.  A thread is an index into the records of the threads; timestamps are
    nanoseconds of one clock, whose differences do not overflow.  The metrics are left out. *)
From stdpp Require Import base gmap list strings.
From S2P Require Import Prelude TypeReferenceTree Sampling ThreadInfo PprofBuilder SampleExport.

Section contention.
Context `{Double}.

(** ** Data *)

(** [rawSample.ThreadInfo]. *)
Inductive ThreadRef := Managed (t : nat) | FrameworkThread (osThreadId : Z).

Record RawContentionSample := mkContention {
  Base : RawSample;
  SampleThread : ThreadRef;
  Bucket : string;
  BlockingThreadId : Z;
  BlockingThreadName : text;
  Type__ : ContentionType
}.

(** What the collector finds when the current thread walks its own stack. *)
Record Walk := mkWalk {
  frames : list Z;
  trace : TraceContext;
  walkDomain : option Z;
  now : Z;
  walkTags : list (string * string)
}.

(** What the list of threads and the runtime know of the thread of an event, and the room in
    a fresh call stack. *)
Record Lookup := mkLookup { found : option nat; threadDomain : option Z; capacity : Z }.

Record Env := mkEnv {
  CurrentThreadInfo : option nat;
  walk : Walk;
  lookup_ : Lookup;
  draw : double                  (* of the sampler *)
}.

Record State := mkState {
  threads : list ManagedThreadInfo;
  _samplerLock : GroupSampler (K := string);
  _samplerWait : GroupSampler (K := string);
  failureCount : Z;
  _samples : list RawContentionSample
}.

Definition new_ContentionProvider (sampleLimit uploadInterval : Z) (threads : list ManagedThreadInfo) : State :=
  mkState threads (new_GroupSampler sampleLimit uploadInterval true) (new_GroupSampler sampleLimit uploadInterval true) 0 [].

Definition set_threads (l : list ManagedThreadInfo) (s : State) : State :=
  mkState l (_samplerLock s) (_samplerWait s) (failureCount s) (_samples s).
Definition set_samplers (lock wait : GroupSampler) (s : State) : State :=
  mkState (threads s) lock wait (failureCount s) (_samples s).
Definition fail_walk (s : State) : State :=
  mkState (threads s) (_samplerLock s) (_samplerWait s) (u64 (failureCount s + 1)) (_samples s).
Definition Add (r : RawContentionSample) (s : State) : State :=
  mkState (threads s) (_samplerLock s) (_samplerWait s) (failureCount s) (_samples s ++ [r]).

Definition set_timing (f : Timing -> Timing) (i : ManagedThreadInfo) : ManagedThreadInfo :=
  mkThreadInfo (_profilerThreadInfoId i) (_clrThreadId i) (names i) (f (timing i)) (deadlocks i) (_isThreadDestroyed i)
    (ThreadInfo._traceContext i) (linux i) (_blockingThread i) (_objLock i).

(** The record of the current thread, if there is one. *)
Definition current_info (c : option nat) (s : State) : option (nat * ManagedThreadInfo) :=
  t ← c; i ← threads s !! t; Some (t, i).

(** ** Operations *)

Definition ms : Z := 1000000.

Definition GetBucket (contentionDuration : Z) : string :=
  if contentionDuration <? 10 * ms then "0 - 9 ms"
  else if contentionDuration <? 50 * ms then " 10 - 49 ms"
  else if contentionDuration <? 100 * ms then "50 - 99 ms"
  else if contentionDuration <? 500 * ms then "100 - 499 ms"
  else "+500 ms".

(** The identifier -1 of a call for the current thread, as a [uint32_t]. *)
Definition NoThreadId : Z := 2 ^ 32 - 1.

(** The base of the sample and its thread, when there is a stack; [true]: a failure is
    counted. *)
Definition contention_base (e : Env) (timestamp threadId contentionDuration : Z) (stack : list Z) (s : State)
    : RawSample * ThreadRef + bool :=
  if (timestamp =? 0) && (threadId =? NoThreadId) && bool_decide (stack = []) then
    match current_info (CurrentThreadInfo e) s with
    | None => inr false
    | Some (t, _) =>
        match frames (walk e) with
        | [] => inr true
        | fs => inl (mkRaw (now (walk e)) (GetAppDomainId (walkDomain (walk e))) (trace (walk e)) (walkTags (walk e)) fs
                       (RawContention contentionDuration), Managed t)
        end
    end
  else
    match stack with
    | [] => inr true
    | _ =>
        let nbFrames := Z.min (zlen stack) (capacity (lookup_ e)) in
        let '(thread, domain) :=
          match found (lookup_ e) with
          | Some t => (Managed t, default 0 (threadDomain (lookup_ e)))
          | None => (FrameworkThread threadId, 0)
          end in
        inl (mkRaw timestamp domain zero_context [] (take (Z.to_nat nbFrames) stack) (RawContention contentionDuration), thread)
    end.

Definition AddContentionSample (e : Env) (timestamp threadId : Z) (waitType : ContentionType) (contentionDuration : Z)
    (blockingThreadId : Z) (blockingThreadName : text) (stack : list Z) (s : State) : State :=
  let bucket := GetBucket contentionDuration in
  let '(sampler, sampled) := SampleGroup bucket (u64 contentionDuration) (draw e) (_samplerLock s) in
  let s := set_samplers sampler (_samplerWait s) s in
  if sampled : bool then
    match contention_base e timestamp threadId contentionDuration stack s with
    | inr failed => if failed : bool then fail_walk s else s
    | inl (base, thread) => Add (mkContention base thread bucket blockingThreadId blockingThreadName waitType) s
    end
  else s.

(** [OnContention] of the .NET Framework, whose events come later and from another thread. *)
Definition OnContentionFramework (e : Env) (timestamp threadId contentionDuration : Z) (stack : list Z) (s : State) : State :=
  AddContentionSample e timestamp threadId ContentionLock contentionDuration 0 [] stack s.

(** [holder]: the answer of [TryGetThreadInfo] for the thread that holds the lock. *)
Definition OnBlockingThread (current : option nat) (osThreadId : Z) (holder : option nat) (s : State) : State :=
  match current_info current s with
  | Some (t, i) =>
      if osThreadId =? 0 then s
      else match holder ≫= fun h => threads s !! h with
      | Some info => set_threads (<[t := (SetBlockingThread osThreadId (_threadName (names info)) i).1]> (threads s)) s
      | None => s
      end
  | None => s
  end.

Definition OnContention (e : Env) (contentionDuration : Z) (s : State) : State :=
  match current_info (CurrentThreadInfo e) s with
  | None => s
  | Some (t, i) =>
      let '(i, (blockingThreadId, blockingThreadName)) := SetBlockingThread 0 [] i in
      AddContentionSample e 0 NoThreadId ContentionLock contentionDuration blockingThreadId blockingThreadName []
        (set_threads (<[t := i]> (threads s)) s)
  end.

Definition OnWaitStart (current : option nat) (timestamp : Z) (s : State) : State :=
  match current_info current s with
  | None => s
  | Some (t, i) =>
      set_threads (<[t := set_timing (SetContentionType ContentionWait ∘ SetWaitStart timestamp) i]> (threads s)) s
  end.

Definition OnWaitStop (e : Env) (timestamp : Z) (s : State) : State :=
  match current_info (CurrentThreadInfo e) s with
  | None => s
  | Some (t, i) =>
      let waitStartTimestamp := _waitStartTimestamp (timing i) in
      if waitStartTimestamp =? 0 then s
      else
        let waitDuration := timestamp - waitStartTimestamp in
        if waitDuration <? 0 then s
        else
          AddContentionSample e 0 NoThreadId (_contentionType (timing i)) waitDuration 0 []
            [] (set_threads (<[t := set_timing (SetWaitStart 0) i]> (threads s)) s)
  end.

(** The groups of the labels "Duration bucket" and "Wait duration bucket". *)
Definition GetInfos (s : State) : State * (list (string * GroupInfo) * list (string * GroupInfo)) :=
  let '(lock, locks) := GetGroups (_samplerLock s) in
  let '(wait, waits) := GetGroups (_samplerWait s) in
  (set_samplers lock wait s, (locks, waits)).

(** ** Runs *)

Inductive Op :=
| OpBlocking (current : option nat) (osThreadId : Z) (holder : option nat)
| OpContention (e : Env) (contentionDuration : Z)
| OpFramework (e : Env) (timestamp threadId contentionDuration : Z) (stack : list Z)
| OpWaitStart (current : option nat) (timestamp : Z)
| OpWaitStop (e : Env) (timestamp : Z)
| OpGetInfos
| OpRollLock                     (* the window of [_samplerLock] ends *)
| OpRollWait.

Definition step (s : State) (o : Op) : State :=
  match o with
  | OpBlocking c id h => OnBlockingThread c id h s
  | OpContention e d => OnContention e d s
  | OpFramework e ts id d stack => OnContentionFramework e ts id d stack s
  | OpWaitStart c ts => OnWaitStart c ts s
  | OpWaitStop e ts => OnWaitStop e ts s
  | OpGetInfos => (GetInfos s).1
  | OpRollLock => set_samplers (roll (_samplerLock s)) (_samplerWait s) s
  | OpRollWait => set_samplers (_samplerLock s) (roll (_samplerWait s)) s
  end.

(** ** What is to be accounted for

    The history is read backwards, the last call first. *)
Section history.
Context (n : nat) (name : nat -> text).   (* the number of threads, their names *)

Definition is_current (c : option nat) (t : nat) : bool := bool_decide (c = Some t /\ (t < n)%nat).

(** The thread that holds the lock which [t] waits for: the last one told since the last
    contention of [t]. *)
Fixpoint blocker (t : nat) (hist : list Op) : Z * text :=
  match hist with
  | [] => (0, [])
  | OpBlocking c id (Some h) :: hist =>
      if is_current c t && negb (id =? 0) && bool_decide (h < n)%nat then (id, name h) else blocker t hist
  | OpContention e _ :: hist => if is_current (CurrentThreadInfo e) t then (0, []) else blocker t hist
  | _ :: hist => blocker t hist
  end.

(** When the wait of [t] that has not ended began; zero: there is none. *)
Fixpoint open_wait (t : nat) (hist : list Op) : Z :=
  match hist with
  | [] => 0
  | OpWaitStart c ts :: hist => if is_current c t then ts else open_wait t hist
  | OpWaitStop e ts :: hist =>
      let w := open_wait t hist in
      if is_current (CurrentThreadInfo e) t && (w <=? ts) then 0 else w
  | _ :: hist => open_wait t hist
  end.

Record Incident := mkIncident {
  kind : ContentionType;
  duration : Z;
  blocking : Z * text;
  origin : option (RawSample * ThreadRef)   (* with its stack, if there is one *)
}.

(** The sample of a contention of the current thread [t]. *)
Definition walked (t : nat) (d : Z) (w : Walk) : option (RawSample * ThreadRef) :=
  match frames w with
  | [] => None
  | fs => Some (mkRaw (now w) (default 0 (walkDomain w)) (trace w) (walkTags w) fs (RawContention d), Managed t)
  end.

(** The sample of a contention told by an event. *)
Definition told (timestamp threadId d : Z) (stack : list Z) (l : Lookup) : option (RawSample * ThreadRef) :=
  match stack with
  | [] => None
  | _ =>
      Some (mkRaw timestamp (match found l with Some _ => default 0 (threadDomain l) | None => 0 end) zero_context []
              (take (Z.to_nat (Z.min (zlen stack) (capacity l))) stack) (RawContention d),
            match found l with Some t => Managed t | None => FrameworkThread threadId end)
  end.

Definition current_thread (c : option nat) : option nat := t ← c; if decide (t < n)%nat then Some t else None.

Definition incident (hist : list Op) (o : Op) : option Incident :=
  match o with
  | OpContention e d =>
      t ← current_thread (CurrentThreadInfo e);
      Some (mkIncident ContentionLock d (blocker t hist) (walked t d (walk e)))
  | OpWaitStop e ts =>
      t ← current_thread (CurrentThreadInfo e);
      let w := open_wait t hist in
      if (w =? 0) || (ts <? w) then None
      else Some (mkIncident ContentionWait (ts - w) (0, []) (walked t (ts - w) (walk e)))
  | OpFramework e ts id d stack =>
      Some (mkIncident ContentionLock d (0, [])
        (if (ts =? 0) && (id =? NoThreadId) && bool_decide (stack = [])
         then current_thread (CurrentThreadInfo e) ≫= fun t => walked t d (walk e)
         else told ts id d stack (lookup_ e)))
  | _ => None
  end.

(** The contentions, with the ends of the windows and the harvests. *)
Inductive Entry := Happened (i : Incident) | WindowEnds | Harvest.

Definition entry (hist : list Op) (o : Op) : list Entry :=
  match o with
  | OpRollLock => [WindowEnds]
  | OpGetInfos => [Harvest]
  | _ => Happened <$> option_list (incident hist o)
  end.

Fixpoint entries (hist ops : list Op) : list Entry :=
  match ops with [] => [] | o :: ops => entry hist o ++ entries (o :: hist) ops end.

(** With the decision for each contention: the raw samples, the contentions since the last
    harvest, and that the first contention of a bucket in a window is kept. *)
Definition sample_of (i : Incident) : list RawContentionSample :=
  match origin i with
  | Some (base, thread) => [mkContention base thread (GetBucket (duration i)) (blocking i).1 (blocking i).2 (kind i)]
  | None => []
  end.

Fixpoint decided (es : list Entry) (flags : list bool) : option (list (Incident * bool)) :=
  match es, flags with
  | [], [] => Some []
  | Happened i :: es, f :: flags => l ← decided es flags; Some ((i, f) :: l)
  | WindowEnds :: es, _ | Harvest :: es, _ => decided es flags
  | _, _ => None
  end.

Definition kept_samples (l : list (Incident * bool)) : list RawContentionSample :=
  l ≫= fun '(i, f) => if f : bool then sample_of i else [].

Definition event_of (i : Incident) (f : bool) : event := (GetBucket (duration i), u64 (duration i), f).

Fixpoint since_harvest (es : list Entry) (flags : list bool) (log : list event) : list event :=
  match es, flags with
  | Happened i :: es, f :: flags => since_harvest es flags (log ++ [event_of i f])
  | WindowEnds :: es, _ => since_harvest es flags log
  | Harvest :: es, _ => since_harvest es flags []
  | _, _ => log
  end.

Fixpoint first_kept (es : list Entry) (flags : list bool) (seen : gset string) : Prop :=
  match es, flags with
  | Happened i :: es, f :: flags =>
      (GetBucket (duration i) ∉ seen -> f = true) /\ first_kept es flags ({[GetBucket (duration i)]} ∪ seen)
  | WindowEnds :: es, _ => first_kept es flags ∅
  | Harvest :: es, _ => first_kept es flags seen
  | _, _ => True
  end.
End history.

(** ** The provider accounts for them *)
Section account.
Context (n : nat) (name : nat -> text).

Definition thread_ok (hist : list Op) (t : nat) (i : ManagedThreadInfo) : Prop :=
  _threadName (names i) = name t /\ _blockingThread i = blocker n name t hist /\
  _waitStartTimestamp (timing i) = open_wait n t hist /\
  (_waitStartTimestamp (timing i) <> 0 -> _contentionType (timing i) = ContentionWait).

Record inv (hist : list Op) (s : State) (log : list event) (seen : gset string) : Prop := {
  inv_length : length (threads s) = n;
  inv_threads : forall t i, threads s !! t = Some i -> thread_ok hist t i;
  inv_lock : group_inv (_samplerLock s, log, seen);
  inv_keep : _keepAtLeastOne (_samplerLock s) = true;
  inv_wait : _groups (_samplerWait s) = ∅
}.

Lemma current_info_thread c s : length (threads s) = n ->
  match current_info c s with
  | Some (t, i) => current_thread n c = Some t /\ threads s !! t = Some i
  | None => current_thread n c = None
  end.
Proof.
  intros Hn. unfold current_info, current_thread. destruct c as [t|]; [|done]. cbn.
  destruct (threads s !! t) as [i|] eqn:E; cbn.
  - split; [|done]. rewrite decide_True; [done|]. rewrite <- Hn. by eapply lookup_lt_Some.
  - apply lookup_ge_None in E. rewrite decide_False; [done|lia].
Qed.

Lemma is_current_thread c t : is_current n c t = bool_decide (current_thread n c = Some t).
Proof.
  unfold is_current, current_thread. apply bool_decide_ext. destruct c as [t'|]; cbn; [|split; [by intros [? _]|done]].
  case_decide; split; [by intros [? _]|intros [= ->]; done|intros [[= ->] ?]; done|done].
Qed.

(** The sample of the base that was found. *)
Definition sample_with (bucket : string) (id : Z) (blockingName : text) (ty : ContentionType)
    (o : option (RawSample * ThreadRef)) : list RawContentionSample :=
  match o with Some (base, thread) => [mkContention base thread bucket id blockingName ty] | None => [] end.

Definition base_of (r : RawSample * ThreadRef + bool) : option (RawSample * ThreadRef) :=
  match r with inl b => Some b | inr _ => None end.

Lemma contention_base_origin e ts id d stack s : length (threads s) = n ->
  base_of (contention_base e ts id d stack s) =
    if (ts =? 0) && (id =? NoThreadId) && bool_decide (stack = [])
    then current_thread n (CurrentThreadInfo e) ≫= fun t => walked t d (walk e)
    else told ts id d stack (lookup_ e).
Proof.
  intros Hn. unfold contention_base. destruct (_ && _).
  - pose proof (current_info_thread (CurrentThreadInfo e) s Hn) as Hc. destruct (current_info _ s) as [[t i]|].
    + destruct Hc as [-> _]. cbn. unfold walked. by destruct (frames (walk e)).
    + by rewrite Hc.
  - unfold told. destruct stack as [|x stack]; [done|]. by destruct (found (lookup_ e)).
Qed.

Lemma AddContentionSample_effect e ts id ty d bid bname stack s log seen :
  group_inv (_samplerLock s, log, seen) -> _keepAtLeastOne (_samplerLock s) = true ->
  let s' := AddContentionSample e ts id ty d bid bname stack s in
  exists f : bool,
    group_inv (_samplerLock s', log ++ [(GetBucket d, u64 d, f)], {[GetBucket d]} ∪ seen) /\
    _keepAtLeastOne (_samplerLock s') = true /\ threads s' = threads s /\ _samplerWait s' = _samplerWait s /\
    (GetBucket d ∉ seen -> f = true) /\
    _samples s' = _samples s ++ if f then sample_with (GetBucket d) bid bname ty (base_of (contention_base e ts id d stack s)) else [].
Proof.
  intros Hg Hk. pose proof (group_step_inv (OpSample (GetBucket d) (u64 d) (draw e)) _ (wrap_range 64 d ltac:(lia)) Hg) as Hg'.
  pose proof (SampleGroup_known (GetBucket d) (u64 d) (draw e) (_samplerLock s)) as HK. pose proof (gi_known _ Hg) as Hkn. cbn [fst snd] in Hkn.
  unfold AddContentionSample. cbn [group_step] in Hg'. destruct (SampleGroup _ _ _ _) as [sampler f]. destruct HK as (_ & Hk' & _ & Hf).
  rewrite Hk in Hk'. rewrite Hkn in Hf. exists f.
  assert (contention_base e ts id d stack (set_samplers sampler (_samplerWait s) s) = contention_base e ts id d stack s) as -> by done.
  destruct f; [destruct (contention_base e ts id d stack s) as [[base thread]|[]]|]; cbn; rewrite ?app_nil_r; split_and!; auto.
Qed.

(** What a call does to the invariant, by what it has to account for. *)
Definition advances (hist : list Op) (s : State) (log : list event) (seen : gset string) (o : Op) : Prop :=
  match entry n name hist o with
  | [] => inv (o :: hist) (step s o) log seen /\ _samples (step s o) = _samples s
  | [Happened i] => exists f : bool,
      inv (o :: hist) (step s o) (log ++ [event_of i f]) ({[GetBucket (duration i)]} ∪ seen) /\
      (GetBucket (duration i) ∉ seen -> f = true) /\ _samples (step s o) = _samples s ++ if f then sample_of i else []
  | [WindowEnds] => inv (o :: hist) (step s o) log ∅ /\ _samples (step s o) = _samples s
  | [Harvest] => inv (o :: hist) (step s o) [] seen /\ _samples (step s o) = _samples s
  | _ => False
  end.


(** A call changes the record of the current thread only. *)
Definition op_current (o : Op) : option nat :=
  match o with
  | OpBlocking c _ _ | OpWaitStart c _ => c
  | OpContention e _ | OpWaitStop e _ => CurrentThreadInfo e
  | _ => None
  end.

Lemma other_thread o hist t i : current_thread n (op_current o) <> Some t -> thread_ok hist t i -> thread_ok (o :: hist) t i.
Proof.
  intros Ho. assert (is_current n (op_current o) t = false) as Hc by (rewrite is_current_thread; by apply bool_decide_eq_false).
  unfold thread_ok. destruct o as [c id [h|]|e d| | |e ts| | |]; cbn [op_current blocker open_wait] in *; rewrite ?Hc; cbn [andb]; auto.
Qed.

Lemma threads_kept o hist s : (forall t i, threads s !! t = Some i -> thread_ok hist t i) -> current_thread n (op_current o) = None ->
  forall t i, threads s !! t = Some i -> thread_ok (o :: hist) t i.
Proof. intros Ht Ho t i Hi. apply other_thread; [by rewrite Ho|auto]. Qed.

Lemma threads_updated o hist s t i i' : (forall t i, threads s !! t = Some i -> thread_ok hist t i) ->
  current_thread n (op_current o) = Some t -> threads s !! t = Some i -> thread_ok (o :: hist) t i' ->
  forall t' j, <[t := i']> (threads s) !! t' = Some j -> thread_ok (o :: hist) t' j.
Proof.
  intros Ht Ho Hi Hok t' j Hj. destruct (decide (t' = t)) as [->|Hne].
  - rewrite list_lookup_insert_eq in Hj by (by eapply lookup_lt_Some). by simplify_eq.
  - rewrite list_lookup_insert_ne in Hj by done. apply other_thread; [rewrite Ho; congruence|auto].
Qed.

(** A call that changes no record, or one. *)
Lemma inv_updated o hist s log seen t i i' : inv hist s log seen -> current_thread n (op_current o) = Some t ->
  threads s !! t = Some i -> thread_ok (o :: hist) t i' -> inv (o :: hist) (set_threads (<[t := i']> (threads s)) s) log seen.
Proof.
  intros [Hn Ht Hl Hk Hw] Ho Hi Hok. split; cbn; [by rewrite length_insert| |done..]. by eapply threads_updated.
Qed.

Lemma inv_same o hist s log seen : inv hist s log seen ->
  (forall t i, current_thread n (op_current o) = Some t -> threads s !! t = Some i -> thread_ok (o :: hist) t i) ->
  inv (o :: hist) s log seen.
Proof.
  intros [Hn Ht Hl Hk Hw] Ho. split; [done| |done..]. intros t i Hi.
  destruct (decide (current_thread n (op_current o) = Some t)); [by apply Ho|by apply other_thread; [|apply Ht]].
Qed.

(** A contention is sampled after the records have been updated. *)
Lemma inv_added o hist s log seen e ts id ty d b stack i :
  inv (o :: hist) s log seen ->
  duration i = d -> blocking i = b -> kind i = ty -> origin i = base_of (contention_base e ts id d stack s) ->
  let s' := AddContentionSample e ts id ty d b.1 b.2 stack s in
  exists f : bool, inv (o :: hist) s' (log ++ [event_of i f]) ({[GetBucket (duration i)]} ∪ seen) /\
    (GetBucket (duration i) ∉ seen -> f = true) /\ _samples s' = _samples s ++ if f then sample_of i else [].
Proof.
  intros [Hn Ht Hl Hk Hw] Ed Eb Ek Eo. cbn.
  destruct (AddContentionSample_effect e ts id ty d b.1 b.2 stack s log seen Hl Hk) as (f & Hg & Hk' & Hth & Hwt & Hf & Hs).
  exists f. unfold event_of, sample_of. rewrite Ed, Eb, Ek, Eo. split_and!; [|done|exact Hs].
  split; rewrite ?Hth, ?Hwt; auto.
Qed.

Lemma is_current_self c t : current_thread n c = Some t -> is_current n c t = true.
Proof. intros Hc. rewrite is_current_thread. by apply bool_decide_eq_true. Qed.

Lemma advances_blocking hist s log seen c id h : inv hist s log seen -> advances hist s log seen (OpBlocking c id h).
Proof.
  intros Hi. unfold advances. cbn [entry incident option_list fmap list_fmap step]. unfold OnBlockingThread.
  pose proof (current_info_thread c s (inv_length _ _ _ _ Hi)) as Hc. destruct (current_info c s) as [[t i]|].
  - destruct Hc as [Hc Ht]. pose proof (inv_threads _ _ _ _ Hi _ _ Ht) as (Hnm & Hb & Hw & Hty).
    destruct (id =? 0) eqn:Eid; [|destruct h as [h|]; cbn [mbind option_bind]; [destruct (threads s !! h) as [info|] eqn:Eh|]]; split; try done.
    + apply inv_same; [done|]. intros t' i' Hc' Hi'. cbn [op_current] in Hc'. simplify_eq. unfold thread_ok.
      destruct h as [h|]; cbn [blocker open_wait]; [by rewrite Eid, andb_false_r|done].
    + apply (inv_updated (OpBlocking c id (Some h)) hist s log seen t i); [done..|]. unfold thread_ok. cbn [blocker open_wait].
      rewrite (is_current_self c t Hc), Eid, bool_decide_eq_true_2 by (rewrite <- (inv_length _ _ _ _ Hi); by eapply lookup_lt_Some). cbn.
      split_and!; [done| |done|done]. by rewrite (proj1 (inv_threads _ _ _ _ Hi _ _ Eh)).
    + apply inv_same; [done|]. intros t' i' Hc' Hi'. cbn [op_current] in Hc'. simplify_eq. unfold thread_ok. cbn [blocker open_wait].
      apply lookup_ge_None in Eh. rewrite (inv_length _ _ _ _ Hi) in Eh. rewrite (bool_decide_eq_false_2 (h < n)%nat) by lia.
      by rewrite andb_false_r.
    + apply inv_same; [done|]. intros t' i' Hc' Hi'. cbn [op_current] in Hc'. by simplify_eq; unfold thread_ok.
  - split; [|done]. apply inv_same; [done|]. cbn [op_current]. intros t' i' Hc'. congruence.
Qed.

Lemma advances_wait_start hist s log seen c ts : inv hist s log seen -> advances hist s log seen (OpWaitStart c ts).
Proof.
  intros Hi. unfold advances. cbn [entry incident option_list fmap list_fmap step]. unfold OnWaitStart.
  pose proof (current_info_thread c s (inv_length _ _ _ _ Hi)) as Hc. destruct (current_info c s) as [[t i]|]; split; try done.
  - destruct Hc as [Hc Ht]. pose proof (inv_threads _ _ _ _ Hi _ _ Ht) as (Hnm & Hb & _ & _).
    apply (inv_updated (OpWaitStart c ts) hist s log seen t i); [done..|]. unfold thread_ok. cbn [blocker open_wait].
    by rewrite (is_current_self c t Hc).
  - apply inv_same; [done|]. cbn [op_current]. intros t' i' Hc'. congruence.
Qed.

(** The origin of a contention of the current thread. *)
Lemma current_origin e t d s : length (threads s) = n -> current_thread n (CurrentThreadInfo e) = Some t ->
  walked t d (walk e) = base_of (contention_base e 0 NoThreadId d [] s).
Proof. intros Hn Hc. rewrite contention_base_origin by done. cbn. by rewrite Hc. Qed.

Lemma advances_contention hist s log seen e d : inv hist s log seen -> advances hist s log seen (OpContention e d).
Proof.
  intros Hi. unfold advances. cbn [entry incident step]. unfold OnContention.
  pose proof (current_info_thread (CurrentThreadInfo e) s (inv_length _ _ _ _ Hi)) as Hc. destruct (current_info _ s) as [[t i]|].
  - destruct Hc as [Hc Ht]. pose proof (inv_threads _ _ _ _ Hi _ _ Ht) as (Hnm & Hb & Hw & Hty).
    rewrite Hc. cbn [mbind option_bind option_list fmap list_fmap]. unfold SetBlockingThread. destruct (_blockingThread i) as [bid bname] eqn:Eb.
    match goal with |- context [<[t := ?x]> _] => set (i' := x) end. assert (inv (OpContention e d :: hist) (set_threads (<[t := i']> (threads s)) s) log seen) as Hi'.
    { apply (inv_updated (OpContention e d) hist s log seen t i); [done..|]. unfold thread_ok. cbn [blocker open_wait].
      by rewrite (is_current_self _ t Hc). }
    apply (inv_added (OpContention e d) hist _ log seen e 0 NoThreadId ContentionLock d (bid, bname) []
      (mkIncident ContentionLock d (blocker n name t hist) (walked t d (walk e))) Hi'); [done|done|done|].
    apply current_origin; [apply Hi'|done].
  - rewrite Hc. split; [|done]. apply inv_same; [done|]. cbn [op_current]. intros t' i' Hc'. congruence.
Qed.

Lemma advances_wait_stop hist s log seen e ts : inv hist s log seen -> advances hist s log seen (OpWaitStop e ts).
Proof.
  intros Hi. unfold advances. cbn [entry incident step]. unfold OnWaitStop.
  pose proof (current_info_thread (CurrentThreadInfo e) s (inv_length _ _ _ _ Hi)) as Hc. destruct (current_info _ s) as [[t i]|].
  - destruct Hc as [Hc Ht]. pose proof (inv_threads _ _ _ _ Hi _ _ Ht) as (Hnm & Hb & Hw & Hty). rewrite Hc. cbn [mbind option_bind].
    rewrite <- Hw. destruct (_waitStartTimestamp (timing i) =? 0) eqn:E0; cbn [orb option_list fmap list_fmap].
    { split; [|done]. apply inv_same; [done|]. cbn [op_current]. intros t' i' Hc' Hi'. simplify_eq. unfold thread_ok. cbn [blocker open_wait].
      apply Z.eqb_eq in E0. rewrite <- Hw, E0 in *. split_and!; [done..| |done]. by destruct (_ && _). }
    apply Z.eqb_neq in E0. destruct (ts <? _waitStartTimestamp (timing i)) eqn:Ets; bool_facts.
    + rewrite (proj2 (Z.ltb_lt _ _)) by lia. split; [|done]. apply inv_same; [done|]. cbn [op_current]. intros t' i' Hc' Hi'. simplify_eq.
      unfold thread_ok. cbn [blocker open_wait]. rewrite <- Hw, (proj2 (Z.leb_gt _ _)) by lia. by rewrite andb_false_r.
    + rewrite (proj2 (Z.ltb_ge _ _)) by lia. match goal with |- context [<[t := ?x]> _] => set (i' := x) end.
      assert (inv (OpWaitStop e ts :: hist) (set_threads (<[t := i']> (threads s)) s) log seen) as Hi'.
      { apply (inv_updated (OpWaitStop e ts) hist s log seen t i); [done..|]. unfold thread_ok. cbn [blocker open_wait].
        rewrite (is_current_self _ t Hc), <- Hw, (proj2 (Z.leb_le _ _)) by lia. by cbn. }
      rewrite (Hty E0). cbn [option_list fmap list_fmap].
      apply (inv_added (OpWaitStop e ts) hist _ log seen e 0 NoThreadId ContentionWait _ (0, []) []
        (mkIncident ContentionWait (ts - _waitStartTimestamp (timing i)) (0, []) (walked t (ts - _waitStartTimestamp (timing i)) (walk e))) Hi'); [done..|].
      apply current_origin; [apply Hi'|done].
  - rewrite Hc. split; [|done]. apply inv_same; [done|]. cbn [op_current]. intros t' i' Hc'. congruence.
Qed.

Lemma advances_framework hist s log seen e ts id d stack : inv hist s log seen -> advances hist s log seen (OpFramework e ts id d stack).
Proof.
  intros Hi. unfold advances. cbn [entry incident option_list fmap list_fmap step]. unfold OnContentionFramework.
  assert (inv (OpFramework e ts id d stack :: hist) s log seen) as Hi' by (by apply inv_same).
  apply (inv_added (OpFramework e ts id d stack) hist s log seen e ts id ContentionLock d (0, []) stack
    (mkIncident ContentionLock d (0, []) _) Hi'); [done..|]. cbn. by rewrite contention_base_origin by apply Hi.
Qed.

(** The samplers alone change. *)
Lemma inv_samplers o hist s lock wait log log' seen seen' : inv hist s log seen -> op_current o = None ->
  group_inv (lock, log', seen') -> _keepAtLeastOne lock = true -> _groups wait = ∅ ->
  inv (o :: hist) (set_samplers lock wait s) log' seen'.
Proof.
  intros Hi Ho Hl Hk Hw. split; cbn; [apply Hi| |done..]. apply threads_kept; [apply Hi|by rewrite Ho].
Qed.

Lemma roll_keeps (s : GroupSampler (K := string)) : _keepAtLeastOne (roll s) = _keepAtLeastOne s /\ _groups (roll s) = _groups s.
Proof. unfold roll. by destruct (RollWindow _) as [? []]. Qed.

Lemma advances_step hist s log seen o : inv hist s log seen -> advances hist s log seen o.
Proof.
  intros Hi. pose proof (inv_lock _ _ _ _ Hi) as Hl. pose proof (inv_keep _ _ _ _ Hi) as Hk. pose proof (inv_wait _ _ _ _ Hi) as Hw.
  destruct o; auto using advances_blocking, advances_contention, advances_framework, advances_wait_start, advances_wait_stop;
    unfold advances; cbn [entry step]; (split; [|done]).
  - apply (inv_samplers OpGetInfos hist s _ _ log [] seen seen Hi); [done|exact (group_step_inv OpGet _ I Hl)|done|].
    cbn. by rewrite Hw, fmap_empty.
  - apply (inv_samplers OpRollLock hist s _ _ log log seen ∅ Hi); [done|exact (group_step_inv OpRoll _ I Hl)| |done].
    by rewrite (proj1 (roll_keeps _)).
  - apply (inv_samplers OpRollWait hist s _ _ log log seen seen Hi); [done..|]. by rewrite (proj2 (roll_keeps _)).
Qed.

Lemma run_accounts ops : forall hist s log seen, inv hist s log seen ->
  exists flags l seen', decided (entries n name hist ops) flags = Some l /\
    _samples (foldl step s ops) = _samples s ++ kept_samples l /\
    first_kept (entries n name hist ops) flags seen /\
    inv (rev ops ++ hist) (foldl step s ops) (since_harvest (entries n name hist ops) flags log) seen'.
Proof.
  induction ops as [|o ops IH]; intros hist s log seen Hi; cbn [entries foldl rev].
  { exists [], [], seen. cbn. by rewrite app_nil_r. }
  rewrite <- app_assoc. cbn [app]. pose proof (advances_step hist s log seen o Hi) as Ha. unfold advances in Ha.
  destruct (entry n name hist o) as [|[i| |] [|]]; try done; cbn [app].
  - destruct Ha as [Hi' Hs]. rewrite <- Hs. by eapply IH.
  - destruct Ha as (f & Hi' & Hf & Hs). destruct (IH _ _ _ _ Hi') as (flags & l & seen' & Hd & Hs' & Hf' & Hi2).
    exists (f :: flags), ((i, f) :: l), seen'. cbn [decided first_kept since_harvest]. rewrite Hd, Hs', Hs. split_and!; [done| |done|done|done].
    cbn. by rewrite <- app_assoc.
  - destruct Ha as [Hi' Hs]. rewrite <- Hs. destruct (IH _ _ _ _ Hi') as (flags & l & seen' & ?). by exists flags, l, seen'.
  - destruct Ha as [Hi' Hs]. rewrite <- Hs. destruct (IH _ _ _ _ Hi') as (flags & l & seen' & ?). by exists flags, l, seen'.
Qed.
End account.

(** ** The property *)

(** A thread that has just been registered: its identifiers and its name. *)
Definition fresh_thread (r : Z * Z * Z * Z * text) : ManagedThreadInfo :=
  let '(id, clrThreadId, osThreadId, osThreadHandle, name) := r in new_ManagedThreadInfo id clrThreadId osThreadId osThreadHandle name.

Lemma fresh_inv limit interval rs :
  inv (length rs) (fun t => default [] (snd <$> rs !! t)) [] (new_ContentionProvider limit interval (fresh_thread <$> rs)) [] ∅.
Proof.
  split; cbn; [by rewrite length_fmap| |apply new_group_inv|done|done].
  intros t i Hi. rewrite list_lookup_fmap in Hi. destruct (rs !! t) as [[[[[? ?] ?] ?] ?]|] eqn:E; cbn in Hi; [|done].
  injection Hi as <-. unfold thread_ok. by rewrite E.
Qed.

(** C4: For every sequence of blocked threads, contentions, beginnings and ends of waits in
    any threads, of events of the .NET Framework, ends of sampling windows and harvests,
    there is a decision for each contention, such that the samples are those of the kept
    contentions with a stack, in order, each with its duration (of a wait, from the last
    beginning told for this thread), its bucket and the thread told to block it since its
    last contention; the first contention of a bucket in a window is kept; and a harvest
    tells of each bucket the number and the total duration of the contentions since the last
    harvest, and of the kept ones.  The groups of the waits are always empty. *)
Theorem contentions_accounted limit interval rs ops :
  let s := foldl step (new_ContentionProvider limit interval (fresh_thread <$> rs)) ops in
  let es := entries (length rs) (fun t => default [] (snd <$> rs !! t)) [] ops in
  exists flags l, decided es flags = Some l /\
    _samples s = kept_samples l /\
    first_kept es flags ∅ /\
    (forall b i, (b, i) ∈ (GetInfos s).2.1 <-> i = tally b (since_harvest es flags []) /\ 0 < SampledCount i) /\
    (GetInfos s).2.2 = [].
Proof.
  intros s es. destruct (run_accounts _ _ ops _ _ _ _ (fresh_inv limit interval rs)) as (flags & l & seen & Hd & Hs & Hf & Hi).
  exists flags, l. split_and!; [done|done|done| |].
  - intros b i. pose proof (gi_info _ (inv_lock _ _ _ _ _ _ Hi) b) as Hg. cbn [fst snd] in Hg. fold s in Hg. fold es in Hg. unfold info_of in Hg.
    cbn [GetInfos GetGroups snd fst]. rewrite list_elem_of_filter, elem_of_map_to_list. cbn [snd]. rewrite <- Hg.
    destruct (_groups (_samplerLock s) !! b) as [i'|]; cbn [default from_option id]; split.
    + intros [? [= ->]]. done.
    + intros [-> ?]. done.
    + by intros [_ ?].
    + intros [-> ?]. cbn in *. lia.
  - cbn [GetInfos GetGroups snd]. pose proof (inv_wait _ _ _ _ _ _ Hi) as Hw. fold s in Hw. by rewrite Hw, map_to_list_empty.
Qed.
End contention.

(** ** Examples *)
Module Example_contention.
#[local] Existing Instance exact_double.

Definition walk (fs : list Z) : Walk := mkWalk fs zero_context None 99 [].
Definition env (t : nat) (fs : list Z) : Env := mkEnv (Some t) (walk fs) (mkLookup None None 0) (of_int 0).
Definition threads : list ManagedThreadInfo := [fresh_thread (1, 0, 10, 0, []); fresh_thread (2, 0, 11, 0, [65])].
Definition provider : State := new_ContentionProvider 10 60 threads.

(** Thread 0 waits for 20 ms, then is blocked by thread 1 for 5 ms. *)
Example wait_and_lock :
  (fun r => (Bucket r, Type__ r, Data (Base r), BlockingThreadId r, BlockingThreadName r)) <$>
    _samples (foldl step provider
      [OpWaitStart (Some 0%nat) 1000; OpBlocking (Some 0%nat) 11 (Some 1%nat); OpWaitStop (env 0 [7]) (1000 + 20 * ms);
       OpContention (env 0 [7]) (5 * ms); OpWaitStop (env 0 [7]) (1000 + 50 * ms)]) =
  [(" 10 - 49 ms", ContentionWait, RawContention (20 * ms), 0, []); ("0 - 9 ms", ContentionLock, RawContention (5 * ms), 11, [65])].
Proof. vm_compute. reflexivity. Qed.

(** A contention whose stack is not found counts as sampled. *)
Example lost_contention :
  let s := step provider (OpContention (env 0 []) ms) in
  _samples s = [] /\ (GetInfos s).2.1 = [("0 - 9 ms", mkInfo 1 1 ms ms)].
Proof. vm_compute. done. Qed.

(** The end of a wait that is earlier than its beginning does not end it. *)
Example wait_not_ended :
  (Data ∘ Base) <$> _samples (foldl step provider
    [OpWaitStart (Some 0%nat) 1000; OpWaitStop (env 0 [7]) 900; OpWaitStop (env 0 [7]) 1400]) = [RawContention 400].
Proof. vm_compute. reflexivity. Qed.
End Example_contention.
