(* ===== verification/AllocationSamples.v ===== *)
(** * Allocations

    Model of [AllocationsProvider.cpp]: the runtime tells of one allocation in about 100 KB;
    the provider asks its sampler ([Sampling]), walks the stack of the current thread or
    takes the one of the event, adds a raw sample ([SampleExport]) and tells the provider of
    live objects ([LiveObjects]) of it.

    What the stack collector, the list of threads, the frame store and the profiling API
    answer are arguments.  The metrics are left out. *)
From stdpp Require Import base gmap functions list strings.
From S2P Require Import Prelude TypeReferenceTree Sampling ThreadInfo PprofBuilder SampleExport ContentionSamples.

(** ** Failed walks *)

(** The counter of failures is a static variable of each function; [period] is how often
    they are logged. *)
Definition walk_failed (period : Z) (frames : list Z) (failureCount : Z) : bool * Z :=
  if bool_decide (frames = []) && (failureCount mod period =? 0) then (true, u64 (failureCount + 1)) else (false, failureCount).

(** ** AllocationsProvider *)

(** [OnAllocation] (AllocationTick), [OnAllocationSampled], and [OnAllocation] of the .NET
    Framework. *)
Inductive Kind := Tick | Sampled | Framework.

#[export] Instance Kind_eq_dec : EqDecision Kind.
Proof. solve_decision. Defined.

Record RawAllocationSample := mkAllocation {
  AllocationBase : RawSample;
  AllocationThread : ThreadRef;
  Address : Z;
  MethodTable : Z
}.

Record AllocationsConfig := mkAllocationsConfig {
  _shouldSubSample : bool;
  _sampleLimit : Z;
  _addTypeAsLeaf : bool;
  _pListener : bool              (* there is one *)
}.

Section allocations.
Context `{Double} (GetTypeName : Z -> option string) (cfg : AllocationsConfig).

Record AllocationsProvider := mkAllocations {
  _allocationSampler : AdaptiveSampler;
  failures : Kind -> Z;
  _allocationSamples : list RawAllocationSample;
  listened : list RawAllocationSample
}.

Definition new_AllocationsProvider (sampleLimit uploadInterval : Z) : AllocationsProvider :=
  mkAllocations (new_GenericSampler sampleLimit uploadInterval) (fun _ => 0) [] [].

(** The subsampling: [false] when the allocation is dropped. *)
Definition subsample (u : double) (s : AllocationsProvider) : AllocationsProvider * bool :=
  if _shouldSubSample cfg && (0 <? _sampleLimit cfg) then
    let '(sampler, r) := Sampling.Sample u (_allocationSampler s) in
    (mkAllocations sampler (failures s) (_allocationSamples s) (listened s), r)
  else (s, true).

Definition set_failures (k : Kind) (c : Z) (s : AllocationsProvider) : AllocationsProvider :=
  mkAllocations (_allocationSampler s) (<[k := c]> (failures s)) (_allocationSamples s) (listened s).

(** The listener is told of the sample before it is added. *)
Definition AddAllocation (r : RawAllocationSample) (s : AllocationsProvider) : AllocationsProvider :=
  mkAllocations (_allocationSampler s) (failures s) (_allocationSamples s ++ [r]) (if _pListener cfg then listened s ++ [r] else listened s).

(** [AllocationClass], left empty when the name is not asked for or not known. *)
Definition AllocationClass (classId : Z) : string :=
  if _addTypeAsLeaf cfg then default "" (GetTypeName classId) else "".

(** The sample of an allocation of the current thread; only [OnAllocationSampled] copies the
    tags of the thread. *)
Definition current_allocation (k : Kind) (t : nat) (w : Walk) (classId address objectSize : Z) : RawAllocationSample :=
  mkAllocation
    (mkRaw (now w) (GetAppDomainId (walkDomain w)) (trace w) (match k with Sampled => walkTags w | _ => [] end) (frames w)
       (RawAllocation (AllocationClass classId) (i64 objectSize)))
    (Managed t) address classId.

(** The common body of [OnAllocation] and [OnAllocationSampled]. *)
Definition OnCurrentAllocation (k : Kind) (e : Env) (classId address objectSize : Z) (s : AllocationsProvider) : AllocationsProvider :=
  let '(s, go) := subsample (draw e) s in
  if go : bool then
    match CurrentThreadInfo e with
    | None => s
    | Some t =>
        let '(failed, c) := walk_failed 100 (frames (walk e)) (failures s k) in
        if failed : bool then set_failures k c s
        else AddAllocation (current_allocation k t (walk e) classId address objectSize) s
    end
  else s.

Definition OnAllocation : Env -> Z -> Z -> Z -> AllocationsProvider -> AllocationsProvider := OnCurrentAllocation Tick.
Definition OnAllocationSampled : Env -> Z -> Z -> Z -> AllocationsProvider -> AllocationsProvider := OnCurrentAllocation Sampled.

(** [garbage]: the size and the address of the sample, which are not set. *)
Definition framework_allocation (timestamp threadId classId : Z) (stack : list Z) (l : Lookup) (garbage : Z * Z) : RawAllocationSample :=
  let nbFrames := Z.min (zlen stack) (capacity l) in
  let '(thread, domain) :=
    match found l with Some t => (Managed t, default 0 (threadDomain l)) | None => (FrameworkThread threadId, 0) end in
  mkAllocation
    (mkRaw timestamp domain zero_context [] (take (Z.to_nat nbFrames) stack) (RawAllocation (AllocationClass classId) garbage.1))
    thread garbage.2 classId.

Definition OnAllocationFramework (e : Env) (timestamp threadId classId : Z) (stack : list Z) (garbage : Z * Z)
    (s : AllocationsProvider) : AllocationsProvider :=
  let '(failed, c) := walk_failed 1000 stack (failures s Framework) in
  if failed : bool then set_failures Framework c s
  else
    let '(s, go) := subsample (draw e) s in
    if go : bool then AddAllocation (framework_allocation timestamp threadId classId stack (lookup_ e) garbage) s else s.

(** *** What is recorded *)

Inductive AllocationEvent :=
| EvCurrent (k : bool) (e : Env) (classId address objectSize : Z)      (* [k]: AllocationSampled *)
| EvFramework (e : Env) (timestamp threadId classId : Z) (stack : list Z) (garbage : Z * Z).

Definition kind_of (k : bool) : Kind := if k then Sampled else Tick.

Definition allocation_step (s : AllocationsProvider) (o : AllocationEvent) : AllocationsProvider :=
  match o with
  | EvCurrent false e c a z => OnAllocation e c a z s
  | EvCurrent true e c a z => OnAllocationSampled e c a z s
  | EvFramework e ts id c stack g => OnAllocationFramework e ts id c stack g s
  end.

(** Allocations, and the timer of the sampler. *)
Inductive AllocationAction := Allocates (o : AllocationEvent) | WindowRolls.

Definition allocation_act (s : AllocationsProvider) (a : AllocationAction) : AllocationsProvider :=
  match a with
  | Allocates o => allocation_step s o
  | WindowRolls =>
    mkAllocations (RollWindow (_allocationSampler s)).1 (failures s) (_allocationSamples s) (listened s)
  end.

(** An allocation, kept or not by the sampler, comes to the test of its stack. *)
Definition tested (o : AllocationEvent) (kept : bool) : bool :=
  match o with
  | EvCurrent _ e _ _ _ => kept && bool_decide (is_Some (CurrentThreadInfo e))
  | EvFramework _ _ _ _ _ _ => true
  end.

Definition event_kind (o : AllocationEvent) : Kind := match o with EvCurrent k _ _ _ _ => kind_of k | EvFramework _ _ _ _ _ _ => Framework end.
Definition event_stack (o : AllocationEvent) : list Z := match o with EvCurrent _ e _ _ _ => frames (walk e) | EvFramework _ _ _ _ stack _ => stack end.

Definition allocation_of (o : AllocationEvent) : list RawAllocationSample :=
  match o with
  | EvCurrent k e c a z => (fun t => current_allocation (kind_of k) t (walk e) c a z) <$> option_list (CurrentThreadInfo e)
  | EvFramework e ts id c stack g => [framework_allocation ts id c stack (lookup_ e) g]
  end.

Definition stackless (k : Kind) (x : AllocationEvent * bool) : bool :=
  tested x.1 x.2 && bool_decide (event_kind x.1 = k) && bool_decide (event_stack x.1 = []).

(** The first of its kind without a stack, after this history. *)
Definition first_stackless (hist : list (AllocationEvent * bool)) (x : AllocationEvent * bool) : bool :=
  stackless (event_kind x.1) x && negb (existsb (stackless (event_kind x.1)) hist).

Fixpoint recorded (hist l : list (AllocationEvent * bool)) : list RawAllocationSample :=
  match l with
  | [] => []
  | x :: l => (if x.2 && negb (first_stackless hist x) then allocation_of x.1 else []) ++ recorded (x :: hist) l
  end.

(** The decision on each allocation: that of the sampler, which is asked with the draws of the
    allocations that come to it.  Those of the .NET Framework do so after the test of their
    stack; without subsampling it is not asked. *)
Definition event_draw (o : AllocationEvent) : double :=
  match o with EvCurrent _ e _ _ _ | EvFramework e _ _ _ _ _ => draw e end.

Definition comes_to_sampler (hist : list (AllocationEvent * bool)) (o : AllocationEvent) : bool :=
  match o with EvCurrent _ _ _ _ _ => true | EvFramework _ _ _ _ _ _ => negb (first_stackless hist (o, true)) end.

Definition decision (hist : list (AllocationEvent * bool)) (sampler : AdaptiveSampler) (o : AllocationEvent) :
    AdaptiveSampler * bool :=
  if _shouldSubSample cfg && (0 <? _sampleLimit cfg) && comes_to_sampler hist o
  then Sampling.Sample (event_draw o) sampler else (sampler, true).

Fixpoint decided (hist : list (AllocationEvent * bool)) (sampler : AdaptiveSampler) (l : list AllocationAction) :
    list (AllocationEvent * bool) :=
  match l with
  | [] => []
  | WindowRolls :: l => decided hist (RollWindow sampler).1 l
  | Allocates o :: l =>
    let '(sampler, kept) := decision hist sampler o in
    (o, kept) :: decided ((o, kept) :: hist) sampler l
  end.

Record alloc_inv (hist : list (AllocationEvent * bool)) (s : AllocationsProvider) : Prop := {
  alloc_failures : forall k, failures s k = if existsb (stackless k) hist then 1 else 0;
  alloc_listened : listened s = if _pListener cfg then _allocationSamples s else []
}.

Lemma walk_failed_once period frames (b : bool) : 1 < period ->
  walk_failed period frames (if b then 1 else 0) =
    (bool_decide (frames = []) && negb b, if bool_decide (frames = []) || b then 1 else 0).
Proof.
  intros Hp. unfold walk_failed. destruct b; [rewrite (Z.mod_small 1) by lia|rewrite Z.mod_0_l by lia];
    destruct (bool_decide _); reflexivity.
Qed.

Lemma subsample_effect u s : exists kept sampler, (subsample u s).2 = kept /\
  (if _shouldSubSample cfg && (0 <? _sampleLimit cfg) then Sampling.Sample u (_allocationSampler s)
   else (_allocationSampler s, true)) = (sampler, kept) /\ _allocationSampler (subsample u s).1 = sampler /\
  failures (subsample u s).1 = failures s /\ _allocationSamples (subsample u s).1 = _allocationSamples s /\
  listened (subsample u s).1 = listened s.
Proof.
  unfold subsample. destruct (_shouldSubSample cfg && (0 <? _sampleLimit cfg)); [|by eexists true, _].
  destruct (Sampling.Sample u (_allocationSampler s)) as [sampler r]. by exists r, sampler.
Qed.

(** An event that comes to the test of its stack, or not. *)
Lemma alloc_inv_cons hist s s' x : alloc_inv hist s -> listened s' = (if _pListener cfg then _allocationSamples s' else []) ->
  (forall k, failures s' k = if stackless k x || existsb (stackless k) hist then 1 else 0) -> alloc_inv (x :: hist) s'.
Proof. intros [Hf Hl] Hl' Hf'. by split. Qed.

Lemma stackless_kind k o f : stackless k (o, f) = bool_decide (k = event_kind o) && stackless (event_kind o) (o, f).
Proof.
  unfold stackless. cbn. rewrite (bool_decide_eq_true_2 (event_kind o = event_kind o)) by done.
  destruct (tested o f); [|by rewrite andb_false_r]. cbn. f_equal. apply bool_decide_ext. naive_solver.
Qed.

Lemma add_inv hist s x r : alloc_inv hist s -> (forall k, failures s k = if stackless k x || existsb (stackless k) hist then 1 else 0) ->
  alloc_inv (x :: hist) (AddAllocation r s).
Proof. intros Hi Hf. apply (alloc_inv_cons hist s); [done| |done]. cbn. rewrite (alloc_listened _ _ Hi). by destruct (_pListener cfg). Qed.

(** The test of the stack of an event that comes to it. *)
Lemma stack_tested hist s o f period : 1 < period -> alloc_inv hist s -> tested o f = true ->
  let b := bool_decide (event_stack o = []) in
  let earlier := existsb (stackless (event_kind o)) hist in
  walk_failed period (event_stack o) (failures s (event_kind o)) = (b && negb earlier, if b || earlier then 1 else 0) /\
  first_stackless hist (o, f) = b && negb earlier /\
  (forall k, (if b && negb earlier then <[event_kind o := 1]> (failures s) else failures s) k =
     if stackless k (o, f) || existsb (stackless k) hist then 1 else 0).
Proof.
  intros Hp Hi Ht b earlier. pose proof (alloc_failures _ _ Hi) as Hf.
  assert (forall k, stackless k (o, f) = bool_decide (k = event_kind o) && b) as Hs.
  { intros k. rewrite stackless_kind. unfold stackless at 1. cbn [fst snd]. by rewrite Ht, (bool_decide_eq_true_2 (event_kind o = event_kind o)) by done. }
  split_and!.
  - rewrite Hf. apply walk_failed_once. done.
  - unfold first_stackless. cbn [fst]. by rewrite Hs, (bool_decide_eq_true_2 (event_kind o = event_kind o)) by done.
  - intros k. rewrite Hs. destruct (decide (k = event_kind o)) as [->|Hk].
    + rewrite (bool_decide_eq_true_2 (event_kind o = event_kind o)) by done. fold earlier. destruct b, earlier eqn:E; cbn; rewrite ?fn_lookup_insert, ?Hf; unfold earlier in E; rewrite ?E; done.
    + rewrite bool_decide_eq_false_2 by done. cbn. destruct (b && negb earlier); rewrite ?fn_lookup_insert_ne by congruence; apply Hf.
Qed.

(** What one event does. *)
Definition records (hist : list (AllocationEvent * bool)) (s s' : AllocationsProvider) (o : AllocationEvent) (kept : bool) : Prop :=
  alloc_inv ((o, kept) :: hist) s' /\
  _allocationSamples s' = _allocationSamples s ++ if kept && negb (first_stackless hist (o, kept)) then allocation_of o else [].

(** An event that does not come to the test of its stack. *)
Lemma untested_records hist s s' o f : alloc_inv hist s -> tested o f = false -> failures s' = failures s ->
  _allocationSamples s' = _allocationSamples s -> listened s' = listened s -> f && negb (bool_decide (allocation_of o = [])) = false ->
  records hist s s' o f.
Proof.
  intros Hi Ht Hf Hs Hl Ha. split.
  - apply (alloc_inv_cons hist s); [done|by rewrite Hl, Hs; apply Hi|]. intros k. rewrite Hf. unfold stackless at 1. cbn [fst snd]. rewrite Ht. cbn. apply Hi.
  - rewrite Hs. destruct f; cbn in *; [|by rewrite app_nil_r]. apply negb_false_iff, bool_decide_eq_true in Ha. rewrite Ha.
    destruct (negb _); by rewrite app_nil_r.
Qed.

(** One that does, and was kept: it is recorded, or is the first without a stack. *)
Lemma tested_records hist s s' o period c r : 1 < period -> alloc_inv hist s -> tested o true = true -> allocation_of o = [r] ->
  failures s' = failures s -> _allocationSamples s' = _allocationSamples s -> listened s' = listened s ->
  walk_failed period (event_stack o) (failures s' (event_kind o)) = c ->
  records hist s (if c.1 then set_failures (event_kind o) c.2 s' else AddAllocation r s') o true.
Proof.
  intros Hp Hi Ht Ha Hf Hs Hl <-. destruct (stack_tested hist s o true period Hp Hi Ht) as (Hw & Hfirst & Hk).
  rewrite Hf, Hw. cbn [fst snd]. unfold records. rewrite Hfirst, Ha. destruct (bool_decide _ && negb _) eqn:E; split.
  - apply (alloc_inv_cons hist s); [done|cbn; rewrite Hl, Hs; apply Hi|]. apply andb_true_iff in E as [-> _]. cbn. rewrite Hf. exact Hk.
  - cbn. by rewrite Hs, app_nil_r.
  - apply add_inv; [|by rewrite Hf]. split; [by rewrite Hf; apply Hi|by rewrite Hl, Hs; apply Hi].
  - cbn. by rewrite Hs.
Qed.

(** The step follows the decision. *)
Definition follows (hist : list (AllocationEvent * bool)) (s s' : AllocationsProvider) (o : AllocationEvent) : Prop :=
  let '(sampler, kept) := decision hist (_allocationSampler s) o in
  _allocationSampler s' = sampler /\ records hist s s' o kept.

Lemma current_records hist s k e c a z : alloc_inv hist s ->
  follows hist s (OnCurrentAllocation (kind_of k) e c a z s) (EvCurrent k e c a z).
Proof.
  intros Hi. unfold follows, decision, OnCurrentAllocation. cbn [comes_to_sampler event_draw]. rewrite andb_true_r.
  destruct (subsample_effect (draw e) s) as (kept & sampler & Hk & -> & Hsp & Hf & Hs & Hl).
  destruct (subsample (draw e) s) as [s' go]. cbn in Hk, Hsp, Hf, Hs, Hl. subst go. destruct kept.
  - destruct (CurrentThreadInfo e) as [t|] eqn:Ec.
    + destruct (walk_failed 100 (frames (walk e)) (failures s' (kind_of k))) as [failed c'] eqn:Ew.
      split; [by destruct failed|].
      apply (tested_records hist s s' (EvCurrent k e c a z) 100 (failed, c')); try done; cbn; by rewrite Ec.
    + split; [done|]. apply untested_records; [done| |done..|]; cbn; by rewrite Ec.
  - split; [done|]. by apply untested_records.
Qed.

(** The sampler is asked after the test of the stack. *)
Lemma framework_records hist s e ts id c stack g : alloc_inv hist s ->
  follows hist s (OnAllocationFramework e ts id c stack g s) (EvFramework e ts id c stack g).
Proof.
  intros Hi. unfold follows, decision, OnAllocationFramework. set (o := EvFramework e ts id c stack g).
  destruct (stack_tested hist s o true 1000 ltac:(lia) Hi ltac:(done)) as (Hw & Hfirst & Hk). cbn [event_stack event_kind o] in Hw. rewrite Hw.
  pose proof (tested_records hist s s o 1000 _ (framework_allocation ts id c stack (lookup_ e) g) ltac:(lia) Hi ltac:(done) ltac:(done) eq_refl eq_refl eq_refl Hw) as Hr.
  cbn [comes_to_sampler event_draw o]. fold o. rewrite Hfirst. cbn [fst snd event_kind event_stack o] in Hr, Hfirst, Hk |- *.
  destruct (bool_decide (stack = []) && _) eqn:E; cbn [negb]; [rewrite andb_false_r; by split|]. rewrite andb_true_r.
  destruct (subsample_effect (draw e) s) as (kept & sampler & Hkept & -> & Hsp & Hf & Hs & Hl).
  destruct (subsample (draw e) s) as [s' go]. cbn in Hkept, Hsp, Hf, Hs, Hl. subst go.
  assert (alloc_inv hist s') as Hi' by (split; [rewrite Hf|rewrite Hl, Hs]; apply Hi). rewrite <- Hf in Hk.
  split; [by destruct kept|]. destruct kept; split.
  - by apply add_inv.
  - rewrite Hfirst. cbn. by rewrite Hs.
  - apply (alloc_inv_cons hist s'); [done|apply Hi'|exact Hk].
  - by rewrite app_nil_r.
Qed.

Lemma allocations_run l : forall hist s, alloc_inv hist s ->
  _allocationSamples (foldl allocation_act s l) =
    _allocationSamples s ++ recorded hist (decided hist (_allocationSampler s) l) /\
  exists hist', alloc_inv hist' (foldl allocation_act s l).
Proof.
  induction l as [|[o|] l IH]; intros hist s Hi; cbn [foldl decided allocation_act].
  { cbn. rewrite app_nil_r. eauto. }
  - assert (follows hist s (allocation_step s o) o) as Ho
      by (destruct o as [[] e c a z|]; [by apply (current_records hist s true)|by apply (current_records hist s false)|by apply framework_records]).
    unfold follows in Ho. destruct (decision hist (_allocationSampler s) o) as [sampler kept].
    destruct Ho as (Hsp & Hi' & Hs). destruct (IH _ _ Hi') as (Hs' & Hinv). split; [|done].
    cbn [recorded fst snd]. by rewrite Hs', Hs, Hsp, <- app_assoc.
  - destruct (IH hist (mkAllocations (RollWindow (_allocationSampler s)).1 (failures s) (_allocationSamples s) (listened s)))
      as (Hs' & Hinv); [by destruct Hi|done].
Qed.

(** C27: For every sequence of allocations, told by the runtime or by events of the .NET
    Framework, while the windows of the sampler roll, the samples are those of the
    allocations of known threads on which the sampler, asked with their draws, decides to keep
    them (all of them without subsampling), in order, except for the first allocation of each
    kind without a stack: the later ones are recorded with an empty stack.  The listener, if
    there is one, is told of exactly the recorded allocations. *)
Theorem allocations_recorded sampleLimit uploadInterval l :
  let s := foldl allocation_act (new_AllocationsProvider sampleLimit uploadInterval) l in
  _allocationSamples s = recorded [] (decided [] (new_GenericSampler sampleLimit uploadInterval) l) /\
  listened s = if _pListener cfg then _allocationSamples s else [].
Proof.
  destruct (allocations_run l [] (new_AllocationsProvider sampleLimit uploadInterval)) as (Hs & hist & Hi).
  { split; [done|]. by destruct (_pListener cfg). }
  split; [exact Hs|apply Hi].
Qed.
End allocations.

(** With a budget of seventeen samples in the first window, the first sixteen of twenty
    allocations are kept. *)
Example allocations_dropped :
  let e := @mkEnv exact_double (Some 0%nat) (mkWalk [7] zero_context None 5 []) (mkLookup None None 0) (@of_int exact_double 0) in
  let run := foldl (allocation_act (H := exact_double) (fun _ => None) (mkAllocationsConfig true 120 false false))
                 (new_AllocationsProvider (H := exact_double) 120 60) (replicate 20 (Allocates (EvCurrent false e 1 2 24))) in
  length (_allocationSamples run) = 16%nat.
Proof. vm_compute. done. Qed.

(** The second allocation without a stack is recorded. *)
Example stackless_recorded :
  let e := @mkEnv exact_double (Some 0%nat) (mkWalk [] zero_context None 5 []) (mkLookup None None 0) (@of_int exact_double 0) in
  let run n := foldl (allocation_step (H := exact_double) (fun _ => None) (mkAllocationsConfig false 0 false false))
                 (new_AllocationsProvider (H := exact_double) 100 60) (replicate n (EvCurrent false e 1 2 24)) in
  _allocationSamples (run 1%nat) = [] /\ (fun r => Stack (AllocationBase r)) <$> _allocationSamples (run 3%nat) = [[]; []].
Proof. vm_compute. done. Qed.
