(* ===== verification/ThreadStat.v ===== *)
(** * The processor time of a thread

    Model of [GetCpuInfo] and [BuildThreadStatPath] of the Linux [OsSpecificApi.cpp] and of
    [OpSysTools::ParseThreadInfo]: the state and the processor time of a thread are read from
    the line of text in /proc/self/task/<id>/stat.

    A C string is the list of its characters, without the null at its end.  What the
    operating system answers to [open] and [read] is an argument.  [None] is undefined
    behaviour, or a loop without end. *)
From stdpp Require Import base list strings.
From S2P Require Import Prelude TypeReferenceTree TypeTreeJson.

(** ** Functions of the C library *)

Definition space : Z := 32.

(** The rest of the string from the first, and from the last, [c]. *)
Fixpoint strchr (c : Z) (s : text) : option text :=
  match s with [] => None | x :: s' => if x =? c then Some s else strchr c s' end.

Fixpoint strrchr (c : Z) (s : text) : option text :=
  match s with
  | [] => None
  | x :: s' => match strrchr c s' with Some r => Some r | None => if x =? c then Some s else None end
  end.

Fixpoint skip_while (p : Z -> bool) (s : text) : text :=
  match s with [] => [] | x :: s' => if p x then skip_while p s' else s end.

Fixpoint take_while (p : Z -> bool) (s : text) : text :=
  match s with [] => [] | x :: s' => if p x then x :: take_while p s' else [] end.

(** [pos + strspn(pos, " ")]. *)
Definition skip_spaces (s : text) : text := skip_while (fun x => x =? space) s.

Definition isspace (c : Z) : bool := (c =? space) || ((9 <=? c) && (c <=? 13)).
Definition isdigit (c : Z) : bool := (48 <=? c) && (c <=? 57).

(** [strtol] in base ten, which clamps, and the conversion of its result by [atoi]. *)
Definition strtol (s : text) : Z :=
  let s := skip_while isspace s in
  let '(negative, s) := match s with 45 :: s => (true, s) | 43 :: s => (false, s) | _ => (false, s) end in
  let v := digits_value (take_while isdigit s) in
  Z.max (- 2 ^ 63) (Z.min (2 ^ 63 - 1) (if negative : bool then - v else v)).

Definition atoi (s : text) : Z := i32 (strtol s).

(** ** ParseThreadInfo *)

(** The loop gives [nbElement] with [state], [userTime] and [kernelTime]. *)
Fixpoint parse_loop (fuel : nat) (pos : text) (currentIdx nbElement : Z) (r : Z * Z * Z) : option (Z * (Z * Z * Z)) :=
  match fuel with
  | O => None
  | S fuel =>
      if nbElement =? 3 then Some (nbElement, r)
      else match strchr space pos with
      | None => Some (nbElement, r)
      | Some pos =>
          match skip_spaces pos with
          | [] => Some (nbElement, r)
          | (c :: _) as pos =>
              let '(state, userTime, kernelTime) := r in
              let currentIdx := currentIdx + 1 in
              if currentIdx =? 3 then parse_loop fuel pos currentIdx (nbElement + 1) (c, userTime, kernelTime)
              else if currentIdx =? 14 then parse_loop fuel pos currentIdx (nbElement + 1) (state, atoi pos, kernelTime)
              else if currentIdx =? 15 then parse_loop fuel pos currentIdx (nbElement + 1) (state, userTime, atoi pos)
              else parse_loop fuel pos currentIdx nbElement r
          end
      end
  end.

Definition close_paren : Z := 41.

(** Thirteen elements follow the name at most, and the loop is tested once more. *)
Definition ParseThreadInfo (line : text) (r : Z * Z * Z) : option (bool * (Z * Z * Z)) :=
  match strrchr close_paren line with
  | None => Some (false, r)
  | Some pos => '(nbElement, r) ← parse_loop 14 pos 2 0 r; Some (nbElement =? 3, r)
  end.

(** ** BuildThreadStatPath *)

Fixpoint adjust_base (fuel : nat) (base tid : Z) : option Z :=
  match fuel with
  | O => None
  | S fuel => if tid <? base then adjust_base fuel (base / 10) tid else Some base
  end.

(** The digits that are written, and the offset behind them. *)
Fixpoint write_digits (fuel : nat) (base tid offset : Z) : option (text * Z) :=
  match fuel with
  | O => None
  | S fuel =>
      if (0 <? base) && (offset <? 64) then
        '(ds, o) ← write_digits fuel (base / 10) (tid mod base) (offset + 1); Some (48 + tid / base :: ds, o)
      else Some ([], offset)
  end.

Definition ascii_text (s : string) : text := (fun c => Z.of_N (Ascii.N_of_ascii c)) <$> String.list_ascii_of_string s.

Definition task_prefix : text := ascii_text "/proc/self/task/".
Definition stat_suffix : text := ascii_text "/stat".

(** The path, or a failure. *)
Definition BuildThreadStatPath (tid capacity : Z) : option (option text) :=
  base ← adjust_base 12 1000000000 tid;
  '(ds, offset) ← write_digits 12 base tid 16;
  if (capacity <=? offset) || (capacity <=? offset + 5) then Some None
  else Some (Some (task_prefix ++ ds ++ stat_suffix)).

(** ** GetCpuInfo *)

Definition in_i32 (x : Z) : bool := (- 2 ^ 31 <=? x) && (x <? 2 ^ 31).

(** [open_read path n]: what one [read] of [n] characters of the file gives. *)
Section cpu_info.
Context (open_read : text -> Z -> option text) (ticks_per_second : Z).

(** [(isRunning, cpuTime)], or a failure. *)
Definition GetCpuInfo (tid : Z) : option (option (bool * Z)) :=
  path ← BuildThreadStatPath tid 64;
  match path with
  | None => Some None
  | Some path =>
      match open_read path 1023 with
      | None | Some [] => Some None
      | Some line =>
          '(success, (state, userTime, kernelTime)) ← ParseThreadInfo (take_while (fun c => negb (c =? 0)) line) (space, 0, 0);
          if success : bool then
            if in_i32 (userTime + kernelTime) && in_i32 ((userTime + kernelTime) * 1000) then
              Some (Some ((state =? 82) || (state =? 68) || (state =? 87),
                          u64 (Z.quot ((userTime + kernelTime) * 1000) ticks_per_second)))
            else None
          else Some None
      end
  end.

(** Milliseconds. *)
Definition GetThreadCpuTime (osThreadId : Z) : option Z :=
  r ← GetCpuInfo osThreadId; Some (match r with Some (_, cpuTime) => cpuTime | None => 0 end).

(** [(isRunning, cpuTime, failed)]. *)
Definition IsRunning (osThreadId : Z) : option (bool * Z * bool) :=
  r ← GetCpuInfo osThreadId; Some (match r with Some (isRunning, cpuTime) => (isRunning, cpuTime, false) | None => (false, 0, true) end).
End cpu_info.

(** ** What the kernel writes *)

Definition dec (v : Z) : text := if v <? 0 then 45 :: digits 20 (- v) else digits 20 v.

Definition fields_text (l : list Z) : text := l ≫= fun v => space :: dec v.

(** The identifier, the name in parentheses, the state, ten numbers, the times in user and
    in kernel mode, and the rest of the line. *)
Definition stat_line (tid : Z) (comm : text) (state : Z) (others : list Z) (user kernel : Z) (rest : text) : text :=
  dec tid ++ [space; 40] ++ comm ++ [close_paren; space; state] ++ fields_text (others ++ [user; kernel]) ++ rest.

(** *** Numbers *)

Lemma digits_spec fuel : forall v, (fuel <> 0)%nat -> 0 <= v ->
  Forall (fun c => isdigit c = true) (digits fuel v) /\ digits fuel v <> [] /\ (length (digits fuel v) <= fuel)%nat.
Proof.
  assert (forall d, 0 <= d < 10 -> isdigit (48 + d) = true) as Hd.
  { intros d ?. unfold isdigit. apply andb_true_iff; split; apply Z.leb_le; lia. }
  induction fuel as [|fuel IH]; intros v Hf Hv; [done|]. cbn [digits]. destruct (Z.ltb_spec v 10); cbn [length].
  { split_and!; [|done|lia]. constructor; [apply Hd; lia|done]. }
  pose proof (Z.mod_pos_bound v 10 ltac:(lia)). pose proof (Z.div_pos v 10 Hv ltac:(lia)).
  destruct fuel as [|fuel]; [cbn; split_and!; [|done|lia]; constructor; [apply Hd; lia|done]|].
  destruct (IH (v / 10)) as (Ha1 & Ha2 & Ha3); [done|done|]. rewrite length_app. cbn [length]. split_and!; [|by destruct (digits (S fuel) (v / 10))|lia].
  apply Forall_app. split; [done|]. constructor; [apply Hd; lia|done].
Qed.

Lemma take_while_app (p : Z -> bool) l r : Forall (fun c => p c = true) l -> match r with [] => True | c :: _ => p c = false end ->
  take_while p (l ++ r) = l.
Proof.
  intros Hl Hr. induction Hl as [|x l Hx Hl IH]; cbn; [|by rewrite Hx, IH]. destruct r as [|c r]; [done|]. cbn. by rewrite Hr.
Qed.

Definition not_digit_first (s : text) : Prop := match s with [] => True | c :: _ => isdigit c = false end.

Lemma digits_first fuel v : (fuel <> 0)%nat -> 0 <= v -> exists c l, digits fuel v = c :: l /\ 48 <= c <= 57.
Proof.
  intros Hf Hv. destruct (digits_spec fuel v Hf Hv) as (Ha & Hne & _). destruct (digits fuel v) as [|c l]; [done|].
  exists c, l. split; [done|]. apply Forall_cons in Ha as [Hc _]. unfold isdigit in Hc. bool_facts. lia.
Qed.

Lemma atoi_digits v rest : 0 <= v < 2 ^ 31 -> not_digit_first rest -> atoi (digits 20 v ++ rest) = v.
Proof.
  intros Hv Hr. unfold atoi, strtol. destruct (digits_spec 20 v ltac:(done) ltac:(lia)) as (Ha & _).
  destruct (digits_first 20 v ltac:(done) ltac:(lia)) as (c & l & E & Hc).
  assert (skip_while isspace (digits 20 v ++ rest) = digits 20 v ++ rest) as ->.
  { rewrite E. cbn. replace (isspace c) with false; [done|]. symmetry. unfold isspace, space. repeat (apply orb_false_iff; split); [lia|]. lia. }
  assert (match digits 20 v ++ rest with 45 :: s => (true, s) | 43 :: s => (false, s) | _ => (false, digits 20 v ++ rest) end
    = (false, digits 20 v ++ rest)) as ->.
  { rewrite E. cbn [app]. assert (c = 48 \/ c = 49 \/ c = 50 \/ c = 51 \/ c = 52 \/ c = 53 \/ c = 54 \/ c = 55 \/ c = 56 \/ c = 57) as Hcs by lia.
    repeat destruct Hcs as [->|Hcs]; try reflexivity. by subst c. }
  rewrite take_while_app by (done || by destruct rest). rewrite digits_value_ok by (change (10 ^ Z.of_nat 20) with 100000000000000000000; lia).
  rewrite Z.min_r, Z.max_r by lia. apply swrap_small; [lia|]. unfold in_s. lia.
Qed.

(** *** Searches *)

Lemma strchr_skip c w x : Forall (fun y => y <> c) w -> strchr c (w ++ c :: x) = Some (c :: x).
Proof. induction 1 as [|y w Hy Hw IH]; cbn; [by rewrite Z.eqb_refl|]. by rewrite (proj2 (Z.eqb_neq y c)). Qed.

Lemma strrchr_none c x : Forall (fun y => y <> c) x -> strrchr c x = None.
Proof. induction 1 as [|y x Hy Hx IH]; cbn; [done|]. by rewrite IH, (proj2 (Z.eqb_neq y c)). Qed.

Lemma strrchr_last c w x : Forall (fun y => y <> c) x -> strrchr c (w ++ c :: x) = Some (c :: x).
Proof. intros Hx. induction w as [|y w IH]; cbn; [by rewrite (strrchr_none c x Hx), Z.eqb_refl|by rewrite IH]. Qed.

Lemma dec_chars v : Forall (fun c => isdigit c = true \/ c = 45) (dec v) /\ dec v <> [] /\ (length (dec v) <= 21)%nat.
Proof.
  unfold dec. destruct (Z.ltb_spec v 0); [destruct (digits_spec 20 (- v)) as (Ha & Hn & Hl)|destruct (digits_spec 20 v) as (Ha & Hn & Hl)]; try done; try lia.
  - split_and!; [|done|cbn [length]; lia]. constructor; [by right|]. eapply Forall_impl; [exact Ha|]. auto.
  - split_and!; [|done|lia]. eapply Forall_impl; [exact Ha|]. auto.
Qed.

Lemma dec_no c v : isdigit c = false -> c <> 45 -> Forall (fun y => y <> c) (dec v).
Proof. intros Hc Hm. eapply Forall_impl; [apply dec_chars|]. intros y [Hy|Hy] ->; congruence. Qed.

Lemma fields_no c l : isdigit c = false -> c <> 45 -> c <> space -> Forall (fun y => y <> c) (fields_text l).
Proof.
  intros Hc Hm Hs. induction l as [|v l IH]; [done|]. change (fields_text (v :: l)) with (space :: dec v ++ fields_text l).
  constructor; [congruence|]. apply Forall_app. split; [by apply dec_no|done].
Qed.

Lemma fields_length l : (length (fields_text l) <= 22 * length l)%nat.
Proof.
  induction l as [|v l IH]; [done|]. change (fields_text (v :: l)) with (space :: dec v ++ fields_text l). cbn [length].
  rewrite length_app. pose proof (proj2 (proj2 (dec_chars v))). lia.
Qed.

(** *** The loop *)

(** The elements found up to this one. *)
Definition elements (idx : Z) : Z := if idx <? 3 then 0 else if idx <? 14 then 1 else if idx <? 15 then 2 else 3.

Lemma parse_loop_ends fuel : forall pos idx r, 2 <= idx <= 15 -> 16 - idx <= Z.of_nat fuel ->
  is_Some (parse_loop fuel pos idx (elements idx) r).
Proof.
  induction fuel as [|fuel IH]; intros pos idx r Hidx Hf; [lia|]. cbn [parse_loop].
  destruct (elements idx =? 3) eqn:E3; [by eexists|]. destruct (strchr space pos) as [pos'|]; [|by eexists].
  destruct (skip_spaces pos') as [|c p]; [by eexists|]. destruct r as [[state user] kernel].
  assert (idx <> 15) by (intros ->; done). pose proof (fun r' => IH (c :: p) (idx + 1) r' ltac:(lia) ltac:(lia)) as Hn.
  assert (elements (idx + 1) = if idx + 1 =? 3 then elements idx + 1 else if idx + 1 =? 14 then elements idx + 1
    else if idx + 1 =? 15 then elements idx + 1 else elements idx) as He by (unfold elements; repeat case_match; bool_facts; lia).
  rewrite He in Hn. repeat case_match; apply Hn.
Qed.

Lemma next_element w c p : Forall (fun y => y <> space) w -> c <> space ->
  strchr space (w ++ space :: c :: p) = Some (space :: c :: p) /\ skip_spaces (space :: c :: p) = c :: p.
Proof. intros Hw Hc. split; [by apply strchr_skip|]. unfold skip_spaces. cbn. by rewrite (proj2 (Z.eqb_neq c space)). Qed.

Lemma dec_first v more : exists c p, dec v ++ more = c :: p /\ c <> space.
Proof.
  destruct (dec_chars v) as (Ha & Hn & _). destruct (dec v) as [|c p]; [done|]. exists c, (p ++ more). split; [done|].
  apply Forall_cons in Ha as [[Hc|Hc] _]; [intros ->; done|rewrite Hc; done].
Qed.

(** One turn of the loop. *)
Lemma parse_turn fuel w c p idx nb state user kernel : nb <> 3 -> Forall (fun y => y <> space) w -> c <> space ->
  parse_loop (S fuel) (w ++ space :: c :: p) idx nb (state, user, kernel) =
    if idx + 1 =? 3 then parse_loop fuel (c :: p) (idx + 1) (nb + 1) (c, user, kernel)
    else if idx + 1 =? 14 then parse_loop fuel (c :: p) (idx + 1) (nb + 1) (state, atoi (c :: p), kernel)
    else if idx + 1 =? 15 then parse_loop fuel (c :: p) (idx + 1) (nb + 1) (state, user, atoi (c :: p))
    else parse_loop fuel (c :: p) (idx + 1) nb (state, user, kernel).
Proof.
  intros Hnb Hw Hc. cbn [parse_loop]. rewrite (proj2 (Z.eqb_neq nb 3)) by done. by destruct (next_element w c p Hw Hc) as [-> ->].
Qed.

(** The numbers before the times. *)
Lemma parse_others fs : forall fuel w idx r more, 3 <= idx -> idx + zlen fs <= 13 -> Forall (fun y => y <> space) w ->
  exists w', Forall (fun y => y <> space) w' /\
    parse_loop (length fs + fuel) (w ++ fields_text fs ++ more) idx 1 r = parse_loop fuel (w' ++ more) (idx + zlen fs) 1 r.
Proof.
  induction fs as [|v fs IH]; intros fuel w idx r more Hi Hn Hw.
  { exists w. split; [done|]. cbn. by rewrite Z.add_0_r. }
  cbn [length] in Hn. destruct (IH fuel (dec v) (idx + 1) r more) as (w' & Hw' & E); [lia|lia|by apply dec_no|]. exists w'. split; [done|].
  change (fields_text (v :: fs)) with (space :: dec v ++ fields_text fs). cbn [length Nat.add app].
  rewrite <- app_assoc. destruct (dec_first v (fields_text fs ++ more)) as (c & p & Ep & Hc). rewrite Ep in *.
  destruct r as [[state user] kernel]. rewrite parse_turn by done.
  rewrite (proj2 (Z.eqb_neq (idx + 1) 3)), (proj2 (Z.eqb_neq (idx + 1) 14)), (proj2 (Z.eqb_neq (idx + 1) 15)) by lia.
  rewrite E. f_equal. lia.
Qed.

(** The times. *)
Lemma parse_times w user kernel rest state u k : Forall (fun y => y <> space) w -> 0 <= user < 2 ^ 31 -> 0 <= kernel < 2 ^ 31 -> not_digit_first rest ->
  parse_loop 3 (w ++ space :: dec user ++ space :: dec kernel ++ rest) 13 1 (state, u, k) = Some (3, (state, user, kernel)).
Proof.
  intros Hw Hu Hk Hd. assert (forall v, 0 <= v -> dec v = digits 20 v) as Hdec by (intros v ?; unfold dec; by rewrite (proj2 (Z.ltb_ge _ _))).
  destruct (dec_first user (space :: dec kernel ++ rest)) as (c1 & p1 & E1 & Hc1). pose proof (atoi_digits user (space :: dec kernel ++ rest) Hu eq_refl) as A1.
  rewrite <- (Hdec user), E1 in A1 by lia. rewrite E1, parse_turn by done. change (13 + 1) with 14. change (1 + 1) with 2.
  change (14 =? 3) with false. change (14 =? 14) with true. cbn iota. rewrite A1, <- E1.
  destruct (dec_first kernel rest) as (c2 & p2 & E2 & Hc2). pose proof (atoi_digits kernel rest Hk Hd) as A2.
  rewrite <- (Hdec kernel), E2 in A2 by lia. rewrite E2, parse_turn by (done || by apply dec_no). change (14 + 1) with 15. change (2 + 1) with 3.
  change (15 =? 3) with false. change (15 =? 14) with false. change (15 =? 15) with true. cbn iota. by rewrite A2.
Qed.

#[local] Opaque digits atoi.

Lemma ParseThreadInfo_stat_line tid comm state others user kernel rest r :
  length others = 10%nat -> state <> space -> state <> close_paren -> 0 <= user < 2 ^ 31 -> 0 <= kernel < 2 ^ 31 ->
  Forall (fun y => y <> close_paren) rest -> not_digit_first rest ->
  ParseThreadInfo (stat_line tid comm state others user kernel rest) r = Some (true, (state, user, kernel)).
Proof.
  intros Ho Hs Hp Hu Hk Hr Hd. unfold ParseThreadInfo, stat_line. rewrite !app_assoc. rewrite <- app_assoc, <- (app_assoc _ [_; _; _]).
  cbn [app]. rewrite strrchr_last; last first.
  { constructor; [done|]. constructor; [done|]. apply Forall_app. split; [by apply fields_no|done]. }
  destruct r as [[s0 u0] k0]. change 14%nat with (S (10 + 3)).
  assert (fields_text (others ++ [user; kernel]) = fields_text others ++ fields_text [user; kernel]) as -> by apply bind_app.
  match goal with |- context [parse_loop _ (close_paren :: ?x)] => change (close_paren :: x) with ([close_paren] ++ x) end.
  rewrite parse_turn by (done || by repeat constructor). change (2 + 1) with 3. change (3 =? 3) with true. cbn iota. change (0 + 1) with 1.
  rewrite <- app_assoc. destruct (parse_others others 3 [state] 3 (state, u0, k0) (fields_text [user; kernel] ++ rest)) as (w & Hw & E);
    [lia|rewrite Ho; lia|by repeat constructor|]. rewrite Ho in E. cbn [app] in E. rewrite E. clear E.
  assert (fields_text [user; kernel] ++ rest = space :: dec user ++ space :: dec kernel ++ rest) as ->.
  { unfold fields_text. cbn [mbind list_bind app]. by rewrite app_nil_r, <- !app_assoc. }
  change (3 + Z.of_nat 10) with 13. by rewrite parse_times.
Qed.
#[local] Transparent digits atoi.

(** *** The path *)

(** All digits of a number, leading zeros included. *)
Fixpoint padded (n : nat) (v : Z) : text :=
  match n with O => [] | S n => 48 + v / 10 ^ Z.of_nat n :: padded n (v mod 10 ^ Z.of_nat n) end.

Lemma pow10_S n : 10 ^ Z.of_nat (S n) = 10 * 10 ^ Z.of_nat n.
Proof. rewrite Nat2Z.inj_succ, Z.pow_succ_r by lia. done. Qed.

Lemma pow10_pos n : 0 < 10 ^ Z.of_nat n.
Proof. apply Z.pow_pos_nonneg; lia. Qed.

(** The last digit of a number below a power of ten. *)
Lemma split_digit n v : 0 <= v ->
  v / 10 ^ Z.of_nat (S n) = v / 10 / 10 ^ Z.of_nat n /\
  v mod 10 ^ Z.of_nat (S n) / 10 = (v / 10) mod 10 ^ Z.of_nat n /\ (v mod 10 ^ Z.of_nat (S n)) mod 10 = v mod 10.
Proof.
  intros Hv. pose proof (pow10_pos n). rewrite pow10_S. split; [by rewrite Z.div_div by lia|].
  rewrite Z.rem_mul_r by lia. pose proof (Z.mod_pos_bound v 10 ltac:(lia)). split.
  - rewrite (Z.mul_comm 10), Z.div_add by lia. by rewrite Z.div_small by done.
  - rewrite (Z.mul_comm 10), Z.mod_add by lia. by apply Z.mod_small.
Qed.

Lemma padded_snoc n : forall v, 0 <= v < 10 ^ Z.of_nat (S n) -> padded (S n) v = padded n (v / 10) ++ [48 + v mod 10].
Proof.
  induction n as [|n IH]; intros v Hv.
  { cbn in *. rewrite Z.div_1_r, Z.mod_small by lia. done. }
  cbn [padded app]. destruct (split_digit n v ltac:(lia)) as (E1 & E2 & E3). rewrite E1. f_equal.
  change (48 + v mod 10 ^ Z.of_nat (S n) / 10 ^ Z.of_nat n :: padded n ((v mod 10 ^ Z.of_nat (S n)) mod 10 ^ Z.of_nat n))
    with (padded (S n) (v mod 10 ^ Z.of_nat (S n))).
  rewrite IH by (apply Z.mod_pos_bound, pow10_pos). by rewrite E2, E3.
Qed.

Lemma digits_padded k : forall fuel v, (k < fuel)%nat -> 10 ^ Z.of_nat k <= v < 10 ^ Z.of_nat (S k) -> digits fuel v = padded (S k) v.
Proof.
  induction k as [|k IH]; intros [|fuel] v Hf Hv; [lia| |lia|]; cbn [digits].
  - cbn in Hv. rewrite (proj2 (Z.ltb_lt v 10)) by lia. cbn. by rewrite Z.div_1_r.
  - pose proof (pow10_pos k). rewrite !pow10_S in Hv. rewrite (proj2 (Z.ltb_ge v 10)) by lia. rewrite padded_snoc by (rewrite !pow10_S; lia).
    rewrite (IH fuel (v / 10)); [done|lia|]. rewrite pow10_S. split; [apply Z.div_le_lower_bound; lia|apply Z.div_lt_upper_bound; lia].
Qed.

Lemma pow10_div k : 10 ^ Z.of_nat k / 10 = match k with O => 0 | S k => 10 ^ Z.of_nat k end.
Proof. destruct k as [|k]; [done|]. rewrite pow10_S, Z.mul_comm. by apply Z.div_mul. Qed.

Lemma adjust_base_pow tid k : forall fuel, (k < fuel)%nat -> 1 <= tid < 10 ^ Z.of_nat (S k) ->
  exists j, (j <= k)%nat /\ adjust_base fuel (10 ^ Z.of_nat k) tid = Some (10 ^ Z.of_nat j) /\ 10 ^ Z.of_nat j <= tid < 10 ^ Z.of_nat (S j).
Proof.
  induction k as [|k IH]; intros [|fuel] Hf Ht; [lia| |lia|]; cbn [adjust_base].
  - exists 0%nat. change (10 ^ Z.of_nat 1) with 10 in *. change (10 ^ Z.of_nat 0) with 1. rewrite (proj2 (Z.ltb_ge tid 1)) by lia.
    split_and!; [done|done|lia|lia].
  - destruct (Z.ltb_spec tid (10 ^ Z.of_nat (S k))) as [Hlt|Hge]; [|exists (S k); split_and!; [lia|done|lia|lia]].
    rewrite pow10_div. destruct (IH fuel) as (j & Hj & E); [lia|lia|]. exists j. split; [lia|exact E].
Qed.

Lemma write_digits_padded k : forall fuel tid offset, (S k < fuel)%nat -> 0 <= offset -> offset + Z.of_nat k < 64 -> 0 <= tid ->
  write_digits fuel (10 ^ Z.of_nat k) tid offset = Some (padded (S k) tid, offset + Z.of_nat (S k)).
Proof.
  induction k as [|k IH]; intros [|fuel] tid offset Hf Ho H64 Ht; [lia| |lia|]; cbn [write_digits].
  - rewrite (proj2 (Z.ltb_lt offset 64)) by lia. destruct fuel as [|fuel]; [lia|]. cbn. by rewrite !Z.div_1_r.
  - pose proof (pow10_pos k). pose proof (pow10_pos (S k)). rewrite (proj2 (Z.ltb_lt 0 _)), (proj2 (Z.ltb_lt offset 64)) by lia. cbn [andb]. rewrite pow10_div.
    pose proof (Z.mod_pos_bound tid (10 ^ Z.of_nat (S k)) ltac:(lia)). rewrite IH by lia.
    cbn [mbind option_bind padded]. f_equal. apply f_equal2; [done|lia].
Qed.

Lemma BuildThreadStatPath_ok tid : 1 <= tid < 2 ^ 31 ->
  BuildThreadStatPath tid 64 = Some (Some (task_prefix ++ digits 20 tid ++ stat_suffix)).
Proof.
  intros Ht. unfold BuildThreadStatPath. destruct (adjust_base_pow tid 9 12) as (j & Hj & E & Hd); [lia|cbn; lia|].
  change (10 ^ Z.of_nat 9) with 1000000000 in E. rewrite E. cbn [mbind option_bind].
  rewrite write_digits_padded by lia. cbn [mbind option_bind]. rewrite (digits_padded j) by (lia || done).
  destruct (Z.leb_spec 64 (16 + Z.of_nat (S j))), (Z.leb_spec 64 (16 + Z.of_nat (S j) + 5)); cbn [orb]; lia || done.
Qed.

(** *** The text that is read *)

Lemma stat_line_prefix tid comm state others user kernel rest : (length comm <= 64)%nat -> length others = 10%nat ->
  take 1023 (stat_line tid comm state others user kernel rest) =
    stat_line tid comm state others user kernel (take (1023 - length (stat_line tid comm state others user kernel [])) rest) /\
  (length (stat_line tid comm state others user kernel []) < 1023)%nat.
Proof.
  intros Hc Ho. assert (forall r, stat_line tid comm state others user kernel r = stat_line tid comm state others user kernel [] ++ r) as Happ.
  { intros r. unfold stat_line. by rewrite <- !app_assoc, app_nil_l. }
  assert (length (stat_line tid comm state others user kernel []) < 1023)%nat as Hl.
  { unfold stat_line. rewrite !length_app. pose proof (proj2 (proj2 (dec_chars tid))). pose proof (fields_length (others ++ [user; kernel])) as Hf.
    rewrite length_app in Hf. cbn [length] in *. lia. }
  split; [|done]. rewrite (Happ rest), (Happ (take _ rest)), take_app. f_equal. apply take_ge. lia.
Qed.

Lemma stat_line_no_null tid comm state others user kernel rest : Forall (fun c => c <> 0) (comm ++ rest) -> state <> 0 ->
  Forall (fun c => negb (c =? 0) = true) (stat_line tid comm state others user kernel rest).
Proof.
  intros [Hc Hr]%Forall_app Hs. apply (Forall_impl (fun c => c <> 0)); [|intros c Hne; by apply negb_true_iff, Z.eqb_neq].
  unfold stat_line. repeat (apply Forall_app; split); try done; try (by repeat constructor); [by apply dec_no|by apply fields_no].
Qed.

Lemma not_digit_take k rest : not_digit_first rest -> not_digit_first (take k rest).
Proof. intros Hd. by destruct k, rest. Qed.

(** ** The property *)

(** C22: For every thread and every line the kernel may write for it, whatever spaces and
    parentheses its name holds, [GetCpuInfo] opens the file of this thread and gives its
    state and the milliseconds it has run, as long as the clock ticks of the line, times
    one thousand, fit in an [int]; and the parser ends for every other text. *)
Theorem cpu_time_read open_read ticks tid comm state others user kernel rest :
  1 <= tid < 2 ^ 31 -> (length comm <= 64)%nat -> Forall (fun c => c <> 0) (comm ++ rest) -> length others = 10%nat ->
  state <> 0 -> state <> space -> state <> close_paren ->
  0 <= user -> 0 <= kernel -> (user + kernel) * 1000 < 2 ^ 31 -> 0 < ticks ->
  Forall (fun c => c <> close_paren) rest -> not_digit_first rest ->
  open_read (task_prefix ++ digits 20 tid ++ stat_suffix) 1023 = Some (take 1023 (stat_line tid comm state others user kernel rest)) ->
  GetCpuInfo open_read ticks tid = Some (Some (bool_decide (state = 82 \/ state = 68 \/ state = 87), (user + kernel) * 1000 / ticks)) /\
  (forall line r, is_Some (ParseThreadInfo line r)).
Proof.
  intros Ht Hc Hz Ho Hs0 Hs Hsp Hu Hk Hlim Hticks Hp Hd Hopen. split; last first.
  { intros line r. unfold ParseThreadInfo. destruct (strrchr close_paren line) as [pos|]; [|by eexists].
    destruct (parse_loop_ends 14 pos 2 r) as [[nb r'] E]; [lia|lia|]. change (elements 2) with 0 in E. rewrite E. by eexists. }
  destruct (stat_line_prefix tid comm state others user kernel rest Hc Ho) as [Htake Hlen]. rewrite Htake in Hopen.
  set (more := take _ rest) in *. unfold GetCpuInfo. rewrite BuildThreadStatPath_ok by done. cbn [mbind option_bind]. rewrite Hopen.
  assert (Forall (fun c => c <> 0) (comm ++ more)) as Hz'.
  { apply Forall_app in Hz as [? ?]. apply Forall_app. split; [done|]. by apply Forall_take. }
  pose proof (stat_line_no_null tid comm state others user kernel more Hz' Hs0) as Hn.
  pose proof (take_while_app _ _ [] Hn I) as Hw. rewrite app_nil_r in Hw. rewrite Hw.
  rewrite ParseThreadInfo_stat_line by (done || lia || by (apply Forall_take || apply not_digit_take)).
  destruct (stat_line tid comm state others user kernel more) as [|x line] eqn:E.
  { exfalso. unfold stat_line in E. destruct (dec_chars tid) as (_ & Hne & _). by destruct (dec tid). }
  cbn [mbind option_bind]. unfold in_i32. rewrite (proj2 (Z.leb_le _ _)), (proj2 (Z.ltb_lt _ _)), (proj2 (Z.leb_le _ _)), (proj2 (Z.ltb_lt _ _)) by lia.
  cbn [andb]. do 3 f_equal.
  - destruct (Z.eqb_spec state 82), (Z.eqb_spec state 68), (Z.eqb_spec state 87); cbn; symmetry;
      (apply bool_decide_eq_true; lia) || (apply bool_decide_eq_false; lia).
  - rewrite Z.quot_div_nonneg by lia. apply wrap_small. unfold in_u. pose proof (Z.div_pos ((user + kernel) * 1000) ticks ltac:(lia) Hticks).
    split; [done|]. apply Z.div_lt_upper_bound; [done|]. nia.
Qed.

(** A thread whose name looks like the rest of the line. *)
Module Example_stat.
Definition name : text := ascii_text "a) R 1 (b".
Definition others : list Z := [46; 369; 46; 34817; -1; 4194368; 95; 0; 0; 0].
Definition rest : text := ascii_text " 0 0 20".
Definition file (path : text) (n : Z) : option text :=
  if decide (path = ascii_text "/proc/self/task/377/stat") then Some (take (Z.to_nat n) (stat_line 377 name 83 others 1862 609 rest)) else None.
End Example_stat.

Lemma cpu_time_read_witness :
  GetCpuInfo Example_stat.file 100 377 = Some (Some (false, 24710)) /\ IsRunning Example_stat.file 100 377 = Some (false, 24710, false).
Proof.
  assert (GetCpuInfo Example_stat.file 100 377 = Some (Some (false, 24710))) as H.
  { destruct (cpu_time_read Example_stat.file 100 377 Example_stat.name 83 Example_stat.others 1862 609 Example_stat.rest) as [E _];
      [lia|apply (bool_decide_unpack _); vm_compute; exact I..|lia|lia|lia|lia|apply (bool_decide_unpack _); vm_compute; exact I|vm_compute; reflexivity|vm_compute; reflexivity|]. exact E. }
  split; [exact H|]. unfold IsRunning. by rewrite H.
Defined.

(** After about six hours of processor time, with one hundred ticks in a second, the
    multiplication overflows. *)
Example cpu_time_overflows :
  let file (path : text) (n : Z) := Some (stat_line 377 [] 82 Example_stat.others 2147000 484 []) in
  GetCpuInfo file 100 377 = None /\ 2147484 / 100 / 3600 = 5.
Proof. vm_compute. done. Qed.

(** ** GetProcessStartTimeSinceBoot *)

(** The elements of /proc/self/stat are separated by spaces, those of the name included. *)
Fixpoint skip_elements (n : nat) (pos : text) : option text :=
  match n with
  | O => Some pos
  | S n => match strchr space pos with None => None | Some pos => skip_elements n (skip_spaces pos) end
  end.

(** Seconds; -1 when the file cannot be read or is too short. *)
Definition GetProcessStartTimeSinceBoot (ticks_per_second : Z) (line : option text) : Z :=
  match line with
  | None | Some [] => -1
  | Some line => match skip_elements 21 line with None => -1 | Some pos => Z.quot (strtol pos) ticks_per_second end
  end.

(** The start is the twenty-second element; a space in the name of the process shifts it. *)
Example start_time_of_name :
  let start name := GetProcessStartTimeSinceBoot 100
    (Some (stat_line 377 (ascii_text name) 82 Example_stat.others 1 2 (ascii_text " 3 4 20 0 1 0 4500 99"))) in
  start "dotnet" = 45 /\ start "my app" = 0.
Proof. vm_compute. done. Qed.
