(* ===== verification/NativeThreads.v ===== *)
(** * The processor time of the threads of the garbage collector

    Model of [NativeThreadsCpuProviderBase.cpp] and [GCThreadsCpuProvider.cpp]: at each export
    the times of the threads of the server garbage collector are added up, and the growth
    since the last export becomes one sample with two invented frames.

    Times are milliseconds, and their sums do not overflow.  What the operating system
    answers are arguments: the threads of the process, the time of a thread
    ([ThreadStat.GetThreadCpuTime]), and the variables of the environment. *)
From stdpp Require Import base list strings.
From S2P Require Import Prelude TypeReferenceTree ThreadInfo PprofBuilder SampleExport ThreadStat.

(** ** Data *)

Record NativeThread := mkNative { ThreadName : string; OsThreadId : Z }.

Inductive GCMode := Workstation | Server.

Record GCThreadsCpuProvider := mkGcThreads {
  _previousTotalCpuTime : Z;
  _gcThreads : list NativeThread;
  _number_of_attempts : Z;
  listings : nat                  (* how often the threads of the process were listed *)
}.

Definition new_GCThreadsCpuProvider : GCThreadsCpuProvider := mkGcThreads 0 [] 0 0.

(** ** The threads *)

Definition IsGcThread (t : NativeThread) : bool :=
  bool_decide (ThreadName t = ".NET Server GC") || bool_decide (ThreadName t = ".NET BGC").

(** [processThreads]: the answer of [GetProcessThreads], if it is asked. *)
Definition GetThreads (processThreads : list NativeThread) (p : GCThreadsCpuProvider) : GCThreadsCpuProvider :=
  match _gcThreads p with
  | _ :: _ => p
  | [] =>
      if 2 <? _number_of_attempts p then p
      else mkGcThreads (_previousTotalCpuTime p) (base.filter (fun t => IsGcThread t = true) processThreads)
             (wrap 8 (_number_of_attempts p + 1)) (S (listings p))
  end.

(** [mode]: the variables DOTNET_gcServer and COMPlus_gcServer, trimmed. *)
Definition GetMode (dotnet complus : string) (processThreads : list NativeThread) (p : GCThreadsCpuProvider)
    : GCThreadsCpuProvider * GCMode :=
  let of_value v := if bool_decide (v = "1") || bool_decide (v = "0x1") then Server else Workstation in
  if negb (bool_decide (dotnet = "")) then (p, of_value dotnet)
  else if negb (bool_decide (complus = "")) then (p, of_value complus)
  else
    let p := if _number_of_attempts p =? 0 then GetThreads processThreads p else p in
    (p, match _gcThreads p with [] => Workstation | _ => Server end).

(** ** GetSamples *)

Definition GetFrames : list FrameInfoView := [mkFrame "" "Garbage Collector" "" 0; mkFrame "" ".NET" "" 0].
Definition GetLabels : list Label := [string_of "gc_cpu_sample" "true"].

Definition total (cpuTime : Z -> Z) (ts : list NativeThread) : Z := foldl (fun c t => c + cpuTime (OsThreadId t)) 0 ts.

(** The threads of the collector in the first of these listings, [n] at most, that has any, and
    how many listings that takes. *)
Fixpoint found (n : nat) (ls : list (list NativeThread)) : list NativeThread * nat :=
  match n, ls with
  | S n, l :: ls =>
    match base.filter (fun t => IsGcThread t = true) l with
    | [] => let '(g, k) := found n ls in (g, S k)
    | g => (g, 1%nat)
    end
  | _, _ => ([], 0%nat)
  end.

(** What is known after these listings: nothing changes once there are threads. *)
Definition known (p : GCThreadsCpuProvider) (ls : list (list NativeThread)) : list NativeThread * nat :=
  match _gcThreads p with
  | [] => let '(g, k) := found (Z.to_nat (3 - _number_of_attempts p)) ls in (g, listings p + k)%nat
  | g => (g, listings p)
  end.

Lemma GetThreads_spec ts p ls : 0 <= _number_of_attempts p <= 3 ->
  let p' := GetThreads ts p in
  _previousTotalCpuTime p' = _previousTotalCpuTime p /\ 0 <= _number_of_attempts p' <= 3 /\
  (_gcThreads p <> [] -> _gcThreads p' = _gcThreads p) /\ known p' ls = known p (ts :: ls).
Proof.
  intros Ha. unfold GetThreads, known. destruct (_gcThreads p) as [|t l] eqn:E; [|by rewrite E].
  destruct (Z.ltb_spec 2 (_number_of_attempts p)) as [H2|H2].
  { replace (Z.to_nat (3 - _number_of_attempts p)) with 0%nat by lia. rewrite E.
    by replace (Z.to_nat (3 - _number_of_attempts p)) with 0%nat by lia. }
  cbn [_previousTotalCpuTime _number_of_attempts _gcThreads listings]. unfold wrap. rewrite Z.mod_small by lia.
  split; [done|]. split; [lia|]. split; [done|].
  replace (Z.to_nat (3 - _number_of_attempts p)) with (S (Z.to_nat (3 - (_number_of_attempts p + 1)))) by lia.
  cbn [found]. destruct (base.filter _ ts) as [|g gs]; [|f_equal; lia].
  destruct (found _ ls) as [g k]. f_equal. lia.
Qed.

Lemma found_bound n ls : ((found n ls).2 <= n)%nat.
Proof.
  revert ls. induction n as [|n IH]; intros [|l ls]; cbn; try lia. destruct (base.filter _ l); cbn; [|lia].
  specialize (IH ls). destruct (found n ls). cbn in *. lia.
Qed.

Section samples.
Context (ValuesCount : Z) (GetFrame : Z -> bool * FrameInfoView) (GetId : Z -> option string).

(** A raw sample that is not filled in but for its duration, in nanoseconds. *)
Definition raw_cpu (cpuTime : Z) : RawSample := mkRaw 0 0 zero_context [] [] (RawCpu (cpuTime * 1000000)).

(** The sample, if the threads have run; [fresh] is a new sample. *)
Definition GetSamples (processThreads : list NativeThread) (cpuTime : Z -> Z) (offsets : list Z) (fresh : Sample) (p : GCThreadsCpuProvider)
    : result (option Sample * GCThreadsCpuProvider) :=
  let p := GetThreads processThreads p in
  let currentTotalCpuTime := total cpuTime (_gcThreads p) in
  let growth := if _previousTotalCpuTime p <=? currentTotalCpuTime then currentTotalCpuTime - _previousTotalCpuTime p else 0 in
  let p := mkGcThreads currentTotalCpuTime (_gcThreads p) (_number_of_attempts p) (listings p) in
  if growth =? 0 then Returned (None, p)
  else
    sample ← Transform ValuesCount GetFrame GetId (raw_cpu growth) offsets fresh;
    Returned (Some (foldl (fun s l => AddLabel l s) (foldl (fun s f => AddFrame f s) sample GetFrames) GetLabels), p).

(** The exports, each with the answers of the operating system. *)
Fixpoint exports (answers : list (list NativeThread * (Z -> Z))) (offsets : list Z) (fresh : Sample) (p : GCThreadsCpuProvider)
    : result (list Sample * GCThreadsCpuProvider) :=
  match answers with
  | [] => Returned ([], p)
  | (ts, cpu) :: answers =>
      '(s, p) ← GetSamples ts cpu offsets fresh p;
      '(ss, p) ← exports answers offsets fresh p;
      Returned (option_list s ++ ss, p)
  end.

(** ** Proofs *)

Context (o0 o1 : Z) (fresh : Sample).
Context (H0 : 0 <= o0 < ValuesCount) (H1 : 0 <= o1 < ValuesCount) (Hne : o0 <> o1) (Hfresh : zlen (_values fresh) = ValuesCount).

(** What is in the sample for this time. *)
Definition reports (cpuTime : Z) (s : Sample) : Prop :=
  zget (_values s) o0 = Some (cpuTime * 1000000) /\ zget (_values s) o1 = Some 1 /\
  _callstack s = GetFrames /\ _allLabels s = GetLabels.

Lemma AddValue_in v i s : 0 <= i < ValuesCount -> zlen (_values s) = ValuesCount ->
  exists vs, zset (_values s) i v = Some vs /\
    AddValue ValuesCount v i s = Returned (mkSample (PprofBuilder._timestamp s) (_callstack s) vs (_allLabels s) (PprofBuilder._traceContext s) (_runtimeId s) (_leafFrame s)) /\
    zlen vs = ValuesCount /\ zget vs i = Some v /\ forall j, j <> i -> 0 <= j -> zget vs j = zget (_values s) j.
Proof.
  intros Hi Hl. unfold AddValue. rewrite (proj2 (Z.leb_gt _ _)) by lia.
  rewrite (zset_in_range (_values s) i v) by lia. eexists. split_and!; [done|done|by rewrite zlen_insert|apply zget_insert_eq; lia|].
  intros j Hj Hj0. apply zget_insert_ne; lia.
Qed.

Lemma Transform_raw_cpu cpuTime : exists s, Transform ValuesCount GetFrame GetId (raw_cpu cpuTime) [o0; o1] fresh = Returned s /\
  zget (_values s) o0 = Some (cpuTime * 1000000) /\ zget (_values s) o1 = Some 1 /\ _callstack s = [] /\ _allLabels s = [].
Proof.
  unfold Transform, raw_cpu. cbn [Tags Stack Data AppDomainId Timestamp RawContext foldl SetStack OnTransform].
  set (s := SetOrigin _ _ _ (SampleReset fresh)). assert (zlen (_values s) = ValuesCount) as Hs by (cbn; by rewrite length_replicate).
  unfold set_two, offset. cbn [zget]. change (zget [o0; o1] 0) with (Some o0). change (zget [o0; o1] 1) with (Some o1). cbn [mbind result_bind].
  destruct (AddValue_in (cpuTime * 1000000) o0 s H0 Hs) as (vs & _ & -> & Hl & Hv & _). cbn [mbind result_bind].
  match goal with |- context [AddValue _ 1 o1 ?x] => set (s1 := x) end.
  destruct (AddValue_in 1 o1 s1 H1 Hl) as (vs1 & _ & -> & Hl1 & Hv1 & Ho). eexists. split; [done|]. cbn.
  split_and!; [by rewrite Ho by lia|done..].
Qed.

Lemma GetSamples_reports ts cpu p : exists s,
  let p' := GetThreads ts p in
  let now := total cpu (_gcThreads p') in
  let growth := Z.max 0 (now - _previousTotalCpuTime p') in
  GetSamples ts cpu [o0; o1] fresh p = Returned (s, mkGcThreads now (_gcThreads p') (_number_of_attempts p') (listings p')) /\
  match s with Some s => 0 < growth /\ reports growth s | None => growth = 0 end.
Proof.
  set (p' := GetThreads ts p). set (now := total cpu (_gcThreads p')). set (growth := Z.max 0 (now - _previousTotalCpuTime p')).
  unfold GetSamples. fold p'. fold now.
  assert ((if _previousTotalCpuTime p' <=? now then now - _previousTotalCpuTime p' else 0) = growth) as ->.
  { unfold growth. destruct (Z.leb_spec (_previousTotalCpuTime p') now); lia. }
  destruct (Z.eqb_spec growth 0) as [E|E]; [by exists None|].
  destruct (Transform_raw_cpu growth) as (s & -> & Hv0 & Hv1 & Hf & Hl). cbn [mbind result_bind]. eexists (Some _). split; [done|].
  split; [lia|]. unfold reports. cbn. by rewrite Hf, Hl.
Qed.

(** The times of the threads do not decrease. *)
Fixpoint grows (f : Z -> Z) (answers : list (list NativeThread * (Z -> Z))) : Prop :=
  match answers with [] => True | (_, g) :: answers => (forall id, f id <= g id) /\ grows g answers end.

Fixpoint last_times (f : Z -> Z) (answers : list (list NativeThread * (Z -> Z))) : Z -> Z :=
  match answers with [] => f | (_, g) :: answers => last_times g answers end.

Lemma total_le f g ts : (forall id, f id <= g id) -> total f ts <= total g ts.
Proof.
  intros Hfg. unfold total. assert (forall a b, a <= b -> foldl (fun c t => c + f (OsThreadId t)) a ts <= foldl (fun c t => c + g (OsThreadId t)) b ts) as H;
    [|by apply H]. induction ts as [|t ts IH]; intros a b Hab; cbn; [done|]. apply IH. specialize (Hfg (OsThreadId t)). lia.
Qed.

Lemma total_zero ts : total (fun _ => 0) ts = 0.
Proof. unfold total. induction ts as [|t ts IH]; [done|exact IH]. Qed.

Fixpoint reported (ss : list Sample) (times : list Z) : Prop :=
  match ss, times with [], [] => True | s :: ss, t :: times => 0 < t /\ reports t s /\ reported ss times | _, _ => False end.

Definition sum (l : list Z) : Z := foldr Z.add 0 l.

Lemma exports_reported answers : forall f p, (forall id, 0 <= f id) -> grows f answers -> 0 <= _number_of_attempts p <= 3 ->
  _previousTotalCpuTime p = total f (_gcThreads p) ->
  exists ss p' times, exports answers [o0; o1] fresh p = Returned (ss, p') /\ reported ss times /\
    _previousTotalCpuTime p + sum times = total (last_times f answers) (_gcThreads p') /\
    (_gcThreads p', listings p') = known p answers.*1.
Proof.
  induction answers as [|[ts g] answers IH]; intros f p Hf Hg Ha Hp; cbn [exports].
  { exists [], p, []. split_and!; auto; try lia. { cbn. lia. }
    unfold known. cbn [fmap list_fmap]. destruct (_gcThreads p); [|done]. by destruct (Z.to_nat _); cbn; rewrite Nat.add_0_r. }
  destruct Hg as [Hfg Hg]. destruct (GetSamples_reports ts g p) as (s & E & Hs).
  destruct (GetThreads_spec ts p answers.*1 Ha) as (Hp' & Ha' & Hk & Hkn).
  set (p1 := GetThreads ts p) in *. rewrite E. cbn [mbind result_bind]. set (growth := Z.max 0 _) in *.
  assert (total g (_gcThreads p1) - total f (_gcThreads p) = growth) as Hgr.
  { unfold growth. rewrite Hp', Hp. destruct (decide (_gcThreads p = [])) as [->|Hn].
    - change (total f []) with 0. pose proof (total_le (fun _ => 0) g (_gcThreads p1) ltac:(intros id; cbn beta; specialize (Hf id); specialize (Hfg id); lia)) as Hle.
      rewrite total_zero in Hle. lia.
    - rewrite Hk by done. pose proof (total_le f g (_gcThreads p) Hfg). lia. }
  edestruct (IH g (mkGcThreads (total g (_gcThreads p1)) (_gcThreads p1) (_number_of_attempts p1) (listings p1))) as (ss & p2 & times & -> & Hr & Hsum & Hk2);
    [intros id; specialize (Hf id); specialize (Hfg id); lia|done|done|done|]. cbn [mbind result_bind _gcThreads _previousTotalCpuTime] in *.
  exists (option_list s ++ ss), p2, (match s with Some _ => [growth] | None => [] end ++ times). split_and!; [done| | |].
  - destruct s as [s|]; [|done]. cbn. destruct Hs as [? ?]. done.
  - cbn [last_times]. rewrite <- Hsum. destruct s as [s|]; cbn; unfold sum; cbn; [|rewrite Hs in Hgr]; lia.
  - rewrite Hk2. rewrite fmap_cons. cbn [fst]. rewrite <- Hkn. reflexivity.
Qed.
End samples.

(** C28: As long as the times of the threads do not decrease, the exports always succeed, each
    gives at most one sample, with the two invented frames and the label, a positive time
    and the count one; and the times of all samples add up to all the time that the
    threads of the garbage collector have used until the last export, also before they were
    found.  These threads are all the threads with the names of the collector in the first
    listing of the threads of the process that has any, of three at most: the threads are not
    listed more often, and not again once they are found. *)
Theorem gc_cpu_reported ValuesCount GetFrame GetId o0 o1 fresh answers :
  0 <= o0 < ValuesCount -> 0 <= o1 < ValuesCount -> o0 <> o1 -> zlen (_values fresh) = ValuesCount ->
  grows (fun _ => 0) answers ->
  exists ss p times, exports ValuesCount GetFrame GetId answers [o0; o1] fresh new_GCThreadsCpuProvider = Returned (ss, p) /\
    reported o0 o1 ss times /\ sum times = total (last_times (fun _ => 0) answers) (_gcThreads p) /\
    _gcThreads p = (found 3 answers.*1).1 /\ listings p = (found 3 answers.*1).2 /\ (listings p <= 3)%nat.
Proof.
  intros H0 H1 Hne Hv Hg.
  destruct (exports_reported ValuesCount GetFrame GetId o0 o1 fresh H0 H1 Hne Hv answers (fun _ => 0) new_GCThreadsCpuProvider)
    as (ss & p & times & E & Hr & Hs & Hk); [done|done|done|done|].
  pose proof (found_bound 3 answers.*1) as Hb. change (known _ _) with (let '(g, k) := found 3 answers.*1 in (g, 0 + k)%nat) in Hk.
  exists ss, p, times. destruct (found 3 answers.*1) as [g k]. injection Hk as Hgk Hlk. cbn in Hb |- *.
  split_and!; [done|done|exact Hs|done|done|lia].
Qed.

(** ** Examples *)
Module Example_gc.
Definition threads : list NativeThread := [mkNative "main" 1; mkNative ".NET Server GC" 2; mkNative ".NET BGC" 3].
Definition times (a b : Z) (id : Z) : Z := if id =? 2 then a else if id =? 3 then b else 0.
Definition fresh : Sample := mkSample 0 [] [0; 0] [] zero_context "" "".
Definition answers : list (list NativeThread * (Z -> Z)) := [([], times 5 0); (threads, times 20 1); ([], times 20 1); ([], times 70 2)].
End Example_gc.

Lemma gc_cpu_reported_witness :
  exists ss p, exports 2 (fun _ => (false, mkFrame "" "" "" 0)) (fun _ => None) Example_gc.answers [0; 1] Example_gc.fresh new_GCThreadsCpuProvider
      = Returned (ss, p) /\ (_values <$> ss) = [[21000000; 1]; [51000000; 1]] /\ listings p = 2%nat.
Proof.
  destruct (gc_cpu_reported 2 (fun _ => (false, mkFrame "" "" "" 0)) (fun _ => None) 0 1 Example_gc.fresh Example_gc.answers)
    as (ss & p & times & E & _); [lia|lia|done|done| |].
  { cbn. unfold Example_gc.times. repeat split; intros id; repeat case_match; lia. }
  exists ss, p. split; [exact E|]. vm_compute in E. injection E as <- <-. vm_compute. done.
Defined.

(** When the time of a thread cannot be read once, all the time it has used is reported again. *)
Example reported_twice :
  let answers := [(Example_gc.threads, Example_gc.times 20 0); ([], fun _ => 0); ([], Example_gc.times 25 0)] in
  match exports 2 (fun _ => (false, mkFrame "" "" "" 0)) (fun _ => None) answers [0; 1] Example_gc.fresh new_GCThreadsCpuProvider with
  | Returned (ss, _) => (_values <$> ss) = [[20000000; 1]; [25000000; 1]]
  | _ => False
  end.
Proof. vm_compute. done. Qed.
